(* ===== verification/_CoqProject ===== *)
-Q . S2P
Prelude.v
Protocol.v
Utils.v
Crypto.v
Frame.v
Xor.v
Fec.v
FecSpec.v
Buffer.v
Reorder.v
ReorderSpec.v
RxActor.v
RxSpec.v
Adaptive.v
Queue.v
Port.v
PortSpec.v
VSwitch.v
Pool.v
Brutal.v
PeerInfo.v
Session.v
SessionSpec.v
SessionGuard.v
FecKeys.v
Policy.v
Cork.v
Socks.v
Hooks.v
TapDelivery.v
Client.v
ClientSpec.v
Handshake.v
Writer.v
WriterSpec.v
WriterRun.v
Reader.v
ReaderSpec.v
Worker.v
WorkerSpec.v
WorkerRefine.v
WorkerGuard.v
StreamSpec.v
ClientRx.v
ClientRxSpec.v
Downlink.v
Uplink.v
Lifecycle.v
TapReader.v
Tls.v
WebState.v
WebSpec.v
WebStore.v
Trend.v
Status.v
StatusSpec.v
ClientStatus.v
Calendar.v
WebStoreSpec.v
TrafficSpec.v
Config.v
ConfigSpec.v
Api.v
ApiSpec.v
