(* ===== verification/Prelude.v ===== *)
(** * A verification of tlsvpn-rs

    tlsvpn-rs is a layer-2 VPN over several parallel TLS connections.  A frame
    read from the TAP device or from another session enters the virtual switch,
    which hands it to the port of the destination session.  The port numbers it,
    feeds the XOR FEC encoder, picks one of the session's backends (physical
    connections) with the adaptive scheduler and enqueues it in that backend's
    batch queue; the backend's TLS writer frames, pads and optionally seals it.
    On the other side a scanner cuts the byte stream into frames, the inner
    cipher opens them, and the receive actor of the session filters duplicates,
    repairs losses with the FEC decoder, restores the order and delivers to the
    switch.  Around the data plane the server keeps a table of sessions: a handshake
    authenticates a client, creates or resumes its session, negotiates keys, FEC and
    rates, and leases one IPv4 and one IPv6 address; the client keeps an identity and a
    resume token on disk, supervises its connections and configures the host.

    ** Files, in order

    - [Prelude]: machine integers as [Z] with explicit wrap-around and saturation,
      big-endian codecs, slices, the [result] type, tactics and hint databases.
    - [Protocol] ([src/src/protocol.rs]): the FEC_MODE codec, the receive fence
      ([FecRxFenceState], atomic and actor versions) and the sender's mode state
      machine ([FecTxModeState]).  The codec is exact, the fence refines a
      specification by intervals and never regresses, the controls the sender
      emits are well formed.
    - [Utils] ([src/src/utils.rs]): the xorshift source [FastRand], client ids,
      MAC texts.
    - [Crypto] ([src/src/crypto.rs]): key derivation, nonces, in-place sealing and
      opening, tokens, padding policy.  The AEADs, hashes and HMAC are the class
      [CryptoPrims]; their documented laws are [CryptoLaws], and [toy_prims] is an
      instance of both.
    - [Frame] ([src/src/frame.rs]): frame writer, batch padding, [FrameScanner] over
      an explicit list of read results.  Any stream written is read back under any
      fragmentation; oversized headers are refused at once.
    - [Xor], [Fec], [FecSpec] ([src/src/fec.rs]): the XOR kernels of every processor,
      the encoder, the mutex and the actor decoder.  The kernels are bytewise XOR,
      one parity repairs any single loss, the decoders are equal, memory is bounded.
    - [Buffer], [Reorder], [ReorderSpec] ([src/src/buffer.rs]): frame pools, duplicate
      filter, reorder ring.  The ring refines a map with an acceptance window;
      delivery is in order, exactly once, complete for permutations, and a gap is
      skipped after 50 ms.  Delivering the very last number makes the ring forget its
      position.
    - [RxActor], [RxSpec] ([src/src/rx_actor.rs]): the receive pipeline of a session,
      end to end over the three components above, and the threads that share it: a step
      under the state lock and the delivery after it are separate steps ([thread_step]).
      Frames are released in order and once over all threads; the delivery callback sees
      that order when no thread locks while another still has frames in hand, and may
      see another one otherwise.
    - [Adaptive] ([src/src/adaptive_multipath.rs]): the scheduler.  It chooses
      uncongested paths of low RTT, keeps one to four of them active and serves the
      active ones by weighted fair queueing.
    - [Queue] ([src/src/net.rs], [src/src/frame.rs]): [OwnedBatchQueue] is a bounded FIFO.
    - [Port], [PortSpec] ([src/src/net.rs]): [AsyncPort].  Sequence numbers and hence
      nonces are unique in an epoch, in the stream of a backend, over any sequence of
      sends and writer pops, a control precedes the data it governs, every frame is
      queued once or counted as dropped.
    - [VSwitch] ([src/src/net.rs]): registered MACs cannot be hijacked or claimed by
      others, frames do not return to their source, floods are bounded, the batch
      path equals the scalar path.
    - [Pool] ([src/src/server.rs], [src/src/utils.rs]): the address pool never leases an
      address twice and never leaks one; CIDR parsing and validation.
    - [Brutal] ([src/src/net.rs]): TCP Brutal parameters over a class of socket
      operations; a connection's shares add up, and a socket is shaped or restored.
    - [PeerInfo] ([src/src/peer_info.rs]): the host facts a client reports are bounded.
    - [Session], [SessionSpec], [SessionGuard] ([src/src/server.rs], [src/src/api.rs]): the
      session table, [handle_handshake] with every check, resume tokens, epochs, closing,
      sweeping, reaping, bans and operator actions.  Over any sequence of operations the
      connection counters are exact, the sessions of the table hold exactly the ports,
      MAC bindings, registry entries and addresses; tokens survive lost answers, only
      entitled peers are admitted, idle sessions are reclaimed unless their sequence
      numbers ran out.
    - [FecKeys]: the data path leaves the parity ciphers of ports and decoders in place.
    - [Policy] ([src/src/net.rs]): policy routing; the cleanup undoes the installation.
    - [Cork] ([src/src/tcp_cork.rs]): bytes are held back for a bounded time only.
    - [Socks] ([src/src/socks5.rs]): the proxy's text form and the handshake.
    - [Hooks] ([src/src/hooks.rs], [src/src/client_state.rs]): lifecycle hooks run once,
      the state file is replaced atomically.
    - [TapDelivery] ([src/src/client.rs]): the queue to the TAP writer and the receive
      batches of the client; the device gets exactly the accepted frames in order.
    - [Client], [ClientSpec] ([src/src/client.rs]): start-up identity, request and answer,
      epoch adoption, reconnect pacing.
    - [Handshake]: client and server together.  Both ends derive the same keys, and the
      encoders and decoders of both hold the parity keys crosswise; an epoch with a fresh
      salt is switched once, the saved epoch does not regress.
    - [Writer], [WriterSpec], [WriterRun] ([src/src/server.rs], [src/src/client.rs],
      [src/src/stats_accounting.rs]): the loops that move queued frames into TLS and TLS
      output into the socket, over a class for rustls ([Rustls], [RustlsLaws], instance
      [plain_tls]) and a scripted socket.  They end, agree with each other, write a FIFO
      that the peer decodes exactly, and keep the scheduler's byte count exact.
    - [Reader], [ReaderSpec] ([src/src/server.rs]): the receive loop of a connection.  It
      ends, and the size of its batches is invisible.
    - [Worker], [WorkerSpec], [WorkerRefine], [WorkerGuard] ([src/src/server.rs],
      [src/src/net.rs]): the threads that accept and serve connections.  A worker keeps its
      limits and hands every connection back once; all workers together refine the session
      operations, so that the theorems on sessions hold of the running server; strangers
      get a 403 page and reach nothing, serving ends, silent peers are dropped.
    - [StreamSpec]: what a received stream stands for, shared by both directions.
    - [ClientRx], [ClientRxSpec] ([src/src/client.rs]): the data loop of a client's
      connection, turn by turn: guards, poll deadline, socket, frames, batches, timers.  It
      ends, respects its deadlines, and rotates an exhausted epoch once.
    - [Downlink], [Uplink]: sender, stream and receiver together.  What the server queues
      for a connection arrives on the client's TAP device in order, once and complete, less
      the batches a full delivery queue refuses and counts; what the client queues leaves
      the server's switch as if it had been handed over directly.  Both are about one
      connection with consecutive numbers: the client of a single connection, and a server
      session without receive actor and FEC.  Producers, turns, socket
      answers and cuttings of the stream interleave in any way.
    - [Lifecycle], [TapReader] ([src/src/client.rs], [src/src/utils.rs], [src/src/tap.rs]):
      interface, routing and scripts from the answer to the data loop, cleanup and exit
      status; the thread that reads the device.  Scripts run once, the up script only on a
      ready network, the first failure is reported; every frame read reaches the port.
    - [Tls] ([src/src/client.rs], [src/src/server.rs], [src/src/api.rs]): the choice of the
      certificate check, the pin, and the record of a client's greeting.  A pin accepts
      exactly its certificate; the fingerprint determines the offer.
    - [WebState], [WebSpec] ([src/src/web_parity.rs]): JSON values, redaction and merging
      of secrets, changed paths.  The redacted form can be submitted back without loss,
      the list of changed paths is exact.
    - [WebStore], [WebStoreSpec], [TrafficSpec], [Calendar] ([src/src/web_parity.rs]):
      login sessions, event ring and subscribers, traffic buckets, calendar day.  Sessions
      follow their own history, subscribers miss nothing, the buckets add up to the
      counters, the day is the Gregorian one.
    - [Trend] ([src/src/web_parity.rs]): the rate rings over a class of floating-point
      operations, and one observation as a whole.  The rings are bounded and account for
      every byte and every moment.
    - [Status], [StatusSpec], [ClientStatus] ([src/src/server.rs], [src/src/client.rs]): the
      statistics value and the metrics text of both modes.  The FEC counts of the
      statistics are conserved by every operation on sessions, less what is decoded for a
      session that already left the table, and by every answer a client takes; a collector reads every metric; the counters of the server's metrics are not
      conserved, nor is the traffic of a session that is destroyed between observations.
    - [Config], [ConfigSpec] ([src/src/main.rs]): decoding, defaults and validation of the
      configuration; what an accepted document guarantees.
    - [Api], [ApiSpec] ([src/src/api.rs], [src/src/webui_assets.rs]): one HTTP request from
      the guard to the reply.  Without credentials nothing happens and nothing leaks, a
      login lasts, and no request leaves a configuration that the next start refuses.

    ** Conventions

    A Rust method [T::m] is the function [m], or [T_m] where the name is shared; a
    struct is a record whose fields carry a short prefix.  [&mut self] methods return
    the new state.  [Result] is [result], [Option] is [option].  Unsigned integers are
    [Z] kept in range by the operations ([u32_wrap], [u64_sat_add], ...); lengths and
    counts of objects in memory are [nat].  Unchecked arithmetic wraps as in the
    release profile.  Atomics and mutex-protected data are plain fields: an operation
    is a function on the state, and interleavings are sequences of operations
    ([rb_run], [thread_run], [queue_run], [backend_run], [port_run], [vs_run], [pool_run], [server_run],
    [td_step], [writer_runs], [pool_step]).  Clocks are
    arguments.  Names that end in [Spec] hold invariants, abstract specifications and
    theorems.

    ** Bounds and fuel

    Loops that are not structural take fuel and the theorems show that it suffices:
    the reorder flush runs at most once per ring slot; the scanner's fuel is a measure
    of the remaining reads and bytes; the dispatch loop has the turns its attempt
    counter allows; the batch loop of the switch has one turn per frame; the address
    scan doubles, so the width of the family gives enough turns for every network; the
    fill loops of the writers have one turn per waiting batch; the receive loop has one
    turn per unread byte, and a frame takes ten, before the handshake as after it.
    The theorems on the order of delivery are about the sequence numbers 1 to
    0xfffffffe of an epoch and need what arrives to lag less than about 2^32 - 65600
    numbers ([STALE_LIMIT], [RECENT_LIMIT]): the code compares numbers modulo 2^32.

    ** Parameters

    Code outside the repository is a class with its documented laws and an instance: the
    ciphers and hashes ([CryptoPrims]), hex and UUID libraries ([HexCodec], [UuidLib]),
    JSON of the state file ([StateCodec]), JSON and Base64 of requests ([Decoders]), the
    programs behind the dashboard ([Provider]), channels ([FrameChannel]), socket options
    ([BrutalSocketOps]), the ip(8) tool ([IpTool]), address texts ([family]), rustls
    ([Rustls]), floating-point numbers ([FloatOps]).

    ** What is not modelled

    Threads, sockets, TLS itself, mio polling and timers (their effects are the operations
    and the clock arguments); races inside one operation, where a lock is released and
    taken again (the delivery of the receive actor apart, whose two halves are steps of
    their own in [RxActor]; the loops in [Reader] and [ClientRx] take them together); the JSON text of handshake messages and of the configuration (the models
    start at the decoded value); members of the statistics that are floating-point numbers;
    the system call wrappers of [src/src/net.rs] (socket options, marks, RTT and MSS of a
    socket); the start-up of threads and listeners and the rebinding of the dashboard;
    dialling, DNS and the TAP device: these are calls of the operating system with no state
    of the program around them.  The flood tokens are exact numbers where the source uses
    [f64].  Recycling of payload buffers is modelled for the pools themselves and for the
    thread that reads the device, not at each place that drops a frame. *)
From stdpp Require Export base list gmap strings.
From Stdlib Require Export ZArith Lia.

#[global] Open Scope Z_scope.
#[global] Arguments Nat.modulo : simpl never.
#[global] Arguments Nat.div : simpl never.

(** ** Machine integers

    A [w]-bit unsigned Rust integer is a [Z] in [0, 2^w); every place where the
    source wraps or saturates says so with one of the operations below. *)

Definition U16_MAX : Z := 65535.
Definition U32_MAX : Z := 4294967295.
Definition U64_MAX : Z := 18446744073709551615.
Definition I64_MAX : Z := 9223372036854775807.

Definition u32_wrap (z : Z) : Z := z mod 4294967296.
Definition u64_wrap (z : Z) : Z := z mod 18446744073709551616.
Definition i64_wrap (z : Z) : Z :=
  (z + 9223372036854775808) mod 18446744073709551616 - 9223372036854775808.
(** [x as i32] for a [u32] value [x]. *)
Definition u32_as_i32 (z : Z) : Z := if z <? 2147483648 then z else z - 4294967296.

(** Saturating arithmetic of unsigned types; [sat_sub] is the same at any width. *)
Definition sat_sub (a b : Z) : Z := Z.max 0 (a - b).
Definition u64_sat_add (a b : Z) : Z := Z.min U64_MAX (a + b).
Definition u64_sat_mul (a b : Z) : Z := Z.min U64_MAX (a * b).

Definition i64_sat_sub (a b : Z) : Z := Z.max (-9223372036854775808) (Z.min I64_MAX (a - b)).

Definition is_byte (b : Z) : Prop := 0 <= b < 256.
Definition is_u32 (z : Z) : Prop := 0 <= z <= U32_MAX.
Definition is_u64 (z : Z) : Prop := 0 <= z <= U64_MAX.
Abbreviation bytes_ok := (Forall is_byte).

(** Lengths as [usize] values. *)
Abbreviation zlen l := (Z.of_nat (length l)).

(** ** Tactics of the development *)

Create HintDb vpn discriminated.
Create Rewrite HintDb vpnlen.

Ltac unfold_ints :=
  unfold is_byte, is_u32, is_u64, u32_wrap, u64_wrap, u32_as_i32,
    sat_sub, u64_sat_add, u64_sat_mul, U16_MAX, U32_MAX, U64_MAX, I64_MAX in *.

(** Case analysis on every boolean comparison of the goal and the context. *)
Ltac case_bool :=
  match goal with
  | |- context [?a =? ?b] => destruct (Z.eqb_spec a b)
  | |- context [?a <? ?b] => destruct (Z.ltb_spec a b)
  | |- context [?a <=? ?b] => destruct (Z.leb_spec a b)
  | H : context [?a =? ?b] |- _ => destruct (Z.eqb_spec a b)
  | H : context [?a <? ?b] |- _ => destruct (Z.ltb_spec a b)
  | H : context [?a <=? ?b] |- _ => destruct (Z.leb_spec a b)
  end.
Ltac case_bools := repeat (case_bool; simpl in *; try lia; simplify_eq).

(** Euclidean division facts that [lia] does not see. *)
Ltac div_mod a b :=
  pose proof (Z.div_mod a b ltac:(lia)); pose proof (Z.mod_pos_bound a b ltac:(lia)).

Lemma u32_wrap_id z : is_u32 z -> u32_wrap z = z.
Proof. unfold_ints. intros. apply Z.mod_small. lia. Qed.
Lemma u64_wrap_id z : is_u64 z -> u64_wrap z = z.
Proof. unfold_ints. intros. apply Z.mod_small. lia. Qed.

(** ** Big-endian integers

    [be_encode n z] is [z.to_be_bytes()] for an [n]-byte integer and
    [be_decode] is [from_be_bytes] / [BigEndian::read_*]. *)

Fixpoint be_encode (n : nat) (z : Z) : list Z :=
  match n with
  | O => []
  | S n' => (z / 256 ^ Z.of_nat n') mod 256 :: be_encode n' z
  end.

Definition be_decode (l : list Z) : Z := foldl (fun acc b => acc * 256 + b) 0 l.

Lemma length_be_encode n z : length (be_encode n z) = n.
Proof. induction n; simpl; congruence. Qed.
#[export] Hint Rewrite length_be_encode : vpnlen.

Lemma be_encode_bytes n z : bytes_ok (be_encode n z).
Proof.
  induction n; simpl; constructor; auto.
  unfold is_byte. apply Z.mod_pos_bound. lia.
Qed.
#[export] Hint Resolve be_encode_bytes : vpn.

Lemma foldl_be acc l :
  foldl (fun acc b => acc * 256 + b) acc l = acc * 256 ^ zlen l + be_decode l.
Proof.
  unfold be_decode. revert acc. induction l as [|b l IH]; intros acc; simpl.
  - rewrite Z.pow_0_r. lia.
  - rewrite IH, (IH (0 * 256 + b)). rewrite Nat2Z.inj_succ, Z.pow_succ_r by lia. lia.
Qed.

Lemma be_decode_cons b l : be_decode (b :: l) = b * 256 ^ zlen l + be_decode l.
Proof. unfold be_decode at 1. simpl. by rewrite foldl_be. Qed.

Lemma be_decode_app l1 l2 : be_decode (l1 ++ l2) = be_decode l1 * 256 ^ zlen l2 + be_decode l2.
Proof. unfold be_decode at 1. rewrite foldl_app. apply foldl_be. Qed.

Lemma be_decode_encode_mod n z : be_decode (be_encode n z) = z mod 256 ^ Z.of_nat n.
Proof.
  induction n as [|n IH]; [simpl; rewrite Z.mod_1_r; done|].
  cbn [be_encode]. rewrite be_decode_cons, length_be_encode, IH.
  rewrite Nat2Z.inj_succ, Z.pow_succ_r, (Z.mul_comm 256) by lia.
  rewrite Z.rem_mul_r by lia. lia.
Qed.

Lemma be_decode_encode n z : 0 <= z < 256 ^ Z.of_nat n -> be_decode (be_encode n z) = z.
Proof. intros H. rewrite be_decode_encode_mod. by apply Z.mod_small. Qed.

Lemma be_decode_encode_4 z : is_u32 z -> be_decode (be_encode 4 z) = z.
Proof. intros. apply be_decode_encode. unfold_ints. change (256 ^ Z.of_nat 4) with 4294967296. lia. Qed.

Lemma be_decode_bound l : bytes_ok l -> 0 <= be_decode l < 256 ^ zlen l.
Proof.
  induction 1 as [|b l Hb Hl IH]; [done|].
  rewrite be_decode_cons. cbn [length]. rewrite Nat2Z.inj_succ, Z.pow_succ_r by lia.
  unfold is_byte in Hb. nia.
Qed.

Lemma be_encode_add_high n m d b :
  (n <= m)%nat -> be_encode n (b * 256 ^ Z.of_nat m + d) = be_encode n d.
Proof.
  induction n as [|n IH]; intros Hnm; [done|]. cbn [be_encode].
  rewrite IH by lia. f_equal.
  replace (Z.of_nat m) with (Z.of_nat (m - n - 1) + 1 + Z.of_nat n) by lia.
  rewrite !Z.pow_add_r, Z.pow_1_r, !Z.mul_assoc, Z.div_add_l by lia.
  by rewrite Z.add_comm, Z.mod_add by lia.
Qed.

Lemma be_encode_decode l : bytes_ok l -> be_encode (length l) (be_decode l) = l.
Proof.
  induction 1 as [|b l Hb Hl IH]; [done|].
  pose proof (be_decode_bound l Hl) as Hd. unfold is_byte in Hb.
  cbn [length be_encode]. rewrite be_decode_cons. f_equal.
  - rewrite Z.div_add_l, (Z.div_small (be_decode l)) by lia.
    rewrite Z.add_0_r. by apply Z.mod_small.
  - by rewrite be_encode_add_high.
Qed.

Lemma be_encode_inj n x y :
  0 <= x < 256 ^ Z.of_nat n -> 0 <= y < 256 ^ Z.of_nat n ->
  be_encode n x = be_encode n y -> x = y.
Proof. intros Hx Hy E. by rewrite <-(be_decode_encode n x), <-(be_decode_encode n y), E. Qed.

(** ** Slices

    [slice a b l] is [&l[a..b]]; the source's bounds checks are part of the
    definitions that use it, so the total version here is never read out of
    range. [write_at i src l] is [l[i..i+src.len()].copy_from_slice(src)]. *)

Definition slice {A} (a b : nat) (l : list A) : list A := take (b - a) (drop a l).
Definition write_at {A} (i : nat) (src l : list A) : list A :=
  take i l ++ src ++ drop (i + length src) l.
Definition nth_byte (l : list Z) (i : nat) : Z := default 0 (l !! i).
(** [Vec::resize(n, 0)]. *)
Definition resize0 (n : nat) (l : list Z) : list Z := take n l ++ replicate (n - length l) 0.

Lemma length_slice {A} a b (l : list A) :
  (a <= b <= length l)%nat -> length (slice a b l) = (b - a)%nat.
Proof. intros. unfold slice. rewrite length_take, length_drop. lia. Qed.

Lemma length_resize0 n l : length (resize0 n l) = n.
Proof. unfold resize0. rewrite length_app, length_take, length_replicate. lia. Qed.
#[export] Hint Rewrite length_resize0 : vpnlen.

Lemma length_write_at {A} i (src l : list A) :
  (i + length src <= length l)%nat -> length (write_at i src l) = length l.
Proof. intros. unfold write_at. rewrite !length_app, length_take, length_drop. lia. Qed.

Lemma nth_byte_resize0 n l i : (length l <= n)%nat -> nth_byte (resize0 n l) i = nth_byte l i.
Proof.
  intros. unfold nth_byte, resize0. rewrite take_ge by done.
  destruct (decide (i < length l)%nat).
  - by rewrite lookup_app_l.
  - rewrite lookup_app_r, (lookup_ge_None_2 l) by lia. simpl.
    destruct (replicate _ _ !! _) eqn:E; [|done].
    by apply lookup_replicate in E as [-> _].
Qed.

Lemma slice_app_l {A} (l1 l2 : list A) n :
  length l1 = n -> slice 0 n (l1 ++ l2) = l1.
Proof. intros <-. unfold slice. rewrite drop_0, Nat.sub_0_r. apply take_app_length. Qed.

Lemma slice_app_r {A} (l1 l2 : list A) a b n :
  length l1 = n -> (n <= a)%nat -> slice a b (l1 ++ l2) = slice (a - n) (b - n) l2.
Proof.
  intros <- Ha. unfold slice. rewrite drop_app_ge by done. f_equal. lia.
Qed.

(** ** Results

    Fallible Rust code returns [Result]: a success or an error message. *)

Inductive result (A E : Type) : Type :=
| Ok (a : A)
| Err (e : E).
Arguments Ok {A E} a.
Arguments Err {A E} e.

Definition result_bind {A B E} (r : result A E) (k : A -> result B E) : result B E :=
  match r with Ok a => k a | Err e => Err e end.

Declare Scope result_scope.
Notation "x <-? r ; k" := (result_bind r (fun x => k))
  (at level 100, r at next level, right associativity) : result_scope.
#[global] Open Scope result_scope.
