(* ===== verification/Protocol.v ===== *)
(** * Protocol v3 control plane: [src/src/protocol.rs]

    Constants, the FEC_MODE codec, the arithmetic FEC group boundaries, the
    receiver's fence state ([FecRxFenceState]) and the sender's topology state
    machine ([FecTxModeState]).  A mutex or an atomic of the source is a plain
    field here: every method holds the lock for its whole body, so a method is
    one atomic step.

    The packed [u64] window word is refined to the bypass interval it denotes
    ([fence_abs]); the theorems about stale controls and about the group
    boundaries are stated on the code-level state. *)
From S2P Require Import Prelude.

Definition PROTOCOL_VERSION : Z := 3.
Definition CONTROL_KIND_FEC_PARITY : Z := 1.
Definition CONTROL_KIND_FEC_MODE : Z := 2.
Definition FEC_MODE_SUSPEND : Z := 1.
Definition FEC_MODE_RESUME : Z := 2.
Definition FEC_MODE_WIRE_LEN : nat := 16.

(** The error strings of the module, with the values they format. *)
Inductive proto_error :=
| EModeLength (n : Z)
| ENotMode (kind : Z)
| EModeFlags
| EModeOp (op : Z)
| EModeZero
| EEmptyControl
| EControlKind (kind : Z).

Record FecModeControl := {
  fmc_generation : Z;
  fmc_op : Z;
  fmc_boundary : Z }.

#[global] Instance FecModeControl_eq_dec : EqDecision FecModeControl.
Proof. solve_decision. Defined.

Definition FecModeControl_encode (c : FecModeControl) : list Z :=
  [CONTROL_KIND_FEC_MODE; fmc_op c; 0; 0]
    ++ be_encode 8 (fmc_generation c) ++ be_encode 4 (fmc_boundary c).

Definition FecModeControl_parse (payload : list Z) : result FecModeControl proto_error :=
  if negb (length payload =? FEC_MODE_WIRE_LEN)%nat then Err (EModeLength (zlen payload))
  else if negb (nth_byte payload 0 =? CONTROL_KIND_FEC_MODE) then
    Err (ENotMode (nth_byte payload 0))
  else if negb (nth_byte payload 2 =? 0) || negb (nth_byte payload 3 =? 0) then Err EModeFlags
  else
    let op := nth_byte payload 1 in
    if negb (op =? FEC_MODE_SUSPEND) && negb (op =? FEC_MODE_RESUME) then Err (EModeOp op)
    else
      let generation := be_decode (slice 4 12 payload) in
      let boundary := be_decode (slice 12 16 payload) in
      if (generation =? 0) || (boundary =? 0) then Err EModeZero
      else Ok {| fmc_generation := generation; fmc_op := op; fmc_boundary := boundary |}.

Definition control_kind (payload : list Z) : result Z proto_error :=
  match payload with
  | [] => Err EEmptyControl
  | kind :: _ =>
      if (kind =? CONTROL_KIND_FEC_PARITY) || (kind =? CONTROL_KIND_FEC_MODE) then Ok kind
      else Err (EControlKind kind)
  end.

(** [k.clamp(2, 64)]. *)
Definition clamp_k (k : Z) : Z := Z.max 2 (Z.min 64 k).

Definition fec_group_start (seq k : Z) : Z :=
  if seq =? 0 then 0
  else let k := clamp_k k in seq - ((seq - 1) mod k).

Definition fec_next_group_start (seq k : Z) : Z :=
  if seq =? 0 then 0
  else
    let k := clamp_k k in
    let offset := (seq - 1) mod k in
    if offset =? 0 then seq
    else
      let next := seq + (k - offset) in
      if next <=? U32_MAX then next else 0.

Definition pack_window (from until : Z) : Z := Z.lor (Z.shiftl from 32) until.
(** [(v >> 32) as u32] and [v as u32]. *)
Definition unpack_window (v : Z) : Z * Z :=
  (u32_wrap (Z.shiftr v 32), u32_wrap v).

(** ** Receiver fence state *)

Record FecRxFenceState := {
  fx_generation : Z;
  fx_window : Z }.

Definition FecRxFenceState_default : FecRxFenceState := {| fx_generation := 0; fx_window := 0 |}.
Definition FecRxFenceState_reset (s : FecRxFenceState) : FecRxFenceState :=
  {| fx_generation := 0; fx_window := 0 |}.
Definition FecRxFenceState_reset_actor (s : FecRxFenceState) : FecRxFenceState :=
  {| fx_generation := 0; fx_window := 0 |}.
Definition FecRxFenceState_window (s : FecRxFenceState) : Z * Z := unpack_window (fx_window s).

Definition control_rejected (c : FecModeControl) : bool :=
  (fmc_generation c =? 0) || (fmc_boundary c =? 0)
    || (negb (fmc_op c =? FEC_MODE_SUSPEND) && negb (fmc_op c =? FEC_MODE_RESUME)).

Definition FecRxFenceState_apply (s : FecRxFenceState) (c : FecModeControl)
  : FecRxFenceState * bool :=
  if control_rejected c then (s, false)
  else if fmc_generation c <=? fx_generation s then (s, false)
  else
    let '(from, _) := FecRxFenceState_window s in
    let window :=
      if fmc_op c =? FEC_MODE_SUSPEND then pack_window (fmc_boundary c) 0
      else if (from =? 0) || (fmc_boundary c <=? from) then 0
      else pack_window from (fmc_boundary c) in
    ({| fx_generation := fmc_generation c; fx_window := window |}, true).

(** The actor variant reads the window before it compares generations. *)
Definition FecRxFenceState_apply_actor (s : FecRxFenceState) (c : FecModeControl)
  : FecRxFenceState * bool :=
  if control_rejected c then (s, false)
  else
    let '(from, _) := FecRxFenceState_window s in
    if fmc_generation c <=? fx_generation s then (s, false)
    else
      let window :=
        if fmc_op c =? FEC_MODE_SUSPEND then pack_window (fmc_boundary c) 0
        else if (from =? 0) || (fmc_boundary c <=? from) then 0
        else pack_window from (fmc_boundary c) in
      ({| fx_generation := fmc_generation c; fx_window := window |}, true).

Definition FecRxFenceState_bypass_data (s : FecRxFenceState) (seq : Z) : bool :=
  if seq =? 0 then false
  else
    let '(from, until) := FecRxFenceState_window s in
    negb (from =? 0) && (from <=? seq) && ((until =? 0) || (seq <? until)).

Definition FecRxFenceState_bypass_parity (s : FecRxFenceState) (group_start : Z) : bool :=
  if group_start =? 0 then false
  else
    let '(from, until) := FecRxFenceState_window s in
    negb (from =? 0) && (from <=? group_start) && ((until =? 0) || (group_start <? until)).

(** ** Sender topology state *)

Record FecTxModeState := {
  tx_seen_multipath : bool;
  tx_suspended : bool;
  tx_generation : Z;
  tx_current : option FecModeControl }.

Definition FecTxModeState_default : FecTxModeState :=
  {| tx_seen_multipath := false; tx_suspended := false; tx_generation := 0; tx_current := None |}.
Definition FecTxModeState_reset (s : FecTxModeState) : FecTxModeState := FecTxModeState_default.

Definition FecTxModeState_observe (s : FecTxModeState) (paths seq k : Z)
  : FecTxModeState * option FecModeControl :=
  if 2 <=? paths then
    if negb (tx_seen_multipath s) then
      ({| tx_seen_multipath := true; tx_suspended := tx_suspended s;
          tx_generation := tx_generation s; tx_current := tx_current s |}, None)
    else if tx_suspended s then
      let boundary := fec_next_group_start seq k in
      if boundary =? 0 then (s, None)
      else
        let generation := Z.max (u64_sat_add (tx_generation s) 1) 1 in
        let control := {| fmc_generation := generation; fmc_op := FEC_MODE_RESUME;
                          fmc_boundary := boundary |} in
        ({| tx_seen_multipath := tx_seen_multipath s; tx_suspended := false;
            tx_generation := generation; tx_current := Some control |}, Some control)
    else (s, None)
  else if (paths =? 1) && tx_seen_multipath s && negb (tx_suspended s) then
    let generation := Z.max (u64_sat_add (tx_generation s) 1) 1 in
    let control := {| fmc_generation := generation; fmc_op := FEC_MODE_SUSPEND;
                      fmc_boundary := fec_group_start seq k |} in
    ({| tx_seen_multipath := tx_seen_multipath s; tx_suspended := true;
        tx_generation := generation; tx_current := Some control |}, Some control)
  else (s, None).

(** ** The FEC_MODE codec *)

(** The controls protocol v3 can carry. *)
Definition control_valid (c : FecModeControl) : Prop :=
  (0 < fmc_generation c <= U64_MAX) /\ (0 < fmc_boundary c <= U32_MAX) /\
  (fmc_op c = FEC_MODE_SUSPEND \/ fmc_op c = FEC_MODE_RESUME).

Lemma control_valid_accepted c : control_valid c -> control_rejected c = false.
Proof.
  intros ((? & _) & (? & _) & [E|E]); unfold control_rejected; rewrite E; by case_bools.
Qed.

Lemma control_accepted_nonzero c :
  control_rejected c = false -> fmc_generation c <> 0 /\ fmc_boundary c <> 0 /\
  (fmc_op c = FEC_MODE_SUSPEND \/ fmc_op c = FEC_MODE_RESUME).
Proof. unfold control_rejected. intros. case_bools; auto. Qed.

Lemma length_FecModeControl_encode c : length (FecModeControl_encode c) = 16%nat.
Proof. unfold FecModeControl_encode. rewrite !length_app, !length_be_encode. done. Qed.

Lemma FecModeControl_parse_encode c :
  control_valid c -> FecModeControl_parse (FecModeControl_encode c) = Ok c.
Proof.
  intros (Hg & Hb & Hop). unfold FecModeControl_parse.
  rewrite length_FecModeControl_encode. unfold FecModeControl_encode.
  cbn -[be_encode be_decode]. unfold slice. cbn [drop Nat.sub]. rewrite drop_0.
  rewrite (take_app_length' (be_encode 8 _)), (drop_app_length' (be_encode 8 _))
    by (by rewrite length_be_encode).
  rewrite (take_ge (be_encode 4 _)) by (rewrite length_be_encode; lia).
  rewrite !be_decode_encode by (unfold_ints; lia).
  destruct c as [g op b]; simpl in *.
  destruct Hop as [-> | ->]; simpl; case_bools; done.
Qed.

Lemma FecModeControl_parse_inv p c :
  bytes_ok p -> FecModeControl_parse p = Ok c -> control_valid c /\ p = FecModeControl_encode c.
Proof.
  intros Hp. unfold FecModeControl_parse, FEC_MODE_WIRE_LEN.
  destruct (Nat.eqb_spec (length p) 16) as [Hlen|]; [|done]. cbn [negb].
  do 4 (destruct p as [|? p]; try done).
  assert (Hp' : bytes_ok p) by (rewrite !Forall_cons in Hp; tauto).
  cbn -[be_encode be_decode]. unfold slice. cbn [drop Nat.sub]. rewrite drop_0.
  rewrite (take_ge (drop 8 p)) by (rewrite length_drop; simpl in Hlen; lia).
  pose proof (be_decode_bound _ (Forall_take _ 8 _ Hp')) as Hg.
  pose proof (be_decode_bound _ (Forall_drop _ 8 _ Hp')) as Hb.
  pose proof (be_encode_decode _ (Forall_take _ 8 _ Hp')) as Eg.
  pose proof (be_encode_decode _ (Forall_drop _ 8 _ Hp')) as Eb.
  rewrite length_take_le in Hg, Eg by (simpl in Hlen; lia).
  rewrite length_drop in Hb, Eb. replace (length p - 8)%nat with 4%nat in * by (simpl in Hlen; lia).
  intros E. repeat (case_bool; simpl in E; try discriminate E).
  all: injection E as <-; subst; split;
    [ unfold control_valid; simpl; unfold_ints; unfold FEC_MODE_SUSPEND, FEC_MODE_RESUME in *; lia
    | unfold FecModeControl_encode; cbn [fmc_op fmc_generation fmc_boundary];
      by rewrite Eg, Eb, (take_drop 8 p) ].
Qed.

(** ** Arithmetic group boundaries *)

(** [s] is the first sequence number of an FEC group of size [k]. *)
Definition is_group_start (k s : Z) : Prop := 1 <= s /\ (s - 1) mod k = 0.

Lemma clamp_k_id k : 2 <= k <= 64 -> clamp_k k = k.
Proof. unfold clamp_k. lia. Qed.

Lemma fec_group_start_bounds seq k :
  1 <= seq -> 2 <= k <= 64 ->
  let g := fec_group_start seq k in is_group_start k g /\ g <= seq < g + k.
Proof.
  intros Hs Hk. unfold fec_group_start, is_group_start. rewrite clamp_k_id by done.
  case_bools. div_mod (seq - 1) k.
  set (q := (seq - 1) / k) in *. set (r := (seq - 1) mod k) in *.
  assert (q * k >= 0) by (assert (0 <= q) by (apply Z.div_pos; lia); nia).
  replace (seq - r - 1) with (q * k) by lia.
  rewrite Z.mod_mul by lia. lia.
Qed.

Lemma is_group_start_unique k g g' seq :
  0 < k -> is_group_start k g -> is_group_start k g' ->
  g <= seq < g + k -> g' <= seq < g' + k -> g = g'.
Proof.
  intros Hk (? & H1) (? & H2) ? ?. div_mod (g - 1) k. div_mod (g' - 1) k.
  assert ((g - 1) / k = (g' - 1) / k); [|nia]. nia.
Qed.

Lemma fec_next_group_start_spec seq k :
  1 <= seq <= U32_MAX -> 2 <= k <= 64 ->
  let b := fec_next_group_start seq k in
  (b <> 0 -> is_group_start k b /\ seq <= b < seq + k /\ b <= U32_MAX) /\
  (b = 0 -> forall s, seq <= s <= U32_MAX -> ~ is_group_start k s).
Proof.
  intros Hs Hk. unfold fec_next_group_start. rewrite clamp_k_id by done.
  destruct (Z.eqb_spec seq 0); [lia|].
  div_mod (seq - 1) k. set (q := (seq - 1) / k) in *. set (r := (seq - 1) mod k) in *.
  unfold is_group_start.
  destruct (Z.eqb_spec r 0) as [Hr|Hr].
  { split; [|lia]. intros _. repeat split; lia. }
  destruct (Z.leb_spec (seq + (k - r)) U32_MAX) as [Hle|Hgt].
  - split; [|lia]. intros _. replace (seq + (k - r) - 1) with ((q + 1) * k) by lia.
    rewrite Z.mod_mul by lia. lia.
  - split; [lia|]. intros _ s Hsr (_ & Hm). div_mod (s - 1) k.
    assert (q < (s - 1) / k <= q); [|lia]. split; nia.
Qed.

(** ** The fence refines an interval *)

(** What the packed window word denotes: no bypass, an open interval [from, ..),
    or a closed one [from, until). *)
Inductive fence_interval :=
| NoBypass
| OpenFrom (from : Z)
| Closed (from until : Z).

Record fence_spec := { fs_generation : Z; fs_interval : fence_interval }.

Definition fence_spec_apply (a : fence_spec) (c : FecModeControl) : fence_spec :=
  if fmc_generation c <=? fs_generation a then a
  else {| fs_generation := fmc_generation c;
          fs_interval :=
            if fmc_op c =? FEC_MODE_SUSPEND then OpenFrom (fmc_boundary c)
            else match fs_interval a with
                 | NoBypass => NoBypass
                 | OpenFrom from | Closed from _ =>
                     if fmc_boundary c <=? from then NoBypass else Closed from (fmc_boundary c)
                 end |}.

Definition fence_spec_bypass (a : fence_spec) (seq : Z) : bool :=
  match fs_interval a with
  | NoBypass => false
  | OpenFrom from => from <=? seq
  | Closed from until => (from <=? seq) && (seq <? until)
  end.

Definition interval_word (i : fence_interval) : Z :=
  match i with
  | NoBypass => 0
  | OpenFrom from => pack_window from 0
  | Closed from until => pack_window from until
  end.

Definition interval_ok (i : fence_interval) : Prop :=
  match i with
  | NoBypass => True
  | OpenFrom from => 0 < from <= U32_MAX
  | Closed from until => 0 < from < until /\ until <= U32_MAX
  end.

Definition fence_rep (s : FecRxFenceState) (a : fence_spec) : Prop :=
  fx_generation s = fs_generation a /\ fx_window s = interval_word (fs_interval a) /\
  interval_ok (fs_interval a).

Lemma unpack_pack_window from until :
  is_u32 from -> is_u32 until -> unpack_window (pack_window from until) = (from, until).
Proof.
  intros Hf Hu. unfold unpack_window, pack_window. unfold_ints.
  assert (Hadd : Z.lor (Z.shiftl from 32) until = from * 2 ^ 32 + until).
  { rewrite Z.shiftl_mul_pow2 by lia. rewrite <-Z.lxor_lor, <-Z.add_nocarry_lxor; [done|..];
    apply Z.bits_inj'; intros n Hn; rewrite Z.land_spec, Z.bits_0, <-Z.shiftl_mul_pow2 by lia;
    (destruct (Z.ltb_spec n 32);
     [ by rewrite Z.shiftl_spec_low
     | rewrite (Z.bits_above_log2 until n), andb_false_r; [done|lia|];
       destruct (Z.eq_dec until 0) as [->|]; [simpl; lia|];
       apply Z.log2_lt_pow2; [lia|]; apply Z.lt_le_trans with (2 ^ 32); [lia|];
       apply Z.pow_le_mono_r; lia ]). }
  rewrite Hadd, Z.shiftr_div_pow2, Z.div_add_l by lia.
  rewrite (Z.div_small until), Z.add_0_r, (Z.mod_small from) by lia.
  rewrite Z.add_comm, Z.mod_add, Z.mod_small by lia. done.
Qed.

Lemma fence_window_rep s a :
  fence_rep s a -> FecRxFenceState_window s =
  match fs_interval a with
  | NoBypass => (0, 0) | OpenFrom from => (from, 0) | Closed from until => (from, until)
  end.
Proof.
  intros (_ & Hw & Hok). unfold FecRxFenceState_window. rewrite Hw.
  destruct (fs_interval a); simpl in *; [done|..];
    apply unpack_pack_window; unfold_ints; lia.
Qed.

Lemma fence_rep_apply s a c :
  fence_rep s a -> control_valid c ->
  fence_rep (FecRxFenceState_apply s c).1 (fence_spec_apply a c) /\
  (FecRxFenceState_apply s c).2 = (fs_generation a <? fmc_generation c).
Proof.
  intros Hrep Hc. pose proof (fence_window_rep _ _ Hrep) as Hw.
  destruct Hrep as (Hg & Hwd & Hok).
  unfold FecRxFenceState_apply, fence_spec_apply. rewrite control_valid_accepted, Hg by done.
  destruct Hc as (? & ? & Hop).
  destruct (Z.leb_spec (fmc_generation c) (fs_generation a)).
  { split; [by repeat split|]. case_bools; done. }
  rewrite Hw. destruct (Z.ltb_spec (fs_generation a) (fmc_generation c)); [|lia].
  destruct (fs_interval a) as [|f|f u]; simpl in *;
    (split; [|done]); unfold fence_rep; simpl;
    destruct Hop as [-> | ->]; simpl; repeat split; case_bools; try done; simpl; lia.
Qed.

Lemma fence_rep_bypass s a seq :
  fence_rep s a -> 1 <= seq -> FecRxFenceState_bypass_data s seq = fence_spec_bypass a seq.
Proof.
  intros Hrep Hs. unfold FecRxFenceState_bypass_data, fence_spec_bypass.
  rewrite (fence_window_rep _ _ Hrep). destruct Hrep as (_ & _ & Hok).
  destruct (fs_interval a); simpl in *; case_bools; done.
Qed.

Lemma fence_rep_default : fence_rep FecRxFenceState_default {| fs_generation := 0; fs_interval := NoBypass |}.
Proof. by repeat split. Qed.

Lemma apply_actor_eq s c : FecRxFenceState_apply_actor s c = FecRxFenceState_apply s c.
Proof.
  unfold FecRxFenceState_apply_actor, FecRxFenceState_apply.
  destruct (control_rejected c); [done|].
  destruct (FecRxFenceState_window s). by destruct (_ <=? _).
Qed.

Lemma apply_stale s c : fmc_generation c <= fx_generation s -> FecRxFenceState_apply s c = (s, false).
Proof. intros. unfold FecRxFenceState_apply. destruct (control_rejected c); [done|].
  by destruct (Z.leb_spec (fmc_generation c) (fx_generation s)); [|lia].
Qed.

(** Deliver a list of controls in order. *)
Definition fence_run (s : FecRxFenceState) (cs : list FecModeControl) : FecRxFenceState :=
  foldl (fun s c => (FecRxFenceState_apply s c).1) s cs.

Lemma fence_run_generation s cs :
  Forall (fun c => control_rejected c = false) cs ->
  fx_generation (fence_run s cs) = foldl Z.max (fx_generation s) (fmc_generation <$> cs).
Proof.
  revert s. induction cs as [|c cs IH]; intros s Hcs; [done|].
  inversion_clear Hcs as [|? ? Hc Hcs']. simpl. rewrite IH by done. f_equal.
  unfold FecRxFenceState_apply. rewrite Hc.
  destruct (Z.leb_spec (fmc_generation c) (fx_generation s)); simpl; [lia|].
  destruct (FecRxFenceState_window s); simpl. lia.
Qed.

(** The FEC_MODE codec is exact.  A byte string parses to a control exactly
    when it is the encoding of that control and the control is one protocol v3
    allows (known operation, non-zero generation and boundary): every malformed
    or non-canonical payload is refused, nothing else is. *)
Theorem fec_mode_codec (p : list Z) (c : FecModeControl) :
  bytes_ok p ->
  FecModeControl_parse p = Ok c <-> (control_valid c /\ p = FecModeControl_encode c).
Proof.
  intros Hp. split; [by apply FecModeControl_parse_inv|].
  intros [Hc ->]. by apply FecModeControl_parse_encode.
Qed.

Lemma fec_mode_codec_witness :
  let c := {| fmc_generation := 72623859790382856; fmc_op := 1; fmc_boundary := 9 |} in
  let p := [2; 1; 0; 0; 1; 2; 3; 4; 5; 6; 7; 8; 0; 0; 0; 9] in
  FecModeControl_parse p = Ok c <-> (control_valid c /\ p = FecModeControl_encode c).
Proof.
  intros c p. apply (fec_mode_codec p c).
  unfold p. repeat constructor; unfold is_byte; lia.
Defined.

(** C28: the receiver fence implements the bypass-interval specification.  On any
    sequence of valid controls (in any order, duplicated or lost), the packed
    state follows the interval state machine, and the per-packet test
    [bypass_data] is membership in the interval. *)
Theorem fence_refines_interval (cs : list FecModeControl) (seq : Z) :
  Forall control_valid cs -> 1 <= seq ->
  FecRxFenceState_bypass_data (fence_run FecRxFenceState_default cs) seq =
  fence_spec_bypass (foldl fence_spec_apply {| fs_generation := 0; fs_interval := NoBypass |} cs) seq.
Proof.
  intros Hcs Hseq. apply fence_rep_bypass; [|done].
  generalize fence_rep_default.
  generalize FecRxFenceState_default {| fs_generation := 0; fs_interval := NoBypass |}.
  induction Hcs as [|c cs Hc Hcs IH]; intros s a Hrep; [done|].
  simpl. apply IH. by apply fence_rep_apply.
Qed.

Definition suspend_at (g b : Z) : FecModeControl :=
  {| fmc_generation := g; fmc_op := FEC_MODE_SUSPEND; fmc_boundary := b |}.
Definition resume_at (g b : Z) : FecModeControl :=
  {| fmc_generation := g; fmc_op := FEC_MODE_RESUME; fmc_boundary := b |}.

Lemma fence_refines_interval_witness :
  FecRxFenceState_bypass_data
    (fence_run FecRxFenceState_default [suspend_at 1 5; resume_at 2 9; suspend_at 1 5]) 8 = true.
Proof.
  rewrite (fence_refines_interval [suspend_at 1 5; resume_at 2 9; suspend_at 1 5] 8); [done| |lia].
  repeat constructor; unfold control_valid; simpl; unfold_ints; lia.
Defined.

(** Once a control of generation [g] has been applied, no later delivery of
    controls with generation at most [g] (stale records that another TCP stream
    delayed) changes the fence; and after any deliveries the accepted
    generation is the maximum of what was delivered. *)
Theorem fence_never_regresses (s : FecRxFenceState) (c : FecModeControl) (late : list FecModeControl) :
  control_rejected c = false -> fx_generation s < fmc_generation c ->
  Forall (fun c' => fmc_generation c' <= fmc_generation c) late ->
  fence_run s (c :: late) = (FecRxFenceState_apply s c).1 /\
  fx_generation (fence_run s (c :: late)) = fmc_generation c.
Proof.
  intros Hc Hlt Hlate. simpl.
  assert (Hg : fx_generation (FecRxFenceState_apply s c).1 = fmc_generation c).
  { unfold FecRxFenceState_apply. rewrite Hc.
    destruct (Z.leb_spec (fmc_generation c) (fx_generation s)); [lia|].
    by destruct (FecRxFenceState_window s). }
  revert Hg. generalize (FecRxFenceState_apply s c).1 as s'. intros s' Hg.
  assert (fence_run s' late = s') as ->; [|done].
  induction Hlate as [|c' late Hle Hlate IH]; [done|].
  simpl. rewrite apply_stale by lia. by apply IH.
Qed.

Lemma fence_never_regresses_witness :
  fx_generation (fence_run FecRxFenceState_default [resume_at 11 9; suspend_at 10 5]) = 11.
Proof.
  apply (fence_never_regresses FecRxFenceState_default (resume_at 11 9) [suspend_at 10 5]);
    [done|simpl; lia|]. repeat constructor. simpl. lia.
Defined.

(** ** Sender runs *)

(** Observe the topology before each of a list of dispatches [(paths, seq)] and
    collect the emitted controls. *)
Fixpoint tx_run (k : Z) (s : FecTxModeState) (obs : list (Z * Z))
  : FecTxModeState * list FecModeControl :=
  match obs with
  | [] => (s, [])
  | (paths, seq) :: obs' =>
      let '(s1, c) := FecTxModeState_observe s paths seq k in
      let '(s2, cs) := tx_run k s1 obs' in
      (s2, option_list c ++ cs)
  end.

(** The controls of a run that starts with generation [g]: consecutive
    generations, operations that alternate starting from [susp], and group
    starts as boundaries. *)
Fixpoint controls_wf (k g : Z) (susp : bool) (cs : list FecModeControl) : Prop :=
  match cs with
  | [] => True
  | c :: cs' =>
      fmc_generation c = g + 1 /\
      fmc_op c = (if susp then FEC_MODE_RESUME else FEC_MODE_SUSPEND) /\
      is_group_start k (fmc_boundary c) /\ fmc_boundary c <= U32_MAX /\
      controls_wf k (g + 1) (negb susp) cs'
  end.

Lemma observe_step k s paths seq s' c :
  2 <= k <= 64 -> 1 <= seq <= U32_MAX -> 0 <= tx_generation s < U64_MAX ->
  FecTxModeState_observe s paths seq k = (s', c) ->
  match c with
  | None => tx_generation s' = tx_generation s /\ tx_suspended s' = tx_suspended s
            /\ tx_current s' = tx_current s
  | Some c => controls_wf k (tx_generation s) (tx_suspended s) [c] /\
              tx_generation s' = tx_generation s + 1 /\
              tx_suspended s' = negb (tx_suspended s) /\ tx_current s' = Some c
  end.
Proof.
  intros Hk Hseq Hg. unfold FecTxModeState_observe.
  assert (Hgen : Z.max (u64_sat_add (tx_generation s) 1) 1 = tx_generation s + 1)
    by (unfold_ints; lia).
  rewrite Hgen. pose proof (fec_group_start_bounds seq k ltac:(lia) Hk) as [Hgs ?].
  destruct (fec_next_group_start_spec seq k Hseq Hk) as [Hnext _].
  destruct (2 <=? paths); [destruct (tx_seen_multipath s); [destruct (tx_suspended s) eqn:Es|]|].
  - destruct (Z.eqb_spec (fec_next_group_start seq k) 0); intros [= <- <-]; [done|].
    destruct Hnext as ([] & ? & ?); [done|]. simpl. repeat split; done || lia.
  - intros [= <- <-]. by rewrite Es.
  - by intros [= <- <-].
  - destruct (_ && _) eqn:Eb; intros [= <- <-]; [|done].
    apply andb_prop in Eb as [_ Eb%negb_true_iff]. rewrite Eb. destruct Hgs. simpl. repeat split; done || lia.
Qed.

Lemma controls_wf_app1 k g b c cs :
  controls_wf k g b [c] -> controls_wf k (g + 1) (negb b) cs -> controls_wf k g b (c :: cs).
Proof. simpl. tauto. Qed.

(** C38: the sender state machine emits a well-formed control sequence for every
    history of path counts and (valid) sequence numbers: generations are
    consecutive starting at 1, SUSPEND and RESUME strictly alternate beginning
    with a SUSPEND, and each boundary is a group start that fits a u32. *)
Theorem tx_controls_well_formed (k : Z) (obs : list (Z * Z)) :
  2 <= k <= 64 -> Forall (fun o => 1 <= o.2 <= U32_MAX) obs -> zlen obs <= U64_MAX ->
  controls_wf k 0 false (tx_run k FecTxModeState_default obs).2.
Proof.
  intros Hk Hobs Hlen.
  assert (Hgen : forall s, 0 <= tx_generation s -> tx_generation s + zlen obs <= U64_MAX ->
            controls_wf k (tx_generation s) (tx_suspended s) (tx_run k s obs).2).
  { clear Hlen. induction Hobs as [|[paths seq] obs Hs Hobs IH]; intros s Hg Hlen; [done|].
    cbn [tx_run length] in *.
    destruct (FecTxModeState_observe s paths seq k) as [s1 c] eqn:E.
    apply observe_step in E; [|done..|lia].
    destruct (tx_run k s1 obs) as [s2 cs] eqn:Er.
    destruct c as [c|]; simpl.
    - destruct E as (Hc & Hg1 & Hs1 & _). apply controls_wf_app1; [done|].
      rewrite <-Hg1, <-Hs1. change cs with (s2, cs).2. rewrite <-Er. apply IH; lia.
    - destruct E as (Hg1 & Hs1 & _). rewrite <-Hg1, <-Hs1. change cs with (s2, cs).2. rewrite <-Er. apply IH; lia. }
  apply (Hgen FecTxModeState_default); simpl; lia.
Qed.

Lemma tx_controls_well_formed_witness :
  (tx_run 4 FecTxModeState_default [(1, 1); (2, 2); (1, 7); (1, 8); (2, 9); (1, 10)]).2
    = [suspend_at 1 5; resume_at 2 9; suspend_at 3 9] /\
  controls_wf 4 0 false (tx_run 4 FecTxModeState_default [(1, 1); (2, 2); (1, 7); (1, 8); (2, 9); (1, 10)]).2.
Proof.
  split; [done|]. apply tx_controls_well_formed; [lia| |simpl; unfold_ints; lia].
  repeat constructor; simpl; unfold_ints; lia.
Defined.

(** The parser accepts a boundary that starts no group: 2 is the second member of
    the first group for every group size. *)
Lemma non_group_boundary_accepted k :
  let c := {| fmc_generation := 1; fmc_op := FEC_MODE_SUSPEND; fmc_boundary := 2 |} in
  FecModeControl_parse (FecModeControl_encode c) = Ok c /\ fec_group_start 2 k = 1.
Proof.
  split; [reflexivity|]. unfold fec_group_start, clamp_k. cbn [Z.eqb].
  rewrite (Z.mod_small (2 - 1)) by lia. done.
Qed.
