(* ===== verification/Utils.v ===== *)
(** * [src/src/utils.rs]: the pseudo-random generator and the identity validators

    [FastRand] is the xorshift generator behind every padding draw; the
    validators guard what a peer may claim about itself in the handshake.  Text
    is a list of byte values ([str.as_bytes()]).  The [hex] crate is not part of
    the repository: its decoder is an operation of the class [HexCodec], and its
    documented behaviour is the class [HexLaws]. *)
From Stdlib Require Import Ascii.
From S2P Require Import Prelude.

(** ** Text *)

Definition bytes_of_string (s : string) : list Z :=
  (fun a => Z.of_nat (nat_of_ascii a)) <$> String.list_ascii_of_string s.
Lemma bytes_of_string_ok s : bytes_ok (bytes_of_string s).
Proof.
  unfold bytes_of_string. apply Forall_fmap, Forall_forall. intros a _. cbn. unfold is_byte.
  pose proof (Ascii.nat_ascii_bounded a). lia.
Qed.
Lemma bytes_of_string_inj a b : bytes_of_string a = bytes_of_string b -> a = b.
Proof.
  intros E. unfold bytes_of_string in E. apply (list_fmap_eq_inj _) in E.
  - rewrite <-(String.string_of_list_ascii_of_string a), <-(String.string_of_list_ascii_of_string b). by rewrite E.
  - intros x y Exy%Nat2Z.inj. rewrite <-(Ascii.ascii_nat_embedding x), <-(Ascii.ascii_nat_embedding y). by rewrite Exy.
Qed.

(** ** [FastRand] *)

Record FastRand := { fr_state : Z }.

(** [FastRand::new]: the seed is the clock, never zero. *)
Definition FastRand_new (nanos : Z) : FastRand :=
  let state := u64_wrap nanos in
  {| fr_state := if state =? 0 then 1 else state |}.

Definition xorshift_l (x k : Z) : Z := Z.lxor x (u64_wrap (Z.shiftl x k)).
Definition xorshift_r (x k : Z) : Z := Z.lxor x (Z.shiftr x k).

Definition next_u32 (r : FastRand) : FastRand * Z :=
  let s := xorshift_l (xorshift_r (xorshift_l (fr_state r) 13) 7) 17 in
  ({| fr_state := s |}, u32_wrap s).

Definition gen_range (r : FastRand) (min max : Z) : FastRand * Z :=
  if max <=? min then (r, min)
  else let '(r', x) := next_u32 r in (r', min + x mod (max - min)).

(** [to_ne_bytes] on the little-endian targets of the program. *)
Definition le_encode (n : nat) (z : Z) : list Z := rev (be_encode n z).

(** [fill]: one draw per chunk of four bytes. *)
Fixpoint rand_fill (fuel : nat) (r : FastRand) (len : nat) : FastRand * list Z :=
  match fuel, len with
  | _, O | O, _ => (r, [])
  | S fuel', _ =>
      let '(r1, x) := next_u32 r in
      let '(r2, rest) := rand_fill fuel' r1 (len - 4) in
      (r2, take len (le_encode 4 x) ++ rest)
  end.

Lemma wrap_testbit x i : 0 <= i -> Z.testbit (u64_wrap x) i = (i <? 64) && Z.testbit x i.
Proof.
  intros Hi. unfold u64_wrap. change 18446744073709551616 with (2 ^ 64).
  destruct (Z.ltb_spec i 64); [by rewrite Z.mod_pow2_bits_low by lia|by rewrite Z.mod_pow2_bits_high by lia].
Qed.

(** A shift-and-xor round is injective at zero, so the generator never gets
    stuck in its absorbing state. *)
Lemma xorshift_l_nonzero x k : is_u64 x -> 0 < k -> xorshift_l x k = 0 -> x = 0.
Proof.
  intros Hx Hk E. apply Z.bits_inj_0. intros i.
  destruct (Z_lt_le_dec i 0); [by apply Z.testbit_neg_r|].
  assert (Hhigh : forall j, 64 <= j -> Z.testbit x j = false).
  { intros j Hj. destruct (Z.eq_dec x 0) as [->|]; [apply Z.bits_0|].
    apply Z.bits_above_log2; [apply Hx|]. apply Z.lt_le_trans with 64; [|done].
    apply Z.log2_lt_pow2; unfold_ints; lia. }
  assert (Hbit : forall j, 0 <= j -> Z.testbit x j = (j <? 64) && Z.testbit x (j - k)).
  { intros j Hj. assert (Hb : Z.testbit (xorshift_l x k) j = false) by (rewrite E; apply Z.bits_0).
    unfold xorshift_l in Hb. rewrite Z.lxor_spec, wrap_testbit, Z.shiftl_spec in Hb by done.
    apply xorb_eq in Hb. done. }
  apply (Z_lt_induction (fun i => 0 <= i -> Z.testbit x i = false)); [|done|done].
  clear i l. intros i IH Hi. rewrite Hbit by done. destruct (Z_lt_le_dec (i - k) 0).
  - rewrite Z.testbit_neg_r by done. apply andb_false_r.
  - rewrite IH by lia. apply andb_false_r.
Qed.

Lemma xorshift_r_nonzero x k : is_u64 x -> 0 < k -> xorshift_r x k = 0 -> x = 0.
Proof.
  intros Hx Hk E. apply Z.bits_inj_0. intros i.
  destruct (Z_lt_le_dec i 0); [by apply Z.testbit_neg_r|].
  assert (Hstep : forall n j, 64 - Z.of_nat n <= j -> 0 <= j -> Z.testbit x j = false).
  { induction n as [|n IH]; intros j Hj Hj0.
    - destruct (Z.eq_dec x 0) as [->|]; [apply Z.bits_0|].
      apply Z.bits_above_log2; [apply Hx|]. apply Z.lt_le_trans with 64; [|lia].
      apply Z.log2_lt_pow2; unfold_ints; lia.
    - assert (Hb : Z.testbit (xorshift_r x k) j = false) by (rewrite E; apply Z.bits_0).
      unfold xorshift_r in Hb. rewrite Z.lxor_spec, Z.shiftr_spec, (IH (j + k)), xorb_false_r in Hb by lia.
      done. }
  apply (Hstep 64%nat); lia.
Qed.

Lemma lxor_u64 x y : is_u64 x -> is_u64 y -> is_u64 (Z.lxor x y).
Proof.
  intros Hx Hy. unfold is_u64 in *. assert (0 <= Z.lxor x y) by (apply Z.lxor_nonneg; lia).
  split; [done|]. destruct (Z.eq_dec (Z.lxor x y) 0) as [->|]; [done|].
  enough (Z.lxor x y < 2 ^ 64) by (unfold U64_MAX; lia).
  apply Z.log2_lt_pow2; [lia|].
  eapply Z.le_lt_trans; [apply Z.log2_lxor; lia|].
  unfold U64_MAX in *. apply Z.max_lub_lt.
  - destruct (Z.eq_dec x 0) as [->|]; [done|]. apply Z.log2_lt_pow2; lia.
  - destruct (Z.eq_dec y 0) as [->|]; [done|]. apply Z.log2_lt_pow2; lia.
Qed.

Lemma xorshift_u64 x k : is_u64 x -> 0 <= k -> is_u64 (xorshift_l x k) /\ is_u64 (xorshift_r x k).
Proof.
  intros Hx Hk. split; apply lxor_u64; try done; unfold is_u64, U64_MAX in *.
  - pose proof (Z.mod_pos_bound (Z.shiftl x k) 18446744073709551616). unfold u64_wrap. lia.
  - rewrite Z.shiftr_div_pow2 by done. split; [apply Z.div_pos; lia|].
    transitivity x; [|lia]. apply Z.div_le_upper_bound; [lia|]. nia.
Qed.

Definition rand_ok (r : FastRand) : Prop := is_u64 (fr_state r) /\ fr_state r <> 0.

Lemma next_u32_ok r : rand_ok r -> rand_ok (next_u32 r).1 /\ is_u32 (next_u32 r).2.
Proof.
  intros [Hu Hn]. unfold next_u32. cbn [fst snd fr_state].
  destruct (xorshift_u64 (fr_state r) 13 Hu) as [H1 _]; [lia|].
  destruct (xorshift_u64 _ 7 H1) as [_ H2]; [lia|].
  destruct (xorshift_u64 _ 17 H2) as [H3 _]; [lia|].
  split; [split; [done|]|].
  - cbn [fr_state]. intros E. apply xorshift_l_nonzero in E; [|done|lia].
    apply xorshift_r_nonzero in E; [|done|lia]. apply xorshift_l_nonzero in E; [done|done|lia].
  - unfold is_u32, u32_wrap, U32_MAX. pose proof (Z.mod_pos_bound
      (xorshift_l (xorshift_r (xorshift_l (fr_state r) 13) 7) 17) 4294967296). lia.
Qed.

Lemma gen_range_ok r min max :
  rand_ok r -> rand_ok (gen_range r min max).1 /\
  min <= (gen_range r min max).2 /\ (min < max -> (gen_range r min max).2 < max).
Proof.
  intros Hr. unfold gen_range. destruct (Z.leb_spec max min); [split; [done|cbn; lia]|].
  destruct (next_u32_ok r Hr) as [Hr' _]. destruct (next_u32 r) as [r' x]. cbn [fst snd] in *.
  pose proof (Z.mod_pos_bound x (max - min)). split; [done|lia].
Qed.

(** ** Identities *)

Definition is_hex_digit (c : Z) : bool :=
  ((48 <=? c) && (c <=? 57)) || ((97 <=? c) && (c <=? 102)) || ((65 <=? c) && (c <=? 70)).

(** The scan of [is_valid_client_id] from index [i]. *)
Fixpoint client_id_scan (i : Z) (l : list Z) : bool :=
  match l with
  | [] => true
  | c :: l' =>
      if (i =? 8) || (i =? 13) || (i =? 18) || (i =? 23)
      then if negb (c =? 45) then false else client_id_scan (i + 1) l'
      else if negb (is_hex_digit c) then false else client_id_scan (i + 1) l'
  end.

Definition is_valid_client_id (id : list Z) : bool :=
  if negb (zlen id =? 36) then false else client_id_scan 0 id.

(** [u8::is_ascii_alphanumeric] *)
Definition is_ascii_alphanumeric (c : Z) : bool :=
  ((48 <=? c) && (c <=? 57)) || ((97 <=? c) && (c <=? 122)) || ((65 <=? c) && (c <=? 90)).

Definition is_valid_client_instance (s : list Z) : bool :=
  ((16 <=? zlen s) && (zlen s <=? 64)) && forallb (fun c => is_ascii_alphanumeric c || (c =? 45)) s.

(** [str::split(':')]: always at least one part. *)
Fixpoint split_on (sep : Z) (l : list Z) : list (list Z) :=
  match l with
  | [] => [[]]
  | c :: l' =>
      if c =? sep then [] :: split_on sep l'
      else match split_on sep l' with
           | [] => [[c]]
           | p :: ps => (c :: p) :: ps
           end
  end.

Class HexCodec := { hex_decode : list Z -> option (list Z); hex_encode : list Z -> list Z }.

(** The value of one hexadecimal digit, in either case. *)
Definition hex_val (c : Z) : option Z :=
  if (48 <=? c) && (c <=? 57) then Some (c - 48)
  else if (97 <=? c) && (c <=? 102) then Some (c - 87)
  else if (65 <=? c) && (c <=? 70) then Some (c - 55)
  else None.
Definition hex_digit (v : Z) : Z := if v <? 10 then v + 48 else v + 87.

(** Documented behaviour of the [hex] crate: two digits per byte, case
    insensitive on input and lower case on output, an error otherwise. *)
Class HexLaws `{HexCodec} := {
  hex_decode_pair : forall a b, hex_decode [a; b] =
    match hex_val a, hex_val b with Some x, Some y => Some [16 * x + y] | _, _ => None end;
  hex_decode_length : forall s b, hex_decode s = Some b -> length s = (2 * length b)%nat;
  hex_encode_spec : forall b, bytes_ok b ->
    hex_encode b = concat ((fun x => [hex_digit (x / 16); hex_digit (x mod 16)]) <$> b);
  hex_roundtrip : forall b, bytes_ok b -> hex_decode (hex_encode b) = Some b }.

Section Mac.
Context `{HexCodec}.

(** The loop of [parse_mac_key] with [cur] parts already decoded. *)
Fixpoint mac_parts (cur : nat) (parts : list (list Z)) : option (list Z) :=
  match parts with
  | [] => if (cur =? 6)%nat then Some [] else None
  | part :: parts' =>
      if (cur =? 6)%nat then None
      else match hex_decode part with
           | Some [b] => (fun bs => b :: bs) <$> mac_parts (S cur) parts'
           | _ => None
           end
  end.
Definition parse_mac_key (s : list Z) : option (list Z) := mac_parts 0 (split_on 58 s).

Definition zero_mac : list Z := replicate 6 0.
Definition mac_unicast (m : list Z) : bool :=
  negb (bool_decide (m = zero_mac)) && (Z.land (nth_byte m 0) 1 =? 0).

Definition is_valid_mac_string (s : list Z) : bool :=
  match s with [] => true | _ => bool_decide (is_Some (parse_mac_key s)) end.
Definition is_valid_session_mac (s : list Z) : bool :=
  match parse_mac_key s with Some m => mac_unicast m | None => false end.

(** [parse_config_mac]: the error carries no more than which check failed. *)
Inductive config_mac_error := MacSyntax | MacNotUnicast.
Definition parse_config_mac (s : list Z) : result (option (list Z)) config_mac_error :=
  match s with
  | [] => Ok None
  | _ =>
      match parse_mac_key s with
      | None => Err MacSyntax
      | Some m =>
          if bool_decide (m = zero_mac) || negb (Z.land (nth_byte m 0) 1 =? 0)
          then Err MacNotUnicast else Ok (Some m)
      end
  end.

(** [format!("{:02x}:...")] *)
Definition hex_byte (b : Z) : list Z := [hex_digit (b / 16); hex_digit (b mod 16)].
Fixpoint format_mac (m : list Z) : list Z :=
  match m with
  | [] => []
  | [b] => hex_byte b
  | b :: m' => hex_byte b ++ 58 :: format_mac m'
  end.
Definition canonical_mac (s : list Z) : option (list Z) := format_mac <$> parse_mac_key s.
End Mac.

(** ** Properties *)

Lemma hex_val_digit v : 0 <= v < 16 -> hex_val (hex_digit v) = Some v.
Proof.
  intros Hv. unfold hex_val, hex_digit. destruct (Z.ltb_spec v 10).
  - destruct (Z.leb_spec 48 (v + 48)), (Z.leb_spec (v + 48) 57); simpl; try lia. f_equal; lia.
  - destruct (Z.leb_spec 48 (v + 87)), (Z.leb_spec (v + 87) 57); simpl; try lia.
    destruct (Z.leb_spec 97 (v + 87)), (Z.leb_spec (v + 87) 102); simpl; try lia. f_equal; lia.
Qed.

Section MacFacts.
Context `{HexLaws}.

Lemma hex_byte_decode b : is_byte b -> hex_decode (hex_byte b) = Some [b].
Proof.
  intros Hb. unfold is_byte in Hb. unfold hex_byte. rewrite hex_decode_pair.
  div_mod b 16. rewrite !hex_val_digit by lia. do 2 f_equal. lia.
Qed.

Lemma hex_byte_no_colon b : is_byte b -> Forall (fun c => c <> 58) (hex_byte b).
Proof.
  intros Hb. unfold is_byte in Hb. unfold hex_byte, hex_digit. div_mod b 16.
  repeat constructor; destruct (Z.ltb_spec (b / 16) 10), (Z.ltb_spec (b mod 16) 10); lia.
Qed.

Lemma split_on_app sep p l :
  Forall (fun c => c <> sep) p ->
  split_on sep (p ++ sep :: l) = p :: split_on sep l /\ split_on sep p = [p].
Proof.
  induction 1 as [|c p Hc Hp [IH1 IH2]]; simpl; [by rewrite Z.eqb_refl|].
  destruct (Z.eqb_spec c sep); [done|]. by rewrite IH1, IH2.
Qed.

Lemma split_format m : bytes_ok m -> m <> [] -> split_on 58 (format_mac m) = hex_byte <$> m.
Proof.
  induction 1 as [|b m Hb Hm IH]; [done|]. intros _. destruct m as [|b2 m].
  - apply split_on_app; [apply []|by apply hex_byte_no_colon].
  - change (format_mac (b :: b2 :: m)) with (hex_byte b ++ 58 :: format_mac (b2 :: m)).
    rewrite (proj1 (split_on_app _ _ _ (hex_byte_no_colon b Hb))), IH by done. done.
Qed.

Lemma mac_parts_hex cur m :
  bytes_ok m -> (cur + length m = 6)%nat -> mac_parts cur (hex_byte <$> m) = Some m.
Proof.
  intros Hm. revert cur. induction Hm as [|b m Hb Hm IH]; intros cur; simpl; intros Hl.
  - by replace cur with 6%nat by lia.
  - destruct (Nat.eqb_spec cur 6); [lia|].
    rewrite hex_byte_decode, IH by (done || lia). done.
Qed.

Lemma parse_format m : bytes_ok m -> length m = 6%nat -> parse_mac_key (format_mac m) = Some m.
Proof.
  intros Hm Hl. unfold parse_mac_key. rewrite split_format; [|done|by destruct m].
  by apply mac_parts_hex.
Qed.

Lemma hex_val_bound c v : hex_val c = Some v -> 0 <= v < 16.
Proof. unfold hex_val. repeat case_match; intros; simplify_eq; lia. Qed.

Lemma mac_parts_bytes cur parts m :
  mac_parts cur parts = Some m -> bytes_ok m /\ (cur + length m = 6)%nat.
Proof.
  revert cur m. induction parts as [|p parts IH]; intros cur m; simpl.
  - destruct (Nat.eqb_spec cur 6); intros; simplify_eq. split; [constructor|simpl; lia].
  - destruct (Nat.eqb_spec cur 6); [done|].
    destruct (hex_decode p) as [[|b [|]]|] eqn:E; try done.
    destruct (mac_parts (S cur) parts) as [m'|] eqn:Em; [|done]. intros [= <-].
    apply IH in Em as [Hm Hl]. simpl. split; [|lia]. constructor; [|done].
    pose proof (hex_decode_length _ _ E) as Hp. destruct p as [|a1 [|a2 [|]]]; try done.
    rewrite hex_decode_pair in E. destruct (hex_val a1) eqn:E1, (hex_val a2) eqn:E2; simplify_eq.
    apply hex_val_bound in E1, E2. unfold is_byte. lia.
Qed.

(** A MAC that parses has six bytes, and its canonical spelling parses
    back to the same address, so canonicalisation is idempotent and two
    spellings share a canonical form exactly when they name the same address. *)
Theorem canonical_mac_roundtrip s m :
  parse_mac_key s = Some m ->
  length m = 6%nat /\ bytes_ok m /\ canonical_mac s = Some (format_mac m) /\
  parse_mac_key (format_mac m) = Some m /\
  canonical_mac (format_mac m) = Some (format_mac m).
Proof.
  intros Hp. destruct (mac_parts_bytes _ _ _ Hp) as [Hb Hl]. simpl in Hl.
  pose proof (parse_format m Hb Hl) as Hf. unfold canonical_mac. rewrite Hp, Hf. done.
Qed.
End MacFacts.

(** A hex codec with the documented behaviour. *)
Fixpoint hex_decode_ref (s : list Z) : option (list Z) :=
  match s with
  | [] => Some []
  | [_] => None
  | a :: b :: s' =>
      match hex_val a, hex_val b, hex_decode_ref s' with
      | Some x, Some y, Some r => Some (16 * x + y :: r)
      | _, _, _ => None
      end
  end.
#[export] Instance hex_ref : HexCodec := {|
  hex_decode := hex_decode_ref;
  hex_encode b := concat ((fun x => [hex_digit (x / 16); hex_digit (x mod 16)]) <$> b) |}.
#[export] Instance hex_ref_laws : HexLaws.
Proof.
  split; [| |done|].
  - intros a b. simpl. by destruct (hex_val a), (hex_val b).
  - intros s. enough (H : forall n s b, (length s <= n)%nat -> hex_decode s = Some b -> length s = (2 * length b)%nat)
      by (intros b; by apply (H (length s))).
    clear s. induction n as [|n IH]; intros [|x [|y s]] b Hl; simpl in *; intros E; simplify_eq; simpl; try lia.
    destruct (hex_val x), (hex_val y), (hex_decode_ref s) eqn:Es; simplify_eq.
    apply IH in Es; [simpl; lia|lia].
  - cbn. induction 1 as [|x b Hx _ IH]; [done|]. cbn. unfold is_byte in Hx. div_mod x 16.
    rewrite !hex_val_digit by lia. cbn in IH. rewrite IH. do 2 f_equal. lia.
Qed.

Lemma canonical_mac_roundtrip_witness :
  parse_mac_key (bytes_of_string "AA:bb:0C:dd:ee:0f") = Some [170; 187; 12; 221; 238; 15] /\
  canonical_mac (bytes_of_string "AA:bb:0C:dd:ee:0f") = Some (bytes_of_string "aa:bb:0c:dd:ee:0f").
Proof.
  split; [reflexivity|].
  destruct (canonical_mac_roundtrip (bytes_of_string "AA:bb:0C:dd:ee:0f") [170; 187; 12; 221; 238; 15])
    as (_ & _ & H & _); [reflexivity|exact H].
Defined.
