(* ===== verification/Crypto.v ===== *)
(** * [src/src/crypto.rs]: the inner AEAD layer and the padding policy

    The AEAD primitives (AES-GCM of [ring], [ChaCha20Poly1305] and
    [XChaCha20Poly1305]) and SHA-256 / HMAC are external crates: the class
    [CryptoPrims] names their operations and [CryptoLaws] states what their
    documentation promises (sealing keeps the length, the tag has 16 bytes,
    opening a sealed text with the same key, nonce and associated data gives it
    back).  What this repository builds on them (key separation, nonce layout,
    associated data, the in-place wire layout) is modelled here. *)
From S2P Require Import Prelude Utils.

Definition ENC_ALGO_NONE : Z := 0.
Definition ENC_ALGO_GCM : Z := 2.
Definition ENC_ALGO_GCM128 : Z := 4.
Definition ENC_ALGO_CHACHA20 : Z := 5.
Definition ENC_ALGO_XCHACHA20 : Z := 6.
Definition GCM_TAG_SIZE : nat := 16.
Definition ENC_SALT_SIZE : nat := 8.

Definition is_gcm_algo (algo : Z) : bool := (algo =? ENC_ALGO_GCM) || (algo =? ENC_ALGO_GCM128).
Definition is_inner_aead_algo (algo : Z) : bool :=
  is_gcm_algo algo || (algo =? ENC_ALGO_CHACHA20) || (algo =? ENC_ALGO_XCHACHA20).
(** Exact comparison, not an ordering on the algorithm numbers. *)
Definition enc_algo_supported (declared want : Z) : bool := declared =? want.

(** ** Constant-time comparison *)

(** The loop [for (x, y) in a.iter().zip(b.iter()) { diff |= x ^ y }]. *)
Fixpoint ct_diff (diff : Z) (a b : list Z) : Z :=
  match a, b with
  | x :: a', y :: b' => ct_diff (Z.lor diff (Z.lxor x y)) a' b'
  | _, _ => diff
  end.
Definition constant_time_eq (a b : list Z) : bool :=
  if negb (zlen a =? zlen b) then false else ct_diff 0 a b =? 0.
Definition verify_random_session_token (stored want : list Z) : bool :=
  (zlen stored =? 64) && (zlen want =? 64) && constant_time_eq stored want.

Lemma ct_diff_zero a b d :
  length a = length b -> 0 <= d -> bytes_ok a -> bytes_ok b ->
  ct_diff d a b = 0 <-> d = 0 /\ a = b.
Proof.
  revert b d. induction a as [|x a IH]; intros [|y b] d Hl Hd Ha Hb; simplify_eq/=; [naive_solver|].
  apply Forall_cons in Ha as [Hx Ha], Hb as [Hy Hb]. unfold is_byte in *.
  assert (0 <= Z.lxor x y) by (apply Z.lxor_nonneg; lia).
  rewrite IH; [|done|by apply Z.lor_nonneg|done..].
  rewrite Z.lor_eq_0_iff, Z.lxor_eq_0_iff. naive_solver.
Qed.

(** ** AEAD *)

Inductive aead_alg := AES_256_GCM | AES_128_GCM | CHACHA20_POLY1305 | XCHACHA20_POLY1305.
#[export] Instance aead_alg_dec : EqDecision aead_alg.
Proof. solve_decision. Defined.

Class CryptoPrims := {
  (** key, nonce, associated data, plaintext; ciphertext and detached tag *)
  aead_seal : aead_alg -> list Z -> list Z -> list Z -> list Z -> list Z * list Z;
  (** key, nonce, associated data, ciphertext, tag *)
  aead_open : aead_alg -> list Z -> list Z -> list Z -> list Z -> list Z -> option (list Z);
  sha256 : list Z -> list Z;
  hmac_sha256 : list Z -> list Z -> list Z }.

Class CryptoLaws `{CryptoPrims} := {
  seal_length : forall a k n ad p, length (aead_seal a k n ad p).1 = length p;
  seal_tag_length : forall a k n ad p, length (aead_seal a k n ad p).2 = GCM_TAG_SIZE;
  seal_bytes : forall a k n ad p, bytes_ok p ->
    bytes_ok (aead_seal a k n ad p).1 /\ bytes_ok (aead_seal a k n ad p).2;
  open_seal : forall a k n ad p,
    aead_open a k n ad (aead_seal a k n ad p).1 (aead_seal a k n ad p).2 = Some p;
  open_length : forall a k n ad c t p, aead_open a k n ad c t = Some p -> length p = length c;
  sha256_length : forall m, length (sha256 m) = 32%nat;
  sha256_bytes : forall m, bytes_ok (sha256 m) }.

Inductive InnerCipher :=
| Gcm256 (key salt : list Z)
| Gcm128 (key salt : list Z)
| ChaCha20 (key salt : list Z)
| XChaCha20 (key nonce_prefix : list Z).

Definition standard_nonce (salt : list Z) (seq : Z) : list Z := be_encode 4 seq ++ salt.
Definition xchacha_nonce (prefix : list Z) (seq : Z) : list Z := prefix ++ be_encode 4 seq.
Definition gcm_aad (wire_len seq : Z) : list Z := be_encode 4 wire_len ++ be_encode 4 seq.

Definition cipher_alg (c : InnerCipher) : aead_alg :=
  match c with
  | Gcm256 _ _ => AES_256_GCM | Gcm128 _ _ => AES_128_GCM
  | ChaCha20 _ _ => CHACHA20_POLY1305 | XChaCha20 _ _ => XCHACHA20_POLY1305
  end.
Definition cipher_key (c : InnerCipher) : list Z :=
  match c with Gcm256 k _ | Gcm128 k _ | ChaCha20 k _ | XChaCha20 k _ => k end.
Definition cipher_nonce (c : InnerCipher) (seq : Z) : list Z :=
  match c with
  | Gcm256 _ salt | Gcm128 _ salt | ChaCha20 _ salt => standard_nonce salt seq
  | XChaCha20 _ prefix => xchacha_nonce prefix seq
  end.
Definition is_gcm (c : InnerCipher) : bool :=
  match c with Gcm256 _ _ | Gcm128 _ _ => true | _ => false end.
Definition tag_len (c : InnerCipher) : nat := GCM_TAG_SIZE.

Definition GCM_KEY_LABEL : list Z := bytes_of_string "_enc_key".
Definition GCM128_KEY_LABEL : list Z := bytes_of_string "_enc_key128".
Definition CHACHA_KEY_LABEL : list Z := bytes_of_string "_enc_chacha20".
Definition XCHACHA_KEY_LABEL : list Z := bytes_of_string "_enc_xchacha20".
Definition XCHACHA_NONCE_LABEL : list Z := bytes_of_string "tlsvpn-xchacha20-nonce-v1".
Definition DOMAIN_DATA : list Z := bytes_of_string "data".
Definition DOMAIN_FEC : list Z := bytes_of_string "fec".

Inductive cipher_error := BadSaltLength (n : nat) | UnknownDomain (d : list Z) | UnsupportedAlgorithm (a : Z).

(** The label of the key derivation for an algorithm and a domain. *)
Definition base_label (algo : Z) : option (list Z) :=
  if algo =? ENC_ALGO_GCM then Some GCM_KEY_LABEL
  else if algo =? ENC_ALGO_GCM128 then Some GCM128_KEY_LABEL
  else if algo =? ENC_ALGO_CHACHA20 then Some CHACHA_KEY_LABEL
  else if algo =? ENC_ALGO_XCHACHA20 then Some XCHACHA_KEY_LABEL
  else None.
Definition domain_label (base domain : list Z) : list Z :=
  if bool_decide (domain = DOMAIN_FEC) then base ++ bytes_of_string "_fec" else base.

Section Cipher.
Context `{CryptoPrims}.

Definition derive_key_labeled (psk label : list Z) : list Z := sha256 (psk ++ label).

Definition domain_for_algo (psk salt domain : list Z) (algo : Z) : result InnerCipher cipher_error :=
  if negb (length salt =? ENC_SALT_SIZE)%nat then Err (BadSaltLength (length salt))
  else if negb (bool_decide (domain = DOMAIN_DATA)) && negb (bool_decide (domain = DOMAIN_FEC))
  then Err (UnknownDomain domain)
  else
    match base_label algo with
    | None => Err (UnsupportedAlgorithm algo)
    | Some base =>
        let key := derive_key_labeled psk (domain_label base domain) in
        if algo =? ENC_ALGO_GCM then Ok (Gcm256 key salt)
        else if algo =? ENC_ALGO_GCM128 then Ok (Gcm128 (take 16 key) salt)
        else if algo =? ENC_ALGO_CHACHA20 then Ok (ChaCha20 key salt)
        else Ok (XChaCha20 key (take 20 (sha256 (XCHACHA_NONCE_LABEL ++ salt))))
    end.

Definition for_algo (psk salt : list Z) (algo : Z) := domain_for_algo psk salt DOMAIN_DATA algo.

Definition aead_of (c : InnerCipher) (seq : Z) (aad pt : list Z) : list Z * list Z :=
  aead_seal (cipher_alg c) (cipher_key c) (cipher_nonce c seq) aad pt.

(** [region] is the plaintext followed by room for the tag; the result is the
    region after the call. *)
Definition seal_in_place (c : InnerCipher) (region : list Z) (pt_len : nat) (seq wire_len : Z) : list Z :=
  if (pt_len =? 0)%nat then region
  else
    let aad := gcm_aad wire_len seq in
    let '(ct, tag) := aead_of c seq aad (take pt_len region) in
    ct ++ write_at 0 (take GCM_TAG_SIZE tag) (drop pt_len region).

(** [None] is [Err(())]; the result is the plaintext slice. *)
Definition open_in_place (c : InnerCipher) (data : list Z) (seq wire_len : Z) : option (list Z) :=
  match data with
  | [] => Some []
  | _ =>
      if (length data <? GCM_TAG_SIZE)%nat then None
      else
        let aad := gcm_aad wire_len seq in
        let n := (length data - GCM_TAG_SIZE)%nat in
        aead_open (cipher_alg c) (cipher_key c) (cipher_nonce c seq) aad (take n data) (drop n data)
  end.

(** [dst_len] is the length of the destination buffer. *)
Definition open_to (c : InnerCipher) (dst_len : nat) (src : list Z) (seq : Z) (aad : list Z)
  : option (list Z) :=
  if (length src <? GCM_TAG_SIZE)%nat then None
  else
    let n := (length src - GCM_TAG_SIZE)%nat in
    if (dst_len <? n)%nat then None
    else aead_open (cipher_alg c) (cipher_key c) (cipher_nonce c seq) aad (take n src) (drop n src).

(** Session tokens. *)
Definition psk_key (psk : list Z) : list Z := sha256 psk.
Definition session_token_mac (psk session_id : list Z) : list Z :=
  hmac_sha256 (psk_key psk) (bytes_of_string "session-token-v1" ++ session_id).

Context `{HexCodec}.
Definition hash_psk (psk : list Z) : list Z := hex_encode (sha256 psk).
Definition compute_session_token (psk session_id : list Z) : list Z :=
  hex_encode (session_token_mac psk session_id).
(** [Mac::verify_slice] compares the whole tag. *)
Definition verify_session_token (psk session_id want : list Z) : bool :=
  match hex_decode want with
  | Some b => if (length b =? 32)%nat then bool_decide (session_token_mac psk session_id = b) else false
  | None => false
  end.
End Cipher.

(** ** Padding policy *)

Inductive pad_mode := PAD_OFF | PAD_BUCKET.
#[export] Instance pad_mode_dec : EqDecision pad_mode.
Proof. solve_decision. Defined.

(** [set_pad_mode]: anything but "off" selects the bucket policy. *)
Definition set_pad_mode (mode : list Z) : pad_mode :=
  if bool_decide (mode = bytes_of_string "off") then PAD_OFF else PAD_BUCKET.

Definition PAD_BUCKETS : list Z := [128; 256; 384; 512; 768; 1024; 1280; 1600; 2048; 4096].
Definition FALLBACK_TCP_MSS : Z := 1440.
Definition TLS_RECORD_OVERHEAD_RESERVE : Z := 32.
Definition HEADER_SIZE : nat := 10.

Definition mss_padding_record_limit (mss : Z) : Z :=
  let effective := if mss <? 256 then FALLBACK_TCP_MSS else mss in
  Z.max 128 (sat_sub effective TLS_RECORD_OVERHEAD_RESERVE).

(** The loop over the buckets: [Some p] is [return p], [None] falls through. *)
Fixpoint bucket_scan (buckets : list Z) (record_len record_limit : Z) : option Z :=
  match buckets with
  | [] => None
  | b :: rest =>
      let target := if 0 <? record_limit then Z.min b record_limit else b in
      if record_len <? target then Some (target - record_len)
      else if (0 <? record_limit) && (record_limit <=? b) then Some 0
      else bucket_scan rest record_len record_limit
  end.

Definition pad_bucket_with_limit (r : FastRand) (wire_len record_limit : Z) : FastRand * Z :=
  let record_len := u64_sat_add 10 wire_len in
  if (0 <? record_limit) && (record_limit <=? record_len) then (r, 0)
  else
    match bucket_scan PAD_BUCKETS record_len record_limit with
    | Some p => (r, p)
    | None =>
        if 0 <? record_limit then (r, 0)
        else let '(r', x) := gen_range r 0 100 in (r', 1 + x)
    end.

Definition pad_length_with_limit (mode : pad_mode) (r : FastRand) (wire_len record_limit : Z) : FastRand * Z :=
  match mode with
  | PAD_OFF => (r, 0)
  | PAD_BUCKET => pad_bucket_with_limit r wire_len record_limit
  end.

Lemma bucket_scan_spec buckets len limit p :
  bucket_scan buckets len limit = Some p ->
  0 <= p /\ (p <> 0 -> (exists b, b ∈ buckets /\ len + p <= b) /\ (0 < limit -> len + p <= limit)).
Proof.
  induction buckets as [|b rest IH]; simpl; [done|].
  destruct (Z.ltb_spec 0 limit).
  - destruct (Z.ltb_spec len (Z.min b limit)).
    + intros [= <-]. split; [lia|]. intros _. split; [|lia]. exists b. split; [by constructor|lia].
    + destruct (Z.leb_spec limit b); [intros [= <-]; split; [done|lia]|]. intros Hs.
      apply IH in Hs as [? Hs]. split; [done|]. intros Hp. destruct (Hs Hp) as [(b' & ? & ?) ?].
      split; [|done]. exists b'. split; [by constructor|done].
  - destruct (Z.ltb_spec len b).
    + intros [= <-]. split; [lia|]. intros _. split; [|lia]. exists b. split; [by constructor|lia].
    + intros Hs. apply IH in Hs as [? Hs]. split; [done|]. intros Hp. destruct (Hs Hp) as [(b' & ? & ?) ?].
      split; [|done]. exists b'. split; [by constructor|done].
Qed.

(** The padding fits the 16-bit header field and the padding cache. *)
Lemma pad_length_bounds mode r wire_len limit :
  rand_ok r -> 0 <= wire_len ->
  rand_ok (pad_length_with_limit mode r wire_len limit).1 /\
  0 <= (pad_length_with_limit mode r wire_len limit).2 <= 4086 /\
  (0 < limit -> (pad_length_with_limit mode r wire_len limit).2 <> 0 ->
   10 + wire_len + (pad_length_with_limit mode r wire_len limit).2 <= limit).
Proof.
  intros Hr Hw. destruct mode; [split; [done|cbn; lia]|]. unfold pad_length_with_limit, pad_bucket_with_limit.
  destruct ((0 <? limit) && (limit <=? u64_sat_add 10 wire_len)) eqn:Eb; [split; [done|cbn; lia]|].
  assert (Hsat : wire_len <= U64_MAX - 10 -> u64_sat_add 10 wire_len = 10 + wire_len) by (unfold_ints; lia).
  destruct (bucket_scan _ _ _) as [p|] eqn:Es.
  - apply bucket_scan_spec in Es as [Hp Hs]. cbn [fst snd]. split; [done|].
    destruct (decide (p = 0)) as [->|Hne]; [split; [lia|done]|].
    destruct (Hs Hne) as [(b & Hb & Hle) Hlim].
    assert (b <= 4096). { revert Hb. unfold PAD_BUCKETS. rewrite !elem_of_cons, elem_of_nil. lia. }
    assert (wire_len <= U64_MAX - 10) by (unfold_ints; lia). rewrite Hsat in * by done.
    split; [unfold_ints; lia|]. intros Hl _. lia.
  - destruct (Z.ltb_spec 0 limit); [split; [done|cbn; lia]|].
    destruct (gen_range_ok r 0 100 Hr) as (Hr' & H1 & H2). destruct (gen_range r 0 100) as [r' x].
    cbn [fst snd] in *. split; [done|]. split; lia.
Qed.

(** ** Properties of the inner cipher *)

Section CipherFacts.
Context `{CryptoLaws}.

Lemma seal_in_place_eq c pt seq wl :
  pt <> [] ->
  seal_in_place c (pt ++ replicate GCM_TAG_SIZE 0) (length pt) seq wl
  = (aead_of c seq (gcm_aad wl seq) pt).1 ++ (aead_of c seq (gcm_aad wl seq) pt).2.
Proof.
  intros Hne. unfold seal_in_place. destruct (Nat.eqb_spec (length pt) 0) as [E|]; [by destruct pt|].
  rewrite take_app_length, drop_app_length.
  destruct (aead_of c seq _ pt) as [ct tag] eqn:E. cbn [fst snd]. f_equal.
  assert (Ht : length tag = GCM_TAG_SIZE).
  { pose proof (seal_tag_length (cipher_alg c) (cipher_key c) (cipher_nonce c seq) (gcm_aad wl seq) pt) as Ht.
    unfold aead_of in E. by rewrite E in Ht. }
  unfold write_at. rewrite (take_ge tag) by (rewrite Ht; lia).
  rewrite take_0, drop_ge by (rewrite length_replicate, Ht; lia). apply app_nil_r.
Qed.

Lemma seal_in_place_length c pt seq wl :
  length (seal_in_place c (pt ++ replicate GCM_TAG_SIZE 0) (length pt) seq wl)
  = (length pt + GCM_TAG_SIZE)%nat.
Proof.
  destruct (decide (pt = [])) as [->|Hne]; [done|].
  rewrite seal_in_place_eq by done. unfold aead_of. by rewrite length_app, seal_length, seal_tag_length.
Qed.

Lemma open_sealed c pt seq wl ct tag :
  aead_of c seq (gcm_aad wl seq) pt = (ct, tag) ->
  length ct = length pt /\ length tag = GCM_TAG_SIZE /\
  (take (length (ct ++ tag) - GCM_TAG_SIZE) (ct ++ tag) = ct) /\
  (drop (length (ct ++ tag) - GCM_TAG_SIZE) (ct ++ tag) = tag) /\
  aead_open (cipher_alg c) (cipher_key c) (cipher_nonce c seq) (gcm_aad wl seq) ct tag = Some pt.
Proof.
  unfold aead_of. intros E.
  pose proof (seal_length (cipher_alg c) (cipher_key c) (cipher_nonce c seq) (gcm_aad wl seq) pt) as H1.
  pose proof (seal_tag_length (cipher_alg c) (cipher_key c) (cipher_nonce c seq) (gcm_aad wl seq) pt) as H2.
  pose proof (open_seal (cipher_alg c) (cipher_key c) (cipher_nonce c seq) (gcm_aad wl seq) pt) as H3.
  rewrite E in *. cbn [fst snd] in *.
  assert (length (ct ++ tag) - GCM_TAG_SIZE = length ct)%nat as -> by (rewrite length_app; lia).
  rewrite take_app_length, drop_app_length. done.
Qed.

Lemma open_in_place_seal c pt seq wl :
  pt <> [] ->
  open_in_place c (seal_in_place c (pt ++ replicate GCM_TAG_SIZE 0) (length pt) seq wl) seq wl = Some pt.
Proof.
  intros Hne. rewrite seal_in_place_eq by done.
  destruct (aead_of c seq (gcm_aad wl seq) pt) as [ct tag] eqn:E. cbn [fst snd].
  destruct (open_sealed _ _ _ _ _ _ E) as (Hc & Ht & H1 & H2 & H3). unfold open_in_place.
  destruct (ct ++ tag) eqn:Ect; [by destruct ct, pt|]. rewrite <-Ect in *.
  destruct (Nat.ltb_spec (length (ct ++ tag)) GCM_TAG_SIZE); [rewrite length_app in *; lia|].
  by rewrite H1, H2.
Qed.

Lemma open_to_seal c pt seq wl n :
  pt <> [] -> (length pt <= n)%nat ->
  open_to c n (seal_in_place c (pt ++ replicate GCM_TAG_SIZE 0) (length pt) seq wl) seq (gcm_aad wl seq) = Some pt.
Proof.
  intros Hne Hn. rewrite seal_in_place_eq by done.
  destruct (aead_of c seq (gcm_aad wl seq) pt) as [ct tag] eqn:E. cbn [fst snd].
  destruct (open_sealed _ _ _ _ _ _ E) as (Hc & Ht & H1 & H2 & H3). unfold open_to.
  destruct (Nat.ltb_spec (length (ct ++ tag)) GCM_TAG_SIZE); [rewrite length_app in *; lia|].
  destruct (Nat.ltb_spec n (length (ct ++ tag) - GCM_TAG_SIZE)); [rewrite length_app in *; lia|].
  by rewrite H1, H2.
Qed.
End CipherFacts.

Lemma cipher_nonce_inj c s1 s2 :
  is_u32 s1 -> is_u32 s2 -> cipher_nonce c s1 = cipher_nonce c s2 -> s1 = s2.
Proof.
  intros H1 H2 E.
  assert (Hb : be_encode 4 s1 = be_encode 4 s2).
  { destruct c; simpl in E; unfold standard_nonce, xchacha_nonce in E;
      first [by apply app_inj_1 in E as [? _]; [|rewrite !length_be_encode] | by apply app_inj_2 in E as [_ ?]; [|rewrite !length_be_encode]]. }
  apply (be_encode_inj 4); [..|done]; change (256 ^ Z.of_nat 4) with 4294967296; unfold_ints; lia.
Qed.

(** The keys of one pre-shared key are separated: distinct (algorithm,
    domain) pairs never derive a key from the same label, so the data stream and
    the FEC parity stream of any algorithm use different hash inputs; and under
    one cipher two different sequence numbers never share a nonce. *)
Theorem aead_inputs_separated :
  (forall a1 a2 d1 d2 l1 l2,
     base_label a1 = Some l1 -> base_label a2 = Some l2 ->
     (d1 = DOMAIN_DATA \/ d1 = DOMAIN_FEC) -> (d2 = DOMAIN_DATA \/ d2 = DOMAIN_FEC) ->
     domain_label l1 d1 = domain_label l2 d2 -> a1 = a2 /\ d1 = d2) /\
  (forall c s1 s2, is_u32 s1 -> is_u32 s2 -> cipher_nonce c s1 = cipher_nonce c s2 -> s1 = s2).
Proof.
  split; [|apply cipher_nonce_inj]. intros a1 a2 d1 d2 l1 l2. unfold base_label.
  repeat case_bool; intros; simplify_eq; destruct_or!; subst; try done;
    match goal with E : domain_label _ _ = domain_label _ _ |- _ => by vm_compute in E end.
Qed.

(** The in-place wire transform is lossless for every algorithm: sealing a
    non-empty payload into its buffer appends exactly the 16-byte tag and
    opening the result with the same sequence number and wire length returns the
    payload, both in place and into a separate buffer that can hold it. *)
Theorem seal_open_roundtrip `{CryptoLaws} c pt seq wl n :
  pt <> [] -> (length pt <= n)%nat ->
  let sealed := seal_in_place c (pt ++ replicate GCM_TAG_SIZE 0) (length pt) seq wl in
  length sealed = (length pt + tag_len c)%nat /\
  open_in_place c sealed seq wl = Some pt /\
  open_to c n sealed seq (gcm_aad wl seq) = Some pt.
Proof.
  intros Hne Hn sealed. split_and!; [apply seal_in_place_length|by apply open_in_place_seal|by apply open_to_seal].
Qed.

(** The comparison that scans every byte decides equality of byte strings,
    and a random session token is accepted only if it is the stored one. *)
Theorem constant_time_eq_correct a b :
  bytes_ok a -> bytes_ok b ->
  (constant_time_eq a b = true <-> a = b) /\
  (verify_random_session_token a b = true <-> a = b /\ length a = 64%nat).
Proof.
  intros Ha Hb. assert (Heq : constant_time_eq a b = true <-> a = b).
  { unfold constant_time_eq. destruct (Z.eqb_spec (zlen a) (zlen b)) as [E|E]; simpl.
    - rewrite Z.eqb_eq, ct_diff_zero by (done || lia). naive_solver.
    - split; [done|]. intros ->. done. }
  split; [done|]. unfold verify_random_session_token. rewrite !andb_true_iff, Heq, !Z.eqb_eq.
  split; [intros [[? ?] ?]; split; [done|lia]|intros [<- ?]; split_and!; done || lia].
Qed.

(** ** A concrete AEAD with the documented laws, for examples *)

Definition toy_tag (k n ad p : list Z) : list Z :=
  replicate 16 ((foldl Z.add 7 (k ++ n ++ ad ++ p)) mod 256).
#[export] Instance toy_prims : CryptoPrims := {|
  aead_seal _ k n ad p := (p, toy_tag k n ad p);
  aead_open _ k n ad c t := if decide (t = toy_tag k n ad c) then Some c else None;
  sha256 m := replicate 32 (foldl Z.add 0 m mod 256);
  hmac_sha256 k m := replicate 32 (foldl Z.add 0 (k ++ m) mod 256) |}.
#[export] Instance toy_laws : CryptoLaws.
Proof.
  split; simpl; intros; try done.
  - split; [done|]. apply Forall_replicate, Z.mod_pos_bound. lia.
  - by rewrite decide_True.
  - by case_decide; simplify_eq.
  - apply (Forall_replicate is_byte 32), Z.mod_pos_bound. lia.
Qed.

Lemma seal_open_roundtrip_witness :
  let c := XChaCha20 (replicate 32 1) (replicate 20 2) in
  open_in_place c (seal_in_place c ([10; 20; 30] ++ replicate GCM_TAG_SIZE 0) 3 77 19) 77 19 = Some [10; 20; 30].
Proof.
  intros c. destruct (seal_open_roundtrip c [10; 20; 30] 77 19 3) as (_ & H & _); [done|simpl; lia|exact H].
Defined.

Lemma constant_time_eq_correct_witness :
  constant_time_eq [1; 2; 255] [1; 2; 255] = true /\ (constant_time_eq [1; 2] [1; 3] = true <-> [1; 2] = [1; 3]).
Proof.
  split; [reflexivity|]. apply constant_time_eq_correct; repeat constructor; done.
Defined.

Lemma aead_inputs_separated_witness :
  domain_label GCM_KEY_LABEL DOMAIN_FEC <> domain_label GCM_KEY_LABEL DOMAIN_DATA /\
  cipher_nonce (Gcm256 [] (replicate 8 0)) 1 <> cipher_nonce (Gcm256 [] (replicate 8 0)) 2.
Proof.
  destruct aead_inputs_separated as [H1 H2]. split; intros E.
  - apply (H1 ENC_ALGO_GCM ENC_ALGO_GCM) in E as [_ E]; [discriminate E|reflexivity|reflexivity|by right|by left].
  - apply H2 in E; [discriminate E|done..].
Defined.
