(* ===== verification/Frame.v ===== *)
(** * [src/src/frame.rs]: framing, batch padding and the frame scanner

    A frame on the wire is [4B dataLen][2B padLen][4B seq] followed by the
    payload and the padding.  The scanner reads it back from a byte stream that
    the transport may cut anywhere: its state keeps the source's buffer, the
    consumed offset, the vector capacity and the two limits, and the reader is
    an explicit list of read results. *)
From S2P Require Import Prelude Utils Crypto.

(** ** Writing frames *)

Definition wire_frame (seq : Z) (payload pad : list Z) : list Z :=
  be_encode 4 (zlen payload) ++ be_encode 2 (zlen pad) ++ be_encode 4 seq ++ payload ++ pad.

#[global] Arguments wire_frame : simpl never.

Definition STREAM_TLS_BATCH_SOFT_LIMIT : Z := 12 * 1024.
Definition MAX_TLS_PLAINTEXT_RECORD : Z := 16 * 1024.
Definition STREAM_PAD_RATIO_PERCENT : Z := 10.
Definition STREAM_PAD_ABSOLUTE_LIMIT : Z := 512.

Definition stream_aligned_tls_plaintext_target (n record_limit : Z) : Z :=
  if n =? 0 then 0
  else
    let mss := u64_sat_add record_limit TLS_RECORD_OVERHEAD_RESERVE in
    let mss := if mss <? 256 then FALLBACK_TCP_MSS else mss in
    let segs := (n + TLS_RECORD_OVERHEAD_RESERVE + mss - 1) / mss in
    let target := sat_sub (u64_sat_mul segs mss) TLS_RECORD_OVERHEAD_RESERVE in
    if (target <? n) || (MAX_TLS_PLAINTEXT_RECORD <? target) then n else target.

Definition stream_padding_budget (batch_len : Z) : Z :=
  if batch_len =? 0 then 0
  else Z.min (batch_len * STREAM_PAD_RATIO_PERCENT / 100) STREAM_PAD_ABSOLUTE_LIMIT.

Section Writer.
Context `{CryptoPrims}.
(** [PADDING_CACHE], one MiB of random bytes filled at start-up. *)
Context (PADDING_CACHE : list Z).

Definition cache_slice (r : FastRand) (pad_len : nat) : FastRand * list Z :=
  let '(r', offset) := gen_range r 0 (zlen PADDING_CACHE - Z.of_nat pad_len) in
  (r', slice (Z.to_nat offset) (Z.to_nat offset + pad_len) PADDING_CACHE).

(** Sequence number 0 (control frames) and empty frames are never sealed. *)
Definition enc_tag_len (ic : option InnerCipher) (seq : Z) (data_len : nat) : nat :=
  match ic with
  | Some c => if negb (seq =? 0) && (0 <? data_len)%nat then tag_len c else 0%nat
  | None => 0%nat
  end.

Definition append_padded_frame_with_limit (mode : pad_mode) (r : FastRand) (buf : list Z)
    (seq : Z) (data : list Z) (ic : option InnerCipher) (record_limit : Z) : FastRand * list Z :=
  let data_len := length data in
  let enc_tag := enc_tag_len ic seq data_len in
  let '(r, pad_len) := pad_length_with_limit mode r (Z.of_nat (data_len + enc_tag)) record_limit in
  let wire_len := u32_wrap (Z.of_nat (data_len + enc_tag)) in
  let start_idx := length buf in
  let buf := buf ++ be_encode 4 wire_len ++ be_encode 2 (pad_len mod 65536) ++ be_encode 4 seq ++ data in
  let buf := if (0 <? enc_tag)%nat then resize0 (length buf + enc_tag) buf else buf in
  let buf :=
    if (0 <? data_len)%nat then
      let payload_start := (start_idx + 10)%nat in
      match ic with
      | Some c =>
          if negb (seq =? 0) then
            write_at payload_start
              (seal_in_place c (slice payload_start (payload_start + data_len + enc_tag) buf) data_len seq wire_len)
              buf
          else buf
      | None => buf
      end
    else buf in
  if 0 <? pad_len then
    let '(r, pad) := cache_slice r (Z.to_nat pad_len) in (r, buf ++ pad)
  else (r, buf).

Definition append_padded_frame mode r buf seq data ic :=
  append_padded_frame_with_limit mode r buf seq data ic 0.
Definition write_stream_frame_with_limit (mode : pad_mode) (r : FastRand) (frame : list Z) (record_limit : Z)
  : FastRand * list Z :=
  append_padded_frame_with_limit mode r [] 0 frame None record_limit.

(** The result also carries the start of the appended frame. *)
Definition append_unpadded_frame (mode : pad_mode) (r : FastRand) (buf : list Z)
    (seq : Z) (data : list Z) (ic : option InnerCipher) : (FastRand * list Z) * nat :=
  (append_padded_frame_with_limit mode r buf seq data ic 1, length buf).

(** The result is the random state, the buffer and the number of cover bytes. *)
Definition pad_stream_batch_tail (mode : pad_mode) (r : FastRand) (buf : list Z)
    (last_frame_start : option nat) (record_limit : Z) : FastRand * list Z * Z :=
  if bool_decide (mode = PAD_OFF) || (zlen buf =? 0) then (r, buf, 0)
  else
    match last_frame_start with
    | None => (r, buf, 0)
    | Some start =>
        if (length buf <? start + 10)%nat then (r, buf, 0)
        else
          let target := stream_aligned_tls_plaintext_target (zlen buf) record_limit in
          let pad_len := sat_sub target (zlen buf) in
          if (pad_len =? 0) || (U16_MAX <? pad_len) then (r, buf, 0)
          else if stream_padding_budget (zlen buf) <? pad_len then (r, buf, 0)
          else
            let old_pad := be_decode (slice (start + 4) (start + 6) buf) in
            if (U16_MAX <? old_pad + pad_len) || (zlen PADDING_CACHE <=? pad_len) then (r, buf, 0)
            else
              let buf := write_at (start + 4) (be_encode 2 (old_pad + pad_len)) buf in
              let '(r, pad) := cache_slice r (Z.to_nat pad_len) in
              (r, buf ++ pad, pad_len)
    end.
End Writer.

(** ** The scanner *)

Definition MAX_DATA_LENGTH : Z := 65535 * 2.
Definition HANDSHAKE_DATA_LENGTH : Z := 16 * 1024.

Record FrameScanner := {
  fs_buffer : list Z;
  fs_capacity : Z;
  fs_lazy_compact : bool;
  fs_offset : nat;
  fs_max_data_len : Z }.

Definition FrameScanner_new (lazy : bool) : FrameScanner :=
  {| fs_buffer := []; fs_capacity := HANDSHAKE_DATA_LENGTH; fs_lazy_compact := lazy;
     fs_offset := 0; fs_max_data_len := MAX_DATA_LENGTH |}.

Definition set_max_data_len (st : FrameScanner) (n : Z) : FrameScanner :=
  {| fs_buffer := fs_buffer st; fs_capacity := fs_capacity st; fs_lazy_compact := fs_lazy_compact st;
     fs_offset := fs_offset st; fs_max_data_len := n |}.

Definition fs_set (st : FrameScanner) (buffer : list Z) (offset : nat) : FrameScanner :=
  {| fs_buffer := buffer; fs_capacity := fs_capacity st; fs_lazy_compact := fs_lazy_compact st;
     fs_offset := offset; fs_max_data_len := fs_max_data_len st |}.

Definition peek_first_byte (st : FrameScanner) : option Z :=
  if (fs_offset st <? length (fs_buffer st))%nat then fs_buffer st !! fs_offset st else None.

Definition compact_consumed (st : FrameScanner) (before_read : bool) : FrameScanner :=
  let len := zlen (fs_buffer st) in
  let off := Z.of_nat (fs_offset st) in
  if fs_lazy_compact st && negb (off =? len) && (negb before_read || (len <? fs_capacity st)) then st
  else if (0 <? off) && ((off =? len) ||
            (if fs_lazy_compact st then len =? fs_capacity st else 16384 <? off))
  then fs_set st (drop (fs_offset st) (fs_buffer st)) 0
  else st.

Inductive io_error := InvalidData | ReaderError.

Definition take_buffered_frame (st : FrameScanner)
  : FrameScanner * result (option (list Z * Z)) io_error :=
  let available := (length (fs_buffer st) - fs_offset st)%nat in
  if (available <? HEADER_SIZE)%nat then (st, Ok None)
  else
    let off := fs_offset st in
    let data_len := be_decode (slice off (off + 4) (fs_buffer st)) in
    let pad_len := be_decode (slice (off + 4) (off + 6) (fs_buffer st)) in
    let seq := be_decode (slice (off + 6) (off + 10) (fs_buffer st)) in
    if fs_max_data_len st <? data_len then (fs_set st [] 0, Err InvalidData)
    else
      let total_len := data_len + pad_len in
      if Z.of_nat available <? Z.of_nat HEADER_SIZE + total_len then (st, Ok None)
      else
        let payload_start := (off + HEADER_SIZE)%nat in
        let st' := fs_set st (fs_buffer st) (off + HEADER_SIZE + Z.to_nat total_len) in
        let out :=
          if data_len =? 0 then ([], seq)
          else (slice payload_start (payload_start + Z.to_nat data_len) (fs_buffer st), seq) in
        (compact_consumed st' false, Ok (Some out)).

(** A reader is the sequence of what its [read] calls will find: bytes that are
    available, [WouldBlock], or another error.  A read takes at most the space
    offered; an exhausted reader blocks. *)
Inductive read_event := RData (chunk : list Z) | RBlock | RError.

Inductive read_result := ReadOk (bytes : list Z) | ReadBlock | ReadErr.
Definition reader_read (rd : list read_event) (space : Z) : list read_event * read_result :=
  match rd with
  | [] => ([], ReadBlock)
  | RBlock :: rd' => (rd', ReadBlock)
  | RError :: rd' => (rd', ReadErr)
  | RData c :: rd' =>
      if zlen c <=? space then (rd', ReadOk c)
      else (RData (drop (Z.to_nat space) c) :: rd', ReadOk (take (Z.to_nat space) c))
  end.

Section Scanner.
(** [Vec::reserve(16384)] on a full vector: the new capacity. *)
Context (vec_grow : Z -> Z).

Definition reserve_capacity (st : FrameScanner) : FrameScanner :=
  {| fs_buffer := fs_buffer st;
     fs_capacity := if zlen (fs_buffer st) =? fs_capacity st then vec_grow (fs_capacity st) else fs_capacity st;
     fs_lazy_compact := fs_lazy_compact st; fs_offset := fs_offset st;
     fs_max_data_len := fs_max_data_len st |}.

(** The [loop] of [read_frame]; every turn that does not return consumes bytes
    of the reader, so [reader_fuel] turns are enough (see [read_frame_spec]). *)
Fixpoint read_loop (fuel : nat) (st : FrameScanner) (rd : list read_event)
  : FrameScanner * list read_event * result (option (list Z * Z)) io_error :=
  match fuel with
  | O => (st, rd, Ok None)
  | S fuel' =>
      match take_buffered_frame st with
      | (st, Err e) => (st, rd, Err e)
      | (st, Ok (Some f)) => (st, rd, Ok (Some f))
      | (st, Ok None) =>
          let st := reserve_capacity (compact_consumed st true) in
          let spare := Z.min (fs_capacity st - zlen (fs_buffer st)) 16384 in
          match reader_read rd spare with
          | (rd, ReadOk []) => (st, rd, Ok None)
          | (rd, ReadOk bytes) => read_loop fuel' (fs_set st (fs_buffer st ++ bytes) (fs_offset st)) rd
          | (rd, ReadBlock) => (st, rd, Ok None)
          | (rd, ReadErr) => (st, rd, Err ReaderError)
          end
      end
  end.

Definition event_weight (e : read_event) : nat := match e with RData c => S (length c) | _ => 1%nat end.
Definition reader_fuel (rd : list read_event) : nat := S (S (sum_list_with event_weight rd)).
Definition read_frame (st : FrameScanner) (rd : list read_event) :=
  read_loop (reader_fuel rd) st rd.

(** The receive loops call [read_frame] until the transport is exhausted. *)
Fixpoint scan_all (fuel : nat) (st : FrameScanner) (rd : list read_event)
  : FrameScanner * result (list (list Z * Z)) io_error :=
  match fuel with
  | O => (st, Ok [])
  | S fuel' =>
      match read_frame st rd with
      | (st, rd, Err e) => (st, Err e)
      | (st, rd, Ok (Some f)) =>
          match scan_all fuel' st rd with
          | (st, Ok fs) => (st, Ok (f :: fs))
          | (st, Err e) => (st, Err e)
          end
      | (st, [], Ok None) => (st, Ok [])
      | (st, rd, Ok None) => scan_all fuel' st rd
      end
  end.
End Scanner.

Example scan_run :
  (scan_all (fun c => 2 * c + 16384) 9 (FrameScanner_new false)
     [RData (take 7 (wire_frame 5 [1; 2; 3] [0; 0])); RBlock;
      RData (drop 7 (wire_frame 5 [1; 2; 3] [0; 0]) ++ wire_frame 0 [] [])]).2
  = Ok [([1; 2; 3], 5); ([], 0)].
Proof. vm_compute. reflexivity. Qed.

(** ** Facts about the wire format *)

Lemma slice_shift {A} off a b (l : list A) : slice (off + a) (off + b) l = slice a b (drop off l).
Proof. unfold slice. rewrite drop_drop. f_equal. lia. Qed.

Lemma slice_prefix {A} a b (l1 l2 : list A) :
  (b <= length l1)%nat -> slice a b (l1 ++ l2) = slice a b l1.
Proof.
  intros Hb. unfold slice. destruct (decide (a <= length l1)%nat).
  - rewrite drop_app_le, take_app_le; [done|rewrite length_drop; lia|lia].
  - rewrite !(proj2 (Nat.sub_0_le b a)) by lia. done.
Qed.

Lemma length_wire_frame seq p pad : length (wire_frame seq p pad) = (10 + length p + length pad)%nat.
Proof. unfold wire_frame. rewrite !length_app, !length_be_encode. lia. Qed.
#[export] Hint Rewrite length_wire_frame : vpnlen.

(** A frame the protocol can carry under a payload limit. *)
Record frame_ok (limit : Z) (seq : Z) (p pad : list Z) : Prop := {
  fok_seq : is_u32 seq;
  fok_data : zlen p <= limit;
  fok_limit : limit <= U32_MAX;
  fok_pad : zlen pad <= U16_MAX }.

Lemma wire_header limit seq p pad rest :
  frame_ok limit seq p pad ->
  let w := wire_frame seq p pad ++ rest in
  be_decode (slice 0 4 w) = zlen p /\ be_decode (slice 4 6 w) = zlen pad /\
  be_decode (slice 6 10 w) = seq /\ slice 10 (10 + length p) w = p /\
  drop (10 + length p + length pad) w = rest.
Proof.
  intros [Hs Hd Hl Hp] w. subst w. unfold wire_frame. rewrite <-!app_assoc.
  split_and!.
  - rewrite slice_app_l by apply length_be_encode. apply be_decode_encode_4. unfold_ints. lia.
  - rewrite (slice_app_r _ _ _ _ 4) by (rewrite ?length_be_encode; lia). cbn [Nat.sub].
    rewrite slice_app_l by apply length_be_encode. apply be_decode_encode.
    change (256 ^ Z.of_nat 2) with 65536. unfold_ints. lia.
  - rewrite (slice_app_r _ _ _ _ 4), (slice_app_r _ _ _ _ 2) by (rewrite ?length_be_encode; lia). cbn [Nat.sub].
    rewrite slice_app_l by apply length_be_encode. by apply be_decode_encode_4.
  - rewrite (slice_app_r _ _ _ _ 4), (slice_app_r _ _ _ _ 2), (slice_app_r _ _ _ _ 4) by (rewrite ?length_be_encode; lia).
    apply slice_app_l. lia.
  - rewrite !app_assoc, drop_app_ge, <-!app_assoc; rewrite !length_app, !length_be_encode; [|lia].
    by rewrite (proj2 (Nat.sub_0_le _ _)) by lia.
Qed.

(** ** The scanner loses and invents nothing *)

Definition avail (st : FrameScanner) : list Z := drop (fs_offset st) (fs_buffer st).
Definition fs_ok (st : FrameScanner) : Prop :=
  (fs_offset st <= length (fs_buffer st))%nat /\ zlen (fs_buffer st) <= fs_capacity st.

Lemma length_avail st : length (avail st) = (length (fs_buffer st) - fs_offset st)%nat.
Proof. apply length_drop. Qed.

Lemma compact_ok st b :
  fs_ok st -> fs_ok (compact_consumed st b) /\ avail (compact_consumed st b) = avail st /\
  fs_max_data_len (compact_consumed st b) = fs_max_data_len st.
Proof.
  intros [Ho Hc]. unfold compact_consumed.
  destruct (fs_lazy_compact st && _ && _); [done|].
  destruct ((0 <? _) && _); [|done].
  unfold fs_ok, avail. cbn [fs_buffer fs_offset fs_capacity fs_set fs_max_data_len].
  rewrite drop_0, length_drop. split_and!; done || lia.
Qed.

Lemma header_of_avail st more limit seq p pad rest :
  frame_ok limit seq p pad -> avail st ++ more = wire_frame seq p pad ++ rest ->
  (10 <= length (avail st))%nat ->
  be_decode (slice (fs_offset st) (fs_offset st + 4) (fs_buffer st)) = zlen p /\
  be_decode (slice (fs_offset st + 4) (fs_offset st + 6) (fs_buffer st)) = zlen pad /\
  be_decode (slice (fs_offset st + 6) (fs_offset st + 10) (fs_buffer st)) = seq.
Proof.
  intros Hf E Hl. destruct (wire_header _ _ _ _ rest Hf) as (H1 & H2 & H3 & _). rewrite <-E in *.
  rewrite slice_prefix in H1, H2, H3 by lia.
  rewrite <-(Nat.add_0_r (fs_offset st)) at 1. by rewrite !slice_shift.
Qed.

Lemma take_frame_full st seq p pad rest :
  fs_ok st -> frame_ok (fs_max_data_len st) seq p pad ->
  avail st = wire_frame seq p pad ++ rest ->
  exists st', take_buffered_frame st = (st', Ok (Some (p, seq))) /\ fs_ok st' /\ avail st' = rest /\
    fs_max_data_len st' = fs_max_data_len st.
Proof.
  intros [Ho Hc] Hf E. pose proof (length_avail st) as Hl. unfold take_buffered_frame.
  rewrite <-Hl. assert (Hal : length (avail st) = (10 + length p + length pad + length rest)%nat)
    by (rewrite E, length_app, length_wire_frame; lia).
  destruct (Nat.ltb_spec (length (avail st)) HEADER_SIZE); [unfold HEADER_SIZE in *; lia|].
  destruct (header_of_avail st [] _ seq p pad rest Hf) as (-> & -> & ->); [by rewrite app_nil_r|lia|].
  destruct (Z.ltb_spec (fs_max_data_len st) (zlen p)); [destruct Hf; lia|].
  destruct (Z.ltb_spec (Z.of_nat (length (avail st))) (Z.of_nat HEADER_SIZE + (zlen p + zlen pad)));
    [unfold HEADER_SIZE in *; lia|].
  destruct (wire_header _ _ _ _ rest Hf) as (_ & _ & _ & Hp & Hd). rewrite <-E in Hp, Hd.
  set (st1 := fs_set _ _ _). assert (Hok1 : fs_ok st1).
  { split; [|done]. cbn. unfold HEADER_SIZE. lia. }
  destruct (compact_ok st1 false Hok1) as (Hok2 & Ha2 & Hm2).
  exists (compact_consumed st1 false). split_and!; [|done| |done].
  - do 3 f_equal. destruct (Z.eqb_spec (zlen p) 0) as [Ep|]; [by destruct p|].
    f_equal. unfold HEADER_SIZE. rewrite Nat2Z.id.
    replace (fs_offset st + 10 + length p)%nat with (fs_offset st + (10 + length p))%nat by lia.
    rewrite slice_shift. done.
  - rewrite Ha2. unfold avail at 1. cbn [st1 fs_set fs_offset fs_buffer]. rewrite <-Hd. unfold avail.
    rewrite drop_drop. f_equal. unfold HEADER_SIZE. lia.
Qed.

Lemma take_frame_partial st more seq p pad rest :
  frame_ok (fs_max_data_len st) seq p pad ->
  avail st ++ more = wire_frame seq p pad ++ rest ->
  (length (avail st) < length (wire_frame seq p pad))%nat ->
  take_buffered_frame st = (st, Ok None).
Proof.
  intros Hf E Hlt. rewrite length_wire_frame in Hlt. unfold take_buffered_frame. rewrite <-length_avail.
  destruct (Nat.ltb_spec (length (avail st)) HEADER_SIZE); [done|].
  destruct (header_of_avail st more _ seq p pad rest Hf E) as (-> & -> & ->); [unfold HEADER_SIZE in *; lia|].
  destruct (Z.ltb_spec (fs_max_data_len st) (zlen p)); [destruct Hf; lia|].
  destruct (Z.ltb_spec (Z.of_nat (length (avail st))) (Z.of_nat HEADER_SIZE + (zlen p + zlen pad))); [done|].
  unfold HEADER_SIZE in *. lia.
Qed.

Definition event_bytes (e : read_event) : list Z := match e with RData c => c | _ => [] end.
Definition reader_bytes (rd : list read_event) : list Z := concat (event_bytes <$> rd).
(** A live transport: no error and no end of stream ([Ok(0)]). *)
Definition event_live (e : read_event) : Prop :=
  match e with RData c => c <> [] | RBlock => True | RError => False end.
Abbreviation weight rd := (sum_list_with event_weight rd).

Section ScannerFacts.
Context (vec_grow : Z -> Z) (grow_more : forall c, c < vec_grow c).

Lemma reserve_ok st :
  fs_ok st -> fs_ok (reserve_capacity vec_grow st) /\ avail (reserve_capacity vec_grow st) = avail st /\
  zlen (fs_buffer (reserve_capacity vec_grow st)) < fs_capacity (reserve_capacity vec_grow st) /\
  fs_max_data_len (reserve_capacity vec_grow st) = fs_max_data_len st.
Proof using grow_more.
  intros [Ho Hc]. unfold fs_ok, reserve_capacity, avail. cbn. pose proof (grow_more (fs_capacity st)).
  destruct (Z.eqb_spec (zlen (fs_buffer st)) (fs_capacity st)); split_and!; done || lia.
Qed.

Lemma append_ok st bytes :
  fs_ok st -> zlen (fs_buffer st) + zlen bytes <= fs_capacity st ->
  fs_ok (fs_set st (fs_buffer st ++ bytes) (fs_offset st)) /\
  avail (fs_set st (fs_buffer st ++ bytes) (fs_offset st)) = avail st ++ bytes.
Proof.
  intros [Ho Hc] Hb. unfold fs_ok, avail. cbn. rewrite length_app, drop_app_le by done. split_and!; done || lia.
Qed.

Lemma reader_read_live rd space :
  Forall event_live rd -> 0 < space ->
  (exists rd', reader_read rd space = (rd', ReadBlock) /\ Forall event_live rd' /\
     reader_bytes rd' = reader_bytes rd /\ ((weight rd' < weight rd)%nat \/ (rd = [] /\ rd' = []))) \/
  (exists rd' bs, reader_read rd space = (rd', ReadOk bs) /\ bs <> [] /\ zlen bs <= space /\
     Forall event_live rd' /\ bs ++ reader_bytes rd' = reader_bytes rd /\ (weight rd' < weight rd)%nat).
Proof.
  intros Hl Hsp. destruct rd as [|[c| |] rd]; simpl; [left; exists []; split_and!; [done..|by right]| | |by apply Forall_cons in Hl as [? _]].
  - apply Forall_cons in Hl as [Hc Hl]. simpl in Hc. right. destruct (Z.leb_spec (zlen c) space).
    + exists rd, c. split_and!; done || lia.
    + assert (Hd : length (drop (Z.to_nat space) c) = (length c - Z.to_nat space)%nat) by apply length_drop.
      exists (RData (drop (Z.to_nat space) c) :: rd), (take (Z.to_nat space) c).
      split_and!; [done| | | | |].
      * intros E. apply (f_equal length) in E. rewrite length_take in E. simpl in E. lia.
      * rewrite length_take. lia.
      * constructor; [|done]. simpl. intros E. rewrite E in Hd. simpl in Hd. lia.
      * unfold reader_bytes. rewrite fmap_cons, fmap_cons. cbn [event_bytes concat].
        by rewrite app_assoc, take_drop.
      * simpl. lia.
  - apply Forall_cons in Hl as [_ Hl]. left. exists rd. split_and!; [done|done|done|left; lia].
Qed.

Lemma read_loop_spec fuel st rd more seq p pad rest :
  (weight rd < fuel)%nat -> fs_ok st -> Forall event_live rd ->
  frame_ok (fs_max_data_len st) seq p pad ->
  avail st ++ reader_bytes rd ++ more = wire_frame seq p pad ++ rest ->
  exists st' rd' r, read_loop vec_grow fuel st rd = (st', rd', Ok r) /\
    fs_ok st' /\ Forall event_live rd' /\ fs_max_data_len st' = fs_max_data_len st /\
    match r with
    | Some f => f = (p, seq) /\ avail st' ++ reader_bytes rd' ++ more = rest /\ (weight rd' <= weight rd)%nat /\
        (length (wire_frame seq p pad) <= length (avail st ++ reader_bytes rd))%nat
    | None => avail st' ++ reader_bytes rd' = avail st ++ reader_bytes rd /\
        (length (avail st') < length (wire_frame seq p pad))%nat /\
        ((weight rd' < weight rd)%nat \/ (rd = [] /\ rd' = []))
    end.
Proof using grow_more.
  revert st rd. induction fuel as [|fuel IH]; intros st rd Hfuel Hok Hlive Hf E; [lia|]. cbn [read_loop].
  destruct (decide (length (wire_frame seq p pad) <= length (avail st))%nat) as [Hfull|Hpart].
  - assert (Ha : avail st = wire_frame seq p pad ++ drop (length (wire_frame seq p pad)) (avail st)).
    { apply (f_equal (take (length (wire_frame seq p pad)))) in E. rewrite take_app_length in E.
      rewrite take_app_le in E by done. by rewrite <-E at 1; rewrite take_drop. }
    destruct (take_frame_full _ _ _ _ _ Hok Hf Ha) as (st' & -> & Hok' & Ha' & Hm').
    eexists _, _, _. split; [done|]. split_and!; [done..| |lia|etransitivity; [exact Hfull|]; rewrite length_app; lia].
    rewrite Ha'. rewrite Ha, <-app_assoc in E. by apply app_inv_head in E.
  - rewrite (take_frame_partial st (reader_bytes rd ++ more) seq p pad rest) by (done || lia).
    destruct (compact_ok st true Hok) as (Hok1 & Ha1 & Hm1).
    destruct (reserve_ok _ Hok1) as (Hok2 & Ha2 & Hsp & Hm2).
    set (st2 := reserve_capacity _ _) in *. rewrite Ha1 in Ha2. rewrite Hm1 in Hm2.
    destruct (reader_read_live rd (Z.min (fs_capacity st2 - zlen (fs_buffer st2)) 16384) Hlive)
      as [(rd' & -> & Hl' & Hb' & Hw')|(rd' & bs & -> & Hne & Hlen & Hl' & Hb' & Hw')]; [lia|..].
    + exists st2, rd', None. split_and!; [done..|by rewrite Ha2, Hb'|rewrite Ha2; lia|done].
    + destruct (append_ok st2 bs Hok2) as [Hok3 Ha3]; [lia|].
      destruct bs as [|b0 bs]; [done|]. set (st3 := fs_set _ _ _) in *. assert (Hm3 : fs_max_data_len st3 = fs_max_data_len st) by exact Hm2.
      destruct (IH st3 rd') as (st' & rd'' & r & -> & Hok' & Hl'' & Hm' & Hr); [lia|done|done|by rewrite Hm3| |].
      * rewrite Ha3, Ha2, <-E, <-Hb', <-!app_assoc. done.
      * exists st', rd'', r. split_and!; [done..|by rewrite Hm', Hm3|].
        rewrite Ha3, Ha2, <-app_assoc, Hb' in Hr.
        destruct r as [f|]; [destruct Hr as (? & ? & ? & ?); split_and!; [done|done|lia|done]|].
        destruct Hr as (? & ? & [?|[-> ->]]); (split_and!; [done|done|left; simpl in *; lia]).
Qed.

(** A stream of whole frames followed by a strict prefix of another one. *)
Definition partial_frame (limit : Z) (tail : list Z) : Prop :=
  exists seq p pad more, frame_ok limit seq p pad /\ tail ++ more = wire_frame seq p pad /\ more <> [].

Lemma scan_all_spec fuel st rd frames tail :
  (weight rd + length frames < fuel)%nat -> fs_ok st -> Forall event_live rd ->
  Forall (fun f : Z * list Z * list Z => frame_ok (fs_max_data_len st) f.1.1 f.1.2 f.2) frames ->
  partial_frame (fs_max_data_len st) tail ->
  avail st ++ reader_bytes rd
    = concat ((fun f : Z * list Z * list Z => wire_frame f.1.1 f.1.2 f.2) <$> frames) ++ tail ->
  exists st', scan_all vec_grow fuel st rd
    = (st', Ok ((fun f : Z * list Z * list Z => (f.1.2, f.1.1)) <$> frames)) /\ avail st' = tail.
Proof using grow_more.
  revert st rd frames. induction fuel as [|fuel IH]; intros st rd frames Hfuel Hok Hlive Hfs Htail E; [lia|].
  simpl. unfold read_frame.
  destruct frames as [|[[seq p] pad] frames].
  - simpl in E. destruct Htail as (seq & p & pad & more & Hf & Hw & Hne).
    destruct (read_loop_spec (reader_fuel rd) st rd more seq p pad []) as (st' & rd' & r & -> & Hok' & Hl' & Hm' & Hr);
      [unfold reader_fuel; lia|done..| |].
    { rewrite app_assoc, E, Hw, app_nil_r. done. }
    destruct r as [f|].
    + destruct Hr as (_ & _ & _ & Hlen). rewrite E in Hlen. apply (f_equal length) in Hw.
      rewrite length_app in Hw. destruct more; [done|simpl in *; lia].
    + destruct Hr as (Hs & _ & Hw'). destruct rd' as [|e rd'].
      * exists st'. split; [done|]. rewrite E in Hs. unfold reader_bytes in Hs. simpl in Hs.
        by rewrite app_nil_r in Hs.
      * destruct Hw' as [Hw'|[? ?]]; [|done].
        apply IH; [simpl in *; lia|done|done|done|rewrite Hm'; by exists seq, p, pad, more|by rewrite Hs, E].
  - apply Forall_cons in Hfs as [Hf Hfs]. simpl in Hf. rewrite fmap_cons in E. cbn [concat] in E. rewrite <-app_assoc in E.
    destruct (read_loop_spec (reader_fuel rd) st rd [] seq p pad
      (concat ((fun f : Z * list Z * list Z => wire_frame f.1.1 f.1.2 f.2) <$> frames) ++ tail))
      as (st' & rd' & r & -> & Hok' & Hl' & Hm' & Hr); [unfold reader_fuel; lia|done..| |].
    { by rewrite app_nil_r, E. }
    destruct r as [f|].
    + destruct Hr as (-> & Hrest & Hw' & _). rewrite app_nil_r in Hrest.
      destruct (IH st' rd' frames) as (st'' & -> & Ha); [simpl in *; lia|done|done| | |done|].
      * eapply Forall_impl; [exact Hfs|]. intros ?. by rewrite Hm'.
      * by rewrite Hm'.
      * exists st''. by destruct rd'.
    + destruct Hr as (Hs & Hlt & Hw'). destruct rd' as [|e rd'].
      { exfalso. unfold reader_bytes at 1 in Hs. simpl in Hs. rewrite app_nil_r, E in Hs.
        rewrite Hs, (length_app (wire_frame seq p pad)) in Hlt. cbn [fst snd] in Hlt. lia. }
      destruct Hw' as [Hw'|[? ?]]; [|done].
      eapply IH with (frames := (seq, p, pad) :: frames); [simpl in *; lia|done|done| |by rewrite Hm'|].
      2: { rewrite Hs, E, fmap_cons. cbn [concat]. by rewrite <-app_assoc. }
      constructor; [by rewrite Hm'|]. eapply Forall_impl; [exact Hfs|]. intros ?. by rewrite Hm'.
Qed.
End ScannerFacts.

(** ** The writer produces wire frames *)

Section WriterFacts.
Context `{CryptoLaws}.
(** The payload bytes that [append_padded_frame_with_limit] puts on the wire. *)
Definition wire_payload (seq : Z) (data : list Z) (ic : option InnerCipher) : list Z :=
  match ic with
  | Some c =>
      if negb (seq =? 0) && (0 <? length data)%nat then
        seal_in_place c (data ++ replicate GCM_TAG_SIZE 0) (length data) seq
          (zlen data + Z.of_nat GCM_TAG_SIZE)
      else data
  | None => data
  end.

Lemma length_wire_payload seq data ic :
  length (wire_payload seq data ic) = (length data + enc_tag_len ic seq (length data))%nat.
Proof.
  unfold wire_payload, enc_tag_len. destruct ic as [c|]; [|lia].
  destruct (negb (seq =? 0) && _); [|lia]. by rewrite seal_in_place_length.
Qed.

Lemma enc_tag_bound ic seq n : (enc_tag_len ic seq n <= 16)%nat.
Proof.
  unfold enc_tag_len. destruct ic as [c|]; [|lia].
  destruct (negb _ && _); [unfold tag_len, GCM_TAG_SIZE|]; lia.
Qed.

Lemma write_at_tail {A} (h src old : list A) :
  length src = length old -> write_at (length h) src (h ++ old) = h ++ src.
Proof.
  intros Hl. unfold write_at. rewrite take_app_length, drop_app_ge by lia.
  rewrite drop_ge by lia. by rewrite app_nil_r.
Qed.

(** The payload region after the optional in-place sealing. *)
Lemma seal_region (h buf : list Z) seq data ic :
  length h = (length buf + 10)%nat ->
  (let tag := enc_tag_len ic seq (length data) in
   let b := if (0 <? tag)%nat then resize0 (length (h ++ data) + tag) (h ++ data) else h ++ data in
   if (0 <? length data)%nat then
     let ps := (length buf + 10)%nat in
     match ic with
     | Some c =>
         if negb (seq =? 0) then
           write_at ps (seal_in_place c (slice ps (ps + length data + tag) b) (length data) seq
             (Z.of_nat (length (wire_payload seq data ic)))) b
         else b
     | None => b
     end
   else b) = h ++ wire_payload seq data ic.
Proof.
  intros Hh. cbv zeta. rewrite <-Hh. unfold enc_tag_len. destruct ic as [c|].
  2: by destruct (0 <? length data)%nat.
  destruct (Z.eqb_spec seq 0) as [->|Hs]; cbn [negb andb]; [by destruct (0 <? length data)%nat|].
  destruct (Nat.ltb_spec 0 (length data)) as [Hd|Hd].
  2: { unfold wire_payload. destruct (Nat.ltb_spec 0 (length data)); [lia|]. by rewrite andb_false_r. }
  pose proof (length_wire_payload seq data (Some c)) as Hl. unfold enc_tag_len in Hl.
  assert (Hpay : wire_payload seq data (Some c) = seal_in_place c (data ++ replicate GCM_TAG_SIZE 0) (length data) seq
    (Z.of_nat (length (wire_payload seq data (Some c))))).
  { rewrite Hl. unfold wire_payload. destruct (Z.eqb_spec seq 0); [done|].
    destruct (Nat.ltb_spec 0 (length data)); [|lia]. simpl. f_equal. unfold tag_len. lia. }
  unfold tag_len. change (0 <? GCM_TAG_SIZE)%nat with true. cbv iota.
  assert (resize0 (length (h ++ data) + GCM_TAG_SIZE) (h ++ data) = h ++ (data ++ replicate GCM_TAG_SIZE 0)) as ->.
  { unfold resize0. rewrite take_ge by lia. rewrite <-app_assoc. do 3 f_equal. lia. }
  rewrite (slice_app_r h _ _ _ (length h)) by lia.
  replace (length h - length h)%nat with 0%nat by lia.
  replace (length h + length data + GCM_TAG_SIZE - length h)%nat with (length data + GCM_TAG_SIZE)%nat by lia.
  rewrite <-(app_nil_r (data ++ replicate GCM_TAG_SIZE 0)), slice_app_l, app_nil_r
    by (rewrite length_app, length_replicate; done).
  rewrite <-Hpay. apply write_at_tail. rewrite Hl, length_app, length_replicate.
  destruct (Z.eqb_spec seq 0); [done|]. destruct (Nat.ltb_spec 0 (length data)); [done|lia].
Qed.

Context (PADDING_CACHE : list Z) (cache_big : 4096 <= zlen PADDING_CACHE).

Lemma cache_slice_ok r n :
  rand_ok r -> Z.of_nat n < zlen PADDING_CACHE ->
  rand_ok (cache_slice PADDING_CACHE r n).1 /\ length (cache_slice PADDING_CACHE r n).2 = n.
Proof using.
  intros Hr Hn. unfold cache_slice.
  destruct (gen_range_ok r 0 (zlen PADDING_CACHE - Z.of_nat n) Hr) as (Hr' & H1 & H2).
  destruct (gen_range r 0 _) as [r' off]. cbn [fst snd] in *. split; [done|].
  rewrite length_slice; lia.
Qed.

Lemma append_frame_spec mode r buf seq data ic limit :
  rand_ok r -> zlen data <= MAX_DATA_LENGTH ->
  exists r' pad,
    append_padded_frame_with_limit PADDING_CACHE mode r buf seq data ic limit
      = (r', buf ++ wire_frame seq (wire_payload seq data ic) pad) /\
    rand_ok r' /\ zlen pad <= 4086 /\
    (0 < limit -> pad <> [] ->
       Z.of_nat (length (wire_frame seq (wire_payload seq data ic) pad)) <= limit).
Proof using All.
  intros Hr Hd. unfold append_padded_frame_with_limit. pose proof (length_wire_payload seq data ic) as Hl.
  pose proof (enc_tag_bound ic seq (length data)) as Htag.
  set (tag := enc_tag_len ic seq (length data)) in *.
  destruct (pad_length_bounds mode r (Z.of_nat (length data + tag)) limit Hr) as (Hr1 & Hp & Hlim); [lia|].
  destruct (pad_length_with_limit mode r (Z.of_nat (length data + tag)) limit) as [r1 pl]. cbn [fst snd] in *.
  unfold MAX_DATA_LENGTH in Hd.
  assert (u32_wrap (Z.of_nat (length data + tag)) = Z.of_nat (length (wire_payload seq data ic))) as ->.
  { rewrite Hl. apply Z.mod_small. lia. }
  rewrite (Z.mod_small pl) by lia.
  set (h := buf ++ be_encode 4 (zlen (wire_payload seq data ic)) ++ be_encode 2 pl ++ be_encode 4 seq).
  set (h2 := if (0 <? length data)%nat then _ else _).
  assert (Hh2 : h2 = h ++ wire_payload seq data ic).
  { subst h2. rewrite <-(seal_region h buf seq data ic) by (subst h; rewrite !length_app, !length_be_encode; lia).
    fold tag. cbv zeta. subst h. by rewrite <-!app_assoc. }
  rewrite Hh2. clearbody h2. destruct (Z.ltb_spec 0 pl) as [Hpos|Hz].
  - destruct (cache_slice_ok r1 (Z.to_nat pl) Hr1) as [Hr2 Hlp]; [lia|].
    destruct (cache_slice PADDING_CACHE r1 (Z.to_nat pl)) as [r2 pad]. cbn [fst snd] in *.
    exists r2, pad. split_and!; [|done|lia|].
    + subst h. unfold wire_frame. replace (zlen pad) with pl by lia. by rewrite <-!app_assoc.
    + intros Hli Hne. rewrite length_wire_frame, Hl, Hlp. specialize (Hlim Hli ltac:(lia)). lia.
  - exists r1, []. split_and!; [|done|done|done]. subst h. unfold wire_frame. replace pl with 0 by lia.
    by rewrite app_nil_r, <-!app_assoc.
Qed.
End WriterFacts.

(** ** Cover padding of a batch *)

Lemma padding_budget_bound n : 0 <= n -> 0 <= stream_padding_budget n <= STREAM_PAD_ABSOLUTE_LIMIT /\
  10 * stream_padding_budget n <= n.
Proof.
  intros Hn. unfold stream_padding_budget, STREAM_PAD_ABSOLUTE_LIMIT, STREAM_PAD_RATIO_PERCENT.
  destruct (Z.eqb_spec n 0); [lia|]. pose proof (Z.div_pos (n * 10) 100). pose proof (Z.mul_div_le (n * 10) 100). lia.
Qed.

(** The header rewrite of a batch tail. *)
Lemma repad_frame buf0 seq p pad cover :
  zlen (pad ++ cover) <= U16_MAX ->
  write_at (length buf0 + 4) (be_encode 2 (zlen pad + zlen cover)) (buf0 ++ wire_frame seq p pad) ++ cover
  = buf0 ++ wire_frame seq p (pad ++ cover).
Proof.
  intros Hl. unfold write_at, wire_frame. rewrite length_be_encode, !length_app, Nat2Z.inj_add.
  set (n4 := be_encode 4 (zlen p)). assert (H4 : length n4 = 4%nat) by apply length_be_encode.
  set (n2 := be_encode 2 (zlen pad)). assert (H2 : length n2 = 2%nat) by apply length_be_encode.
  rewrite take_app_ge, drop_app_ge by lia.
  replace (length buf0 + 4 - length buf0)%nat with 4%nat by lia.
  replace (length buf0 + 4 + 2 - length buf0)%nat with 6%nat by lia.
  rewrite take_app_ge, drop_app_ge by lia. rewrite H4. simpl (4 - 4)%nat. simpl (6 - 4)%nat.
  rewrite take_0, drop_app_ge, H2 by lia. rewrite drop_0, app_nil_r, <-!app_assoc. done.
Qed.

Lemma stream_target_bound n limit : 0 <= n <= MAX_TLS_PLAINTEXT_RECORD ->
  n <= stream_aligned_tls_plaintext_target n limit <= MAX_TLS_PLAINTEXT_RECORD.
Proof.
  intros Hn. unfold stream_aligned_tls_plaintext_target.
  destruct (Z.eqb_spec n 0); [unfold MAX_TLS_PLAINTEXT_RECORD in *; lia|].
  set (t := sat_sub _ _). destruct (Z.ltb_spec t n); [simpl; lia|].
  destruct (Z.ltb_spec MAX_TLS_PLAINTEXT_RECORD t); simpl; lia.
Qed.

(** What the rewriting of the last header and the appended cover amount to. *)
Lemma pad_tail_spec cache mode r buf0 seq p pad limit :
  rand_ok r -> zlen pad <= U16_MAX ->
  exists r' cover,
    pad_stream_batch_tail cache mode r (buf0 ++ wire_frame seq p pad) (Some (length buf0)) limit
      = (r', buf0 ++ wire_frame seq p (pad ++ cover), zlen cover) /\ rand_ok r' /\
    zlen (pad ++ cover) <= U16_MAX /\
    10 * zlen cover <= zlen (buf0 ++ wire_frame seq p pad) /\ zlen cover <= STREAM_PAD_ABSOLUTE_LIMIT /\
    (zlen (buf0 ++ wire_frame seq p pad) <= MAX_TLS_PLAINTEXT_RECORD ->
     zlen (buf0 ++ wire_frame seq p pad) + zlen cover <= MAX_TLS_PLAINTEXT_RECORD).
Proof.
  intros Hr Hp. set (buf := buf0 ++ wire_frame seq p pad). unfold pad_stream_batch_tail.
  assert (Hid : exists r' cover, (r, buf, 0) = (r', buf0 ++ wire_frame seq p (pad ++ cover), zlen cover) /\ rand_ok r' /\
    zlen (pad ++ cover) <= U16_MAX /\ 10 * zlen cover <= zlen buf /\ zlen cover <= STREAM_PAD_ABSOLUTE_LIMIT /\
    (zlen buf <= MAX_TLS_PLAINTEXT_RECORD -> zlen buf + zlen cover <= MAX_TLS_PLAINTEXT_RECORD)).
  { exists r, []. rewrite app_nil_r. unfold STREAM_PAD_ABSOLUTE_LIMIT. split_and!; done || (simpl length; lia). }
  destruct (bool_decide _ || _); [done|].
  destruct (length buf <? length buf0 + 10)%nat; [done|]. cbv zeta.
  set (pl := sat_sub _ _). destruct ((pl =? 0) || (U16_MAX <? pl)) eqn:Epl; [done|].
  destruct (Z.ltb_spec (stream_padding_budget (zlen buf)) pl) as [|Hbud]; [done|].
  assert (be_decode (slice (length buf0 + 4) (length buf0 + 6) buf) = zlen pad) as ->.
  { subst buf. unfold wire_frame.
    rewrite (slice_app_r buf0 _ _ _ (length buf0)) by lia.
    replace (length buf0 + 4 - length buf0)%nat with 4%nat by lia. replace (length buf0 + 6 - length buf0)%nat with 6%nat by lia.
    rewrite (slice_app_r _ _ _ _ 4) by (rewrite ?length_be_encode; lia). rewrite slice_app_l by apply length_be_encode.
    apply be_decode_encode. change (256 ^ Z.of_nat 2) with 65536. unfold_ints. lia. }
  destruct ((U16_MAX <? zlen pad + pl) || (zlen cache <=? pl)) eqn:Ec; [done|].
  apply orb_false_iff in Epl as [Epl%Z.eqb_neq _], Ec as [Ec%Z.ltb_ge Ec2%Z.leb_gt].
  assert (0 <= pl) by (subst pl; unfold sat_sub; lia).
  destruct (cache_slice_ok cache r (Z.to_nat pl) Hr) as [Hr' Hlc]; [lia|].
  destruct (cache_slice cache r (Z.to_nat pl)) as [r' cover]. cbn [fst snd] in *.
  pose proof (padding_budget_bound (zlen buf) ltac:(lia)) as Hpb.
  assert (Hpl : pl = zlen cover) by lia. exists r', cover. split_and!; [|done| |lia|lia|].
  - rewrite Hpl. subst buf. by rewrite repad_frame by (rewrite length_app; lia).
  - rewrite length_app. lia.
  - intros Hm. pose proof (stream_target_bound (zlen buf) limit ltac:(lia)).
    rewrite <-Hpl. subst pl. unfold sat_sub. lia.
Qed.

(** ** Correctness *)

(** Whatever way the transport cuts the byte stream into reads (with pauses,
    one byte at a time, or many frames at once) and whichever compaction mode is
    configured, repeated [read_frame] calls return exactly the frames that were
    written, in order, with padding stripped; an incomplete last frame stays
    buffered and is neither returned nor lost. *)
Theorem scanner_reassembles_stream vec_grow lazy limit rd frames tail fuel :
  (forall c, c < vec_grow c) -> Forall event_live rd ->
  Forall (fun f : Z * list Z * list Z => frame_ok limit f.1.1 f.1.2 f.2) frames ->
  partial_frame limit tail ->
  reader_bytes rd = concat ((fun f : Z * list Z * list Z => wire_frame f.1.1 f.1.2 f.2) <$> frames) ++ tail ->
  (weight rd + length frames < fuel)%nat ->
  exists st', scan_all vec_grow fuel (set_max_data_len (FrameScanner_new lazy) limit) rd
    = (st', Ok ((fun f : Z * list Z * list Z => (f.1.2, f.1.1)) <$> frames)) /\ avail st' = tail.
Proof. intros. eapply scan_all_spec; try done. Qed.

Lemma scanner_reassembles_stream_witness :
  let rd := (fun b => RData [b]) <$> (wire_frame 7 [1; 2] [9] ++ [0; 0; 0]) in
  exists st', scan_all (fun c => c + 16384) 40 (set_max_data_len (FrameScanner_new true) 16384) rd
    = (st', Ok [([1; 2], 7)]) /\ avail st' = [0; 0; 0].
Proof.
  intros rd. apply (scanner_reassembles_stream (fun c => c + 16384) true 16384 rd [(7, [1; 2], [9])] [0; 0; 0] 40).
  - lia.
  - apply Forall_fmap, Forall_true. done.
  - repeat constructor; vm_compute; done.
  - exists 0, [], [], [0; 0; 0; 0; 0; 0; 0]. split; [|done]. split; vm_compute; done.
  - reflexivity.
  - vm_compute. lia.
Defined.

(** A header that announces more payload than the current limit (16 KiB
    before authentication) is an error that clears the buffer, and it is
    reported as soon as the ten header bytes are there, before any of the
    announced payload is buffered. *)
Theorem oversized_frame_rejected st seq n pad_len rest :
  fs_ok st -> is_u32 n -> fs_max_data_len st < n ->
  avail st = be_encode 4 n ++ be_encode 2 pad_len ++ be_encode 4 seq ++ rest ->
  take_buffered_frame st = (fs_set st [] 0, Err InvalidData).
Proof.
  intros [Ho Hc] Hn Hlim E. unfold take_buffered_frame. rewrite <-length_avail.
  destruct (Nat.ltb_spec (length (avail st)) HEADER_SIZE) as [Hs|_].
  { rewrite E, !length_app, !length_be_encode in Hs. unfold HEADER_SIZE in Hs. lia. }
  rewrite <-(Nat.add_0_r (fs_offset st)) at 1. rewrite slice_shift. fold (avail st).
  rewrite E, slice_app_l, be_decode_encode_4 by (done || apply length_be_encode).
  by destruct (Z.ltb_spec (fs_max_data_len st) n); [|lia].
Qed.

Lemma oversized_frame_rejected_witness :
  let st := fs_set (set_max_data_len (FrameScanner_new false) HANDSHAKE_DATA_LENGTH)
              (be_encode 4 131070 ++ be_encode 2 0 ++ be_encode 4 0) 0 in
  take_buffered_frame st = (fs_set st [] 0, Err InvalidData).
Proof.
  intros st. apply (oversized_frame_rejected st 0 131070 0 []); [split; vm_compute; try done; lia|done|done|reflexivity].
Defined.

(** Cover padding of a batch only extends the padding of its last frame: the
    frames of the batch are unchanged for the receiver, the cover costs at most
    ten percent of the batch and at most 512 bytes, and a batch that fits one
    TLS record still does. *)
Theorem batch_padding_bounded cache mode r buf0 seq p pad limit :
  rand_ok r -> zlen pad <= U16_MAX ->
  exists r' cover,
    pad_stream_batch_tail cache mode r (buf0 ++ wire_frame seq p pad) (Some (length buf0)) limit
      = (r', buf0 ++ wire_frame seq p (pad ++ cover), zlen cover) /\ rand_ok r' /\
    zlen (pad ++ cover) <= U16_MAX /\
    10 * zlen cover <= zlen (buf0 ++ wire_frame seq p pad) /\ zlen cover <= STREAM_PAD_ABSOLUTE_LIMIT /\
    (zlen (buf0 ++ wire_frame seq p pad) <= MAX_TLS_PLAINTEXT_RECORD ->
     zlen (buf0 ++ wire_frame seq p pad) + zlen cover <= MAX_TLS_PLAINTEXT_RECORD).
Proof. exact (pad_tail_spec cache mode r buf0 seq p pad limit). Qed.

Lemma batch_padding_bounded_witness :
  exists r' cover,
    pad_stream_batch_tail (replicate 600 0) PAD_BUCKET {| fr_state := 1 |}
      ([] ++ wire_frame 3 (replicate 1350 5) []) (Some 0%nat) 1408
      = (r', [] ++ wire_frame 3 (replicate 1350 5) ([] ++ cover), zlen cover) /\ zlen cover = 48.
Proof.
  destruct (batch_padding_bounded (replicate 600 0) PAD_BUCKET {| fr_state := 1 |} [] 3 (replicate 1350 5) [] 1408)
    as (r' & cover & H & _); [split; done|done|].
  exists r', cover. split; [exact H|]. apply (f_equal snd) in H. cbn [snd] in H. rewrite <-H. vm_compute. reflexivity.
Defined.

(** ** Writer and scanner together *)

Section EndToEnd.
Context `{CryptoLaws}.
Context (PADDING_CACHE : list Z).

(** A batch of data frames: sequence number, payload and record limit. *)
Fixpoint write_all (mode : pad_mode) (r : FastRand) (buf : list Z) (ic : option InnerCipher)
    (items : list (Z * list Z * Z)) : FastRand * list Z :=
  match items with
  | [] => (r, buf)
  | (seq, data, limit) :: items' =>
      let '(r, buf) := append_padded_frame_with_limit PADDING_CACHE mode r buf seq data ic limit in
      write_all mode r buf ic items'
  end.

(** The receive side: a numbered non-empty payload is opened with its own
    sequence number and wire length. *)
Definition open_payload (ic : option InnerCipher) (f : list Z * Z) : option (list Z * Z) :=
  match ic with
  | Some c => if negb (f.2 =? 0) && (0 <? length f.1)%nat
              then (fun pt => (pt, f.2)) <$> open_in_place c f.1 f.2 (zlen f.1) else Some f
  | None => Some f
  end.

Lemma open_wire_payload seq data ic :
  open_payload ic (wire_payload seq data ic, seq) = Some (data, seq).
Proof.
  unfold open_payload, wire_payload. destruct ic as [c|]; [|done]. cbn [fst snd].
  destruct (negb (seq =? 0) && (0 <? length data)%nat) eqn:E; [|by rewrite E].
  apply andb_true_iff in E as [-> E%Nat.ltb_lt]. cbn [andb].
  rewrite seal_in_place_length. destruct (Nat.ltb_spec 0 (length data + GCM_TAG_SIZE)); [|lia].
  replace (Z.of_nat (length data + GCM_TAG_SIZE)) with (zlen data + Z.of_nat GCM_TAG_SIZE) by lia.
  rewrite open_in_place_seal; [done|]. by destruct data; simpl in E; [lia|].
Qed.

(** The wire frame written for an item. *)
Definition frame_of (ic : option InnerCipher) (i : Z * list Z * Z) (f : Z * list Z * list Z) : Prop :=
  frame_ok MAX_DATA_LENGTH f.1.1 f.1.2 f.2 /\ f.1.1 = i.1.1 /\ f.1.2 = wire_payload i.1.1 i.1.2 ic.

Lemma write_all_spec mode r buf ic items :
  4096 <= zlen PADDING_CACHE -> rand_ok r ->
  Forall (fun i : Z * list Z * Z => is_u32 i.1.1 /\ zlen i.1.2 + 16 <= MAX_DATA_LENGTH) items ->
  exists r' fs, Forall2 (frame_of ic) items fs /\
    write_all mode r buf ic items
    = (r', buf ++ concat ((fun f : Z * list Z * list Z => wire_frame f.1.1 f.1.2 f.2) <$> fs)).
Proof.
  intros Hc. revert r buf. induction items as [|[[seq data] limit] items IH]; intros r buf Hr Hit.
  { exists r, []. rewrite app_nil_r. split; [constructor|done]. }
  apply Forall_cons in Hit as [[Hs Hd] Hit]. cbn [fst snd] in *. cbn [write_all].
  destruct (append_frame_spec PADDING_CACHE Hc mode r buf seq data ic limit Hr) as (r1 & pad & -> & Hr1 & Hp & _);
    [lia|].
  destruct (IH r1 (buf ++ wire_frame seq (wire_payload seq data ic) pad) Hr1 Hit) as (r2 & fs & Hfs & ->).
  exists r2, ((seq, wire_payload seq data ic, pad) :: fs). split; [|by rewrite fmap_cons; cbn [concat fst snd]; rewrite <-app_assoc].
  constructor; [|done]. split; [|done]. cbn [fst snd]. pose proof (length_wire_payload seq data ic).
  pose proof (enc_tag_bound ic seq (length data)). unfold MAX_DATA_LENGTH in *.
  split; unfold_ints; done || lia.
Qed.

Lemma open_frames ic items fs :
  Forall2 (frame_of ic) items fs ->
  mapM (open_payload ic) ((fun f : Z * list Z * list Z => (f.1.2, f.1.1)) <$> fs)
  = Some ((fun i : Z * list Z * Z => (i.1.2, i.1.1)) <$> items).
Proof.
  induction 1 as [|[[seq data] limit] [[s p] pad] items fs (_ & Hs & Hp) _ IH]; [done|].
  cbn [fst snd] in *. subst. rewrite !fmap_cons. cbn [mapM fst snd]. rewrite open_wire_payload. cbn. by rewrite IH.
Qed.

(** C13: the data plane delivers end to end: any sequence of payloads, framed
    with any padding policy and record limits, sealed or in clear, and read
    back through a transport that fragments the stream arbitrarily, comes out
    of the scanner and the cipher as the same payloads with the same sequence
    numbers. *)
Theorem framed_stream_roundtrip vec_grow lazy mode r ic items rd fuel :
  4096 <= zlen PADDING_CACHE -> rand_ok r -> (forall c, c < vec_grow c) ->
  Forall (fun i : Z * list Z * Z => is_u32 i.1.1 /\ zlen i.1.2 + 16 <= MAX_DATA_LENGTH) items ->
  Forall event_live rd -> reader_bytes rd = (write_all mode r [] ic items).2 ->
  (weight rd + length items < fuel)%nat ->
  exists st' got, scan_all vec_grow fuel (FrameScanner_new lazy) rd = (st', Ok got) /\
    mapM (open_payload ic) got = Some ((fun i : Z * list Z * Z => (i.1.2, i.1.1)) <$> items).
Proof.
  intros Hc Hr Hg Hit Hl Hrd Hf.
  destruct (write_all_spec mode r [] ic items Hc Hr Hit) as (r' & fs & Hfs & Hw).
  rewrite Hw in Hrd. cbn [snd app] in Hrd. pose proof (Forall2_length _ _ _ Hfs).
  destruct (scan_all_spec vec_grow Hg fuel (FrameScanner_new lazy) rd fs []) as (st' & Hscan & _);
    [lia|split; done|done| | | |].
  - apply Forall_lookup. intros i f Hi. destruct (Forall2_lookup_r _ _ _ _ _ Hfs Hi) as (x & _ & Hx & _). exact Hx.
  - exists 0, [], [], (wire_frame 0 [] []). split; [by split|done].
  - by rewrite app_nil_r, Hrd.
  - eexists st', _. split; [exact Hscan|by apply open_frames].
Qed.
End EndToEnd.

Lemma framed_stream_roundtrip_witness :
  let cache := replicate 5000 0 in
  let ic := Some (ChaCha20 (replicate 32 3) (replicate 8 4)) in
  let items := [(1, [10; 11], 0); (0, [2; 2], 200); (2, [], 1); (3, [7], 1408)] in
  let bytes := (write_all cache PAD_BUCKET {| fr_state := 9 |} [] ic items).2 in
  let rd := [RData (take 33 bytes); RBlock; RData (drop 33 bytes)] in
  exists st' got, scan_all (fun c => c + 1) 2000 (FrameScanner_new false) rd = (st', Ok got) /\
    mapM (open_payload ic) got = Some [([10; 11], 1); ([2; 2], 0); ([], 2); ([7], 3)].
Proof.
  intros cache ic items bytes rd.
  apply (framed_stream_roundtrip cache (fun c => c + 1) false PAD_BUCKET {| fr_state := 9 |} ic items rd 2000).
  - subst cache. rewrite length_replicate. lia.
  - split; done.
  - lia.
  - repeat constructor; vm_compute; done.
  - repeat constructor; vm_compute; done.
  - vm_compute. reflexivity.
  - vm_compute. lia.
Defined.
