(* ===== verification/Xor.v ===== *)
(** * The XOR kernels of [src/src/fec.rs]

    [xor_into] and [xor_combine] have a portable 64-bit version, an AVX2 version
    and a NEON version.  A machine word or a vector register loaded from memory
    is the little-endian integer of its bytes, and the vector XOR is the XOR of
    these integers; the bytewise definitions [xor_bytes] and [xor_onto] are the
    reference all of them are proved equal to. *)
From S2P Require Import Prelude Utils.

(** ** The bytewise reference *)

(** [acc[i] ^= data[i]] for the bytes of [data]; the rest of [acc] is kept. *)
Fixpoint xor_bytes (acc data : list Z) : list Z :=
  match acc, data with
  | a :: acc', d :: data' => Z.lxor a d :: xor_bytes acc' data'
  | _, _ => acc
  end.

(** [out[i] = parity[i] ^ acc[i]] for the common length; the rest of [out] is kept. *)
Fixpoint xor_onto (out parity acc : list Z) : list Z :=
  match out, parity, acc with
  | _ :: out', p :: parity', a :: acc' => Z.lxor p a :: xor_onto out' parity' acc'
  | _, _, _ => out
  end.

(** ** Words *)

Definition le_decode (l : list Z) : Z := be_decode (rev l).

(** Load two words of [w] bytes, XOR them, store the result. *)
Definition xor_word (w : nat) (a d : list Z) : list Z :=
  le_encode w (Z.lxor (le_decode (take w a)) (le_decode (take w d))).

(** A loop over [n] words of [w] bytes that updates [acc] in place. *)
Fixpoint xor_words (w n : nat) (acc data : list Z) : list Z :=
  match n with
  | O => acc
  | S n' => xor_word w acc data ++ xor_words w n' (drop w acc) (drop w data)
  end.

(** The loop of the combining kernels: [out] receives the words. *)
Fixpoint combine_words (w n : nat) (out parity acc : list Z) : list Z :=
  match n with
  | O => out
  | S n' => xor_word w parity acc ++ combine_words w n' (drop w out) (drop w parity) (drop w acc)
  end.

(** ** The kernels *)

Definition xor_into_u64 (acc data : list Z) : list Z :=
  let n8 := (length data / 8)%nat in
  let a8 := take (n8 * 8) acc in let a1 := drop (n8 * 8) acc in
  let d8 := take (n8 * 8) data in let d1 := drop (n8 * 8) data in
  xor_words 8 n8 a8 d8 ++ xor_bytes a1 d1.

Definition xor_combine_u64 (out parity acc : list Z) : list Z :=
  let n := Nat.min (Nat.min (length out) (length parity)) (length acc) in
  let n8 := (n / 8)%nat in
  combine_words 8 n8 (take (n8 * 8) out) parity acc
    ++ xor_onto (slice (n8 * 8) n out) (slice (n8 * 8) n parity) (slice (n8 * 8) n acc) ++ drop n out.

Definition xor_into_avx2 (acc data : list Z) : list Z :=
  let n32 := (length data / 32)%nat in
  let tail_start := (n32 * 32)%nat in
  let rest := drop tail_start acc in
  let dtail := drop tail_start data in
  let n8 := (length dtail / 8)%nat in
  xor_words 32 n32 (take tail_start acc) data
    ++ xor_words 8 n8 (take (n8 * 8) rest) dtail
    ++ xor_bytes (drop (n8 * 8) rest) (drop (n8 * 8) dtail).

Definition xor_combine_avx2 (out parity acc : list Z) : list Z :=
  let n := Nat.min (Nat.min (length out) (length parity)) (length acc) in
  let n32 := (n / 32)%nat in
  let tail_start := (n32 * 32)%nat in
  combine_words 32 n32 (take tail_start out) parity acc
    ++ xor_onto (slice tail_start n out) (slice tail_start n parity) (slice tail_start n acc) ++ drop n out.

Definition xor_into_neon (acc data : list Z) : list Z :=
  let n := Nat.min (length acc) (length data) in
  let n16 := (n / 16)%nat in
  let i := (n16 * 16)%nat in
  xor_words 16 n16 (take i acc) data ++ xor_bytes (slice i n acc) (slice i n data) ++ drop n acc.

Definition xor_combine_neon (out parity acc : list Z) : list Z :=
  let n := Nat.min (Nat.min (length out) (length parity)) (length acc) in
  let n16 := (n / 16)%nat in
  let i := (n16 * 16)%nat in
  combine_words 16 n16 (take i out) parity acc
    ++ xor_onto (slice i n out) (slice i n parity) (slice i n acc) ++ drop n out.

(** The processor the dispatchers run on. *)
Inductive cpu := X86Avx2 | X86Plain | Aarch64 | OtherCpu.

Definition xor_into (p : cpu) (acc data : list Z) : list Z :=
  match p with
  | X86Avx2 => xor_into_avx2 acc data
  | Aarch64 => xor_into_neon acc data
  | X86Plain | OtherCpu => xor_into_u64 acc data
  end.

Definition xor_combine (p : cpu) (out parity acc : list Z) : list Z :=
  match p with
  | X86Avx2 => xor_combine_avx2 out parity acc
  | Aarch64 => xor_combine_neon out parity acc
  | X86Plain | OtherCpu => xor_combine_u64 out parity acc
  end.

(** ** Words are bytewise *)

Lemma testbit_small v n i : 0 <= v < 2 ^ n -> 0 <= n <= i -> Z.testbit v i = false.
Proof. intros Hv Hi. rewrite <-(Z.mod_small v (2 ^ n)) by done. apply Z.mod_pow2_bits_high. lia. Qed.

Lemma lxor_bound x y n : 0 <= n -> 0 <= x < 2 ^ n -> 0 <= y < 2 ^ n -> 0 <= Z.lxor x y < 2 ^ n.
Proof.
  intros Hn Hx Hy. assert (Z.lxor x y = Z.lxor x y mod 2 ^ n) as ->; [|apply Z.mod_pos_bound; lia].
  apply Z.bits_inj'. intros i Hi. destruct (Z_lt_le_dec i n); [by rewrite Z.mod_pow2_bits_low|].
  rewrite Z.mod_pow2_bits_high, Z.lxor_spec, (testbit_small x n), (testbit_small y n) by lia. done.
Qed.

Lemma lxor_byte x y : is_byte x -> is_byte y -> is_byte (Z.lxor x y).
Proof. intros Hx Hy. apply (lxor_bound x y 8); done. Qed.

Lemma lxor_shift a b x y n :
  0 <= n -> 0 <= x < 2 ^ n -> 0 <= y < 2 ^ n ->
  Z.lxor (a * 2 ^ n + x) (b * 2 ^ n + y) = Z.lxor a b * 2 ^ n + Z.lxor x y.
Proof.
  intros Hn Hx Hy.
  assert (Hadd : forall u v, 0 <= v < 2 ^ n -> u * 2 ^ n + v = Z.lxor (Z.shiftl u n) v).
  { intros u v Hv. rewrite <-Z.shiftl_mul_pow2 by done. apply Z.add_nocarry_lxor.
    apply Z.bits_inj'. intros i Hi. rewrite Z.land_spec, Z.bits_0.
    destruct (Z_lt_le_dec i n); [by rewrite Z.shiftl_spec_low by done|].
    rewrite (testbit_small v n) by lia. apply andb_false_r. }
  rewrite !Hadd, Z.shiftl_lxor by (done || by apply lxor_bound).
  rewrite !Z.lxor_assoc. f_equal. rewrite <-!Z.lxor_assoc. f_equal. apply Z.lxor_comm.
Qed.

(** The bytewise XOR of two strings of the same length. *)
Abbreviation xor_zip := (zip_with Z.lxor).

Lemma be_decode_xor a d :
  length a = length d -> bytes_ok a -> bytes_ok d ->
  Z.lxor (be_decode a) (be_decode d) = be_decode (xor_zip a d).
Proof.
  revert d. induction a as [|x a IH]; intros [|y d] Hl Ha Hd; simplify_eq/=; [done|].
  apply Forall_cons in Ha as [Hx Ha], Hd as [Hy Hd].
  rewrite !be_decode_cons, length_zip_with, <-IH by done.
  pose proof (be_decode_bound a Ha). pose proof (be_decode_bound d Hd).
  rewrite Hl, Nat.min_id in *. assert (H256 : 256 ^ zlen d = 2 ^ (8 * zlen d)) by (rewrite Z.pow_mul_r by lia; done).
  rewrite H256 in *. apply lxor_shift; lia.
Qed.

Lemma xor_zip_bytes a d : bytes_ok a -> bytes_ok d -> bytes_ok (xor_zip a d).
Proof.
  intros Ha. revert d. induction Ha as [|x a Hx Ha IH]; intros [|y d] Hd; simpl; constructor.
  - apply Forall_cons in Hd as [Hy _]. by apply lxor_byte.
  - apply IH. by apply Forall_cons in Hd as [_ ?].
Qed.

Lemma zip_with_app_eq {A} (f : A -> A -> A) a1 a2 d1 d2 :
  length a1 = length d1 -> zip_with f (a1 ++ a2) (d1 ++ d2) = zip_with f a1 d1 ++ zip_with f a2 d2.
Proof.
  revert d1. induction a1 as [|x a1 IH]; intros [|y d1] Hl; simplify_eq/=; [done|]. by rewrite IH.
Qed.

Lemma rev_zip a d : length a = length d -> rev (xor_zip a d) = xor_zip (rev a) (rev d).
Proof.
  revert d. induction a as [|x a IH]; intros [|y d] Hl; simplify_eq/=; [done|].
  rewrite IH by done. rewrite zip_with_app_eq; [done|by rewrite !length_rev].
Qed.

Lemma xor_word_eq w a d :
  bytes_ok a -> bytes_ok d -> (w <= length a)%nat -> (w <= length d)%nat ->
  xor_word w a d = xor_zip (take w a) (take w d).
Proof.
  intros Ha Hd Hla Hld. unfold xor_word, le_encode, le_decode.
  assert (Ha' : bytes_ok (rev (take w a))) by (apply Forall_rev, Forall_take; done).
  assert (Hd' : bytes_ok (rev (take w d))) by (apply Forall_rev, Forall_take; done).
  assert (length (take w a) = length (take w d)) by (rewrite !length_take; lia).
  rewrite be_decode_xor by (rewrite ?length_rev; done).
  rewrite <-rev_zip by done. set (z := xor_zip _ _).
  assert (Hz : length (rev z) = w) by (subst z; rewrite length_rev, length_zip_with, !length_take; lia).
  rewrite <-Hz at 1. rewrite be_encode_decode; [apply rev_involutive|].
  apply Forall_rev. subst z. apply xor_zip_bytes; by apply Forall_take.
Qed.

Lemma xor_words_eq w n acc data :
  bytes_ok acc -> bytes_ok data -> length acc = (n * w)%nat -> (n * w <= length data)%nat ->
  xor_words w n acc data = xor_zip acc (take (n * w) data).
Proof.
  revert acc data. induction n as [|n IH]; intros acc data Ha Hd Hl Hld; simpl.
  - by destruct acc.
  - rewrite xor_word_eq by (done || lia).
    rewrite IH; [|by apply Forall_drop|by apply Forall_drop|rewrite length_drop; lia|rewrite length_drop; lia].
    rewrite <-(take_drop w acc) at 3. rewrite <-zip_with_app_eq by (rewrite !length_take; lia).
    f_equal. rewrite <-(take_drop w (take (w + n * w) data)).
    rewrite take_take, Nat.min_l by lia. f_equal. by rewrite skipn_firstn_comm, Nat.add_comm, Nat.add_sub.
Qed.

Lemma combine_words_eq w n out parity acc :
  bytes_ok parity -> bytes_ok acc -> length out = (n * w)%nat ->
  (n * w <= length parity)%nat -> (n * w <= length acc)%nat ->
  combine_words w n out parity acc = xor_zip (take (n * w) parity) (take (n * w) acc).
Proof.
  intros Hp Ha Ho Hlp Hla.
  assert (Hstep : combine_words w n out parity acc = xor_words w n (take (n * w) parity) acc).
  { revert out parity acc Hp Ha Ho Hlp Hla. induction n as [|n IH]; intros out parity acc Hp Ha Ho Hlp Hla; simpl.
    - by destruct out.
    - rewrite IH; try (by apply Forall_drop) || (rewrite length_drop; lia).
      rewrite !xor_word_eq by first [done | by apply Forall_take | rewrite ?length_take; lia].
      f_equal; [by rewrite take_take, Nat.min_l by lia|].
      f_equal. by rewrite skipn_firstn_comm, Nat.add_comm, Nat.add_sub. }
  rewrite Hstep. apply xor_words_eq; [by apply Forall_take|done|rewrite length_take; lia|done].
Qed.

Lemma xor_bytes_zip acc data : xor_bytes acc data = xor_zip acc data ++ drop (length data) acc.
Proof.
  revert data. induction acc as [|a acc IH]; intros [|d data]; simpl; [done|done|done|]. by rewrite IH.
Qed.

Lemma xor_onto_zip out parity acc :
  let n := Nat.min (Nat.min (length out) (length parity)) (length acc) in
  xor_onto out parity acc = xor_zip (take n parity) (take n acc) ++ drop n out.
Proof.
  revert parity acc. induction out as [|o out IH]; intros [|p parity] [|a acc]; simpl; try done. by rewrite IH.
Qed.

(** Splitting the common prefix at a word boundary. *)
Lemma zip_split i (a d : list Z) :
  (i <= length a)%nat -> (i <= length d)%nat ->
  xor_zip a d = xor_zip (take i a) (take i d) ++ xor_zip (drop i a) (drop i d).
Proof.
  intros Ha Hd. rewrite <-zip_with_app_eq by (rewrite !length_take; lia). by rewrite !take_drop.
Qed.

Lemma words_le w n : (0 < w)%nat -> (n / w * w <= n)%nat.
Proof. intros. rewrite Nat.mul_comm. apply Nat.Div0.mul_div_le. Qed.

Lemma xor_into_eq p acc data :
  bytes_ok acc -> bytes_ok data -> (length data <= length acc)%nat ->
  xor_into p acc data = xor_bytes acc data.
Proof.
  intros Ha Hd Hl. rewrite xor_bytes_zip.
  assert (Hu : xor_into_u64 acc data = xor_zip acc data ++ drop (length data) acc).
  { unfold xor_into_u64. pose proof (words_le 8 (length data) ltac:(lia)).
    rewrite xor_words_eq, xor_bytes_zip; [|by apply Forall_take|by apply Forall_take|rewrite length_take; lia|rewrite length_take; lia].
    rewrite (zip_split (length data / 8 * 8) acc data), <-app_assoc by lia.
    rewrite take_take, Nat.min_id, length_drop, drop_drop. do 3 f_equal. lia. }
  destruct p; [|exact Hu| |exact Hu]; simpl.
  - unfold xor_into_avx2. pose proof (words_le 32 (length data) ltac:(lia)).
    set (t := (length data / 32 * 32)%nat) in *.
    pose proof (words_le 8 (length (drop t data)) ltac:(lia)) as H8. rewrite length_drop in *.
    set (u := ((length data - t) / 8 * 8)%nat) in *.
    rewrite !xor_words_eq; [|by apply Forall_take, Forall_drop|by apply Forall_drop|rewrite length_take, length_drop; lia
      |rewrite length_drop; lia|by apply Forall_take|done|rewrite length_take; lia|done].
    rewrite xor_bytes_zip, (zip_split t acc data), (zip_split u (drop t acc) (drop t data)), <-!app_assoc
      by (rewrite ?length_drop; lia).
    rewrite !length_drop, !drop_drop. do 4 f_equal. lia.
  - unfold xor_into_neon. rewrite Nat.min_r by done. pose proof (words_le 16 (length data) ltac:(lia)).
    set (i := (length data / 16 * 16)%nat) in *.
    rewrite xor_words_eq by first [done | by apply Forall_take | rewrite ?length_take; lia].
    rewrite xor_bytes_zip, (zip_split i acc data), <-!app_assoc by lia. f_equal.
    unfold slice. rewrite (take_ge (drop i data)) by (rewrite length_drop; lia).
    rewrite length_drop, (drop_ge (take _ _)) by (rewrite length_take, length_drop; lia). cbn [app].
    f_equal. rewrite <-(take_drop (length data - i) (drop i acc)) at 2.
    rewrite <-(app_nil_r (drop i data)), zip_with_app_eq, !app_nil_r; [|rewrite length_take, !length_drop; lia].
    by rewrite zip_with_nil_r, app_nil_r.
Qed.

Lemma combine_tail i n out parity acc :
  (i <= n)%nat -> (n <= length out)%nat -> (n <= length parity)%nat -> (n <= length acc)%nat ->
  xor_zip (take i parity) (take i acc)
    ++ xor_onto (slice i n out) (slice i n parity) (slice i n acc) ++ drop n out
  = xor_zip (take n parity) (take n acc) ++ drop n out.
Proof.
  intros Hi Ho Hp Ha. rewrite xor_onto_zip, !length_slice by lia. rewrite !Nat.min_id.
  rewrite (drop_ge (slice i n out)), app_nil_r by (rewrite length_slice; lia).
  rewrite !(take_ge (slice _ _ _)) by (rewrite length_slice; lia).
  rewrite app_assoc. f_equal. rewrite (zip_split i (take n parity) (take n acc)) by (rewrite length_take; lia).
  unfold slice. rewrite !take_take, !Nat.min_l by lia. by rewrite !skipn_firstn_comm.
Qed.

Lemma xor_combine_eq p out parity acc :
  bytes_ok parity -> bytes_ok acc ->
  xor_combine p out parity acc = xor_onto out parity acc.
Proof.
  intros Hp Ha. rewrite xor_onto_zip.
  set (n := Nat.min (Nat.min (length out) (length parity)) (length acc)).
  assert (Hk : forall w, (0 < w)%nat ->
    combine_words w (n / w) (take (n / w * w) out) parity acc
      ++ xor_onto (slice (n / w * w) n out) (slice (n / w * w) n parity) (slice (n / w * w) n acc) ++ drop n out
    = xor_zip (take n parity) (take n acc) ++ drop n out).
  { intros w Hw. pose proof (words_le w n Hw).
    rewrite combine_words_eq by first [done | rewrite ?length_take; subst n; lia].
    apply combine_tail; subst n; lia. }
  destruct p; simpl; apply Hk; lia.
Qed.

(** The portable, AVX2 and NEON kernels compute the same bytes: on every
    processor [xor_into] is the bytewise XOR of the data into the prefix of the
    accumulator and [xor_combine] the bytewise XOR of its two inputs, whatever
    the lengths and the word-size remainders. *)
Theorem xor_kernels_bytewise p acc data out parity :
  bytes_ok acc -> bytes_ok data -> bytes_ok parity -> (length data <= length acc)%nat ->
  xor_into p acc data = xor_bytes acc data /\
  xor_combine p out parity acc = xor_onto out parity acc.
Proof. intros. split; [by apply xor_into_eq|by apply xor_combine_eq]. Qed.

Lemma xor_kernels_bytewise_witness :
  xor_into X86Avx2 (replicate 45 255) (replicate 43 15) = xor_bytes (replicate 45 255) (replicate 43 15) /\
  xor_combine X86Avx2 [0; 0] [7; 8; 9] (replicate 45 255) = [248; 247].
Proof.
  apply (xor_kernels_bytewise X86Avx2 (replicate 45 255) (replicate 43 15) [0; 0] [7; 8; 9]);
    try (apply Forall_replicate; done); [repeat constructor; done|rewrite !length_replicate; lia].
Defined.
