(* ===== verification/Fec.v ===== *)
(** * XOR parity FEC: [src/src/fec.rs]

    The encoder of a port and the decoder of a session.  The decoder exists
    twice in the source: the shared version, whose methods hold a mutex and read
    the reorder progress through a callback, and the actor version owned by one
    receive worker; both are modelled, the callback's answer being the argument
    [progress] ([None]: no callback installed).  The [HashMap] of groups is a
    finite map, and frame buffers returned to the pool are dropped. *)
From S2P Require Import Prelude Utils Crypto Protocol Xor.

Definition FEC_MIN_GROUP : Z := 2.
Definition FEC_MAX_GROUP : Z := 64.
Definition FEC_MAX_PENDING_GROUPS : nat := 512.
Definition FEC_DONE_CACHE : nat := 256.
Definition FEC_DONE_MASK : Z := 255.

Definition clamp_fec_group (k : Z) : Z := Z.max FEC_MIN_GROUP (Z.min FEC_MAX_GROUP k).
Definition normalize_fec_group_bounds (min max : Z) : Z * Z :=
  (if min =? 0 then FEC_MIN_GROUP else min, if max =? 0 then FEC_MAX_GROUP else max).
Definition is_parity_frame (frame : list Z) : bool :=
  (7 <=? length frame)%nat && (nth_byte frame 0 =? CONTROL_KIND_FEC_PARITY).

(** ** Encoder *)

Record FecEncoder := {
  fe_k : Z;
  fe_seqs : list Z;
  fe_lens : list nat;
  fe_acc : list Z;
  fe_active_len : nat;
  fe_ic : option InnerCipher;
  fe_parity_sent : Z;
  fe_multipath : bool;
  fe_armed : bool }.

Definition FecEncoder_new (k : Z) (ic : option InnerCipher) : FecEncoder :=
  {| fe_k := clamp_fec_group k; fe_seqs := []; fe_lens := []; fe_acc := []; fe_active_len := 0;
     fe_ic := ic; fe_parity_sent := 0; fe_multipath := true; fe_armed := true |}.

Definition FecEncoder_armed (e : FecEncoder) : bool := fe_multipath e && fe_armed e.

Definition FecEncoder_reset (e : FecEncoder) : FecEncoder :=
  {| fe_k := fe_k e; fe_seqs := []; fe_lens := [];
     fe_acc := replicate (Nat.min (fe_active_len e) (length (fe_acc e))) 0 ++ drop (fe_active_len e) (fe_acc e);
     fe_active_len := 0;
     fe_ic := fe_ic e; fe_parity_sent := fe_parity_sent e;
     fe_multipath := fe_multipath e; fe_armed := fe_armed e |}.

Definition fe_topology (e : FecEncoder) (multipath armed : bool) : FecEncoder :=
  {| fe_k := fe_k e; fe_seqs := fe_seqs e; fe_lens := fe_lens e; fe_acc := fe_acc e;
     fe_active_len := fe_active_len e; fe_ic := fe_ic e; fe_parity_sent := fe_parity_sent e;
     fe_multipath := multipath; fe_armed := armed |}.

Definition set_physical_path_count (e : FecEncoder) (paths : Z) : FecEncoder :=
  let multipath := 2 <=? paths in
  if Bool.eqb multipath (fe_multipath e) then e
  else
    let e := fe_topology e multipath (fe_armed e) in
    if negb multipath then
      let e :=
        match fe_seqs e with
        | [] => if (fe_active_len e =? 0)%nat then e else FecEncoder_reset e
        | _ => FecEncoder_reset e
        end in
      fe_topology e (fe_multipath e) false
    else fe_topology e (fe_multipath e) false.

Section Encoder.
Context `{CryptoPrims}.
Context (p : cpu).

Definition build_parity (e : FecEncoder) : list Z :=
  let max_len := fe_active_len e in
  let first := default 0 (head (fe_seqs e)) in
  let desc := [CONTROL_KIND_FEC_PARITY] ++ be_encode 4 first ++ [Z.of_nat (length (fe_lens e)) mod 256]
                ++ concat ((fun l => be_encode 4 (u32_wrap (Z.of_nat l))) <$> fe_lens e) in
  let body := take max_len (fe_acc e) in
  match fe_ic e with
  | Some c =>
      desc ++ seal_in_place c (body ++ replicate (tag_len c) 0) max_len first
                (u32_wrap (Z.of_nat (max_len + tag_len c)))
  | None => desc ++ body
  end.

Definition FecEncoder_add (e : FecEncoder) (seq : Z) (data : list Z) : FecEncoder * option (list Z) :=
  if (length data =? 0)%nat || negb (fe_multipath e) then (e, None)
  else
    let rejected := negb (fe_armed e) && ((seq =? 0) || negb ((seq - 1) mod fe_k e =? 0)) in
    if rejected then (e, None)
    else
      let acc := if (length (fe_acc e) <? length data)%nat then resize0 (length data) (fe_acc e) else fe_acc e in
      let e :=
        {| fe_k := fe_k e; fe_seqs := fe_seqs e ++ [seq]; fe_lens := fe_lens e ++ [length data];
           fe_acc := xor_into p (take (length data) acc) data ++ drop (length data) acc;
           fe_active_len := Nat.max (fe_active_len e) (length data);
           fe_ic := fe_ic e; fe_parity_sent := fe_parity_sent e;
           fe_multipath := fe_multipath e; fe_armed := true |} in
      if Z.of_nat (length (fe_seqs e)) <? fe_k e then (e, None)
      else
        let parity := build_parity e in
        let e :=
          {| fe_k := fe_k e; fe_seqs := fe_seqs e; fe_lens := fe_lens e; fe_acc := fe_acc e;
             fe_active_len := fe_active_len e; fe_ic := fe_ic e;
             fe_parity_sent := u64_sat_add (fe_parity_sent e) 1;
             fe_multipath := fe_multipath e; fe_armed := fe_armed e |} in
        (FecEncoder_reset e, Some parity).
End Encoder.

(** ** Decoder *)

Record FecGroupState := {
  g_k : Z;
  g_lens : list Z;
  g_got_mask : Z;
  g_acc : list Z;
  g_parity : option (list Z) }.
Definition new_group : FecGroupState :=
  {| g_k := 0; g_lens := []; g_got_mask := 0; g_acc := []; g_parity := None |}.

(** [FecDecoderInner], the part the decoder mutex protects. *)
Record FecDecoderInner := {
  fi_groups : gmap Z FecGroupState;
  fi_done : list Z;
  fi_recovered : Z;
  fi_lost : Z }.

Record FecDecoder := {
  fd_k : Z;
  fd_full_mask : Z;
  fd_static_single : bool;
  fd_fence : FecRxFenceState;
  fd_cleanup_before : Z;
  fd_retired_before : Z;
  fd_ic : option InnerCipher;
  fd_inner : FecDecoderInner }.

Definition FecDecoder_new (k : Z) (ic : option InnerCipher) : FecDecoder :=
  let k := clamp_fec_group k in
  {| fd_k := k; fd_full_mask := if k =? 64 then U64_MAX else Z.shiftl 1 k - 1;
     fd_static_single := false; fd_fence := FecRxFenceState_default;
     fd_cleanup_before := 0; fd_retired_before := 0; fd_ic := ic;
     fd_inner := {| fi_groups := ∅; fi_done := replicate FEC_DONE_CACHE 0; fi_recovered := 0; fi_lost := 0 |} |}.

Definition with_groups (i : FecDecoderInner) (gs : gmap Z FecGroupState) : FecDecoderInner :=
  {| fi_groups := gs; fi_done := fi_done i; fi_recovered := fi_recovered i; fi_lost := fi_lost i |}.
Definition with_inner (d : FecDecoder) (i : FecDecoderInner) : FecDecoder :=
  {| fd_k := fd_k d; fd_full_mask := fd_full_mask d; fd_static_single := fd_static_single d;
     fd_fence := fd_fence d; fd_cleanup_before := fd_cleanup_before d;
     fd_retired_before := fd_retired_before d; fd_ic := fd_ic d; fd_inner := i |}.
Definition with_marks (d : FecDecoder) (fence : FecRxFenceState) (cleanup retired : Z) : FecDecoder :=
  {| fd_k := fd_k d; fd_full_mask := fd_full_mask d; fd_static_single := fd_static_single d;
     fd_fence := fence; fd_cleanup_before := cleanup; fd_retired_before := retired;
     fd_ic := fd_ic d; fd_inner := fd_inner d |}.

(** *** The done cache *)

Definition done_slot (start k : Z) : nat := Z.to_nat (Z.land ((start - 1) / k) FEC_DONE_MASK).
Definition is_done (done : list Z) (start k : Z) : bool :=
  negb (start =? 0) && (default 0 (done !! done_slot start k) =? start).
Definition mark_done (done : list Z) (start k : Z) : list Z :=
  if start =? 0 then done else <[done_slot start k := start]> done.

(** *** Group entries *)

(** [groups.keys().copied().min()] *)
Definition oldest_start (gs : gmap Z FecGroupState) : option Z :=
  match elements (dom gs) with
  | [] => None
  | k :: ks => Some (foldr Z.min k ks)
  end.

(** [entry]: the map after a possible eviction, with the group's state present. *)
Definition entry (gs : gmap Z FecGroupState) (start : Z) : gmap Z FecGroupState * FecGroupState :=
  let gs :=
    if (FEC_MAX_PENDING_GROUPS <=? size gs)%nat && bool_decide (gs !! start = None) then
      match oldest_start gs with Some o => delete o gs | None => gs end
    else gs in
  match gs !! start with
  | Some g => (gs, g)
  | None => (<[start := new_group]> gs, new_group)
  end.

Definition bit_set (mask i : Z) : bool := negb (Z.land mask (Z.shiftl 1 i) =? 0).

(** The scan of [try_recover]: [None] is the early return (two members missing),
    [Some mi] the missing member, if any. *)
Fixpoint missing_scan (mask : Z) (i : Z) (n : nat) (missing : option Z) : option (option Z) :=
  match n with
  | O => Some missing
  | S n' =>
      if bit_set mask i then missing_scan mask (i + 1) n' missing
      else match missing with
           | Some _ => None
           | None => missing_scan mask (i + 1) n' (Some i)
           end
  end.

Definition lost_count (g : FecGroupState) : Z :=
  Z.of_nat (length (filter (fun i => bit_set (g_got_mask g) i = false) (seqZ 0 (g_k g)))).

Section Decoder.
Context `{CryptoPrims}.
Context (p : cpu).

Definition try_recover (inner : FecDecoderInner) (start k : Z) : FecDecoderInner * option (Z * list Z) :=
  match fi_groups inner !! start with
  | None => (inner, None)
  | Some g =>
      if g_k g =? 0 then (inner, None)
      else
        match g_parity g with
        | None => (inner, None)
        | Some parity =>
            match missing_scan (g_got_mask g) 0 (Z.to_nat (g_k g)) None with
            | None => (inner, None)
            | Some missing =>
                let rec_ :=
                  match missing with
                  | Some mi =>
                      let n := Z.to_nat (nth_byte (g_lens g) (Z.to_nat mi)) in
                      let acc := if (length (g_acc g) <? n)%nat then resize0 n (g_acc g) else g_acc g in
                      Some (xor_combine p (replicate n 0) parity acc, mi)
                  | None => None
                  end in
                let mask := match rec_ with
                            | Some (_, mi) => Z.lor (g_got_mask g) (Z.shiftl 1 mi)
                            | None => g_got_mask g
                            end in
                let g' := {| g_k := g_k g; g_lens := g_lens g; g_got_mask := mask;
                             g_acc := g_acc g; g_parity := g_parity g |} in
                let inner' :=
                  {| fi_groups := delete start (fi_groups inner);
                     fi_done := mark_done (fi_done inner) start k;
                     fi_recovered := match rec_ with Some _ => u64_wrap (fi_recovered inner + 1) | None => fi_recovered inner end;
                     fi_lost := u64_wrap (fi_lost inner + lost_count g') |} in
                (inner', match rec_ with Some (r, mi) => Some (u32_wrap (start + mi), r) | None => None end)
            end
        end
  end.

(** *** Data frames *)

Definition group_start_of (d : FecDecoder) (seq : Z) : Z := seq - ((seq - 1) mod fd_k d).

Definition on_data_locked (d : FecDecoder) (seq : Z) (frame : list Z) : FecDecoder * option (Z * list Z) :=
  let inner := fd_inner d in
  let start := group_start_of d seq in
  if is_done (fi_done inner) start (fd_k d) then (d, None)
  else
    let '(gs, g) := entry (fi_groups inner) start in
    let mask := Z.shiftl 1 (seq - start) in
    if negb (Z.land (g_got_mask g) mask =? 0) then (with_inner d (with_groups inner gs), None)
    else
      let got := Z.lor (g_got_mask g) mask in
      if got =? fd_full_mask d then
        (with_inner d {| fi_groups := delete start gs; fi_done := mark_done (fi_done inner) start (fd_k d);
                         fi_recovered := fi_recovered inner; fi_lost := fi_lost inner |}, None)
      else
        let acc := if (length (g_acc g) <? length frame)%nat then resize0 (length frame) (g_acc g) else g_acc g in
        let g' := {| g_k := g_k g; g_lens := g_lens g; g_got_mask := got;
                     g_acc := xor_into p acc frame; g_parity := g_parity g |} in
        let '(inner', rec_) := try_recover (with_groups inner (<[start := g']> gs)) start (fd_k d) in
        (with_inner d inner', rec_).

(** *** Retirement *)

Definition drop_groups_in_range (gs : gmap Z FecGroupState) (from until : Z) : gmap Z FecGroupState :=
  if from =? 0 then gs
  else filter (fun kv => ~ (from <= kv.1 /\ (until = 0 \/ kv.1 < until))) gs.

(** [maybe_retire_old_groups_actor]; [expected] is the reorder buffer's next
    sequence number. *)
Definition maybe_retire_old_groups_actor (d : FecDecoder) (expected : Z) : FecDecoder :=
  let boundary := fd_cleanup_before d in
  if (boundary =? 0) || (boundary <=? fd_retired_before d) then d
  else if (expected =? 0) || (expected <? boundary) then d
  else
    with_inner (with_marks d (fd_fence d) (fd_cleanup_before d) boundary)
      (with_groups (fd_inner d) (filter (fun kv => ~ (kv.1 < boundary)) (fi_groups (fd_inner d)))).

(** The mutex version asks the progress callback, if there is one. *)
Definition maybe_retire_old_groups_locked (d : FecDecoder) (progress : option Z) : FecDecoder :=
  let boundary := fd_cleanup_before d in
  if (boundary =? 0) || (boundary <=? fd_retired_before d) then d
  else
    match progress with
    | None => d
    | Some expected =>
        if (expected =? 0) || (expected <? boundary) then d
        else
          with_inner (with_marks d (fd_fence d) (fd_cleanup_before d) boundary)
            (with_groups (fd_inner d) (filter (fun kv => ~ (kv.1 < boundary)) (fi_groups (fd_inner d))))
    end.

Definition cleanup_by_reorder_progress (d : FecDecoder) (progress : option Z) : FecDecoder :=
  let boundary := fd_cleanup_before d in
  if (boundary =? 0) || (boundary <=? fd_retired_before d) then d
  else maybe_retire_old_groups_locked d progress.

Definition retired (d : FecDecoder) (seq : Z) : bool :=
  negb (fd_retired_before d =? 0) && (seq <? fd_retired_before d).

(** *** The mutex version *)

Definition on_data (d : FecDecoder) (progress : option Z) (seq : Z) (frame : list Z)
  : FecDecoder * option (Z * list Z) :=
  if (length frame =? 0)%nat || (seq =? 0) || fd_static_single d then (d, None)
  else if FecRxFenceState_bypass_data (fd_fence d) seq then
    (if Z.land seq 255 =? 0 then cleanup_by_reorder_progress d progress else d, None)
  else if retired d seq then (d, None)
  else on_data_locked d seq frame.

Fixpoint on_data_batch_loop (d : FecDecoder) (progress : option Z) (frames : list (Z * list Z))
  : FecDecoder * list (Z * list Z) :=
  match frames with
  | [] => (d, [])
  | (seq, frame) :: frames' =>
      let '(d1, r1) :=
        if (seq =? 0) || (length frame =? 0)%nat then (d, None)
        else if FecRxFenceState_bypass_data (fd_fence d) seq then
          (if Z.land seq 255 =? 0 then maybe_retire_old_groups_locked d progress else d, None)
        else if retired d seq then (d, None)
        else on_data_locked d seq frame in
      let '(d2, r2) := on_data_batch_loop d1 progress frames' in
      (d2, option_list r1 ++ r2)
  end.
Definition on_data_batch (d : FecDecoder) (progress : option Z) (frames : list (Z * list Z)) :=
  if (length frames =? 0)%nat || fd_static_single d then (d, [])
  else on_data_batch_loop d progress frames.

(** *** Parity frames *)

Inductive fec_error :=
| EProto (e : proto_error)
| EParityHeader
| EParityStart (start k : Z)
| EParityTruncated
| EParityMember
| EParityAead
| EUnsupportedKind (kind : Z).

(** The header checks of [on_parity_*]: the group start. *)
Definition parity_header (d : FecDecoder) (payload : list Z) : result Z fec_error :=
  if (length payload <? 7)%nat || negb (nth_byte payload 0 =? CONTROL_KIND_FEC_PARITY) then Err EParityHeader
  else
    let start := be_decode (slice 1 5 payload) in
    let k := nth_byte payload 5 in
    if (start =? 0) || negb (k =? fd_k d) || negb ((start - 1) mod fd_k d =? 0) then Err (EParityStart start k)
    else Ok start.

(** The loop over the member lengths. *)
Fixpoint parity_lens (payload : list Z) (room tag : nat) (i n : nat) : option (list Z) :=
  match n with
  | O => Some []
  | S n' =>
      let l := be_decode (slice (6 + 4 * i) (10 + 4 * i) payload) in
      if Z.of_nat room <? l + Z.of_nat tag then None
      else (fun ls => l :: ls) <$> parity_lens payload room tag (S i) n'
  end.

(** The descriptor and the body: member lengths and XOR bytes. *)
Definition parity_body (d : FecDecoder) (payload : list Z) (start : Z) : result (list Z * list Z) fec_error :=
  let k := Z.to_nat (nth_byte payload 5) in
  let desc_len := (6 + 4 * k)%nat in
  let tag := match fd_ic d with Some c => tag_len c | None => 0%nat end in
  if (length payload <? desc_len + tag)%nat then Err EParityTruncated
  else
    match parity_lens payload (length payload - desc_len) tag 0 k with
    | None => Err EParityMember
    | Some lens =>
        let max_len := Z.to_nat (foldl Z.max 0 lens) in
        match fd_ic d with
        | Some c =>
            let aad := be_encode 4 (u32_wrap (Z.of_nat (max_len + tag))) ++ be_encode 4 start in
            match open_to c max_len (slice desc_len (desc_len + max_len + tag) payload) start aad with
            | Some plain => Ok (lens, plain)
            | None => Err EParityAead
            end
        | None => Ok (lens, slice desc_len (desc_len + max_len) payload)
        end
    end.

(** The locked end of [on_parity_*]: [None] is the early [return Ok(None)] (the
    group is retired, done, or already has a parity); otherwise the recovered
    frame, if any. *)
Definition store_parity (d : FecDecoder) (start k : Z) (lens pb : list Z)
  : FecDecoder * option (option (Z * list Z)) :=
  let inner := fd_inner d in
  if retired d start || is_done (fi_done inner) start (fd_k d) then (d, None)
  else
    let '(gs, g) := entry (fi_groups inner) start in
    match g_parity g with
    | Some _ => (with_inner d (with_groups inner gs), None)
    | None =>
        let g' := {| g_k := k; g_lens := lens; g_got_mask := g_got_mask g;
                     g_acc := g_acc g; g_parity := Some pb |} in
        let '(inner', rec_) := try_recover (with_groups inner (<[start := g']> gs)) start (fd_k d) in
        (with_inner d inner', Some rec_)
    end.

Definition on_parity_strict (d : FecDecoder) (progress : option Z) (payload : list Z)
  : FecDecoder * result (option (Z * list Z)) fec_error :=
  if fd_static_single d then (d, Ok None)
  else
    match parity_header d payload with
    | Err e => (d, Err e)
    | Ok start =>
        let d := cleanup_by_reorder_progress d progress in
        if retired d start then (d, Ok None)
        else
          match parity_body d payload start with
          | Err e => (d, Err e)
          | Ok (lens, pb) =>
              match store_parity d start (nth_byte payload 5) lens pb with
              | (d, None) => (d, Ok None)
              | (d, Some rec_) => (maybe_retire_old_groups_locked d progress, Ok rec_)
              end
          end
    end.

Definition on_parity_actor (d : FecDecoder) (expected : Z) (payload : list Z)
  : FecDecoder * result (option (Z * list Z)) fec_error :=
  if fd_static_single d then (d, Ok None)
  else
    match parity_header d payload with
    | Err e => (d, Err e)
    | Ok start =>
        let d := maybe_retire_old_groups_actor d expected in
        if retired d start then (d, Ok None)
        else
          match parity_body d payload start with
          | Err e => (d, Err e)
          | Ok (lens, pb) =>
              match store_parity d start (nth_byte payload 5) lens pb with
              | (d, None) => (d, Ok None)
              | (d, Some rec_) => (maybe_retire_old_groups_actor d expected, Ok rec_)
              end
          end
    end.

(** *** FEC_MODE controls *)

Definition atomic_max (dst next : Z) : Z := if next =? 0 then dst else Z.max dst next.

Definition handle_mode_control (d : FecDecoder) (progress : option Z) (c : FecModeControl) : FecDecoder :=
  let '(fence, applied) := FecRxFenceState_apply (fd_fence d) c in
  let d := with_marks d fence (fd_cleanup_before d) (fd_retired_before d) in
  if negb applied then d
  else
    let '(from, until) := FecRxFenceState_window (fd_fence d) in
    if from =? 0 then d
    else
      let d := with_marks d (fd_fence d) (atomic_max (fd_cleanup_before d) from) (fd_retired_before d) in
      let d := with_inner d (with_groups (fd_inner d) (drop_groups_in_range (fi_groups (fd_inner d)) from until)) in
      maybe_retire_old_groups_locked d progress.

Definition handle_mode_control_actor (d : FecDecoder) (c : FecModeControl) (expected : Z) : FecDecoder :=
  let '(fence, applied) := FecRxFenceState_apply_actor (fd_fence d) c in
  let d := with_marks d fence (fd_cleanup_before d) (fd_retired_before d) in
  if negb applied then d
  else
    let '(from, until) := FecRxFenceState_window (fd_fence d) in
    if from =? 0 then d
    else
      let d := with_marks d (fd_fence d) (atomic_max (fd_cleanup_before d) from) (fd_retired_before d) in
      let d := with_inner d (with_groups (fd_inner d) (drop_groups_in_range (fi_groups (fd_inner d)) from until)) in
      maybe_retire_old_groups_actor d expected.

(** The strict dispatcher of sequence number 0. *)
Definition on_control (d : FecDecoder) (progress : option Z) (payload : list Z)
  : FecDecoder * result (option (Z * list Z)) fec_error :=
  match control_kind payload with
  | Err e => (d, Err (EProto e))
  | Ok kind =>
      if kind =? CONTROL_KIND_FEC_PARITY then on_parity_strict d progress payload
      else if kind =? CONTROL_KIND_FEC_MODE then
        match FecModeControl_parse payload with
        | Err e => (d, Err (EProto e))
        | Ok c => (handle_mode_control d progress c, Ok None)
        end
      else (d, Err (EUnsupportedKind kind))
  end.

Definition on_control_actor (d : FecDecoder) (payload : list Z) (expected : Z)
  : FecDecoder * result (option (Z * list Z)) fec_error :=
  match control_kind payload with
  | Err e => (d, Err (EProto e))
  | Ok kind =>
      if kind =? CONTROL_KIND_FEC_PARITY then on_parity_actor d expected payload
      else if kind =? CONTROL_KIND_FEC_MODE then
        match FecModeControl_parse payload with
        | Err e => (d, Err (EProto e))
        | Ok c => (handle_mode_control_actor d c expected, Ok None)
        end
      else (d, Err (EUnsupportedKind kind))
  end.

(** *** The actor's data path, with its own copy of the group update *)

Definition on_data_actor (d : FecDecoder) (seq : Z) (frame : list Z) (expected : Z)
  : FecDecoder * option (Z * list Z) :=
  if (length frame =? 0)%nat || (seq =? 0) || fd_static_single d then (d, None)
  else if FecRxFenceState_bypass_data (fd_fence d) seq then
    (if Z.land seq 255 =? 0 then maybe_retire_old_groups_actor d expected else d, None)
  else if negb (fd_retired_before d =? 0) && (seq <? fd_retired_before d) then (d, None)
  else
    let k := fd_k d in
    let full_mask := fd_full_mask d in
    let start := seq - ((seq - 1) mod k) in
    let inner := fd_inner d in
    if is_done (fi_done inner) start k then (d, None)
    else
      let '(gs, g) := entry (fi_groups inner) start in
      let mask := Z.shiftl 1 (seq - start) in
      if negb (Z.land (g_got_mask g) mask =? 0) then (with_inner d (with_groups inner gs), None)
      else
        let got := Z.lor (g_got_mask g) mask in
        if got =? full_mask then
          (with_inner d {| fi_groups := delete start gs; fi_done := mark_done (fi_done inner) start k;
                           fi_recovered := fi_recovered inner; fi_lost := fi_lost inner |}, None)
        else
          let acc := if (length (g_acc g) <? length frame)%nat then resize0 (length frame) (g_acc g) else g_acc g in
          let g' := {| g_k := g_k g; g_lens := g_lens g; g_got_mask := got;
                       g_acc := xor_into p acc frame; g_parity := g_parity g |} in
          let '(inner', recovered) := try_recover (with_groups inner (<[start := g']> gs)) start k in
          (with_inner d inner', recovered).

Definition reset_state_preserve_static (d : FecDecoder) : FecDecoder :=
  with_inner (with_marks d (FecRxFenceState_reset (fd_fence d)) 0 0)
    {| fi_groups := ∅; fi_done := (fun _ => 0) <$> fi_done (fd_inner d);
       fi_recovered := fi_recovered (fd_inner d); fi_lost := fi_lost (fd_inner d) |}.
Definition FecDecoder_reset_actor (d : FecDecoder) : FecDecoder :=
  with_inner (with_marks d (FecRxFenceState_reset_actor (fd_fence d)) 0 0)
    {| fi_groups := ∅; fi_done := (fun _ => 0) <$> fi_done (fd_inner d);
       fi_recovered := fi_recovered (fd_inner d); fi_lost := fi_lost (fd_inner d) |}.

Definition set_static_single_path (d : FecDecoder) (single : bool) : FecDecoder :=
  let set b d := {| fd_k := fd_k d; fd_full_mask := fd_full_mask d; fd_static_single := b;
                    fd_fence := fd_fence d; fd_cleanup_before := fd_cleanup_before d;
                    fd_retired_before := fd_retired_before d; fd_ic := fd_ic d; fd_inner := fd_inner d |} in
  if negb single then set false d
  else if fd_static_single d then d
  else reset_state_preserve_static (set true d).

Definition bypass_snapshot (d : FecDecoder) : bool :=
  if fd_static_single d then true
  else let '(from, until) := FecRxFenceState_window (fd_fence d) in negb (from =? 0) && (until =? 0).
End Decoder.
