(* ===== verification/FecSpec.v ===== *)
(** * Correctness of the FEC encoder and decoder of [src/src/fec.rs]

    The encoder's accumulator is the bytewise XOR of the members of the open
    group ([enc_rep]); a decoder group holds the XOR of the members received so
    far and, once it arrived, the parity ([group_rep]).  From these two
    invariants: one parity repairs any single loss, for every arrival order. *)
From S2P Require Import Prelude Utils Crypto Protocol Xor Fec.

(** ** Bytewise XOR of a list of strings *)

Definition xor_at (ds : list (list Z)) (i : nat) : Z := foldr (fun d a => Z.lxor (nth_byte d i) a) 0 ds.

Lemma xor_at_perm ds ds' i : ds ≡ₚ ds' -> xor_at ds i = xor_at ds' i.
Proof.
  intros Hp. induction Hp; simpl; [done|by f_equal| |congruence].
  rewrite <-!Z.lxor_assoc. f_equal. apply Z.lxor_comm.
Qed.

Lemma xor_at_app ds ds' i : xor_at (ds ++ ds') i = Z.lxor (xor_at ds i) (xor_at ds' i).
Proof.
  induction ds as [|d ds IH]; [done|]. cbn [app xor_at foldr]. fold (xor_at (ds ++ ds') i) (xor_at ds i).
  by rewrite IH, Z.lxor_assoc.
Qed.

Lemma nth_byte_ge l i : (length l <= i)%nat -> nth_byte l i = 0.
Proof. intros Hi. unfold nth_byte. by rewrite lookup_ge_None_2. Qed.

Lemma nth_byte_cons x l i : nth_byte (x :: l) (S i) = nth_byte l i.
Proof. done. Qed.

Lemma nth_byte_xor acc data i :
  (length data <= length acc)%nat -> nth_byte (xor_bytes acc data) i = Z.lxor (nth_byte acc i) (nth_byte data i).
Proof.
  revert data i. induction acc as [|a acc IH]; intros [|d data] i Hl; simpl in *; try lia.
  - by rewrite (nth_byte_ge []) by (simpl; lia).
  - by rewrite (nth_byte_ge []), Z.lxor_0_r by (simpl; lia).
  - destruct i; [done|]. rewrite !nth_byte_cons. apply IH. lia.
Qed.

Lemma nth_byte_app l1 l2 i :
  nth_byte (l1 ++ l2) i = if (i <? length l1)%nat then nth_byte l1 i else nth_byte l2 (i - length l1).
Proof.
  unfold nth_byte. destruct (Nat.ltb_spec i (length l1)); [by rewrite lookup_app_l|by rewrite lookup_app_r].
Qed.

Lemma nth_byte_take n l i : (i < n)%nat -> nth_byte (take n l) i = nth_byte l i.
Proof. intros. unfold nth_byte. by rewrite lookup_take_lt. Qed.

Lemma nth_byte_drop n l i : nth_byte (drop n l) i = nth_byte l (n + i).
Proof. unfold nth_byte. by rewrite lookup_drop. Qed.

Lemma nth_byte_zeros n i : nth_byte (replicate n 0) i = 0.
Proof.
  unfold nth_byte. destruct (replicate n 0 !! i) eqn:E; [|done]. by apply lookup_replicate in E as [-> _].
Qed.

Lemma bytes_resize0 n l : bytes_ok l -> bytes_ok (resize0 n l).
Proof. intros. unfold resize0. apply Forall_app. split; [by apply Forall_take|by apply Forall_replicate]. Qed.

Lemma bytes_xor_bytes acc data : bytes_ok acc -> bytes_ok data -> bytes_ok (xor_bytes acc data).
Proof.
  intros Ha. revert data. induction Ha as [|a acc Hx Ha IH]; intros [|d data] Hd; simpl; try constructor; try done.
  - apply Forall_cons in Hd as [? _]. by apply lxor_byte.
  - apply Forall_cons in Hd as [_ ?]. by apply IH.
Qed.

Lemma length_xor_bytes acc data : length (xor_bytes acc data) = length acc.
Proof. revert data. induction acc as [|a acc IH]; intros [|d data]; simpl; [done..|]. by rewrite IH. Qed.

Lemma list_eq_nth l1 l2 :
  length l1 = length l2 -> (forall i, (i < length l1)%nat -> nth_byte l1 i = nth_byte l2 i) -> l1 = l2.
Proof.
  intros Hl Hn. apply list_eq. intros i. destruct (decide (i < length l1)%nat) as [Hi|Hi].
  - specialize (Hn i Hi). unfold nth_byte in Hn.
    destruct (lookup_lt_is_Some_2 l1 i Hi) as [x Ex]. destruct (lookup_lt_is_Some_2 l2 i ltac:(lia)) as [y Ey].
    rewrite Ex, Ey in *. simpl in Hn. by subst.
  - rewrite !lookup_ge_None_2 by lia. done.
Qed.

(** Growing the accumulator and XORing a frame into it, in the shape both the
    encoder and the decoder use. *)
Definition grow_acc (acc data : list Z) : list Z :=
  if (length acc <? length data)%nat then resize0 (length data) acc else acc.

Lemma grow_acc_spec acc data :
  bytes_ok acc -> bytes_ok (grow_acc acc data) /\ (length data <= length (grow_acc acc data))%nat /\
  (length acc <= length (grow_acc acc data))%nat /\
  forall i, nth_byte (grow_acc acc data) i = nth_byte acc i.
Proof.
  intros Ha. unfold grow_acc. destruct (Nat.ltb_spec (length acc) (length data)).
  - split_and!; [by apply bytes_resize0|rewrite length_resize0; lia..|]. intros i. apply nth_byte_resize0. lia.
  - split_and!; [done|lia|lia|done].
Qed.

(** ** The encoder *)

Definition max_len (ds : list (list Z)) : nat := foldr (fun d m => Nat.max (length d) m) 0%nat ds.

Lemma max_len_app ds d : max_len (ds ++ [d]) = Nat.max (max_len ds) (length d).
Proof. induction ds as [|x ds IH]; simpl; [lia|]. rewrite IH. lia. Qed.

Lemma max_len_elem ds d : d ∈ ds -> (length d <= max_len ds)%nat.
Proof. induction 1; simpl; lia. Qed.

Lemma xor_at_beyond ds i : (max_len ds <= i)%nat -> xor_at ds i = 0.
Proof.
  induction ds as [|d ds IH]; simpl; [done|]. intros Hi. rewrite nth_byte_ge by lia. rewrite IH by lia. done.
Qed.

(** The encoder holds the open group [ms] (sequence number and payload). *)
Record enc_rep (e : FecEncoder) (ms : list (Z * list Z)) : Prop := {
  er_k : 2 <= fe_k e <= 64;
  er_seqs : fe_seqs e = ms.*1;
  er_lens : fe_lens e = length <$> ms.*2;
  er_active : fe_active_len e = max_len ms.*2;
  er_room : (fe_active_len e <= length (fe_acc e))%nat;
  er_bytes : bytes_ok (fe_acc e);
  er_acc : forall i, nth_byte (fe_acc e) i = xor_at ms.*2 i;
  er_open : Z.of_nat (length ms) < fe_k e }.

Lemma FecEncoder_new_rep k ic : enc_rep (FecEncoder_new k ic) [].
Proof.
  unfold FecEncoder_new, clamp_fec_group, FEC_MIN_GROUP, FEC_MAX_GROUP.
  split; cbn [fe_k fe_seqs fe_lens fe_acc fe_active_len length]; done || lia || constructor.
Qed.

Lemma FecEncoder_reset_rep e ms :
  enc_rep e ms \/ (Z.of_nat (length ms) = fe_k e /\ 2 <= fe_k e <= 64 /\ bytes_ok (fe_acc e) /\
    (fe_active_len e <= length (fe_acc e))%nat /\ fe_active_len e = max_len ms.*2 /\
    forall i, nth_byte (fe_acc e) i = xor_at ms.*2 i) ->
  enc_rep (FecEncoder_reset e) [].
Proof.
  intros He. assert (Hc : 2 <= fe_k e <= 64 /\ bytes_ok (fe_acc e) /\ (fe_active_len e <= length (fe_acc e))%nat /\
    fe_active_len e = max_len ms.*2 /\ forall i, nth_byte (fe_acc e) i = xor_at ms.*2 i).
  { destruct He as [He|(? & ? & ? & ? & ? & ?)]; [destruct He|]; auto 10. }
  destruct Hc as (Hk & Hb & Hr & Ha & Hx). unfold FecEncoder_reset.
  split; cbn [fe_k fe_seqs fe_lens fe_acc fe_active_len length]; try done; try lia.
  - apply Forall_app. split; [by apply Forall_replicate|by apply Forall_drop].
  - intros i. rewrite nth_byte_app, nth_byte_zeros, length_replicate, Nat.min_l, nth_byte_drop by done.
    destruct (Nat.ltb_spec i (fe_active_len e)); [done|].
    rewrite Hx, xor_at_beyond by lia. done.
Qed.

(** The state of the encoder after the member has been accumulated. *)
Definition enc_push (p : cpu) (e : FecEncoder) (seq : Z) (data : list Z) : FecEncoder :=
  let acc := grow_acc (fe_acc e) data in
  {| fe_k := fe_k e; fe_seqs := fe_seqs e ++ [seq]; fe_lens := fe_lens e ++ [length data];
     fe_acc := xor_into p (take (length data) acc) data ++ drop (length data) acc;
     fe_active_len := Nat.max (fe_active_len e) (length data);
     fe_ic := fe_ic e; fe_parity_sent := fe_parity_sent e;
     fe_multipath := fe_multipath e; fe_armed := true |}.

Lemma enc_push_acc p e ms seq data :
  enc_rep e ms -> bytes_ok data ->
  let e' := enc_push p e seq data in
  fe_seqs e' = (ms ++ [(seq, data)]).*1 /\ fe_lens e' = length <$> (ms ++ [(seq, data)]).*2 /\
  fe_active_len e' = max_len (ms ++ [(seq, data)]).*2 /\ (fe_active_len e' <= length (fe_acc e'))%nat /\
  bytes_ok (fe_acc e') /\ forall i, nth_byte (fe_acc e') i = xor_at (ms ++ [(seq, data)]).*2 i.
Proof.
  intros He Hd. destruct (grow_acc_spec (fe_acc e) data (er_bytes _ _ He)) as (Hgb & Hgl & Hgl2 & Hgn).
  unfold enc_push. cbn [fe_seqs fe_lens fe_active_len fe_acc]. set (acc := grow_acc _ _) in *.
  assert (Ht : length (take (length data) acc) = length data) by (rewrite length_take; lia).
  rewrite xor_into_eq by (try apply Forall_take; done || lia).
  rewrite !fmap_app. change [(seq, data)].*1 with [seq]. change [(seq, data)].*2 with [data]. change (length <$> [data]) with [length data].
  rewrite (er_seqs _ _ He), (er_lens _ _ He), (er_active _ _ He), max_len_app.
  split_and!; [done|done|done| | |].
  - rewrite length_app, length_xor_bytes, Ht, length_drop. pose proof (er_room _ _ He). rewrite (er_active _ _ He) in *. cbn in *. lia.
  - apply Forall_app. split; [apply bytes_xor_bytes; [by apply Forall_take|done]|by apply Forall_drop].
  - intros i. rewrite nth_byte_app, length_xor_bytes, Ht, xor_at_app. cbn [xor_at foldr]. rewrite Z.lxor_0_r, <-(er_acc _ _ He).
    destruct (Nat.ltb_spec i (length data)).
    + rewrite nth_byte_xor by lia. by rewrite nth_byte_take, Hgn by lia.
    + rewrite nth_byte_drop, (nth_byte_ge data), Z.lxor_0_r by lia. rewrite <-Hgn. f_equal. lia.
Qed.

(** The parity frame of a group as a function of its members. *)
Definition parity_bytes (ds : list (list Z)) : list Z := xor_at ds <$> seq 0 (max_len ds).
Definition parity_desc (start : Z) (ds : list (list Z)) : list Z :=
  [CONTROL_KIND_FEC_PARITY] ++ be_encode 4 start ++ [Z.of_nat (length ds) mod 256]
    ++ concat ((fun d => be_encode 4 (u32_wrap (Z.of_nat (length d)))) <$> ds).
Definition parity_of `{CryptoPrims} (ic : option InnerCipher) (start : Z) (ds : list (list Z)) : list Z :=
  parity_desc start ds ++
  match ic with
  | Some c => seal_in_place c (parity_bytes ds ++ replicate (tag_len c) 0) (max_len ds) start
                (u32_wrap (Z.of_nat (max_len ds + tag_len c)))
  | None => parity_bytes ds
  end.

Lemma length_parity_bytes ds : length (parity_bytes ds) = max_len ds.
Proof. unfold parity_bytes. by rewrite length_fmap, length_seq. Qed.

Lemma nth_parity_bytes ds i : nth_byte (parity_bytes ds) i = xor_at ds i.
Proof.
  destruct (decide (i < max_len ds)%nat) as [Hi|Hi].
  - unfold parity_bytes, nth_byte. rewrite list_lookup_fmap, lookup_seq_lt by done. done.
  - rewrite nth_byte_ge by (rewrite length_parity_bytes; lia). by rewrite xor_at_beyond by lia.
Qed.

Lemma take_acc_parity acc ds :
  (max_len ds <= length acc)%nat -> (forall i, nth_byte acc i = xor_at ds i) ->
  take (max_len ds) acc = parity_bytes ds.
Proof.
  intros Hl Hx. apply list_eq_nth; rewrite length_take, Nat.min_l by done; [by rewrite length_parity_bytes|].
  intros i Hi. by rewrite nth_byte_take, Hx, nth_parity_bytes.
Qed.

Section EncoderFacts.
Context `{CryptoPrims}.
Context (p : cpu).

Lemma add_eq e seq data :
  data <> [] -> fe_multipath e = true -> (fe_armed e = true \/ is_group_start (fe_k e) seq) ->
  FecEncoder_add p e seq data =
    let e1 := enc_push p e seq data in
    if Z.of_nat (length (fe_seqs e1)) <? fe_k e then (e1, None)
    else (FecEncoder_reset
            {| fe_k := fe_k e1; fe_seqs := fe_seqs e1; fe_lens := fe_lens e1; fe_acc := fe_acc e1;
               fe_active_len := fe_active_len e1; fe_ic := fe_ic e1;
               fe_parity_sent := u64_sat_add (fe_parity_sent e1) 1;
               fe_multipath := fe_multipath e1; fe_armed := fe_armed e1 |}, Some (build_parity e1)).
Proof.
  intros Hd Hm Ha. unfold FecEncoder_add.
  assert ((length data =? 0)%nat || negb (fe_multipath e) = false) as ->.
  { rewrite Hm. destruct (Nat.eqb_spec (length data) 0) as [E|]; [by destruct data|done]. }
  assert (negb (fe_armed e) && ((seq =? 0) || negb ((seq - 1) mod fe_k e =? 0)) = false) as ->; [|done].
  destruct Ha as [->|[Hs Hz]]; [done|]. rewrite Hz. destruct (Z.eqb_spec seq 0); [lia|]. by destruct (fe_armed e).
Qed.

Lemma build_parity_eq e ms :
  ms <> [] ->
  fe_seqs e = ms.*1 -> fe_lens e = length <$> ms.*2 -> fe_active_len e = max_len ms.*2 ->
  (fe_active_len e <= length (fe_acc e))%nat -> (forall i, nth_byte (fe_acc e) i = xor_at ms.*2 i) ->
  build_parity e = parity_of (fe_ic e) (default 0 (head ms.*1)) ms.*2.
Proof.
  intros Hne Hs Hl Ha Hr Hx. unfold build_parity, parity_of, parity_desc.
  rewrite Hs, Hl, Ha, length_fmap, <-list_fmap_compose, take_acc_parity by (done || lia).
  unfold compose. destruct (fe_ic e) as [c|]; by rewrite <-!app_assoc.
Qed.

(** Feed members to the encoder, collecting the parity frames. *)
Fixpoint enc_feed (e : FecEncoder) (ms : list (Z * list Z)) : FecEncoder * list (list Z) :=
  match ms with
  | [] => (e, [])
  | (seq, data) :: ms' =>
      let '(e1, o1) := FecEncoder_add p e seq data in
      let '(e2, o2) := enc_feed e1 ms' in (e2, option_list o1 ++ o2)
  end.

Lemma enc_feed_group e pre ms :
  enc_rep e pre -> fe_multipath e = true ->
  (fe_armed e = true \/ (exists s d ms', ms = (s, d) :: ms' /\ is_group_start (fe_k e) s)) ->
  ms <> [] -> Z.of_nat (length (pre ++ ms)) = fe_k e -> Forall (fun m : Z * list Z => m.2 <> [] /\ bytes_ok m.2) ms ->
  exists e', enc_feed e ms = (e', [parity_of (fe_ic e) (default 0 (head (pre ++ ms).*1)) (pre ++ ms).*2]) /\
    enc_rep e' [] /\ fe_multipath e' = true /\ fe_armed e' = true /\ fe_k e' = fe_k e /\ fe_ic e' = fe_ic e.
Proof.
  revert e pre. induction ms as [|[s d] ms IH]; intros e pre He Hm Harm Hne Hlen Hms; [done|].
  apply Forall_cons in Hms as [[Hd Hb] Hms]. cbn [snd] in *.
  assert (Harm' : fe_armed e = true \/ is_group_start (fe_k e) s).
  { destruct Harm as [|(s' & d' & ms' & [= <- <- <-] & ?)]; auto. }
  cbn [enc_feed]. rewrite add_eq by done. cbv zeta.
  destruct (enc_push_acc p e pre s d He Hb) as (Hseqs & Hlens & Hact & Hroom & Hbytes & Hacc).
  set (e1 := enc_push p e s d) in *. rewrite Hseqs, length_fmap.
  assert (Hl1 : Z.of_nat (length (pre ++ [(s, d)])) + Z.of_nat (length ms) = fe_k e).
  { rewrite !length_app in *. simpl in *. lia. }
  destruct (Z.ltb_spec (Z.of_nat (length (pre ++ [(s, d)]))) (fe_k e)).
  - assert (He1 : enc_rep e1 (pre ++ [(s, d)])) by (split; try done; apply He).
    destruct (IH e1 (pre ++ [(s, d)]) He1) as (e' & Hf & He' & ? & ? & ? & ?);
      [done|by left|intros ->; simpl in *; lia|rewrite <-app_assoc; done|done|].
    exists e'. rewrite Hf, <-app_assoc. split_and!; done.
  - assert (ms = []) as -> by (destruct ms; [done|simpl in *; lia]). cbn [enc_feed option_list app].
    rewrite (build_parity_eq e1 (pre ++ [(s, d)])); [|by destruct pre|done..].
    eexists. split_and!; [done| |done|done|done|done].
    eapply (FecEncoder_reset_rep _ (pre ++ [(s, d)])). right. cbn [fe_k fe_acc fe_active_len].
    change (fe_k e1) with (fe_k e). split; [cbn [length] in Hl1; lia|]. split; [apply He|]. done.
Qed.
End EncoderFacts.

(** ** The decoder reads the encoder's parity frame *)

Abbreviation be4s ls := (concat ((fun l => be_encode 4 l) <$> ls)).

Lemma length_be4s (ls : list Z) : length (be4s ls) = (4 * length ls)%nat.
Proof.
  induction ls as [|l ls IH]; [done|]. rewrite fmap_cons. cbn [concat length].
  rewrite length_app, length_be_encode, IH. lia.
Qed.

Lemma parity_lens_spec payload h pre ls rest room tag :
  payload = h ++ be4s pre ++ be4s ls ++ rest -> length h = 6%nat ->
  Forall (fun l => is_u32 l /\ l + Z.of_nat tag <= Z.of_nat room) ls ->
  parity_lens payload room tag (length pre) (length ls) = Some ls.
Proof.
  revert pre. induction ls as [|l ls IH]; intros pre E Hh Hls; [done|].
  apply Forall_cons in Hls as [[Hu Hr] Hls]. cbn [length parity_lens].
  assert (slice (6 + 4 * length pre) (10 + 4 * length pre) payload = be_encode 4 l) as ->.
  { rewrite E, (slice_app_r h _ _ _ 6), (slice_app_r (be4s pre) _ _ _ (4 * length pre)) by (rewrite ?length_be4s; lia).
    replace (6 + 4 * length pre - 6 - 4 * length pre)%nat with 0%nat by lia.
    replace (10 + 4 * length pre - 6 - 4 * length pre)%nat with 4%nat by lia.
    rewrite fmap_cons. cbn [concat]. rewrite <-app_assoc. apply slice_app_l, length_be_encode. }
  rewrite be_decode_encode_4 by done. destruct (Z.ltb_spec (Z.of_nat room) (l + Z.of_nat tag)); [lia|].
  specialize (IH (pre ++ [l])). rewrite length_app in IH. cbn [length] in IH.
  rewrite Nat.add_1_r in IH. rewrite IH; [done| |done|done].
  rewrite E, fmap_app, concat_app, !fmap_cons. cbn [concat]. by rewrite app_nil_r, <-!app_assoc.
Qed.

Lemma foldl_max_lens ds a :
  0 <= a -> foldl Z.max a ((fun d : list Z => zlen d) <$> ds) = Z.max a (Z.of_nat (max_len ds)).
Proof.
  revert a. induction ds as [|d ds IH]; intros a Ha; [simpl; lia|].
  rewrite fmap_cons. cbn [foldl max_len foldr]. fold (max_len ds). rewrite IH by lia. lia.
Qed.

(** The members of a group as the network can carry them. *)
Record members_ok (k : Z) (ds : list (list Z)) : Prop := {
  mo_len : Z.of_nat (length ds) = k;
  mo_k : 2 <= k <= 64;
  mo_bytes : Forall (fun d => bytes_ok d /\ d <> [] /\ zlen d <= 131070) ds }.

Lemma max_len_bounds k ds : members_ok k ds -> (0 < max_len ds)%nat /\ Z.of_nat (max_len ds) <= 131070.
Proof.
  intros [Hl Hk Hb]. split.
  - destruct ds as [|d ds]; [simpl in Hl; lia|]. apply Forall_cons in Hb as [(_ & Hd & _) _].
    simpl. destruct d; [done|simpl; lia].
  - clear Hl. induction Hb as [|d ds (_ & _ & Hd) Hb IH]; simpl; lia.
Qed.

Lemma xor_at_byte ds i : Forall bytes_ok ds -> is_byte (xor_at ds i).
Proof.
  induction 1 as [|d ds Hd Hds IH]; [done|]. cbn [xor_at foldr]. apply lxor_byte; [|done].
  unfold nth_byte. destruct (d !! i) eqn:E; [by eapply Forall_lookup_1|done].
Qed.

Lemma parity_bytes_ok ds : Forall bytes_ok ds -> bytes_ok (parity_bytes ds).
Proof. intros Hd. unfold parity_bytes. apply Forall_fmap, Forall_true. intros i. by apply xor_at_byte. Qed.

Lemma members_lens k ds :
  members_ok k ds ->
  concat ((fun d => be_encode 4 (u32_wrap (Z.of_nat (length d)))) <$> ds) = be4s ((fun d : list Z => zlen d) <$> ds) /\
  Forall is_u32 ((fun d : list Z => zlen d) <$> ds).
Proof.
  intros [_ _ Hb]. induction Hb as [|d ds (_ & _ & Hd) Hb [IH1 IH2]]; [done|].
  rewrite !fmap_cons. cbn [concat]. assert (is_u32 (zlen d)) by (unfold_ints; lia).
  split; [|by constructor]. f_equal; [|exact IH1]. unfold u32_wrap. rewrite Z.mod_small by (unfold_ints; lia). done.
Qed.

Lemma parity_desc_split k start ds :
  members_ok k ds ->
  parity_desc start ds = ([CONTROL_KIND_FEC_PARITY] ++ be_encode 4 start ++ [k])
    ++ be4s ((fun d : list Z => zlen d) <$> ds) /\
  length (parity_desc start ds) = (6 + 4 * Z.to_nat k)%nat.
Proof.
  intros Hm. unfold parity_desc. destruct (members_lens k ds Hm) as [-> _]. destruct Hm as [Hl Hk _].
  rewrite Hl, Z.mod_small by lia. split; [by rewrite <-!app_assoc|].
  rewrite !length_app, length_be4s, length_be_encode, length_fmap. simpl. lia.
Qed.

Section ParityWire.
Context `{CryptoLaws}.

Lemma parity_header_of d ic start ds :
  members_ok (fd_k d) ds -> is_group_start (fd_k d) start -> is_u32 start ->
  parity_header d (parity_of ic start ds) = Ok start.
Proof.
  intros Hm [Hs Hz] Hu. unfold parity_header, parity_of.
  destruct (parity_desc_split _ start _ Hm) as [E Hl]. rewrite E, <-!app_assoc.
  assert (Hk := mo_k _ _ Hm). set (tail := be4s _ ++ _).
  rewrite !length_app, length_be_encode. cbn [length].
  destruct (Nat.ltb_spec (1 + (4 + (1 + length tail))) 7) as [Hlt|_].
  { subst tail. rewrite length_app, length_be4s, length_fmap in Hlt. destruct Hm as [Hml _ _]. lia. }
  cbn [orb]. replace (nth_byte ([CONTROL_KIND_FEC_PARITY] ++ be_encode 4 start ++ [fd_k d] ++ tail) 0) with CONTROL_KIND_FEC_PARITY by done.
  rewrite Z.eqb_refl. cbn [negb orb].
  rewrite (slice_app_r [CONTROL_KIND_FEC_PARITY] _ _ _ 1), slice_app_l by (rewrite ?length_be_encode; done || (simpl; lia)).
  rewrite be_decode_encode_4 by done.
  assert (nth_byte ([CONTROL_KIND_FEC_PARITY] ++ be_encode 4 start ++ [fd_k d] ++ tail) 5 = fd_k d) as ->.
  { rewrite !nth_byte_app, length_be_encode. done. }
  rewrite Hz. destruct (Z.eqb_spec start 0); [lia|]. by rewrite Z.eqb_refl.
Qed.

Lemma nth_parity_k k ic start ds : members_ok k ds -> nth_byte (parity_of ic start ds) 5 = k.
Proof.
  intros Hm. unfold parity_of. destruct (parity_desc_split _ start _ Hm) as [-> _].
  rewrite <-!app_assoc, !nth_byte_app, length_be_encode. done.
Qed.

Lemma parity_body_of d start ds :
  members_ok (fd_k d) ds ->
  parity_body d (parity_of (fd_ic d) start ds) start = Ok ((fun x : list Z => zlen x) <$> ds, parity_bytes ds).
Proof.
  intros Hm. pose proof (max_len_bounds _ _ Hm) as Hmax. destruct (members_lens _ _ Hm) as [_ Hu32].
  unfold parity_body. rewrite (nth_parity_k (fd_k d)) by done.
  destruct (parity_desc_split _ start _ Hm) as [E Hl].
  set (dl := (6 + 4 * Z.to_nat (fd_k d))%nat) in *.
  set (tag := match fd_ic d with Some c => tag_len c | None => 0%nat end).
  unfold parity_of. set (body := match fd_ic d with Some c => seal_in_place _ _ _ _ _ | None => _ end).
  assert (Hbody : length body = (max_len ds + tag)%nat).
  { subst body tag. destruct (fd_ic d) as [c|]; [|rewrite length_parity_bytes; lia].
    rewrite <-(length_parity_bytes ds). apply seal_in_place_length. }
  rewrite length_app, Hl, Hbody. destruct (Nat.ltb_spec (dl + (max_len ds + tag)) (dl + tag)); [lia|].
  assert (Hlens : parity_lens (parity_desc start ds ++ body) (dl + (max_len ds + tag) - dl) tag 0 (Z.to_nat (fd_k d))
    = Some ((fun x : list Z => zlen x) <$> ds)).
  { pose proof (mo_len _ _ Hm) as Hml. replace (Z.to_nat (fd_k d)) with (length ((fun x : list Z => zlen x) <$> ds)) by (rewrite length_fmap; lia).
    apply (parity_lens_spec _ ([CONTROL_KIND_FEC_PARITY] ++ be_encode 4 start ++ [fd_k d]) [] _ body).
    - rewrite E. by rewrite <-!app_assoc.
    - rewrite !length_app, length_be_encode. done.
    - apply Forall_fmap, Forall_forall. intros x Hx. split.
      + rewrite Forall_fmap in Hu32. rewrite Forall_forall in Hu32. by apply Hu32.
      + cbn. pose proof (max_len_elem _ _ Hx). lia. }
  rewrite Hlens, foldl_max_lens, Z.max_r, Nat2Z.id by lia.
  assert (Hsl : slice dl (dl + max_len ds + tag) (parity_desc start ds ++ body) = body).
  { rewrite (slice_app_r _ _ _ _ dl) by lia. replace (dl - dl)%nat with 0%nat by lia.
    rewrite <-(app_nil_r body) at 1. apply slice_app_l. lia. }
  destruct (fd_ic d) as [c|]; [|].
  - rewrite Hsl. subst body. subst tag. fold (gcm_aad (u32_wrap (Z.of_nat (max_len ds + tag_len c))) start).
    rewrite <-(length_parity_bytes ds) at 2. rewrite open_to_seal; [done| |by rewrite length_parity_bytes].
    intros E0. apply (f_equal length) in E0. rewrite length_parity_bytes in E0. simpl in E0. lia.
  - subst tag. rewrite Nat.add_0_r in Hsl. rewrite Hsl. done.
Qed.
End ParityWire.

(** ** Groups of the decoder *)

Lemma bit_set_testbit mask i : 0 <= i -> bit_set mask i = Z.testbit mask i.
Proof.
  intros Hi. unfold bit_set. destruct (Z.testbit mask i) eqn:E.
  - destruct (Z.eqb_spec (Z.land mask (Z.shiftl 1 i)) 0) as [E0|]; [|done].
    assert (Hb : Z.testbit (Z.land mask (Z.shiftl 1 i)) i = true).
    { rewrite Z.land_spec, E, Z.shiftl_spec, Z.sub_diag by done. done. }
    by rewrite E0, Z.bits_0 in Hb.
  - assert (Z.land mask (Z.shiftl 1 i) = 0) as ->; [|done]. apply Z.bits_inj'. intros j Hj.
    rewrite Z.land_spec, Z.bits_0, Z.shiftl_spec by done. destruct (Z.eq_dec i j) as [->|]; [by rewrite E|].
    rewrite andb_false_iff. right.
    destruct (Z_lt_le_dec (j - i) 0); [by apply Z.testbit_neg_r|].
    change 1 with (2 ^ 0). apply Z.pow2_bits_false. lia.
Qed.

(** The bit mask of a set of received member indices. *)
Definition mask_rep (mask : Z) (R : list Z) : Prop :=
  0 <= mask /\ forall i, 0 <= i -> Z.testbit mask i = bool_decide (i ∈ R).

Lemma mask_rep_add mask R i :
  0 <= i -> mask_rep mask R -> mask_rep (Z.lor mask (Z.shiftl 1 i)) (i :: R).
Proof.
  intros Hi [H0 Hb]. split; [apply Z.lor_nonneg; split; [done|]; apply Z.shiftl_nonneg; lia|].
  intros j Hj. rewrite Z.lor_spec, Hb, Z.shiftl_spec by done.
  destruct (Z.eq_dec i j) as [->|].
  - rewrite Z.sub_diag, orb_true_r. symmetry. apply bool_decide_eq_true. by left.
  - assert (Z.testbit 1 (j - i) = false) as ->.
    { destruct (Z_lt_le_dec (j - i) 0); [by apply Z.testbit_neg_r|]. change 1 with (2 ^ 0). apply Z.pow2_bits_false. lia. }
    rewrite orb_false_r. apply bool_decide_ext. rewrite elem_of_cons. split; [auto|]. by intros [->|].
Qed.

Lemma full_mask_rep k : 2 <= k <= 64 ->
  mask_rep (fd_full_mask (FecDecoder_new k None)) (seqZ 0 k) /\
  forall ic, fd_full_mask (FecDecoder_new k ic) = Z.ones k.
Proof.
  intros Hk. assert (Hf : forall ic, fd_full_mask (FecDecoder_new k ic) = Z.ones k).
  { intros ic. unfold FecDecoder_new, clamp_fec_group, FEC_MIN_GROUP, FEC_MAX_GROUP. cbn [fd_full_mask].
    replace (Z.max 2 (Z.min 64 k)) with k by lia. destruct (Z.eqb_spec k 64) as [->|]; [done|].
    unfold Z.ones. lia. }
  split; [|done]. rewrite Hf. split; [rewrite Z.ones_equiv; pose proof (Z.pow_pos_nonneg 2 k); lia|].
  intros i Hi. rewrite Z.testbit_ones_nonneg by lia. apply eq_true_iff_eq.
  rewrite bool_decide_eq_true, elem_of_seqZ, Z.ltb_lt. lia.
Qed.

Lemma mask_rep_full mask R k :
  2 <= k <= 64 -> mask_rep mask R -> NoDup R -> (forall i, i ∈ R -> 0 <= i < k) ->
  mask = Z.ones k <-> Z.of_nat (length R) = k.
Proof.
  intros Hk [H0 Hb] Hnd Hin. split.
  - intros ->. assert (HR : R ≡ₚ seqZ 0 k).
    { apply NoDup_Permutation; [done|apply NoDup_seqZ|]. intros i. rewrite elem_of_seqZ. split; [apply Hin|].
      intros Hi. specialize (Hb i ltac:(lia)). rewrite Z.testbit_ones_nonneg in Hb by lia.
      symmetry in Hb. rewrite (proj2 (Z.ltb_lt i k)) in Hb by lia. by apply bool_decide_eq_true in Hb. }
    rewrite HR, length_seqZ. lia.
  - intros Hl. assert (HR : R ≡ₚ seqZ 0 k).
    { apply submseteq_length_Permutation; [|rewrite length_seqZ; lia].
      apply NoDup_submseteq; [done|]. intros i Hi%Hin. apply elem_of_seqZ. lia. }
    apply Z.bits_inj'. intros i Hi. rewrite Hb, Z.testbit_ones_nonneg by lia. apply eq_true_iff_eq.
    rewrite bool_decide_eq_true, HR, elem_of_seqZ, Z.ltb_lt. lia.
Qed.

(** The scan for missing members. *)
Lemma missing_scan_spec mask R i n m :
  0 <= i -> mask_rep mask R ->
  missing_scan mask i n m =
    match option_list m ++ filter (fun j => j ∉ R) (seqZ i (Z.of_nat n)) with
    | [] => Some None
    | [j] => Some (Some j)
    | _ => None
    end.
Proof.
  intros Hi Hm. revert i m Hi. induction n as [|n IH]; intros i m Hi.
  - cbn [missing_scan]. rewrite seqZ_nil by lia. by destruct m.
  - cbn [missing_scan]. rewrite bit_set_testbit, (proj2 Hm) by lia.
    rewrite seqZ_cons by lia. replace (Z.pred (Z.of_nat (S n))) with (Z.of_nat n) by lia. rewrite filter_cons.
    destruct (bool_decide_reflect (i ∈ R)) as [HR|HR].
    + rewrite decide_False by auto. rewrite IH by lia. done.
    + rewrite decide_True by done. destruct m as [m|]; [by simpl|]. rewrite IH by lia. done.
Qed.

Lemma missing_perm R k :
  NoDup R -> (forall i, i ∈ R -> 0 <= i < k) -> filter (fun j => j ∉ R) (seqZ 0 k) ++ R ≡ₚ seqZ 0 k.
Proof.
  intros Hnd Hin. apply NoDup_Permutation; [|apply NoDup_seqZ|].
  - apply NoDup_app. split_and!; [apply NoDup_filter, NoDup_seqZ| |done].
    intros x Hx. by apply list_elem_of_filter in Hx as [? _].
  - intros x. rewrite elem_of_app, list_elem_of_filter, elem_of_seqZ.
    split; [intros [[_ ?]|Hx]; [done|apply Hin in Hx; lia]|]. intros Hx. destruct (decide (x ∈ R)); auto.
Qed.

Lemma missing_one R k j : j :: R ≡ₚ seqZ 0 k -> filter (fun i => i ∉ R) (seqZ 0 k) = [j].
Proof.
  intros HR. assert (Hnd : NoDup (j :: R)) by (rewrite HR; apply NoDup_seqZ).
  apply NoDup_cons in Hnd as [Hj Hnd].
  assert (Hp : filter (fun i => i ∉ R) (seqZ 0 k) ++ R ≡ₚ [j] ++ R).
  { rewrite missing_perm; [by rewrite <-HR|done|]. intros i Hi.
    assert (i ∈ seqZ 0 k) as Hi' by (rewrite <-HR; by right). apply elem_of_seqZ in Hi'. lia. }
  apply Permutation_app_inv_r in Hp. by apply Permutation_singleton_r in Hp.
Qed.

Section Group.
Context `{CryptoLaws}.
Context (p : cpu) (k : Z) (M : Z -> list Z).
Abbreviation ds := (M <$> seqZ 0 k).
Context (Hm : members_ok k ds).

Lemma member_ok j : 0 <= j < k -> bytes_ok (M j) /\ M j <> [].
Proof using Hm.
  intros Hj. destruct Hm as [_ _ Hb]. rewrite Forall_forall in Hb.
  destruct (Hb (M j)) as (? & ? & _); [|done]. apply list_elem_of_fmap. exists j. split; [done|]. apply elem_of_seqZ. lia.
Qed.

Record group_rep (g : FecGroupState) (R : list Z) (par : bool) : Prop := {
  gr_nodup : NoDup R;
  gr_in : forall i, i ∈ R -> 0 <= i < k;
  gr_mask : mask_rep (g_got_mask g) R;
  gr_bytes : bytes_ok (g_acc g);
  gr_acc : forall i, nth_byte (g_acc g) i = xor_at (M <$> R) i;
  gr_par : if par then g_k g = k /\ g_lens g = (fun d : list Z => zlen d) <$> ds /\ g_parity g = Some (parity_bytes ds)
           else g_parity g = None }.

Lemma new_group_rep : group_rep new_group [] false.
Proof using.
  split; [constructor|by intros i ?%elem_of_nil| |constructor|done|done].
  split; [done|]. intros i Hi. cbn. rewrite Z.bits_0. symmetry. apply bool_decide_eq_false. by intros ?%elem_of_nil.
Qed.

(** XORing the parity with the members that arrived yields the missing one. *)
Lemma recover_bytes g R j :
  group_rep g R true -> j :: R ≡ₚ seqZ 0 k ->
  let n := Z.to_nat (nth_byte (g_lens g) (Z.to_nat j)) in
  let acc := if (length (g_acc g) <? n)%nat then resize0 n (g_acc g) else g_acc g in
  xor_combine p (replicate n 0) (parity_bytes ds) acc = M j.
Proof using Hm.
  intros Hg HR n acc. destruct (gr_par _ _ _ Hg) as (_ & Hl & _).
  assert (Hj : 0 <= j < k).
  { assert (j ∈ seqZ 0 k) as Hi by (rewrite <-HR; by left). apply elem_of_seqZ in Hi. lia. }
  assert (Hn : n = length (M j)).
  { subst n. rewrite Hl. unfold nth_byte. rewrite !list_lookup_fmap, lookup_seqZ_lt by lia. simpl.
    rewrite Z.add_0_l, Z2Nat.id by lia. apply Nat2Z.id. }
  assert (Hds : Forall bytes_ok ds).
  { destruct Hm as [_ _ Hb]. eapply Forall_impl; [exact Hb|]. by intros ? (? & _). }
  assert (Hmax : (n <= max_len ds)%nat).
  { rewrite Hn. apply max_len_elem, list_elem_of_fmap. exists j. split; [done|]. apply elem_of_seqZ. lia. }
  assert (Hacc : bytes_ok acc /\ (n <= length acc)%nat /\ forall i, nth_byte acc i = xor_at (M <$> R) i).
  { subst acc. destruct (Nat.ltb_spec (length (g_acc g)) n).
    - split_and!; [apply bytes_resize0, Hg|rewrite length_resize0; lia|]. intros i.
      rewrite nth_byte_resize0 by lia. apply Hg.
    - split_and!; [apply Hg|done|apply Hg]. }
  destruct Hacc as (Hab & Hal & Hax). rewrite xor_combine_eq by (done || by apply parity_bytes_ok).
  rewrite xor_onto_zip, length_replicate, length_parity_bytes. rewrite !Nat.min_l by lia.
  rewrite drop_ge, app_nil_r by (rewrite length_replicate; lia).
  apply list_eq_nth.
  - rewrite length_zip_with, !length_take, length_parity_bytes. lia.
  - intros i Hi. rewrite length_zip_with, !length_take, length_parity_bytes in Hi.
    assert (Hz : nth_byte (xor_zip (take n (parity_bytes ds)) (take n acc)) i
      = Z.lxor (nth_byte (parity_bytes ds) i) (nth_byte acc i)).
    { unfold nth_byte. rewrite lookup_zip_with, !lookup_take_lt by lia.
      destruct (lookup_lt_is_Some_2 (parity_bytes ds) i) as [x ->]; [rewrite length_parity_bytes; lia|].
      destruct (lookup_lt_is_Some_2 acc i) as [y ->]; [lia|]. done. }
    rewrite Hz, nth_parity_bytes, Hax, <-(xor_at_perm _ _ i (fmap_Permutation M _ _ HR)).
    cbn [fmap list_fmap xor_at foldr]. rewrite Z.lxor_assoc, Z.lxor_nilpotent, Z.lxor_0_r. done.
Qed.

Lemma try_recover_spec inner start g R par :
  fi_groups inner !! start = Some g -> group_rep g R par ->
  (par = false \/ Z.of_nat (length R) < k - 1 -> try_recover p inner start k = (inner, None)) /\
  (forall j, par = true -> j :: R ≡ₚ seqZ 0 k -> is_u32 (start + j) ->
     try_recover p inner start k =
       ({| fi_groups := delete start (fi_groups inner); fi_done := mark_done (fi_done inner) start k;
           fi_recovered := u64_wrap (fi_recovered inner + 1); fi_lost := u64_wrap (fi_lost inner) |}, Some (start + j, M j))).
Proof using Hm.
  intros Hl Hg. unfold try_recover. rewrite Hl. pose proof (mo_k _ _ Hm) as Hk. split.
  - intros Hc. destruct (Z.eqb_spec (g_k g) 0); [done|]. destruct par; pose proof (gr_par _ _ _ Hg) as Hpar; simpl in Hpar;
      [|by rewrite Hpar]. destruct Hc as [|Hc]; [done|]. destruct Hpar as (Hgk & Hgl & ->).
    rewrite Hgk, (missing_scan_spec _ R), Z2Nat.id by (exact (gr_mask _ _ _ Hg) || lia). cbn [option_list app].
    pose proof (Permutation_length (missing_perm R k (gr_nodup _ _ _ Hg) (gr_in _ _ _ Hg))) as Hpl.
    rewrite length_app, length_seqZ in Hpl.
    destruct (filter _ _) as [|x [|y l]]; [simpl in Hpl; lia|simpl in Hpl; lia|done].
  - intros j -> HR Hj32. destruct (gr_par _ _ _ Hg) as (Hgk & Hgl & Hgp). rewrite Hgp, Hgk.
    destruct (Z.eqb_spec k 0); [lia|].
    rewrite (missing_scan_spec _ R), Z2Nat.id by (exact (gr_mask _ _ _ Hg) || lia). cbn [option_list app].
    rewrite (missing_one R k j HR). change (option_list None ++ [j]) with [j]. cbv zeta iota beta.
    rewrite (recover_bytes g R j Hg HR), (u32_wrap_id (start + j)) by done. f_equal. f_equal. f_equal. unfold lost_count. cbn [g_k g_got_mask].
    assert (Hfull : mask_rep (Z.lor (g_got_mask g) (Z.shiftl 1 j)) (j :: R)).
    { apply mask_rep_add; [|apply Hg]. assert (j ∈ seqZ 0 k) as Hi by (rewrite <-HR; by left). apply elem_of_seqZ in Hi. lia. }
    assert (filter (fun i => bit_set (Z.lor (g_got_mask g) (Z.shiftl 1 j)) i = false) (seqZ 0 k) = []) as ->; [|simpl; lia].
    destruct (filter _ _) as [|x l] eqn:E; [done|].
    assert (Hx : x ∈ filter (fun i => bit_set (Z.lor (g_got_mask g) (Z.shiftl 1 j)) i = false) (seqZ 0 k)) by (rewrite E; by left).
    apply list_elem_of_filter in Hx as [Hb Hx]. rewrite <-HR in Hx. pose proof Hx as Hx'. rewrite HR in Hx'. apply elem_of_seqZ in Hx'.
    rewrite bit_set_testbit, (proj2 Hfull) in Hb by lia. by apply bool_decide_eq_false in Hb.
Qed.

(** *** The decoder around one group *)

Context (ic : option InnerCipher) (start : Z).
Context (Hstart : is_group_start k start) (Hu32 : start + k <= U32_MAX).

Definition group_of (d : FecDecoder) : FecGroupState := default new_group (fi_groups (fd_inner d) !! start).

(** The group is active: not bypassed, not retired, not done. *)
Record dec_ok (d : FecDecoder) : Prop := {
  do_static : fd_static_single d = false;
  do_k : fd_k d = k;
  do_full : fd_full_mask d = Z.ones k;
  do_ic : fd_ic d = ic;
  do_fence : forall i, 0 <= i < k -> FecRxFenceState_bypass_data (fd_fence d) (start + i) = false;
  do_cleanup : fd_cleanup_before d <= start;
  do_retired : fd_retired_before d <= start;
  do_done_len : length (fi_done (fd_inner d)) = FEC_DONE_CACHE;
  do_done : is_done (fi_done (fd_inner d)) start k = false }.

Definition finished (d : FecDecoder) : Prop :=
  is_done (fi_done (fd_inner d)) start k = true /\ fi_groups (fd_inner d) !! start = None.

Lemma entry_spec gs : exists gs', entry gs start = (gs', default new_group (gs !! start)) /\
  gs' !! start = Some (default new_group (gs !! start)).
Proof using.
  unfold entry. destruct (gs !! start) as [g|] eqn:E.
  - rewrite bool_decide_eq_false_2 by done. rewrite andb_false_r, E. by exists gs.
  - match goal with |- context [if ?b then ?x else gs] => set (gs1 := if b then x else gs) end.
    assert (gs1 !! start = None) as ->.
    { subst gs1. destruct (_ && _); [|done]. destruct (oldest_start gs) as [o|]; [|done].
      rewrite lookup_delete. by case_decide. }
    exists (<[start := new_group]> gs1). by rewrite lookup_insert_eq.
Qed.

Lemma done_slot_lt : (done_slot start k < FEC_DONE_CACHE)%nat.
Proof using Hm Hstart.
  unfold done_slot, FEC_DONE_MASK, FEC_DONE_CACHE. change 255 with (Z.ones 8).
  rewrite Z.land_ones by lia. pose proof (Z.mod_pos_bound ((start - 1) / k) (2 ^ 8)). lia.
Qed.

Lemma mark_done_spec done : length done = FEC_DONE_CACHE -> is_done (mark_done done start k) start k = true.
Proof using Hm Hstart.
  intros Hl. unfold is_done, mark_done. destruct Hstart as [Hs _].
  destruct (Z.eqb_spec start 0); [lia|]. cbn [negb andb].
  rewrite list_lookup_insert_eq by (rewrite Hl; apply done_slot_lt). simpl. apply Z.eqb_refl.
Qed.

Lemma group_start_member i : 0 <= i < k -> start + i - ((start + i - 1) mod k) = start.
Proof using Hm Hstart.
  intros Hi. destruct Hstart as [Hs Hz]. replace (start + i - 1) with (i + (start - 1)) by lia.
  rewrite Z.add_mod, Hz, Z.add_0_r, Z.mod_mod, Z.mod_small by lia. lia.
Qed.

Lemma retire_keeps d e :
  dec_ok d -> dec_ok (maybe_retire_old_groups_actor d e) /\
  group_of (maybe_retire_old_groups_actor d e) = group_of d.
Proof using Hm Hstart.
  intros Hd. unfold maybe_retire_old_groups_actor. destruct (_ || _); [done|].
  destruct (_ || _); [done|]. split; [by destruct Hd|]. unfold group_of. cbn.
  rewrite map_lookup_filter. destruct (fi_groups (fd_inner d) !! start) as [g|]; [|done]. cbn.
  rewrite option_guard_True; [done|]. pose proof (do_cleanup _ Hd). cbn. lia.
Qed.

Lemma retire_finished d e : finished d -> finished (maybe_retire_old_groups_actor d e).
Proof using.
  intros [H1 H2]. unfold maybe_retire_old_groups_actor. destruct (_ || _); [done|].
  destruct (_ || _); [done|]. split; [done|]. cbn. rewrite map_lookup_filter, H2. done.
Qed.

Lemma not_retired d seq : dec_ok d -> start <= seq -> retired d seq = false.
Proof using.
  intros Hd Hs. unfold retired. pose proof (do_retired _ Hd).
  destruct (Z.ltb_spec seq (fd_retired_before d)); [lia|]. apply andb_false_r.
Qed.

(** The decoder after the group was replaced by [g]. *)
Lemma with_group_ok d gs g R par :
  dec_ok d -> group_rep g R par ->
  let d' := with_inner d (with_groups (fd_inner d) (<[start := g]> gs)) in
  dec_ok d' /\ group_rep (group_of d') R par.
Proof using.
  intros Hd Hg d'. split; [by destruct Hd|]. unfold group_of, d'. cbn. by rewrite lookup_insert_eq.
Qed.

Lemma finish_ok d gs rc lo :
  dec_ok d -> finished (with_inner d {| fi_groups := delete start gs; fi_done := mark_done (fi_done (fd_inner d)) start k;
                                        fi_recovered := rc; fi_lost := lo |}).
Proof using Hm Hstart.
  intros Hd. split; cbn; [apply mark_done_spec, Hd|apply lookup_delete_eq].
Qed.

Lemma push_rep g R par i :
  group_rep g R par -> i ∉ R -> 0 <= i < k ->
  group_rep {| g_k := g_k g; g_lens := g_lens g; g_got_mask := Z.lor (g_got_mask g) (Z.shiftl 1 i);
               g_acc := xor_into p (grow_acc (g_acc g) (M i)) (M i); g_parity := g_parity g |} (i :: R) par.
Proof using Hm.
  intros Hg Hi Hik. destruct (member_ok i Hik) as [Hb _].
  destruct (grow_acc_spec (g_acc g) (M i) (gr_bytes _ _ _ Hg)) as (Hgb & Hgl & _ & Hgn).
  split; cbn [g_k g_lens g_got_mask g_acc g_parity].
  - constructor; [done|apply Hg].
  - intros x [->|Hx]%elem_of_cons; [done|by apply (gr_in _ _ _ Hg)].
  - apply mask_rep_add; [lia|apply Hg].
  - rewrite xor_into_eq by done. by apply bytes_xor_bytes.
  - intros x. rewrite xor_into_eq by done. rewrite nth_byte_xor, Hgn, (gr_acc _ _ _ Hg) by lia.
    rewrite fmap_cons. cbn [xor_at foldr]. apply Z.lxor_comm.
  - exact (gr_par _ _ _ Hg).
Qed.

Lemma on_data_actor_eq d i expected :
  dec_ok d -> 0 <= i < k ->
  on_data_actor p d (start + i) (M i) expected =
    (let '(gs, g) := entry (fi_groups (fd_inner d)) start in
     if bit_set (g_got_mask g) i then (with_inner d (with_groups (fd_inner d) gs), None)
     else if Z.lor (g_got_mask g) (Z.shiftl 1 i) =? Z.ones k then
       (with_inner d {| fi_groups := delete start gs; fi_done := mark_done (fi_done (fd_inner d)) start k;
                        fi_recovered := fi_recovered (fd_inner d); fi_lost := fi_lost (fd_inner d) |}, None)
     else
       let g' := {| g_k := g_k g; g_lens := g_lens g; g_got_mask := Z.lor (g_got_mask g) (Z.shiftl 1 i);
                    g_acc := xor_into p (grow_acc (g_acc g) (M i)) (M i); g_parity := g_parity g |} in
       let '(inner', r) := try_recover p (with_groups (fd_inner d) (<[start := g']> gs)) start k in
       (with_inner d inner', r)).
Proof using Hm Hstart.
  intros Hd Hi. destruct (member_ok i Hi) as [_ Hne]. destruct Hstart as [Hs1 Hs2]. unfold on_data_actor.
  rewrite (do_static _ Hd), (do_fence _ Hd) by done.
  destruct (Nat.eqb_spec (length (M i)) 0) as [E|]; [by destruct (M i)|].
  destruct (Z.eqb_spec (start + i) 0); [lia|]. cbn [orb].
  fold (retired d (start + i)). rewrite not_retired by (done || lia).
  rewrite (do_k _ Hd), (do_full _ Hd), group_start_member, (do_done _ Hd) by done.
  replace (start + i - start) with i by lia. done.
Qed.

Lemma member_u32 j R : j :: R ≡ₚ seqZ 0 k -> is_u32 (start + j).
Proof using Hstart Hu32.
  intros HR. assert (j ∈ seqZ 0 k) as Hj by (rewrite <-HR; by left). apply elem_of_seqZ in Hj.
  destruct Hstart. unfold is_u32. lia.
Qed.

Lemma data_step d R par i expected :
  dec_ok d -> group_rep (group_of d) R par -> i ∉ R -> 0 <= i < k ->
  let r := on_data_actor p d (start + i) (M i) expected in
  (Z.of_nat (length R) + 1 = k -> r.2 = None /\ finished r.1) /\
  (forall j, par = true -> j :: i :: R ≡ₚ seqZ 0 k -> r.2 = Some (start + j, M j) /\ finished r.1) /\
  (Z.of_nat (length R) + 1 < k -> par = false \/ Z.of_nat (length R) + 1 < k - 1 ->
     r.2 = None /\ dec_ok r.1 /\ group_rep (group_of r.1) (i :: R) par).
Proof using Hm Hstart Hu32.
  intros Hd Hg Hi Hik r. subst r. rewrite on_data_actor_eq by done.
  destruct (entry_spec (fi_groups (fd_inner d))) as (gs & -> & Hgs). fold (group_of d) in *.
  rewrite bit_set_testbit, (proj2 (gr_mask _ _ _ Hg)), bool_decide_eq_false_2 by (done || lia).
  pose proof (push_rep _ _ _ _ Hg Hi Hik) as Hg'. cbv zeta. set (g' := {| g_k := _ |}) in *.
  pose proof (mask_rep_full _ (i :: R) k (mo_k _ _ Hm) (gr_mask _ _ _ Hg') (gr_nodup _ _ _ Hg') (gr_in _ _ _ Hg')) as Hfull.
  cbn [length] in Hfull. change (g_got_mask g') with (Z.lor (g_got_mask (group_of d)) (Z.shiftl 1 i)) in Hfull.
  destruct (Z.eqb_spec (Z.lor (g_got_mask (group_of d)) (Z.shiftl 1 i)) (Z.ones k)) as [E|E].
  - apply Hfull in E. cbn [fst snd]. split_and!; [intros _; split; [done|by apply finish_ok]| |lia].
    intros j _ HR%Permutation_length. rewrite length_seqZ in HR. simpl in HR. lia.
  - destruct (try_recover_spec (with_groups (fd_inner d) (<[start := g']> gs)) start g' (i :: R) par) as [Hno Hyes];
      [by cbn; rewrite lookup_insert_eq|done|]. split_and!.
    + intros Hl. exfalso. apply E, Hfull. lia.
    + intros j Hp HR. rewrite (Hyes j Hp HR (member_u32 j _ HR)). cbn [fst snd]. split; [done|]. cbn. by apply finish_ok.
    + intros Hl Hc. rewrite Hno by (destruct Hc; [by left|right; cbn [length]; lia]). cbn [fst snd].
      split; [done|]. by apply with_group_ok.
Qed.

Lemma store_parity_step d R :
  dec_ok d -> group_rep (group_of d) R false ->
  let r := store_parity p d start k ((fun x : list Z => zlen x) <$> ds) (parity_bytes ds) in
  (forall j, j :: R ≡ₚ seqZ 0 k -> r.2 = Some (Some (start + j, M j)) /\ finished r.1) /\
  (Z.of_nat (length R) < k - 1 -> r.2 = Some None /\ dec_ok r.1 /\ group_rep (group_of r.1) R true).
Proof using Hm Hstart Hu32.
  intros Hd Hg r. subst r. unfold store_parity.
  rewrite not_retired, (do_k _ Hd), (do_done _ Hd) by (done || lia). cbn [orb].
  destruct (entry_spec (fi_groups (fd_inner d))) as (gs & -> & Hgs). fold (group_of d) in *.
  rewrite (gr_par _ _ _ Hg). set (g' := {| g_k := k |}).
  assert (Hg' : group_rep g' R true) by (split; try apply Hg; done).
  destruct (try_recover_spec (with_groups (fd_inner d) (<[start := g']> gs)) start g' R true) as [Hno Hyes];
    [by cbn; rewrite lookup_insert_eq|done|]. split.
  - intros j HR. rewrite (Hyes j eq_refl HR (member_u32 j _ HR)). cbn [fst snd]. split; [done|]. cbn. by apply finish_ok.
  - intros Hl. rewrite Hno by (right; lia). cbn [fst snd]. split; [done|]. by apply with_group_ok.
Qed.

Lemma parity_step d R expected :
  dec_ok d -> group_rep (group_of d) R false ->
  let r := on_control_actor p d (parity_of ic start ds) expected in
  (forall j, j :: R ≡ₚ seqZ 0 k -> r.2 = Ok (Some (start + j, M j)) /\ finished r.1) /\
  (Z.of_nat (length R) < k - 1 -> r.2 = Ok None /\ dec_ok r.1 /\ group_rep (group_of r.1) R true).
Proof using All.
  intros Hd Hg r. subst r. destruct (retire_keeps d expected Hd) as [Hd1 Hg1].
  unfold on_control_actor. change (control_kind (parity_of ic start ds)) with (@Ok Z proto_error CONTROL_KIND_FEC_PARITY).
  cbv iota beta. rewrite Z.eqb_refl. unfold on_parity_actor.
  pose proof (do_k _ Hd) as Hk. assert (Hmd : members_ok (fd_k d) ds) by by rewrite Hk.
  rewrite (do_static _ Hd), parity_header_of by (rewrite ?Hk; done || (destruct Hstart; unfold_ints; pose proof (mo_k _ _ Hm); lia)).
  set (d1 := maybe_retire_old_groups_actor d expected) in *.
  assert (Hmd1 : members_ok (fd_k d1) ds) by by rewrite (do_k _ Hd1).
  rewrite not_retired by (done || lia).
  assert (parity_body d1 (parity_of ic start ds) start = Ok ((fun x : list Z => zlen x) <$> ds, parity_bytes ds)) as ->.
  { rewrite <-(do_ic _ Hd1). by apply parity_body_of. }
  rewrite (nth_parity_k k) by done.
  destruct (store_parity_step d1 R Hd1) as [Hyes Hno]; [by rewrite Hg1|].
  destruct (store_parity p d1 start k _ _) as [d2 r2]. cbn [fst snd] in *. split.
  - intros j HR. destruct (Hyes j HR) as [-> Hf]. cbn [fst snd]. split; [done|by apply retire_finished].
  - intros Hl. destruct (Hno Hl) as (-> & Hd2 & Hg2). cbn [fst snd].
    destruct (retire_keeps d2 expected Hd2) as [Hd3 Hg3]. by rewrite Hg3.
Qed.

(** *** Any arrival order *)

Inductive arrival := Member (i : Z) (expected : Z) | Parity (expected : Z).
Definition feed (d : FecDecoder) (a : arrival) : FecDecoder * option (Z * list Z) :=
  match a with
  | Member i expected => on_data_actor p d (start + i) (M i) expected
  | Parity expected =>
      let '(d', r) := on_control_actor p d (parity_of ic start ds) expected in
      (d', match r with Ok o => o | Err _ => None end)
  end.
Fixpoint feed_all (d : FecDecoder) (l : list arrival) : FecDecoder * list (Z * list Z) :=
  match l with
  | [] => (d, [])
  | a :: l' => let '(d1, o1) := feed d a in
               let '(d2, o2) := feed_all d1 l' in (d2, option_list o1 ++ o2)
  end.
Definition arrival_id (a : arrival) : option Z := match a with Member i _ => Some i | Parity _ => None end.

(** The members other than [j] that have not arrived. *)
Definition waiting (j : Z) (R : list Z) : list Z := filter (fun i => i ∉ j :: R) (seqZ 0 k).

Lemma waiting_perm j R :
  NoDup R -> (forall i, i ∈ R -> 0 <= i < k) -> 0 <= j < k -> j ∉ R -> waiting j R ++ j :: R ≡ₚ seqZ 0 k.
Proof using.
  intros Hnd Hin Hj HjR. apply missing_perm; [by constructor|].
  intros i [->|Hi]%elem_of_cons; [done|by apply Hin].
Qed.

Lemma waiting_member j R i :
  NoDup R -> (forall i, i ∈ R -> 0 <= i < k) -> 0 <= j < k -> j ∉ R -> i ∈ waiting j R ->
  i ∉ R /\ i <> j /\ 0 <= i < k /\ waiting j R ≡ₚ i :: waiting j (i :: R).
Proof using.
  intros Hnd Hin Hj HjR Hi. pose proof Hi as [Hni Hs%elem_of_seqZ]%list_elem_of_filter.
  rewrite not_elem_of_cons in Hni. destruct Hni as [Hij HiR]. split_and!; try done; try lia.
  apply (Permutation_app_inv_r (j :: R)). rewrite waiting_perm by done.
  rewrite <-(waiting_perm j (i :: R)); [|by constructor| |done|by rewrite not_elem_of_cons].
  - cbn [app]. rewrite (Permutation_swap i j R). symmetry. apply Permutation_middle.
  - intros x [->|Hx]%elem_of_cons; [lia|by apply Hin].
Qed.

(** What the state promises about the arrivals [l] still to come. *)
Definition pending_arrivals (d : FecDecoder) (j : Z) (R : list Z) (par : bool) (l : list arrival) : Prop :=
  dec_ok d /\ group_rep (group_of d) R par /\ j ∉ R /\
  arrival_id <$> l ≡ₚ (if par then [] else [None]) ++ (Some <$> waiting j R).

(** One arrival: the last one completes the group and recovers member [j], any
    other one is only recorded. *)
Definition arrival_outcome (d' : FecDecoder) (o : option (Z * list Z)) (j : Z) (R : list Z) (l : list arrival) : Prop :=
  (l = [] /\ o = Some (start + j, M j) /\ finished d' /\ waiting j R = []) \/
  (l <> [] /\ o = None /\ exists par', pending_arrivals d' j R par' l).

Lemma member_arrival i e l d R par j :
  0 <= j < k -> pending_arrivals d j R par (Member i e :: l) ->
  i ∉ R /\ i <> j /\ 0 <= i < k /\ waiting j R ≡ₚ i :: waiting j (i :: R) /\
  arrival_outcome (feed d (Member i e)).1 (feed d (Member i e)).2 j (i :: R) l.
Proof using All.
  intros Hj (Hd & Hg & HjR & Hl). pose proof (gr_nodup _ _ _ Hg) as Hnd. pose proof (gr_in _ _ _ Hg) as Hin.
  pose proof (waiting_perm j R Hnd Hin Hj HjR) as HW. rewrite fmap_cons in Hl. cbn [arrival_id] in Hl.
  apply Permutation_length in HW. rewrite length_app, length_seqZ in HW. cbn [length] in HW.
  assert (Hi : i ∈ waiting j R).
  { assert (Some i ∈ (if par then [] else [None]) ++ (Some <$> waiting j R)) as Hi by (rewrite <-Hl; by left).
    apply elem_of_app in Hi as [Hi|Hi]; [destruct par; [by apply elem_of_nil in Hi|by apply list_elem_of_singleton in Hi]|].
    by apply list_elem_of_fmap in Hi as (? & [= <-] & ?). }
  destruct (waiting_member j R i Hnd Hin Hj HjR Hi) as (HiR & Hij & Hik & HWi).
  assert (Hl' : arrival_id <$> l ≡ₚ (if par then [] else [None]) ++ (Some <$> waiting j (i :: R))).
  { apply (Permutation_cons_inv (a := Some i)). rewrite Hl, HWi, fmap_cons. symmetry. apply Permutation_middle. }
  assert (Hlen' : length (waiting j R) = S (length (waiting j (i :: R)))) by by rewrite HWi.
  split_and!; [done|done|lia|lia|done|]. cbn [feed].
  destruct (data_step d R par i e Hd Hg HiR Hik) as (_ & Hrec & Hgo).
  destruct (on_data_actor p d (start + i) (M i) e) as [d1 o1]. cbn [fst snd] in *.
  destruct l as [|a l]; [left|right].
  - apply Permutation_nil in Hl'. destruct par; [|done]. apply fmap_nil_inv in Hl'.
    destruct (Hrec j eq_refl) as [-> Hf]; [|done].
    rewrite <-(waiting_perm j (i :: R)), Hl'; [done|by constructor| |done|by rewrite not_elem_of_cons].
    intros x [->|Hx]%elem_of_cons; [lia|by apply Hin].
  - apply Permutation_length in Hl' as Hll. rewrite length_app, !length_fmap in Hll. cbn [length] in Hll.
    destruct Hgo as (-> & Hd1 & Hg1); [lia|destruct par; [right; simpl in Hll; lia|by left]|].
    split_and!; [done|done|]. exists par. split_and!; [done|done|by rewrite not_elem_of_cons|done].
Qed.

Lemma parity_arrival e l d R par j :
  0 <= j < k -> pending_arrivals d j R par (Parity e :: l) ->
  (on_control_actor p d (parity_of ic start ds) e).2 = Ok (feed d (Parity e)).2 /\
  arrival_outcome (feed d (Parity e)).1 (feed d (Parity e)).2 j R l.
Proof using All.
  intros Hj (Hd & Hg & HjR & Hl). pose proof (gr_nodup _ _ _ Hg) as Hnd. pose proof (gr_in _ _ _ Hg) as Hin.
  pose proof (waiting_perm j R Hnd Hin Hj HjR) as HW. rewrite fmap_cons in Hl. cbn [arrival_id] in Hl.
  destruct par.
  { exfalso. assert (None ∈ [] ++ (Some <$> waiting j R)) as Hx by (rewrite <-Hl; by left).
    by apply list_elem_of_fmap in Hx as (? & ? & _). }
  apply Permutation_cons_inv in Hl. destruct (parity_step d R e Hd Hg) as [Hrec Hgo]. cbn [feed].
  destruct (on_control_actor p d _ e) as [d1 r1]. cbn [fst snd] in *. destruct l as [|a l].
  - apply Permutation_nil, fmap_nil_inv in Hl. rewrite Hl in HW.
    destruct (Hrec j HW) as [-> Hf]. split; [done|by left].
  - apply Permutation_length in HW. rewrite length_app, length_seqZ in HW. cbn [length] in HW.
    apply Permutation_length in Hl as Hll. rewrite !length_fmap in Hll. cbn [length] in Hll.
    destruct Hgo as (-> & Hd1 & Hg1); [lia|]. split; [done|right].
    split_and!; [done|done|]. exists true. by split_and!.
Qed.

Lemma feed_all_recovers l d R par j :
  0 <= j < k -> l <> [] -> pending_arrivals d j R par l ->
  exists d', feed_all d l = (d', [(start + j, M j)]) /\ finished d'.
Proof using All.
  intros Hj. revert d R par. induction l as [|a l IH]; intros d R par Hne Hp; [done|].
  assert (exists R', arrival_outcome (feed d a).1 (feed d a).2 j R' l) as [R' Ho].
  { destruct a as [i e|e]; eexists; [eapply member_arrival|eapply parity_arrival]; done. }
  cbn [feed_all]. destruct (feed d a) as [d1 o1]. cbn [fst snd] in Ho.
  destruct Ho as [(-> & -> & Hf & _)|(Hl & -> & par' & Hp')]; [by exists d1|].
  destruct (IH d1 R' par' Hl Hp') as (d' & -> & Hf). by exists d'.
Qed.
End Group.

(** ** Bounded memory *)

Lemma oldest_start_elem gs o : oldest_start gs = Some o -> is_Some (gs !! o).
Proof.
  unfold oldest_start. destruct (elements (dom gs)) as [|x l] eqn:E; [done|]. intros [= <-].
  assert (Hin : forall y, y ∈ x :: l -> is_Some (gs !! y)).
  { intros y Hy. rewrite <-E in Hy. by apply elem_of_elements, elem_of_dom in Hy. }
  clear E. assert (Hx : foldr Z.min x l ∈ x :: l).
  { clear Hin. induction l as [|y l IH]; simpl; [by left|].
    destruct (Z.min_spec y (foldr Z.min x l)) as [[_ ->]|[_ ->]].
    - right; left.
    - apply elem_of_cons in IH as [->|IH]; [by left|right; by right]. }
  by apply Hin.
Qed.

Definition groups_bounded (d : FecDecoder) : Prop := (size (fi_groups (fd_inner d)) <= FEC_MAX_PENDING_GROUPS)%nat.

Lemma entry_bounded gs start :
  (size gs <= FEC_MAX_PENDING_GROUPS)%nat -> (size (entry gs start).1 <= FEC_MAX_PENDING_GROUPS)%nat.
Proof.
  intros Hs. unfold entry. destruct (gs !! start) as [g|] eqn:E.
  - rewrite bool_decide_eq_false_2 by done. by rewrite andb_false_r, E.
  - rewrite bool_decide_eq_true_2, andb_true_r by done.
    destruct (Nat.leb_spec FEC_MAX_PENDING_GROUPS (size gs)).
    + destruct (oldest_start gs) as [o|] eqn:Eo.
      * apply oldest_start_elem in Eo as [g Eo].
        assert (delete o gs !! start = None) as -> by (rewrite lookup_delete; by case_decide).
        cbn [fst]. rewrite map_size_insert_None by (rewrite lookup_delete; by case_decide).
        rewrite map_size_delete, Eo. unfold FEC_MAX_PENDING_GROUPS in *. simpl. lia.
      * unfold oldest_start in Eo. destruct (elements (dom gs)) as [|x l] eqn:Ed; [|done].
        apply elements_empty_iff, leibniz_equiv, dom_empty_iff_L in Ed. subst gs. rewrite map_size_empty in *. unfold FEC_MAX_PENDING_GROUPS in *. lia.
    + rewrite E. cbn [fst]. rewrite map_size_insert_None by done. lia.
Qed.

Lemma try_recover_bounded p inner start k inner' r :
  try_recover p inner start k = (inner', r) -> (size (fi_groups inner') <= size (fi_groups inner))%nat.
Proof.
  unfold try_recover. destruct (fi_groups inner !! start) as [g|] eqn:E; [|by intros [= <- _]].
  destruct (g_k g =? 0); [by intros [= <- _]|]. destruct (g_parity g); [|by intros [= <- _]].
  destruct (missing_scan _ _ _ _); [|by intros [= <- _]]. intros [= <- _]. cbn. rewrite map_size_delete, E. lia.
Qed.

Lemma filter_size (P : Z * FecGroupState -> Prop) `{!forall x, Decision (P x)} (gs : gmap Z FecGroupState) :
  (size (filter P gs) <= size gs)%nat.
Proof. apply map_subseteq_size, map_filter_subseteq. Qed.

Lemma insert_entry_bounded gs start g :
  (size gs <= FEC_MAX_PENDING_GROUPS)%nat ->
  (size (<[start := g]> (entry gs start).1) <= FEC_MAX_PENDING_GROUPS)%nat.
Proof.
  intros Hs. pose proof (entry_bounded gs start Hs) as He.
  destruct (entry_spec start gs) as (gs' & E & Hl). rewrite E in *. cbn [fst] in *.
  by rewrite map_size_insert_Some by done.
Qed.

Lemma retire_bounded d e : groups_bounded d -> groups_bounded (maybe_retire_old_groups_actor d e).
Proof.
  unfold groups_bounded, maybe_retire_old_groups_actor. intros Hd. destruct (_ || _); [done|].
  destruct (_ || _); [done|]. cbn. etransitivity; [apply filter_size|done].
Qed.

Lemma on_data_actor_bounded p d seq frame e : groups_bounded d -> groups_bounded (on_data_actor p d seq frame e).1.
Proof.
  intros Hd. unfold on_data_actor. destruct (_ || _ || _); [done|].
  destruct (FecRxFenceState_bypass_data _ _); [destruct (_ =? 0); [by apply retire_bounded|done]|].
  destruct (_ && _); [done|]. destruct (is_done _ _ _); [done|].
  set (start := seq - _). pose proof (entry_bounded _ start Hd) as He.
  pose proof (fun g => insert_entry_bounded _ start g Hd) as Hi.
  destruct (entry _ start) as [gs g]. cbn [fst] in *. destruct (negb _); [done|].
  destruct (_ =? _); [unfold groups_bounded; cbn; rewrite map_size_delete; destruct (gs !! start); cbn; lia|].
  destruct (try_recover p _ start (fd_k d)) as [inner' r] eqn:Er. cbn [fst].
  apply try_recover_bounded in Er. unfold groups_bounded. etransitivity; [exact Er|apply Hi].
Qed.

Lemma store_parity_bounded p d start k lens pb : groups_bounded d -> groups_bounded (store_parity p d start k lens pb).1.
Proof.
  intros Hd. unfold store_parity. destruct (_ || _); [done|].
  pose proof (entry_bounded _ start Hd) as He. pose proof (fun g => insert_entry_bounded _ start g Hd) as Hi.
  destruct (entry _ start) as [gs g]. cbn [fst] in *. destruct (g_parity g); [done|].
  destruct (try_recover p _ start (fd_k d)) as [inner' r] eqn:Er. cbn [fst].
  apply try_recover_bounded in Er. unfold groups_bounded. etransitivity; [exact Er|apply Hi].
Qed.

Lemma on_control_actor_bounded `{CryptoPrims} p d payload e :
  groups_bounded d -> groups_bounded (on_control_actor p d payload e).1.
Proof.
  intros Hd. unfold on_control_actor. destruct (control_kind payload) as [kind|]; [|done].
  destruct (kind =? CONTROL_KIND_FEC_PARITY).
  - unfold on_parity_actor. destruct (fd_static_single d); [done|]. destruct (parity_header d payload) as [start|]; [|done].
    pose proof (retire_bounded d e Hd) as Hd1. destruct (retired _ _); [done|].
    destruct (parity_body _ _ _) as [[lens pb]|]; [|done].
    pose proof (store_parity_bounded p _ start (nth_byte payload 5) lens pb Hd1) as Hs.
    destruct (store_parity _ _ _ _ _ _) as [d2 [r|]]; cbn in *; [by apply retire_bounded|done].
  - destruct (kind =? CONTROL_KIND_FEC_MODE); [|done]. destruct (FecModeControl_parse payload) as [c|]; [|done].
    cbn [fst]. unfold handle_mode_control_actor. destruct (FecRxFenceState_apply_actor _ _) as [f a].
    destruct (negb a); [done|]. destruct (FecRxFenceState_window _) as [from until]. destruct (from =? 0); [done|].
    apply retire_bounded. unfold groups_bounded. cbn. unfold drop_groups_in_range.
    destruct (from =? 0); [done|]. etransitivity; [apply filter_size|done].
Qed.

(** ** Correctness *)

Lemma finished_silent p k start d i x expected :
  2 <= k <= 64 -> is_group_start k start -> fd_k d = k -> finished k start d -> 0 <= i < k ->
  (on_data_actor p d (start + i) x expected).2 = None.
Proof.
  intros Hk [Hs Hz] Hdk [Hdone _] Hi. unfold on_data_actor. destruct (_ || _ || _); [done|].
  destruct (FecRxFenceState_bypass_data _ _); [done|]. destruct (_ && _); [done|]. rewrite Hdk.
  assert (start + i - ((start + i - 1) mod k) = start) as ->.
  { replace (start + i - 1) with (i + (start - 1)) by lia.
    rewrite Z.add_mod, Hz, Z.add_0_r, Z.mod_mod, Z.mod_small by lia. lia. }
  by rewrite Hdone.
Qed.

Lemma retire_k d e : fd_k (maybe_retire_old_groups_actor d e) = fd_k d.
Proof. unfold maybe_retire_old_groups_actor. destruct (_ || _); [done|]. by destruct (_ || _). Qed.

Lemma on_data_actor_k p d seq x expected : fd_k (on_data_actor p d seq x expected).1 = fd_k d.
Proof.
  unfold on_data_actor. destruct (_ || _ || _); [done|].
  destruct (FecRxFenceState_bypass_data _ _); [destruct (_ =? 0); [apply retire_k|done]|].
  destruct (_ && _); [done|]. destruct (is_done _ _ _); [done|].
  destruct (entry _ _) as [gs g]. destruct (negb _); [done|]. destruct (_ =? _); [done|]. by destruct (try_recover _ _ _ _).
Qed.

Lemma store_parity_k p d s k l b : fd_k (store_parity p d s k l b).1 = fd_k d.
Proof.
  unfold store_parity. destruct (_ || _); [done|]. destruct (entry _ _) as [gs g]. destruct (g_parity g); [done|].
  by destruct (try_recover _ _ _ _).
Qed.

Lemma on_control_actor_k `{CryptoPrims} p d payload expected : fd_k (on_control_actor p d payload expected).1 = fd_k d.
Proof.
  unfold on_control_actor. destruct (control_kind payload) as [kind|]; [|done]. destruct (kind =? CONTROL_KIND_FEC_PARITY).
  - unfold on_parity_actor. destruct (fd_static_single d); [done|]. destruct (parity_header d payload) as [st|]; [|done].
    destruct (retired _ _); [apply retire_k|]. destruct (parity_body _ _ _) as [[lens pb]|]; [|apply retire_k].
    pose proof (store_parity_k p (maybe_retire_old_groups_actor d expected) st (nth_byte payload 5) lens pb) as Hs.
    rewrite retire_k in Hs. destruct (store_parity _ _ _ _ _ _) as [d2 [r|]]; cbn in *; [by rewrite retire_k|done].
  - destruct (kind =? CONTROL_KIND_FEC_MODE); [|done]. destruct (FecModeControl_parse payload) as [c|]; [|done].
    cbn [fst]. unfold handle_mode_control_actor. destruct (FecRxFenceState_apply_actor _ _) as [f a].
    destruct (negb a); [done|]. destruct (FecRxFenceState_window _) as [from until]. destruct (from =? 0); [done|].
    by rewrite retire_k.
Qed.

Lemma feed_all_k `{CryptoPrims} p k M ic start d l : fd_k (feed_all p k M ic start d l).1 = fd_k d.
Proof.
  revert d. induction l as [|a l IH]; intros d; [done|]. cbn [feed_all].
  assert (Hf : fd_k (feed p k M ic start d a).1 = fd_k d).
  { destruct a as [i e|e]; cbn [feed]; [apply on_data_actor_k|].
    pose proof (on_control_actor_k p d (parity_of ic start (M <$> seqZ 0 k)) e) as Hc.
    by destruct (on_control_actor _ _ _ _). }
  destruct (feed _ _ _ _ _ _ _) as [d1 o1]. specialize (IH d1). destruct (feed_all _ _ _ _ _ d1 l). cbn in *. congruence.
Qed.

(** C4: one parity frame repairs any single loss.  The encoder turns a group of
    [k] consecutive payloads into exactly one parity frame; a decoder of the same
    session that receives this frame and all members but one, in any order and
    under any reorder progress, outputs exactly the missing payload with its
    sequence number, once; late copies of any member then produce nothing.
    Plain and sealed parity, every group size and every processor. *)
Theorem fec_repairs_single_loss `{CryptoLaws} p k M ic start e d j l :
  members_ok k (M <$> seqZ 0 k) -> is_group_start k start -> start + k <= U32_MAX ->
  enc_rep e [] -> fe_k e = k -> fe_ic e = ic -> fe_multipath e = true ->
  dec_ok k ic start d -> fi_groups (fd_inner d) !! start = None -> 0 <= j < k ->
  arrival_id <$> l ≡ₚ None :: (Some <$> filter (fun i => i <> j) (seqZ 0 k)) ->
  exists e' d',
    enc_feed p e ((fun i => (start + i, M i)) <$> seqZ 0 k) = (e', [parity_of ic start (M <$> seqZ 0 k)]) /\
    feed_all p k M ic start d l = (d', [(start + j, M j)]) /\
    forall i x expected, 0 <= i < k -> (on_data_actor p d' (start + i) x expected).2 = None.
Proof.
  intros Hm Hst Hu He Hk Hic Hmp Hd Hfree Hj Hl. set (ms := (fun i => (start + i, M i)) <$> seqZ 0 k).
  pose proof (mo_k _ _ Hm) as Hk2.
  assert (Hhead : exists ms', ms = (start, M 0) :: ms').
  { subst ms. rewrite seqZ_cons by lia. rewrite fmap_cons, Z.add_0_r. eauto. }
  assert (Hms1 : default 0 (head ([] ++ ms).*1) = start) by (destruct Hhead as [ms' ->]; done).
  assert (Hms2 : ([] ++ ms).*2 = M <$> seqZ 0 k) by (subst ms; cbn [app]; by rewrite <-list_fmap_compose).
  destruct (enc_feed_group p e [] ms) as (e' & Hfeed & _); try done.
  - right. destruct Hhead as [ms' ->]. exists start, (M 0), ms'. by rewrite Hk.
  - destruct Hhead as [ms' ->]. done.
  - cbn [app]. subst ms. rewrite length_fmap, length_seqZ. lia.
  - subst ms. apply Forall_fmap, Forall_forall. intros i Hi%elem_of_seqZ. cbn.
    destruct (member_ok k M Hm i) as [? ?]; [lia|done].
  - rewrite Hms1, Hms2, Hic in Hfeed. 
    destruct (feed_all_recovers p k M Hm ic start Hst Hu l d [] false j) as (d' & Hf & Hfin); try done.
    + intros ->. by apply Permutation_nil_cons in Hl.
    + split_and!; [done|unfold group_of; rewrite Hfree; apply new_group_rep|by intros ?%elem_of_nil|].
      assert (waiting k j [] = filter (fun i => i <> j) (seqZ 0 k)) as ->; [|exact Hl].
      apply list_filter_iff. intros i.
      rewrite not_elem_of_cons. split; [by intros [? _]|split; [done|by intros ?%elem_of_nil]].
    + exists e', d'. split_and!; [done|done|]. intros i x expected Hi.
      apply (finished_silent p k); try done.
      pose proof (feed_all_k p k M ic start d l) as Hkk. rewrite Hf in Hkk. cbn in Hkk. by rewrite Hkk, (do_k _ _ _ _ Hd).
Qed.

Lemma new_dec_ok k ic start :
  2 <= k <= 64 -> is_group_start k start -> dec_ok k ic start (FecDecoder_new k ic).
Proof.
  intros Hk [Hs Hz]. assert (Hc : clamp_fec_group k = k) by (unfold clamp_fec_group, FEC_MIN_GROUP, FEC_MAX_GROUP; lia).
  split; cbn -[Z.ones replicate is_done]; rewrite ?Hc; try done; try lia.
  - destruct (full_mask_rep k Hk) as [_ Hf]. specialize (Hf ic). cbn in Hf. by rewrite Hc in Hf.
  - intros i Hi. unfold FecRxFenceState_bypass_data. by destruct (start + i =? 0).
  - unfold is_done. destruct (Z.eqb_spec start 0); [lia|]. cbn [negb andb].
    destruct (replicate FEC_DONE_CACHE 0 !! done_slot start k) as [x|] eqn:E; cbn [default from_option id]; [|apply Z.eqb_neq; lia].
    apply lookup_replicate in E as [-> _]. apply Z.eqb_neq. lia.
Qed.

Lemma fec_repairs_single_loss_witness :
  let M := fun i => [i + 1; 7] in
  exists d', feed_all X86Avx2 3 M None 4 (FecDecoder_new 3 None) [Member 2 0; Parity 0; Member 0 0] = (d', [(5, [2; 7])]).
Proof.
  intros M. destruct (fec_repairs_single_loss X86Avx2 3 M None 4 (FecEncoder_new 3 None) (FecDecoder_new 3 None) 1
    [Member 2 0; Parity 0; Member 0 0]) as (_ & d' & _ & H & _).
  - split; [reflexivity|lia|]. repeat constructor; done.
  - split; [lia|reflexivity].
  - done.
  - apply FecEncoder_new_rep.
  - reflexivity.
  - reflexivity.
  - reflexivity.
  - apply new_dec_ok; [lia|]. split; [lia|reflexivity].
  - reflexivity.
  - lia.
  - apply (bool_decide_unpack _). vm_compute. done.
  - exists d'. exact H.
Defined.

Lemma retire_locked_eq d e : maybe_retire_old_groups_locked d (Some e) = maybe_retire_old_groups_actor d e.
Proof. done. Qed.

Lemma cleanup_eq d progress : cleanup_by_reorder_progress d progress = maybe_retire_old_groups_locked d progress.
Proof.
  unfold cleanup_by_reorder_progress, maybe_retire_old_groups_locked.
  by destruct ((fd_cleanup_before d =? 0) || (fd_cleanup_before d <=? fd_retired_before d)).
Qed.

(** One data frame, frame by frame. *)
Fixpoint on_data_each (p : cpu) (d : FecDecoder) (progress : option Z) (frames : list (Z * list Z))
  : FecDecoder * list (Z * list Z) :=
  match frames with
  | [] => (d, [])
  | (seq, frame) :: frames' =>
      let '(d1, r1) := on_data p d progress seq frame in
      let '(d2, r2) := on_data_each p d1 progress frames' in (d2, option_list r1 ++ r2)
  end.

Lemma on_data_locked_static p d seq frame : fd_static_single (on_data_locked p d seq frame).1 = fd_static_single d.
Proof.
  unfold on_data_locked. destruct (is_done _ _ _); [done|]. destruct (entry _ _) as [gs g].
  destruct (negb _); [done|]. destruct (_ =? _); [done|]. by destruct (try_recover _ _ _ _).
Qed.

Lemma retire_static d progress : fd_static_single (maybe_retire_old_groups_locked d progress) = fd_static_single d.
Proof.
  unfold maybe_retire_old_groups_locked. destruct (_ || _); [done|]. destruct progress; [|done]. by destruct (_ || _).
Qed.

Lemma batch_loop_eq p d progress frames :
  fd_static_single d = false -> on_data_batch_loop p d progress frames = on_data_each p d progress frames.
Proof.
  revert d. induction frames as [|[seq frame] frames IH]; intros d Hd; [done|].
  cbn [on_data_batch_loop on_data_each]. unfold on_data. rewrite Hd, orb_false_r, orb_comm, cleanup_eq.
  destruct ((length frame =? 0)%nat || (seq =? 0)); [by rewrite IH|].
  destruct (FecRxFenceState_bypass_data (fd_fence d) seq).
  - destruct (Z.land seq 255 =? 0); [|by rewrite IH]. rewrite IH by by rewrite retire_static. done.
  - destruct (retired d seq); [by rewrite IH|].
    pose proof (on_data_locked_static p d seq frame) as Hs. destruct (on_data_locked p d seq frame) as [d1 r1].
    cbn [fst] in Hs. by rewrite IH by congruence.
Qed.

Lemma each_static p d progress frames : fd_static_single d = true -> on_data_each p d progress frames = (d, []).
Proof.
  intros Hd. induction frames as [|[seq frame] frames IH]; [done|]. cbn [on_data_each]. unfold on_data.
  by rewrite Hd, orb_true_r, IH.
Qed.

(** C27: the two decoders of the source are the same decoder: the mutex version
    whose progress callback returns [e] and the actor version called with [e]
    produce the same state and output for every data frame and every control
    payload, and the batch entry point is the frame-by-frame one. *)
Theorem actor_decoder_equals_mutex_decoder `{CryptoPrims} p d e :
  (forall seq frame, on_data p d (Some e) seq frame = on_data_actor p d seq frame e) /\
  (forall payload, on_control p d (Some e) payload = on_control_actor p d payload e) /\
  (forall progress frames,
     on_data_batch p d progress frames = on_data_each p d progress frames).
Proof.
  split_and!.
  - intros seq frame. unfold on_data, on_data_actor. rewrite cleanup_eq. fold (retired d seq).
    destruct (_ || _ || _); [done|]. destruct (FecRxFenceState_bypass_data _ _); [done|]. by destruct (retired d seq).
  - intros payload. unfold on_control, on_control_actor. destruct (control_kind payload) as [kind|]; [|done].
    destruct (kind =? CONTROL_KIND_FEC_PARITY).
    + unfold on_parity_strict, on_parity_actor. by rewrite cleanup_eq.
    + destruct (kind =? CONTROL_KIND_FEC_MODE); [|done]. destruct (FecModeControl_parse payload) as [c|]; [|done].
      unfold handle_mode_control, handle_mode_control_actor. rewrite <-(apply_actor_eq (fd_fence d) c). done.
  - intros progress frames. unfold on_data_batch. destruct (fd_static_single d) eqn:Hd.
    + rewrite orb_true_r. by rewrite each_static.
    + rewrite orb_false_r. destruct (Nat.eqb_spec (length frames) 0) as [E|]; [by destruct frames|].
      by apply batch_loop_eq.
Qed.

(** The decoder states that traffic can produce. *)
Inductive decoder_reachable `{CryptoPrims} (p : cpu) (k : Z) (ic : option InnerCipher) : FecDecoder -> Prop :=
| dr_new : decoder_reachable p k ic (FecDecoder_new k ic)
| dr_data d seq frame e : decoder_reachable p k ic d -> decoder_reachable p k ic (on_data_actor p d seq frame e).1
| dr_control d payload e : decoder_reachable p k ic d -> decoder_reachable p k ic (on_control_actor p d payload e).1
| dr_reset d : decoder_reachable p k ic d -> decoder_reachable p k ic (FecDecoder_reset_actor d).

(** C39: the memory of the decoder is bounded: no sequence of data frames and
    control payloads, well-formed or hostile, makes it hold more than 512 open
    groups. *)
Theorem pending_groups_bounded `{CryptoPrims} p k ic d :
  decoder_reachable p k ic d -> (size (fi_groups (fd_inner d)) <= FEC_MAX_PENDING_GROUPS)%nat.
Proof.
  induction 1 as [|d seq frame e _ IH|d payload e _ IH|d _ IH].
  - cbn [fd_inner FecDecoder_new fi_groups]. rewrite map_size_empty. unfold FEC_MAX_PENDING_GROUPS. lia.
  - by apply on_data_actor_bounded.
  - by apply on_control_actor_bounded.
  - cbn. rewrite map_size_empty. lia.
Qed.

Lemma pending_groups_bounded_witness :
  (size (fi_groups (fd_inner (on_data_actor OtherCpu (FecDecoder_new 4 None) 9 [1%Z] 0).1)) <= FEC_MAX_PENDING_GROUPS)%nat.
Proof. apply (pending_groups_bounded OtherCpu 4 None). apply dr_data, dr_new. Defined.
