(* ===== verification/Buffer.v ===== *)
(** * The frame pools and the duplicate filter of [src/src/buffer.rs]

    The thread-local pools keep released vectors by capacity class so that the
    data path does not allocate; a vector is its contents and its capacity.  The
    duplicate filter is a direct-mapped table of 4096 sequence numbers. *)
From S2P Require Import Prelude.

(** ** Frame pools *)

Definition FRAME_CLASSES : list Z := [2048; 4096; 8192; 16384; 32768; 65536; 131072].
Definition FRAME_CLASS_LIMITS : list nat := [32; 8; 4; 2; 1; 1; 1]%nat.

Definition frame_class_index (len : Z) : option nat :=
  if (1 <=? len) && (len <=? 2048) then Some 0%nat
  else if (2049 <=? len) && (len <=? 4096) then Some 1%nat
  else if (4097 <=? len) && (len <=? 8192) then Some 2%nat
  else if (8193 <=? len) && (len <=? 16384) then Some 3%nat
  else if (16385 <=? len) && (len <=? 32768) then Some 4%nat
  else if (32769 <=? len) && (len <=? 65536) then Some 5%nat
  else if (65537 <=? len) && (len <=? 131072) then Some 6%nat
  else None.

(** [FRAME_CLASSES.iter().position(|&class| class == capacity)] *)
Definition frame_capacity_class (capacity : Z) : option nat :=
  fst <$> list_find (fun c => c = capacity) FRAME_CLASSES.

Record FrameVec := { fv_data : list Z; fv_capacity : Z }.
Abbreviation FramePools := (list (list FrameVec)).
Definition empty_pools : FramePools := replicate 7 [].

(** A new vector has exactly the requested capacity here; [Vec::with_capacity]
    promises at least that. *)
Definition acquire_frame_vec_recycled (pools : FramePools) (len : Z) : FramePools * FrameVec :=
  if len =? 0 then (pools, {| fv_data := []; fv_capacity := 0 |})
  else
    match frame_class_index len with
    | None => (pools, {| fv_data := []; fv_capacity := len |})
    | Some idx =>
        match default [] (pools !! idx) with
        | v :: rest => (<[idx := rest]> pools, v)
        | [] => (pools, {| fv_data := []; fv_capacity := default 0 (FRAME_CLASSES !! idx) |})
        end
    end.

Definition fv_resize (v : FrameVec) (len : nat) : FrameVec :=
  {| fv_data := resize0 len (fv_data v); fv_capacity := Z.max (fv_capacity v) (Z.of_nat len) |}.

Definition acquire_frame_vec (pools : FramePools) (len : Z) : FramePools * FrameVec :=
  let '(pools, buf) := acquire_frame_vec_recycled pools len in
  let buf := fv_resize buf (Z.to_nat len) in
  (pools, {| fv_data := (fun _ => 0) <$> fv_data buf; fv_capacity := fv_capacity buf |}).

Definition acquire_frame_vec_overwrite (pools : FramePools) (len : Z) : FramePools * FrameVec :=
  let '(pools, buf) := acquire_frame_vec_recycled pools len in
  if zlen (fv_data buf) <? len then (pools, fv_resize buf (Z.to_nat len))
  else (pools, {| fv_data := take (Z.to_nat len) (fv_data buf); fv_capacity := fv_capacity buf |}).

Definition release_frame_vec (pools : FramePools) (buf : FrameVec) : FramePools :=
  match frame_capacity_class (fv_capacity buf) with
  | None => pools
  | Some idx =>
      let pool := default [] (pools !! idx) in
      if (length pool <? default 0%nat (FRAME_CLASS_LIMITS !! idx))%nat
      then <[idx := buf :: pool]> pools else pools
  end.

(** ** The duplicate filter *)

Definition DEDUP_WINDOW : nat := 4096.
Definition DEDUP_MASK : Z := 4095.
Abbreviation DeDuplicator := (list Z).
Definition DeDuplicator_new : DeDuplicator := replicate DEDUP_WINDOW 0.
Definition dedup_slot (seq : Z) : nat := Z.to_nat (Z.land seq DEDUP_MASK).

(** [swap] returns the previous value. *)
Definition is_duplicate (slots : DeDuplicator) (seq : Z) : DeDuplicator * bool :=
  if seq =? 0 then (slots, false)
  else
    let idx := dedup_slot seq in
    (<[idx := seq]> slots, default 0 (slots !! idx) =? seq).

Definition DeDuplicator_reset (slots : DeDuplicator) : DeDuplicator := (fun _ => 0) <$> slots.

(** ** Properties *)

(** The pools hold vectors of their class, within the limits. *)
Record pools_ok (pools : FramePools) : Prop := {
  po_len : length pools = 7%nat;
  po_class : forall idx pool v, pools !! idx = Some pool -> v ∈ pool ->
    FRAME_CLASSES !! idx = Some (fv_capacity v);
  po_limit : forall idx pool, pools !! idx = Some pool ->
    (length pool <= default 0 (FRAME_CLASS_LIMITS !! idx))%nat;
  po_fits : forall idx pool v, pools !! idx = Some pool -> v ∈ pool -> zlen (fv_data v) <= fv_capacity v }.

Lemma empty_pools_ok : pools_ok empty_pools.
Proof.
  split; [done|..]; intros idx pool; [intros v|..|intros v];
    intros [-> _]%lookup_replicate; try (by intros ?%elem_of_nil). simpl. lia.
Qed.

Lemma frame_class_fits len idx :
  frame_class_index len = Some idx -> (idx < 7)%nat /\ exists c, FRAME_CLASSES !! idx = Some c /\ 1 <= len <= c.
Proof.
  unfold frame_class_index.
  repeat (match goal with |- context [if ?c then _ else _] => destruct c eqn:? end;
    [intros [= <-]; match goal with E : _ = true |- _ => apply andb_true_iff in E as [?%Z.leb_le ?%Z.leb_le] end;
     split; [lia|eexists; split; [reflexivity|lia]]|]). done.
Qed.

Lemma recycled_ok pools len :
  pools_ok pools -> 0 <= len ->
  pools_ok (acquire_frame_vec_recycled pools len).1 /\
  len <= fv_capacity (acquire_frame_vec_recycled pools len).2 /\
  zlen (fv_data (acquire_frame_vec_recycled pools len).2) <= fv_capacity (acquire_frame_vec_recycled pools len).2.
Proof.
  intros Hp Hl. unfold acquire_frame_vec_recycled.
  destruct (Z.eqb_spec len 0) as [->|]; [done|].
  destruct (frame_class_index len) as [idx|] eqn:Ei; [|cbn; split_and!; done || lia].
  destruct (frame_class_fits _ _ Ei) as (Hi & c & Hc & Hlc).
  destruct (lookup_lt_is_Some_2 pools idx) as [pool Epool]; [rewrite (po_len _ Hp); lia|].
  rewrite Epool. cbn [default from_option id]. destruct pool as [|v rest].
  { cbn. rewrite Hc. cbn. split_and!; done || lia. }
  cbn [fst snd]. assert (Hv : v ∈ v :: rest) by by left.
  pose proof (po_class _ Hp _ _ _ Epool Hv) as Hcv. rewrite Hc in Hcv. injection Hcv as ->.
  pose proof (po_fits _ Hp _ _ _ Epool Hv). split_and!; [|lia|done].
  assert (Hsub : forall i pl, <[idx := rest]> pools !! i = Some pl ->
    exists pl', pools !! i = Some pl' /\ (length pl <= length pl')%nat /\ forall x, x ∈ pl -> x ∈ pl').
  { intros i pl. destruct (decide (i = idx)) as [->|Hne].
    - rewrite list_lookup_insert_eq by (rewrite (po_len _ Hp); lia). intros [= <-].
      exists (v :: rest). split_and!; [done|simpl; lia|]. intros x Hx. by right.
    - rewrite list_lookup_insert_ne by done. intros. exists pl. by split_and!. }
  split; [by rewrite length_insert, (po_len _ Hp)|..]; intros i pl; [intros x|..|intros x]; intros Hpl;
    destruct (Hsub _ _ Hpl) as (pl' & Hpl' & Hle & Hin); [intros Hx%Hin|..|intros Hx%Hin].
  - by eapply po_class.
  - etransitivity; [exact Hle|by eapply po_limit].
  - by eapply po_fits.
Qed.

Lemma frame_capacity_class_spec c idx :
  frame_capacity_class c = Some idx -> FRAME_CLASSES !! idx = Some c /\ (idx < 7)%nat.
Proof.
  unfold frame_capacity_class. destruct (list_find _ _) as [[i x]|] eqn:E; [|done]. intros [= <-].
  apply list_find_Some in E as (Hx & -> & _). split; [done|]. by apply lookup_lt_Some in Hx.
Qed.

Lemma release_ok pools buf :
  pools_ok pools -> zlen (fv_data buf) <= fv_capacity buf -> pools_ok (release_frame_vec pools buf).
Proof.
  intros Hp Hb. unfold release_frame_vec. destruct (frame_capacity_class _) as [idx|] eqn:Ec; [|done].
  apply frame_capacity_class_spec in Ec as [Hc Hi].
  destruct (lookup_lt_is_Some_2 pools idx) as [pool Epool]; [rewrite (po_len _ Hp); lia|].
  rewrite Epool. cbn [default from_option id].
  destruct (Nat.ltb_spec (length pool) (default 0%nat (FRAME_CLASS_LIMITS !! idx))); [|done].
  assert (Hsub : forall i pl, <[idx := buf :: pool]> pools !! i = Some pl ->
    (i = idx /\ pl = buf :: pool) \/ pools !! i = Some pl).
  { intros i pl. destruct (decide (i = idx)) as [->|Hne].
    - rewrite list_lookup_insert_eq by (rewrite (po_len _ Hp); lia). intros [= <-]. by left.
    - rewrite list_lookup_insert_ne by done. by right. }
  split; [by rewrite length_insert, (po_len _ Hp)|..]; intros i pl; [intros v|..|intros v]; intros Hpl;
    destruct (Hsub _ _ Hpl) as [[-> ->]|Hpl'].
  - intros [->|Hv]%elem_of_cons; [done|by eapply po_class].
  - intros Hv. by eapply po_class.
  - simpl length. lia.
  - by eapply po_limit.
  - intros [->|Hv]%elem_of_cons; [done|by eapply po_fits].
  - intros Hv. by eapply po_fits.
Qed.

(** Whatever a recycled buffer contained, an acquired frame is [len] zero
    bytes (the overwriting variant: [len] bytes), and acquiring and releasing
    keep every pool within its class and its limit, so a worker never retains
    more than 49 vectors. *)
Theorem frame_pool_safe pools len buf :
  pools_ok pools -> 0 <= len -> zlen (fv_data buf) <= fv_capacity buf ->
  fv_data (acquire_frame_vec pools len).2 = replicate (Z.to_nat len) 0 /\
  zlen (fv_data (acquire_frame_vec_overwrite pools len).2) = len /\
  pools_ok (acquire_frame_vec pools len).1 /\ pools_ok (acquire_frame_vec_overwrite pools len).1 /\
  pools_ok (release_frame_vec pools buf).
Proof.
  intros Hp Hl Hb. pose proof (recycled_ok pools len Hp Hl) as (Hr & Hc & _).
  unfold acquire_frame_vec, acquire_frame_vec_overwrite.
  destruct (acquire_frame_vec_recycled pools len) as [pools' v]. cbn [fst snd] in *. split_and!.
  - cbn [fv_data fv_resize]. apply list_eq. intros i. rewrite list_lookup_fmap.
    destruct (decide (i < Z.to_nat len)%nat).
    + rewrite lookup_replicate_2 by done.
      destruct (lookup_lt_is_Some_2 (resize0 (Z.to_nat len) (fv_data v)) i) as [x ->]; [by rewrite length_resize0|done].
    + rewrite !lookup_ge_None_2; [done|rewrite length_replicate; lia|rewrite length_resize0; lia].
  - destruct (Z.ltb_spec (zlen (fv_data v)) len); cbn [snd fv_data fv_resize];
      [rewrite length_resize0; lia|rewrite length_take; lia].
  - done.
  - by destruct (zlen (fv_data v) <? len).
  - by apply release_ok.
Qed.

Lemma frame_pool_safe_witness :
  let pools := release_frame_vec empty_pools {| fv_data := [9; 9; 9]; fv_capacity := 2048 |} in
  fv_data (acquire_frame_vec pools 5).2 = [0; 0; 0; 0; 0].
Proof.
  intros pools. destruct (frame_pool_safe pools 5 {| fv_data := []; fv_capacity := 0 |}) as (H & _); [|done|done|exact H].
  apply release_ok; [apply empty_pools_ok|done].
Defined.

(** *** The duplicate filter *)

(** The filter remembers only sequence numbers it was given. *)
Definition dedup_ok (slots : DeDuplicator) (P : Z -> Prop) : Prop :=
  length slots = DEDUP_WINDOW /\ forall x, x ∈ slots -> x = 0 \/ P x.

Lemma dedup_slot_lt seq : (dedup_slot seq < DEDUP_WINDOW)%nat.
Proof.
  unfold dedup_slot, DEDUP_MASK, DEDUP_WINDOW. change 4095 with (Z.ones 12). rewrite Z.land_ones by lia.
  pose proof (Z.mod_pos_bound seq (2 ^ 12)). lia.
Qed.

Lemma dedup_new_ok : dedup_ok DeDuplicator_new (fun _ => False).
Proof.
  split; [done|]. intros x Hx. apply list_elem_of_lookup in Hx as [i Hi]. apply lookup_replicate in Hi as [-> _]. by left.
Qed.

Lemma dedup_step slots P seq :
  dedup_ok slots P -> dedup_ok (is_duplicate slots seq).1 (fun x => x = seq \/ P x) /\
  ((is_duplicate slots seq).2 = true -> seq <> 0 /\ P seq).
Proof.
  intros [Hl Hs]. unfold is_duplicate. destruct (Z.eqb_spec seq 0); cbn [fst snd].
  { split; [split; [done|]|done]. intros x Hx. apply Hs in Hx. tauto. }
  split.
  - split; [by rewrite length_insert|]. intros x Hx. apply list_elem_of_lookup in Hx as [i Hi].
    destruct (decide (i = dedup_slot seq)) as [->|].
    + rewrite list_lookup_insert_eq in Hi by (rewrite Hl; apply dedup_slot_lt). simplify_eq. tauto.
    + rewrite list_lookup_insert_ne in Hi by done. apply list_elem_of_lookup_2, Hs in Hi. tauto.
  - intros He%Z.eqb_eq. destruct (slots !! dedup_slot seq) as [y|] eqn:E; cbn in He; [|done]. subst y.
    apply list_elem_of_lookup_2, Hs in E. tauto.
Qed.

(** The filter run over a sequence of numbers: the verdicts. *)
Fixpoint dedup_run (slots : DeDuplicator) (seqs : list Z) : DeDuplicator * list bool :=
  match seqs with
  | [] => (slots, [])
  | s :: seqs' =>
      let '(slots, b) := is_duplicate slots s in
      let '(slots, bs) := dedup_run slots seqs' in (slots, b :: bs)
  end.

(** The filter never calls a frame a duplicate unless that very sequence
    number was seen before (table collisions only let duplicates through), and
    it catches a repetition whenever fewer than 4096 consecutive numbers lie
    between the copies. *)
Theorem dedup_no_false_positive slots P seq between :
  dedup_ok slots P ->
  ((is_duplicate slots seq).2 = true -> P seq) /\
  (seq <> 0 -> Forall (fun x => 0 < Z.abs (x - seq) < 4096 \/ x = 0) between ->
   (is_duplicate (dedup_run (is_duplicate slots seq).1 between).1 seq).2 = true).
Proof.
  intros Hs. split; [intros Hd; by destruct (proj2 (dedup_step _ _ seq Hs) Hd)|].
  intros Hne Hb. pose proof Hs as [Hl _].
  assert (H0 : (is_duplicate slots seq).1 !! dedup_slot seq = Some seq /\ length (is_duplicate slots seq).1 = DEDUP_WINDOW).
  { unfold is_duplicate. destruct (Z.eqb_spec seq 0); [done|]. cbn [fst]. rewrite length_insert. split; [|done].
    apply list_lookup_insert_eq. rewrite Hl. apply dedup_slot_lt. }
  revert H0. generalize (is_duplicate slots seq).1 as sl. clear Hs Hl.
  induction Hb as [|x between Hx Hb IH]; intros sl [Hsl Hlen]; cbn [dedup_run fst].
  - unfold is_duplicate. destruct (Z.eqb_spec seq 0); [done|]. cbn [snd]. rewrite Hsl. apply Z.eqb_refl.
  - specialize (IH (is_duplicate sl x).1). destruct (is_duplicate sl x) as [sl' b] eqn:E. cbn [fst] in IH.
    destruct (dedup_run sl' between) as [sl'' bs]. cbn [fst] in *. apply IH.
    unfold is_duplicate in E. destruct (Z.eqb_spec x 0); injection E as <- _; [done|].
    rewrite length_insert. split; [|done]. rewrite list_lookup_insert_ne; [done|].
    unfold dedup_slot, DEDUP_MASK. change 4095 with (Z.ones 12). rewrite !Z.land_ones by lia.
    change (2 ^ 12) with 4096. div_mod x 4096. div_mod seq 4096. intros Heq.
    assert (Hm : x mod 4096 = seq mod 4096) by lia. destruct Hx as [Hx|]; [|done]. nia.
Qed.

Lemma dedup_no_false_positive_witness :
  (is_duplicate (dedup_run (is_duplicate DeDuplicator_new 5).1 [6; 7; 4]).1 5).2 = true.
Proof.
  apply (dedup_no_false_positive DeDuplicator_new (fun _ => False) 5 [6; 7; 4]); [apply dedup_new_ok|done|].
  repeat constructor; lia.
Defined.
