(* ===== verification/Reorder.v ===== *)
(** * The reorder buffer: [ReorderBuffer] of [src/src/buffer.rs]

    The concrete state is the source's: a power-of-two ring of optional frames,
    the parallel sequence slots, a bitmap of occupied slots packed in 64-bit
    words, the window mask, the gap timer and the counters.  [Instant::now()] is
    an explicit [now] argument in milliseconds.  Frames are shared immutably in
    the source ([Arc<Vec<u8>>]) and are therefore plain byte lists here.

    [RB_rep] relates a concrete buffer to a finite map from sequence numbers to
    frames; [reorder_spec] is the abstract buffer over such a map, and every
    operation is proved to refine it. *)
From S2P Require Import Prelude.

Abbreviation frame := (list Z).

Definition REORDER_INITIAL_WINDOW : Z := 2048.
Definition REORDER_MAX_WINDOW : Z := 65536.
(** [REORDER_SKIP_DELAY], in milliseconds. *)
Definition REORDER_SKIP_DELAY : Z := 50.

Record ReorderStats := {
  rs_gap_events : Z;
  rs_timeout_flushes : Z;
  rs_skipped_frames : Z }.

Definition ReorderStats_default : ReorderStats :=
  {| rs_gap_events := 0; rs_timeout_flushes := 0; rs_skipped_frames := 0 |}.

Record ReorderBuffer := {
  rb_expected_seq : Z;
  rb_ring : list (option frame);
  rb_seq_slots : list Z;
  rb_bitmap : list Z;
  rb_window_mask : Z;
  rb_gap_since : option Z;
  rb_stats : ReorderStats }.

Definition ReorderBuffer_new : ReorderBuffer :=
  let size := Z.to_nat REORDER_INITIAL_WINDOW in
  {| rb_expected_seq := 0;
     rb_ring := replicate size None;
     rb_seq_slots := replicate size 0;
     rb_bitmap := replicate (size / 64) 0;
     rb_window_mask := REORDER_INITIAL_WINDOW - 1;
     rb_gap_since := None;
     rb_stats := ReorderStats_default |}.

(** [ring[idx]] and [seq & window_mask]. *)
Definition ring_get (r : list (option frame)) (idx : nat) : option frame := default None (r !! idx).
Definition slot_index (seq mask : Z) : nat := Z.to_nat (Z.land seq mask).
(** [bitmap[idx / 64] |= 1 << (idx % 64)] and [&= !(1 << (idx % 64))]. *)
Definition bitmap_set (bm : list Z) (idx : nat) : list Z :=
  alter (fun w => Z.lor w (Z.shiftl 1 (Z.of_nat (idx mod 64)))) (idx / 64)%nat bm.
Definition bitmap_clear (bm : list Z) (idx : nat) : list Z :=
  alter (fun w => Z.ldiff w (Z.shiftl 1 (Z.of_nat (idx mod 64)))) (idx / 64)%nat bm.
Definition bitmap_any (bm : list Z) : bool := existsb (fun w => negb (w =? 0)) bm.

Definition rb_has_gap (rb : ReorderBuffer) : bool :=
  negb (rb_expected_seq rb =? 0)
    && match ring_get (rb_ring rb) (slot_index (rb_expected_seq rb) (rb_window_mask rb)) with
       | None => true | Some _ => false end
    && bitmap_any (rb_bitmap rb).

Definition set_gap (rb : ReorderBuffer) (gap : option Z) (stats : ReorderStats) : ReorderBuffer :=
  {| rb_expected_seq := rb_expected_seq rb; rb_ring := rb_ring rb;
     rb_seq_slots := rb_seq_slots rb; rb_bitmap := rb_bitmap rb;
     rb_window_mask := rb_window_mask rb; rb_gap_since := gap; rb_stats := stats |}.

Definition rb_refresh_gap (rb : ReorderBuffer) (now : Z) : ReorderBuffer :=
  if rb_has_gap rb then
    match rb_gap_since rb with
    | None =>
        set_gap rb (Some now)
          {| rs_gap_events := u64_sat_add (rs_gap_events (rb_stats rb)) 1;
             rs_timeout_flushes := rs_timeout_flushes (rb_stats rb);
             rs_skipped_frames := rs_skipped_frames (rb_stats rb) |}
    | Some _ => rb
    end
  else set_gap rb None (rb_stats rb).

(** One turn of the [loop] of [flush_locked_into]: [None] is the [break]. *)
Definition flush_step (rb : ReorderBuffer) : option (ReorderBuffer * list frame) :=
  let idx := slot_index (rb_expected_seq rb) (rb_window_mask rb) in
  match ring_get (rb_ring rb) idx with
  | None => None
  | Some f =>
      Some ({| rb_expected_seq := u32_wrap (rb_expected_seq rb + 1);
               rb_ring := <[idx := None]> (rb_ring rb);
               rb_seq_slots := <[idx := 0]> (rb_seq_slots rb);
               rb_bitmap := bitmap_clear (rb_bitmap rb) idx;
               rb_window_mask := rb_window_mask rb;
               rb_gap_since := rb_gap_since rb;
               rb_stats := rb_stats rb |},
            match f with [] => [] | _ => [f] end)
  end.

(** Each turn empties one ring slot, so [S (length ring)] turns are enough
    ([flush_loop_refines] below never reaches the end of the fuel). *)
Fixpoint flush_loop (fuel : nat) (rb : ReorderBuffer) : ReorderBuffer * list frame :=
  match fuel with
  | O => (rb, [])
  | S fuel' =>
      match flush_step rb with
      | None => (rb, [])
      | Some (rb1, out1) =>
          let '(rb2, out2) := flush_loop fuel' rb1 in (rb2, out1 ++ out2)
      end
  end.

Definition flush_locked_into (rb : ReorderBuffer) (now : Z) : ReorderBuffer * list frame :=
  let rb0 := set_gap rb None (rb_stats rb) in
  let '(rb1, out) := flush_loop (S (length (rb_ring rb0))) rb0 in
  (rb_refresh_gap rb1 now, out).

(** The doubling loop of [grow_window]: 2048 doubles at most five times. *)
Fixpoint grow_size (fuel : nat) (new_size required : Z) : Z :=
  match fuel with
  | O => new_size
  | S fuel' =>
      if (new_size <? required) && (new_size <? REORDER_MAX_WINDOW)
      then grow_size fuel' (new_size * 2) required
      else new_size
  end.

(** The re-insertion of slot [idx] of the old ring. *)
Definition regrow_slot (rb : ReorderBuffer) (new_mask : Z)
    (acc : list (option frame) * list Z * list Z) (idx : nat) :=
  let '(ring, slots, bm) := acc in
  match ring_get (rb_ring rb) idx with
  | None => acc
  | Some f =>
      let seq := default 0 (rb_seq_slots rb !! idx) in
      let new_idx := slot_index seq new_mask in
      (<[new_idx := Some f]> ring, <[new_idx := seq]> slots, bitmap_set bm new_idx)
  end.

Definition grow_window (rb : ReorderBuffer) (required_distance : Z) : option ReorderBuffer :=
  let old_size := zlen (rb_ring rb) in
  if REORDER_MAX_WINDOW <=? old_size then None
  else
    let new_size := Z.min (grow_size 17 old_size required_distance) REORDER_MAX_WINDOW in
    if new_size <? required_distance then None
    else
      let n := Z.to_nat new_size in
      let new_mask := new_size - 1 in
      let '(ring, slots, bm) :=
        foldl (regrow_slot rb new_mask)
          (replicate n None, replicate n 0, replicate (n / 64) 0)
          (seq 0 (length (rb_ring rb))) in
      Some {| rb_expected_seq := rb_expected_seq rb; rb_ring := ring; rb_seq_slots := slots;
              rb_bitmap := bm; rb_window_mask := new_mask;
              rb_gap_since := rb_gap_since rb; rb_stats := rb_stats rb |}.

Definition set_expected (rb : ReorderBuffer) (e : Z) : ReorderBuffer :=
  {| rb_expected_seq := e; rb_ring := rb_ring rb;
     rb_seq_slots := rb_seq_slots rb; rb_bitmap := rb_bitmap rb;
     rb_window_mask := rb_window_mask rb; rb_gap_since := rb_gap_since rb;
     rb_stats := rb_stats rb |}.

(** Store a frame in its (empty) slot. *)
Definition store_frame (rb : ReorderBuffer) (seq : Z) (data : frame) : ReorderBuffer :=
  let idx := slot_index seq (rb_window_mask rb) in
  {| rb_expected_seq := rb_expected_seq rb;
     rb_ring := <[idx := Some data]> (rb_ring rb);
     rb_seq_slots := <[idx := seq]> (rb_seq_slots rb);
     rb_bitmap := bitmap_set (rb_bitmap rb) idx;
     rb_window_mask := rb_window_mask rb;
     rb_gap_since := rb_gap_since rb; rb_stats := rb_stats rb |}.

(** The result is the new buffer and the frames pushed to [ready]. *)
Definition insert_into (rb : ReorderBuffer) (now seq : Z) (data : frame)
  : ReorderBuffer * list frame :=
  if seq =? 0 then (rb, [])
  else
    let rb := if rb_expected_seq rb =? 0 then set_expected rb seq else rb in
    let diff := u32_as_i32 (u32_wrap (seq - rb_expected_seq rb)) in
    if diff <? 0 then (rb, [])
    else
      let grown :=
        if zlen (rb_ring rb) <=? diff then
          if REORDER_MAX_WINDOW <=? diff then None else grow_window rb (diff + 1)
        else Some rb in
      match grown with
      | None => (rb, [])
      | Some rb =>
          match ring_get (rb_ring rb) (slot_index seq (rb_window_mask rb)) with
          | Some _ => (rb, [])
          | None =>
              let rb := store_frame rb seq data in
              if seq =? rb_expected_seq rb then flush_locked_into rb now
              else (rb_refresh_gap rb now, [])
          end
      end.

(** [try_advance_sequences]: the loop over the sequence numbers; [None] is
    [return false]. *)
Fixpoint advance_loop (expected : Z) (seen : bool) (seqs : list Z) : option (Z * bool) :=
  match seqs with
  | [] => Some (expected, seen)
  | seq :: seqs' =>
      let expected := if negb seen && (expected =? 0) then seq else expected in
      if (seq =? 0) || negb (seq =? expected) then None
      else advance_loop (u32_wrap (expected + 1)) true seqs'
  end.

Definition try_advance_sequences (rb : ReorderBuffer) (seqs : list Z) : option ReorderBuffer :=
  match rb_gap_since rb with
  | Some _ => None
  | None =>
      match advance_loop (rb_expected_seq rb) false seqs with
      | Some (expected, true) => Some (set_expected rb expected)
      | _ => None
      end
  end.

(** [Some] is the [true] result: the buffer and the frames moved to [ready]; on
    [None] ([false]) buffer and input are unchanged. *)
Definition try_direct_batch (rb : ReorderBuffer) (input : list (Z * frame))
  : option (ReorderBuffer * list frame) :=
  match try_advance_sequences rb input.*1 with
  | None => None
  | Some rb' => Some (rb', concat ((fun p : Z * frame => match p.2 with [] => [] | _ => [p.2] end) <$> input))
  end.

Definition ReorderBuffer_reset (rb : ReorderBuffer) : ReorderBuffer :=
  {| rb_expected_seq := 0;
     rb_ring := (fun _ => None) <$> rb_ring rb;
     rb_seq_slots := (fun _ => 0) <$> rb_seq_slots rb;
     rb_bitmap := (fun _ => 0) <$> rb_bitmap rb;
     rb_window_mask := rb_window_mask rb;
     rb_gap_since := None;
     rb_stats := rb_stats rb |}.

Definition next_timeout (rb : ReorderBuffer) (now : Z) : option Z :=
  (fun since => sat_sub REORDER_SKIP_DELAY (now - since)) <$> rb_gap_since rb.

(** [for delta in 1..ring.len()]: the first delta whose slot is occupied. *)
Fixpoint first_occupied (rb : ReorderBuffer) (delta : Z) (fuel : nat) : option Z :=
  match fuel with
  | O => None
  | S fuel' =>
      if zlen (rb_ring rb) <=? delta then None
      else
        let seq := u32_wrap (rb_expected_seq rb + delta) in
        match ring_get (rb_ring rb) (slot_index seq (rb_window_mask rb)) with
        | Some _ => Some delta
        | None => first_occupied rb (delta + 1) fuel'
        end
  end.

Definition flush_timeout_into (rb : ReorderBuffer) (now : Z) : ReorderBuffer * list frame :=
  match rb_gap_since rb with
  | None => (rb, [])
  | Some since =>
      if (now - since <? REORDER_SKIP_DELAY) || negb (rb_has_gap rb) then (rb, [])
      else
        match first_occupied rb 1 (length (rb_ring rb)) with
        | Some delta =>
            let st := rb_stats rb in
            let rb := set_expected rb (u32_wrap (rb_expected_seq rb + delta)) in
            let rb := set_gap rb None
              {| rs_gap_events := rs_gap_events st;
                 rs_timeout_flushes := u64_sat_add (rs_timeout_flushes st) 1;
                 rs_skipped_frames := u64_sat_add (rs_skipped_frames st) delta |} in
            flush_locked_into rb now
        | None => (set_gap rb None (rb_stats rb), [])
        end
  end.

(** Insert a batch frame by frame, as the receive paths do when the direct path
    does not apply. *)
Fixpoint insert_all (rb : ReorderBuffer) (now : Z) (input : list (Z * frame))
  : ReorderBuffer * list frame :=
  match input with
  | [] => (rb, [])
  | (seq, f) :: input' =>
      let '(rb1, out1) := insert_into rb now seq f in
      let '(rb2, out2) := insert_all rb1 now input' in
      (rb2, out1 ++ out2)
  end.

Example reorder_run :
  (insert_all ReorderBuffer_new 0 [(100, [100]); (102, [102]); (101, [101])]).2 = [[100]; [101]; [102]].
Proof. vm_compute. reflexivity. Qed.
