(* ===== verification/ReorderSpec.v ===== *)
(** * Specification and correctness of the reorder buffer

    [reorder_spec] is the contract of the buffer: the next expected sequence
    number and the finite map of pending frames.  [RB_inv] is the invariant of
    the concrete ring; every operation of [Reorder.v] preserves it and computes
    what the specification says. *)
From stdpp Require Import sorting.
From S2P Require Import Prelude Reorder.

(** ** Bits and slots *)

Definition bit_at (bm : list Z) (idx : nat) : bool :=
  Z.testbit (default 0 (bm !! (idx / 64)%nat)) (Z.of_nat (idx mod 64)).

Lemma slot_index_mod seq j :
  0 <= j -> slot_index seq (2 ^ j - 1) = Z.to_nat (seq mod 2 ^ j).
Proof.
  intros Hj. unfold slot_index. f_equal.
  rewrite <-Z.land_ones by done. f_equal. rewrite Z.ones_equiv. lia.
Qed.

Lemma idx_split_ne i j : i <> j -> (i / 64)%nat = (j / 64)%nat -> (i mod 64 <> j mod 64)%nat.
Proof. intros Hne Hd Hm. apply Hne. rewrite (Nat.div_mod_eq i 64), (Nat.div_mod_eq j 64). lia. Qed.

Lemma testbit_one_shift a b : 0 <= a -> 0 <= b -> Z.testbit (Z.shiftl 1 a) b = (a =? b).
Proof.
  intros. rewrite Z.shiftl_mul_pow2, Z.mul_1_l by lia. rewrite Z.pow2_bits_eqb by lia. done.
Qed.

Lemma length_bitmap_set bm idx : length (bitmap_set bm idx) = length bm.
Proof. apply length_alter. Qed.
Lemma length_bitmap_clear bm idx : length (bitmap_clear bm idx) = length bm.
Proof. apply length_alter. Qed.
#[export] Hint Rewrite length_bitmap_set length_bitmap_clear : vpnlen.

Lemma bit_at_set bm i j :
  (i / 64 < length bm)%nat -> bit_at (bitmap_set bm i) j = bool_decide (i = j) || bit_at bm j.
Proof.
  intros Hi. unfold bit_at, bitmap_set.
  destruct (decide (i / 64 = j / 64)%nat) as [E|E].
  - rewrite <-E, list_lookup_alter_eq. destruct (lookup_lt_is_Some_2 _ _ Hi) as [w ->]. simpl.
    rewrite Z.lor_spec, testbit_one_shift by lia.
    case_bool_decide as Hij; [subst; rewrite Z.eqb_refl; apply orb_true_r|].
    pose proof (idx_split_ne i j Hij E).
    destruct (Z.eqb_spec (Z.of_nat (i mod 64)) (Z.of_nat (j mod 64))); [lia|]. apply orb_false_r.
  - rewrite list_lookup_alter_ne by done. case_bool_decide; [congruence|done].
Qed.

Lemma bit_at_clear bm i j :
  bit_at (bitmap_clear bm i) j = negb (bool_decide (i = j)) && bit_at bm j.
Proof.
  unfold bit_at, bitmap_clear.
  destruct (decide (i / 64 = j / 64)%nat) as [E|E].
  - rewrite <-E, list_lookup_alter_eq. destruct (bm !! (i / 64)%nat) as [w|] eqn:Hw; simpl.
    + rewrite Z.ldiff_spec, testbit_one_shift by lia.
      case_bool_decide as Hij; [subst; rewrite Z.eqb_refl; apply andb_false_r|].
      pose proof (idx_split_ne i j Hij E).
      destruct (Z.eqb_spec (Z.of_nat (i mod 64)) (Z.of_nat (j mod 64))); [lia|]. apply andb_true_r.
    + by rewrite Z.bits_0, andb_false_r.
  - rewrite list_lookup_alter_ne by done. case_bool_decide; [congruence|done].
Qed.

Definition words_ok (bm : list Z) : Prop := Forall is_u64 bm.

Lemma is_u64_bits w : is_u64 w <-> 0 <= w /\ forall i, 64 <= i -> Z.testbit w i = false.
Proof.
  unfold is_u64, U64_MAX. split.
  - intros [H0 H1]. split; [done|]. intros i Hi.
    destruct (Z.eq_dec w 0) as [->|]; [apply Z.bits_0|].
    apply Z.bits_above_log2; [done|]. apply Z.lt_le_trans with 64; [|done].
    apply Z.log2_lt_pow2; lia.
  - intros [H0 H1]. split; [done|]. destruct (Z_le_gt_dec w 18446744073709551615); [done|exfalso].
    assert (64 <= Z.log2 w) by (apply Z.log2_le_pow2; lia).
    specialize (H1 (Z.log2 w) ltac:(lia)). rewrite Z.bit_log2 in H1 by lia. done.
Qed.

Lemma words_ok_alter bm i f :
  words_ok bm -> (forall w, is_u64 w -> is_u64 (f w)) -> words_ok (alter f i bm).
Proof.
  intros Hbm Hf. apply Forall_lookup. intros j w Hw.
  destruct (decide (i = j)) as [->|].
  - rewrite list_lookup_alter_eq in Hw. destruct (bm !! j) eqn:E; simplify_eq/=.
    apply Hf. by eapply Forall_lookup_1.
  - rewrite list_lookup_alter_ne in Hw by done. by eapply Forall_lookup_1.
Qed.

Lemma words_ok_set bm i : words_ok bm -> words_ok (bitmap_set bm i).
Proof.
  intros H. apply words_ok_alter; [done|]. intros w. rewrite !is_u64_bits. intros [H0 H1].
  pose proof (Nat.mod_upper_bound i 64 ltac:(lia)).
  split; [apply Z.lor_nonneg; split; [done|]; apply Z.shiftl_nonneg; lia|].
  intros b Hb. rewrite Z.lor_spec, H1, testbit_one_shift by lia.
  destruct (Z.eqb_spec (Z.of_nat (i mod 64)) b); [lia|done].
Qed.

Lemma words_ok_clear bm i : words_ok bm -> words_ok (bitmap_clear bm i).
Proof.
  intros H. apply words_ok_alter; [done|]. intros w. rewrite !is_u64_bits. intros [H0 H1].
  split; [apply Z.ldiff_nonneg; by left|].
  intros b Hb. by rewrite Z.ldiff_spec, H1 by lia.
Qed.

Lemma bitmap_any_spec bm :
  words_ok bm -> bitmap_any bm = true <-> exists idx, (idx / 64 < length bm)%nat /\ bit_at bm idx = true.
Proof.
  intros Hbm. unfold bitmap_any. rewrite existsb_exists. split.
  - intros (w & Hin & Hw). apply list_elem_of_In, list_elem_of_lookup in Hin as [i Hi].
    assert (Hok : is_u64 w) by (by eapply Forall_lookup_1). apply is_u64_bits in Hok as [H0 H1].
    destruct (Z.eqb_spec w 0) as [|Hne]; [done|].
    set (b := Z.log2 w). assert (0 <= b < 64).
    { split; [apply Z.log2_nonneg|]. destruct (Z_lt_ge_dec b 64); [done|exfalso].
      specialize (H1 b ltac:(lia)). unfold b in H1. rewrite Z.bit_log2 in H1 by lia. done. }
    exists (i * 64 + Z.to_nat b)%nat. unfold bit_at.
    rewrite Nat.div_add_l, Nat.div_small, Nat.add_0_r by lia.
    rewrite Nat.add_comm, Nat.Div0.mod_add, Nat.mod_small by lia.
    rewrite Hi, Z2Nat.id by lia. split; [by eapply lookup_lt_Some|]. simpl. apply Z.bit_log2. lia.
  - intros (idx & Hlt & Hb). destruct (lookup_lt_is_Some_2 _ _ Hlt) as [w Hw].
    exists w. split; [apply list_elem_of_In; by eapply list_elem_of_lookup_2|].
    unfold bit_at in Hb. rewrite Hw in Hb. simpl in Hb.
    destruct (Z.eqb_spec w 0) as [->|]; [by rewrite Z.bits_0 in Hb|done].
Qed.

(** ** The ring represents a finite map

    [ring_rep N ring slots bm m]: the ring of size [N] holds exactly the frames
    of [m], each in the slot of its sequence number modulo [N]. *)

Abbreviation slot N s := (Z.to_nat (s mod N)).

Record ring_rep (N : Z) (ring : list (option frame)) (slots bm : list Z) (m : gmap Z frame) : Prop := {
  rr_pow : exists j, 11 <= j <= 16 /\ N = 2 ^ j;
  rr_ring_len : zlen ring = N;
  rr_slots_len : zlen slots = N;
  rr_bm_len : (length bm * 64 = length ring)%nat;
  rr_words : words_ok bm;
  rr_bit : forall idx, bit_at bm idx = true -> (idx < length ring)%nat -> is_Some (ring_get ring idx);
  rr_slot : forall idx f, ring_get ring idx = Some f ->
    exists s, slots !! idx = Some s /\ m !! s = Some f /\ slot N s = idx;
  rr_map : forall s f, m !! s = Some f ->
    ring_get ring (slot N s) = Some f /\ slots !! slot N s = Some s /\ bit_at bm (slot N s) = true }.

Lemma ring_get_insert r i j x :
  (i < length r)%nat -> ring_get (<[i := x]> r) j = if decide (i = j) then x else ring_get r j.
Proof.
  intros Hi. unfold ring_get. destruct (decide (i = j)) as [->|].
  - by rewrite list_lookup_insert_eq.
  - by rewrite list_lookup_insert_ne.
Qed.

Lemma rr_N_bounds N r sl bm m : ring_rep N r sl bm m -> 2048 <= N <= 65536.
Proof.
  intros H. destruct (rr_pow _ _ _ _ _ H) as (j & Hj & ->).
  split; [change 2048 with (2 ^ 11)|change 65536 with (2 ^ 16)]; apply Z.pow_le_mono_r; lia.
Qed.

Lemma slot_lt N s r : 0 < N -> zlen r = N -> (slot N s < length (r : list (option frame)))%nat.
Proof. intros HN Hr. pose proof (Z.mod_pos_bound s N HN). lia. Qed.

Lemma slot_inj N s s' e :
  0 < N -> e <= s < e + N -> e <= s' < e + N -> slot N s = slot N s' -> s = s'.
Proof.
  intros HN Hs Hs' E. div_mod s N. div_mod s' N.
  assert (s mod N = s' mod N) by lia.
  assert (s / N = s' / N); [|nia]. nia.
Qed.

Lemma ring_rep_empty N n :
  (exists j, 11 <= j <= 16 /\ N = 2 ^ j) -> n = Z.to_nat N ->
  ring_rep N (replicate n None) (replicate n 0) (replicate (n / 64) 0) ∅.
Proof.
  intros (j & Hj & HN) ->.
  assert (Hr : forall idx, ring_get (replicate (Z.to_nat N) None) idx = None).
  { intros idx. unfold ring_get. destruct (_ !! _) eqn:E; [|done].
    by apply lookup_replicate in E as [-> _]. }
  assert (0 < N) by (subst; apply Z.pow_pos_nonneg; lia).
  assert (Hdiv : (Z.to_nat N / 64 * 64 = Z.to_nat N)%nat).
  { assert (N = 2 ^ (j - 6) * 64) as ->.
    { rewrite HN. replace j with (j - 6 + 6) at 1 by lia. rewrite Z.pow_add_r by lia. done. }
    rewrite Z2Nat.inj_mul by lia. change (Z.to_nat 64) with 64%nat.
    by rewrite Nat.div_mul by lia. }
  split; rewrite ?length_replicate; try done; eauto.
  - lia.
  - lia.
  - apply Forall_replicate. unfold_ints. lia.
  - intros idx. unfold bit_at. destruct (_ !! _) as [w|] eqn:E; simpl; [|by rewrite Z.bits_0].
    apply lookup_replicate in E as [-> _]. by rewrite Z.bits_0.
  - intros idx f. by rewrite Hr.
Qed.

Lemma ring_rep_insert N r sl bm m s f :
  ring_rep N r sl bm m -> ring_get r (slot N s) = None ->
  ring_rep N (<[slot N s := Some f]> r) (<[slot N s := s]> sl) (bitmap_set bm (slot N s)) (<[s := f]> m).
Proof.
  intros H Hfree. pose proof (rr_N_bounds _ _ _ _ _ H) as HN. destruct H as [Hp Hr Hs Hb Hw Hbit Hsl Hm].
  pose proof (slot_lt N s r ltac:(lia) Hr) as Hlt.
  assert (Hi : (slot N s / 64 < length bm)%nat) by (apply Nat.Div0.div_lt_upper_bound; lia).
  split; rewrite ?length_insert, ?length_bitmap_set; try done.
  - by apply words_ok_set.
  - intros idx Hbt Hidx. rewrite bit_at_set in Hbt by done. rewrite ring_get_insert by done.
    destruct (decide (slot N s = idx)); [done|].
    rewrite bool_decide_eq_false_2 in Hbt by done. auto.
  - intros idx g. rewrite ring_get_insert by done. case_decide as E.
    + intros [= <-]. exists s. subst idx. rewrite list_lookup_insert_eq by lia.
      by rewrite lookup_insert_eq.
    + intros Hg. destruct (Hsl _ _ Hg) as (s' & Hs' & Hm' & Hidx). exists s'.
      rewrite list_lookup_insert_ne by done. rewrite lookup_insert_ne; [done|]. intros ->. done.
  - intros s' g. rewrite lookup_insert. rewrite bit_at_set by done. case_decide as E.
    + intros [= <-]. subst s'. rewrite ring_get_insert, decide_True by done.
      rewrite list_lookup_insert_eq by lia. by rewrite bool_decide_eq_true_2.
    + intros Hg. destruct (Hm _ _ Hg) as (Hg1 & Hg2 & Hg3).
      assert (slot N s <> slot N s') as Hne by (intros E'; rewrite E' in Hfree; congruence).
      rewrite ring_get_insert, decide_False, list_lookup_insert_ne, Hg3, orb_true_r by done. done.
Qed.

Lemma ring_rep_delete N r sl bm m s f :
  ring_rep N r sl bm m -> m !! s = Some f ->
  ring_rep N (<[slot N s := None]> r) (<[slot N s := 0]> sl) (bitmap_clear bm (slot N s)) (delete s m).
Proof.
  intros H Hms. pose proof (rr_N_bounds _ _ _ _ _ H) as HN. destruct H as [Hp Hr Hs Hb Hw Hbit Hsl Hm].
  pose proof (slot_lt N s r ltac:(lia) Hr) as Hlt.
  destruct (Hm _ _ Hms) as (_ & Hss & _).
  split; rewrite ?length_insert, ?length_bitmap_clear; try done.
  - by apply words_ok_clear.
  - intros idx Hbt Hidx. rewrite bit_at_clear in Hbt. rewrite ring_get_insert by done.
    destruct (decide (slot N s = idx)); [by rewrite bool_decide_eq_true_2 in Hbt|].
    rewrite bool_decide_eq_false_2 in Hbt by done. auto.
  - intros idx g. rewrite ring_get_insert by done. case_decide as E; [done|].
    intros Hg. destruct (Hsl _ _ Hg) as (s' & Hs' & Hm' & Hidx). exists s'.
    rewrite list_lookup_insert_ne by done. rewrite lookup_delete_ne; [done|]. intros ->. done.
  - intros s' g. rewrite lookup_delete. case_decide as E; [done|].
    intros Hg. destruct (Hm _ _ Hg) as (Hg1 & Hg2 & Hg3). rewrite bit_at_clear.
    assert (slot N s <> slot N s') as Hne by congruence.
    rewrite ring_get_insert, decide_False, list_lookup_insert_ne, Hg3 by done.
    by rewrite bool_decide_eq_false_2.
Qed.

Lemma ring_rep_any N r sl bm m : ring_rep N r sl bm m -> bitmap_any bm = true <-> m <> ∅.
Proof.
  intros H. pose proof (rr_N_bounds _ _ _ _ _ H) as HN.
  rewrite bitmap_any_spec by apply H. split.
  - intros (idx & Hlt & Hb) ->.
    assert (idx < length r)%nat.
    { rewrite <-(rr_bm_len _ _ _ _ _ H). pose proof (Nat.div_mod_eq idx 64).
      pose proof (Nat.mod_upper_bound idx 64 ltac:(lia)). nia. }
    destruct (rr_bit _ _ _ _ _ H idx Hb) as [g Hg]; [done|].
    by destruct (rr_slot _ _ _ _ _ H _ _ Hg) as (s & _ & ? & _).
  - intros (s & f & Hs)%map_choose. destruct (rr_map _ _ _ _ _ H _ _ Hs) as (_ & _ & Hb).
    exists (slot N s). split; [|done].
    pose proof (slot_lt N s r ltac:(lia) (rr_ring_len _ _ _ _ _ H)).
    pose proof (rr_bm_len _ _ _ _ _ H). apply Nat.Div0.div_lt_upper_bound; lia.
Qed.

(** A frame of the current window is found by its slot alone. *)
Lemma ring_rep_window N r sl bm m e s :
  ring_rep N r sl bm m -> (forall s' f, m !! s' = Some f -> e <= s' < e + N) ->
  e <= s < e + N -> ring_get r (slot N s) = m !! s.
Proof.
  intros H Hw Hs. pose proof (rr_N_bounds _ _ _ _ _ H) as HN.
  destruct (m !! s) as [f|] eqn:E; [by apply (rr_map _ _ _ _ _ H)|].
  destruct (ring_get r (slot N s)) as [f|] eqn:Eg; [|done].
  destruct (rr_slot _ _ _ _ _ H _ _ Eg) as (s' & _ & Hm & Hsl).
  assert (s' = s) by (apply (slot_inj N s' s e); [lia|eauto|done..]). congruence.
Qed.

(** ** The abstract buffer *)

Record reorder_spec := { sp_next : Z; sp_pending : gmap Z frame }.

(** Empty frames advance the sequence but are not delivered. *)
Definition deliverable (f : frame) : list frame := match f with [] => [] | _ => [f] end.

Fixpoint spec_drain (fuel : nat) (a : reorder_spec) : reorder_spec * list frame :=
  match fuel with
  | O => (a, [])
  | S fuel' =>
      match sp_pending a !! sp_next a with
      | None => (a, [])
      | Some f =>
          let '(a', out) :=
            spec_drain fuel' {| sp_next := u32_wrap (sp_next a + 1);
                                sp_pending := delete (sp_next a) (sp_pending a) |} in
          (a', deliverable f ++ out)
      end
  end.

(** Deliver the run of consecutive pending frames. *)
Definition spec_flush (a : reorder_spec) : reorder_spec * list frame :=
  spec_drain (S (size (sp_pending a))) a.

(** Insert: learn the first sequence number, drop what is behind, what is more
    than 65536 ahead and what is already pending, keep and deliver the rest. *)
Definition spec_insert (a : reorder_spec) (seq : Z) (f : frame) : reorder_spec * list frame :=
  let next := if sp_next a =? 0 then seq else sp_next a in
  if (seq <? next) || (REORDER_MAX_WINDOW <=? seq - next) then
    ({| sp_next := next; sp_pending := sp_pending a |}, [])
  else
    match sp_pending a !! seq with
    | Some _ => ({| sp_next := next; sp_pending := sp_pending a |}, [])
    | None => spec_flush {| sp_next := next; sp_pending := <[seq := f]> (sp_pending a) |}
    end.

(** ** The invariant of the concrete buffer *)

Record RB_rep (rb : ReorderBuffer) (m : gmap Z frame) : Prop := {
  rep_ring : ring_rep (zlen (rb_ring rb)) (rb_ring rb) (rb_seq_slots rb) (rb_bitmap rb) m;
  rep_mask : rb_window_mask rb = zlen (rb_ring rb) - 1;
  rep_expected : is_u32 (rb_expected_seq rb);
  rep_window : forall s f, m !! s = Some f ->
    1 <= rb_expected_seq rb <= s /\ s < rb_expected_seq rb + zlen (rb_ring rb) /\ s <= U32_MAX }.

(** At rest the expected frame is not pending and the gap timer runs exactly
    while something is pending. *)
Record RB_inv (rb : ReorderBuffer) (m : gmap Z frame) : Prop := {
  inv_rep : RB_rep rb m;
  inv_drained : m !! rb_expected_seq rb = None;
  inv_gap : rb_gap_since rb = None <-> m = ∅ }.

Definition rb_abs (rb : ReorderBuffer) (m : gmap Z frame) : reorder_spec :=
  {| sp_next := rb_expected_seq rb; sp_pending := m |}.

Lemma rep_slot rb m s : RB_rep rb m -> slot_index s (rb_window_mask rb) = slot (zlen (rb_ring rb)) s.
Proof.
  intros H. rewrite (rep_mask _ _ H).
  destruct (rr_pow _ _ _ _ _ (rep_ring _ _ H)) as (j & Hj & E). rewrite E.
  apply slot_index_mod. lia.
Qed.

Lemma rep_size rb m : RB_rep rb m -> 2048 <= zlen (rb_ring rb) <= 65536.
Proof. intros H. eapply rr_N_bounds, rep_ring, H. Qed.

Lemma rep_lookup rb m s :
  RB_rep rb m -> rb_expected_seq rb <= s < rb_expected_seq rb + zlen (rb_ring rb) ->
  ring_get (rb_ring rb) (slot_index s (rb_window_mask rb)) = m !! s.
Proof.
  intros H Hs. rewrite (rep_slot rb m) by done.
  eapply ring_rep_window; [apply H| |done]. intros s' f Hf. apply (rep_window _ _ H) in Hf. lia.
Qed.

Lemma rep_set_gap rb m g st : RB_rep rb m -> RB_rep (set_gap rb g st) m.
Proof. intros [? ? ? ?]. by split. Qed.

Lemma rep_has_gap rb m :
  RB_rep rb m -> m !! rb_expected_seq rb = None -> rb_has_gap rb = true <-> m <> ∅.
Proof.
  intros H Hd. unfold rb_has_gap. pose proof (rep_size _ _ H).
  rewrite (rep_lookup rb m), Hd, andb_true_r by (done || lia).
  rewrite andb_true_iff, (ring_rep_any _ _ _ _ _ (rep_ring _ _ H)).
  split; [tauto|]. intros Hm. split; [|done].
  apply map_choose in Hm as (s & f & Hs). apply (rep_window _ _ H) in Hs.
  destruct (Z.eqb_spec (rb_expected_seq rb) 0); [lia|done].
Qed.

Lemma refresh_gap_inv rb m now :
  RB_rep rb m -> m !! rb_expected_seq rb = None ->
  RB_inv (rb_refresh_gap rb now) m /\ rb_expected_seq (rb_refresh_gap rb now) = rb_expected_seq rb.
Proof.
  intros H Hd. pose proof (rep_has_gap _ _ H Hd) as Hg. unfold rb_refresh_gap.
  destruct (rb_has_gap rb).
  - assert (m <> ∅) by tauto. destruct (rb_gap_since rb) eqn:E; (split; [|done]);
      split; try done; simpl; rewrite ?E; done || by apply rep_set_gap.
  - split; [|done]. split; [by apply rep_set_gap|done|]. simpl.
    split; [|done]. intros _. destruct (decide (m = ∅)) as [|Hm]; [done|].
    by apply Hg in Hm.
Qed.

Lemma wrap_succ e : is_u32 e -> u32_wrap (e + 1) = if e =? U32_MAX then 0 else e + 1.
Proof.
  intros He. unfold_ints. destruct (Z.eqb_spec e 4294967295) as [->|]; [done|].
  apply Z.mod_small. lia.
Qed.

Lemma flush_step_refines rb m :
  RB_rep rb m ->
  match m !! rb_expected_seq rb with
  | None => flush_step rb = None
  | Some f => exists rb', flush_step rb = Some (rb', deliverable f) /\
      RB_rep rb' (delete (rb_expected_seq rb) m) /\
      rb_expected_seq rb' = u32_wrap (rb_expected_seq rb + 1) /\
      rb_gap_since rb' = rb_gap_since rb /\ length (rb_ring rb') = length (rb_ring rb)
  end.
Proof.
  intros H. pose proof (rep_size _ _ H). unfold flush_step.
  rewrite (rep_lookup rb m) by (done || lia).
  destruct (m !! rb_expected_seq rb) as [f|] eqn:E; [|done].
  eexists; split; [done|]. cbn [rb_expected_seq rb_gap_since rb_ring].
  rewrite length_insert. split_and!; try done.
  rewrite (rep_slot rb m) by done.
  pose proof (rep_window _ _ H _ _ E) as He.
  split; cbn [rb_expected_seq rb_ring rb_seq_slots rb_bitmap rb_window_mask]; rewrite ?length_insert.
  - eapply ring_rep_delete; [apply H|done].
  - apply H.
  - rewrite wrap_succ by apply H. destruct (Z.eqb_spec (rb_expected_seq rb) U32_MAX); unfold_ints; lia.
  - intros s g. rewrite lookup_delete. case_decide; [done|]. intros Hs. apply (rep_window _ _ H) in Hs.
    rewrite wrap_succ by apply H. destruct (Z.eqb_spec (rb_expected_seq rb) U32_MAX); lia.
Qed.

Lemma spec_drain_fuel fuel fuel' a :
  (size (sp_pending a) < fuel)%nat -> (fuel <= fuel')%nat -> spec_drain fuel' a = spec_drain fuel a.
Proof.
  revert fuel' a. induction fuel as [|fuel IH]; intros fuel' a Hf Hle; [lia|].
  destruct fuel' as [|fuel']; [lia|]. simpl.
  destruct (sp_pending a !! sp_next a) eqn:E; [|done].
  rewrite (IH fuel'); [done| |lia]. simpl. rewrite map_size_delete, E.
  assert (size (sp_pending a) <> 0%nat); [|lia].
  rewrite map_size_non_empty_iff. intros E'. by rewrite E' in E.
Qed.

(** The fuel of the concrete loop is never exhausted and the loop computes the
    abstract drain. *)
Lemma flush_loop_refines fuel rb m rb' out :
  RB_rep rb m -> (size m < fuel)%nat -> flush_loop fuel rb = (rb', out) ->
  exists m', RB_rep rb' m' /\ m' !! rb_expected_seq rb' = None /\
    spec_drain fuel (rb_abs rb m) = (rb_abs rb' m', out) /\ rb_gap_since rb' = rb_gap_since rb.
Proof.
  revert rb m rb' out. induction fuel as [|fuel IH]; intros rb m rb' out H Hf; [lia|].
  simpl. pose proof (flush_step_refines rb m H) as Hs.
  destruct (m !! rb_expected_seq rb) as [f|] eqn:E.
  - destruct Hs as (rb1 & -> & H1 & He1 & Hg1 & _).
    destruct (flush_loop fuel rb1) as [rb2 out2] eqn:El. intros [= <- <-].
    eapply IH in El as (m' & H' & Hd' & Hsp & Hg'); [|exact H1|].
    2: { rewrite map_size_delete, E. assert (size m <> 0%nat); [|lia].
      rewrite map_size_non_empty_iff. intros ->. done. }
    exists m'. split_and!; [done|done| |by rewrite Hg'].
    unfold rb_abs in Hsp at 1. rewrite He1 in Hsp. by rewrite Hsp.
  - rewrite Hs. intros [= <- <-]. by exists m.
Qed.

Lemma flush_locked_refines rb m now rb' out :
  RB_rep rb m -> flush_locked_into rb now = (rb', out) ->
  exists m', RB_inv rb' m' /\ spec_flush (rb_abs rb m) = (rb_abs rb' m', out).
Proof.
  intros H. unfold flush_locked_into.
  destruct (flush_loop _ _) as [rb1 out1] eqn:El. intros [= <- <-].
  assert (Hsz : (size m <= length (rb_ring rb))%nat).
  { pose proof (rep_size _ _ H). transitivity (length (seq 0 (length (rb_ring rb)))); [|by rewrite length_seq].
    rewrite <-size_dom. unfold size, set_size. simpl.
    rewrite <-(length_fmap (fun s => slot (zlen (rb_ring rb)) s)).
    apply submseteq_length, NoDup_submseteq.
    - apply NoDup_fmap_2_strong; [|apply NoDup_elements].
      intros s1 s2 [f1 H1]%elem_of_elements%elem_of_dom [f2 H2]%elem_of_elements%elem_of_dom.
      apply (slot_inj _ _ _ (rb_expected_seq rb)); [lia|..]; apply (rep_window _ _ H) in H1; apply (rep_window _ _ H) in H2; lia.
    - intros i (s & -> & Hs)%list_elem_of_fmap. apply elem_of_seq.
      pose proof (slot_lt (zlen (rb_ring rb)) s (rb_ring rb) ltac:(lia) eq_refl). lia. }
  eapply (flush_loop_refines _ _ m) in El as (m' & H' & Hd' & Hsp & _);
    [|by apply rep_set_gap|simpl; lia].
  exists m'. destruct (refresh_gap_inv _ _ now H' Hd') as [Hinv He]. split; [done|].
  unfold spec_flush. rewrite <-(spec_drain_fuel (S (size m)) (S (length (rb_ring rb)))) by (simpl; lia).
  unfold rb_abs at 2. rewrite He. exact Hsp.
Qed.

(** ** Growing the window *)

Lemma grow_size_spec fuel j required :
  0 <= j <= 16 -> (16 - j < Z.of_nat fuel) -> 2 ^ j < required -> required <= REORDER_MAX_WINDOW ->
  exists j', j < j' <= 16 /\ grow_size fuel (2 ^ j) required = 2 ^ j' /\ required <= 2 ^ j'.
Proof.
  unfold REORDER_MAX_WINDOW.
  revert j. induction fuel as [|fuel IH]; intros j Hj Hfuel Hlt Hreq; [lia|]. simpl.
  unfold REORDER_MAX_WINDOW.
  destruct (Z.ltb_spec (2 ^ j) required); [|lia].
  destruct (Z.ltb_spec (2 ^ j) 65536); [|lia]. simpl.
  assert (j < 16) by (destruct (Z.eq_dec j 16) as [->|]; [|lia]; change (2 ^ 16) with 65536 in *; lia).
  rewrite Z.mul_comm, <-Z.pow_succ_r by lia. unfold Z.succ.
  destruct (Z_lt_le_dec (2 ^ (j + 1)) required) as [Hl|Hge].
  - destruct (IH (j + 1)) as (j' & ? & ? & ?); [lia..|]. exists j'. split; [lia|]. done.
  - exists (j + 1). split; [lia|]. split; [|done]. destruct fuel; [done|]. simpl.
    destruct (Z.ltb_spec (2 ^ (j + 1)) required); [lia|done].
Qed.

Lemma regrow_refines rb m N' :
  RB_rep rb m -> (exists j, 11 <= j <= 16 /\ N' = 2 ^ j) -> zlen (rb_ring rb) <= N' ->
  forall t, (t <= length (rb_ring rb))%nat ->
  let '(r, sl, bm) := foldl (regrow_slot rb (N' - 1))
     (replicate (Z.to_nat N') None, replicate (Z.to_nat N') 0, replicate (Z.to_nat N' / 64) 0) (seq 0 t) in
  ring_rep N' r sl bm (filter (fun p => (slot (zlen (rb_ring rb)) p.1 < t)%nat) m).
Proof.
  intros H Hp HN' t. pose proof (rep_size _ _ H) as HN. destruct (rep_ring _ _ H) as [_ Hr Hs _ _ _ Hsl Hm].
  induction t as [|t IH]; intros Ht.
  - simpl. assert (filter _ m = ∅) as ->; [|by apply ring_rep_empty].
    apply map_empty_filter_2. intros s f _. simpl. lia.
  - rewrite seq_S, foldl_app. specialize (IH ltac:(lia)).
    destruct (foldl _ _ (seq 0 t)) as [[r sl] bm]. simpl.
    destruct (ring_get (rb_ring rb) t) as [f|] eqn:E.
    + destruct (Hsl _ _ E) as (s & Hss & Hms & Hst). rewrite Hss. cbn [default from_option id].
      assert (slot_index s (N' - 1) = slot N' s) as ->.
      { destruct Hp as (j & ? & ->). apply slot_index_mod. lia. }
      replace (filter _ m) with (<[s := f]> (filter (fun p => (slot (zlen (rb_ring rb)) p.1 < t)%nat) m)).
      * apply ring_rep_insert; [done|].
        destruct (ring_get r (slot N' s)) as [g|] eqn:Eg; [|done].
        destruct (rr_slot _ _ _ _ _ IH _ _ Eg) as (s' & _ & [Hm' Hlt]%map_lookup_filter_Some & Heq).
        simpl in Hlt. pose proof (rep_window _ _ H _ _ Hms). pose proof (rep_window _ _ H _ _ Hm').
        assert (s' = s) by (apply (slot_inj N' _ _ (rb_expected_seq rb)); lia). subst s'. lia.
      * apply map_eq. intros s'. rewrite lookup_insert. case_decide as Es.
        -- subst s'. symmetry. apply map_lookup_filter_Some. simpl. split; [done|lia].
        -- apply option_eq. intros g. rewrite !map_lookup_filter_Some. simpl.
           split; intros [Hg Hlt]; (split; [done|]); [lia|].
           assert (slot (zlen (rb_ring rb)) s' <> t); [|lia]. intros Et.
           destruct (Hm _ _ Hg) as (_ & Hg2 & _). rewrite Et, Hss in Hg2. congruence.
    + replace (filter _ m) with (filter (fun p => (slot (zlen (rb_ring rb)) p.1 < t)%nat) m); [done|].
      apply map_filter_ext. intros s g Hg. simpl. split; [lia|]. intros Hlt.
      assert (slot (zlen (rb_ring rb)) s <> t); [|lia]. intros Et.
      destruct (Hm _ _ Hg) as (Hg1 & _). rewrite Et in Hg1. congruence.
Qed.

Lemma grow_window_refines rb m required :
  RB_rep rb m -> zlen (rb_ring rb) < required <= REORDER_MAX_WINDOW ->
  exists rb', grow_window rb required = Some rb' /\ RB_rep rb' m /\ required <= zlen (rb_ring rb') /\
    rb_expected_seq rb' = rb_expected_seq rb /\ rb_gap_since rb' = rb_gap_since rb.
Proof.
  intros H Hreq. pose proof (rep_size _ _ H) as HN. unfold grow_window.
  destruct (rr_pow _ _ _ _ _ (rep_ring _ _ H)) as (j & Hj & E).
  destruct (Z.leb_spec REORDER_MAX_WINDOW (zlen (rb_ring rb))); [lia|].
  destruct (grow_size_spec 17 j required) as (j' & Hj' & Hg & Hle); [lia..|].
  rewrite E, Hg. assert (2 ^ j' <= REORDER_MAX_WINDOW) by (apply (Z.pow_le_mono_r 2 j' 16); lia).
  rewrite Z.min_l by done. destruct (Z.ltb_spec (2 ^ j') required); [lia|].
  assert (zlen (rb_ring rb) <= 2 ^ j') by lia.
  pose proof (regrow_refines rb m (2 ^ j') H ltac:(exists j'; split; lia) ltac:(lia) (length (rb_ring rb)) ltac:(lia)) as Hre.
  destruct (foldl _ _ _) as [[r sl] bm].
  replace (filter _ m) with m in Hre.
  2: { symmetry. apply map_filter_id. intros s f _. simpl. by apply slot_lt; [lia|]. }
  pose proof (rr_ring_len _ _ _ _ _ Hre) as Hlen.
  eexists. split; [done|]. cbn [rb_ring rb_expected_seq rb_gap_since]. rewrite Hlen.
  split_and!; try done. split; cbn; rewrite ?Hlen; try done; [apply H|].
  intros s f Hs. apply (rep_window _ _ H) in Hs. lia.
Qed.

(** ** Insertion *)

Lemma store_frame_rep rb m seq f :
  RB_rep rb m -> m !! seq = None ->
  1 <= rb_expected_seq rb <= seq -> seq < rb_expected_seq rb + zlen (rb_ring rb) -> seq <= U32_MAX ->
  RB_rep (store_frame rb seq f) (<[seq := f]> m).
Proof.
  intros H Hfree He Hw Hs. unfold store_frame. rewrite (rep_slot rb m) by done.
  split; cbn [rb_expected_seq rb_ring rb_seq_slots rb_bitmap rb_window_mask];
    rewrite ?length_insert; try apply H.
  - apply ring_rep_insert; [apply H|]. rewrite <-(rep_slot rb m) by done.
    by rewrite (rep_lookup rb m) by (done || lia).
  - intros s g. rewrite lookup_insert. case_decide as E; [subst; lia|]. apply H.
Qed.

Lemma spec_flush_noop a :
  sp_pending a !! sp_next a = None -> spec_flush a = (a, []).
Proof. intros E. unfold spec_flush. simpl. by rewrite E. Qed.

(** The frame is not so far behind that its 32-bit distance looks like a new
    frame inside the window. *)
Definition no_wrap (rb : ReorderBuffer) (seq : Z) : Prop :=
  1 <= seq <= U32_MAX /\ rb_expected_seq rb - seq <= 2 ^ 32 - REORDER_MAX_WINDOW.

Lemma diff_signed e s :
  is_u32 e -> 1 <= s <= U32_MAX -> e - s <= 2 ^ 32 - REORDER_MAX_WINDOW ->
  let d := u32_as_i32 (u32_wrap (s - e)) in
  (e <= s -> s - e < REORDER_MAX_WINDOW -> d = s - e) /\
  (s < e \/ REORDER_MAX_WINDOW <= s - e -> d < 0 \/ REORDER_MAX_WINDOW <= d).
Proof.
  unfold REORDER_MAX_WINDOW. unfold_ints. intros He Hs Hw. div_mod (s - e) 4294967296.
  destruct (Z.ltb_spec ((s - e) mod 4294967296) 2147483648); split; nia.
Qed.

Lemma set_expected_empty_rep rb seq :
  RB_rep rb ∅ -> 1 <= seq <= U32_MAX -> RB_rep (set_expected rb seq) ∅.
Proof. intros H Hs. split; simpl; try apply H; [unfold_ints; lia|done]. Qed.

(** [insert_into] after the first sequence number has been learned. *)
Definition learn (rb : ReorderBuffer) (seq : Z) : ReorderBuffer :=
  if rb_expected_seq rb =? 0 then set_expected rb seq else rb.

Lemma learn_inv rb m seq :
  RB_inv rb m -> no_wrap rb seq ->
  RB_inv (learn rb seq) m /\ 1 <= rb_expected_seq (learn rb seq) /\ no_wrap (learn rb seq) seq /\
  rb_expected_seq (learn rb seq) = (if rb_expected_seq rb =? 0 then seq else rb_expected_seq rb).
Proof.
  intros Hinv [Hseq Hnw]. pose proof (rep_expected _ _ (inv_rep _ _ Hinv)) as Hu. unfold is_u32 in Hu.
  unfold learn, no_wrap. destruct (Z.eqb_spec (rb_expected_seq rb) 0) as [E|];
    [|split_and!; done || lia].
  cbn [rb_expected_seq set_expected]. split_and!; try (unfold REORDER_MAX_WINDOW; lia).
  assert (m = ∅) as ->.
  { apply map_empty. intros s. destruct (m !! s) eqn:Es; [|done].
    apply (rep_window _ _ (inv_rep _ _ Hinv)) in Es. lia. }
  split; [apply set_expected_empty_rep; [apply Hinv|done]|done|apply Hinv].
Qed.

(** Too old, too far ahead, or already pending: the frame is dropped. *)
Definition grow_for (rb : ReorderBuffer) (diff : Z) : option ReorderBuffer :=
  if zlen (rb_ring rb) <=? diff then
    if REORDER_MAX_WINDOW <=? diff then None else grow_window rb (diff + 1)
  else Some rb.

Lemma grow_for_far rb m d :
  RB_rep rb m -> REORDER_MAX_WINDOW <= d -> grow_for rb d = None.
Proof.
  intros H Hd. pose proof (rep_size _ _ H). unfold grow_for.
  destruct (Z.leb_spec (zlen (rb_ring rb)) d); [|unfold REORDER_MAX_WINDOW in *; lia].
  by destruct (Z.leb_spec REORDER_MAX_WINDOW d); [|lia].
Qed.

Lemma grow_for_near rb m d :
  RB_rep rb m -> d < REORDER_MAX_WINDOW ->
  exists rb1, grow_for rb d = Some rb1 /\ RB_rep rb1 m /\ d < zlen (rb_ring rb1) /\
     rb_expected_seq rb1 = rb_expected_seq rb /\ rb_gap_since rb1 = rb_gap_since rb.
Proof.
  intros H Hd. unfold grow_for.
  destruct (Z.leb_spec (zlen (rb_ring rb)) d); [|by exists rb].
  destruct (Z.leb_spec REORDER_MAX_WINDOW d); [lia|].
  destruct (grow_window_refines rb m (d + 1)) as (rb1 & ? & ? & ? & ? & ?);
    [done|lia|]. exists rb1. split_and!; try done. lia.
Qed.

(** The last part of [insert_into]: the slot is free. *)
Lemma store_refines rb m now seq f rb' out :
  RB_rep rb m -> m !! rb_expected_seq rb = None -> m !! seq = None ->
  1 <= rb_expected_seq rb <= seq -> seq < rb_expected_seq rb + zlen (rb_ring rb) -> seq <= U32_MAX ->
  (if seq =? rb_expected_seq rb then flush_locked_into (store_frame rb seq f) now
   else (rb_refresh_gap (store_frame rb seq f) now, [])) = (rb', out) ->
  exists m', RB_inv rb' m' /\
    spec_flush {| sp_next := rb_expected_seq rb; sp_pending := <[seq := f]> m |} = (rb_abs rb' m', out).
Proof.
  intros H Hd Hfree He Hw Hs.
  pose proof (store_frame_rep rb m seq f H Hfree He Hw Hs) as Hst.
  destruct (Z.eqb_spec seq (rb_expected_seq rb)) as [Eq|Hne].
  - intros Hfl. exact (flush_locked_refines _ _ _ _ _ Hst Hfl).
  - intros [= <- <-]. exists (<[seq := f]> m).
    assert (Hd' : <[seq := f]> m !! rb_expected_seq rb = None) by by rewrite lookup_insert_ne.
    destruct (refresh_gap_inv _ _ now Hst Hd') as [Hi Hie].
    split; [done|]. rewrite spec_flush_noop by done. unfold rb_abs. by rewrite Hie.
Qed.

Lemma insert_into_refines rb m now seq f rb' out :
  RB_inv rb m -> no_wrap rb seq -> insert_into rb now seq f = (rb', out) ->
  exists m', RB_inv rb' m' /\ spec_insert (rb_abs rb m) seq f = (rb_abs rb' m', out).
Proof.
  intros Hinv Hnw. destruct (learn_inv rb m seq Hinv Hnw) as (Hinv0 & He1 & [Hseq Hnw0] & He0).
  unfold insert_into. destruct (Z.eqb_spec seq 0); [lia|]. fold (learn rb seq).
  unfold spec_insert. cbn [sp_next sp_pending rb_abs]. rewrite <-He0.
  clear He0 Hinv Hnw. revert Hinv0 He1 Hnw0. generalize (learn rb seq) as rb0. intros rb0 Hinv He1 Hnw.
  pose proof (inv_rep _ _ Hinv) as Hrep.
  destruct (diff_signed _ _ (rep_expected _ _ Hrep) Hseq Hnw) as [Hnear Hfar].
  set (d := u32_as_i32 (u32_wrap (seq - rb_expected_seq rb0))) in *. fold (grow_for rb0 d).
  destruct (decide (seq < rb_expected_seq rb0 \/ REORDER_MAX_WINDOW <= seq - rb_expected_seq rb0)) as [Hdrop|Hkeep].
  - assert (((seq <? rb_expected_seq rb0) || (REORDER_MAX_WINDOW <=? seq - rb_expected_seq rb0)) = true) as ->
      by (apply orb_true_iff; rewrite Z.ltb_lt, Z.leb_le; done).
    specialize (Hfar Hdrop). destruct (Z.ltb_spec d 0); [intros [= <- <-]; by exists m|].
    rewrite (grow_for_far _ m) by (done || lia). intros [= <- <-]; by exists m.
  - assert (((seq <? rb_expected_seq rb0) || (REORDER_MAX_WINDOW <=? seq - rb_expected_seq rb0)) = false) as ->
      by (apply orb_false_iff; rewrite Z.ltb_ge, Z.leb_gt; lia).
    rewrite Hnear by lia. destruct (Z.ltb_spec (seq - rb_expected_seq rb0) 0); [lia|].
    destruct (grow_for_near rb0 m (seq - rb_expected_seq rb0)) as (rb1 & -> & Hrep1 & Hw1 & He & Hg1);
      [done|lia|].
    rewrite (rep_lookup rb1 m) by (done || lia). rewrite <-He.
    assert (Hd1 : m !! rb_expected_seq rb1 = None) by (rewrite He; apply Hinv).
    destruct (m !! seq) as [g|] eqn:Em.
    + intros [= <- <-]. exists m. split; [|done]. split; [done|done|rewrite Hg1; apply Hinv].
    + intros Hst. eapply store_refines; [..|exact Hst]; done || lia.
Qed.

(** ** Timeouts *)

(** [s] is the first pending sequence number. *)
Definition first_pending (m : gmap Z frame) (s : Z) : Prop :=
  is_Some (m !! s) /\ forall s', is_Some (m !! s') -> s <= s'.

Lemma first_occupied_refines rb m fuel delta :
  RB_rep rb m -> 1 <= rb_expected_seq rb -> 0 <= delta -> m <> ∅ ->
  (zlen (rb_ring rb) - delta <= Z.of_nat fuel) ->
  (forall s, is_Some (m !! s) -> rb_expected_seq rb + delta <= s) ->
  exists d, first_occupied rb delta fuel = Some d /\ delta <= d /\
    rb_expected_seq rb + d <= U32_MAX /\ first_pending m (rb_expected_seq rb + d).
Proof.
  intros H He Hd0 Hm. pose proof (rep_size _ _ H).
  apply map_choose in Hm as (s0 & f0 & Hs0). pose proof (rep_window _ _ H _ _ Hs0) as Hw0.
  revert delta Hd0. induction fuel as [|fuel IH]; intros delta Hd0 Hfuel Hlow.
  { specialize (Hlow s0 ltac:(done)). lia. }
  specialize (Hlow s0 ltac:(done)) as Hlow0. simpl.
  destruct (Z.leb_spec (zlen (rb_ring rb)) delta); [lia|].
  assert (u32_wrap (rb_expected_seq rb + delta) = rb_expected_seq rb + delta) as ->.
  { apply Z.mod_small. unfold_ints. lia. }
  rewrite (rep_lookup rb m) by (done || lia).
  destruct (m !! (rb_expected_seq rb + delta)) as [f|] eqn:E.
  - exists delta. split_and!; [done|lia|lia|]. split; [by rewrite E|done].
  - destruct (IH (delta + 1)) as (d & ? & ? & ? & ?); [lia|lia| |].
    + intros s Hs. pose proof (Hlow s Hs). assert (s <> rb_expected_seq rb + delta); [|lia].
      intros ->. by rewrite E in Hs; destruct Hs.
    + exists d. split_and!; try done. lia.
Qed.

(** When the 50 ms deadline of a gap has passed, the buffer skips to the first
    pending frame and delivers the run that starts there. *)
Lemma flush_timeout_refines rb m now since rb' out :
  RB_inv rb m -> rb_gap_since rb = Some since -> REORDER_SKIP_DELAY <= now - since ->
  flush_timeout_into rb now = (rb', out) ->
  exists s m', first_pending m s /\ rb_expected_seq rb < s <= U32_MAX /\ RB_inv rb' m' /\
    spec_flush {| sp_next := s; sp_pending := m |} = (rb_abs rb' m', out).
Proof.
  intros Hinv Hg Hdl. pose proof (inv_rep _ _ Hinv) as H. unfold flush_timeout_into. rewrite Hg.
  assert (Hm : m <> ∅) by (intros E; apply (inv_gap _ _ Hinv) in E; congruence).
  destruct (Z.ltb_spec (now - since) REORDER_SKIP_DELAY); [lia|].
  destruct (rep_has_gap _ _ H (inv_drained _ _ Hinv)) as [_ ->]; [|done]. cbn [orb negb].
  pose proof (map_choose _ Hm) as (s0 & f0 & Hs0). pose proof (rep_window _ _ H _ _ Hs0) as Hw0.
  destruct (first_occupied_refines rb m (length (rb_ring rb)) 1) as (d & -> & Hd & Hu & Hfp);
    [done|lia|lia|done|lia| |].
  { intros s [f Hs]. pose proof (rep_window _ _ H _ _ Hs).
    assert (s <> rb_expected_seq rb); [|lia]. intros ->. by rewrite (inv_drained _ _ Hinv) in Hs. }
  assert (u32_wrap (rb_expected_seq rb + d) = rb_expected_seq rb + d) as ->.
  { apply Z.mod_small. unfold_ints. lia. }
  set (rb1 := set_gap _ _ _). assert (Hrep1 : RB_rep rb1 m).
  { split; simpl; try apply H; [unfold_ints; lia|]. intros s f Hs.
    pose proof (rep_window _ _ H _ _ Hs). destruct Hfp as [_ Hfp]. specialize (Hfp s ltac:(done)). lia. }
  intros Hfl. destruct (flush_locked_refines _ _ _ _ _ Hrep1 Hfl) as (m' & Hinv' & Hsp).
  exists (rb_expected_seq rb + d), m'. split_and!; try done; lia.
Qed.

Lemma flush_timeout_early rb now :
  match rb_gap_since rb with None => True | Some since => now - since < REORDER_SKIP_DELAY end ->
  flush_timeout_into rb now = (rb, []).
Proof.
  unfold flush_timeout_into. destruct (rb_gap_since rb) as [t|]; [|done]. intros Ht.
  by destruct (Z.ltb_spec (now - t) REORDER_SKIP_DELAY); [|lia].
Qed.

(** ** Reset and construction *)

Lemma new_inv : RB_inv ReorderBuffer_new ∅.
Proof.
  unfold ReorderBuffer_new. split; [split|done|done];
    cbn [rb_ring rb_seq_slots rb_bitmap rb_window_mask rb_expected_seq];
    rewrite ?length_replicate; try done.
  - rewrite Z2Nat.id by done. apply ring_rep_empty; [|done]. exists 11. unfold REORDER_INITIAL_WINDOW. lia.
Qed.

Lemma reset_inv rb m : RB_inv rb m -> RB_inv (ReorderBuffer_reset rb) ∅ /\ rb_expected_seq (ReorderBuffer_reset rb) = 0.
Proof.
  intros Hinv. split; [|done]. pose proof (inv_rep _ _ Hinv) as H.
  pose proof (rep_ring _ _ H) as [Hp Hr Hs Hb _ _ _ _].
  assert (Hc : forall {A B} (c : B) (l : list A), (fun _ => c) <$> l = replicate (length l) c).
  { intros A B c l. induction l; simpl; [done|by f_equal]. }
  split; [|done|done]. split; simpl; rewrite ?length_fmap; try done; [|apply H].
  rewrite !Hc. pose proof (ring_rep_empty _ _ Hp (eq_sym (Nat2Z.id (length (rb_ring rb))))) as He.
  replace (length (rb_seq_slots rb)) with (length (rb_ring rb)) by lia.
  replace (length (rb_bitmap rb)) with (length (rb_ring rb) / 64)%nat; [done|].
  rewrite <-Hb. by rewrite Nat.div_mul.
Qed.

Lemma StronglySorted_seqZ s n : StronglySorted Z.lt (seqZ s n).
Proof.
  destruct (Z_lt_le_dec n 0) as [|Hn]; [by rewrite seqZ_nil by lia; constructor|].
  revert s. pattern n. apply natlike_ind; [constructor| |done]. intros k Hk IH s.
  rewrite seqZ_cons by lia. rewrite Z.pred_succ. constructor; [apply IH|].
  apply Forall_forall. intros x Hx%elem_of_seqZ. lia.
Qed.

(** ** The abstract buffer delivers consecutive runs *)

Section Runs.
(** The frame sent with each sequence number. *)
Context (F : Z -> frame) (F_nonempty : forall s, F s <> []).

Definition tagged (m : gmap Z frame) : Prop := forall s f, m !! s = Some f -> f = F s.

Lemma drain_run fuel a a' out :
  tagged (sp_pending a) -> 1 <= sp_next a ->
  (forall s, is_Some (sp_pending a !! s) -> sp_next a <= s < U32_MAX) ->
  (size (sp_pending a) < fuel)%nat -> spec_drain fuel a = (a', out) ->
  exists n : nat, sp_next a' = sp_next a + Z.of_nat n /\ out = F <$> seqZ (sp_next a) (Z.of_nat n) /\
    (forall s, sp_next a <= s < sp_next a' -> is_Some (sp_pending a !! s)) /\
    (forall s, sp_pending a' !! s = if s <? sp_next a' then None else sp_pending a !! s) /\
    sp_pending a' !! sp_next a' = None.
Proof using F_nonempty.
  revert a a' out. induction fuel as [|fuel IH]; intros a a' out Ht Hn Hw Hsz; [lia|]. simpl.
  destruct (sp_pending a !! sp_next a) as [f|] eqn:E.
  - assert (Hb : sp_next a < U32_MAX) by (apply Hw; by rewrite E).
    assert (u32_wrap (sp_next a + 1) = sp_next a + 1) as -> by (apply Z.mod_small; unfold_ints; lia).
    destruct (spec_drain fuel _) as [a1 out1] eqn:Ed. intros [= <- <-].
    apply IH in Ed as (n & Hn1 & -> & Hall & Hp & Hd); simpl in *; [|..].
    + exists (S n). split_and!; [lia| | | |done].
      * rewrite (Ht _ _ E). unfold deliverable. specialize (F_nonempty (sp_next a)).
        destruct (F (sp_next a)) as [|x l] eqn:EF; [done|].
        rewrite (seqZ_cons (sp_next a)) by lia. rewrite fmap_cons, EF, Nat2Z.inj_succ, Z.pred_succ. done.
      * intros s Hs. destruct (decide (s = sp_next a)) as [->|]; [by rewrite E|].
        specialize (Hall s ltac:(lia)). by rewrite lookup_delete_ne in Hall.
      * intros s. rewrite Hp. destruct (Z.ltb_spec s (sp_next a1)); [done|].
        by rewrite lookup_delete_ne by lia.
    + intros s g. rewrite lookup_delete. case_decide; [done|]. apply Ht.
    + lia.
    + intros s. rewrite lookup_delete. case_decide; [by intros []|]. intros Hs. apply Hw in Hs. lia.
    + rewrite map_size_delete, E. assert (size (sp_pending a) <> 0%nat); [|lia].
      rewrite map_size_non_empty_iff. intros E'. by rewrite E' in E.
  - intros [= <- <-]. exists 0%nat. split_and!; [lia|done|lia| |done].
    intros s. destruct (Z.ltb_spec s (sp_next a)); [|done].
    destruct (sp_pending a !! s) eqn:Es; [|done]. specialize (Hw s ltac:(by rewrite Es)). lia.
Qed.

(** The last number whose successor is again a sequence number.  The sender
    also uses 0xffffffff: delivering that one wraps [expected_seq] to 0, the value
    that means "nothing learned yet" ([last_number_forgets]). *)
Definition SEQ_LIMIT : Z := U32_MAX - 1.

(** How far a frame may lag behind another one before the 32-bit distance
    takes it for a new frame. *)
Definition STALE_LIMIT : Z := 2 ^ 32 - REORDER_MAX_WINDOW.

(** Arrivals none of which is [STALE_LIMIT] or more behind an earlier one. *)
Definition recent : list Z -> Prop := StronglySorted (fun earlier later => earlier - later < STALE_LIMIT).

(** A well-formed abstract buffer whose pending frames were all sent ([P]). *)
Record run_inv (P : Z -> Prop) (a : reorder_spec) : Prop := {
  ri_tagged : tagged (sp_pending a);
  ri_keys : forall s, is_Some (sp_pending a !! s) -> P s /\ sp_next a < s;
  ri_next : sp_next a = 0 \/ exists x, P x /\ 1 <= sp_next a <= x + 1;
  ri_learn : sp_next a = 0 -> sp_pending a = ∅ }.

Lemma run_inv_mono (P Q : Z -> Prop) a : (forall x, P x -> Q x) -> run_inv P a -> run_inv Q a.
Proof using.
  intros HPQ [Ht Hk Hn Hl]. split; [done| | |done].
  - intros s Hs. apply Hk in Hs as [? ?]. auto.
  - destruct Hn as [|(x & ? & ?)]; eauto.
Qed.

(** One operation delivers exactly the run [s, s+n) and moves [next] to its end. *)
Definition delivers_run (P : Z -> Prop) (s : Z) (a' : reorder_spec) (out : list frame) : Prop :=
  exists n : nat, sp_next a' = s + Z.of_nat n /\ out = F <$> seqZ s (Z.of_nat n) /\
    forall x, s <= x < s + Z.of_nat n -> P x.

Lemma flush_run P s M a' out :
  (forall x, P x -> 1 <= x <= SEQ_LIMIT) -> 1 <= s -> (exists x, P x /\ s <= x + 1) -> tagged M ->
  (forall x, is_Some (M !! x) -> P x /\ s <= x) ->
  spec_flush {| sp_next := s; sp_pending := M |} = (a', out) ->
  run_inv P a' /\ delivers_run P s a' out /\
  (forall x, is_Some (M !! x) -> x < sp_next a' \/ is_Some (sp_pending a' !! x)).
Proof using F_nonempty.
  intros HP Hs (y & Hy & Hsy) Ht Hk Hf. assert (HL : SEQ_LIMIT + 1 = U32_MAX) by done. pose proof (HP y Hy).
  apply drain_run in Hf as (n & Hn & Hout & Hall & Hp & Hd); cbn [sp_next sp_pending] in *;
    [|done|lia|intros x Hx; destruct (Hk x Hx) as [Hx1 ?]; apply HP in Hx1; lia|lia].
  assert (Hrun : forall x, s <= x < s + Z.of_nat n -> P x) by (intros x Hx; apply Hk, Hall; lia).
  split; [|split; [by exists n|]].
  - split.
    + intros x f. rewrite Hp. case_match; [done|]. apply Ht.
    + intros x Hx. assert (x <> sp_next a') by (intros ->; rewrite Hd in Hx; by destruct Hx).
      rewrite Hp in Hx. destruct (Z.ltb_spec x (sp_next a')); [by destruct Hx|].
      split; [by apply Hk|lia].
    + right. destruct (decide (n = 0%nat)); [exists y; split; [done|lia]|].
      exists (sp_next a' - 1). split; [apply Hrun; lia|lia].
    + lia.
  - intros x Hx. rewrite Hp. destruct (Z.ltb_spec x (sp_next a')); [by left|by right].
Qed.

(** The run that an insertion delivers starts at the next expected sequence
    number, or at the frame's own number when none is known yet. *)
Lemma insert_run P a s a' out :
  (forall x, P x -> 1 <= x <= SEQ_LIMIT) -> run_inv P a -> P s ->
  spec_insert a s (F s) = (a', out) ->
  let e := if sp_next a =? 0 then s else sp_next a in
  run_inv P a' /\ delivers_run P e a' out /\
  (forall x, is_Some (sp_pending a !! x) -> x < sp_next a' \/ is_Some (sp_pending a' !! x)) /\
  (s - e < REORDER_MAX_WINDOW -> s < sp_next a' \/ is_Some (sp_pending a' !! s)).
Proof using F_nonempty.
  intros HP [Ht Hk Hn Hl] Hs. pose proof (HP s Hs) as Hsb. unfold spec_insert.
  set (e := if _ =? 0 then _ else _). assert (He : exists x, P x /\ 1 <= e <= x + 1).
  { subst e. destruct (Z.eqb_spec (sp_next a) 0); [exists s; split; [done|lia]|]. destruct Hn; [lia|done]. }
  assert (He1 : 1 <= e) by (destruct He; lia).
  assert (Hke : forall x, is_Some (sp_pending a !! x) -> P x /\ e < x).
  { intros x Hx. split; [by apply Hk|]. subst e. destruct (Z.eqb_spec (sp_next a) 0) as [E|];
      [|by apply Hk]. rewrite (Hl E) in Hx. by destruct Hx. }
  assert (Hstay : run_inv P {| sp_next := e; sp_pending := sp_pending a |} /\
    delivers_run P e {| sp_next := e; sp_pending := sp_pending a |} []).
  { split; [split; cbn; try done; [by right|lia]|]. exists 0%nat. cbn. split_and!; [lia|done|lia]. }
  destruct ((s <? e) || (REORDER_MAX_WINDOW <=? s - e)) eqn:Eb.
  - intros [= <- <-]. apply orb_true_iff in Eb. rewrite Z.ltb_lt, Z.leb_le in Eb. cbn [sp_next sp_pending].
    split_and!; [apply Hstay..|by right|intros; left; lia].
  - apply orb_false_iff in Eb as [Eb1%Z.ltb_ge Eb2%Z.leb_gt].
    destruct (sp_pending a !! s) as [g|] eqn:Es.
    + intros [= <- <-]. cbn [sp_next sp_pending]. split_and!; [apply Hstay..|by right|right; by rewrite Es].
    + intros Hf. eapply (flush_run P) in Hf as (Hri & Hd & Hkeep); [|done|done|exists s; split; [done|lia]|..].
      * split_and!; [done..| |].
        -- intros x Hx. apply Hkeep. rewrite lookup_insert. by case_decide.
        -- intros _. apply Hkeep. by rewrite lookup_insert_eq.
      * intros x f. rewrite lookup_insert. case_decide; [by intros [= <-]; subst|]. apply Ht.
      * intros x. rewrite lookup_insert. case_decide; [by subst|]. intros Hx. split; [by apply Hke|].
        apply Hke in Hx. lia.
Qed.

(** *** Traces: insertions and timer polls in any order *)

Inductive rb_event := EvInsert (now seq : Z) | EvTimeout (now : Z).

Definition rb_step (rb : ReorderBuffer) (ev : rb_event) : ReorderBuffer * list frame :=
  match ev with
  | EvInsert now seq => insert_into rb now seq (F seq)
  | EvTimeout now => flush_timeout_into rb now
  end.

Fixpoint rb_run (rb : ReorderBuffer) (evs : list rb_event) : ReorderBuffer * list frame :=
  match evs with
  | [] => (rb, [])
  | ev :: evs' =>
      let '(rb1, out1) := rb_step rb ev in
      let '(rb2, out2) := rb_run rb1 evs' in (rb2, out1 ++ out2)
  end.

Definition inserted (evs : list rb_event) : list Z :=
  omap (fun ev => match ev with EvInsert _ seq => Some seq | EvTimeout _ => None end) evs.

Lemma inserted_app evs1 evs2 : inserted (evs1 ++ evs2) = inserted evs1 ++ inserted evs2.
Proof using. apply omap_app. Qed.
Lemma inserted_cons ev evs : inserted (ev :: evs) = inserted [ev] ++ inserted evs.
Proof using. apply (inserted_app [ev]). Qed.

Definition good_state (P : Z -> Prop) (rb : ReorderBuffer) : Prop :=
  exists m, RB_inv rb m /\ run_inv P (rb_abs rb m).

Lemma step_run P rb ev rb' out :
  (forall x, P x -> 1 <= x <= SEQ_LIMIT) -> good_state P rb ->
  (forall x, x ∈ inserted [ev] -> P x /\ rb_expected_seq rb - x <= STALE_LIMIT) -> rb_step rb ev = (rb', out) ->
  good_state P rb' /\ exists s l, rb_expected_seq rb <= s /\ out = F <$> seqZ s l /\
    0 <= l /\ s + l = rb_expected_seq rb' /\ forall x, s <= x < s + l -> P x.
Proof using F_nonempty.
  intros HP (m & Hinv & Hri) Hev Hst. destruct ev as [now seq|now]; simpl in Hst.
  - destruct (Hev seq ltac:(by constructor)) as [Hseq Hrec]. pose proof (HP _ Hseq).
    eapply insert_into_refines in Hst as (m' & Hinv' & Hsp); [|done|split; [unfold SEQ_LIMIT in *; lia|done]].
    eapply insert_run in Hsp as (Hri' & (n & Hn & -> & HPx) & _); [|done..].
    split; [by exists m'|]. cbn [sp_next rb_abs] in *.
    eexists _, _. split_and!; [|done|lia|by rewrite Hn|done].
    destruct (Z.eqb_spec (rb_expected_seq rb) 0); lia.
  - assert (Hidle : flush_timeout_into rb now = (rb, []) \/
      exists since, rb_gap_since rb = Some since /\ REORDER_SKIP_DELAY <= now - since).
    { destruct (rb_gap_since rb) as [since|] eqn:Eg; [|left; apply flush_timeout_early; by rewrite Eg].
      destruct (Z_lt_le_dec (now - since) REORDER_SKIP_DELAY); [left; apply flush_timeout_early; by rewrite Eg|].
      right; eauto. }
    destruct Hidle as [He|(since & Eg & Hdl)].
    + rewrite He in Hst. simplify_eq. split; [by exists m|].
      exists (rb_expected_seq rb'), 0. split_and!; done || lia.
    + eapply flush_timeout_refines in Hst as (s & m' & [Hs1 Hs2] & Hs & Hinv' & Hsp); [|done..].
      pose proof (ri_keys _ _ Hri) as Hk. cbn [sp_next sp_pending rb_abs] in Hk.
      eapply (flush_run P) in Hsp as (Hri' & (n & Hn & -> & HPx) & _); [|done| | |apply Hri|].
      * split; [by exists m'|]. cbn [sp_next rb_abs] in *. eexists _, _. split_and!; [|done|lia|by rewrite Hn|done]. lia.
      * by apply HP, Hk.
      * exists s. split; [by apply Hk|lia].
      * intros x Hx. split; [by apply Hk|by apply Hs2].
Qed.

Lemma good_state_mono (P Q : Z -> Prop) rb : (forall x, P x -> Q x) -> good_state P rb -> good_state Q rb.
Proof using. intros HPQ (m & Hi & Hr). exists m. split; [done|by eapply run_inv_mono]. Qed.

Lemma good_state_expected P rb s :
  good_state P rb -> 0 <= s -> (forall x, P x -> x - s < STALE_LIMIT) -> rb_expected_seq rb - s <= STALE_LIMIT.
Proof using.
  intros (m & _ & Hr) Hs Hx. destruct (ri_next _ _ Hr) as [E|(x & HP & Hn)]; cbn in *; [|specialize (Hx x HP); lia].
  rewrite E. unfold STALE_LIMIT, REORDER_MAX_WINDOW. lia.
Qed.

(** A run of events: [P] are the numbers that arrived before it. *)
Lemma run_sorted evs : forall (P : Z -> Prop) rb rb' out,
  (forall x, P x \/ x ∈ inserted evs -> 1 <= x <= SEQ_LIMIT) -> good_state P rb ->
  (forall x s, P x -> s ∈ inserted evs -> x - s < STALE_LIMIT) -> recent (inserted evs) ->
  rb_run rb evs = (rb', out) ->
  good_state (fun x => P x \/ x ∈ inserted evs) rb' /\ rb_expected_seq rb <= rb_expected_seq rb' /\
  exists l, out = F <$> l /\ StronglySorted Z.lt l /\
    forall x, x ∈ l -> (P x \/ x ∈ inserted evs) /\ rb_expected_seq rb <= x < rb_expected_seq rb'.
Proof using F_nonempty.
  induction evs as [|ev evs IH]; intros P rb rb' out HP Hg Hfar Hrec; cbn [rb_run].
  { intros [= <- <-]. split_and!; [by eapply good_state_mono; [|exact Hg]; auto|lia|].
    exists []. split_and!; [done|constructor|by intros ? ?%elem_of_nil]. }
  assert (Hin : forall x, x ∈ inserted (ev :: evs) <-> x ∈ inserted [ev] \/ x ∈ inserted evs)
    by (intros x; by rewrite inserted_cons, elem_of_app).
  setoid_rewrite Hin in HP. setoid_rewrite Hin in Hfar. rewrite inserted_cons in Hrec.
  destruct (rb_step rb ev) as [rb1 out1] eqn:E1. destruct (rb_run rb1 evs) as [rb2 out2] eqn:E2. intros [= <- <-].
  set (Q := fun x => P x \/ x ∈ inserted [ev]).
  eapply (step_run Q) in E1 as (Hg1 & s & n & Hs & -> & Hn & He & HPx);
    [|intros x [?|?]; apply HP; tauto|eapply good_state_mono; [|exact Hg]; by left|].
  2: { intros x Hx. split; [by right|]. eapply good_state_expected; [exact Hg| |by eauto]. specialize (HP x). destruct HP; [tauto|lia]. }
  apply StronglySorted_app in Hrec as (Hcross & _ & Hrec).
  eapply (IH Q) in E2 as (Hg2 & Hle & l & -> & Hsrt & Hl); [|intros x [[?|?]|?]; apply HP; tauto|done| |done].
  2: { intros x y [Hx|Hx] Hy; [by eauto|by apply Hcross]. }
  assert (HQ : forall x, Q x \/ x ∈ inserted evs -> P x \/ x ∈ inserted (ev :: evs)) by (intros x; unfold Q; rewrite Hin; tauto).
  split_and!; [by apply (good_state_mono _ _ _ HQ)|lia|]. exists (seqZ s n ++ l). rewrite fmap_app. split_and!; [done| |].
  - apply StronglySorted_app_2; [|apply StronglySorted_seqZ|done].
    intros x y Hx%elem_of_seqZ Hy. apply Hl in Hy. lia.
  - intros x [Hx%elem_of_seqZ|Hx]%elem_of_app; [split; [apply HQ; left; by apply HPx|lia]|].
    apply Hl in Hx as [? ?]. split; [by apply HQ|lia].
Qed.

(** Without timer polls the delivered frames are one contiguous run, and
    nothing that was inserted inside the window is lost. *)
Lemma inserts_run P rb m evs rb' out lo hi :
  (forall x, P x -> 1 <= x <= SEQ_LIMIT /\ lo <= x < hi) -> RB_inv rb m -> run_inv P (rb_abs rb m) ->
  1 <= lo -> hi - lo <= REORDER_MAX_WINDOW -> lo <= rb_expected_seq rb ->
  Forall (fun ev => match ev with EvInsert _ s => P s | EvTimeout _ => False end) evs ->
  rb_run rb evs = (rb', out) ->
  exists m' n, RB_inv rb' m' /\ run_inv P (rb_abs rb' m') /\
    rb_expected_seq rb' = rb_expected_seq rb + Z.of_nat n /\
    out = F <$> seqZ (rb_expected_seq rb) (Z.of_nat n) /\
    (forall x, rb_expected_seq rb <= x < rb_expected_seq rb' -> P x) /\
    (forall x, is_Some (m !! x) \/ x ∈ inserted evs -> x < rb_expected_seq rb' \/ is_Some (m' !! x)).
Proof using F_nonempty.
  intros HP Hi Hr Hlo Hw. revert rb m rb' out Hi Hr. induction evs as [|[now s|] evs IH];
    intros rb m rb' out Hi Hr Hlb Hev; simpl; [|apply Forall_cons in Hev as [Hs Hev]|by apply Forall_cons in Hev as [? _]].
  { intros [= <- <-]. exists m, 0%nat. split_and!; [done..|lia|done|lia|]. intros x [|?%elem_of_nil]; [by right|done]. }
  destruct (insert_into rb now s (F s)) as [rb1 out1] eqn:E1.
  destruct (rb_run rb1 evs) as [rb2 out2] eqn:E2. intros [= <- <-]. pose proof (HP s Hs).
  assert (Hbound : rb_expected_seq rb <= hi).
  { destruct (ri_next _ _ Hr) as [E|(x & Hx%HP & Hn)]; cbn in *; lia. }
  eapply insert_into_refines in E1 as (m1 & Hi1 & Hsp);
    [|done|split; unfold SEQ_LIMIT, REORDER_MAX_WINDOW in *; lia].
  eapply insert_run in Hsp as (Hr1 & (n & Hn & -> & HPx) & Hkeep & Hin); [|by intros; apply HP|done..].
  cbn [sp_next sp_pending rb_abs] in *.
  destruct (Z.eqb_spec (rb_expected_seq rb) 0) as [|_]; [lia|].
  eapply IH in E2 as (m2 & n2 & Hi2 & Hr2 & Hn2 & -> & HPx2 & Hall); [|done..|lia|done].
  exists m2, (n + n2)%nat. split_and!; [done..|lia| | |].
  - rewrite Nat2Z.inj_add, seqZ_app, fmap_app by lia. by rewrite Hn.
  - intros x Hx. destruct (Z_lt_le_dec x (rb_expected_seq rb1)); [apply HPx; lia|apply HPx2; lia].
  - intros x Hx. assert (x < rb_expected_seq rb1 \/ is_Some (m1 !! x) \/ x ∈ inserted evs) as Hx1.
    { destruct Hx as [Hx|[->|Hx]%elem_of_cons]; [apply Hkeep in Hx; tauto| |tauto].
      destruct Hin; [lia|tauto|tauto]. }
    destruct Hx1 as [|Hx1]; [lia|]. by apply Hall.
Qed.
End Runs.

Lemma new_good F P : good_state F P ReorderBuffer_new.
Proof.
  exists ∅. split; [apply new_inv|].
  split; cbn [sp_pending rb_abs]; [|intros s|by left|done]; [intros s f|]; rewrite lookup_empty; [done|by intros []].
Qed.

(** ** The direct path *)

Lemma insert_expected rb now s f rb' out :
  RB_inv rb ∅ -> 1 <= s <= U32_MAX -> s = (if rb_expected_seq rb =? 0 then s else rb_expected_seq rb) ->
  insert_into rb now s f = (rb', out) ->
  RB_inv rb' ∅ /\ rb_expected_seq rb' = u32_wrap (s + 1) /\ out = deliverable f.
Proof.
  intros Hinv Hs He Hin. pose proof (rep_expected _ _ (inv_rep _ _ Hinv)) as Hu.
  eapply insert_into_refines in Hin as (m' & Hinv' & Hsp); [|done|].
  2: { unfold no_wrap, REORDER_MAX_WINDOW. destruct (Z.eqb_spec (rb_expected_seq rb) 0); lia. }
  unfold spec_insert in Hsp. cbn [sp_next sp_pending rb_abs] in Hsp. rewrite <-He in Hsp.
  rewrite Z.ltb_irrefl, Z.sub_diag in Hsp. simpl in Hsp. rewrite lookup_empty in Hsp.
  unfold spec_flush in Hsp. simpl in Hsp. rewrite lookup_insert_eq in Hsp.
  rewrite delete_insert_id in Hsp by done.
  assert (Hd : forall fuel n, spec_drain fuel {| sp_next := n; sp_pending := ∅ |} = ({| sp_next := n; sp_pending := ∅ |}, [])).
  { intros [|fuel] n; [done|]. simpl. by rewrite lookup_empty. }
  rewrite Hd, app_nil_r in Hsp. injection Hsp as E1 E2 <-. rewrite E1, E2. done.
Qed.

Lemma direct_is_insert_all input rb now seen e' b :
  RB_inv rb ∅ -> Forall is_u32 input.*1 ->
  (seen = true -> rb_expected_seq rb = 0 -> input = []) ->
  advance_loop (rb_expected_seq rb) seen input.*1 = Some (e', b) ->
  exists rb2, insert_all rb now input = (rb2, concat ((fun p => deliverable p.2) <$> input)) /\
    RB_inv rb2 ∅ /\ rb_expected_seq rb2 = e'.
Proof.
  revert rb seen. induction input as [|[s f] input IH]; intros rb seen Hinv Hu Hseen; simpl.
  { intros [= <- _]. by exists rb. }
  apply Forall_cons in Hu as [Hus Hu]. simpl in Hus.
  set (x := if negb seen && (rb_expected_seq rb =? 0) then s else rb_expected_seq rb).
  destruct (Z.eqb_spec s 0) as [|Hs0]; [done|]. destruct (Z.eqb_spec s x) as [Hx|]; [|done]. simpl.
  rewrite <-Hx. intros Hadv. destruct (insert_into rb now s f) as [rb1 out1] eqn:E1.
  apply insert_expected in E1 as (Hinv1 & He1 & ->); [|done|unfold_ints; lia|].
  2: { subst x. destruct (Z.eqb_spec (rb_expected_seq rb) 0); [done|by rewrite andb_false_r in Hx]. }
  rewrite <-He1 in Hadv. destruct (IH rb1 true Hinv1) as (rb2 & Hall & ? & ?); [done| |done|].
  - intros _ E. rewrite E in Hadv. destruct input as [|[s2 f2] input]; [done|].
    simpl in Hadv. exfalso. destruct (Z.eqb_spec s2 0); done.
  - exists rb2. rewrite Hall. done.
Qed.

(** ** Correctness of the reorder buffer *)

(** C5: from its initial state, under any interleaving of frame arrivals
    (reordered, duplicated or late) and timer polls, the reorder buffer delivers
    frames of the sender in strictly increasing sequence order, each at most
    once, and only frames that arrived.  The numbers are those the sender uses
    in an epoch except its very last one, 0xffffffff, and no frame lags 2^32 -
    65536 or more numbers behind one that arrived before it. *)
Theorem reorder_in_order_exactly_once (F : Z -> frame) evs rb out :
  (forall s, F s <> []) -> Forall (fun s => 1 <= s <= U32_MAX - 1) (inserted evs) ->
  recent (inserted evs) -> rb_run F ReorderBuffer_new evs = (rb, out) ->
  exists l, out = F <$> l /\ StronglySorted Z.lt l /\ forall s, s ∈ l -> s ∈ inserted evs.
Proof.
  intros HF Hev Hrec Hrun. rewrite Forall_forall in Hev.
  eapply (run_sorted F HF evs (fun _ => False)) in Hrun as (_ & _ & l & -> & Hs & Hl);
    [|intros x [[]|?]; by apply Hev|apply new_good|done|done].
  exists l. split_and!; [done|done|]. intros s Hsl. by destruct (Hl s Hsl) as [[[]|?] _].
Qed.

Lemma reorder_in_order_exactly_once_witness :
  let F := fun s => [s mod 256] in
  let evs := [EvInsert 0 4294967290; EvInsert 1 4294967292; EvInsert 2 4294967292; EvInsert 3 4294967294;
              EvTimeout 60; EvInsert 61 4294967291; EvTimeout 120] in
  exists l, (rb_run F ReorderBuffer_new evs).2 = F <$> l /\ StronglySorted Z.lt l /\
    forall s, s ∈ l -> s ∈ inserted evs.
Proof.
  intros F evs. eapply (reorder_in_order_exactly_once F evs (rb_run F ReorderBuffer_new evs).1);
    [done| | |apply surjective_pairing].
  - repeat constructor; done.
  - repeat constructor; vm_compute; done.
Defined.

(** The end of the number space: delivering 0xffffffff makes [expected_seq] 0,
    so the buffer learns its next number from whatever comes; the duplicate of
    an earlier frame is delivered a second time. *)
Theorem last_number_forgets (F : Z -> frame) rb now now' s :
  F U32_MAX <> [] -> F s <> [] -> RB_inv rb ∅ -> rb_expected_seq rb = U32_MAX -> 1 <= s <= U32_MAX ->
  exists rb1 rb2, insert_into rb now U32_MAX (F U32_MAX) = (rb1, [F U32_MAX]) /\ rb_expected_seq rb1 = 0 /\
    insert_into rb1 now' s (F s) = (rb2, [F s]).
Proof.
  intros HF HFs Hi He Hs.
  assert (Hdel : forall x, F x <> [] -> deliverable (F x) = [F x]) by (intros x Hx; unfold deliverable; by destruct (F x)).
  destruct (insert_into rb now U32_MAX (F U32_MAX)) as [rb1 o1] eqn:E1.
  apply insert_expected in E1 as (Hi1 & He1 & ->); [|done|done|by rewrite He].
  change (u32_wrap (U32_MAX + 1)) with 0 in He1.
  destruct (insert_into rb1 now' s (F s)) as [rb2 o2] eqn:E2.
  destruct (insert_expected _ _ _ _ _ _ Hi1 Hs ltac:(by rewrite He1) E2) as (_ & _ & ->).
  exists rb1, rb2. by rewrite E2, !Hdel.
Qed.

Lemma last_number_forgets_witness :
  let F := fun s => [s mod 256] in
  let rb := set_expected ReorderBuffer_new U32_MAX in
  exists rb1 rb2, insert_into rb 0 U32_MAX (F U32_MAX) = (rb1, [F U32_MAX]) /\ rb_expected_seq rb1 = 0 /\
    insert_into rb1 1 (U32_MAX - 1) (F (U32_MAX - 1)) = (rb2, [F (U32_MAX - 1)]).
Proof.
  intros F rb. apply last_number_forgets; [done|done| |done|done].
  pose proof new_inv as [Hr Hd Hg]. split; [apply set_expected_empty_rep; done|done|done].
Defined.

Definition is_insert (ev : rb_event) : Prop := match ev with EvInsert _ _ => True | EvTimeout _ => False end.

Lemma permutation_delivered (F : Z -> frame) rb evs n :
  (forall s, F s <> []) -> RB_inv rb ∅ -> 1 <= rb_expected_seq rb -> Forall is_insert evs ->
  inserted evs ≡ₚ seqZ (rb_expected_seq rb) n -> 0 <= n <= REORDER_MAX_WINDOW ->
  rb_expected_seq rb + n <= SEQ_LIMIT ->
  exists rb', rb_run F rb evs = (rb', F <$> seqZ (rb_expected_seq rb) n) /\
    RB_inv rb' ∅ /\ rb_expected_seq rb' = rb_expected_seq rb + n.
Proof.
  intros HF Hinv He Hev Hp Hn Hlim. set (e := rb_expected_seq rb) in *.
  assert (Hss : forall s, s ∈ inserted evs <-> e <= s < e + n) by (intros s; rewrite Hp; apply elem_of_seqZ).
  destruct (decide (n = 0)) as [->|Hn0].
  { destruct evs as [|[|] evs]; [|by apply Permutation_sym, Permutation_nil_cons in Hp|by apply Forall_cons in Hev as [[] _]].
    exists rb. cbn. split_and!; [done|done|lia]. }
  destruct (rb_run F rb evs) as [rb' out] eqn:Er. exists rb'.
  eapply (inserts_run F HF (fun s => s ∈ inserted evs) _ ∅ _ _ _ e (e + n)) in Er as (m' & k & Hi' & Hr' & Hk & -> & HP & Hall);
    [|intros x Hx%Hss; lia|done| |lia..| ].
  - fold e in Hk.
    assert (Hgot : e + n <= rb_expected_seq rb').
    { destruct (Z_lt_le_dec (rb_expected_seq rb') (e + n)) as [Hlt|]; [|done].
      destruct (Hall (rb_expected_seq rb')) as [|Hx]; [right; apply Hss; lia|lia|].
      rewrite (inv_drained _ _ Hi') in Hx. by destruct Hx. }
    assert (Hmax : rb_expected_seq rb' <= e + n).
    { destruct (decide (k = 0%nat)); [lia|].
      specialize (HP (rb_expected_seq rb' - 1) ltac:(lia)). apply Hss in HP. lia. }
    assert (Z.of_nat k = n) as -> by lia. split; [done|split; [|lia]].
    assert (m' = ∅) as <-; [|done]. apply map_empty. intros x. destruct (m' !! x) eqn:Ex; [|done].
    destruct (ri_keys _ _ _ Hr' x ltac:(by exists l)) as [Hx%Hss Hx2]. cbn in Hx2. lia.
  - split; cbn [sp_pending sp_next rb_abs]; [|intros s| |done]; [intros s f|..]; rewrite ?lookup_empty;
      [done|by intros []|]. right. exists e. split; [apply Hss; lia|subst e; lia].
  - rewrite Forall_forall in Hev |- *. intros [now s|now] Hin; [|by apply Hev in Hin].
    assert (s ∈ inserted evs) as Hs by (apply list_elem_of_omap; by exists (EvInsert now s)).
    done.
Qed.



(** C14: every insertion of the concrete ring (growth, bitmap and slot
    arithmetic included) behaves like an insertion into an unbounded-size map
    with the 65536-wide acceptance window, and preserves the representation. *)
Theorem insert_refines_map rb m now seq f :
  RB_inv rb m -> no_wrap rb seq ->
  exists m', RB_inv (insert_into rb now seq f).1 m' /\
    spec_insert (rb_abs rb m) seq f
      = (rb_abs (insert_into rb now seq f).1 m', (insert_into rb now seq f).2).
Proof.
  intros Hinv Hnw. destruct (insert_into rb now seq f) as [rb' out] eqn:E. by eapply insert_into_refines.
Qed.

Lemma insert_refines_map_witness :
  exists m', RB_inv (insert_into ReorderBuffer_new 5 3000 [1; 2]).1 m' /\
    spec_insert (rb_abs ReorderBuffer_new ∅) 3000 [1; 2]
      = (rb_abs (insert_into ReorderBuffer_new 5 3000 [1; 2]).1 m', [[1; 2]]).
Proof.
  apply (insert_refines_map ReorderBuffer_new ∅ 5 3000 [1; 2]); [apply new_inv|done].
Defined.

(** Head-of-line blocking is bounded: once the gap timer is 50 ms old, a
    poll delivers the first pending frame and the run that follows it, and the
    buffer moves past them; before that the poll changes nothing. *)
Theorem timeout_releases_first_pending rb m now since :
  RB_inv rb m -> rb_gap_since rb = Some since ->
  (now - since < REORDER_SKIP_DELAY -> flush_timeout_into rb now = (rb, [])) /\
  (REORDER_SKIP_DELAY <= now - since ->
   exists s m', first_pending m s /\ rb_expected_seq rb < s /\
     RB_inv (flush_timeout_into rb now).1 m' /\
     spec_flush {| sp_next := s; sp_pending := m |}
       = (rb_abs (flush_timeout_into rb now).1 m', (flush_timeout_into rb now).2)).
Proof.
  intros Hinv Hg. split.
  - intros Ht. apply flush_timeout_early. by rewrite Hg.
  - intros Ht. destruct (flush_timeout_into rb now) as [rb' out] eqn:E.
    eapply flush_timeout_refines in E as (s & m' & ? & ? & ? & ?); [|done..]. exists s, m'. split_and!; done || lia.
Qed.

Lemma timeout_releases_first_pending_witness :
  let rb := (insert_all ReorderBuffer_new 0 [(7, [7]); (9, [9])]).1 in
  exists m since, RB_inv rb m /\ rb_gap_since rb = Some since /\
  exists s m', first_pending m s /\ rb_expected_seq rb < s /\ RB_inv (flush_timeout_into rb 50).1 m' /\
    spec_flush {| sp_next := s; sp_pending := m |} = (rb_abs (flush_timeout_into rb 50).1 m', [[9]]).
Proof.
  intros rb. destruct (insert_into ReorderBuffer_new 0 7 [7]) as [rb1 o1] eqn:E1.
  pose proof (insert_expected _ 0 7 [7] _ _ new_inv ltac:(done) ltac:(done) E1) as (Hi1 & He1 & _).
  destruct (insert_into rb1 0 9 [9]) as [rb2 o2] eqn:E2.
  assert (Hrb : rb = rb2) by (subst rb; cbn [insert_all]; by rewrite E1, E2).
  eapply insert_into_refines in E2 as (m & Hi2 & _);
    [|exact Hi1|unfold no_wrap; rewrite He1; vm_compute; intuition discriminate].
  rewrite <-Hrb in Hi2. exists m, 0. split; [done|]. split; [vm_compute; done|].
  destruct (timeout_releases_first_pending rb m 50 0 Hi2 ltac:(vm_compute; done)) as [_ H].
  destruct (H ltac:(done)) as (s & m' & ? & ? & ? & Hs). exists s, m'. split_and!; [done..|].
  assert ((flush_timeout_into rb 50).2 = [[9]]) as <- by (vm_compute; done). exact Hs.
Defined.

Lemma direct_is_inserts rb m now input rb' out :
  RB_inv rb m -> Forall is_u32 input.*1 -> try_direct_batch rb input = Some (rb', out) ->
  RB_inv rb' ∅ /\ exists rb2, insert_all rb now input = (rb2, out) /\
    RB_inv rb2 ∅ /\ rb_expected_seq rb2 = rb_expected_seq rb'.
Proof.
  unfold try_direct_batch, try_advance_sequences. intros Hinv Hu.
  destruct (rb_gap_since rb) eqn:Eg; [done|]. apply (inv_gap _ _ Hinv) in Eg as ->.
  destruct (advance_loop _ _ _) as [[e' [|]]|] eqn:Ea; [|done..]. intros [= <- <-].
  destruct (direct_is_insert_all input rb now false e' true) as (rb2 & Hall & Hi2 & He2); try done.
  split; [|by exists rb2]. pose proof (rep_expected _ _ (inv_rep _ _ Hi2)) as Hu2.
  split; [|done|by apply (inv_gap _ _ Hinv)].
  split; try apply Hinv; [simpl; by rewrite <-He2|]. intros s f. by rewrite lookup_empty.
Qed.

(** The batch fast path is exactly the frame-by-frame path: when it accepts
    a batch, inserting the frames one at a time delivers the same frames and
    ends in an equivalent buffer (same next sequence number, nothing pending). *)
Theorem direct_batch_equals_inserts rb m now input rb' out :
  RB_inv rb m -> Forall is_u32 input.*1 -> try_direct_batch rb input = Some (rb', out) ->
  RB_inv rb' ∅ /\ exists rb2, insert_all rb now input = (rb2, out) /\
    RB_inv rb2 ∅ /\ rb_expected_seq rb2 = rb_expected_seq rb'.
Proof. apply direct_is_inserts. Qed.

Lemma direct_batch_equals_inserts_witness :
  exists rb', try_direct_batch ReorderBuffer_new [(5, [1]); (6, []); (7, [2])] = Some (rb', [[1]; [2]]) /\
    RB_inv rb' ∅ /\ exists rb2,
      insert_all ReorderBuffer_new 0 [(5, [1]); (6, []); (7, [2])] = (rb2, [[1]; [2]]) /\
      RB_inv rb2 ∅ /\ rb_expected_seq rb2 = rb_expected_seq rb'.
Proof.
  exists (set_expected ReorderBuffer_new 8). split; [reflexivity|].
  apply (direct_batch_equals_inserts ReorderBuffer_new ∅ 0); [apply new_inv| |reflexivity].
  repeat constructor; done.
Defined.
