(* ===== verification/RxActor.v ===== *)
(** * The session receive actor: [src/src/rx_actor.rs]

    One lock owns FEC decoder, reorder buffer and duplicate filter; connection
    readers push batches through a producer that remembers the generation it was
    created in.  [process_batch] and [actor_flush_timeout_into] are what happens
    while the state lock is held: the new state and the frames moved to the
    caller's own [ready] vector.  The source releases the lock before it hands
    that vector to the delivery callback, so the section on threads below makes
    the two separate steps: [LockedStep] leaves the frames in the thread's hands,
    [DeliverStep] is [deliver_reusing] (here [deliver_ready]).  [Instant::now()] is the argument [now] of
    each frame. *)
From S2P Require Import Prelude Utils Crypto Protocol Xor Fec Buffer Reorder.

Definition RX_ACTOR_BATCH_CAP : nat := 16.
Definition RX_ACTOR_IDLE_POLL : Z := 250.

Record RxFrame := { rf_seq : Z; rf_data : list Z; rf_now : Z }.

Record RxActorState := {
  ra_generation : Z;
  ra_fec : option FecDecoder;
  ra_reorder : ReorderBuffer;
  ra_dedup : DeDuplicator;
  ra_recovered_base : Z;
  ra_lost_base : Z }.

Definition RxActorState_new (fec : option FecDecoder) : RxActorState :=
  {| ra_generation := 1; ra_fec := fec; ra_reorder := ReorderBuffer_new;
     ra_dedup := DeDuplicator_new; ra_recovered_base := 0; ra_lost_base := 0 |}.

Definition ra_set (st : RxActorState) (fec : option FecDecoder) (rb : ReorderBuffer) (dd : DeDuplicator) : RxActorState :=
  {| ra_generation := ra_generation st; ra_fec := fec; ra_reorder := rb; ra_dedup := dd;
     ra_recovered_base := ra_recovered_base st; ra_lost_base := ra_lost_base st |}.

Inductive rx_error := ControlWithoutFec | ControlError (e : fec_error).

Definition insert_pair (rb : ReorderBuffer) (now seq : Z) (frame : list Z) (recovered : option (Z * list Z))
  : ReorderBuffer * list (list Z) :=
  match recovered with
  | Some (rseq, rframe) =>
      if rseq <? seq then
        let '(rb, o1) := insert_into rb now rseq rframe in
        let '(rb, o2) := insert_into rb now seq frame in (rb, o1 ++ o2)
      else if seq <? rseq then
        let '(rb, o1) := insert_into rb now seq frame in
        let '(rb, o2) := insert_into rb now rseq rframe in (rb, o1 ++ o2)
      else insert_into rb now seq frame
  | None => insert_into rb now seq frame
  end.

Section Actor.
Context `{CryptoPrims}.
Context (p : cpu).

Definition process_item (st : RxActorState) (item : RxFrame)
  : RxActorState * list (list Z) * option rx_error :=
  let seq := rf_seq item in
  let data := rf_data item in
  let now := rf_now item in
  let expected := rb_expected_seq (ra_reorder st) in
  if seq =? 0 then
    match ra_fec st with
    | None => (st, [], Some ControlWithoutFec)
    | Some dec =>
        match on_control_actor p dec data expected with
        | (dec, Ok (Some (rseq, recovered))) =>
            let '(rb, out) := insert_into (ra_reorder st) now rseq recovered in
            (ra_set st (Some dec) rb (ra_dedup st), out, None)
        | (dec, Ok None) => (ra_set st (Some dec) (ra_reorder st) (ra_dedup st), [], None)
        | (dec, Err e) => (ra_set st (Some dec) (ra_reorder st) (ra_dedup st), [], Some (ControlError e))
        end
    end
  else
    let '(fec, recovered) :=
      match ra_fec st with
      | None => (None, None)
      | Some dec => let '(dec, r) := on_data_actor p dec seq data expected in (Some dec, r)
      end in
    let '(dd, dup) := is_duplicate (ra_dedup st) seq in
    if negb dup then
      let '(rb, out) := insert_pair (ra_reorder st) now seq data recovered in
      (ra_set st fec rb dd, out, None)
    else
      match recovered with
      | Some (rseq, frame) =>
          let '(rb, out) := insert_into (ra_reorder st) now rseq frame in
          (ra_set st fec rb dd, out, None)
      | None => (ra_set st fec (ra_reorder st) dd, [], None)
      end.

(** The [for item in frames.drain(..)] loop: stops at the first error. *)
Fixpoint process_items (st : RxActorState) (items : list RxFrame)
  : RxActorState * list (list Z) * option rx_error :=
  match items with
  | [] => (st, [], None)
  | item :: items' =>
      match process_item st item with
      | (st, out, Some e) => (st, out, Some e)
      | (st, out, None) =>
          let '(st, out', e) := process_items st items' in (st, out ++ out', e)
      end
  end.

(** The part under the state lock: the new state, the frames left in [ready]
    for the delivery that follows, and the error reported to the producer. *)
Definition process_batch (st : RxActorState) (generation : Z) (frames : list RxFrame)
  : RxActorState * list (list Z) * option rx_error :=
  match frames with
  | [] => (st, [], None)
  | _ =>
      if negb (generation =? ra_generation st) then (st, [], None)
      else process_items st frames
  end.

(** The part of the timer's poll under the state lock, likewise. *)
Definition actor_flush_timeout_into (st : RxActorState) (now : Z) : RxActorState * list (list Z) :=
  let '(rb, out) := flush_timeout_into (ra_reorder st) now in
  (ra_set st (ra_fec st) rb (ra_dedup st), out).

Definition actor_next_timeout (st : RxActorState) (now : Z) : Z :=
  default RX_ACTOR_IDLE_POLL (next_timeout (ra_reorder st) now).

Definition reconfigure (st : RxActorState) (fec : option FecDecoder) : RxActorState :=
  let generation := ra_generation st + 1 in
  let '(rbase, lbase) :=
    match ra_fec st with
    | Some old => (u64_sat_add (ra_recovered_base st) (fi_recovered (fd_inner old)),
                   u64_sat_add (ra_lost_base st) (fi_lost (fd_inner old)))
    | None => (ra_recovered_base st, ra_lost_base st)
    end in
  {| ra_generation := generation;
     ra_fec := FecDecoder_reset_actor <$> fec;
     ra_reorder := ReorderBuffer_reset (ra_reorder st);
     ra_dedup := DeDuplicator_reset (ra_dedup st);
     ra_recovered_base := rbase; ra_lost_base := lbase |}.

Record RxActorSnapshot := {
  sn_generation : Z; sn_recovered : Z; sn_lost : Z; sn_fec_bypass : bool; sn_reorder : ReorderStats }.
Definition snapshot (st : RxActorState) : RxActorSnapshot :=
  match ra_fec st with
  | Some dec =>
      {| sn_generation := ra_generation st;
         sn_recovered := u64_sat_add (ra_recovered_base st) (fi_recovered (fd_inner dec));
         sn_lost := u64_sat_add (ra_lost_base st) (fi_lost (fd_inner dec));
         sn_fec_bypass := bypass_snapshot dec; sn_reorder := rb_stats (ra_reorder st) |}
  | None =>
      {| sn_generation := ra_generation st; sn_recovered := ra_recovered_base st;
         sn_lost := ra_lost_base st; sn_fec_bypass := false; sn_reorder := rb_stats (ra_reorder st) |}
  end.

(** ** Threads

    Connection readers and the timer thread share the actor.  Each locks the
    state for one batch or one poll and, after releasing the lock, delivers what
    the locked part left in its own [ready] vector; meanwhile other threads may
    lock and deliver. *)

Inductive rx_op := OpBatch (generation : Z) (items : list RxFrame) | OpTimeout (now : Z).
Definition rx_step (st : RxActorState) (op : rx_op) : RxActorState * list (list Z) * option rx_error :=
  match op with
  | OpBatch g items => process_batch st g items
  | OpTimeout now => let '(st, out) := actor_flush_timeout_into st now in (st, out, None)
  end.

(** [rt_ready]: the non-empty [ready] vectors of threads that have released the
    lock and not yet delivered; [rt_delivered]: the calls of the delivery
    callback so far, with the calling thread. *)
Record RxThreads := {
  rt_state : RxActorState;
  rt_ready : gmap nat (list (list Z));
  rt_delivered : list (nat * list (list Z)) }.

Definition RxThreads_new (fec : option FecDecoder) : RxThreads :=
  {| rt_state := RxActorState_new fec; rt_ready := ∅; rt_delivered := [] |}.

(** [deliver_reusing]: nothing to do for an empty vector. *)
Definition deliver_ready (s : RxThreads) (t : nat) : RxThreads :=
  match rt_ready s !! t with
  | Some out => {| rt_state := rt_state s; rt_ready := delete t (rt_ready s);
                   rt_delivered := rt_delivered s ++ [(t, out)] |}
  | None => s
  end.

Inductive thread_op := LockedStep (t : nat) (op : rx_op) | DeliverStep (t : nat).

(** A thread that still holds frames delivers them before it can lock again, so
    a schedule that says otherwise takes no step there. *)
Definition thread_step (s : RxThreads) (op : thread_op) : RxThreads * option rx_error :=
  match op with
  | LockedStep t op =>
      match rt_ready s !! t with
      | Some _ => (s, None)
      | None =>
          let '(st, out, e) := rx_step (rt_state s) op in
          ({| rt_state := st;
              rt_ready := match out with [] => rt_ready s | _ => <[t := out]> (rt_ready s) end;
              rt_delivered := rt_delivered s |}, e)
      end
  | DeliverStep t => (deliver_ready s t, None)
  end.

Fixpoint thread_run (s : RxThreads) (ops : list thread_op) : RxThreads * list rx_error :=
  match ops with
  | [] => (s, [])
  | op :: ops' =>
      let '(s, e) := thread_step s op in
      let '(s, es) := thread_run s ops' in (s, option_list e ++ es)
  end.

(** Nobody locks the state while another thread still has frames to deliver. *)
Fixpoint serial_schedule (s : RxThreads) (ops : list thread_op) : Prop :=
  match ops with
  | [] => True
  | op :: ops' =>
      match op with LockedStep _ _ => rt_ready s = ∅ | DeliverStep _ => True end /\
      serial_schedule (thread_step s op).1 ops'
  end.

(** ** Producers *)

Record RxProducer := {
  rp_generation : Z;
  rp_batch : list RxFrame;
  rp_batch_cap : nat;
  rp_failed : option rx_error }.

Definition producer (st : RxActorState) (batch_size : nat) : RxProducer :=
  {| rp_generation := ra_generation st; rp_batch := []; rp_batch_cap := batch_size; rp_failed := None |}.

(** The result: actor, producer, delivered frames, and the [bool] returned. *)
Definition producer_flush (st : RxActorState) (pr : RxProducer)
  : RxActorState * RxProducer * list (list Z) * bool :=
  match rp_batch pr with
  | [] => (st, pr, [], match rp_failed pr with Some _ => false | None => true end)
  | _ =>
      let '(st, out, e) := process_batch st (rp_generation pr) (rp_batch pr) in
      (st, {| rp_generation := rp_generation pr; rp_batch := []; rp_batch_cap := rp_batch_cap pr;
              rp_failed := match e with Some _ => e | None => rp_failed pr end |}, out, true)
  end.

Definition producer_push (st : RxActorState) (pr : RxProducer) (item : RxFrame)
  : RxActorState * RxProducer * list (list Z) * bool :=
  match rp_failed pr with
  | Some _ => (st, pr, [], false)
  | None =>
      let pr := {| rp_generation := rp_generation pr; rp_batch := rp_batch pr ++ [item];
                   rp_batch_cap := rp_batch_cap pr; rp_failed := rp_failed pr |} in
      if (rp_batch_cap pr <=? length (rp_batch pr))%nat || (rf_seq item =? 0)
      then producer_flush st pr else (st, pr, [], true)
  end.

Definition take_error (pr : RxProducer) : RxProducer * option rx_error :=
  ({| rp_generation := rp_generation pr; rp_batch := rp_batch pr; rp_batch_cap := rp_batch_cap pr;
      rp_failed := None |}, rp_failed pr).
End Actor.
