(* ===== verification/RxSpec.v ===== *)
(** * Correctness of the receive actor

    An honest sender numbers its payloads ([F] gives the payload of a number,
    [P] says which numbers it has sent), adds parity frames of complete groups
    and FEC_MODE controls.  Whatever subset of this traffic arrives, in whatever
    order and batching, the decoder only ever reconstructs payloads of the
    sender ([dec_inv]), and the actor delivers an increasing selection of them. *)
From stdpp Require Import sorting.
From S2P Require Import Prelude Utils Crypto Protocol Xor Fec FecSpec Buffer Reorder ReorderSpec RxActor.

Lemma rb_run_app F rb evs1 evs2 :
  rb_run F rb (evs1 ++ evs2) =
    let '(rb1, o1) := rb_run F rb evs1 in let '(rb2, o2) := rb_run F rb1 evs2 in (rb2, o1 ++ o2).
Proof.
  revert rb. induction evs1 as [|ev evs1 IH]; intros rb; cbn [app rb_run].
  - by destruct (rb_run F rb evs2).
  - destruct (rb_step F rb ev) as [rb1 o1]. rewrite IH. destruct (rb_run F rb1 evs1) as [rb2 o2].
    destruct (rb_run F rb2 evs2) as [rb3 o3]. by rewrite app_assoc.
Qed.

Section Honest.
Context `{CryptoLaws}.
Context (p : cpu) (k : Z) (ic : option InnerCipher) (F : Z -> list Z) (P : Z -> Prop).
Context (Hk : 2 <= k <= 64).
Context (F_ok : forall s, bytes_ok (F s) /\ F s <> [] /\ zlen (F s) <= 131070).
Context (P_range : forall s, P s -> 1 <= s <= SEQ_LIMIT).

(** The members of the group that starts at [g]. *)
Definition group_members (g i : Z) : list Z := F (g + i).
Abbreviation members g := (group_members g <$> seqZ 0 k).
Definition group_sent (g : Z) : Prop := is_group_start k g /\ forall i, 0 <= i < k -> P (g + i).

Lemma honest_members g : members_ok k (members g).
Proof using F_ok Hk.
  split; [rewrite length_fmap, length_seqZ; lia|done|]. apply Forall_fmap, Forall_true. intros i. apply F_ok.
Qed.

Definition group_inv (g : Z) (st : FecGroupState) : Prop :=
  is_group_start k g /\ exists R par, group_rep k (group_members g) st R par /\ Z.of_nat (length R) < k /\
    (par = true -> group_sent g /\ Z.of_nat (length R) < k - 1).

Definition groups_inv (gs : gmap Z FecGroupState) : Prop := map_Forall group_inv gs.

Record dec_inv (d : FecDecoder) : Prop := {
  di_k : fd_k d = k;
  di_full : fd_full_mask d = Z.ones k;
  di_ic : fd_ic d = ic;
  di_groups : groups_inv (fi_groups (fd_inner d)) }.

Lemma new_dec_inv : dec_inv (FecDecoder_new k ic).
Proof using Hk.
  assert (Hc : clamp_fec_group k = k) by (unfold clamp_fec_group, FEC_MIN_GROUP, FEC_MAX_GROUP; lia).
  destruct (full_mask_rep k Hk) as [_ Hf]. split; [by cbn; rewrite Hc|apply Hf|done|]. apply map_Forall_empty.
Qed.

Lemma new_group_inv g : is_group_start k g -> group_inv g new_group.
Proof using Hk.
  intros Hg. split; [done|]. exists [], false. split; [apply new_group_rep|]. split; [simpl; lia|done].
Qed.

Lemma entry_inv gs g :
  groups_inv gs -> is_group_start k g ->
  groups_inv (entry gs g).1 /\ group_inv g (entry gs g).2 /\ (entry gs g).1 !! g = Some (entry gs g).2.
Proof using Hk.
  intros Hgs Hg. unfold entry.
  match goal with |- context [if ?b then ?x else gs] => set (gs1 := if b then x else gs) end.
  assert (H1 : groups_inv gs1).
  { subst gs1. destruct (_ && _); [|done]. destruct (oldest_start gs); [by apply map_Forall_delete|done]. }
  destruct (gs1 !! g) as [st|] eqn:E; cbn [fst snd]; [by split_and!; [|apply H1|]|].
  split_and!; [|by apply new_group_inv|by rewrite lookup_insert_eq].
  apply map_Forall_insert_2; [by apply new_group_inv|done].
Qed.

(** What a decoder step may output: payloads of the sender, numbered at
    least [lo]. *)
Definition honest_output (lo : Z) (r : option (Z * list Z)) : Prop :=
  forall s f, r = Some (s, f) -> f = F s /\ P s /\ lo <= s.

Lemma honest_none lo : honest_output lo None.
Proof. by intros ? ? ?. Qed.
Lemma honest_output_weaken lo lo' r : lo' <= lo -> honest_output lo r -> honest_output lo' r.
Proof using. intros Hlo Ho s f E. destruct (Ho s f E) as (? & ? & ?). split_and!; [done|done|lia]. Qed.

Lemma try_recover_inv inner g st R par gs :
  groups_inv gs -> fi_groups inner = <[g := st]> gs -> is_group_start k g ->
  group_rep k (group_members g) st R par -> Z.of_nat (length R) < k -> (par = true -> group_sent g) ->
  groups_inv (fi_groups (try_recover p inner g k).1) /\ honest_output g (try_recover p inner g k).2.
Proof using F_ok Hk P_range.
  intros Hgs Hin Hg Hrep Hlen Hpar.
  destruct (try_recover_spec p k (group_members g) (honest_members g) inner g st R par) as [Hno Hyes];
    [by rewrite Hin, lookup_insert_eq|done|].
  destruct (decide (par = true /\ Z.of_nat (length R) = k - 1)) as [[Hp Hl]|Hc].
  - assert (exists j, j :: R ≡ₚ seqZ 0 k) as [j HR].
    { pose proof (missing_perm R k (gr_nodup _ _ _ _ _ Hrep) (gr_in _ _ _ _ _ Hrep)) as Hp'.
      pose proof (Permutation_length Hp') as Hpl. rewrite length_app, length_seqZ in Hpl.
      destruct (filter _ _) as [|j [|]]; [simpl in Hpl; lia| |simpl in Hpl; lia]. by exists j. }
    assert (j ∈ seqZ 0 k) as Hj by (rewrite <-HR; by left). apply elem_of_seqZ in Hj.
    rewrite (Hyes j Hp HR).
    2: { pose proof (P_range (g + j) (proj2 (Hpar Hp) j Hj)). unfold SEQ_LIMIT, is_u32 in *. lia. }
    cbn [fst snd fi_groups]. rewrite Hin. split.
    + rewrite delete_insert_eq. by apply map_Forall_delete.
    + intros s f [= <- <-]. split_and!; [done| |lia]. apply (proj2 (Hpar Hp)). lia.
  - rewrite Hno; [|destruct par; [right|by left]; apply not_and_l in Hc; destruct Hc; [done|lia]].
    cbn [fst snd]. split; [|apply honest_none]. rewrite Hin. apply map_Forall_insert_2; [|done].
    split; [done|]. exists R, par. split_and!; [done|done|]. intros Hp. split; [by apply Hpar|].
    destruct (Z.eq_dec (Z.of_nat (length R)) (k - 1)); [|lia]. exfalso. by apply Hc.
Qed.

Lemma filter_inv (Q : Z * FecGroupState -> Prop) `{!forall x, Decision (Q x)} gs :
  groups_inv gs -> groups_inv (filter Q gs).
Proof using. intros Hgs g st [Hl _]%map_lookup_filter_Some. by apply Hgs. Qed.

Lemma retire_inv d e : dec_inv d -> dec_inv (maybe_retire_old_groups_actor d e).
Proof using.
  intros Hd. unfold maybe_retire_old_groups_actor. destruct (_ || _); [done|]. destruct (_ || _); [done|].
  destruct Hd. split; [done..|]. by apply filter_inv.
Qed.

Lemma with_groups_inv d inner :
  dec_inv d -> groups_inv (fi_groups inner) -> dec_inv (with_inner d inner).
Proof using. intros [? ? ? _] Hg. by split. Qed.

Lemma on_data_inv d s e :
  dec_inv d -> P s ->
  dec_inv (on_data_actor p d s (F s) e).1 /\ honest_output (s - k) (on_data_actor p d s (F s) e).2.
Proof using F_ok Hk P_range.
  intros Hd Hs. pose proof (P_range s Hs) as Hsr. unfold on_data_actor.
  destruct (_ || _ || _); [split; [done|apply honest_none]|].
  destruct (FecRxFenceState_bypass_data _ _).
  { split; [|apply honest_none]. cbn [fst]. destruct (_ =? 0); [by apply retire_inv|done]. }
  destruct (_ && _); [split; [done|apply honest_none]|]. rewrite (di_k _ Hd), (di_full _ Hd).
  destruct (fec_group_start_bounds s k) as [Hg Hin]; [lia|done|].
  assert (Hfs : fec_group_start s k = s - ((s - 1) mod k)).
  { unfold fec_group_start. rewrite clamp_k_id by done. destruct (Z.eqb_spec s 0); [lia|done]. }
  rewrite Hfs in Hg, Hin. set (g := s - _) in *. clearbody g. clear Hfs.
  destruct (is_done _ _ _); [split; [done|apply honest_none]|].
  destruct (entry_inv _ g (di_groups _ Hd) Hg) as (Hgs & Hst & Hl).
  destruct (entry _ g) as [gs st]. cbn [fst snd] in *. destruct Hst as (_ & R & par & Hrep & Hlen & Hpar).
  destruct (decide (s - g ∈ R)) as [HR|HR].
  - assert (negb (Z.land (g_got_mask st) (Z.shiftl 1 (s - g)) =? 0) = true) as ->.
    { fold (bit_set (g_got_mask st) (s - g)). rewrite bit_set_testbit, (proj2 (gr_mask _ _ _ _ _ Hrep)) by lia.
      by apply bool_decide_eq_true. }
    split; [|apply honest_none]. by apply with_groups_inv.
  - assert (negb (Z.land (g_got_mask st) (Z.shiftl 1 (s - g)) =? 0) = false) as ->.
    { fold (bit_set (g_got_mask st) (s - g)). rewrite bit_set_testbit, (proj2 (gr_mask _ _ _ _ _ Hrep)) by lia.
      by apply bool_decide_eq_false. }
    pose proof (push_rep p k (group_members g) (honest_members g) st R par (s - g) Hrep HR ltac:(lia)) as Hrep'.
    unfold group_members in Hrep' at 2 3. replace (g + (s - g)) with s in Hrep' by lia. unfold grow_acc in Hrep'.
    pose proof (mask_rep_full _ (s - g :: R) k Hk (gr_mask _ _ _ _ _ Hrep') (gr_nodup _ _ _ _ _ Hrep') (gr_in _ _ _ _ _ Hrep')) as Hfull.
    cbn [g_got_mask length] in Hfull.
    destruct (Z.eqb_spec (Z.lor (g_got_mask st) (Z.shiftl 1 (s - g))) (Z.ones k)) as [E|E].
    + split; [|apply honest_none]. apply with_groups_inv; [done|]. cbn [fi_groups]. by apply map_Forall_delete.
    + assert (Z.of_nat (S (length R)) <> k) by (intros E'; by apply E, Hfull).
      set (g' := {| g_k := _ |}) in *.
      destruct (try_recover_inv (with_groups (fd_inner d) (<[g := g']> gs)) g g' (s - g :: R) par gs) as [Hi Ho];
        [done|done|done|done|cbn [length]; lia|intros Hp; by apply Hpar|].
      destruct (try_recover p _ g k) as [inner' r]. cbn [fst snd] in *. split; [by apply with_groups_inv|].
      eapply honest_output_weaken; [|done]. lia.
Qed.

(** The control payloads of the sender; a parity frame is about numbers at
    least [lo]. *)
Inductive honest_control (lo : Z) : list Z -> Prop :=
| hc_parity g : group_sent g -> lo <= g -> honest_control lo (parity_of ic g (members g))
| hc_mode c : control_valid c -> honest_control lo (FecModeControl_encode c).

Lemma store_parity_inv d g :
  dec_inv d -> group_sent g ->
  let r := store_parity p d g k ((fun x : list Z => zlen x) <$> members g) (parity_bytes (members g)) in
  dec_inv r.1 /\ (forall o, r.2 = Some o -> honest_output g o).
Proof using F_ok Hk P_range.
  intros Hd Hsent r. subst r. unfold store_parity. rewrite (di_k _ Hd).
  destruct (_ || _); [done|]. destruct (entry_inv _ g (di_groups _ Hd) (proj1 Hsent)) as (Hgs & Hst & Hl).
  destruct (entry _ g) as [gs st]. cbn [fst snd] in *. destruct Hst as (_ & R & par & Hrep & Hlen & Hpar).
  destruct (g_parity st) eqn:Ep; [split; [by apply with_groups_inv|done]|].
  assert (par = false) as -> by (destruct par; [destruct (gr_par _ _ _ _ _ Hrep) as (_ & _ & ?); congruence|done]).
  set (g' := {| g_k := k |}).
  assert (Hrep' : group_rep k (group_members g) g' R true) by (split; try apply Hrep; done).
  destruct (try_recover_inv (with_groups (fd_inner d) (<[g := g']> gs)) g g' R true gs) as [Hi Ho];
    [done|done|apply Hsent|done|done|done|].
  destruct (try_recover p _ g k) as [inner' o]. cbn [fst snd] in *. split; [by apply with_groups_inv|].
  by intros ? [= <-].
Qed.

Lemma on_control_inv lo d payload e :
  dec_inv d -> honest_control lo payload ->
  dec_inv (on_control_actor p d payload e).1 /\
  exists o, (on_control_actor p d payload e).2 = Ok o /\ honest_output lo o.
Proof using All.
  intros Hd Hc. unfold on_control_actor. destruct Hc as [g Hsent Hlo|c Hv].
  - change (control_kind (parity_of ic g (members g))) with (@Ok Z proto_error CONTROL_KIND_FEC_PARITY).
    cbv iota beta. rewrite Z.eqb_refl. unfold on_parity_actor.
    destruct (fd_static_single d); [split; [done|by exists None; split; [|apply honest_none]]|].
    assert (Hu : is_u32 g).
    { destruct Hsent as [[Hg1 _] HP]. specialize (P_range g ltac:(rewrite <-(Z.add_0_r g); apply HP; lia)).
      unfold SEQ_LIMIT in P_range. unfold_ints. lia. }
    rewrite parity_header_of; [|rewrite (di_k _ Hd); apply honest_members|rewrite (di_k _ Hd); apply Hsent|done].
    pose proof (retire_inv d e Hd) as Hd1. set (d1 := maybe_retire_old_groups_actor d e) in *.
    destruct (retired d1 g); [split; [done|by exists None; split; [|apply honest_none]]|].
    assert (parity_body d1 (parity_of ic g (members g)) g = Ok ((fun x : list Z => zlen x) <$> members g, parity_bytes (members g))) as ->.
    { rewrite <-(di_ic _ Hd1). apply parity_body_of. rewrite (di_k _ Hd1). apply honest_members. }
    rewrite (nth_parity_k k) by apply honest_members.
    destruct (store_parity_inv d1 g Hd1 Hsent) as [Hs Ho].
    destruct (store_parity p d1 g k _ _) as [d2 [o|]]; cbn [fst snd] in *.
    + split; [by apply retire_inv|]. exists o. split; [done|]. eapply honest_output_weaken; [exact Hlo|by apply Ho].
    + split; [done|]. exists None. split; [done|apply honest_none].
  - change (control_kind (FecModeControl_encode c)) with (@Ok Z proto_error CONTROL_KIND_FEC_MODE). cbv iota beta.
    change (CONTROL_KIND_FEC_MODE =? CONTROL_KIND_FEC_PARITY) with false. rewrite Z.eqb_refl. cbv iota.
    rewrite FecModeControl_parse_encode by done. cbn [fst snd].
    split; [|by exists None; split; [|apply honest_none]]. unfold handle_mode_control_actor.
    destruct (FecRxFenceState_apply_actor _ _) as [f a].
    assert (Hm : forall cl re, dec_inv (with_marks d f cl re)) by (destruct Hd; by split).
    destruct (negb a); [done|]. destruct (FecRxFenceState_window _) as [from until]. destruct (from =? 0); [done|].
    apply retire_inv. destruct Hd. split; [done..|]. cbn. unfold drop_groups_in_range.
    destruct (from =? 0); [done|]. by apply filter_inv.
Qed.

(** ** The actor *)

(** An item of the sender, numbered at least [lo]: a numbered payload, or a
    control when FEC was negotiated. *)
Definition honest_item (has_fec : bool) (lo : Z) (it : RxFrame) : Prop :=
  (P (rf_seq it) /\ lo <= rf_seq it /\ rf_data it = F (rf_seq it)) \/
  (rf_seq it = 0 /\ has_fec = true /\ honest_control lo (rf_data it)).

Definition actor_inv (has_fec : bool) (st : RxActorState) : Prop :=
  match ra_fec st with
  | Some d => has_fec = true /\ dec_inv d
  | None => has_fec = false
  end.

(** A step of the actor is a run of the reorder buffer on sent frames, none
    numbered below [lo]. *)
Definition sent_run (lo : Z) (rb : ReorderBuffer) (rb' : ReorderBuffer) (out : list (list Z)) : Prop :=
  exists evs, rb_run F rb evs = (rb', out) /\ forall x, x ∈ inserted evs -> P x /\ lo <= x.
Definition reorder_step (lo : Z) (st st' : RxActorState) (out : list (list Z)) : Prop :=
  sent_run lo (ra_reorder st) (ra_reorder st') out.

Lemma sent_run_nil lo rb : sent_run lo rb rb [].
Proof using. exists []. split; [done|]. by intros x ?%elem_of_nil. Qed.
Lemma sent_run_trans lo rb1 rb2 rb3 o1 o2 :
  sent_run lo rb1 rb2 o1 -> sent_run lo rb2 rb3 o2 -> sent_run lo rb1 rb3 (o1 ++ o2).
Proof using.
  intros (ev1 & Hr1 & Hp1) (ev2 & Hr2 & Hp2). exists (ev1 ++ ev2). rewrite rb_run_app, Hr1, Hr2. split; [done|].
  intros x. rewrite inserted_app, elem_of_app. intros [Hx|Hx]; [by apply Hp1|by apply Hp2].
Qed.

Lemma insert_as_run rb now s rb' out : insert_into rb now s (F s) = (rb', out) -> rb_run F rb [EvInsert now s] = (rb', out).
Proof using. intros E. cbn [rb_run rb_step]. rewrite E. by rewrite app_nil_r. Qed.

Lemma sent_run_insert lo rb now s rb' out :
  P s -> lo <= s -> insert_into rb now s (F s) = (rb', out) -> sent_run lo rb rb' out.
Proof using.
  intros HP Hlo E. exists [EvInsert now s]. split; [by apply insert_as_run|]. by intros x Hx%list_elem_of_singleton; subst x.
Qed.

Lemma insert_pair_run lo rb now s r rb' out :
  P s -> lo <= s -> honest_output lo r -> insert_pair rb now s (F s) r = (rb', out) -> sent_run lo rb rb' out.
Proof using.
  intros Hs Hlo Ho. unfold insert_pair.
  assert (H2 : forall a b, P a -> P b -> lo <= a -> lo <= b ->
    (let '(rb1, o1) := insert_into rb now a (F a) in let '(rb2, o2) := insert_into rb1 now b (F b) in (rb2, o1 ++ o2)) = (rb', out) ->
    sent_run lo rb rb' out).
  { intros a b Ha Hb Hla Hlb. destruct (insert_into rb now a (F a)) as [rb1 o1] eqn:E1.
    destruct (insert_into rb1 now b (F b)) as [rb2 o2] eqn:E2. intros [= <- <-].
    eapply sent_run_trans; [exact (sent_run_insert lo _ _ _ _ _ Ha Hla E1)|exact (sent_run_insert lo _ _ _ _ _ Hb Hlb E2)]. }
  destruct r as [[rs rf]|]; [|by apply sent_run_insert]. destruct (Ho rs rf eq_refl) as (-> & HP & Hrs).
  destruct (rs <? s); [by apply H2|]. destruct (s <? rs); [by apply H2|by apply sent_run_insert].
Qed.

Lemma process_item_inv has_fec lo st it :
  actor_inv has_fec st -> honest_item has_fec lo it ->
  exists st' out, process_item p st it = (st', out, None) /\ actor_inv has_fec st' /\
    reorder_step (lo - k) st st' out /\ ra_generation st' = ra_generation st.
Proof using All.
  intros Hst Hit. unfold process_item. destruct Hit as [(HP & Hlo & Hd)|(Hz & Hf & Hc)].
  - pose proof (P_range _ HP). destruct (Z.eqb_spec (rf_seq it) 0); [lia|]. rewrite Hd.
    set (fr := match ra_fec st with Some dec => _ | None => _ end).
    assert (Hfr : (forall rb dd, actor_inv has_fec (ra_set st fr.1 rb dd)) /\ honest_output (lo - k) fr.2).
    { subst fr. unfold actor_inv in *. destruct (ra_fec st) as [d|]; [|split; [done|apply honest_none]].
      destruct Hst as [-> Hd']. destruct (on_data_inv d (rf_seq it) (rb_expected_seq (ra_reorder st)) Hd' HP) as [? ?].
      destruct (on_data_actor _ _ _ _ _). split; [done|]. eapply honest_output_weaken; [|done]. lia. }
    destruct fr as [fec rec]. cbn [fst snd] in Hfr. destruct Hfr as [Hfec Hrec].
    destruct (is_duplicate _ _) as [dd dup]. destruct (negb dup).
    + destruct (insert_pair _ _ _ _ _) as [rb out] eqn:E. eexists _, _. split; [done|].
      split_and!; [apply Hfec| |done]. eapply insert_pair_run; [exact HP|lia|exact Hrec|exact E].
    + destruct rec as [[rs rf]|].
      * destruct (Hrec rs rf eq_refl) as (-> & HPr & Hrs). destruct (insert_into _ _ rs _) as [rb out] eqn:E.
        eexists _, _. split; [done|]. split_and!; [apply Hfec| |done]. eapply sent_run_insert; [exact HPr|exact Hrs|exact E].
      * eexists _, _. split; [done|]. split_and!; [apply Hfec|apply sent_run_nil|done].
  - rewrite Hz. cbn [Z.eqb]. unfold actor_inv in Hst. destruct (ra_fec st) as [d|]; [|congruence].
    destruct Hst as [_ Hd]. destruct (on_control_inv lo d (rf_data it) (rb_expected_seq (ra_reorder st)) Hd Hc) as [Hd' (o & Ho & Hho)].
    destruct (on_control_actor _ _ _ _) as [d' r]. cbn [fst snd] in *. subst r.
    destruct o as [[rs rf]|].
    + destruct (Hho rs rf eq_refl) as (-> & HPr & Hrs). destruct (insert_into _ _ rs _) as [rb out] eqn:E.
      eexists _, _. split; [done|]. split_and!; [done| |done]. eapply sent_run_insert; [exact HPr|lia|exact E].
    + eexists _, _. split; [done|]. split_and!; [done|apply sent_run_nil|done].
Qed.

Lemma process_items_inv has_fec lo items st :
  actor_inv has_fec st -> Forall (honest_item has_fec lo) items ->
  exists st' out, process_items p st items = (st', out, None) /\ actor_inv has_fec st' /\
    reorder_step (lo - k) st st' out /\ ra_generation st' = ra_generation st.
Proof using All.
  intros Hst Hit. revert st Hst. induction Hit as [|it items Hi _ IH]; intros st Hst.
  - exists st, []. split_and!; try done. apply sent_run_nil.
  - destruct (process_item_inv _ _ _ _ Hst Hi) as (st1 & o1 & E1 & Hst1 & Hr1 & Hg1).
    destruct (IH st1 Hst1) as (st2 & o2 & E2 & Hst2 & Hr2 & Hg2).
    exists st2, (o1 ++ o2). cbn [process_items]. rewrite E1, E2. split_and!; [done|done| |congruence].
    by eapply sent_run_trans.
Qed.

(** ** Traces of the actor *)

(** Batches of the current generation come from the sender; a batch of another
    generation may contain anything. *)
Definition honest_op (has_fec : bool) (g lo : Z) (op : rx_op) : Prop :=
  match op with
  | OpBatch g' items => g' = g -> Forall (honest_item has_fec lo) items
  | OpTimeout _ => True
  end.

Lemma rx_step_inv has_fec lo st op :
  actor_inv has_fec st -> honest_op has_fec (ra_generation st) lo op ->
  exists st' out, rx_step p st op = (st', out, None) /\ actor_inv has_fec st' /\
    reorder_step (lo - k) st st' out /\ ra_generation st' = ra_generation st.
Proof using All.
  intros Hst Hop. assert (Hid : reorder_step (lo - k) st st []) by apply sent_run_nil.
  destruct op as [g items|now]; cbn [rx_step honest_op] in *.
  - unfold process_batch. destruct items as [|it items]; [by exists st, []|].
    destruct (Z.eqb_spec g (ra_generation st)) as [->|]; cbn [negb]; [|by exists st, []].
    by apply process_items_inv, Hop.
  - unfold actor_flush_timeout_into. destruct (flush_timeout_into _ _) as [rb out] eqn:E.
    eexists _, _. split; [done|]. split_and!; [done| |done].
    exists [EvTimeout now]. split; [|by intros x ?%elem_of_nil]. cbn [rb_run rb_step]. rewrite E. by rewrite app_nil_r.
Qed.

(** ** One group with one loss *)

Context (P_all : forall s, 1 <= s <= SEQ_LIMIT -> P s).
Context (g : Z) (Hg : is_group_start k g) (Hlim : g + k <= SEQ_LIMIT).

(** The arrival of a member (by index) or of the parity ([None]). *)
Definition group_item (a : option Z * Z) : RxFrame :=
  match a.1 with
  | Some i => {| rf_seq := g + i; rf_data := F (g + i); rf_now := a.2 |}
  | None => {| rf_seq := 0; rf_data := parity_of ic g (members g); rf_now := a.2 |}
  end.

Lemma insert_pair_inserts lo rb now s r rb' out :
  honest_output lo r -> (forall x f, r = Some (x, f) -> x <> s) -> insert_pair rb now s (F s) r = (rb', out) ->
  exists evs, rb_run F rb evs = (rb', out) /\ Forall is_insert evs /\ inserted evs ≡ₚ s :: (fst <$> option_list r).
Proof using.
  intros Ho Hne. unfold insert_pair. destruct r as [[rs rf]|].
  - destruct (Ho rs rf eq_refl) as [-> _]. specialize (Hne rs (F rs) eq_refl).
    destruct (Z.ltb_spec rs s) as [Hlt|Hge]; [|destruct (Z.ltb_spec s rs); [|lia]].
    + exists [EvInsert now rs; EvInsert now s]. split; [|split; [by repeat constructor|apply Permutation_swap]].
      cbn [rb_run rb_step]. destruct (insert_into rb now rs (F rs)) as [rb1 o1].
      destruct (insert_into rb1 now s (F s)) as [rb2 o2]. by rewrite app_nil_r.
    + exists [EvInsert now s; EvInsert now rs]. split; [|split; [by repeat constructor|done]].
      cbn [rb_run rb_step]. destruct (insert_into rb now s (F s)) as [rb1 o1].
      destruct (insert_into rb1 now rs (F rs)) as [rb2 o2]. by rewrite app_nil_r.
  - intros E. exists [EvInsert now s]. split; [by apply insert_as_run|split; [by repeat constructor|done]].
Qed.

Definition to_arrival (e : Z) (a : option Z * Z) : arrival :=
  match a.1 with Some i => Member i e | None => Parity e end.
Lemma arrival_ids e al : arrival_id <$> (to_arrival e <$> al) = al.*1.
Proof using. induction al as [|[[i|] t] al IH]; [done|..]; rewrite !fmap_cons; cbn; by rewrite IH. Qed.

Abbreviation pend d j R par al := (forall e, pending_arrivals k (group_members g) ic g d j R par (to_arrival e <$> al)).

Lemma outcome_any_expected d' o j R (al : list (option Z * Z)) e :
  arrival_outcome k (group_members g) ic g d' o j R (to_arrival e <$> al) ->
  (al = [] /\ o = Some (g + j, F (g + j)) /\ waiting k j R = []) \/
  (al <> [] /\ o = None /\ exists par', pend d' j R par' al).
Proof using.
  intros [(Hl & Ho & _ & Hw)|(Hl & Ho & par' & H1 & H2 & H3 & H4)].
  - left. apply fmap_nil_inv in Hl. done.
  - right. split; [by intros ->|]. split; [done|]. exists par'. intros e'. split_and!; try done.
    rewrite arrival_ids in *. done.
Qed.

(** The actor processes the arrivals of the group: every member is inserted
    into the reorder buffer once, the lost one included. *)
Lemma process_group al st d j R par :
  ra_fec st = Some d -> 0 <= j < k -> al <> [] -> pend d j R par al ->
  dedup_ok (ra_dedup st) (fun x => x < g \/ x - g ∈ R) ->
  exists st' out evs, process_items p st (group_item <$> al) = (st', out, None) /\
    rb_run F (ra_reorder st) evs = (ra_reorder st', out) /\ Forall is_insert evs /\
    inserted evs ≡ₚ (fun i => g + i) <$> (j :: waiting k j R).
Proof using All.
  assert (Hu : g + k <= U32_MAX) by (unfold SEQ_LIMIT in *; lia).
  intros Hd Hj. revert st d R par Hd. induction al as [|[[i|] t] al IH]; intros st d R par Hd Hne Hp Hdd; [done|..]; clear Hne.
  - set (e := rb_expected_seq (ra_reorder st)). pose proof (Hp e) as Hpe. rewrite fmap_cons in Hpe. cbn [to_arrival fst] in Hpe.
    destruct (member_arrival p k (group_members g) (honest_members g) ic g Hg Hu
      i e _ d R par j Hj Hpe) as (HiR & Hij & Hik & HW & Ho).
    apply outcome_any_expected in Ho. cbn [feed] in Ho.
    rewrite fmap_cons. cbn [process_items]. unfold process_item at 1. cbn [group_item fst snd rf_seq rf_data rf_now].
    destruct (Z.eqb_spec (g + i) 0); [destruct Hg; lia|]. rewrite Hd. fold e.
    change (group_members g i) with (F (g + i)) in Ho.
    destruct (on_data_actor p d (g + i) (F (g + i)) e) as [d1 r1]. cbn [fst snd] in Ho.
    destruct (dedup_step _ _ (g + i) Hdd) as [Hdd1 Hdup].
    destruct (is_duplicate (ra_dedup st) (g + i)) as [dd dup]. cbn [fst snd] in *.
    assert (dup = false) as ->.
    { destruct dup; [|done]. destruct (Hdup eq_refl) as [_ [?|HR]]; [lia|]. by replace (g + i - g) with i in HR by lia. }
    cbn [negb]. destruct (insert_pair _ _ _ _ _) as [rb o1] eqn:Ei.
    eapply (insert_pair_inserts g) in Ei as (ev1 & Hr1 & Hi1 & Hp1).
    2: { destruct Ho as [(_ & -> & _)|(_ & -> & _)]; [|by intros ? ?]. intros s f [= <- <-].
      split_and!; [done| |lia]. apply P_all. destruct Hg. lia. }
    2: { destruct Ho as [(_ & -> & _)|(_ & -> & _)]; [|done]. intros s f [= <- _]. lia. }
    destruct Ho as [(-> & -> & Hw)|(Hne & -> & par' & Hp')].
    + eexists _, _, ev1. split; [done|]. cbn [ra_reorder ra_set]. rewrite app_nil_r. split_and!; [done|done|].
      rewrite Hp1, HW, Hw. cbn. apply Permutation_swap.
    + destruct (IH (ra_set st (Some d1) rb dd) d1 (i :: R) par' eq_refl Hne Hp') as (st2 & o2 & ev2 & E2 & Hr2 & Hi2 & Hp2).
      { destruct Hdd1 as [Hl1 Hx1]. split; [done|]. intros x Hx. destruct (Hx1 x Hx) as [|[->|[?|?]]]; [by left|right..].
        - right. replace (g + i - g) with i by lia. by left.
        - by left.
        - right. by right. }
      eexists st2, _, (ev1 ++ ev2). cbn [group_item fst snd] in *. rewrite E2. split; [done|].
      rewrite rb_run_app, Hr1. cbn [ra_reorder ra_set] in Hr2. rewrite Hr2. split; [done|].
      split; [by apply Forall_app|]. rewrite inserted_app, Hp1, Hp2, HW. cbn. apply Permutation_swap.
  - set (e := rb_expected_seq (ra_reorder st)). pose proof (Hp e) as Hpe. rewrite fmap_cons in Hpe. cbn [to_arrival fst] in Hpe.
    destruct (parity_arrival p k (group_members g) (honest_members g) ic g Hg Hu
      e _ d R par j Hj Hpe) as (Hok & Ho).
    apply outcome_any_expected in Ho. cbn [feed] in Ho, Hok.
    rewrite fmap_cons. cbn [process_items]. unfold process_item at 1. cbn [group_item fst snd rf_seq rf_data rf_now Z.eqb].
    rewrite Hd. fold e. destruct (on_control_actor p d _ e) as [d1 r1]. cbn [fst snd] in *. rewrite Hok in *.
    destruct Ho as [(-> & -> & Hw)|(Hne & -> & par' & Hp')].
    + destruct (insert_into (ra_reorder st) t (g + j) (F (g + j))) as [rb o1] eqn:Ei.
      eexists _, _, [EvInsert t (g + j)]. split; [done|]. cbn [ra_reorder ra_set]. rewrite app_nil_r.
      split; [by apply insert_as_run|]. split; [by repeat constructor|]. by rewrite Hw.
    + destruct (IH (ra_set st (Some d1) (ra_reorder st) (ra_dedup st)) d1 R par' eq_refl Hne Hp' Hdd) as (st2 & o2 & ev2 & E2 & Hr2 & Hi2 & Hp2).
      exists st2, o2, ev2. rewrite E2. done.
Qed.
End Honest.

(** ** Threads *)

(** The payloads of batches given by thread and sequence numbers. *)
Definition frames_of (F : Z -> list Z) (rel : list (nat * list Z)) : list (nat * list (list Z)) :=
  (fun b : nat * list Z => (b.1, F <$> b.2)) <$> rel.

(** The batches of one thread, and the one it has not delivered yet. *)
Definition batches_of (t : nat) (l : list (nat * list (list Z))) : list (nat * list (list Z)) :=
  filter (fun b => b.1 = t) l.
Definition held (s : RxThreads) (t : nat) : list (nat * list (list Z)) :=
  match rt_ready s !! t with Some out => [(t, out)] | None => [] end.

Lemma frames_of_app F r1 r2 : frames_of F (r1 ++ r2) = frames_of F r1 ++ frames_of F r2.
Proof. apply fmap_app. Qed.
Lemma batches_of_app t l1 l2 : batches_of t (l1 ++ l2) = batches_of t l1 ++ batches_of t l2.
Proof. apply filter_app. Qed.
Lemma batches_of_one t t' out : batches_of t' [(t, out)] = if decide (t = t') then [(t, out)] else [].
Proof. unfold batches_of. rewrite filter_cons, filter_nil. done. Qed.

Section Threads.
Context `{CryptoLaws}.
Context (p : cpu) (k : Z) (ic : option InnerCipher) (F : Z -> list Z) (P : Z -> Prop).
Context (Hk : 2 <= k <= 64).
Context (F_ok : forall s, bytes_ok (F s) /\ F s <> [] /\ zlen (F s) <= 131070).
Context (P_range : forall s, P s -> 1 <= s <= SEQ_LIMIT).

Lemma group_sent_mono (Q Q' : Z -> Prop) g : (forall x, Q x -> Q' x) -> group_sent k Q g -> group_sent k Q' g.
Proof using. intros HQ [Hg Hs]. split; auto. Qed.
Lemma actor_inv_mono (Q Q' : Z -> Prop) has_fec st :
  (forall x, Q x -> Q' x) -> actor_inv k ic F Q has_fec st -> actor_inv k ic F Q' has_fec st.
Proof using.
  intros HQ. unfold actor_inv. destruct (ra_fec st) as [d|]; [|done]. intros [-> [? ? ? Hgs]]. split; [done|].
  split; [done..|]. intros g gst Hg. destruct (Hgs g gst Hg) as (Hst & R & par & Hrep & Hlen & Hpar).
  split; [done|]. exists R, par. split_and!; [done..|]. intros Hp. destruct (Hpar Hp) as [Hs ?].
  split; [|done]. by eapply group_sent_mono.
Qed.

(** [hi] is the last number the sender has used when the step takes place; what
    arrives then was sent, and lags less than [RECENT_LIMIT] behind it. *)
Definition RECENT_LIMIT : Z := STALE_LIMIT - 64.
Definition sent_by (hi s : Z) : Prop := P s /\ s <= hi.
Definition honest_thread_op (has_fec : bool) (x : Z * thread_op) : Prop :=
  match x.2 with
  | LockedStep _ op => honest_op k ic F (sent_by x.1) has_fec 1 (x.1 - RECENT_LIMIT + 1) op
  | DeliverStep _ => True
  end.

Record threads_inv (has_fec : bool) (hi : Z) (s : RxThreads) (rel : list (nat * list Z)) : Prop := {
  th_actor : actor_inv k ic F (sent_by hi) has_fec (rt_state s);
  th_gen : ra_generation (rt_state s) = 1;
  th_reorder : good_state F (sent_by hi) (ra_reorder (rt_state s));
  th_sorted : StronglySorted Z.lt (concat rel.*2);
  th_sent : forall n, n ∈ concat rel.*2 -> P n /\ n < rb_expected_seq (ra_reorder (rt_state s));
  th_perm : rt_delivered s ++ map_to_list (rt_ready s) ≡ₚ frames_of F rel;
  th_order : forall t, batches_of t (rt_delivered s) ++ held s t = batches_of t (frames_of F rel) }.

Lemma threads_inv_mono has_fec hi hi' s rel : hi <= hi' -> threads_inv has_fec hi s rel -> threads_inv has_fec hi' s rel.
Proof using.
  intros Hh [? ? ? ? ? ? ?]. assert (forall x, sent_by hi x -> sent_by hi' x) by (intros x [? ?]; split; [done|lia]).
  split; try done; [by eapply actor_inv_mono|by eapply good_state_mono].
Qed.

(** At most one batch is undelivered, and it is the last one released. *)
Definition in_step (s : RxThreads) (rel : list (nat * list Z)) : Prop :=
  rt_delivered s ++ map_to_list (rt_ready s) = frames_of F rel /\
  (rt_ready s = ∅ \/ exists t out, rt_ready s = {[t := out]}).

(** The locked part releases the next frames in order. *)
Lemma rx_step_sorted has_fec hi st op :
  actor_inv k ic F (sent_by hi) has_fec st -> ra_generation st = 1 -> good_state F (sent_by hi) (ra_reorder st) ->
  honest_op k ic F (sent_by hi) has_fec 1 (hi - RECENT_LIMIT + 1) op ->
  exists st' l, rx_step p st op = (st', F <$> l, None) /\ actor_inv k ic F (sent_by hi) has_fec st' /\
    ra_generation st' = 1 /\ good_state F (sent_by hi) (ra_reorder st') /\ StronglySorted Z.lt l /\
    rb_expected_seq (ra_reorder st) <= rb_expected_seq (ra_reorder st') /\
    forall n, n ∈ l -> P n /\ rb_expected_seq (ra_reorder st) <= n < rb_expected_seq (ra_reorder st').
Proof using All.
  intros Ha Hg Hr Hop. rewrite <-Hg in Hop.
  destruct (rx_step_inv p k ic F (sent_by hi) Hk F_ok ltac:(by intros s [? _]; auto) _ _ _ _ Ha Hop)
    as (st' & out & E & Ha' & (evs & Hrun & Hins) & Hg').
  assert (Hnear : forall x y, sent_by hi x -> y ∈ inserted evs -> x - y < STALE_LIMIT).
  { intros x y [_ Hx] [_ Hy]%Hins. unfold RECENT_LIMIT in *. lia. }
  assert (HFne : forall s, F s <> []) by (intros s; apply F_ok).
  assert (Hrg : forall x, sent_by hi x \/ x ∈ inserted evs -> 1 <= x <= SEQ_LIMIT) by (intros x [[? _]|[[? _] _]%Hins]; auto).
  destruct (run_sorted F HFne evs (sent_by hi) (ra_reorder st) (ra_reorder st') out Hrg Hr Hnear)
    as (Hr' & Hle & l & -> & Hs & Hl); [|done|].
  { clear Hrun Hrg. unfold recent. induction (inserted evs) as [|x l IH]; [constructor|]. constructor.
    - apply IH; intros; [apply Hins; by right|apply Hnear; [done|by right]].
    - apply Forall_forall. intros y Hy. apply Hnear; [apply Hins; by left|by right]. }
  exists st', l. split_and!; try done; [congruence| |].
  - eapply good_state_mono; [|exact Hr']. intros x [?|[? _]%Hins]; done.
  - intros n Hn. destruct (Hl n Hn) as [Hn' ?]. split; [|done]. by destruct Hn' as [[? _]|[[? _] _]%Hins].
Qed.

Lemma locked_inv has_fec hi s rel t op :
  threads_inv has_fec hi s rel -> honest_thread_op has_fec (hi, LockedStep t op) ->
  exists s' rel', thread_step p s (LockedStep t op) = (s', None) /\ threads_inv has_fec hi s' (rel ++ rel') /\
    (rt_ready s = ∅ -> in_step s rel -> in_step s' (rel ++ rel')).
Proof using All.
  intros Hinv Hop. destruct Hinv as [Ha Hg Hr Hs Hn Hp Ho]. cbn [thread_step].
  destruct (rt_ready s !! t) as [out|] eqn:Et.
  { exists s, []. rewrite app_nil_r. split_and!; [done|done|]. intros E. rewrite E in Et. done. }
  destruct (rx_step_sorted has_fec hi (rt_state s) op Ha Hg Hr Hop) as (st' & l & E & Ha' & Hg' & Hr' & Hs' & Hle & Hl).
  rewrite E. destruct l as [|n l].
  { eexists _, []. rewrite app_nil_r. split_and!; [done| |].
    - split; cbn; try done. intros n Hn'. apply Hn in Hn' as [? ?]. split; [done|lia].
    - done. }
  cbn [fmap list_fmap]. eexists _, [(t, n :: l)]. split; [done|]. split.
  - split; cbn [rt_state rt_ready rt_delivered]; try done.
    + rewrite fmap_app, concat_app. cbn [fmap list_fmap concat snd app]. rewrite app_nil_r.
      apply StronglySorted_app_2; [|done|done]. intros x y [_ Hx]%Hn [_ Hy]%Hl. lia.
    + intros m. rewrite fmap_app, concat_app. cbn [fmap list_fmap concat snd]. rewrite app_nil_r.
      intros [[? ?]%Hn|[? ?]%Hl]%elem_of_app; split; done || lia.
    + rewrite map_to_list_insert, frames_of_app, <-Hp by done.
      rewrite <-app_assoc, (Permutation_app_comm (map_to_list _)). done.
    + intros t'. rewrite frames_of_app, batches_of_app, <-Ho. unfold held. cbn [rt_ready].
      change (frames_of F [(t, n :: l)]) with [(t, F n :: (F <$> l))]. rewrite batches_of_one.
      case_decide as Hd; [subst t'; by rewrite lookup_insert_eq, Et, app_nil_r|].
      by rewrite lookup_insert_ne, app_nil_r by done.
  - unfold in_step. cbn [rt_delivered rt_ready]. intros -> [Hd _].
    rewrite map_to_list_empty, app_nil_r in Hd. rewrite insert_empty, map_to_list_singleton, Hd, frames_of_app.
    split; [done|right; by eexists _, _].
Qed.

Lemma deliver_inv has_fec hi s rel t :
  threads_inv has_fec hi s rel -> threads_inv has_fec hi (deliver_ready s t) rel.
Proof using.
  intros [Ha Hg Hr Hs Hn Hp Ho]. unfold deliver_ready. destruct (rt_ready s !! t) as [out|] eqn:Et; [|done].
  split; cbn [rt_state rt_ready rt_delivered]; try done.
  - rewrite <-Hp, <-app_assoc. apply Permutation_app_head. cbn [app].
    rewrite <-(map_to_list_insert (delete t (rt_ready s))) by apply lookup_delete_eq. by rewrite insert_delete_id.
  - intros t'. rewrite <-Ho, batches_of_app, batches_of_one, <-app_assoc. f_equal. unfold held. cbn [rt_ready].
    case_decide as Hd; [subst t'; by rewrite lookup_delete_eq, Et|by rewrite lookup_delete_ne].
Qed.

Lemma deliver_in_step s rel t : in_step s rel -> in_step (deliver_ready s t) rel.
Proof using.
  intros [Hd Hr]. unfold deliver_ready. destruct (rt_ready s !! t) as [out|] eqn:Et; [|done].
  destruct Hr as [E|(t' & out' & E)]; rewrite E in Et; [done|].
  apply lookup_singleton_Some in Et as [<- <-]. unfold in_step in *. cbn [rt_delivered rt_ready].
  rewrite E, map_to_list_singleton in Hd. rewrite E, delete_singleton_eq, map_to_list_empty, app_nil_r. auto.
Qed.

Lemma thread_run_inv has_fec tops : forall hi s rel,
  threads_inv has_fec hi s rel -> StronglySorted Z.le (hi :: tops.*1) -> Forall (honest_thread_op has_fec) tops ->
  exists s' rel' hi', thread_run p s tops.*2 = (s', []) /\ threads_inv has_fec hi' s' (rel ++ rel') /\
    (in_step s rel -> serial_schedule p s tops.*2 -> in_step s' (rel ++ rel')).
Proof using All.
  induction tops as [|[hi1 op] tops IH]; intros hi s rel Hinv Hso Hho.
  { exists s, [], hi. rewrite app_nil_r. done. }
  apply Forall_cons in Hho as [Hop Hho]. cbn [fmap list_fmap fst snd] in *.
  apply StronglySorted_inv in Hso as [Hso [Hle _]%Forall_cons]. apply (threads_inv_mono _ _ _ _ _ Hle) in Hinv.
  cbn [thread_run serial_schedule]. destruct op as [t op|t].
  - destruct (locked_inv _ _ _ _ _ _ Hinv Hop) as (s1 & r1 & E1 & Hinv1 & Hs1). rewrite E1.
    destruct (IH _ _ _ Hinv1 Hso Hho) as (s2 & r2 & hi2 & E2 & Hinv2 & Hs2). rewrite E2.
    exists s2, (r1 ++ r2), hi2. rewrite app_assoc. split_and!; [done..|]. intros Hi [He Hse]. auto.
  - cbn [thread_step]. destruct (IH _ _ _ (deliver_inv _ _ _ _ t Hinv) Hso Hho) as (s2 & r2 & hi2 & E2 & Hinv2 & Hs2).
    rewrite E2. exists s2, r2, hi2. split_and!; [done..|]. intros Hi [_ Hse]. apply Hs2; [by apply deliver_in_step|done].
Qed.

Lemma threads_new_inv fec hi :
  (fec = None \/ fec = Some (FecDecoder_new k ic)) ->
  threads_inv (match fec with Some _ => true | None => false end) hi (RxThreads_new fec) [].
Proof using Hk.
  intros Hfec. split; cbn; try done; [|apply new_good|constructor|by intros n ?%elem_of_nil].
  unfold actor_inv. cbn. destruct Hfec as [->| ->]; [done|]. split; [done|by apply new_dec_inv].
Qed.

(** What was delivered is a selection of the released numbers, none twice. *)
Lemma delivered_once has_fec hi s rel :
  threads_inv has_fec hi s rel ->
  exists l, concat (rt_delivered s).*2 = F <$> l /\ NoDup l /\ forall n, n ∈ l -> P n.
Proof using.
  intros Hinv. destruct (Permutation_map_inv _ _ (th_perm _ _ _ _ Hinv)) as (rel' & E & Hrel).
  symmetry in E. apply fmap_app_inv in E as (r1 & r2 & E1 & _ & ->). exists (concat r1.*2). split_and!.
  - rewrite E1. clear. induction r1 as [|[t l] r1 IH]; [done|]. cbn. rewrite fmap_app. by f_equal.
  - assert (Hnd : NoDup (concat rel.*2)).
    { pose proof (th_sorted _ _ _ _ Hinv) as Hs. clear -Hs. induction Hs as [|x l _ IH Hx]; constructor; [|done].
      intros Hin. rewrite Forall_forall in Hx. specialize (Hx x Hin). lia. }
    rewrite Hrel, fmap_app, concat_app in Hnd. by apply NoDup_app in Hnd as [? _].
  - intros n Hn. apply (th_sent _ _ _ _ Hinv). rewrite Hrel, fmap_app, concat_app. apply elem_of_app. by left.
Qed.
End Threads.

(** C3: connection readers and the timer thread share the receive pipeline
    (duplicate filter, FEC decoder, reorder buffer).  For any arrival order, loss,
    duplication and batching of an honest sender's traffic (numbers of the epoch
    but its very last one, 0xffffffff; what arrives lags less than [RECENT_LIMIT],
    that is 2^32 - 65600, behind the largest number sent so far) and any
    interleaving of the threads' locked steps and their deliveries: no protocol
    error is
    reported; the batches released under the state lock carry payloads the sender
    sent, in strictly increasing order of their numbers over all threads; each
    thread hands exactly its own batches to the delivery callback, in its order;
    no payload is delivered twice; and the callback sees the increasing order
    itself when no thread locks the state while another still has frames to
    deliver.  Batches of another receive generation have no effect. *)
Theorem rx_pipeline_in_order `{CryptoLaws} p k ic F P fec tops :
  2 <= k <= 64 -> (forall s, bytes_ok (F s) /\ F s <> [] /\ zlen (F s) <= 131070) ->
  (forall s, P s -> 1 <= s <= U32_MAX - 1) ->
  (fec = None \/ fec = Some (FecDecoder_new k ic)) ->
  StronglySorted Z.le tops.*1 ->
  Forall (honest_thread_op k ic F P (match fec with Some _ => true | None => false end)) tops ->
  exists s rel, thread_run p (RxThreads_new fec) tops.*2 = (s, []) /\
    StronglySorted Z.lt (concat rel.*2) /\ (forall n, n ∈ concat rel.*2 -> P n) /\
    (forall t, batches_of t (rt_delivered s) ++ held s t = batches_of t (frames_of F rel)) /\
    (exists l, concat (rt_delivered s).*2 = F <$> l /\ NoDup l /\ forall n, n ∈ l -> P n) /\
    (serial_schedule p (RxThreads_new fec) tops.*2 ->
     rt_delivered s ++ map_to_list (rt_ready s) = frames_of F rel).
Proof.
  intros Hk HF HP Hfec Hso Hho. set (hi := hd 0 tops.*1).
  destruct (thread_run_inv p k ic F P Hk HF HP _ tops hi _ [] (threads_new_inv k ic F P Hk fec hi Hfec))
    as (s & rel & hi' & E & Hinv & Hser).
  { constructor; [done|]. subst hi. destruct Hso as [|x l Hl Hx]; constructor; [cbn; lia|done]. }
  { done. }
  exists s, rel. split_and!; [done|apply Hinv| |apply Hinv|by eapply delivered_once|].
  - intros n Hn. by apply (th_sent _ _ _ _ _ _ _ _ Hinv).
  - intros Hs. apply Hser; [|done]. split; [done|by left].
Qed.

Lemma rx_pipeline_in_order_witness :
  let F := fun s => [s mod 256] in
  let f := fun n => {| rf_seq := n; rf_data := [n]; rf_now := 0 |} in
  let tops := [(2, LockedStep 0 (OpBatch 1 [f 1])); (3, LockedStep 1 (OpBatch 1 [f 2; f 2])); (3, DeliverStep 1);
               (3, LockedStep 1 (OpBatch 7 [f 9])); (4, DeliverStep 0); (4, LockedStep 2 (OpTimeout 60))] in
  exists s (rel : list (nat * list Z)), thread_run Aarch64 (RxThreads_new None) tops.*2 = (s, []) /\ StronglySorted Z.lt (concat rel.*2) /\
    (exists l, concat (rt_delivered s).*2 = F <$> l /\ NoDup l /\ forall n, n ∈ l -> 1 <= n <= 3).
Proof.
  intros F f tops.
  destruct (rx_pipeline_in_order Aarch64 4 None F (fun s => 1 <= s <= 3) None tops) as (s & rel & H1 & H2 & _ & _ & H3 & _).
  - lia.
  - intros s. subst F. cbn. split_and!; [|done|lia]. constructor; [|constructor]. unfold is_byte.
    pose proof (Z.mod_pos_bound s 256). lia.
  - intros s Hs. unfold U32_MAX. lia.
  - by left.
  - cbn; repeat first [apply SSorted_nil|apply SSorted_cons|apply Forall_nil_2|apply Forall_cons_2|lia].
  - repeat first [apply Forall_nil_2|apply Forall_cons_2]; cbn; try done; intros; try lia;
      repeat first [apply Forall_nil_2|apply Forall_cons_2]; left; cbn; unfold sent_by; split_and!; try done; lia.
  - exists s, rel. exact (conj H1 (conj H2 H3)).
Defined.

(** The order across threads is not kept: two readers that release frames 1 and
    2 under the lock can deliver them as 2, 1. *)
Theorem delivery_order_not_kept `{CryptoPrims} p :
  let f := fun n => {| rf_seq := n; rf_data := [n]; rf_now := 0 |} in
  rt_delivered (thread_run p (RxThreads_new None)
    [LockedStep 0 (OpBatch 1 [f 1]); LockedStep 1 (OpBatch 1 [f 2]); DeliverStep 1; DeliverStep 0]).1
  = [(1%nat, [[2]]); (0%nat, [[1]])].
Proof. vm_compute. reflexivity. Qed.

(** A producer that pushes [items] one by one and flushes at the end. *)
Fixpoint push_run `{CryptoPrims} (p : cpu) (st : RxActorState) (pr : RxProducer) (items : list RxFrame)
  : RxActorState * RxProducer * list (list Z) :=
  match items with
  | [] => (producer_flush p st pr).1
  | it :: items' =>
      let '(st, pr, o1, _) := producer_push p st pr it in
      let '(st, pr, o2) := push_run p st pr items' in (st, pr, o1 ++ o2)
  end.

Lemma stale_flush `{CryptoPrims} p st pr :
  rp_generation pr <> ra_generation st ->
  exists pr' ok, producer_flush p st pr = (st, pr', [], ok) /\ rp_generation pr' = rp_generation pr.
Proof.
  intros Hg. unfold producer_flush, process_batch. destruct (rp_batch pr); [by eexists _, _|].
  rewrite (proj2 (Z.eqb_neq _ _) Hg). by eexists _, _.
Qed.
Lemma stale_push_run `{CryptoPrims} p st items : forall pr,
  rp_generation pr <> ra_generation st ->
  (push_run p st pr items).1.1 = st /\ (push_run p st pr items).2 = [].
Proof.
  induction items as [|it items IH]; intros pr Hg; cbn [push_run].
  { by destruct (stale_flush p st pr Hg) as (pr' & ok & -> & _). }
  assert (H1 : exists pr' ok, producer_push p st pr it = (st, pr', [], ok) /\ rp_generation pr' = rp_generation pr).
  { unfold producer_push. destruct (rp_failed pr); [by eexists _, _|]. case_match; [|by eexists _, _].
    match goal with |- context [producer_flush p st ?q] => exact (stale_flush p st q Hg) end. }
  destruct H1 as (pr' & ok & -> & Hg'). destruct (IH pr') as [E1 E2]; [congruence|].
  by destruct (push_run p st pr' items) as [[st' pr''] o2].
Qed.

(** A reconfiguration is an epoch barrier: afterwards a producer of any
    earlier generation can push and flush whatever it still holds and receives
    without changing the receive state or delivering a frame, and the new epoch
    starts from an empty reorder buffer that learns its first sequence number
    afresh. *)
Theorem reconfigure_is_barrier `{CryptoPrims} p st m fec pr items :
  RB_inv (ra_reorder st) m -> rp_generation pr <= ra_generation st ->
  (push_run p (reconfigure st fec) pr items).1.1 = reconfigure st fec /\
  (push_run p (reconfigure st fec) pr items).2 = [] /\
  RB_inv (ra_reorder (reconfigure st fec)) ∅ /\ rb_expected_seq (ra_reorder (reconfigure st fec)) = 0.
Proof.
  intros Hrb Hgen.
  assert (Hg : ra_generation (reconfigure st fec) = ra_generation st + 1) by (unfold reconfigure; by destruct (ra_fec st)).
  assert (Hr : ra_reorder (reconfigure st fec) = ReorderBuffer_reset (ra_reorder st)) by (unfold reconfigure; by destruct (ra_fec st)).
  destruct (stale_push_run p (reconfigure st fec) items pr) as [E1 E2]; [lia|].
  rewrite Hr. split; [done|]. split; [done|]. split; [by eapply reset_inv|done].
Qed.

Lemma reconfigure_is_barrier_witness :
  let st := RxActorState_new None in
  let old := [{| rf_seq := 4; rf_data := [9]; rf_now := 0 |}] in
  let pr := {| rp_generation := 1; rp_batch := old; rp_batch_cap := 16; rp_failed := None |} in
  (push_run OtherCpu (reconfigure st None) pr [{| rf_seq := 5; rf_data := [1]; rf_now := 0 |}]).2 = [].
Proof.
  intros st old pr.
  apply (reconfigure_is_barrier OtherCpu st ∅ None pr [{| rf_seq := 5; rf_data := [1]; rf_now := 0 |}]);
    [apply new_inv|vm_compute; discriminate].
Defined.


