(* ===== verification/Adaptive.v ===== *)
(** * The adaptive multipath scheduler: [src/src/adaptive_multipath.rs]

    A port picks the backend (physical connection) of every frame from queue
    pressure, input demand, RTT and weighted fair queueing.  The atomics of the
    source are plain fields: [pick] is called under the port's ordering, and the
    only other writer of a field is the backend's own TLS writer.  The monotonic
    clock is the argument [now] in microseconds.  Unchecked additions wrap, as
    in the release profile. *)
From S2P Require Import Prelude.

Definition ACTIVE2_PRESSURE : Z := 24 * 1024.
Definition ACTIVE3_PRESSURE : Z := 96 * 1024.
Definition ACTIVE4_PRESSURE : Z := 256 * 1024.
Definition FALLBACK_RATE_BYTES_PER_SEC : Z := 25000000.
Definition RATE_SAMPLE_MIN_BYTES : Z := 64 * 1024.
Definition RATE_SAMPLE_MAX_US : Z := 2000000.
Definition DEMAND_SAMPLE_MIN_US : Z := 500.
Definition ACTIVE2_RATE_BYTES_PER_SEC : Z := 40000000.
Definition ACTIVE3_RATE_BYTES_PER_SEC : Z := 100000000.
Definition ACTIVE4_RATE_BYTES_PER_SEC : Z := 180000000.
Definition CARRY_BONUS_US : Z := 150.
Definition STICKY_MIN_US : Z := 500.
Definition STICKY_MAX_US : Z := 5000.
Definition RTT_HYSTERESIS_MIN_US : Z := 5000.
Definition UNKNOWN_RTT_US : Z := 50000.

Definition service_us (bytes rate : Z) : Z :=
  if bytes =? 0 then 0 else u64_sat_mul bytes 1000000 / Z.max rate 1.
Definition service_ns (bytes rate : Z) : Z :=
  if bytes =? 0 then 0 else Z.min (u64_sat_mul bytes 1000000000 / Z.max rate 1) I64_MAX.

(** ** Per-backend state *)

Record SchedulerBackendState := {
  sb_queued_bytes : Z;
  sb_rate : Z;
  sb_eta_us : Z;
  sb_active : bool;
  sb_carry_pending : bool;
  sb_assigned_bytes : Z;
  sb_assigned_batches : Z;
  sb_fec_assigned_bytes : Z;
  sb_fec_assigned_batches : Z;
  sb_virtual_finish_ns : Z;
  sb_sample_bytes : Z;
  sb_sample_start_us : Z }.

Definition SchedulerBackendState_default : SchedulerBackendState :=
  {| sb_queued_bytes := 0; sb_rate := 0; sb_eta_us := 0; sb_active := false; sb_carry_pending := false;
     sb_assigned_bytes := 0; sb_assigned_batches := 0; sb_fec_assigned_bytes := 0; sb_fec_assigned_batches := 0;
     sb_virtual_finish_ns := 0; sb_sample_bytes := 0; sb_sample_start_us := 0 |}.

Definition sb_set_queued (s : SchedulerBackendState) (q : Z) : SchedulerBackendState :=
  {| sb_queued_bytes := q; sb_rate := sb_rate s; sb_eta_us := sb_eta_us s; sb_active := sb_active s;
     sb_carry_pending := sb_carry_pending s; sb_assigned_bytes := sb_assigned_bytes s;
     sb_assigned_batches := sb_assigned_batches s; sb_fec_assigned_bytes := sb_fec_assigned_bytes s;
     sb_fec_assigned_batches := sb_fec_assigned_batches s; sb_virtual_finish_ns := sb_virtual_finish_ns s;
     sb_sample_bytes := sb_sample_bytes s; sb_sample_start_us := sb_sample_start_us s |}.
Definition sb_set_sample (s : SchedulerBackendState) (rate bytes start : Z) : SchedulerBackendState :=
  {| sb_queued_bytes := sb_queued_bytes s; sb_rate := rate; sb_eta_us := sb_eta_us s; sb_active := sb_active s;
     sb_carry_pending := sb_carry_pending s; sb_assigned_bytes := sb_assigned_bytes s;
     sb_assigned_batches := sb_assigned_batches s; sb_fec_assigned_bytes := sb_fec_assigned_bytes s;
     sb_fec_assigned_batches := sb_fec_assigned_batches s; sb_virtual_finish_ns := sb_virtual_finish_ns s;
     sb_sample_bytes := bytes; sb_sample_start_us := start |}.
Definition sb_set_sched (s : SchedulerBackendState) (eta : Z) (active : bool) (virtual : Z) : SchedulerBackendState :=
  {| sb_queued_bytes := sb_queued_bytes s; sb_rate := sb_rate s; sb_eta_us := eta; sb_active := active;
     sb_carry_pending := sb_carry_pending s; sb_assigned_bytes := sb_assigned_bytes s;
     sb_assigned_batches := sb_assigned_batches s; sb_fec_assigned_bytes := sb_fec_assigned_bytes s;
     sb_fec_assigned_batches := sb_fec_assigned_batches s; sb_virtual_finish_ns := virtual;
     sb_sample_bytes := sb_sample_bytes s; sb_sample_start_us := sb_sample_start_us s |}.

(** [fetch_add] wraps. *)
Definition add_queued (s : SchedulerBackendState) (n : Z) : SchedulerBackendState :=
  if n =? 0 then s else sb_set_queued s (u64_wrap (sb_queued_bytes s + n)).
(** [sub_saturating] *)
Definition complete_queued (s : SchedulerBackendState) (n : Z) : SchedulerBackendState :=
  if n =? 0 then s else sb_set_queued s (sat_sub (sb_queued_bytes s) n).

(** Counters of the bytes and batches assigned to the backend; [fetch_add] wraps. *)
Definition note_assigned (s : SchedulerBackendState) (n : Z) : SchedulerBackendState :=
  if n =? 0 then s
  else
    {| sb_queued_bytes := sb_queued_bytes s; sb_rate := sb_rate s; sb_eta_us := sb_eta_us s;
       sb_active := sb_active s; sb_carry_pending := sb_carry_pending s;
       sb_assigned_bytes := u64_wrap (sb_assigned_bytes s + n);
       sb_assigned_batches := u64_wrap (sb_assigned_batches s + 1);
       sb_fec_assigned_bytes := sb_fec_assigned_bytes s; sb_fec_assigned_batches := sb_fec_assigned_batches s;
       sb_virtual_finish_ns := sb_virtual_finish_ns s; sb_sample_bytes := sb_sample_bytes s;
       sb_sample_start_us := sb_sample_start_us s |}.
Definition note_fec_assigned (s : SchedulerBackendState) (n : Z) : SchedulerBackendState :=
  if n =? 0 then s
  else
    {| sb_queued_bytes := sb_queued_bytes s; sb_rate := sb_rate s; sb_eta_us := sb_eta_us s;
       sb_active := sb_active s; sb_carry_pending := sb_carry_pending s;
       sb_assigned_bytes := sb_assigned_bytes s; sb_assigned_batches := sb_assigned_batches s;
       sb_fec_assigned_bytes := u64_wrap (sb_fec_assigned_bytes s + n);
       sb_fec_assigned_batches := u64_wrap (sb_fec_assigned_batches s + 1);
       sb_virtual_finish_ns := sb_virtual_finish_ns s; sb_sample_bytes := sb_sample_bytes s;
       sb_sample_start_us := sb_sample_start_us s |}.

Definition observe_delivered (s : SchedulerBackendState) (n now : Z) : SchedulerBackendState :=
  if n =? 0 then s
  else
    let start := sb_sample_start_us s in
    if start =? 0 then sb_set_sample s (sb_rate s) n (Z.max now 1)
    else
      let bytes := u64_sat_add (sb_sample_bytes s) n in
      let s := sb_set_sample s (sb_rate s) (u64_wrap (sb_sample_bytes s + n)) start in
      if bytes <? RATE_SAMPLE_MIN_BYTES then s
      else
        let elapsed := sat_sub now start in
        if RATE_SAMPLE_MAX_US <? elapsed then sb_set_sample s (sb_rate s) 0 (Z.max now 1)
        else if elapsed <? 200 then s
        else
          let inst := u64_sat_mul bytes 1000000 / Z.max elapsed 1 in
          if inst =? 0 then s
          else
            let old := sb_rate s in
            let rate := if old =? 0 then inst else u64_sat_add (u64_sat_mul old 7) inst / 8 in
            sb_set_sample s rate 0 (Z.max now 1).

(** ** The port *)

Record AdaptivePortState := {
  ap_input_total : Z;
  ap_input_rate : Z;
  ap_sample_total : Z;
  ap_sample_at_us : Z;
  ap_active_paths : Z;
  ap_pressure_bytes : Z }.

Definition AdaptivePortState_default : AdaptivePortState :=
  {| ap_input_total := 0; ap_input_rate := 0; ap_sample_total := 0; ap_sample_at_us := 0;
     ap_active_paths := 0; ap_pressure_bytes := 0 |}.

Definition ap_set_demand (s : AdaptivePortState) (total rate stotal sat : Z) : AdaptivePortState :=
  {| ap_input_total := total; ap_input_rate := rate; ap_sample_total := stotal; ap_sample_at_us := sat;
     ap_active_paths := ap_active_paths s; ap_pressure_bytes := ap_pressure_bytes s |}.
Definition ap_set_paths (s : AdaptivePortState) (paths pressure : Z) : AdaptivePortState :=
  {| ap_input_total := ap_input_total s; ap_input_rate := ap_input_rate s; ap_sample_total := ap_sample_total s;
     ap_sample_at_us := ap_sample_at_us s; ap_active_paths := paths; ap_pressure_bytes := pressure |}.

Definition note_input (s : AdaptivePortState) (n : Z) : AdaptivePortState :=
  if n =? 0 then s
  else ap_set_demand s (u64_wrap (ap_input_total s + n)) (ap_input_rate s) (ap_sample_total s) (ap_sample_at_us s).

(** The compare-exchanges succeed: one caller at a time. *)
Definition observe_input_demand (s : AdaptivePortState) (now : Z) : AdaptivePortState * Z :=
  let now := Z.max now 1 in
  let last := ap_sample_at_us s in
  let total := ap_input_total s in
  if last =? 0 then (ap_set_demand s total (ap_input_rate s) total now, ap_input_rate s)
  else
    let elapsed := sat_sub now last in
    if elapsed <? DEMAND_SAMPLE_MIN_US then (s, ap_input_rate s)
    else
      let delta := sat_sub total (ap_sample_total s) in
      let inst := u64_sat_mul delta 1000000 / Z.max elapsed 1 in
      let old := ap_input_rate s in
      let next := if (old =? 0) || (250000 <? elapsed) then inst
                  else u64_sat_add (u64_sat_mul old 3) inst / 4 in
      (ap_set_demand s total next total now, next).

Definition active_target (pressure demand_rate : Z) (eligible : nat) : nat :=
  if (eligible =? 0)%nat then 0%nat
  else
    let want :=
      if (ACTIVE4_PRESSURE <=? pressure) || (ACTIVE4_RATE_BYTES_PER_SEC <=? demand_rate) then 4%nat
      else if (ACTIVE3_PRESSURE <=? pressure) || (ACTIVE3_RATE_BYTES_PER_SEC <=? demand_rate) then 3%nat
      else if (ACTIVE2_PRESSURE <=? pressure) || (ACTIVE2_RATE_BYTES_PER_SEC <=? demand_rate) then 2%nat
      else 1%nat in
    Nat.min want eligible.

(** ** Picking a backend *)

(** What [AdaptiveBackend] exposes. *)
Record backend := {
  bk_state : SchedulerBackendState;
  bk_rtt_us : Z;
  bk_queue_len : Z;
  bk_queue_capacity : Z }.
Definition bk_sched (b : backend) (eta : Z) (active : bool) (virtual : Z) : backend :=
  {| bk_state := sb_set_sched (bk_state b) eta active virtual; bk_rtt_us := bk_rtt_us b;
     bk_queue_len := bk_queue_len b; bk_queue_capacity := bk_queue_capacity b |}.

Definition healthy (b : backend) : bool :=
  (2 <? bk_queue_capacity b) && (bk_queue_len b <? sat_sub (bk_queue_capacity b) 2).
(** [match b.scheduler_rtt_us() { 0 => UNKNOWN_RTT_US, v => v }] *)
Definition known_rtt (b : backend) : Z := if bk_rtt_us b =? 0 then UNKNOWN_RTT_US else bk_rtt_us b.

Record Candidate := { c_idx : nat; c_base_us : Z; c_rtt_us : Z; c_was_active : bool; c_virtual_ns : Z }.

Definition total_pressure (incoming : Z) (bs : list backend) : Z :=
  foldl (fun p b => u64_sat_add p (sb_queued_bytes (bk_state b))) incoming bs.
Definition min_healthy_rtt (bs : list backend) : Z :=
  foldl (fun m b => if healthy b then Z.min m (known_rtt b) else m) U32_MAX bs.
Definition rtt_ceiling (min_rtt : Z) : Z := min_rtt + Z.max RTT_HYSTERESIS_MIN_US (min_rtt / 4).
Definition reference_rate (max_rtt : Z) (bs : list backend) : Z :=
  foldl (fun r b => if known_rtt b <=? max_rtt then Z.max r (sb_rate (bk_state b)) else r)
    FALLBACK_RATE_BYTES_PER_SEC bs.

Definition backend_eta (b : backend) (incoming ref_rate : Z) : Z :=
  let s := bk_state b in
  let eta_rate := if sb_rate s =? 0 then ref_rate else sb_rate s in
  let eta := u64_wrap (known_rtt b / 2 + service_us (u64_sat_add (sb_queued_bytes s) incoming) (Z.max eta_rate 1)) in
  if sb_carry_pending s && (CARRY_BONUS_US <? eta) then eta - CARRY_BONUS_US else eta.

Definition eligible (max_rtt : Z) (b : backend) : bool := healthy b && (known_rtt b <=? max_rtt).

(** One turn of the candidate loop: the backend after it and the candidate. *)
Definition scan_backend (incoming max_rtt ref_rate : Z) (idx : nat) (b : backend) : backend * option Candidate :=
  let eta := backend_eta b incoming ref_rate in
  let s := bk_state b in
  if negb (eligible max_rtt b) then (bk_sched b eta false 0, None)
  else (bk_sched b eta (sb_active s) (sb_virtual_finish_ns s),
        Some {| c_idx := idx;
                c_base_us := known_rtt b / 2 + service_us incoming FALLBACK_RATE_BYTES_PER_SEC;
                c_rtt_us := known_rtt b; c_was_active := sb_active s;
                c_virtual_ns := sb_virtual_finish_ns s |}).

(** [sort_by_key(|c| (c.base_us, c.rtt_us, c.idx))] *)
Definition cand_leb (a b : Candidate) : bool :=
  if c_base_us a <? c_base_us b then true
  else if c_base_us b <? c_base_us a then false
  else if c_rtt_us a <? c_rtt_us b then true
  else if c_rtt_us b <? c_rtt_us a then false
  else (c_idx a <=? c_idx b)%nat.
Fixpoint cand_insert (c : Candidate) (l : list Candidate) : list Candidate :=
  match l with
  | [] => [c]
  | x :: l' => if cand_leb c x then c :: l else x :: cand_insert c l'
  end.
Definition cand_sort (l : list Candidate) : list Candidate := foldr cand_insert [] l.

(** The sticky choice when one path is enough. *)
Definition sticky_choice (cands : list Candidate) (first : Candidate) (preferred : option nat) : nat :=
  match preferred with
  | None => c_idx first
  | Some current =>
      if (current =? c_idx first)%nat then c_idx first
      else
        match list_find (fun c => c_idx c = current) cands with
        | None => c_idx first
        | Some (_, c) =>
            let slack := Z.max STICKY_MIN_US (Z.min STICKY_MAX_US (c_rtt_us c / 16)) in
            if c_base_us c <=? u64_sat_add (c_base_us first) slack then current else c_idx first
        end
  end.

(** The virtual time at which newly activated paths join. *)
Definition join_epoch (top : list Candidate) : Z :=
  default 0 (foldl (fun e c =>
    if c_was_active c then
      Some (match e with None => c_virtual_ns c | Some e => Z.min e (c_virtual_ns c) end)
    else e) None top).

Definition set_sched_at (idx : nat) (f : SchedulerBackendState -> bool * Z) (bs : list backend) : list backend :=
  alter (fun b => let '(a, v) := f (bk_state b) in bk_sched b (sb_eta_us (bk_state b)) a v) idx bs.

(** A loop over candidates that stores a flag and a virtual time in each one's backend. *)
Definition set_all (g : Candidate -> SchedulerBackendState -> bool * Z) (cs : list Candidate) (bs : list backend) : list backend :=
  foldl (fun bs c => set_sched_at (c_idx c) (g c) bs) bs cs.

Definition virtual_at (bs : list backend) (idx : nat) : Z :=
  match bs !! idx with Some b => sb_virtual_finish_ns (bk_state b) | None => 0 end.

(** Activate the first [active] candidates and park the others. *)
Definition activate (active : nat) (epoch : Z) (cands : list Candidate) (bs : list backend) : list backend :=
  let bs := set_all (fun c s => (true, if c_was_active c then sb_virtual_finish_ns s else epoch))
              (take active cands) bs in
  set_all (fun _ _ => (false, 0)) (drop active cands) bs.

(** Keep virtual times small: subtract the minimum of the active paths. *)
Definition min_virtual (bs : list backend) (top : list Candidate) : Z :=
  foldl (fun m c => Z.min m (virtual_at bs (c_idx c))) I64_MAX top.
Definition normalise (bs : list backend) (top : list Candidate) : list backend :=
  let m := min_virtual bs top in
  if negb (m =? 0) && negb (m =? I64_MAX) then
    set_all (fun _ s => (sb_active s, i64_wrap (sb_virtual_finish_ns s - m))) top bs
  else bs.

(** The weighted-fair-queueing score of a backend. *)
Definition score (bs : list backend) (idx : nat) : Z :=
  match bs !! idx with
  | None => 0
  | Some b =>
      let s := bk_state b in
      let v := i64_wrap (sb_virtual_finish_ns s + service_ns (sb_queued_bytes s) FALLBACK_RATE_BYTES_PER_SEC) in
      if sb_carry_pending s then i64_sat_sub v (CARRY_BONUS_US * 1000) else v
  end.
Definition best_candidate (bs : list backend) (first : Candidate) (rest : list Candidate) : Candidate :=
  (foldl (fun (acc : Candidate * Z) c =>
     let '(chosen, cs) := acc in
     let s := score bs (c_idx c) in
     if (s <? cs) || ((s =? cs) && (c_rtt_us c <? c_rtt_us chosen)) then (c, s) else acc)
     (first, score bs (c_idx first)) rest).1.

(** Park every backend but one. *)
Definition only_active (chosen : nat) (bs : list backend) : list backend :=
  imap (fun i b => bk_sched b (sb_eta_us (bk_state b)) (i =? chosen)%nat 0) bs.

Definition pick (port : AdaptivePortState) (bs : list backend) (preferred : option nat) (incoming now : Z)
  : AdaptivePortState * list backend * option nat :=
  if (length bs =? 0)%nat then (ap_set_paths port 0 (ap_pressure_bytes port), bs, None)
  else
    let '(port, demand_rate) := observe_input_demand (note_input port incoming) now in
    let pressure := total_pressure incoming bs in
    let min_rtt := min_healthy_rtt bs in
    if min_rtt =? U32_MAX then (ap_set_paths port 1 pressure, only_active 0 bs, Some 0%nat)
    else
      let max_rtt := rtt_ceiling min_rtt in
      let scanned := imap (scan_backend incoming max_rtt (reference_rate max_rtt bs)) bs in
      let bs := scanned.*1 in
      let cands := cand_sort (omap snd scanned) in
      match cands with
      | [] => (ap_set_paths port 1 pressure, bs,
               Some (match preferred with Some i => if (i <? length bs)%nat then i else 0%nat | None => 0%nat end))
      | first :: _ =>
          let active := active_target pressure demand_rate (length cands) in
          if (active =? 1)%nat then
            let chosen := sticky_choice cands first preferred in
            (ap_set_paths port 1 pressure, only_active chosen bs, Some chosen)
          else
            let top := take active cands in
            let bs := normalise (activate active (join_epoch top) cands bs) top in
            let chosen := best_candidate bs first (drop 1 top) in
            let bs := set_sched_at (c_idx chosen)
              (fun s => (sb_active s, i64_wrap (sb_virtual_finish_ns s + service_ns incoming FALLBACK_RATE_BYTES_PER_SEC))) bs in
            (ap_set_paths port (Z.of_nat active) pressure, bs, Some (c_idx chosen))
      end.

(** ** Sorting the candidates *)

Lemma cand_insert_perm c l : cand_insert c l ≡ₚ c :: l.
Proof.
  induction l as [|x l IH]; simpl; [done|].
  destruct (cand_leb c x); [done|]. rewrite IH. apply Permutation_swap.
Qed.
Lemma cand_sort_perm l : cand_sort l ≡ₚ l.
Proof. induction l as [|x l IH]; simpl; [done|]. by rewrite cand_insert_perm, IH. Qed.

Lemma cand_leb_total a b : cand_leb a b = false -> cand_leb b a = true.
Proof.
  unfold cand_leb. case_bools; try done. intros E.
  apply Nat.leb_gt in E. apply Nat.leb_le. lia.
Qed.
Lemma cand_leb_base a b : cand_leb a b = true -> c_base_us a <= c_base_us b.
Proof. unfold cand_leb. case_bools; done || lia. Qed.
Lemma cand_leb_trans a b c : cand_leb a b = true -> cand_leb b c = true -> cand_leb a c = true.
Proof.
  unfold cand_leb. case_bools; try done.
  intros ?%Nat.leb_le ?%Nat.leb_le. apply Nat.leb_le. lia.
Qed.

(** The head of the sorted list is the least candidate. *)
Definition cand_head_least (l : list Candidate) : Prop :=
  match l with [] => True | x :: l' => Forall (fun y => cand_leb x y = true) l' end.

Lemma cand_sort_head l : cand_head_least (cand_sort l).
Proof.
  induction l as [|c l IH]; simpl; [done|].
  destruct (cand_sort l) as [|x l']; simpl in *; [done|].
  destruct (cand_leb c x) eqn:E; simpl.
  - constructor; [done|]. eapply Forall_impl; [exact IH|]. intros y Hy. by eapply cand_leb_trans.
  - rewrite cand_insert_perm. constructor; [by apply cand_leb_total|done].
Qed.

(** ** The candidates of a scan *)

Section scan.
Context (incoming max_rtt ref_rate : Z).

Definition scan_cands (n : nat) (bs : list backend) : list Candidate :=
  omap snd (imap (fun i => scan_backend incoming max_rtt ref_rate (n + i)) bs).

Lemma scan_cands_cons n b bs :
  scan_cands n (b :: bs) =
  match (scan_backend incoming max_rtt ref_rate n b).2 with
  | Some c => c :: scan_cands (S n) bs | None => scan_cands (S n) bs end.
Proof.
  unfold scan_cands. cbn [imap omap list_omap]. rewrite Nat.add_0_r.
  assert (imap ((fun i => scan_backend incoming max_rtt ref_rate (n + i)) ∘ S) bs =
          imap (fun i => scan_backend incoming max_rtt ref_rate (S n + i)) bs) as ->; [|done].
  apply imap_ext. intros i x _. simpl. by rewrite Nat.add_succ_r.
Qed.

Lemma elem_of_scan_cands n bs c :
  c ∈ scan_cands n bs ->
  exists i b, bs !! i = Some b /\ c_idx c = (n + i)%nat /\ eligible max_rtt b = true /\ c_rtt_us c = known_rtt b.
Proof.
  revert n. induction bs as [|b bs IH]; intros n; [by intros ?%elem_of_nil|].
  rewrite scan_cands_cons. unfold scan_backend. destruct (eligible max_rtt b) eqn:E; simpl.
  - rewrite elem_of_cons. intros [->|Hc].
    + exists 0%nat, b. simpl. rewrite Nat.add_0_r. done.
    + destruct (IH _ Hc) as (i & b' & ? & ? & ?). exists (S i), b'. split; [done|]. split; [lia|done].
  - intros Hc. destruct (IH _ Hc) as (i & b' & ? & ? & ?). exists (S i), b'. split; [done|]. split; [lia|done].
Qed.

Lemma scan_cands_complete n bs i b :
  bs !! i = Some b -> eligible max_rtt b = true -> (n + i)%nat ∈ c_idx <$> scan_cands n bs.
Proof.
  revert n i. induction bs as [|b' bs IH]; intros n [|i] Hi He; simplify_eq/=;
    rewrite scan_cands_cons; unfold scan_backend.
  - rewrite He. simpl. rewrite Nat.add_0_r. left.
  - rewrite Nat.add_succ_r. pose proof (IH (S n) i Hi He) as H. rewrite Nat.add_succ_l in H.
    destruct (eligible max_rtt b'); simpl; [by right|done].
Qed.

Lemma scan_cands_ge n bs c : c ∈ scan_cands n bs -> (n <= c_idx c)%nat.
Proof. intros (i & b & ? & -> & ?)%elem_of_scan_cands. lia. Qed.

Lemma scan_cands_nodup n bs : NoDup (c_idx <$> scan_cands n bs).
Proof.
  revert n. induction bs as [|b bs IH]; intros n; [constructor|].
  rewrite scan_cands_cons. unfold scan_backend. destruct (eligible max_rtt b); simpl; [|apply IH].
  constructor; [|apply IH]. intros (c & E & Hc%scan_cands_ge)%list_elem_of_fmap. lia.
Qed.
End scan.

(** ** The RTT window *)

Lemma min_healthy_fold bs m :
  let r := foldl (fun m b => if healthy b then Z.min m (known_rtt b) else m) m bs in
  r <= m /\
  (forall b, b ∈ bs -> healthy b = true -> r <= known_rtt b) /\
  (r = m \/ exists b, b ∈ bs /\ healthy b = true /\ r = known_rtt b).
Proof.
  revert m. induction bs as [|x bs IH]; intros m; simpl.
  - split; [lia|]. split; [by intros b ?%elem_of_nil|by left].
  - set (m' := if healthy x then _ else _).
    assert (m' <= m) by (unfold m'; destruct (healthy x); lia).
    destruct (IH m') as (Hle & Hall & Hex). split; [lia|]. split.
    + intros b [->|Hb]%elem_of_cons Hh; [|by apply Hall]. unfold m' in *. rewrite Hh in *. lia.
    + destruct Hex as [E|(b & ? & ? & ?)]; [|right; exists b; split; [by right|done]].
      unfold m' in *. destruct (healthy x) eqn:Hx; [|by left].
      destruct (Z.min_dec m (known_rtt x)) as [Em|Em]; [left; congruence|].
      right. exists x. split; [left|split; [done|congruence]].
Qed.

Lemma min_healthy_rtt_le bs b : b ∈ bs -> healthy b = true -> min_healthy_rtt bs <= known_rtt b.
Proof. apply (min_healthy_fold bs U32_MAX). Qed.

(** Some backend is usable: healthy, with an RTT below the [u32] sentinel. *)
Definition usable (b : backend) : Prop := healthy b = true /\ known_rtt b < U32_MAX.

Lemma usable_min bs :
  Exists usable bs ->
  min_healthy_rtt bs <> U32_MAX /\
  exists i b, bs !! i = Some b /\ healthy b = true /\ known_rtt b = min_healthy_rtt bs.
Proof.
  intros (b & Hb & Hh & Hr)%Exists_exists.
  pose proof (min_healthy_rtt_le bs b Hb Hh) as Hle.
  split; [lia|]. destruct (min_healthy_fold bs U32_MAX) as (_ & _ & [E|(b' & Hb' & ? & E)]).
  - unfold min_healthy_rtt in Hle. lia.
  - apply list_elem_of_lookup_1 in Hb' as [i Hi]. exists i, b'. split; [done|]. by split.
Qed.

Lemma rtt_ceiling_mono m r : m <= r -> rtt_ceiling m <= rtt_ceiling r.
Proof.
  intros H. unfold rtt_ceiling. pose proof (Z.div_le_mono m r 4 ltac:(lia) H). lia.
Qed.
Lemma rtt_ceiling_ge m : m <= rtt_ceiling m.
Proof. unfold rtt_ceiling, RTT_HYSTERESIS_MIN_US. lia. Qed.

(** ** Which backends are active *)

Definition active_at (bs : list backend) (i : nat) : bool :=
  match bs !! i with Some b => sb_active (bk_state b) | None => false end.
Definition active_set (bs : list backend) : list nat :=
  filter (fun i => active_at bs i = true) (seq 0 (length bs)).

Lemma active_at_lt bs i : active_at bs i = true -> (i < length bs)%nat.
Proof. unfold active_at. destruct (bs !! i) eqn:E; [|done]. intros _. by eapply lookup_lt_Some. Qed.

Lemma active_set_count bs ns :
  NoDup ns -> (forall i, active_at bs i = true <-> i ∈ ns) -> length (active_set bs) = length ns.
Proof.
  intros Hnd Hiff. apply Permutation_length. apply NoDup_Permutation; [|done|].
  - apply NoDup_filter, NoDup_seq.
  - intros i. unfold active_set. rewrite list_elem_of_filter, <-Hiff, elem_of_seq.
    split; [by intros []|]. intros H. pose proof (active_at_lt _ _ H). split; [done|lia].
Qed.

Lemma set_sched_at_length i f bs : length (set_sched_at i f bs) = length bs.
Proof. apply length_alter. Qed.
#[export] Hint Rewrite set_sched_at_length : vpnlen.

Lemma active_set_sched bs i f j :
  active_at (set_sched_at i f bs) j =
  if decide (i = j) then match bs !! j with Some b => (f (bk_state b)).1 | None => false end else active_at bs j.
Proof.
  unfold active_at, set_sched_at. destruct (decide (i = j)) as [->|Hne].
  - rewrite list_lookup_alter_eq. destruct (bs !! j); simpl; [|done]. by destruct (f _).
  - by rewrite list_lookup_alter_ne.
Qed.

Lemma set_all_length g cs bs : length (set_all g cs bs) = length bs.
Proof.
  revert bs. induction cs as [|c cs IH]; intros bs; [done|].
  unfold set_all in *. simpl. by rewrite IH, set_sched_at_length.
Qed.

(** A pass that writes the flag [a] into every listed backend. *)
Lemma set_all_active g a cs bs j :
  (forall c s, (g c s).1 = a) -> (j < length bs)%nat ->
  active_at (set_all g cs bs) j = if decide (j ∈ c_idx <$> cs) then a else active_at bs j.
Proof.
  intros Hg. revert bs. induction cs as [|c cs IH]; intros bs Hj; [done|].
  unfold set_all in *. cbn [foldl]. rewrite IH by by rewrite set_sched_at_length.
  rewrite fmap_cons. rewrite active_set_sched.
  destruct (lookup_lt_is_Some_2 _ _ Hj) as [b Hb].
  destruct (decide (j ∈ c_idx <$> cs)); destruct (decide (j ∈ c_idx c :: _)) as [H|H];
    destruct (decide (c_idx c = j)); rewrite ?Hb; rewrite ?Hg; try done; exfalso;
    rewrite elem_of_cons in H; naive_solver.
Qed.

(** A pass that keeps the flags. *)
Lemma set_all_keeps g cs bs j :
  (forall c s, (g c s).1 = sb_active s) -> active_at (set_all g cs bs) j = active_at bs j.
Proof.
  intros Hg. revert bs. induction cs as [|c cs IH]; intros bs; [done|].
  unfold set_all in *. cbn [foldl]. rewrite IH, active_set_sched. unfold active_at.
  destruct (decide _); [|done]. destruct (bs !! j); [apply Hg|done].
Qed.

Lemma activate_length n e cs bs : length (activate n e cs bs) = length bs.
Proof. unfold activate. by rewrite !set_all_length. Qed.
Lemma normalise_length bs top : length (normalise bs top) = length bs.
Proof. unfold normalise. case_match; [|done]. apply set_all_length. Qed.
Lemma normalise_active bs top j : active_at (normalise bs top) j = active_at bs j.
Proof.
  unfold normalise. case_match; [|done]. by apply set_all_keeps.
Qed.

Lemma activate_active n e cs bs j :
  NoDup (c_idx <$> cs) -> (j < length bs)%nat ->
  active_at (activate n e cs bs) j =
  if decide (j ∈ c_idx <$> take n cs) then true
  else if decide (j ∈ c_idx <$> drop n cs) then false else active_at bs j.
Proof.
  intros Hnd Hj. unfold activate.
  rewrite (set_all_active _ false (drop n cs)) by (done || by rewrite set_all_length).
  rewrite (set_all_active _ true (take n cs)) by done.
  destruct (decide (j ∈ _ <$> drop n cs)) as [Hd|]; destruct (decide (j ∈ _ <$> take n cs)) as [Ht|]; try done.
  rewrite <-(take_drop n cs), fmap_app in Hnd. apply NoDup_app in Hnd as (_ & Hx & _).
  by destruct (Hx j Ht).
Qed.

(** ** What [pick] returns *)

Lemma best_candidate_fold bs l acc :
  acc.2 = score bs (c_idx acc.1) ->
  let f := fun (acc : Candidate * Z) c =>
     let '(chosen, cs) := acc in
     let s := score bs (c_idx c) in
     if (s <? cs) || ((s =? cs) && (c_rtt_us c <? c_rtt_us chosen)) then (c, s) else acc in
  let r := foldl f acc l in
  r.2 = score bs (c_idx r.1) /\ r.1 ∈ acc.1 :: l /\
  Forall (fun c => r.2 < score bs (c_idx c) \/ (r.2 = score bs (c_idx c) /\ c_rtt_us r.1 <= c_rtt_us c)) (acc.1 :: l).
Proof.
  revert acc. induction l as [|c l IH]; intros [x v] E; simpl in *.
  - split; [done|]. split; [left|]. constructor; [right; lia|done].
  - set (acc' := if _ : bool then _ else _).
    assert (acc'.2 = score bs (c_idx acc'.1) /\ (acc'.1 = x \/ acc'.1 = c) /\
      Forall (fun d => acc'.2 < score bs (c_idx d) \/ (acc'.2 = score bs (c_idx d) /\ c_rtt_us acc'.1 <= c_rtt_us d)) [x; c])
      as (E' & Hin & Hmin).
    { unfold acc'. case_bools; (split; [done|]; split; [by (left + right)|]); repeat constructor; simpl; lia. }
    destruct (IH acc' E') as (Hr & Hel & Hall). split; [done|]. split.
    + apply elem_of_cons in Hel as [->|Hel]; [|by do 2 right].
      destruct Hin as [-> | ->]; [left|right; left].
    + apply Forall_cons in Hall as [Ha Hl]. rewrite !Forall_cons in Hmin.
      destruct Hmin as (H1 & H2 & _). constructor; [|constructor; [|done]]; lia.
Qed.

Lemma best_candidate_elem bs first rest : best_candidate bs first rest ∈ first :: rest.
Proof. by destruct (best_candidate_fold bs rest (first, score bs (c_idx first)) eq_refl) as (_ & H & _). Qed.

Lemma sticky_choice_elem cands first preferred :
  first ∈ cands -> sticky_choice cands first preferred ∈ c_idx <$> cands.
Proof.
  intros Hf. pose proof (list_elem_of_fmap_2 c_idx _ _ Hf) as Hff.
  unfold sticky_choice. destruct preferred as [cur|]; [|done].
  case_match; [done|]. destruct (list_find _ cands) as [[k c]|] eqn:E; [|done].
  apply list_find_Some in E as (Hk & <- & _). case_match; [|done].
  apply list_elem_of_fmap_2. by eapply list_elem_of_lookup_2.
Qed.

Lemma only_active_at chosen bs i :
  (chosen < length bs)%nat -> (active_at (only_active chosen bs) i = true <-> i ∈ [chosen]).
Proof.
  intros Hc. unfold active_at, only_active. rewrite list_lookup_imap, list_elem_of_singleton.
  destruct (bs !! i) eqn:E; simpl; [apply Nat.eqb_eq|]. split; [done|]. intros ->.
  apply lookup_ge_None in E. lia.
Qed.

Lemma active_target_bounds p d n : (0 < n)%nat -> (1 <= active_target p d n <= Nat.min 4 n)%nat.
Proof. intros H. unfold active_target. destruct n; [lia|]. simpl Nat.eqb. cbn [negb]. repeat case_match; lia. Qed.

(** The postcondition of a [pick] that chose [chosen] among the candidates [cs]
    and left the backends [ns] active. *)
Record picked (cs : list Candidate) (bs' : list backend) (ns : list nat) (paths : Z) (chosen : nat) : Prop := {
  pk_nodup : NoDup ns;
  pk_chosen : chosen ∈ ns;
  pk_cands : forall i, i ∈ ns -> i ∈ c_idx <$> cs;
  pk_flags : forall i, active_at bs' i = true <-> i ∈ ns;
  pk_paths : paths = zlen ns;
  pk_limit : (length ns <= 4)%nat }.

Lemma picked_single cs bs chosen :
  chosen ∈ c_idx <$> cs -> (chosen < length bs)%nat ->
  picked cs (only_active chosen bs) [chosen] 1 chosen.
Proof.
  intros Hc Hl. split; simpl; try done; try lia.
  - apply NoDup_singleton.
  - left.
  - by intros i ->%list_elem_of_singleton.
  - intros i. by apply only_active_at.
Qed.

(** Only candidates are active after the scan loop. *)
Lemma scanned_active incoming max_rtt rr bs j :
  active_at (imap (scan_backend incoming max_rtt rr) bs).*1 j = true ->
  j ∈ c_idx <$> scan_cands incoming max_rtt rr 0 bs.
Proof.
  unfold active_at. rewrite list_lookup_fmap, list_lookup_imap.
  destruct (bs !! j) as [b|] eqn:E; simpl; [|done].
  unfold scan_backend. destruct (eligible max_rtt b) eqn:He; simpl; [|done].
  intros _. by apply (scan_cands_complete incoming max_rtt rr 0 bs j b).
Qed.

Lemma picked_multi cs bs n e first rest f :
  NoDup (c_idx <$> cs) -> (forall c, c ∈ cs -> (c_idx c < length bs)%nat) ->
  (forall j, active_at bs j = true -> j ∈ c_idx <$> cs) ->
  cs = first :: rest -> (1 <= n <= Nat.min 4 (length cs))%nat ->
  (forall s, (f s).1 = sb_active s) ->
  let top := take n cs in
  let bs1 := normalise (activate n e cs bs) top in
  let chosen := best_candidate bs1 first (drop 1 top) in
  picked cs (set_sched_at (c_idx chosen) f bs1) (c_idx <$> top) (Z.of_nat n) (c_idx chosen).
Proof.
  intros Hnd Hlt Hact Hcs Hn Hf top bs1 chosen.
  assert (Htop : top = first :: drop 1 top)
    by (unfold top; rewrite Hcs; destruct n; [lia|]; done).
  split.
  - unfold top. rewrite fmap_take. by eapply sublist_NoDup, sublist_take.
  - apply list_elem_of_fmap_2. rewrite Htop. apply best_candidate_elem.
  - intros i (c & -> & Hc)%list_elem_of_fmap. apply list_elem_of_fmap_2.
    unfold top in Hc. eapply elem_of_submseteq; [exact Hc|]. apply sublist_submseteq, sublist_take.
  - intros i. transitivity (active_at bs1 i = true).
    { rewrite active_set_sched. unfold active_at. destruct (decide _); [|done].
      destruct (bs1 !! i); [|done]. by rewrite Hf. }
    unfold bs1. rewrite normalise_active. destruct (decide (i < length bs)%nat) as [Hi|Hi].
    + rewrite activate_active by done. fold top. destruct (decide (i ∈ c_idx <$> top)); [done|].
      split; [|done]. destruct (decide _) as [|Hd]; [done|]. intros Hi'%Hact.
      rewrite <-(take_drop n cs), fmap_app in Hi'. apply elem_of_app in Hi'. by destruct Hi'.
    + split; [intros H%active_at_lt; rewrite activate_length in H; lia|].
      intros (c & -> & Hc)%list_elem_of_fmap. exfalso. apply Hi, Hlt.
      unfold top in Hc. eapply elem_of_submseteq; [exact Hc|]. apply sublist_submseteq, sublist_take.
  - unfold top. rewrite length_fmap, length_take. lia.
  - unfold top. rewrite length_fmap, length_take. lia.
Qed.

Lemma picked_perm cs cs' bs' ns p c : cs ≡ₚ cs' -> picked cs bs' ns p c -> picked cs' bs' ns p c.
Proof. intros HP [H1 H2 H3 H4 H5 H6]. split; try done. intros i Hi. rewrite <-HP. auto. Qed.

Lemma scan_cands_lt incoming mr rr bs c :
  c ∈ scan_cands incoming mr rr 0 bs -> (c_idx c < length bs)%nat.
Proof. intros (i & b & Hi & -> & _)%elem_of_scan_cands. by eapply lookup_lt_Some. Qed.

Lemma pick_usable port bs preferred incoming now :
  Exists usable bs ->
  exists port' bs' ns chosen rr,
    pick port bs preferred incoming now = (port', bs', Some chosen) /\
    picked (scan_cands incoming (rtt_ceiling (min_healthy_rtt bs)) rr 0 bs) bs' ns (ap_active_paths port') chosen.
Proof.
  intros Hu. destruct (usable_min bs Hu) as (Hne & i & b & Hi & Hh & Hr).
  set (mr := rtt_ceiling (min_healthy_rtt bs)). set (rr := reference_rate mr bs).
  set (cs := scan_cands incoming mr rr 0 bs).
  assert (Hcs : i ∈ c_idx <$> cs).
  { apply (scan_cands_complete incoming mr rr 0 bs i b Hi). unfold eligible. rewrite Hh.
    apply Z.leb_le. rewrite Hr. apply rtt_ceiling_ge. }
  pose proof (cand_sort_perm cs) as HP.
  unfold pick. destruct bs as [|b0 bs0]; [done|]. cbn [length Nat.eqb]. set (bs := b0 :: bs0) in *.
  destruct (observe_input_demand _ _) as [port1 d].
  rewrite (proj2 (Z.eqb_neq _ _) Hne). fold mr rr.
  change (omap snd _) with cs. set (bs1 := (imap _ bs).*1).
  assert (Hlen : length bs1 = length bs) by (unfold bs1; by rewrite length_fmap, length_imap).
  destruct (cand_sort cs) as [|first rest] eqn:Es.
  { rewrite <-HP in Hcs. by apply elem_of_nil in Hcs. }
  assert (Hin : forall c, c ∈ first :: rest -> (c_idx c < length bs1)%nat).
  { intros c Hc. rewrite HP in Hc. rewrite Hlen. by eapply scan_cands_lt. }
  case_match eqn:Ea.
  - pose proof (sticky_choice_elem (first :: rest) first preferred ltac:(left)) as Hst.
    do 2 eexists. exists [sticky_choice (first :: rest) first preferred]. do 2 eexists. split; [reflexivity|].
    eapply picked_perm; [exact HP|]. apply picked_single; [done|].
    apply list_elem_of_fmap in Hst as (c & -> & Hc). by apply Hin.
  - do 2 eexists. exists (c_idx <$> take (active_target (total_pressure incoming bs) d (length (first :: rest))) (first :: rest)).
    do 2 eexists. split; [reflexivity|]. eapply picked_perm; [exact HP|].
    eapply (picked_multi (first :: rest)); try done.
    + rewrite HP. apply scan_cands_nodup.
    + intros j Hj. rewrite HP. by apply scanned_active in Hj.
    + apply active_target_bounds. simpl. lia.
Qed.

(** ** Theorems *)

(** C37: while some backend is usable, [pick] chooses a backend that exists, has
    queue room, and whose RTT is within the hysteresis (5 ms or a quarter) of the
    RTT of every healthy backend; in particular it never sends on a congested path. *)
Theorem pick_chooses_eligible port bs preferred incoming now :
  Exists usable bs ->
  exists port' bs' i b,
    pick port bs preferred incoming now = (port', bs', Some i) /\
    bs !! i = Some b /\ healthy b = true /\
    forall b', b' ∈ bs -> healthy b' = true -> known_rtt b <= rtt_ceiling (known_rtt b').
Proof.
  intros Hu. destruct (pick_usable port bs preferred incoming now Hu) as (p' & bs' & ns & i & rr & E & Hp).
  pose proof (pk_cands _ _ _ _ _ Hp i (pk_chosen _ _ _ _ _ Hp)) as (c & Hc & Hin)%list_elem_of_fmap.
  apply elem_of_scan_cands in Hin as (k & b & Hb & Hk & He & _).
  apply andb_true_iff in He as [Hh Hr%Z.leb_le]. exists p', bs', i, b.
  split; [done|]. split; [by rewrite Hc, Hk|]. split; [done|].
  intros b' Hb' Hh'. etransitivity; [exact Hr|]. apply rtt_ceiling_mono. by apply min_healthy_rtt_le.
Qed.

Definition demo_backend (rtt len : Z) : backend :=
  {| bk_state := SchedulerBackendState_default; bk_rtt_us := rtt; bk_queue_len := len; bk_queue_capacity := 8 |}.
Definition demo_backends : list backend := [demo_backend 80000 0; demo_backend 20000 7; demo_backend 30000 1].

Lemma pick_chooses_eligible_witness :
  exists port' bs' i b,
    pick AdaptivePortState_default demo_backends None 1400 10 = (port', bs', Some i) /\
    demo_backends !! i = Some b /\ healthy b = true /\
    forall b', b' ∈ demo_backends -> healthy b' = true -> known_rtt b <= rtt_ceiling (known_rtt b').
Proof.
  apply (pick_chooses_eligible AdaptivePortState_default demo_backends None 1400 10).
  do 2 right. left. split; [reflexivity|]. vm_compute. reflexivity.
Defined.

(** After a [pick] with a usable backend the chosen backend is active, the
    number of active backends is the published [active_paths], and it is between
    one and four. *)
Theorem pick_active_set port bs preferred incoming now port' bs' r :
  Exists usable bs ->
  pick port bs preferred incoming now = (port', bs', r) ->
  exists i, r = Some i /\ active_at bs' i = true /\
    ap_active_paths port' = zlen (active_set bs') /\ (1 <= length (active_set bs') <= 4)%nat.
Proof.
  intros Hu. destruct (pick_usable port bs preferred incoming now Hu) as (p' & bs1 & ns & i & rr & -> & Hp).
  intros [= <- <- <-]. exists i. split; [done|].
  destruct Hp as [Hnd Hch _ Hfl Hpaths Hlim]. split; [by apply Hfl|].
  rewrite (active_set_count bs1 ns Hnd Hfl). split; [done|]. split; [|done].
  destruct ns; [by apply elem_of_nil in Hch|simpl; lia].
Qed.
Lemma pick_active_set_witness :
  let r := pick AdaptivePortState_default demo_backends None 300000 10 in
  exists i, r.2 = Some i /\ active_at r.1.2 i = true /\
    ap_active_paths r.1.1 = zlen (active_set r.1.2) /\ (1 <= length (active_set r.1.2) <= 4)%nat.
Proof.
  apply (pick_active_set AdaptivePortState_default demo_backends None 300000 10 _ _ _); [|vm_compute; reflexivity].
  do 2 right. left. split; [reflexivity|]. vm_compute. reflexivity.
Defined.

(** Weighted fair queueing: among the active candidates the chosen one has the
    least virtual finish time (queue included), and the least RTT among equals. *)
Theorem wfq_choice_minimal bs first rest c :
  c ∈ first :: rest ->
  let w := best_candidate bs first rest in
  w ∈ first :: rest /\
  (score bs (c_idx w) < score bs (c_idx c) \/
   score bs (c_idx w) = score bs (c_idx c) /\ c_rtt_us w <= c_rtt_us c).
Proof.
  intros Hc w. split; [apply best_candidate_elem|].
  destruct (best_candidate_fold bs rest (first, score bs (c_idx first)) eq_refl) as (Hs & _ & Hall).
  fold (best_candidate bs first rest) in *. rewrite Forall_forall in Hall. specialize (Hall c Hc).
  rewrite Hs in Hall. exact Hall.
Qed.
Definition demo_cand (i : nat) (rtt : Z) : Candidate :=
  {| c_idx := i; c_base_us := rtt / 2; c_rtt_us := rtt; c_was_active := true; c_virtual_ns := 0 |}.
Lemma wfq_choice_minimal_witness :
  let w := best_candidate demo_backends (demo_cand 0 80000) [demo_cand 2 30000] in
  w ∈ [demo_cand 0 80000; demo_cand 2 30000] /\
  (score demo_backends (c_idx w) < score demo_backends 0 \/
   score demo_backends (c_idx w) = score demo_backends 0 /\ c_rtt_us w <= 80000).
Proof.
  apply (wfq_choice_minimal demo_backends (demo_cand 0 80000) [demo_cand 2 30000] (demo_cand 0 80000)). left.
Defined.

(** Staying on the preferred path costs little: when one path carries the
    traffic, the delay of the chosen one exceeds the delay of every candidate by at
    most [STICKY_MAX_US]. *)
Theorem sticky_cost_bounded l first rest preferred :
  cand_sort l = first :: rest ->
  exists c, c ∈ l /\ c_idx c = sticky_choice (cand_sort l) first preferred /\
    forall c', c' ∈ l -> c_base_us c <= c_base_us c' + STICKY_MAX_US.
Proof.
  intros E. pose proof (cand_sort_perm l) as HP. pose proof (cand_sort_head l) as Hh. rewrite E in *.
  assert (Hmin : forall c', c' ∈ l -> c_base_us first <= c_base_us c').
  { intros c'. rewrite <-HP, elem_of_cons. intros [->|Hc']; [lia|].
    apply cand_leb_base. cbn [cand_head_least] in Hh. rewrite Forall_forall in Hh. by apply Hh. }
  assert (Hfirst : exists c, c ∈ l /\ c_idx c = c_idx first /\ forall c', c' ∈ l -> c_base_us c <= c_base_us c' + STICKY_MAX_US).
  { exists first. split; [rewrite <-HP; left|]. split; [done|]. intros c' Hc'%Hmin. unfold STICKY_MAX_US. lia. }
  unfold sticky_choice. destruct preferred as [cur|]; [|done]. case_match; [done|].
  destruct (list_find _ _) as [[k c]|] eqn:Ef; [|done]. case_match eqn:Eb; [|done].
  apply list_find_Some in Ef as (Hk & Hcur & _). apply Z.leb_le in Eb.
  exists c. split; [rewrite <-HP; by eapply list_elem_of_lookup_2|]. split; [done|].
  intros c' Hc'%Hmin. unfold u64_sat_add, STICKY_MIN_US, STICKY_MAX_US in *. lia.
Qed.
Lemma sticky_cost_bounded_witness :
  exists c, c ∈ [demo_cand 0 80000; demo_cand 2 30000] /\
    c_idx c = sticky_choice (cand_sort [demo_cand 0 80000; demo_cand 2 30000]) (demo_cand 2 30000) (Some 0%nat) /\
    forall c', c' ∈ [demo_cand 0 80000; demo_cand 2 30000] -> c_base_us c <= c_base_us c' + STICKY_MAX_US.
Proof.
  apply (sticky_cost_bounded [demo_cand 0 80000; demo_cand 2 30000] (demo_cand 2 30000) [demo_cand 0 80000] (Some 0%nat)).
  reflexivity.
Defined.
