(* ===== verification/Queue.v ===== *)
(** * The backend queue: [OwnedBatchQueue] and [BackendNotify] of [src/src/net.rs],
      [FramePayload], [VPNFrame] and [VPNFrameBatch] of [src/src/frame.rs]

    The queue hands frames from the producers to the TLS writer of one physical
    connection.  It is bounded in frames; producers append to the tail batch and
    the writer takes whole batches.  Every operation runs under the queue's
    mutex, so an operation is one function on the state.  Counts of queued
    objects ([usize], bounded by the capacity) are [nat], byte counters are [Z]
    with the source's saturation. *)
From S2P Require Import Prelude.

(** ** Payloads, frames and batches *)

Inductive FramePayload :=
| Owned (buf : list Z)
| Shared (buf : list Z).

(** [from_shared]: [unique] says that [Arc::try_unwrap] found a single owner. *)
Definition from_shared (unique : bool) (data : list Z) : FramePayload :=
  if unique then Owned data else Shared data.
Definition as_slice (p : FramePayload) : list Z :=
  match p with Owned buf | Shared buf => buf end.

Record VPNFrame := { vf_seq : Z; vf_data : FramePayload }.
Definition frame_len (f : VPNFrame) : Z := zlen (as_slice (vf_data f)).

Record VPNFrameBatch := { vb_frames : list VPNFrame; vb_bytes : Z }.
Definition batch_push (b : VPNFrameBatch) (f : VPNFrame) (bytes : Z) : VPNFrameBatch :=
  {| vb_frames := vb_frames b ++ [f]; vb_bytes := u64_sat_add (vb_bytes b) bytes |}.
Definition from_frame (f : VPNFrame) (bytes : Z) : VPNFrameBatch :=
  batch_push {| vb_frames := []; vb_bytes := 0 |} f bytes.

(** ** The queue *)

Definition OWNED_BATCH_MAX_FRAMES : nat := 8.
Definition OWNED_BATCH_MAX_BYTES : Z := 8 * 1024.
Definition OWNED_BATCH_WIRE_OVERHEAD_PER_FRAME : Z := 32.

(** [env] is the parsed TLSVPN_TX_BATCH_SIZE. *)
Definition tx_batch_size (env : option nat) : nat :=
  match env with
  | Some n => if (n =? 8)%nat || (n =? 16)%nat || (n =? 32)%nat then n else OWNED_BATCH_MAX_FRAMES
  | None => OWNED_BATCH_MAX_FRAMES
  end.

Record OwnedBatchQueueInner := { qi_batches : list VPNFrameBatch; qi_frames : nat }.
Record OwnedBatchQueue := {
  oq_inner : OwnedBatchQueueInner;
  oq_frames_hint : nat;
  oq_capacity : nat;
  oq_max_batch : nat }.

Definition OwnedBatchQueue_new (env : option nat) (capacity : nat) : OwnedBatchQueue :=
  {| oq_inner := {| qi_batches := []; qi_frames := 0 |}; oq_frames_hint := 0;
     oq_capacity := Nat.max capacity 1; oq_max_batch := tx_batch_size env |}.

Definition oq_set (q : OwnedBatchQueue) (inner : OwnedBatchQueueInner) (hint : nat) : OwnedBatchQueue :=
  {| oq_inner := inner; oq_frames_hint := hint; oq_capacity := oq_capacity q; oq_max_batch := oq_max_batch q |}.
(** [frames_hint.store(inner.frames)] *)
Definition oq_publish (q : OwnedBatchQueue) (inner : OwnedBatchQueueInner) : OwnedBatchQueue :=
  oq_set q inner (qi_frames inner).

Definition len_hint (q : OwnedBatchQueue) : nat := oq_frames_hint q.
Definition len_frames (q : OwnedBatchQueue) : nat := qi_frames (oq_inner q).
Definition oq_is_empty (q : OwnedBatchQueue) : bool := (qi_frames (oq_inner q) =? 0)%nat.

Definition can_append (max_frames : nat) (bytes : Z) (b : VPNFrameBatch) : bool :=
  (length (vb_frames b) <? max_frames)%nat && (u64_sat_add (vb_bytes b) bytes <=? OWNED_BATCH_MAX_BYTES).

Fixpoint push_tail (max_frames : nat) (f : VPNFrame) (bytes : Z) (l : list VPNFrameBatch) : list VPNFrameBatch :=
  match l with
  | [] => [from_frame f bytes]
  | [b] => if can_append max_frames bytes b then [batch_push b f bytes] else [b; from_frame f bytes]
  | b :: l' => b :: push_tail max_frames f bytes l'
  end.
Definition push_locked (inner : OwnedBatchQueueInner) (f : VPNFrame) (bytes : Z) (max_frames : nat)
  : OwnedBatchQueueInner :=
  {| qi_batches := push_tail max_frames f bytes (qi_batches inner); qi_frames := S (qi_frames inner) |}.

Definition try_push (q : OwnedBatchQueue) (f : VPNFrame) (bytes : Z) : result OwnedBatchQueue VPNFrame :=
  if (oq_capacity q <=? qi_frames (oq_inner q))%nat then Err f
  else Ok (oq_publish q (push_locked (oq_inner q) f bytes (oq_max_batch q))).

Definition push_all (max_frames : nat) (l : list VPNFrame) (inner : OwnedBatchQueueInner) : OwnedBatchQueueInner :=
  foldl (fun inner f => push_locked inner f (frame_len f) max_frames) inner l.

(** The accepted prefix leaves [input]; the result is the rest of it, the number
    of accepted frames and their bytes. *)
Definition try_push_batch (q : OwnedBatchQueue) (input : list VPNFrame)
  : OwnedBatchQueue * list VPNFrame * nat * Z :=
  let inner := oq_inner q in
  let count := Nat.min (length input) (oq_capacity q - qi_frames inner) in
  let accepted := take count input in
  (oq_publish q (push_all (oq_max_batch q) accepted inner), drop count input, count,
   foldl (fun s f => s + frame_len f) 0 accepted).

Definition estimated_wire (b : VPNFrameBatch) : Z :=
  u64_sat_add (vb_bytes b) (u64_sat_mul (zlen (vb_frames b)) OWNED_BATCH_WIRE_OVERHEAD_PER_FRAME).

Definition try_pop_fitting (q : OwnedBatchQueue) (wire_budget : Z) : OwnedBatchQueue * option VPNFrameBatch :=
  match qi_batches (oq_inner q) with
  | [] => (q, None)
  | front :: rest =>
      if wire_budget <? estimated_wire front then (q, None)
      else
        (oq_publish q {| qi_batches := rest; qi_frames := qi_frames (oq_inner q) - length (vb_frames front) |},
         Some front)
  end.

(** ** Wake-up coalescing *)

(** The poller's side of a notification: the dirty queue of tokens (a bounded
    [ArrayQueue]) and the number of eventfd wakes.  [pending] coalesces them. *)
Record BackendNotify := {
  bn_token : nat;
  bn_pending : bool;
  bn_dirty : list nat;
  bn_dirty_cap : nat;
  bn_wakes : nat }.

Definition wake (n : BackendNotify) : BackendNotify :=
  if bn_pending n then n
  else {| bn_token := bn_token n; bn_pending := true;
          bn_dirty := if (length (bn_dirty n) <? bn_dirty_cap n)%nat then bn_dirty n ++ [bn_token n] else bn_dirty n;
          bn_dirty_cap := bn_dirty_cap n; bn_wakes := S (bn_wakes n) |}.
Definition consume_wake (n : BackendNotify) : BackendNotify :=
  {| bn_token := bn_token n; bn_pending := false; bn_dirty := bn_dirty n;
     bn_dirty_cap := bn_dirty_cap n; bn_wakes := bn_wakes n |}.

(** ** The invariant *)

Definition batch_frames (l : list VPNFrameBatch) : list VPNFrame := concat (vb_frames <$> l).
Definition contents (q : OwnedBatchQueue) : list VPNFrame := batch_frames (qi_batches (oq_inner q)).
Definition bytes_of (l : list VPNFrame) : Z := foldr (fun f s => frame_len f + s) 0 l.

(** A batch accounts for its bytes and respects the limits; only a single frame
    may be larger than the byte limit. *)
Record batch_ok (max_frames : nat) (b : VPNFrameBatch) : Prop := {
  bo_count : (1 <= length (vb_frames b) <= max_frames)%nat;
  bo_bytes : vb_bytes b = Z.min U64_MAX (bytes_of (vb_frames b));
  bo_limit : bytes_of (vb_frames b) <= OWNED_BATCH_MAX_BYTES \/ length (vb_frames b) = 1%nat }.

Record queue_ok (q : OwnedBatchQueue) : Prop := {
  qo_max : (1 <= oq_max_batch q)%nat;
  qo_batches : Forall (batch_ok (oq_max_batch q)) (qi_batches (oq_inner q));
  qo_frames : qi_frames (oq_inner q) = length (contents q);
  qo_bound : (length (contents q) <= oq_capacity q)%nat }.

Lemma bytes_of_nonneg l : 0 <= bytes_of l.
Proof. induction l; simpl; unfold frame_len; lia. Qed.
Lemma bytes_of_app l1 l2 : bytes_of (l1 ++ l2) = bytes_of l1 + bytes_of l2.
Proof. induction l1; simpl; [done|]. lia. Qed.

Lemma batch_frames_cons b l : batch_frames (b :: l) = vb_frames b ++ batch_frames l.
Proof. done. Qed.
Lemma push_tail_frames m f n l : batch_frames (push_tail m f n l) = batch_frames l ++ [f].
Proof.
  induction l as [|b [|b' l] IH]; [done| |].
  - cbn [push_tail]. destruct (can_append m n b); unfold batch_frames; simpl; by rewrite !app_nil_r.
  - cbn [push_tail] in *. by rewrite !batch_frames_cons, IH, batch_frames_cons, !app_assoc.
Qed.

Lemma from_frame_ok m f : (1 <= m)%nat -> batch_ok m (from_frame f (frame_len f)).
Proof.
  intros. split; simpl; [lia| |by right]. unfold u64_sat_add. by rewrite Z.add_0_l, Z.add_0_r.
Qed.
Lemma batch_push_ok m b f :
  batch_ok m b -> can_append m (frame_len f) b = true -> batch_ok m (batch_push b f (frame_len f)).
Proof.
  intros [Hc Hb _] [Hn%Nat.ltb_lt Hs%Z.leb_le]%andb_true_iff.
  assert (0 <= frame_len f) by (unfold frame_len; lia). pose proof (bytes_of_nonneg (vb_frames b)).
  assert (E : bytes_of (vb_frames b ++ [f]) = bytes_of (vb_frames b) + frame_len f)
    by (rewrite bytes_of_app; simpl; lia).
  unfold u64_sat_add, OWNED_BATCH_MAX_BYTES, U64_MAX in *.
  split; cbn [batch_push vb_frames vb_bytes]; rewrite ?length_app, ?E; simpl; [lia| |left]; unfold u64_sat_add, OWNED_BATCH_MAX_BYTES, U64_MAX; lia.
Qed.
Lemma push_tail_ok m f l :
  (1 <= m)%nat -> Forall (batch_ok m) l -> Forall (batch_ok m) (push_tail m f (frame_len f) l).
Proof.
  intros Hm. induction l as [|b [|b' l] IH]; intros Hl.
  - apply Forall_singleton. by apply from_frame_ok.
  - rewrite Forall_singleton in Hl. cbn [push_tail]. case_match.
    + apply Forall_singleton. apply batch_push_ok; done.
    + apply Forall_cons. split; [done|]. apply Forall_singleton. by apply from_frame_ok.
  - apply Forall_cons in Hl as [Hb Hl]. cbn [push_tail] in *. constructor; auto.
Qed.

Lemma push_all_spec m l inner :
  (1 <= m)%nat -> Forall (batch_ok m) (qi_batches inner) ->
  let r := push_all m l inner in
  batch_frames (qi_batches r) = batch_frames (qi_batches inner) ++ l /\
  qi_frames r = (qi_frames inner + length l)%nat /\ Forall (batch_ok m) (qi_batches r).
Proof.
  intros Hm. revert inner. induction l as [|f l IH]; intros inner Hok; simpl.
  - rewrite app_nil_r. split; [done|]. split; [lia|done].
  - destruct (IH (push_locked inner f (frame_len f) m)) as (H1 & H2 & H3); [by apply push_tail_ok|].
    rewrite H1, H2. cbn [push_locked qi_batches qi_frames]. rewrite push_tail_frames, <-app_assoc.
    split; [done|]. split; [lia|done].
Qed.

Lemma OwnedBatchQueue_new_ok env cap : queue_ok (OwnedBatchQueue_new env cap).
Proof.
  split; simpl; try done; [|unfold contents; simpl; lia].
  unfold tx_batch_size, OWNED_BATCH_MAX_FRAMES. destruct env as [n|]; [|lia].
  destruct (_ || _) eqn:E; [|lia]. apply orb_true_iff in E as [[E|E]%orb_true_iff|E]; apply Nat.eqb_eq in E; lia.
Qed.

Lemma try_push_ok q f q' :
  queue_ok q -> try_push q f (frame_len f) = Ok q' ->
  queue_ok q' /\ contents q' = contents q ++ [f] /\ oq_capacity q' = oq_capacity q.
Proof.
  intros [Hm Hb Hf Hc]. unfold try_push. destruct (Nat.leb_spec (oq_capacity q) (qi_frames (oq_inner q))); [done|].
  intros [= <-]. assert (E : contents (oq_publish q (push_locked (oq_inner q) f (frame_len f) (oq_max_batch q))) = contents q ++ [f])
    by apply push_tail_frames.
  split; [|done]. split; [done|by apply push_tail_ok| |]; rewrite E, length_app; simpl; lia.
Qed.

Lemma try_push_batch_ok q input q' rest count bytes :
  queue_ok q -> try_push_batch q input = (q', rest, count, bytes) ->
  queue_ok q' /\ contents q' = contents q ++ take count input /\ rest = drop count input /\
  count = Nat.min (length input) (oq_capacity q - length (contents q)) /\ bytes = bytes_of (take count input).
Proof.
  intros [Hm Hb Hf Hc] [= <- <- <- <-]. set (n := Nat.min _ _).
  destruct (push_all_spec (oq_max_batch q) (take n input) (oq_inner q) Hm Hb) as (H1 & H2 & H3).
  assert (E : contents (oq_publish q (push_all (oq_max_batch q) (take n input) (oq_inner q))) = contents q ++ take n input) by done.
  split; [|split; [done|]].
  - split; [done|done| |]; rewrite E, length_app, ?length_take; cbn [oq_publish oq_set oq_inner oq_capacity]; rewrite ?H2, ?length_take; lia.
  - split; [done|]. split; [unfold n; by rewrite Hf|].
    enough (forall s l, foldl (fun s f => s + frame_len f) s l = s + bytes_of l) as -> by lia.
    intros s l. revert s. induction l as [|x l IH]; intros s; simpl; [lia|]. rewrite IH. lia.
Qed.

Lemma try_pop_fitting_ok q budget q' r :
  queue_ok q -> try_pop_fitting q budget = (q', r) ->
  queue_ok q' /\
  match r with
  | None => q' = q /\ (contents q = [] \/ exists b l, qi_batches (oq_inner q) = b :: l /\ budget < estimated_wire b)
  | Some b => batch_ok (oq_max_batch q) b /\ estimated_wire b <= budget /\ contents q = vb_frames b ++ contents q'
  end.
Proof.
  intros Hq. destruct q as [[bs n] hint cap m]. unfold try_pop_fitting. cbn [oq_inner qi_batches].
  destruct bs as [|b bs]; [intros [= <- <-]; split; [done|]; split; [done|by left]|].
  destruct Hq as [Hm Hb Hf Hc]. cbn [oq_inner qi_batches oq_max_batch oq_capacity qi_frames] in *.
  apply Forall_cons in Hb as [Hb Hbs].
  unfold contents in *. cbn [oq_inner qi_batches] in *. rewrite batch_frames_cons, length_app in *.
  destruct (Z.ltb_spec budget (estimated_wire b)); intros [= <- <-].
  - split; [split; cbn; rewrite ?batch_frames_cons, ?length_app; try done; by constructor|].
    split; [done|]. right. by exists b, bs.
  - split; [|done]. split; cbn [oq_publish oq_set oq_inner oq_max_batch oq_capacity qi_batches qi_frames]; try done; unfold contents, batch_frames in *; cbn in *.
    all: lia.
Qed.

(** ** Runs of the queue *)

Inductive queue_op :=
| QPush (f : VPNFrame)
| QPushBatch (input : list VPNFrame)
| QPop (budget : Z).

(** One operation: the queue after it, the frames it accepted and the frames it
    handed to the writer. *)
Definition queue_step (q : OwnedBatchQueue) (op : queue_op) : OwnedBatchQueue * list VPNFrame * list VPNFrame :=
  match op with
  | QPush f => match try_push q f (frame_len f) with Ok q' => (q', [f], []) | Err _ => (q, [], []) end
  | QPushBatch input => let '(q', _, count, _) := try_push_batch q input in (q', take count input, [])
  | QPop budget =>
      let '(q', r) := try_pop_fitting q budget in
      (q', [], match r with Some b => vb_frames b | None => [] end)
  end.
Fixpoint queue_run (q : OwnedBatchQueue) (ops : list queue_op) : OwnedBatchQueue * list VPNFrame * list VPNFrame :=
  match ops with
  | [] => (q, [], [])
  | op :: ops' =>
      let '(q1, a1, o1) := queue_step q op in
      let '(q2, a2, o2) := queue_run q1 ops' in (q2, a1 ++ a2, o1 ++ o2)
  end.

Lemma queue_step_spec q op q' a o :
  queue_ok q -> queue_step q op = (q', a, o) -> queue_ok q' /\ contents q ++ a = o ++ contents q'.
Proof.
  intros Hq. destruct op as [f|input|budget]; cbn [queue_step].
  - destruct (try_push q f (frame_len f)) as [q1|] eqn:E; intros [= <- <- <-]; [|by rewrite app_nil_r].
    by destruct (try_push_ok q f q1 Hq E) as (? & -> & _).
  - destruct (try_push_batch q input) as [[[q1 r] n] b] eqn:E. intros [= <- <- <-].
    by destruct (try_push_batch_ok _ _ _ _ _ _ Hq E) as (? & -> & _).
  - destruct (try_pop_fitting q budget) as [q1 r] eqn:E. intros [= <- <- <-].
    destruct (try_pop_fitting_ok _ _ _ _ Hq E) as (? & Hr). rewrite app_nil_r.
    destruct r; [by destruct Hr as (_ & _ & ->)|by destruct Hr as [-> _]].
Qed.
Lemma queue_run_spec ops : forall q q' a o,
  queue_ok q -> queue_run q ops = (q', a, o) -> queue_ok q' /\ contents q ++ a = o ++ contents q'.
Proof.
  induction ops as [|op ops IH]; intros q q' a o Hq; simpl; [intros [= <- <- <-]; by rewrite app_nil_r|].
  destruct (queue_step q op) as [[q1 a1] o1] eqn:E1. destruct (queue_run q1 ops) as [[q2 a2] o2] eqn:E2.
  intros [= <- <- <-]. destruct (queue_step_spec _ _ _ _ _ Hq E1) as (Hq1 & H1).
  destruct (IH _ _ _ _ Hq1 E2) as (Hq2 & H2). split; [done|].
  by rewrite app_assoc, H1, <-app_assoc, H2, app_assoc.
Qed.

(** The queue is a bounded FIFO: whatever the interleaving of single pushes,
    batch pushes and pops, the frames handed to the writer followed by the frames
    still queued are exactly the accepted frames in their order of acceptance, and
    the number queued never exceeds the capacity. *)
Theorem queue_is_bounded_fifo env capacity ops q a o :
  queue_run (OwnedBatchQueue_new env capacity) ops = (q, a, o) ->
  a = o ++ contents q /\ (length (contents q) <= Nat.max capacity 1)%nat /\ len_frames q = length (contents q).
Proof.
  intros E. destruct (queue_run_spec ops _ _ _ _ (OwnedBatchQueue_new_ok env capacity) E) as ([_ _ Hf Hb] & H).
  split; [done|]. split; [|done].
  enough (forall ops q q' a o, queue_run q ops = (q', a, o) -> oq_capacity q' = oq_capacity q) as Hc.
  { by rewrite (Hc _ _ _ _ _ E) in Hb. }
  clear. induction ops as [|op ops IH]; intros q q' a o; simpl; [by intros [= <- _ _]|].
  destruct (queue_step q op) as [[q1 a1] o1] eqn:E1. destruct (queue_run q1 ops) as [[q2 a2] o2] eqn:E2.
  intros [= <- _ _]. rewrite (IH _ _ _ _ E2). destruct op; cbn [queue_step] in E1.
  - unfold try_push in E1. by destruct (_ <=? _)%nat; simplify_eq.
  - by destruct (try_push_batch q input) as [[[]]] eqn:Eb; unfold try_push_batch in Eb; simplify_eq.
  - unfold try_pop_fitting in E1. destruct (qi_batches (oq_inner q)); [by simplify_eq|].
    by destruct (_ <? _); simplify_eq.
Qed.
Definition demo_frame (seq : Z) (n : nat) : VPNFrame := {| vf_seq := seq; vf_data := Owned (replicate n 7) |}.
Definition demo_ops : list queue_op :=
  [QPush (demo_frame 1 100); QPushBatch [demo_frame 2 100; demo_frame 3 9000; demo_frame 4 1]; QPop 4096;
   QPush (demo_frame 5 10); QPop 100].
Lemma queue_is_bounded_fifo_witness :
  let '(q, a, o) := queue_run (OwnedBatchQueue_new None 3) demo_ops in
  a = o ++ contents q /\ (length (contents q) <= 3)%nat /\ len_frames q = length (contents q).
Proof. apply (queue_is_bounded_fifo None 3 demo_ops). reflexivity. Defined.

(** The writer's budget is respected and progress is guaranteed: a popped batch
    holds between one and [max_batch] frames whose payloads plus framing allowance
    fit the budget, and a non-empty queue of frames of at most 8 KiB always yields a
    batch when the budget is 8 KiB plus the allowance of a full batch. *)
Theorem queue_pop_fits_and_progresses q budget q' r :
  queue_ok q -> (oq_max_batch q <= 32)%nat -> try_pop_fitting q budget = (q', r) ->
  (forall b, r = Some b ->
     (1 <= length (vb_frames b) <= oq_max_batch q)%nat /\
     (budget <= U64_MAX - 1 -> bytes_of (vb_frames b) + 32 * zlen (vb_frames b) <= budget)) /\
  (contents q <> [] -> Forall (fun f => frame_len f <= OWNED_BATCH_MAX_BYTES) (contents q) ->
   OWNED_BATCH_MAX_BYTES + 32 * Z.of_nat (oq_max_batch q) <= budget -> r <> None).
Proof.
  intros Hq Hmax E. pose proof (try_pop_fitting_ok _ _ _ _ Hq E) as (_ & Hr). split.
  - intros b ->. destruct Hr as ([Hc Hb _] & Hw & _). split; [done|]. intros Hbud.
    unfold estimated_wire, u64_sat_add, u64_sat_mul, OWNED_BATCH_WIRE_OVERHEAD_PER_FRAME in Hw.
    rewrite Hb in Hw. pose proof (bytes_of_nonneg (vb_frames b)). unfold U64_MAX in *. lia.
  - intros Hne Hall Hbud ->. destruct Hr as (_ & [?|(b & l & Eb & Hlt)]); [done|].
    pose proof (qo_batches _ Hq) as Hbs. unfold contents in Hall. rewrite Eb in *.
    rewrite batch_frames_cons in Hall. apply Forall_app in Hall as [Hall _].
    apply Forall_cons in Hbs as [[Hc Hb Hlim] _]. pose proof (bytes_of_nonneg (vb_frames b)).
    assert (bytes_of (vb_frames b) <= OWNED_BATCH_MAX_BYTES).
    { destruct Hlim as [|H1]; [done|]. destruct (vb_frames b) as [|f [|]]; simpl in H1; try lia.
      rewrite Forall_singleton in Hall. simpl. lia. }
    unfold estimated_wire, u64_sat_add, u64_sat_mul, OWNED_BATCH_WIRE_OVERHEAD_PER_FRAME, OWNED_BATCH_MAX_BYTES in *.
    rewrite Hb in Hlt. unfold U64_MAX in *. lia.
Qed.
Definition demo_queue : OwnedBatchQueue :=
  (queue_run (OwnedBatchQueue_new None 8) [QPush (demo_frame 1 100); QPush (demo_frame 2 60)]).1.1.
Lemma queue_pop_fits_and_progresses_witness :
  let r := (try_pop_fitting demo_queue 9000).2 in
  (forall b, r = Some b ->
     (1 <= length (vb_frames b) <= oq_max_batch demo_queue)%nat /\
     (9000 <= U64_MAX - 1 -> bytes_of (vb_frames b) + 32 * zlen (vb_frames b) <= 9000)) /\
  (contents demo_queue <> [] -> Forall (fun f => frame_len f <= OWNED_BATCH_MAX_BYTES) (contents demo_queue) ->
   OWNED_BATCH_MAX_BYTES + 32 * Z.of_nat (oq_max_batch demo_queue) <= 9000 -> r <> None).
Proof.
  apply (queue_pop_fits_and_progresses demo_queue 9000 (try_pop_fitting demo_queue 9000).1); [|vm_compute; lia|reflexivity].
  split; [vm_compute; lia| |reflexivity|vm_compute; lia].
  apply Forall_singleton. split; [vm_compute; lia|reflexivity|left; vm_compute; discriminate].
Defined.
