(* ===== verification/Port.v ===== *)
(** * The sending port: [Backend] and [AsyncPort] of [src/src/net.rs]

    A port numbers the frames of a session and spreads them over the session's
    backends.  Per frame: a saturation check, the sequence number, the FEC
    encoder and its mode fence, the adaptive choice of the backend, the enqueue
    with fall-back to the other backends, and the parity frame on another path.

    An operation is one function on the port, so the operations of several
    producers are interleaved whole: that is the source's behaviour on the client
    (one TAP thread, or the dispatch thread), and for a server port while one
    worker writes to it.  Several workers can write to one server port at the same
    time; the source then serialises the number ([compare_exchange]), the encoder
    and each queue separately, and interleavings inside one operation are not
    modelled.  The TLS writers pop batches between operations.  The legacy crossbeam channel of a backend is
    the class [FrameChannel].  The clock is the argument [now].  Recycling a
    dropped payload touches only the thread-local pools of [Buffer.v]. *)
From S2P Require Import Prelude Protocol Crypto Xor Fec Adaptive Queue.

(** ** The legacy channel *)

(** What the port uses of a [crossbeam_channel::Sender]; [ch_frames] observes the
    messages not received yet. *)
Class FrameChannel := {
  chan : Type;
  ch_try_send : chan -> VPNFrame -> option chan;
  ch_len : chan -> nat;
  ch_capacity : chan -> option nat;
  same_channel : chan -> chan -> bool;
  ch_frames : chan -> list VPNFrame }.
(** The channel is FIFO: a successful send appends one message. *)
Class FrameChannelLaws `{FrameChannel} := {
  ch_try_send_fifo : forall c f c', ch_try_send c f = Some c' -> ch_frames c' = ch_frames c ++ [f] }.

Section Port.
Context `{FrameChannel} `{CryptoPrims}.
Context (cpu_kind : cpu).

(** ** Backends *)

Record Backend := {
  be_fec_fence_gen : Z;
  be_ch : chan;
  be_owned_batches : option OwnedBatchQueue;
  be_rtt_cache : Z;
  be_notify : option BackendNotify;
  be_scheduler : SchedulerBackendState }.

Definition be_set_fence (b : Backend) (g : Z) : Backend :=
  {| be_fec_fence_gen := g; be_ch := be_ch b; be_owned_batches := be_owned_batches b;
     be_rtt_cache := be_rtt_cache b; be_notify := be_notify b; be_scheduler := be_scheduler b |}.
Definition be_set_sched (b : Backend) (s : SchedulerBackendState) : Backend :=
  {| be_fec_fence_gen := be_fec_fence_gen b; be_ch := be_ch b; be_owned_batches := be_owned_batches b;
     be_rtt_cache := be_rtt_cache b; be_notify := be_notify b; be_scheduler := s |}.
Definition be_set_queue (b : Backend) (q : OwnedBatchQueue) : Backend :=
  {| be_fec_fence_gen := be_fec_fence_gen b; be_ch := be_ch b; be_owned_batches := Some q;
     be_rtt_cache := be_rtt_cache b; be_notify := be_notify b; be_scheduler := be_scheduler b |}.
Definition be_set_ch (b : Backend) (c : chan) : Backend :=
  {| be_fec_fence_gen := be_fec_fence_gen b; be_ch := c; be_owned_batches := be_owned_batches b;
     be_rtt_cache := be_rtt_cache b; be_notify := be_notify b; be_scheduler := be_scheduler b |}.
(** [if let Some(n) = &b.notify { n.wake(); }] *)
Definition be_wake (b : Backend) : Backend :=
  {| be_fec_fence_gen := be_fec_fence_gen b; be_ch := be_ch b; be_owned_batches := be_owned_batches b;
     be_rtt_cache := be_rtt_cache b; be_notify := wake <$> be_notify b; be_scheduler := be_scheduler b |}.

Definition scheduler_queue_len (b : Backend) : nat :=
  match be_owned_batches b with Some q => len_frames q | None => ch_len (be_ch b) end.
Definition scheduler_queue_capacity (b : Backend) : nat :=
  match be_owned_batches b with
  | Some q => oq_capacity q | None => default 4096%nat (ch_capacity (be_ch b)) end.

(** The [AdaptiveBackend] instance: what [pick] sees, and its writes. *)
Definition adaptive_view (b : Backend) : backend :=
  {| bk_state := be_scheduler b; bk_rtt_us := be_rtt_cache b;
     bk_queue_len := Z.of_nat (scheduler_queue_len b);
     bk_queue_capacity := Z.of_nat (scheduler_queue_capacity b) |}.
Definition adaptive_store (bs : list Backend) (views : list backend) : list Backend :=
  zip_with (fun b v => be_set_sched b (bk_state v)) bs views.

Definition backend_score (b : Backend) : option Z :=
  let '(q_len, capacity) :=
    match be_owned_batches b with
    | Some q => (len_hint q, oq_capacity q)
    | None => (ch_len (be_ch b), default 4096%nat (ch_capacity (be_ch b)))
    end in
  if (capacity <=? 2)%nat || (capacity - 2 <=? q_len)%nat then None
  else
    let penalty := if (10 <? q_len)%nat then (Z.of_nat q_len - 10) * 1000 else 0 in
    Some (Z.min (be_rtt_cache b + penalty) U32_MAX).
Definition has_room (b : Backend) : bool := match backend_score b with Some _ => true | None => false end.

(** ** Sending to one backend *)

Definition try_send_payload_to (b : Backend) (seq : Z) (data : FramePayload)
  : Backend * result unit FramePayload :=
  let bytes := zlen (as_slice data) in
  let b := be_set_sched b (add_queued (be_scheduler b) bytes) in
  let f := {| vf_seq := seq; vf_data := data |} in
  match be_owned_batches b with
  | Some queue =>
      match try_push queue f bytes with
      | Ok queue' => (be_wake (be_set_queue b queue'), Ok tt)
      | Err f => (be_set_sched b (complete_queued (be_scheduler b) bytes), Err (vf_data f))
      end
  | None =>
      match ch_try_send (be_ch b) f with
      | Some c => (be_wake (be_set_ch b c), Ok tt)
      | None => (be_set_sched b (complete_queued (be_scheduler b) bytes), Err data)
      end
  end.

Definition control_payload (c : FecModeControl) : FramePayload := Owned (FecModeControl_encode c).

Definition try_send_payload_to_fenced (b : Backend) (seq : Z) (data : FramePayload)
    (control : option FecModeControl) : Backend * result unit FramePayload :=
  match control with
  | Some c =>
      if be_fec_fence_gen b <? fmc_generation c then
        match try_send_payload_to b 0 (control_payload c) with
        | (b, Err _) => (b, Err data)
        | (b, Ok _) => try_send_payload_to (be_set_fence b (fmc_generation c)) seq data
        end
      else try_send_payload_to b seq data
  | None => try_send_payload_to b seq data
  end.

(** ** The port *)

Record AsyncPort := {
  po_tx_seq : Z;
  po_backends : list Backend;
  po_preferred : option nat;  (** [None] is [usize::MAX] *)
  po_adaptive : AdaptivePortState;
  po_parity_cursor : Z;
  po_encoder : option FecEncoder;
  po_fec_mode : FecTxModeState;
  po_encoder_enabled : bool;
  po_dropped : Z;
  po_parity_sent : Z;
  po_sequence_exhausted : bool;
  po_dispatch_tx : option (list FramePayload) }.

Definition AsyncPort_new : AsyncPort :=
  {| po_tx_seq := 0; po_backends := []; po_preferred := None; po_adaptive := AdaptivePortState_default;
     po_parity_cursor := 0; po_encoder := None; po_fec_mode := FecTxModeState_default;
     po_encoder_enabled := false; po_dropped := 0; po_parity_sent := 0; po_sequence_exhausted := false;
     po_dispatch_tx := None |}.

Definition po_set_seq (p : AsyncPort) (seq : Z) (exhausted : bool) : AsyncPort :=
  {| po_tx_seq := seq; po_backends := po_backends p; po_preferred := po_preferred p;
     po_adaptive := po_adaptive p; po_parity_cursor := po_parity_cursor p; po_encoder := po_encoder p;
     po_fec_mode := po_fec_mode p; po_encoder_enabled := po_encoder_enabled p; po_dropped := po_dropped p;
     po_parity_sent := po_parity_sent p; po_sequence_exhausted := exhausted;
     po_dispatch_tx := po_dispatch_tx p |}.
Definition po_set_backends (p : AsyncPort) (bs : list Backend) : AsyncPort :=
  {| po_tx_seq := po_tx_seq p; po_backends := bs; po_preferred := po_preferred p;
     po_adaptive := po_adaptive p; po_parity_cursor := po_parity_cursor p; po_encoder := po_encoder p;
     po_fec_mode := po_fec_mode p; po_encoder_enabled := po_encoder_enabled p; po_dropped := po_dropped p;
     po_parity_sent := po_parity_sent p; po_sequence_exhausted := po_sequence_exhausted p;
     po_dispatch_tx := po_dispatch_tx p |}.
Definition po_set_choice (p : AsyncPort) (pref : option nat) (a : AdaptivePortState) : AsyncPort :=
  {| po_tx_seq := po_tx_seq p; po_backends := po_backends p; po_preferred := pref;
     po_adaptive := a; po_parity_cursor := po_parity_cursor p; po_encoder := po_encoder p;
     po_fec_mode := po_fec_mode p; po_encoder_enabled := po_encoder_enabled p; po_dropped := po_dropped p;
     po_parity_sent := po_parity_sent p; po_sequence_exhausted := po_sequence_exhausted p;
     po_dispatch_tx := po_dispatch_tx p |}.
Definition po_set_fec (p : AsyncPort) (cursor : Z) (enc : option FecEncoder) (mode : FecTxModeState)
    (enabled : bool) (parity_sent : Z) : AsyncPort :=
  {| po_tx_seq := po_tx_seq p; po_backends := po_backends p; po_preferred := po_preferred p;
     po_adaptive := po_adaptive p; po_parity_cursor := cursor; po_encoder := enc;
     po_fec_mode := mode; po_encoder_enabled := enabled; po_dropped := po_dropped p;
     po_parity_sent := parity_sent; po_sequence_exhausted := po_sequence_exhausted p;
     po_dispatch_tx := po_dispatch_tx p |}.
Definition po_set_dispatch (p : AsyncPort) (tx : option (list FramePayload)) : AsyncPort :=
  {| po_tx_seq := po_tx_seq p; po_backends := po_backends p; po_preferred := po_preferred p;
     po_adaptive := po_adaptive p; po_parity_cursor := po_parity_cursor p; po_encoder := po_encoder p;
     po_fec_mode := po_fec_mode p; po_encoder_enabled := po_encoder_enabled p; po_dropped := po_dropped p;
     po_parity_sent := po_parity_sent p; po_sequence_exhausted := po_sequence_exhausted p;
     po_dispatch_tx := tx |}.
(** [fetch_add] wraps. *)
Definition drop_n (p : AsyncPort) (n : Z) : AsyncPort :=
  {| po_tx_seq := po_tx_seq p; po_backends := po_backends p; po_preferred := po_preferred p;
     po_adaptive := po_adaptive p; po_parity_cursor := po_parity_cursor p; po_encoder := po_encoder p;
     po_fec_mode := po_fec_mode p; po_encoder_enabled := po_encoder_enabled p;
     po_dropped := if 0 <? n then u64_wrap (po_dropped p + n) else po_dropped p;
     po_parity_sent := po_parity_sent p; po_sequence_exhausted := po_sequence_exhausted p;
     po_dispatch_tx := po_dispatch_tx p |}.

Definition attach_encoder (p : AsyncPort) (k : Z) (ic : option InnerCipher) : AsyncPort :=
  po_set_fec p (po_parity_cursor p) (Some (FecEncoder_new k ic)) (po_fec_mode p) true (po_parity_sent p).

Definition reset_epoch (p : AsyncPort) (k : Z) (ic : option InnerCipher) : AsyncPort :=
  let p := po_set_seq p 0 false in
  let p := po_set_backends p ((fun b => be_set_fence b 0) <$> po_backends p) in
  let enabled := FEC_MIN_GROUP <=? k in
  po_set_fec p 0 (if enabled then Some (FecEncoder_new k ic) else None)
    (FecTxModeState_reset (po_fec_mode p)) enabled (po_parity_sent p).

Definition fec_tx_armed (p : AsyncPort) : bool :=
  if po_encoder_enabled p then match po_encoder p with Some e => FecEncoder_armed e | None => false end
  else false.

Definition register_backend (p : AsyncPort) (b : Backend) : AsyncPort :=
  po_set_backends p (po_backends p ++ [b]).
Definition unregister_backend (p : AsyncPort) (ch : chan) : AsyncPort :=
  po_set_choice (po_set_backends p (filter (fun b => same_channel (be_ch b) ch = false) (po_backends p)))
    None (po_adaptive p).

(** The loop retries the compare-exchange; one producer succeeds at once. *)
Definition next_seq (p : AsyncPort) : AsyncPort * option Z :=
  let current := po_tx_seq p in
  if current =? U32_MAX then (po_set_seq p current true, None)
  else (po_set_seq p (current + 1) (po_sequence_exhausted p), Some (current + 1)).

(** ** Choosing and falling back *)

(** [preferred.load()], [pick], [preferred.store()] *)
Definition selected_data_backend_index (p : AsyncPort) (incoming now : Z) : AsyncPort * option nat :=
  let bs := po_backends p in
  let preferred := match po_preferred p with
                   | Some i => if (i <? length bs)%nat then Some i else None | None => None end in
  let '(a, views, picked) := pick (po_adaptive p) (adaptive_view <$> bs) preferred incoming now in
  let pref := match picked with Some i => Some i | None => po_preferred p end in
  (po_set_choice (po_set_backends p (adaptive_store bs views)) pref a, picked).

(** One fenced attempt on backend [idx]; a success is charged to its scheduler. *)
Definition attempt (bs : list Backend) (idx : nat) (seq : Z) (data : FramePayload)
    (control : option FecModeControl) : list Backend * result unit FramePayload :=
  match bs !! idx with
  | None => (bs, Err data)
  | Some b =>
      match try_send_payload_to_fenced b seq data control with
      | (b, Ok _) =>
          (<[idx := be_set_sched b (note_assigned (be_scheduler b) (zlen (as_slice data)))]> bs, Ok tt)
      | (b, Err d) => (<[idx := b]> bs, Err d)
      end
  end.

Fixpoint fallback_loop (bs : list Backend) (idxs : list nat) (skip : option nat) (seq : Z)
    (data : FramePayload) (control : option FecModeControl) : list Backend * option nat :=
  match idxs with
  | [] => (bs, None)
  | idx :: idxs' =>
      if bool_decide (Some idx = skip) || negb (match bs !! idx with Some b => has_room b | None => false end)
      then fallback_loop bs idxs' skip seq data control
      else
        match attempt bs idx seq data control with
        | (bs, Ok _) => (bs, Some idx)
        | (bs, Err d) => fallback_loop bs idxs' skip seq d control
        end
  end.

(** The fall-back over all backends; when every attempt fails the frame is dropped. *)
Definition fallback_send (p : AsyncPort) (bs : list Backend) (skip : option nat) (seq : Z)
    (data : FramePayload) (control : option FecModeControl) : AsyncPort * option nat :=
  match fallback_loop bs (List.seq 0 (length bs)) skip seq data control with
  | (bs, Some idx) => (po_set_backends p bs, Some idx)
  | (bs, None) => (drop_n (po_set_backends p bs) 1, None)
  end.

Definition send_data_payload_to_any (p : AsyncPort) (preferred_idx : option nat) (seq : Z)
    (data : FramePayload) (control : option FecModeControl) : AsyncPort * option nat :=
  let bs := po_backends p in
  match preferred_idx with
  | Some idx =>
      if (idx <? length bs)%nat then
        match attempt bs idx seq data control with
        | (bs, Ok _) => (po_set_backends p bs, Some idx)
        | (bs, Err d) => fallback_send p bs preferred_idx seq d control
        end
      else fallback_send p bs preferred_idx seq data control
  | None => fallback_send p bs preferred_idx seq data control
  end.

(** First index of [idxs] that is not [skip] and has room. *)
Definition scan_room (bs : list Backend) (idxs : list nat) (skip : option nat) : option nat :=
  head (filter (fun idx => Some idx <> skip /\ match bs !! idx with Some b => has_room b | None => false end = true) idxs).

Definition parity_backend_index (p : AsyncPort) (data_idx : option nat) : AsyncPort * option nat :=
  let bs := po_backends p in
  let n := length bs in
  if (n =? 0)%nat then (p, None)
  else
    let start := Z.to_nat (po_parity_cursor p mod Z.of_nat n) in
    let p := po_set_fec p (u64_wrap (po_parity_cursor p + 1)) (po_encoder p) (po_fec_mode p)
               (po_encoder_enabled p) (po_parity_sent p) in
    let ring := (fun offset => ((start + offset) mod n)%nat) <$> List.seq 0 n in
    let other := if (1 <? n)%nat then scan_room bs ring data_idx else None in
    let own := match data_idx with
               | Some idx => if (idx <? n)%nat then scan_room bs [idx] None else None | None => None end in
    (p, Some (match other with
              | Some i => i
              | None => match own with
                        | Some i => i
                        | None => default start (scan_room bs ring None) end end)).

(** [send_payload_to]; the count of drops is also returned. *)
Definition send_payload_to (p : AsyncPort) (idx : nat) (seq : Z) (data : FramePayload) : AsyncPort * Z :=
  match po_backends p !! idx with
  | None => (p, 1)
  | Some b =>
      match try_send_payload_to b seq data with
      | (b, Ok _) => (po_set_backends p (<[idx := b]> (po_backends p)), 0)
      | (b, Err _) => (drop_n (po_set_backends p (<[idx := b]> (po_backends p))) 1, 1)
      end
  end.

(** ** Writing *)

(** The FEC step of a data frame: topology, fence, encoder. *)
Definition fec_step (p : AsyncPort) (seq : Z) (data : list Z)
  : AsyncPort * option (list Z) * option FecModeControl :=
  if po_encoder_enabled p then
    match po_encoder p with
    | Some enc =>
        let paths := zlen (po_backends p) in
        let enc := set_physical_path_count enc paths in
        let '(mode, _) := FecTxModeState_observe (po_fec_mode p) paths seq (fe_k enc) in
        let '(enc, parity) := FecEncoder_add cpu_kind enc seq data in
        (po_set_fec p (po_parity_cursor p) (Some enc) mode true (po_parity_sent p), parity, tx_current mode)
    | None => (p, None, None)
    end
  else (p, None, None).

Definition send_parity (p : AsyncPort) (data_idx : option nat) (par : list Z) : AsyncPort :=
  if (length (po_backends p) <? 2)%nat then p
  else
    let p := po_set_fec p (po_parity_cursor p) (po_encoder p) (po_fec_mode p) (po_encoder_enabled p)
               (u64_wrap (po_parity_sent p + 1)) in
    match parity_backend_index p data_idx with
    | (p, None) => drop_n p 1
    | (p, Some idx) =>
        let '(p, dropped) := send_payload_to p idx 0 (Owned par) in
        if dropped =? 0 then
          po_set_backends p (alter (fun b => be_set_sched b (note_fec_assigned (be_scheduler b) (zlen par)))
                               idx (po_backends p))
        else p
    end.

(** A frame that has its number: encode, choose, send, protect. *)
Definition send_numbered (p : AsyncPort) (seq : Z) (frame : FramePayload) (now : Z) : AsyncPort :=
  let '(p, parity, control) := fec_step p seq (as_slice frame) in
  let '(p, selected) := selected_data_backend_index p (zlen (as_slice frame)) now in
  let '(p, data_idx) := send_data_payload_to_any p selected seq frame control in
  match parity with
  | Some par => send_parity p data_idx par
  | None => p
  end.

Definition write_payload (p : AsyncPort) (frame : FramePayload) (now : Z) : AsyncPort :=
  if (length (as_slice frame) =? 0)%nat then p
  else if (length (po_backends p) =? 0)%nat then drop_n p 1
  else if negb (existsb has_room (po_backends p)) then drop_n p 1
  else
    match next_seq p with
    | (p, None) => drop_n p 1
    | (p, Some seq) => send_numbered p seq frame now
    end.

Definition DISPATCH_QUEUE_FRAMES : nat := 4096.
Definition DISPATCH_BATCH_MAX_BYTES : Z := 12 * 1024.

(** [dispatch_tx] is set at most once. *)
Definition enable_dispatch (p : AsyncPort) : AsyncPort :=
  match po_dispatch_tx p with Some _ => p | None => po_set_dispatch p (Some []) end.

Definition dispatch_enqueued (p : AsyncPort) (payload : FramePayload) (now : Z) : AsyncPort :=
  match po_dispatch_tx p with
  | Some tx =>
      if (length tx <? DISPATCH_QUEUE_FRAMES)%nat then po_set_dispatch p (Some (tx ++ [payload])) else drop_n p 1
  | None => write_payload p payload now
  end.

Definition write_owned_payload (p : AsyncPort) (payload : FramePayload) (now : Z) : AsyncPort :=
  if (length (as_slice payload) =? 0)%nat then p else dispatch_enqueued p payload now.

(** ** Writing a batch to a single backend *)

(** The state of the loop of [write_payload_batch] under the queue's lock: the
    port (its sequence and drop counters), the queue, the scheduler, and what
    was accepted.  [push_locked] does not touch the queue's length hint. *)
Record batch_acc := {
  ba_port : AsyncPort; ba_inner : OwnedBatchQueueInner; ba_sched : SchedulerBackendState;
  ba_accepted : nat; ba_bytes : Z }.

Definition batch_item (q : OwnedBatchQueue) (acc : batch_acc) (data : FramePayload) : batch_acc :=
  let dropped p := {| ba_port := drop_n p 1; ba_inner := ba_inner acc; ba_sched := ba_sched acc;
                      ba_accepted := ba_accepted acc; ba_bytes := ba_bytes acc |} in
  if (length (as_slice data) =? 0)%nat then acc
  else if (oq_capacity q - 2 <=? qi_frames (ba_inner acc))%nat then dropped (ba_port acc)
  else
    match next_seq (ba_port acc) with
    | (p, None) => dropped p
    | (p, Some seq) =>
        let bytes := zlen (as_slice data) in
        {| ba_port := p;
           ba_inner := push_locked (ba_inner acc) {| vf_seq := seq; vf_data := data |} bytes (oq_max_batch q);
           ba_sched := add_queued (ba_sched acc) bytes;
           ba_accepted := S (ba_accepted acc); ba_bytes := ba_bytes acc + bytes |}
    end.

Definition write_batch_locked (p : AsyncPort) (b : Backend) (q : OwnedBatchQueue) (frames : list FramePayload)
  : AsyncPort :=
  let acc := foldl (batch_item q)
    {| ba_port := p; ba_inner := oq_inner q; ba_sched := be_scheduler b; ba_accepted := 0; ba_bytes := 0 |} frames in
  let b := be_set_queue b (oq_set q (ba_inner acc) (oq_frames_hint q)) in
  let b := be_set_sched b (note_assigned (ba_sched acc) (ba_bytes acc)) in
  po_set_backends (ba_port acc) [if (ba_accepted acc =? 0)%nat then b else be_wake b].

Definition write_payload_batch (p : AsyncPort) (frames : list FramePayload) (now : Z) : AsyncPort :=
  match po_dispatch_tx p with
  | Some _ => foldl (fun p data => write_owned_payload p data now) p frames
  | None =>
      let each := foldl (fun p data => write_payload p data now) p frames in
      match po_backends p with
      | [b] =>
          if po_encoder_enabled p then each
          else match be_owned_batches b with Some q => write_batch_locked p b q frames | None => each end
      | _ => each
      end
  end.

(** ** The dispatch thread *)

(** Numbering the frames of a batch. *)
Definition number_batch (p : AsyncPort) (batch : list FramePayload) : AsyncPort * list VPNFrame * Z :=
  foldl (fun (acc : AsyncPort * list VPNFrame * Z) f =>
    let '(p, frames, bytes) := acc in
    match next_seq p with
    | (p, Some seq) => (p, frames ++ [{| vf_seq := seq; vf_data := f |}], bytes + zlen (as_slice f))
    | (p, None) => (drop_n p 1, frames, bytes)
    end) (p, [], 0) batch.

(** A legacy backend takes the frames one by one. *)
Definition send_each (p : AsyncPort) (idx : nat) (frames : list VPNFrame) : AsyncPort :=
  foldl (fun p f =>
    let bytes := frame_len f in
    let '(p, dropped) := send_payload_to p idx (vf_seq f) (vf_data f) in
    if dropped =? 0 then
      po_set_backends p (alter (fun b => be_set_sched b (note_assigned (be_scheduler b) bytes)) idx (po_backends p))
    else p) p frames.

(** An owned queue takes a FIFO prefix. *)
Definition push_prefix (b : Backend) (q : OwnedBatchQueue) (frames : list VPNFrame) (remaining : Z)
  : Backend * list VPNFrame * Z :=
  let s := add_queued (be_scheduler b) remaining in
  let '(q, rest, count, accepted) := try_push_batch q frames in
  let s := if accepted <? remaining then complete_queued s (remaining - accepted) else s in
  let b := be_set_queue b q in
  ((if (count =? 0)%nat then be_set_sched b s else be_wake (be_set_sched b (note_assigned s accepted))),
   rest, sat_sub remaining accepted).

(** [attempts] leaves [length backends + 1] turns: the fuel of the loop. *)
Fixpoint push_loop (turns : nat) (p : AsyncPort) (idx : nat) (frames : list VPNFrame) (remaining : Z)
  : AsyncPort * list VPNFrame :=
  match turns, frames with
  | O, _ | _, [] => (p, frames)
  | S turns', _ =>
      match po_backends p !! idx with
      | None => (p, frames)
      | Some b =>
          match be_owned_batches b with
          | None => (send_each p idx frames, [])
          | Some q =>
              let '(b, rest, remaining) := push_prefix b q frames remaining in
              let p := po_set_backends p (<[idx := b]> (po_backends p)) in
              match rest with
              | [] => (p, [])
              | _ =>
                  match scan_room (po_backends p) (List.seq 0 (length (po_backends p))) (Some idx) with
                  | Some i => push_loop turns' p i rest remaining
                  | None => (p, rest)
                  end
              end
          end
      end
  end.

Definition dispatch_owned_batch (p : AsyncPort) (batch : list FramePayload) (batch_bytes now : Z) : AsyncPort :=
  if (length batch =? 0)%nat then p
  else if po_encoder_enabled p then foldl (fun p f => write_payload p f now) p batch
  else if (length (po_backends p) =? 0)%nat then drop_n p (zlen batch)
  else
    match selected_data_backend_index p batch_bytes now with
    | (p, None) => drop_n p (zlen batch)
    | (p, Some idx) =>
        let '(p, frames, bytes) := number_batch p batch in
        let '(p, leftover) := push_loop (S (length (po_backends p))) p idx frames bytes in
        drop_n p (zlen leftover)
    end.

(** One poll of [wait_backend_slot]: [None] is another sleep. *)
Definition wait_backend_slot (p : AsyncPort) (exit : bool) : option bool :=
  if (length (po_backends p) =? 0)%nat then Some false
  else if existsb has_room (po_backends p) then Some true
  else if exit then Some false else None.

(** The collection loop: frames of the input queue until the batch is full. *)
Fixpoint collect (rx batch : list FramePayload) (bytes : Z) : list FramePayload * list FramePayload * Z :=
  match rx with
  | [] => (rx, batch, bytes)
  | f :: rx' =>
      if bytes <? DISPATCH_BATCH_MAX_BYTES then
        if (length (as_slice f) =? 0)%nat then collect rx' batch bytes
        else collect rx' (batch ++ [f]) (bytes + zlen (as_slice f))
      else (rx, batch, bytes)
  end.

(** One turn of [dispatch_loop] once its wait ended: the first frame, the batch, the dispatch. *)
Definition dispatch_turn (p : AsyncPort) (ready : bool) (now : Z) : AsyncPort :=
  match po_dispatch_tx p with
  | Some (frame :: rx) =>
      if (length (as_slice frame) =? 0)%nat then po_set_dispatch p (Some rx)
      else if negb ready then drop_n (po_set_dispatch p (Some rx)) 1
      else
        let '(rx, batch, bytes) := collect rx [frame] (zlen (as_slice frame)) in
        dispatch_owned_batch (po_set_dispatch p (Some rx)) batch bytes now
  | _ => p
  end.

(** The TLS writer of backend [idx] takes a batch. *)
Definition writer_pop (p : AsyncPort) (idx : nat) (budget : Z) : AsyncPort * list VPNFrame :=
  match po_backends p !! idx with
  | Some b =>
      match be_owned_batches b with
      | Some q =>
          let '(q, r) := try_pop_fitting q budget in
          (po_set_backends p (<[idx := be_set_queue b q]> (po_backends p)),
           match r with Some batch => vb_frames batch | None => [] end)
      | None => (p, [])
      end
  | None => (p, [])
  end.
End Port.
