(* ===== verification/PortSpec.v ===== *)
(** * Properties of the sending port ([Port.v])

    Sequence numbers are unique in an epoch, a mode fence precedes the data it
    governs in the FIFO of every backend, a frame is either queued once or
    counted as dropped. *)
From S2P Require Import Prelude Protocol Crypto Xor Fec Adaptive Queue Port.

Lemma length_pick port bs preferred incoming now port' bs' r :
  pick port bs preferred incoming now = (port', bs', r) -> length bs' = length bs.
Proof.
  unfold pick. destruct bs as [|b0 bs0]; [by intros [= _ <- _]|].
  cbn [length Nat.eqb]. set (bs := b0 :: bs0). destruct (observe_input_demand _ _) as [port1 d].
  assert (Hoa : forall i l, length (only_active i l) = length l) by (intros; apply length_imap).
  case_match; [intros [= _ <- _]; apply Hoa|].
  set (bs1 := (imap _ bs).*1).
  assert (Hlen : length bs1 = length bs) by (unfold bs1; by rewrite length_fmap, length_imap).
  destruct (cand_sort _) as [|first rest]; [by intros [= _ <- _]|].
  case_match; intros [= _ <- _]; [by rewrite Hoa|].
  by rewrite set_sched_at_length, normalise_length, activate_length.
Qed.

Section PortSpec.
Context `{HC : FrameChannel} `{HL : !FrameChannelLaws} `{HP : CryptoPrims}.
Context (cpu_kind : cpu).

Definition backend_frames (b : Backend) : list VPNFrame :=
  match be_owned_batches b with Some q => contents q | None => ch_frames (be_ch b) end.
Definition backend_ok (b : Backend) : Prop :=
  match be_owned_batches b with Some q => queue_ok q | None => True end.
Definition queued (bs : list Backend) : list VPNFrame := concat (backend_frames <$> bs).

(** Sequence number 0 marks controls and parities; the others number data. *)
Definition data_seqs (l : list VPNFrame) : list Z := filter (fun s => s <> 0) (vf_seq <$> l).
Abbreviation control_frames := (Forall (fun f => vf_seq f = 0)).

Lemma data_seqs_app l1 l2 : data_seqs (l1 ++ l2) = data_seqs l1 ++ data_seqs l2.
Proof. unfold data_seqs. by rewrite fmap_app, filter_app. Qed.
Lemma data_seqs_control l : control_frames l -> data_seqs l = [].
Proof.
  induction 1 as [|f l Hf _ IH]; [done|]. unfold data_seqs in *.
  rewrite fmap_cons, filter_cons_False; [done|]. rewrite Hf. auto.
Qed.
#[local] Instance data_seqs_perm : Proper ((≡ₚ) ==> (≡ₚ)) data_seqs.
Proof. intros l1 l2 E. unfold data_seqs. by rewrite E. Qed.

(** ** One backend *)

Lemma try_send_spec b seq data b' r :
  backend_ok b -> try_send_payload_to b seq data = (b', r) ->
  backend_ok b' /\ be_fec_fence_gen b' = be_fec_fence_gen b /\
  match r with
  | Ok _ => backend_frames b' = backend_frames b ++ [{| vf_seq := seq; vf_data := data |}]
  | Err d => d = data /\ backend_frames b' = backend_frames b
  end.
Proof.
  unfold try_send_payload_to, backend_ok, backend_frames. cbn [be_set_sched be_owned_batches be_ch].
  destruct (be_owned_batches b) as [q|] eqn:E; intros Hok.
  - destruct (try_push q _ _) as [q'|f] eqn:Ep; intros [= <- <-]; cbn.
    + destruct (try_push_ok q {| vf_seq := seq; vf_data := data |} q' Hok Ep) as (? & ? & _). done.
    + rewrite E. split; [done|]. split; [done|]. unfold try_push in Ep. by case_match; simplify_eq.
  - destruct (ch_try_send _ _) as [c|] eqn:Ep; intros [= <- <-]; cbn; rewrite ?E; [|done].
    split; [done|]. split; [done|]. by apply ch_try_send_fifo.
Qed.

(** The control frame of a fence, when the backend has not seen its generation. *)
Definition fence_frames (b : Backend) (control : option FecModeControl) : list VPNFrame :=
  match control with
  | Some c => if be_fec_fence_gen b <? fmc_generation c then [{| vf_seq := 0; vf_data := control_payload c |}] else []
  | None => []
  end.

Lemma try_send_fenced_spec b seq data control b' r :
  backend_ok b -> try_send_payload_to_fenced b seq data control = (b', r) ->
  backend_ok b' /\
  match r with
  | Ok _ => backend_frames b' = backend_frames b ++ fence_frames b control ++ [{| vf_seq := seq; vf_data := data |}] /\
            (forall c, control = Some c -> fmc_generation c <= be_fec_fence_gen b')
  | Err d => d = data /\
      (backend_frames b' = backend_frames b \/ backend_frames b' = backend_frames b ++ fence_frames b control)
  end.
Proof.
  intros Hok. unfold try_send_payload_to_fenced, fence_frames. destruct control as [c|].
  2: { intros E. destruct (try_send_spec _ _ _ _ _ Hok E) as (? & _ & Hr). split; [done|].
       destruct r; [by split|]. destruct Hr. split; [done|by left]. }
  destruct (Z.ltb_spec (be_fec_fence_gen b) (fmc_generation c)) as [Hlt|Hge].
  - destruct (try_send_payload_to b 0 _) as [b1 [u|d]] eqn:E1;
      destruct (try_send_spec _ _ _ _ _ Hok E1) as (Hok1 & _ & Hf1).
    2: { intros [= <- <-]. split; [done|]. split; [done|left]. apply Hf1. }
    set (b2 := be_set_fence b1 (fmc_generation c)).
    intros E2. destruct (try_send_spec b2 _ _ _ _ Hok1 E2) as (Hok2 & Hg & Hf2).
    change (backend_frames b2) with (backend_frames b1) in Hf2. rewrite Hf1 in Hf2.
    split; [done|]. destruct r; [|naive_solver].
    split; [by rewrite Hf2, <-app_assoc|]. intros c' [= <-]. rewrite Hg. simpl. lia.
  - intros E. destruct (try_send_spec _ _ _ _ _ Hok E) as (? & Hg & Hr). split; [done|].
    destruct r; [|destruct Hr; split; [done|by left]]. split; [done|]. intros c' [= <-]. lia.
Qed.

Lemma fence_frames_control b c : control_frames (fence_frames b c).
Proof. unfold fence_frames. repeat case_match; repeat constructor. Qed.

(** ** Growing queues *)

(** [bs'] is [bs] with the frames [new] enqueued somewhere. *)
Record grows (bs bs' : list Backend) (new : list VPNFrame) : Prop := {
  gr_ok : Forall backend_ok bs';
  gr_length : length bs' = length bs;
  gr_queued : queued bs' ≡ₚ queued bs ++ new }.

Lemma grows_refl bs : Forall backend_ok bs -> grows bs bs [].
Proof. intros. split; [done..|]. by rewrite app_nil_r. Qed.
Lemma grows_trans bs1 bs2 bs3 n1 n2 : grows bs1 bs2 n1 -> grows bs2 bs3 n2 -> grows bs1 bs3 (n1 ++ n2).
Proof. intros [? ? E1] [? ? E2]. split; [done|congruence|]. by rewrite E2, E1, app_assoc. Qed.

Lemma queued_insert bs i b b' new :
  bs !! i = Some b -> backend_frames b' = backend_frames b ++ new ->
  queued (<[i := b']> bs) ≡ₚ queued bs ++ new.
Proof.
  intros Hi Hb. unfold queued. rewrite list_fmap_insert.
  rewrite <-(take_drop_middle bs i b Hi) at 2.
  rewrite insert_take_drop by (rewrite length_fmap; by eapply lookup_lt_Some).
  rewrite <-fmap_take, <-fmap_drop, fmap_app, fmap_cons, !concat_app. cbn [concat].
  rewrite Hb, <-!app_assoc. do 2 f_equiv. apply Permutation_app_comm.
Qed.
Lemma grows_insert bs i b b' new :
  Forall backend_ok bs -> bs !! i = Some b -> backend_ok b' -> backend_frames b' = backend_frames b ++ new ->
  grows bs (<[i := b']> bs) new.
Proof.
  intros Hok Hi Hb E. split; [by apply Forall_insert|by rewrite length_insert|by eapply queued_insert].
Qed.

(** Updates that leave the queues alone. *)
Lemma grows_pointwise bs bs' :
  Forall backend_ok bs ->
  Forall2 (fun b b' => backend_frames b' = backend_frames b /\ (backend_ok b -> backend_ok b')) bs bs' ->
  grows bs bs' [].
Proof.
  intros Hok HF. split.
  - revert Hok. induction HF as [|b b' bs bs' [_ Hb] _ IH]; intros Hok; [constructor|].
    apply Forall_cons in Hok as [? ?]. constructor; auto.
  - by apply Forall2_length in HF.
  - rewrite app_nil_r. unfold queued.
    enough (backend_frames <$> bs' = backend_frames <$> bs) as -> by done.
    induction HF as [|b b' bs bs' [E _] _ IH]; [done|]. apply Forall_cons in Hok as [_ ?].
    rewrite !fmap_cons, E, IH; done.
Qed.
Lemma grows_alter_sched bs i f :
  Forall backend_ok bs -> grows bs (alter (fun b => be_set_sched b (f b)) i bs) [].
Proof.
  intros Hok. apply grows_pointwise; [done|].
  apply Forall2_same_length_lookup. split; [by rewrite length_alter|].
  intros j b b' Hb Hb'. destruct (decide (i = j)) as [->|].
  - rewrite list_lookup_alter_eq, Hb in Hb'. by simplify_eq/=.
  - rewrite list_lookup_alter_ne, Hb in Hb' by done. by simplify_eq.
Qed.
Lemma grows_adaptive bs views :
  Forall backend_ok bs -> length views = length bs -> grows bs (adaptive_store bs views) [].
Proof.
  intros Hok Hl. apply grows_pointwise; [done|]. clear Hok. revert views Hl.
  induction bs as [|b bs IH]; intros [|v views] Hl; simplify_eq/=; constructor; [done|by apply IH].
Qed.

(** ** Fall-back *)

Lemma attempt_spec bs idx seq data control bs' r :
  Forall backend_ok bs -> attempt bs idx seq data control = (bs', r) ->
  exists ctl, control_frames ctl /\
    match r with
    | Ok _ => grows bs bs' (ctl ++ [{| vf_seq := seq; vf_data := data |}])
    | Err d => d = data /\ grows bs bs' ctl
    end.
Proof.
  intros Hok. unfold attempt. destruct (bs !! idx) as [b|] eqn:Hb.
  2: { intros [= <- <-]. exists []. split; [constructor|]. split; [done|by apply grows_refl]. }
  pose proof (Forall_lookup_1 _ _ _ _ Hok Hb) as Hbok.
  destruct (try_send_payload_to_fenced b seq data control) as [b' r'] eqn:E.
  destruct (try_send_fenced_spec _ _ _ _ _ _ Hbok E) as (Hok' & Hr).
  destruct r' as [u|d]; intros [= <- <-].
  - exists (fence_frames b control). split; [apply fence_frames_control|].
    apply (grows_insert _ _ b); [done..|]. apply Hr.
  - destruct Hr as (-> & [Hr|Hr]).
    + exists []. split; [constructor|]. split; [done|].
      apply (grows_insert _ _ b); [done..|]. by rewrite app_nil_r.
    + exists (fence_frames b control). split; [apply fence_frames_control|]. split; [done|].
      by apply (grows_insert _ _ b).
Qed.

Lemma fallback_loop_spec idxs skip seq data control : forall bs bs' r,
  Forall backend_ok bs -> fallback_loop bs idxs skip seq data control = (bs', r) ->
  exists ctl, control_frames ctl /\
    grows bs bs' (ctl ++ match r with Some _ => [{| vf_seq := seq; vf_data := data |}] | None => [] end).
Proof.
  induction idxs as [|idx idxs IH]; intros bs bs' r Hok; cbn [fallback_loop].
  - intros [= <- <-]. exists []. split; [constructor|by apply grows_refl].
  - case_match; [by apply IH|]. destruct (attempt bs idx seq data control) as [bs1 [u|d]] eqn:E;
      destruct (attempt_spec _ _ _ _ _ _ _ Hok E) as (ctl & Hctl & Hg).
    + intros [= <- <-]. by exists ctl.
    + destruct Hg as (-> & Hg). intros Hf. destruct (IH _ _ _ (gr_ok _ _ _ Hg) Hf) as (ctl' & Hctl' & Hg').
      exists (ctl ++ ctl'). split; [by apply Forall_app|]. rewrite <-app_assoc. by eapply grows_trans.
Qed.

(** ** Steps of the port *)

Definition port_ok (p : AsyncPort) : Prop := Forall backend_ok (po_backends p) /\ 0 <= po_tx_seq p <= U32_MAX.

(** [p'] follows [p]: the frames [new] were enqueued, [k] frames counted as dropped. *)
Record moves (p p' : AsyncPort) (new : list VPNFrame) (k : Z) : Prop := {
  mv_grows : grows (po_backends p) (po_backends p') new;
  mv_drops : u64_wrap (po_dropped p') = u64_wrap (po_dropped p + k) }.

Lemma moves_trans p1 p2 p3 n1 n2 k1 k2 :
  moves p1 p2 n1 k1 -> moves p2 p3 n2 k2 -> moves p1 p3 (n1 ++ n2) (k1 + k2).
Proof.
  intros [? E1] [? E2]. split; [by eapply grows_trans|]. rewrite E2. unfold u64_wrap in *.
  rewrite <-Z.add_mod_idemp_l, E1, Z.add_mod_idemp_l by lia. f_equal. lia.
Qed.
Lemma moves_trans_nil_l p1 p2 p3 n2 k2 : moves p1 p2 [] 0 -> moves p2 p3 n2 k2 -> moves p1 p3 n2 k2.
Proof. intros H1 H2. exact (moves_trans _ _ _ _ _ _ _ H1 H2). Qed.
Lemma moves_same p p' :
  Forall backend_ok (po_backends p) -> po_backends p' = po_backends p -> po_dropped p' = po_dropped p ->
  moves p p' [] 0.
Proof. intros Hok E1 E2. split; [rewrite E1; by apply grows_refl|]. by rewrite E2, Z.add_0_r. Qed.
Lemma moves_backends p bs new :
  grows (po_backends p) bs new -> moves p (po_set_backends p bs) new 0.
Proof. intros Hg. split; [done|]. by rewrite Z.add_0_r. Qed.
Lemma moves_drop p p' new k n : 0 <= n -> moves p p' new k -> moves p (drop_n p' n) new (k + n).
Proof.
  intros Hn [? E]. split; [done|]. cbn [drop_n po_dropped]. destruct (Z.ltb_spec 0 n).
  - unfold u64_wrap in *. rewrite Z.mod_mod, <-Z.add_mod_idemp_l, E, Z.add_mod_idemp_l by lia. f_equal. lia.
  - replace n with 0 by lia. by rewrite Z.add_0_r.
Qed.
Lemma moves_ok p p' new k : moves p p' new k -> Forall backend_ok (po_backends p').
Proof. intros Hm. apply (gr_ok _ _ _ (mv_grows _ _ _ _ Hm)). Qed.

Lemma selected_spec p incoming now p' r :
  Forall backend_ok (po_backends p) -> selected_data_backend_index p incoming now = (p', r) ->
  moves p p' [] 0 /\ po_tx_seq p' = po_tx_seq p.
Proof.
  intros Hok. unfold selected_data_backend_index.
  destruct (pick _ _ _ _ _) as [[a views] picked] eqn:E. intros [= <- <-]. split; [|done].
  apply length_pick in E. rewrite length_fmap in E.
  split; [by apply grows_adaptive|]. by rewrite Z.add_0_r.
Qed.

(** The outcome of a data send: the frame queued once, or dropped; fences besides. *)
Definition data_outcome (p p' : AsyncPort) (f : VPNFrame) (sent : bool) : Prop :=
  po_tx_seq p' = po_tx_seq p /\
  exists ctl, control_frames ctl /\
    if sent then moves p p' (ctl ++ [f]) 0 else moves p p' ctl 1.

Lemma fallback_send_spec p bs ctl1 skip seq data control p' r :
  control_frames ctl1 -> grows (po_backends p) bs ctl1 ->
  fallback_send p bs skip seq data control = (p', r) ->
  data_outcome p p' {| vf_seq := seq; vf_data := data |} (bool_decide (is_Some r)).
Proof.
  intros Hc1 Hg1. unfold fallback_send. destruct (fallback_loop _ _ _ _ _ _) as [bs2 r2] eqn:E2.
  destruct (fallback_loop_spec _ _ _ _ _ _ _ _ (gr_ok _ _ _ Hg1) E2) as (ctl2 & Hc2 & Hg2).
  pose proof (grows_trans _ _ _ _ _ Hg1 Hg2) as Hg. rewrite app_assoc in Hg.
  destruct r2; intros [= <- <-]; (split; [done|]); exists (ctl1 ++ ctl2); (split; [by apply Forall_app|]); cbn.
  - by apply moves_backends.
  - rewrite app_nil_r in Hg. apply (moves_drop _ _ _ 0); [done|]. by apply moves_backends.
Qed.

Lemma send_data_spec p idx seq data control p' r :
  Forall backend_ok (po_backends p) -> send_data_payload_to_any p idx seq data control = (p', r) ->
  data_outcome p p' {| vf_seq := seq; vf_data := data |} (bool_decide (is_Some r)).
Proof.
  intros Hok. unfold send_data_payload_to_any. pose proof (grows_refl _ Hok) as Hr.
  destruct idx as [idx|]; [|by apply (fallback_send_spec _ _ [])].
  case_match; [|by apply (fallback_send_spec _ _ [])].
  destruct (attempt _ _ _ _ _) as [bs1 [u|d]] eqn:E;
    destruct (attempt_spec _ _ _ _ _ _ _ Hok E) as (ctl & Hctl & Hg).
  - intros [= <- <-]. split; [done|]. exists ctl. split; [done|]. by apply moves_backends.
  - destruct Hg as (-> & Hg). by apply (fallback_send_spec _ _ ctl).
Qed.

Lemma send_payload_spec p idx seq data p' k :
  Forall backend_ok (po_backends p) -> is_Some (po_backends p !! idx) ->
  send_payload_to p idx seq data = (p', k) ->
  po_tx_seq p' = po_tx_seq p /\
  ((k = 0 /\ moves p p' [{| vf_seq := seq; vf_data := data |}] 0) \/ (k = 1 /\ moves p p' [] 1)).
Proof.
  intros Hok [b Hb]. unfold send_payload_to. rewrite Hb.
  pose proof (Forall_lookup_1 _ _ _ _ Hok Hb) as Hbok.
  destruct (try_send_payload_to b seq data) as [b' [u|d]] eqn:E;
    destruct (try_send_spec _ _ _ _ _ Hbok E) as (Hok' & _ & Hf); intros [= <- <-]; (split; [done|]).
  - left. split; [done|]. apply moves_backends. by apply (grows_insert _ _ b).
  - right. split; [done|]. apply (moves_drop _ _ _ 0); [done|]. apply moves_backends.
    apply (grows_insert _ _ b); [done..|]. rewrite app_nil_r. apply Hf.
Qed.

Lemma scan_room_elem bs idxs skip i : scan_room bs idxs skip = Some i -> i ∈ idxs.
Proof.
  unfold scan_room. intros Hh. destruct (filter _ idxs) as [|x l] eqn:E; simplify_eq/=.
  assert (Hx : i ∈ i :: l) by left. rewrite <-E in Hx. by apply list_elem_of_filter in Hx as [_ ?].
Qed.

Lemma parity_index_spec p data_idx p' r :
  parity_backend_index p data_idx = (p', r) ->
  po_backends p' = po_backends p /\ po_dropped p' = po_dropped p /\ po_tx_seq p' = po_tx_seq p /\
  forall i, r = Some i -> (i < length (po_backends p))%nat.
Proof.
  unfold parity_backend_index. destruct (Nat.eqb_spec (length (po_backends p)) 0) as [|Hn]; [by intros [= <- <-]|].
  set (start := Z.to_nat _). set (ring := _ <$> List.seq 0 _).
  intros [= <- <-]. split; [done|]. split; [done|]. split; [done|]. intros i [= <-].
  assert (Hring : forall j, j ∈ ring -> (j < length (po_backends p))%nat).
  { intros j (o & -> & _)%list_elem_of_fmap. by apply Nat.mod_upper_bound. }
  assert (Hstart : (start < length (po_backends p))%nat).
  { unfold start. pose proof (Z.mod_pos_bound (po_parity_cursor p) (zlen (po_backends p)) ltac:(lia)). lia. }
  assert (Hopt : forall skip, (default start (scan_room (po_backends p) ring skip) < length (po_backends p))%nat).
  { intros skip. destruct (scan_room _ _ _) eqn:E; [|done]. by eapply Hring, scan_room_elem. }
  destruct (if (1 <? _)%nat then _ else None) as [i|] eqn:E1.
  { case_match; [|done]. by eapply Hring, scan_room_elem. }
  destruct data_idx as [d|]; [|apply Hopt].
  destruct (Nat.ltb_spec d (length (po_backends p))); [|apply Hopt].
  destruct (scan_room _ [d] None) eqn:E2; [|apply Hopt].
  apply scan_room_elem in E2. by rewrite list_elem_of_singleton in E2; subst.
Qed.

Lemma send_parity_spec p data_idx par :
  Forall backend_ok (po_backends p) ->
  po_tx_seq (send_parity p data_idx par) = po_tx_seq p /\
  exists ctl k, control_frames ctl /\ 0 <= k <= 1 /\ moves p (send_parity p data_idx par) ctl k.
Proof.
  intros Hok. unfold send_parity. destruct (Nat.ltb_spec (length (po_backends p)) 2).
  { split; [done|]. exists [], 0. split; [constructor|]. split; [lia|]. by apply moves_same. }
  set (p1 := po_set_fec _ _ _ _ _ _). assert (H1 : moves p p1 [] 0) by by apply moves_same.
  destruct (parity_backend_index p1 data_idx) as [p2 r] eqn:E.
  destruct (parity_index_spec _ _ _ _ E) as (Eb & Ed & Es & Hr).
  assert (H2 : moves p p2 [] 0) by by apply moves_same.
  destruct r as [idx|].
  2: { split; [done|]. exists [], 1. split; [constructor|]. split; [lia|]. by apply (moves_drop _ _ _ 0). }
  destruct (send_payload_to p2 idx 0 (Owned par)) as [p3 k] eqn:E3.
  assert (Hin : is_Some (po_backends p2 !! idx)) by (rewrite Eb; apply lookup_lt_is_Some_2; by apply Hr).
  destruct (send_payload_spec _ _ _ _ _ _ (moves_ok _ _ _ _ H2) Hin E3) as (Es3 & [[-> Hm]|[-> Hm]]); cbn.
  - rewrite Es3, Es. split; [done|]. eexists _, 0. split; [|split; [lia|]].
    2: { eapply moves_trans_nil_l; [exact H2|]. rewrite <-(Z.add_0_r 0). eapply moves_trans; [exact Hm|].
         apply moves_backends, grows_alter_sched. by eapply moves_ok. }
    by repeat constructor.
  - rewrite Es3, Es. split; [done|]. exists [], 1. split; [constructor|]. split; [lia|].
    by eapply moves_trans_nil_l.
Qed.

Lemma fec_step_spec p seq data p' par c :
  Forall backend_ok (po_backends p) -> fec_step cpu_kind p seq data = (p', par, c) ->
  moves p p' [] 0 /\ po_tx_seq p' = po_tx_seq p.
Proof.
  intros Hok. unfold fec_step. repeat case_match; intros [= <- _ _]; (split; [by apply moves_same|done]).
Qed.

Lemma next_seq_spec p p' r :
  port_ok p -> next_seq p = (p', r) ->
  moves p p' [] 0 /\ port_ok p' /\
  match r with
  | Some s => s = po_tx_seq p + 1 /\ po_tx_seq p' = s
  | None => po_tx_seq p = U32_MAX /\ po_tx_seq p' = po_tx_seq p
  end.
Proof.
  intros [Hok Hs]. unfold next_seq. destruct (Z.eqb_spec (po_tx_seq p) U32_MAX); intros [= <- <-].
  all: split; [by apply moves_same|]; split; [|done]; split; [done|]; cbn; lia.
Qed.

(** The frame is queued once ([sent]) or counted as dropped; a lost parity is
    counted as well. *)
Definition frame_outcome (p p' : AsyncPort) (f : VPNFrame) (sent : bool) : Prop :=
  exists ctl k, control_frames ctl /\ 0 <= k <= 1 /\
    if sent then moves p p' (ctl ++ [f]) k else moves p p' ctl (1 + k).

Lemma send_numbered_spec p seq frame now :
  Forall backend_ok (po_backends p) ->
  po_tx_seq (send_numbered cpu_kind p seq frame now) = po_tx_seq p /\
  exists sent, frame_outcome p (send_numbered cpu_kind p seq frame now) {| vf_seq := seq; vf_data := frame |} sent.
Proof.
  intros Hok. unfold send_numbered.
  destruct (fec_step cpu_kind p _ _) as [[p2 parity] control] eqn:E2.
  destruct (fec_step_spec _ _ _ _ _ _ Hok E2) as (H2 & Es2).
  destruct (selected_data_backend_index p2 _ now) as [p3 sel] eqn:E3.
  destruct (selected_spec _ _ _ _ _ (moves_ok _ _ _ _ H2) E3) as (H3 & Es3).
  pose proof (moves_trans_nil_l _ _ _ _ _ H2 H3) as H13.
  destruct (send_data_payload_to_any p3 sel _ frame control) as [p4 didx] eqn:E4.
  destruct (send_data_spec _ _ _ _ _ _ _ (moves_ok _ _ _ _ H3) E4) as (Es4 & ctl & Hctl & H4).
  set (p5 := match parity with Some par => send_parity p4 didx par | None => p4 end).
  assert (H5 : po_tx_seq p5 = po_tx_seq p4 /\ exists c k, control_frames c /\ 0 <= k <= 1 /\ moves p4 p5 c k).
  { assert (Hok4 : Forall backend_ok (po_backends p4)) by (destruct (bool_decide _); by eapply moves_ok).
    unfold p5. destruct parity as [par|]; [by apply send_parity_spec|].
    split; [done|]. exists [], 0. split; [constructor|]. split; [lia|]. by apply moves_same. }
  destruct H5 as (Es5 & ctl' & k & Hctl' & Hk & H5). rewrite Es5, Es4, Es3, Es2. split; [done|].
  exists (bool_decide (is_Some didx)), (ctl ++ ctl'), k. split; [by apply Forall_app|]. split; [lia|].
  destruct (bool_decide (is_Some didx)).
  - destruct (moves_trans _ _ _ _ _ _ _ H4 H5) as [Hg Hd].
    eapply moves_trans_nil_l; [exact H13|]. split; [|done].
    split; [apply Hg|apply Hg|]. rewrite (gr_queued _ _ _ Hg). f_equiv.
    rewrite <-!app_assoc. f_equiv. apply Permutation_app_comm.
  - eapply moves_trans_nil_l; [exact H13|]. by eapply moves_trans.
Qed.

(** What [write_payload] does with a non-empty frame: a sent frame carries the
    next number. *)
Lemma write_payload_spec p frame now :
  port_ok p -> as_slice frame <> [] ->
  let p' := write_payload cpu_kind p frame now in
  po_tx_seq p <= po_tx_seq p' <= U32_MAX /\
  exists sent, frame_outcome p p' {| vf_seq := po_tx_seq p + 1; vf_data := frame |} sent /\
    (sent = true -> po_tx_seq p' = po_tx_seq p + 1).
Proof.
  intros Hp Hne. pose proof Hp as [Hok Hs].
  assert (Hdrop : forall p1, moves p p1 [] 0 ->
    frame_outcome p (drop_n p1 1) {| vf_seq := po_tx_seq p + 1; vf_data := frame |} false).
  { intros p1 H1. exists [], 0. split; [constructor|]. split; [lia|]. by apply (moves_drop _ _ _ 0). }
  assert (Hsame : moves p p [] 0) by by apply moves_same.
  unfold write_payload. destruct (as_slice frame) eqn:Ef; [done|]. cbn [length Nat.eqb].
  case_match; [split; [cbn; lia|]; exists false; split; [auto|done]|].
  case_match; [split; [cbn; lia|]; exists false; split; [auto|done]|].
  destruct (next_seq p) as [p1 [seq|]] eqn:E1; destruct (next_seq_spec _ _ _ Hp E1) as (H1 & [Hok1 Hs1] & Es1).
  2: { split; [cbn; lia|]. exists false. split; [auto|done]. }
  destruct Es1 as [-> Es1]. destruct (send_numbered_spec p1 (po_tx_seq p + 1) frame now Hok1) as (Es & sent & Ho).
  split; [lia|]. exists sent. split; [|lia]. destruct Ho as (ctl & k & Hc & Hk & Hm). exists ctl, k.
  split; [done|]. split; [done|]. destruct sent; by eapply moves_trans_nil_l.
Qed.

(** ** Numbering *)

(** The data frames of [new] carry distinct numbers of the interval (lo, hi]. *)
Definition numbered (lo hi : Z) (new : list VPNFrame) : Prop :=
  NoDup (data_seqs new) /\ Forall (fun s => lo < s <= hi) (data_seqs new).

Lemma numbered_control lo hi l : control_frames l -> numbered lo hi l.
Proof. intros Hc. unfold numbered. rewrite data_seqs_control by done. by repeat constructor. Qed.
Lemma numbered_app lo mid hi n1 n2 :
  lo <= mid <= hi -> numbered lo mid n1 -> numbered mid hi n2 -> numbered lo hi (n1 ++ n2).
Proof.
  intros Hle [Hn1 Hf1] [Hn2 Hf2]. unfold numbered. rewrite data_seqs_app. split.
  - apply NoDup_app. split; [done|]. split; [|done]. intros s H1 H2.
    rewrite Forall_forall in Hf1, Hf2. specialize (Hf1 _ H1). specialize (Hf2 _ H2). simpl in *. lia.
  - apply Forall_app. split; (eapply Forall_impl; [eassumption|]); simpl; intros; lia.
Qed.
Lemma numbered_one lo data : 0 <= lo -> numbered lo (lo + 1) [{| vf_seq := lo + 1; vf_data := data |}].
Proof.
  intros Hlo. unfold numbered, data_seqs. cbn [fmap list_fmap]. rewrite filter_cons_True by (simpl; lia).
  rewrite filter_nil. split; [apply NoDup_singleton|]. repeat constructor; simpl; lia.
Qed.
Lemma numbered_submseteq lo hi l1 l2 : l1 ⊆+ l2 -> numbered lo hi l2 -> numbered lo hi l1.
Proof.
  intros (k & E)%submseteq_Permutation [Hn Hf]. rewrite E, data_seqs_app in Hn, Hf.
  apply NoDup_app in Hn as (Hn & _). apply Forall_app in Hf as [Hf _]. by split.
Qed.

(** [p'] follows [p] in the same epoch: only freshly numbered frames were enqueued. *)
Record advances (p p' : AsyncPort) (new : list VPNFrame) : Prop := {
  ad_grows : grows (po_backends p) (po_backends p') new;
  ad_seq : po_tx_seq p <= po_tx_seq p' <= U32_MAX;
  ad_numbered : numbered (po_tx_seq p) (po_tx_seq p') new }.

Lemma advances_trans p1 p2 p3 n1 n2 : advances p1 p2 n1 -> advances p2 p3 n2 -> advances p1 p3 (n1 ++ n2).
Proof.
  intros [? ? ?] [? ? ?]. split; [by eapply grows_trans|lia|]. eapply numbered_app; [|done..]. lia.
Qed.
Lemma advances_idle p p' :
  port_ok p -> po_backends p' = po_backends p -> po_tx_seq p' = po_tx_seq p -> advances p p' [].
Proof.
  intros [Hok Hs] E1 E2. split; rewrite ?E1, ?E2; [by apply grows_refl|lia|]. by apply numbered_control.
Qed.
Lemma advances_ok p p' new : port_ok p -> advances p p' new -> port_ok p'.
Proof. intros [_ Hs] [[Hok _ _] Hs' _]. split; [done|lia]. Qed.

Lemma advances_foldl {A} (f : AsyncPort -> A -> AsyncPort) l p :
  (forall p x, port_ok p -> exists new, advances p (f p x) new) ->
  port_ok p -> exists new, advances p (foldl f p l) new.
Proof.
  intros Hf. revert p. induction l as [|x l IH]; intros p Hp; cbn [foldl].
  - exists []. by apply advances_idle.
  - destruct (Hf p x Hp) as [n1 H1]. destruct (IH (f p x)) as [n2 H2]; [by eapply advances_ok|].
    exists (n1 ++ n2). by eapply advances_trans.
Qed.

Lemma write_payload_advances p frame now :
  port_ok p -> exists new, advances p (write_payload cpu_kind p frame now) new.
Proof.
  intros Hp. destruct (decide (as_slice frame = [])) as [E|Hne].
  { exists []. unfold write_payload. rewrite E. by apply advances_idle. }
  destruct (write_payload_spec p frame now Hp Hne) as (Hs & sent & (ctl & k & Hc & _ & Hm) & Hsent).
  destruct sent.
  - exists (ctl ++ [{| vf_seq := po_tx_seq p + 1; vf_data := frame |}]).
    split; [apply Hm|done|]. rewrite Hsent by done. destruct Hp as [_ Hp].
    eapply (numbered_app _ (po_tx_seq p)); [lia|by apply numbered_control|]. apply numbered_one. lia.
  - exists ctl. split; [apply Hm|done|]. by apply numbered_control.
Qed.

Lemma write_owned_payload_advances p frame now :
  port_ok p -> exists new, advances p (write_owned_payload cpu_kind p frame now) new.
Proof.
  intros Hp. unfold write_owned_payload, dispatch_enqueued. case_match; [exists []; by apply advances_idle|].
  case_match; [|by apply write_payload_advances]. exists []. case_match; by apply advances_idle.
Qed.

(** ** The batch paths *)

Record batch_inv (p : AsyncPort) (q : OwnedBatchQueue) (acc : batch_acc) (new : list VPNFrame) : Prop := {
  bi_backends : po_backends (ba_port acc) = po_backends p;
  bi_seq : po_tx_seq p <= po_tx_seq (ba_port acc) <= U32_MAX;
  bi_queue : queue_ok (oq_set q (ba_inner acc) (oq_frames_hint q));
  bi_frames : batch_frames (qi_batches (ba_inner acc)) = contents q ++ new;
  bi_numbered : numbered (po_tx_seq p) (po_tx_seq (ba_port acc)) new }.

Lemma batch_item_inv p q acc new data :
  port_ok p -> batch_inv p q acc new -> exists new', batch_inv p q (batch_item q acc data) new'.
Proof.
  intros [Hok Hs] [Hb Hseq Hq Hf Hn]. unfold batch_item.
  case_match; [by exists new|]. destruct (Nat.leb_spec (oq_capacity q - 2) (qi_frames (ba_inner acc))); [by exists new|].
  assert (Hp : port_ok (ba_port acc)) by (split; [by rewrite Hb|lia]).
  destruct (next_seq (ba_port acc)) as [p1 [seq|]] eqn:E; destruct (next_seq_spec _ _ _ Hp E) as (_ & [_ Hs1] & Es).
  2: { destruct Es as [_ Es]. exists new. unfold next_seq in E. case_match; simplify_eq.
       split; cbn; auto; lia. }
  destruct Es as [-> Es]. set (f := {| vf_seq := _; vf_data := data |}). exists (new ++ [f]).
  assert (Hpush : try_push (oq_set q (ba_inner acc) (oq_frames_hint q)) f (frame_len f) =
    Ok (oq_publish (oq_set q (ba_inner acc) (oq_frames_hint q)) (push_locked (ba_inner acc) f (frame_len f) (oq_max_batch q)))).
  { unfold try_push. cbn. by destruct (Nat.leb_spec (oq_capacity q) (qi_frames (ba_inner acc))); [lia|]. }
  destruct (try_push_ok _ _ _ Hq Hpush) as ([H1 H2 H3 H4] & Hc & _).
  split; cbn [ba_port ba_inner].
  - unfold next_seq in E. case_match; by simplify_eq.
  - lia.
  - split; done.
  - change (contents (oq_set q (ba_inner acc) (oq_frames_hint q))) with (batch_frames (qi_batches (ba_inner acc))) in Hc.
    rewrite Hf, <-app_assoc in Hc. exact Hc.
  - eapply numbered_app; [|exact Hn|]; [lia|]. rewrite Es. apply numbered_one. lia.
Qed.

Lemma write_batch_locked_advances p b q frames :
  port_ok p -> po_backends p = [b] -> be_owned_batches b = Some q ->
  exists new, advances p (write_batch_locked p b q frames) new.
Proof.
  intros Hp Eb Eq. pose proof Hp as [Hok Hs]. unfold write_batch_locked. set (acc0 := {| ba_port := p |}).
  assert (Hbq : queue_ok q).
  { rewrite Eb in Hok. rewrite Forall_singleton in Hok. unfold backend_ok in Hok. by rewrite Eq in Hok. }
  assert (H0 : batch_inv p q acc0 []).
  { split; cbn; [done|lia|by destruct Hbq|by rewrite app_nil_r|by apply numbered_control]. }
  assert (Hall : forall l acc new, batch_inv p q acc new -> exists new', batch_inv p q (foldl (batch_item q) acc l) new').
  { induction l as [|x l IH]; intros acc new Hi; [by exists new|].
    destruct (batch_item_inv p q acc new x Hp Hi) as [n1 H1]. by eapply IH. }
  destruct (Hall frames acc0 [] H0) as (new & [H1 H2 H3 H4 H5]). exists new.
  set (acc := foldl _ _ _) in *. cbn zeta. split; [|done..]. rewrite Eb.
  set (b' := be_set_sched _ _). cbn [po_set_backends po_backends].
  apply (grows_insert [b] 0 b (if (ba_accepted acc =? 0)%nat then b' else be_wake b')); [by rewrite <-Eb|done| |].
  - case_match; exact H3.
  - transitivity (backend_frames b'); [case_match; done|].
    unfold backend_frames at 2. rewrite Eq. exact H4.
Qed.

Lemma write_payload_batch_advances p frames now :
  port_ok p -> exists new, advances p (write_payload_batch cpu_kind p frames now) new.
Proof.
  intros Hp. unfold write_payload_batch.
  assert (Heach : exists new, advances p (foldl (fun p data => write_payload cpu_kind p data now) p frames) new).
  { apply advances_foldl; [|done]. intros. by apply write_payload_advances. }
  case_match; [apply advances_foldl; [|done]; intros; by apply write_owned_payload_advances|].
  destruct (po_backends p) as [|b [|]] eqn:Eb; [done| |done].
  destruct (po_encoder_enabled p); [done|]. destruct (be_owned_batches b) eqn:Eq; [|done].
  by apply write_batch_locked_advances.
Qed.

(** ** The dispatch thread *)

Lemma number_batch_spec batch : forall p acc bytes p' frames bytes',
  port_ok p ->
  foldl (fun (acc : AsyncPort * list VPNFrame * Z) f =>
    let '(p, frames, bytes) := acc in
    match next_seq p with
    | (p, Some seq) => (p, frames ++ [{| vf_seq := seq; vf_data := f |}], bytes + zlen (as_slice f))
    | (p, None) => (drop_n p 1, frames, bytes)
    end) (p, acc, bytes) batch = (p', frames, bytes') ->
  exists new k, frames = acc ++ new /\ moves p p' [] k /\ 0 <= k /\ zlen new + k = zlen batch /\
    po_tx_seq p <= po_tx_seq p' <= U32_MAX /\ numbered (po_tx_seq p) (po_tx_seq p') new.
Proof.
  induction batch as [|f batch IH]; intros p acc bytes p' frames bytes' Hp; cbn [foldl].
  - intros [= <- <- <-]. exists [], 0. rewrite app_nil_r. destruct Hp. split; [done|].
    split; [by apply moves_same|]. split; [lia|]. split; [done|]. split; [lia|]. by apply numbered_control.
  - destruct (next_seq p) as [p1 [seq|]] eqn:E1; destruct (next_seq_spec _ _ _ Hp E1) as (H1 & Hp1 & Es);
      intros E; apply IH in E as (new & k & -> & Hm & Hk & Hl & Hs & Hn); try done.
    + destruct Es as [-> Es]. eexists (_ :: new), k. rewrite <-app_assoc. split; [done|].
      split; [by eapply moves_trans_nil_l|]. split; [done|]. cbn [length]. split; [lia|]. split; [lia|].
      apply (numbered_app _ (po_tx_seq p1) _ [_]); [lia| |done]. rewrite Es. apply numbered_one. apply Hp.
    + destruct Es as [_ Es]. exists new, (1 + k). split; [done|]. split.
      { rewrite <-(app_nil_l []). eapply moves_trans; [|exact Hm]. by apply (moves_drop _ _ _ 0). }
      cbn [drop_n po_tx_seq] in *. rewrite Es in *. cbn [length]. split; [lia|]. split; [lia|]. done.
Qed.

Lemma send_each_spec idx frames : forall p,
  Forall backend_ok (po_backends p) -> is_Some (po_backends p !! idx) ->
  po_tx_seq (send_each p idx frames) = po_tx_seq p /\
  exists new k, moves p (send_each p idx frames) new k /\ 0 <= k /\ zlen new + k = zlen frames /\ new ⊆+ frames.
Proof.
  induction frames as [|f frames IH]; intros p Hok Hi.
  { split; [done|]. exists [], 0. split; [by apply moves_same|]. done. }
  unfold send_each. cbn [foldl]. fold (send_each).
  destruct (send_payload_to p idx (vf_seq f) (vf_data f)) as [p1 d] eqn:E.
  destruct (send_payload_spec _ _ _ _ _ _ Hok Hi E) as (Es & [[-> Hm]|[-> Hm]]); cbn [Z.eqb].
  - set (p2 := po_set_backends p1 _). assert (H12 : moves p p2 [f] 0).
    { destruct f as [sq d]. rewrite <-(Z.add_0_r 0), <-(app_nil_r [_]). eapply moves_trans; [exact Hm|].
      apply moves_backends, grows_alter_sched. by eapply moves_ok. }
    destruct (IH p2 (moves_ok _ _ _ _ H12)) as (Es2 & new & k & Hm2 & Hk & Hl & Hsub).
    { apply lookup_lt_is_Some_2. rewrite (gr_length _ _ _ (mv_grows _ _ _ _ H12)). by apply lookup_lt_is_Some. }
    split; [etransitivity; [exact Es2|done]|]. exists (f :: new), k. split; [exact (moves_trans _ _ _ [f] new 0 k H12 Hm2)|].
    cbn [length]. split; [done|]. split; [lia|]. by apply submseteq_skip.
  - destruct (IH p1 (moves_ok _ _ _ _ Hm)) as (Es2 & new & k & Hm2 & Hk & Hl & Hsub).
    { apply lookup_lt_is_Some_2. rewrite (gr_length _ _ _ (mv_grows _ _ _ _ Hm)). by apply lookup_lt_is_Some. }
    split; [etransitivity; [exact Es2|done]|]. exists new, (1 + k). split; [exact (moves_trans _ _ _ [] new 1 k Hm Hm2)|].
    cbn [length]. split; [lia|]. split; [lia|]. by apply submseteq_cons.
Qed.

Lemma push_prefix_spec b q frames remaining b' rest rem' :
  queue_ok q -> be_owned_batches b = Some q -> push_prefix b q frames remaining = (b', rest, rem') ->
  backend_ok b' /\ exists n, rest = drop n frames /\ backend_frames b' = backend_frames b ++ take n frames.
Proof.
  intros Hq Eq. unfold push_prefix. destruct (try_push_batch q frames) as [[[q' r] n] a] eqn:E.
  destruct (try_push_batch_ok _ _ _ _ _ _ Hq E) as (Hq' & Hc & -> & _ & _).
  intros [= <- <- _]. unfold backend_ok, backend_frames. rewrite Eq.
  split; [destruct (n =? 0)%nat; exact Hq'|]. exists n. split; [done|]. destruct (n =? 0)%nat; exact Hc.
Qed.

Lemma push_loop_spec turns : forall p idx frames remaining p' left,
  Forall backend_ok (po_backends p) -> push_loop turns p idx frames remaining = (p', left) ->
  po_tx_seq p' = po_tx_seq p /\
  exists new k, moves p p' new k /\ 0 <= k /\ zlen new + k + zlen left = zlen frames /\ new ⊆+ frames.
Proof.
  induction turns as [|turns IH]; intros p idx frames remaining p' left Hok.
  { intros [= <- <-]. split; [done|]. exists [], 0. split; [by apply moves_same|].
    cbn [length]. split; [lia|]. split; [lia|]. apply submseteq_nil_l. }
  assert (Hstop : forall p' left, (p, frames) = (p', left) -> po_tx_seq p' = po_tx_seq p /\
    exists new k, moves p p' new k /\ 0 <= k /\ zlen new + k + zlen left = zlen frames /\ new ⊆+ frames).
  { intros ? ? [= <- <-]. split; [done|]. exists [], 0. split; [by apply moves_same|].
    cbn [length]. split; [lia|]. split; [lia|]. apply submseteq_nil_l. }
  cbn [push_loop]. destruct frames as [|f0 fs] eqn:Ef; [by apply Hstop|]. rewrite <-Ef in *.
  destruct (po_backends p !! idx) as [b|] eqn:Hb; [|by apply Hstop].
  pose proof (Forall_lookup_1 _ _ _ _ Hok Hb) as Hbok. unfold backend_ok in Hbok.
  destruct (be_owned_batches b) as [q|] eqn:Eq.
  2: { intros [= <- <-]. destruct (send_each_spec idx frames p Hok) as (Es & new & k & ? & ? & ? & ?); [by eexists|].
       split; [done|]. exists new, k. cbn [length]. split; [done|]. split; [done|]. split; [lia|done]. }
  destruct (push_prefix b q frames remaining) as [[b' rest] rem'] eqn:Epp.
  destruct (push_prefix_spec _ _ _ _ _ _ _ Hbok Eq Epp) as (Hb'ok & n & Hrest & Hfr).
  set (p1 := po_set_backends p _).
  assert (H1 : moves p p1 (take n frames) 0) by (apply moves_backends; by apply (grows_insert _ _ b)).
  assert (Hdone : po_tx_seq p1 = po_tx_seq p /\ exists new k, moves p p1 new k /\ 0 <= k /\
            zlen new + k + zlen rest = zlen frames /\ new ⊆+ frames).
  { split; [done|]. exists (take n frames), 0. split; [done|]. split; [lia|].
    rewrite Hrest, length_take, length_drop. split; [lia|]. apply sublist_submseteq, sublist_take. }
  destruct rest as [|r0 rs] eqn:Er; [by intros [= <- <-]|]. rewrite <-Er in *.
  destruct (scan_room _ _ _) as [i|]; [|by intros [= <- <-]].
  intros E. apply IH in E as (Es & new & k & Hm & Hk & Hl & Hsub); [|by eapply moves_ok].
  split; [done|]. exists (take n frames ++ new), k. split; [exact (moves_trans _ _ _ _ _ 0 k H1 Hm)|]. split; [done|].
  rewrite Hrest, length_drop in Hl. rewrite length_app, length_take. split; [lia|].
  rewrite <-(take_drop n frames) at 2. apply submseteq_app; [done|]. by rewrite <-Hrest.
Qed.

(** Without FEC a dispatched batch is conserved: every frame is queued once with
    a fresh number, or counted as dropped. *)
Lemma dispatch_owned_batch_spec p batch bytes now :
  port_ok p -> po_encoder_enabled p = false ->
  let p' := dispatch_owned_batch cpu_kind p batch bytes now in
  exists new k, moves p p' new k /\ zlen new + k = zlen batch /\
    po_tx_seq p <= po_tx_seq p' <= U32_MAX /\ numbered (po_tx_seq p) (po_tx_seq p') new.
Proof.
  intros Hp Hen. pose proof Hp as [Hok Hs]. unfold dispatch_owned_batch. rewrite Hen.
  assert (Hnone : forall p1 n, moves p p1 [] 0 -> po_tx_seq p1 = po_tx_seq p -> 0 <= n ->
    exists new k, moves p (drop_n p1 n) new k /\ zlen new + k = n /\
      po_tx_seq p <= po_tx_seq (drop_n p1 n) <= U32_MAX /\ numbered (po_tx_seq p) (po_tx_seq (drop_n p1 n)) new).
  { intros p1 n H1 E1 Hn. exists [], n. split; [by apply (moves_drop _ _ _ 0)|].
    cbn [drop_n po_tx_seq length]. split; [lia|]. split; [lia|]. by apply numbered_control. }
  assert (Hsame : moves p p [] 0) by by apply moves_same.
  destruct (Nat.eqb_spec (length batch) 0) as [E0|_].
  { exists [], 0. split; [done|]. rewrite E0. split; [done|]. split; [lia|]. by apply numbered_control. }
  case_match; [by apply Hnone; [done|done|lia]|].
  destruct (selected_data_backend_index p bytes now) as [p1 [idx|]] eqn:E1;
    destruct (selected_spec _ _ _ _ _ Hok E1) as (H1 & Es1); [|by apply Hnone; [done|done|lia]].
  destruct (number_batch p1 batch) as [[p2 frames] fb] eqn:E2.
  assert (Hp1 : port_ok p1) by (split; [by eapply moves_ok|lia]).
  destruct (number_batch_spec _ _ _ _ _ _ _ Hp1 E2) as (fs & k2 & -> & H2 & Hk2 & Hl2 & Hs2 & Hn2).
  destruct (push_loop _ p2 idx _ fb) as [p3 left] eqn:E3.
  destruct (push_loop_spec _ _ _ _ _ _ _ (moves_ok _ _ _ _ H2) E3) as (Es3 & new & k3 & H3 & Hk3 & Hl3 & Hsub).
  exists new, (0 + (k2 + k3) + zlen left). split.
  { apply moves_drop; [lia|]. eapply moves_trans_nil_l; [exact H1|].
    exact (moves_trans _ _ _ [] new k2 k3 H2 H3). }
  cbn [drop_n po_tx_seq]. rewrite Es3. cbn [app] in Hl3. split; [lia|]. split; [lia|].
  eapply numbered_submseteq; [exact Hsub|]. rewrite <-Es1. exact Hn2.
Qed.

Lemma dispatch_owned_batch_advances p batch bytes now :
  port_ok p -> exists new, advances p (dispatch_owned_batch cpu_kind p batch bytes now) new.
Proof.
  intros Hp. destruct (po_encoder_enabled p) eqn:Hen.
  - unfold dispatch_owned_batch. rewrite Hen. case_match; [exists []; by apply advances_idle|].
    apply advances_foldl; [|done]. intros. by apply write_payload_advances.
  - destruct (dispatch_owned_batch_spec p batch bytes now Hp Hen) as (new & k & [Hm _] & _ & ? & ?).
    by exists new.
Qed.

Lemma dispatch_turn_advances p ready now :
  port_ok p -> exists new, advances p (dispatch_turn cpu_kind p ready now) new.
Proof.
  intros Hp. unfold dispatch_turn. destruct (po_dispatch_tx p) as [[|frame rx]|]; [exists []; by apply advances_idle| |exists []; by apply advances_idle].
  case_match; [exists []; by apply advances_idle|]. case_match; [exists []; by apply advances_idle|].
  destruct (collect rx _ _) as [[rx' batch] n].
  destruct (dispatch_owned_batch_advances (po_set_dispatch p (Some rx')) batch n now) as [new H1]; [by destruct Hp|].
  exists new. by destruct H1.
Qed.

(** ** Runs *)

Inductive port_op :=
| PWrite (frame : FramePayload) (now : Z)
| PWriteBatch (frames : list FramePayload) (now : Z)
| PEnableDispatch
| PDispatch (ready : bool) (now : Z)
| PPop (idx : nat) (budget : Z)
| PRegister (b : Backend)
| PUnregister (ch : chan).

(** The port after an operation and the frames a TLS writer took. *)
Definition port_step (p : AsyncPort) (op : port_op) : AsyncPort * list VPNFrame :=
  match op with
  | PWrite frame now => (write_owned_payload cpu_kind p frame now, [])
  | PWriteBatch frames now => (write_payload_batch cpu_kind p frames now, [])
  | PEnableDispatch => (enable_dispatch p, [])
  | PDispatch ready now => (dispatch_turn cpu_kind p ready now, [])
  | PPop idx budget => writer_pop p idx budget
  | PRegister b => (register_backend p b, [])
  | PUnregister ch => (unregister_backend p ch, [])
  end.
(** A new backend starts with an empty queue. *)
Definition op_ok (op : port_op) : Prop :=
  match op with PRegister b => backend_ok b /\ backend_frames b = [] | _ => True end.
Fixpoint port_run (p : AsyncPort) (ops : list port_op) : AsyncPort * list VPNFrame :=
  match ops with
  | [] => (p, [])
  | op :: ops' =>
      let '(p1, o1) := port_step p op in
      let '(p2, o2) := port_run p1 ops' in (p2, o1 ++ o2)
  end.

(** The frames in flight are among the old ones and freshly numbered ones. *)
Record follows (p p' : AsyncPort) (out new : list VPNFrame) : Prop := {
  fo_ok : port_ok p';
  fo_seq : po_tx_seq p <= po_tx_seq p';
  fo_numbered : numbered (po_tx_seq p) (po_tx_seq p') new;
  fo_frames : out ++ queued (po_backends p') ⊆+ queued (po_backends p) ++ new }.

Lemma follows_advances p p' new : port_ok p -> advances p p' new -> follows p p' [] new.
Proof.
  intros Hp Ha. pose proof (advances_ok _ _ _ Hp Ha). destruct Ha as [Hg ? ?].
  split; [done|lia|done|]. cbn [app]. by rewrite (gr_queued _ _ _ Hg).
Qed.

Lemma follows_quiet p p' out :
  port_ok p' -> po_tx_seq p' = po_tx_seq p ->
  out ++ queued (po_backends p') ⊆+ queued (po_backends p) -> follows p p' out [].
Proof.
  intros Hok E Hf. split; [done|lia|by apply numbered_control|]. by rewrite app_nil_r.
Qed.

Lemma queued_pop bs i b b' out :
  bs !! i = Some b -> backend_frames b = out ++ backend_frames b' ->
  out ++ queued (<[i := b']> bs) ≡ₚ queued bs.
Proof.
  intros Hi Hb. unfold queued. rewrite list_fmap_insert.
  rewrite <-(take_drop_middle bs i b Hi) at 2.
  rewrite insert_take_drop by (rewrite length_fmap; by eapply lookup_lt_Some).
  rewrite <-fmap_take, <-fmap_drop, fmap_app, fmap_cons, !concat_app. cbn [concat].
  rewrite Hb, <-!app_assoc. rewrite (app_assoc out), (Permutation_app_comm out), <-app_assoc. done.
Qed.

Lemma writer_pop_follows p idx budget p' out :
  port_ok p -> writer_pop p idx budget = (p', out) -> follows p p' out [].
Proof.
  intros Hp. pose proof Hp as [Hok Hs]. unfold writer_pop.
  assert (Hid : follows p p [] []) by by apply follows_quiet.
  destruct (po_backends p !! idx) as [b|] eqn:Hb; [|by intros [= <- <-]].
  destruct (be_owned_batches b) as [q|] eqn:Eq; [|by intros [= <- <-]].
  pose proof (Forall_lookup_1 _ _ _ _ Hok Hb) as Hbok. unfold backend_ok in Hbok. rewrite Eq in Hbok.
  destruct (try_pop_fitting q budget) as [q' r] eqn:E. intros [= <- <-].
  destruct (try_pop_fitting_ok _ _ _ _ Hbok E) as (Hq' & Hr).
  apply follows_quiet; [|done|].
  - split; [|done]. by apply Forall_insert.
  - cbn [po_set_backends po_backends]. rewrite (queued_pop _ _ b); [done|done|].
    unfold backend_frames. rewrite Eq. cbn [be_set_queue be_owned_batches].
    destruct r; [apply Hr|]. by destruct Hr as [-> _].
Qed.

Lemma queued_filter (P : Backend -> Prop) `{!forall b, Decision (P b)} bs : queued (filter P bs) ⊆+ queued bs.
Proof.
  induction bs as [|b bs IH]; [done|]. unfold queued in *. rewrite filter_cons. case_decide; cbn.
  - by apply submseteq_skips_l.
  - by apply submseteq_inserts_l.
Qed.

Lemma port_step_follows p op p' out :
  port_ok p -> op_ok op -> port_step p op = (p', out) -> exists new, follows p p' out new.
Proof.
  intros Hp Hop. pose proof Hp as [Hok Hs].
  assert (Had : forall p1 : AsyncPort, (exists new, advances p p1 new) -> exists new, follows p p1 [] new).
  { intros p1 [new Ha]. exists new. by apply follows_advances. }
  destruct op as [frame now|frames now| |ready now|idx budget|b|ch]; cbn [port_step]; try intros [= <- <-].
  - by apply Had, write_owned_payload_advances.
  - by apply Had, write_payload_batch_advances.
  - apply Had. exists []. unfold enable_dispatch. case_match; by apply advances_idle.
  - by apply Had, dispatch_turn_advances.
  - intros E. exists []. by eapply writer_pop_follows.
  - exists []. destruct Hop as [Hb He]. apply follows_quiet; [|done|].
    + split; [|done]. apply Forall_app. split; [done|]. by apply Forall_singleton.
    + cbn. unfold queued. rewrite fmap_app, concat_app. cbn. by rewrite He, !app_nil_r.
  - exists []. apply follows_quiet; [|done|].
    + split; [|done]. cbn. rewrite Forall_forall in *. intros b [_ Hb]%list_elem_of_filter. by apply Hok.
    + apply queued_filter.
Qed.

Lemma port_run_follows ops : forall p p' out,
  port_ok p -> Forall op_ok ops -> port_run p ops = (p', out) -> exists new, follows p p' out new.
Proof.
  induction ops as [|op ops IH]; intros p p' out Hp Hops; cbn [port_run].
  { intros [= <- <-]. exists []. by apply follows_quiet. }
  apply Forall_cons in Hops as [Hop Hops].
  destruct (port_step p op) as [p1 o1] eqn:E1. destruct (port_run p1 ops) as [p2 o2] eqn:E2. intros [= <- <-].
  destruct (port_step_follows _ _ _ _ Hp Hop E1) as (n1 & [Hp1 Hs1 Hn1 Hf1]).
  destruct (IH _ _ _ Hp1 Hops E2) as (n2 & [Hp2 Hs2 Hn2 Hf2]).
  exists (n1 ++ n2). split; [done|lia|by eapply numbered_app; [|done..]|].
  rewrite <-app_assoc. etransitivity; [apply submseteq_app; [reflexivity|exact Hf2]|].
  rewrite !app_assoc. by apply submseteq_app.
Qed.
End PortSpec.

(** ** Theorems *)

(** A concrete bounded channel, for examples: its identity, capacity and messages. *)
#[global] Instance list_channel : FrameChannel := {|
  chan := nat * nat * list VPNFrame;
  ch_try_send := fun c f => let '(id, cap, l) := c in
    if (length l <? cap)%nat then Some (id, cap, l ++ [f]) else None;
  ch_len := fun c => length c.2;
  ch_capacity := fun c => Some c.1.2;
  same_channel := fun a b => (a.1.1 =? b.1.1)%nat;
  ch_frames := fun c => c.2 |}.
#[global] Instance list_channel_laws : FrameChannelLaws.
Proof. split. intros [[id cap] l] f c' E. simpl in E. case_match; by simplify_eq. Qed.

Definition demo_be (id cap : nat) (rtt : Z) : Backend :=
  {| be_fec_fence_gen := 0; be_ch := (id, 1%nat, []); be_owned_batches := Some (OwnedBatchQueue_new None cap);
     be_rtt_cache := rtt; be_notify := None; be_scheduler := SchedulerBackendState_default |}.
Definition demo_port : AsyncPort := attach_encoder AsyncPort_new 2 None.
Definition demo_port_ops : list port_op :=
  [PRegister (demo_be 1 8 20000); PRegister (demo_be 2 8 30000); PWrite (Owned [1; 2; 3]) 10;
   PWrite (Owned [4]) 20; PPop 0 4096; PUnregister (2%nat, 1%nat, []); PWriteBatch [Owned [5]; Owned [6; 7]] 30].

(** C6: sequence numbers are unique in an epoch: over any interleaving of single
    writes, batch writes, dispatch turns, writer pops and backends joining or
    leaving, the data frames handed to the TLS writers or still queued carry
    pairwise distinct non-zero numbers of at most [u32::MAX]; so no cipher of the
    epoch ever sees a nonce twice. *)
Theorem sequence_numbers_unique `{HC : FrameChannel} `{HL : !FrameChannelLaws} `{HP : CryptoPrims}
    k (p : AsyncPort) ops p' out c :
  port_ok p -> data_seqs (queued (po_backends p)) = [] -> Forall op_ok ops ->
  port_run k p ops = (p', out) ->
  let sent := data_seqs (out ++ queued (po_backends p')) in
  NoDup sent /\ Forall (fun s => 0 < s <= U32_MAX) sent /\ NoDup (cipher_nonce c <$> sent).
Proof.
  intros Hp Hq Hops E. destruct (port_run_follows k ops p p' out Hp Hops E) as (new & [[_ Hp'] Hs Hn Hf]).
  assert (Hsent : numbered (po_tx_seq p) (po_tx_seq p') (out ++ queued (po_backends p'))).
  { eapply numbered_submseteq; [exact Hf|]. unfold numbered. rewrite data_seqs_app, Hq. exact Hn. }
  destruct Hsent as [Hnd Hin]. destruct Hp as [_ Hp0]. split; [done|].
  assert (Hpos : Forall (fun s => 0 < s <= U32_MAX) (data_seqs (out ++ queued (po_backends p')))).
  { eapply Forall_impl; [exact Hin|]. simpl. lia. }
  split; [done|]. rewrite Forall_forall in Hpos.
  apply NoDup_fmap_2_strong; [|done]. intros x y Hx%Hpos Hy%Hpos. apply cipher_nonce_inj; unfold is_u32; lia.
Qed.
Lemma sequence_numbers_unique_witness :
  let r := port_run (HP := toy_prims) OtherCpu demo_port demo_port_ops in
  let sent := data_seqs (r.2 ++ queued (po_backends r.1)) in
  NoDup sent /\ Forall (fun s => 0 < s <= U32_MAX) sent /\ NoDup (cipher_nonce (Gcm256 [] []) <$> sent).
Proof.
  apply (sequence_numbers_unique OtherCpu demo_port demo_port_ops
    (port_run OtherCpu demo_port demo_port_ops).1 _ (Gcm256 [] [])).
  - split; [constructor|vm_compute; split; discriminate].
  - reflexivity.
  - repeat (apply Forall_cons; split); try exact I; try constructor; try apply OwnedBatchQueue_new_ok; reflexivity.
  - by destruct (port_run OtherCpu demo_port demo_port_ops).
Defined.

(** ** The fence on one backend over time *)

Section Fence.
Context `{HC : FrameChannel} `{HL : !FrameChannelLaws}.

Inductive backend_op :=
| BeSend (seq : Z) (data : FramePayload) (control : option FecModeControl)
| BePop (budget : Z).

(** A send of the port, or a batch taken by the TLS writer. *)
Definition backend_step (b : Backend) (op : backend_op) : Backend * list VPNFrame :=
  match op with
  | BeSend seq data control => ((try_send_payload_to_fenced b seq data control).1, [])
  | BePop budget =>
      match be_owned_batches b with
      | Some q =>
          let '(q, r) := try_pop_fitting q budget in
          (be_set_queue b q, match r with Some batch => vb_frames batch | None => [] end)
      | None => (b, [])
      end
  end.
Fixpoint backend_run (b : Backend) (ops : list backend_op) : Backend * list VPNFrame :=
  match ops with
  | [] => (b, [])
  | op :: ops' =>
      let '(b, o1) := backend_step b op in
      let '(b, o2) := backend_run b ops' in (b, o1 ++ o2)
  end.

Definition control_frame (c : FecModeControl) : VPNFrame := {| vf_seq := 0; vf_data := control_payload c |}.
(** The controls the sends came with. *)
Definition controls (ops : list backend_op) : list FecModeControl :=
  omap (fun op => match op with BeSend _ _ control => control | BePop _ => None end) ops.

(** The generation a backend publishes was put into its FIFO by some send. *)
Definition published (cs : list FecModeControl) (stream : list VPNFrame) (gen : Z) : Prop :=
  gen = 0 \/ exists c, c ∈ cs /\ fmc_generation c = gen /\ control_frame c ∈ stream.

Lemma fenced_generation b seq data control b' r :
  backend_ok b -> try_send_payload_to_fenced b seq data control = (b', r) ->
  exists new, backend_ok b' /\ backend_frames b' = backend_frames b ++ new /\
    (be_fec_fence_gen b' = be_fec_fence_gen b \/
     exists c, control = Some c /\ be_fec_fence_gen b' = fmc_generation c /\ control_frame c ∈ new).
Proof using HL.
  intros Hok. unfold try_send_payload_to_fenced.
  assert (Hplain : forall b0, backend_ok b0 -> try_send_payload_to b0 seq data = (b', r) ->
    exists new, backend_ok b' /\ backend_frames b' = backend_frames b0 ++ new /\ be_fec_fence_gen b' = be_fec_fence_gen b0).
  { intros b0 Hok0 E. destruct (try_send_spec _ _ _ _ _ Hok0 E) as (? & ? & Hr). destruct r; [eauto|].
    destruct Hr as [_ Hr]. exists []. by rewrite app_nil_r. }
  destruct control as [c|]; [|intros E; destruct (Hplain b Hok E) as (new & ? & ? & ?); eauto].
  destruct (Z.ltb_spec (be_fec_fence_gen b) (fmc_generation c)); [|intros E; destruct (Hplain b Hok E) as (new & ? & ? & ?); eauto].
  destruct (try_send_payload_to b 0 _) as [b1 [u|d]] eqn:E1; destruct (try_send_spec _ _ _ _ _ Hok E1) as (Hok1 & Hg1 & Hf1).
  - intros E. destruct (Hplain (be_set_fence b1 (fmc_generation c)) Hok1 E) as (new & Hok2 & Hf2 & Hg2).
    change (backend_frames (be_set_fence b1 _)) with (backend_frames b1) in Hf2. rewrite Hf1, <-app_assoc in Hf2.
    eexists. split; [done|]. split; [exact Hf2|]. right. exists c. split_and!; [done|done|]. by left.
  - intros [= <- <-]. exists []. rewrite app_nil_r. destruct Hf1. eauto.
Qed.

(** The stream of a backend only grows at its end. *)
Lemma backend_step_stream b op b' out :
  backend_ok b -> backend_step b op = (b', out) ->
  exists new, backend_ok b' /\ out ++ backend_frames b' = backend_frames b ++ new /\
    (be_fec_fence_gen b' = be_fec_fence_gen b \/
     exists c, c ∈ controls [op] /\ be_fec_fence_gen b' = fmc_generation c /\ control_frame c ∈ new).
Proof using HL.
  intros Hok. destruct op as [seq data control|budget]; cbn [backend_step].
  - destruct (try_send_payload_to_fenced b seq data control) as [b1 r] eqn:E. intros [= <- <-].
    destruct (fenced_generation _ _ _ _ _ _ Hok E) as (new & ? & ? & Hg). exists new. split_and!; [done|done|].
    destruct Hg as [?|(c & -> & ? & ?)]; [by left|right]. exists c. split_and!; [by left|done|done].
  - unfold backend_ok, backend_frames in *. destruct (be_owned_batches b) as [q|] eqn:Eq.
    2: { intros [= <- <-]. exists []. rewrite Eq, app_nil_r. auto. }
    destruct (try_pop_fitting q budget) as [q' r] eqn:Ep. intros [= <- <-]. exists [].
    cbn [be_set_queue be_owned_batches be_fec_fence_gen]. rewrite app_nil_r.
    destruct (try_pop_fitting_ok _ _ _ _ Hok Ep) as [? Hc].
    destruct r; [destruct Hc as (_ & _ & Hc)|destruct Hc as [-> _]]; auto.
Qed.

Lemma backend_run_stream ops : forall b b' out,
  backend_ok b -> backend_run b ops = (b', out) ->
  exists new, backend_ok b' /\ out ++ backend_frames b' = backend_frames b ++ new.
Proof using HL.
  induction ops as [|op ops IH]; intros b b' out Hok; cbn [backend_run].
  { intros [= <- <-]. exists []. by rewrite app_nil_r. }
  destruct (backend_step b op) as [b1 o1] eqn:E1. destruct (backend_run b1 ops) as [b2 o2] eqn:E2. intros [= <- <-].
  destruct (backend_step_stream _ _ _ _ Hok E1) as (n1 & Hok1 & Hf1 & _).
  destruct (IH _ _ _ Hok1 E2) as (n2 & Hok2 & Hf2). exists (n1 ++ n2). split; [done|].
  by rewrite <-app_assoc, Hf2, app_assoc, Hf1, <-app_assoc.
Qed.

Lemma backend_run_published ops : forall b b' out cs past,
  backend_ok b -> published cs (past ++ backend_frames b) (be_fec_fence_gen b) -> backend_run b ops = (b', out) ->
  published (cs ++ controls ops) (past ++ out ++ backend_frames b') (be_fec_fence_gen b').
Proof using HL.
  induction ops as [|op ops IH]; intros b b' out cs past Hok Hp; cbn [backend_run].
  { intros [= <- <-]. by rewrite app_nil_r. }
  destruct (backend_step b op) as [b1 o1] eqn:E1. destruct (backend_run b1 ops) as [b2 o2] eqn:E2. intros [= <- <-].
  destruct (backend_step_stream _ _ _ _ Hok E1) as (new & Hok1 & Hf1 & Hg).
  assert (Hc : controls (op :: ops) = controls [op] ++ controls ops) by apply (omap_app _ [op]).
  rewrite Hc, app_assoc. rewrite <-(app_assoc o1), app_assoc. eapply IH; [done| |done].
  rewrite <-app_assoc, Hf1, app_assoc. destruct Hg as [Hg|(c & Hin & Hg & Hn)].
  - rewrite Hg. destruct Hp as [?|(c & ? & ? & ?)]; [by left|right].
    exists c. split_and!; [apply elem_of_app; by left|done|apply elem_of_app; by left].
  - right. exists c. split_and!; [apply elem_of_app; by right|done|apply elem_of_app; by right].
Qed.
End Fence.

(** C33: the fence precedes the data it governs.  Take a backend whose fence
    generation is still 0, any sequence of fenced and plain sends and of batches
    taken by its TLS writer, then a data frame sent under an FEC mode control of
    positive generation.  When the frame is accepted, then whatever is sent and
    taken afterwards, the backend's stream (what its writer took, followed by what
    is queued) has, before the frame, a control of that generation or of a later
    one that was already in force; the control sits just before the frame when its
    generation was new to the backend.  When the frame is refused, it is returned
    intact and not queued, and the published generation has changed only if the
    control is in the queue. *)
Theorem fence_precedes_data `{HC : FrameChannel} `{HL : !FrameChannelLaws} (b : Backend) ops b1 out1 seq data c b2 r :
  backend_ok b -> be_fec_fence_gen b = 0 -> backend_run b ops = (b1, out1) ->
  0 < fmc_generation c -> try_send_payload_to_fenced b1 seq data (Some c) = (b2, r) ->
  match r with
  | Ok _ =>
      (be_fec_fence_gen b1 < fmc_generation c ->
       backend_frames b2 = backend_frames b1 ++ [control_frame c; {| vf_seq := seq; vf_data := data |}]) /\
      forall later b3 out3, backend_run b2 later = (b3, out3) ->
      exists c0 pre mid post, c0 ∈ controls ops ++ [c] /\ fmc_generation c <= fmc_generation c0 /\
        out1 ++ out3 ++ backend_frames b3 = pre ++ control_frame c0 :: mid ++ {| vf_seq := seq; vf_data := data |} :: post
  | Err d => d = data /\
      ((be_fec_fence_gen b2 = be_fec_fence_gen b1 /\ backend_frames b2 = backend_frames b1) \/
       (be_fec_fence_gen b2 = fmc_generation c /\ backend_frames b2 = backend_frames b1 ++ [control_frame c]))
  end.
Proof.
  intros Hok Hg0 Hrun Hpos E. destruct (backend_run_stream _ _ _ _ Hok Hrun) as (n1 & Hok1 & Hs1).
  pose proof (backend_run_published ops b b1 out1 [] [] Hok ltac:(by left) Hrun) as Hp. cbn [app] in Hp.
  destruct (try_send_fenced_spec _ _ _ _ _ _ Hok1 E) as (Hok2 & Hr). destruct r as [u|d].
  - destruct Hr as (Hf & _). unfold fence_frames in Hf. split.
    { intros Hlt. by destruct (Z.ltb_spec (be_fec_fence_gen b1) (fmc_generation c)); [|lia]. }
    intros later b3 out3 Hl. destruct (backend_run_stream _ _ _ _ Hok2 Hl) as (n3 & _ & Hs3). rewrite Hs3, Hf.
    destruct (Z.ltb_spec (be_fec_fence_gen b1) (fmc_generation c)) as [Hlt|Hge].
    + exists c, (out1 ++ backend_frames b1), [], n3. split_and!; [apply elem_of_app; right; by left|done|].
      by rewrite <-!app_assoc.
    + destruct Hp as [?|(c0 & Hc0 & Hgen & (l1 & l2 & Hin)%list_elem_of_split)]; [lia|].
      exists c0, l1, l2, n3. split_and!; [apply elem_of_app; by left|lia|].
      rewrite <-app_assoc, !(app_assoc out1), Hin, <-!app_assoc. done.
  - revert E. unfold try_send_payload_to_fenced.
    assert (Hplain : forall b0, backend_ok b0 -> try_send_payload_to b0 seq data = (b2, Err d) ->
      d = data /\ be_fec_fence_gen b2 = be_fec_fence_gen b0 /\ backend_frames b2 = backend_frames b0).
    { intros b0 Hok0 E. by destruct (try_send_spec _ _ _ _ _ Hok0 E) as (_ & ? & ? & ?). }
    destruct (_ <? _); [|intros E; destruct (Hplain b1 Hok1 E) as (? & ? & ?); eauto].
    destruct (try_send_payload_to b1 0 _) as [b1' [u|d']] eqn:E1; destruct (try_send_spec _ _ _ _ _ Hok1 E1) as (Hok1' & Hg1 & Hf1).
    + intros E. destruct (Hplain (be_set_fence b1' (fmc_generation c)) Hok1' E) as (-> & Hg2 & Hf2).
      split; [done|right]. split; [done|]. by rewrite Hf2.
    + intros [= <- <-]. destruct Hf1. eauto.
Qed.
Definition demo_control : FecModeControl := {| fmc_generation := 1; fmc_op := FEC_MODE_SUSPEND; fmc_boundary := 5 |}.
Lemma fence_precedes_data_witness :
  let ops := [BeSend 4 (Owned [3]) None; BeSend 5 (Owned [4]) (Some demo_control); BePop 100000] in
  let s1 := backend_run (demo_be 1 8 20000) ops in
  let r := try_send_payload_to_fenced s1.1 7 (Owned [1]) (Some demo_control) in
  r.2 = Ok tt /\ exists c0 pre mid post, c0 ∈ controls ops ++ [demo_control] /\ 1 <= fmc_generation c0 /\
    s1.2 ++ (backend_run r.1 [BePop 100000]).2 ++ backend_frames (backend_run r.1 [BePop 100000]).1
    = pre ++ control_frame c0 :: mid ++ {| vf_seq := 7; vf_data := Owned [1] |} :: post.
Proof.
  intros ops s1 r. split; [vm_compute; reflexivity|].
  exact (proj2 (fence_precedes_data (demo_be 1 8 20000) ops s1.1 s1.2 7 (Owned [1]) demo_control r.1 (Ok tt)
    (OwnedBatchQueue_new_ok None 8) eq_refl (surjective_pairing _) eq_refl ltac:(vm_compute; reflexivity))
    [BePop 100000] _ _ (surjective_pairing _)).
Defined.

(** C26: no frame is lost silently or duplicated: [write_payload] puts a non-empty
    frame into exactly one queue, exactly once, under the next sequence number, or
    leaves no copy of it and counts it as dropped; everything else it enqueues are
    control and parity records, and a parity that finds no room is counted too. *)
Theorem write_payload_exactly_once `{HC : FrameChannel} `{HL : !FrameChannelLaws} `{HP : CryptoPrims}
    k (p : AsyncPort) frame now :
  port_ok p -> as_slice frame <> [] ->
  let p' := write_payload k p frame now in
  exists sent records parity_lost,
    Forall (fun f => vf_seq f = 0) records /\ 0 <= parity_lost <= 1 /\
    queued (po_backends p') ≡ₚ queued (po_backends p) ++ records ++
      (if sent : bool then [{| vf_seq := po_tx_seq p + 1; vf_data := frame |}] else []) /\
    (sent = true -> po_tx_seq p' = po_tx_seq p + 1) /\
    u64_wrap (po_dropped p') = u64_wrap (po_dropped p + (if sent then 0 else 1) + parity_lost).
Proof.
  intros Hp Hne p'. destruct (write_payload_spec k p frame now Hp Hne) as (_ & sent & (ctl & n & Hc & Hn & Hm) & Hs).
  exists sent, ctl, n. split; [done|]. split; [done|]. destruct sent; destruct Hm as [Hg Hd].
  - split; [apply Hg|]. split; [done|]. by rewrite Z.add_0_r.
  - split; [rewrite app_nil_r; apply Hg|]. split; [done|]. by rewrite <-Z.add_assoc.
Qed.
Definition demo_two : AsyncPort :=
  register_backend (register_backend demo_port (demo_be 1 8 20000)) (demo_be 2 8 30000).
Lemma write_payload_exactly_once_witness :
  let p' := write_payload (H0 := toy_prims) OtherCpu demo_two (Owned [9]) 10 in
  exists sent records parity_lost,
    Forall (fun f => vf_seq f = 0) records /\ 0 <= parity_lost <= 1 /\
    queued (po_backends p') ≡ₚ queued (po_backends demo_two) ++ records ++
      (if sent : bool then [{| vf_seq := 1; vf_data := Owned [9] |}] else []) /\
    (sent = true -> po_tx_seq p' = 1) /\
    u64_wrap (po_dropped p') = u64_wrap (0 + (if sent then 0 else 1) + parity_lost).
Proof.
  apply (write_payload_exactly_once OtherCpu demo_two (Owned [9]) 10); [|done].
  split; [|vm_compute; split; discriminate]. repeat (apply Forall_cons; split); try constructor; apply OwnedBatchQueue_new_ok.
Defined.

(** The dispatch thread conserves frames: without FEC every frame of a dispatched
    batch is queued exactly once under a fresh number or counted as dropped, whatever
    mixture of partial enqueues and fall-backs happens. *)
Theorem dispatch_batch_conserved `{HC : FrameChannel} `{HL : !FrameChannelLaws} `{HP : CryptoPrims}
    k (p : AsyncPort) batch bytes now :
  port_ok p -> po_encoder_enabled p = false ->
  let p' := dispatch_owned_batch k p batch bytes now in
  exists new dropped,
    queued (po_backends p') ≡ₚ queued (po_backends p) ++ new /\
    u64_wrap (po_dropped p') = u64_wrap (po_dropped p + dropped) /\
    zlen new + dropped = zlen batch /\
    numbered (po_tx_seq p) (po_tx_seq p') new.
Proof.
  intros Hp He p'. destruct (dispatch_owned_batch_spec k p batch bytes now Hp He) as (new & n & [Hg Hd] & Hl & _ & Hn).
  exists new, n. split; [apply Hg|]. done.
Qed.
Definition demo_small : AsyncPort := register_backend (register_backend AsyncPort_new (demo_be 1 4 20000)) (demo_be 2 4 30000).
Lemma dispatch_batch_conserved_witness :
  let p' := dispatch_owned_batch (H0 := toy_prims) OtherCpu demo_small (replicate 6 (Owned [9])) 6 10 in
  po_dropped p' = 0 /\
  exists new dropped,
    queued (po_backends p') ≡ₚ queued (po_backends demo_small) ++ new /\
    u64_wrap (po_dropped p') = u64_wrap (po_dropped demo_small + dropped) /\
    zlen new + dropped = 6 /\ numbered 0 (po_tx_seq p') new.
Proof.
  split; [vm_compute; reflexivity|].
  apply (dispatch_batch_conserved OtherCpu demo_small (replicate 6 (Owned [9])) 6 10); [|reflexivity].
  split; [|vm_compute; split; discriminate]. repeat (apply Forall_cons; split); try constructor; apply OwnedBatchQueue_new_ok.
Defined.

(** The length hint read by [backend_score] is not refreshed by the batch write:
    five queued frames and a hint of zero. *)
Lemma batch_write_leaves_hint_stale :
  let p := register_backend AsyncPort_new (demo_be 1 8 20000) in
  let p' := write_payload_batch (H0 := toy_prims) OtherCpu p (replicate 5 (Owned [1])) 10 in
  exists b q, po_backends p' = [b] /\ be_owned_batches b = Some q /\ len_frames q = 5%nat /\ len_hint q = 0%nat.
Proof. do 2 eexists. split; [reflexivity|]. split; reflexivity || (split; reflexivity). Qed.
