(* ===== verification/VSwitch.v ===== *)
(** * The virtual switch: [VSwitch] of [src/src/net.rs]

    The switch learns which port owns a source MAC, forwards known unicasts,
    floods the rest within a per-port token budget, and protects the MACs that
    authenticated sessions registered (static entries).  A port is a reference:
    its id and a serial number, since a table entry may outlive a port that was
    replaced under the same id.  The result of an operation is the new switch and
    the deliveries it made, in order; the iteration order of the port map is not
    specified by the source.  Instants are nanoseconds.  Flood tokens are kept in
    billionths and computed exactly where the source uses [f64]. *)
From S2P Require Import Prelude Queue.

Record port_ref := { pr_id : string; pr_serial : nat }.
Abbreviation mac := (list Z).
Definition delivery : Type := port_ref * FramePayload.

Record MacEntry := {
  me_port_id : string;
  me_port : option port_ref;
  me_updated_at : Z;
  me_static : bool }.

Record FloodBudget := { fb_tokens : Z; fb_last : Z }.

Record VSwitch := {
  vs_ports : gmap string port_ref;
  vs_mac_table : gmap mac MacEntry;
  vs_validate_mac : option (string -> mac -> bool);
  vs_spoof_drops : Z;
  vs_flood_mu : gmap string FloodBudget;
  vs_flood_burst : Z;
  vs_flood_rate_per_sec : Z;
  vs_flood_drops : Z;
  vs_trusted_port : string }.

Definition TAP_PORT_ID : string := "TAP_LOCAL".
Definition TOKEN : Z := 1000000000.
Definition secs (n : Z) : Z := n * 1000000000.
Definition null_mac : mac := [0; 0; 0; 0; 0; 0].

Definition with_flood_budgets (burst rate : Z) : VSwitch :=
  {| vs_ports := ∅; vs_mac_table := ∅; vs_validate_mac := None; vs_spoof_drops := 0; vs_flood_mu := ∅;
     vs_flood_burst := burst; vs_flood_rate_per_sec := rate; vs_flood_drops := 0; vs_trusted_port := TAP_PORT_ID |}.
Definition VSwitch_new : VSwitch := with_flood_budgets 8192 16384.

Definition vs_set_tables (s : VSwitch) (ports : gmap string port_ref) (macs : gmap mac MacEntry)
    (budgets : gmap string FloodBudget) : VSwitch :=
  {| vs_ports := ports; vs_mac_table := macs; vs_validate_mac := vs_validate_mac s;
     vs_spoof_drops := vs_spoof_drops s; vs_flood_mu := budgets; vs_flood_burst := vs_flood_burst s;
     vs_flood_rate_per_sec := vs_flood_rate_per_sec s; vs_flood_drops := vs_flood_drops s;
     vs_trusted_port := vs_trusted_port s |}.
Definition vs_set_macs (s : VSwitch) (macs : gmap mac MacEntry) : VSwitch :=
  vs_set_tables s (vs_ports s) macs (vs_flood_mu s).
Definition vs_count (s : VSwitch) (spoof flood : Z) : VSwitch :=
  {| vs_ports := vs_ports s; vs_mac_table := vs_mac_table s; vs_validate_mac := vs_validate_mac s;
     vs_spoof_drops := u64_wrap (vs_spoof_drops s + spoof); vs_flood_mu := vs_flood_mu s;
     vs_flood_burst := vs_flood_burst s; vs_flood_rate_per_sec := vs_flood_rate_per_sec s;
     vs_flood_drops := u64_wrap (vs_flood_drops s + flood); vs_trusted_port := vs_trusted_port s |}.

Definition add_port (s : VSwitch) (id : string) (port : port_ref) : VSwitch :=
  vs_set_tables s (<[id := port]> (vs_ports s)) (vs_mac_table s) (vs_flood_mu s).

Definition add_static_mac (s : VSwitch) (port_id : string) (m : mac) (now : Z) : VSwitch :=
  if decide (m = null_mac) then s
  else vs_set_macs s (<[m := {| me_port_id := port_id; me_port := vs_ports s !! port_id;
                                me_updated_at := now; me_static := true |}]> (vs_mac_table s)).

Definition remove_port (s : VSwitch) (id : string) : VSwitch :=
  vs_set_tables s (delete id (vs_ports s)) (filter (fun e => me_port_id e.2 <> id) (vs_mac_table s))
    (delete id (vs_flood_mu s)).

Definition set_validate_mac (s : VSwitch) (f : string -> mac -> bool) : VSwitch :=
  {| vs_ports := vs_ports s; vs_mac_table := vs_mac_table s; vs_validate_mac := Some f;
     vs_spoof_drops := vs_spoof_drops s; vs_flood_mu := vs_flood_mu s; vs_flood_burst := vs_flood_burst s;
     vs_flood_rate_per_sec := vs_flood_rate_per_sec s; vs_flood_drops := vs_flood_drops s;
     vs_trusted_port := vs_trusted_port s |}.

(** The ageing thread. *)
Definition gc (s : VSwitch) (now : Z) : VSwitch :=
  vs_set_macs s (filter (fun e => me_static e.2 = true \/ now - me_updated_at e.2 < secs 1800) (vs_mac_table s)).

(** ** Flooding *)

Definition allow_flood (s : VSwitch) (src : string) (now : Z) : VSwitch * bool :=
  let set b := vs_set_tables s (vs_ports s) (vs_mac_table s) (<[src := b]> (vs_flood_mu s)) in
  match vs_flood_mu s !! src with
  | None => (set {| fb_tokens := vs_flood_burst s * TOKEN - TOKEN; fb_last := now |}, true)
  | Some b =>
      let elapsed := now - fb_last b in
      let b := if 0 <? elapsed then
                 {| fb_tokens := Z.min (fb_tokens b + elapsed * vs_flood_rate_per_sec s) (vs_flood_burst s * TOKEN);
                    fb_last := now |}
               else b in
      if fb_tokens b <? TOKEN then (set b, false)
      else (set {| fb_tokens := fb_tokens b - TOKEN; fb_last := fb_last b |}, true)
  end.

Definition flood (s : VSwitch) (exclude : string) (frame : FramePayload) (now : Z) : VSwitch * list delivery :=
  let '(s, allowed) := if decide (exclude = vs_trusted_port s) then (s, true) else allow_flood s exclude now in
  if negb allowed then (vs_count s 0 1, [])
  else (s, (fun e => (e.2, Shared (as_slice frame))) <$>
             filter (fun e => e.1 <> exclude) (map_to_list (vs_ports s))).

(** ** Forwarding *)

Definition dst_mac (frame : list Z) : mac := slice 0 6 frame.
Definition src_mac (frame : list Z) : mac := slice 6 12 frame.
(** [(mac[0] & 1) == 0] *)
Definition is_unicast (m : mac) : bool := Z.land (nth_byte m 0) 1 =? 0.

(** The learning step: [None] drops the frame as spoofed. *)
Definition learn_src (s : VSwitch) (src : string) (m : mac) (now : Z) : option VSwitch :=
  let '(need_update, static_elsewhere) :=
    match vs_mac_table s !! m with
    | Some e =>
        if me_static e then (false, negb (bool_decide (me_port_id e = src)))
        else (negb (bool_decide (me_port_id e = src)) || (secs 5 <? now - me_updated_at e), false)
    | None => (true, false)
    end in
  if static_elsewhere && negb (bool_decide (src = vs_trusted_port s)) then None
  else if negb need_update then Some s
  else if negb (match vs_validate_mac s with Some f => f src m | None => true end) then None
  else
    let learned := {| me_port_id := src; me_port := vs_ports s !! src; me_updated_at := now; me_static := false |} in
    match vs_mac_table s !! m with
    | Some e =>
        if me_static e && negb (bool_decide (me_port_id e = src)) then
          if bool_decide (src = vs_trusted_port s) then Some s else None
        else Some (vs_set_macs s (<[m := {| me_port_id := src; me_port := vs_ports s !! src;
                                           me_updated_at := now; me_static := me_static e |}]> (vs_mac_table s)))
    | None => Some (vs_set_macs s (<[m := learned]> (vs_mac_table s)))
    end.

(** The source check: a registered session MAC is compared, others are learnt. *)
Definition check_src (s : VSwitch) (src : string) (registered : option mac) (m : mac) (now : Z) : option VSwitch :=
  match registered with
  | Some r => if decide (r = null_mac) then learn_src s src m now else if decide (m = r) then Some s else None
  | None => learn_src s src m now
  end.

Definition forward (s : VSwitch) (src : string) (frame : FramePayload) (now : Z) : VSwitch * list delivery :=
  let dst := dst_mac (as_slice frame) in
  match (if is_unicast dst then vs_mac_table s !! dst else None) with
  | Some e =>
      if decide (me_port_id e = src) then (s, [])
      else match me_port e with
           | Some port => (s, [(port, frame)])
           | None => match vs_ports s !! me_port_id e with Some port => (s, [(port, frame)]) | None => (s, []) end
           end
  | None => flood s src frame now
  end.

Definition process_frame_inner (s : VSwitch) (src : string) (registered : option mac) (frame : FramePayload) (now : Z)
  : VSwitch * list delivery :=
  if (length (as_slice frame) <? 14)%nat then (s, [])
  else
    match check_src s src registered (src_mac (as_slice frame)) now with
    | None => (vs_count s 1 0, [])
    | Some s => forward s src frame now
    end.

Definition process_session_frame (s : VSwitch) (src : string) (registered : mac) (frame : FramePayload) (now : Z) :=
  process_frame_inner s src (Some registered) frame now.

(** ** Batches of one session *)

(** The fast path of a frame: the port of its known unicast destination. *)
Definition batch_port (s : VSwitch) (src : string) (registered : mac) (frame : list Z) : option port_ref :=
  if bool_decide (registered <> null_mac) && (14 <=? length frame)%nat &&
     bool_decide (src_mac frame = registered) && is_unicast (dst_mac frame) then
    match vs_mac_table s !! dst_mac frame with
    | Some e => if decide (me_port_id e = src) then None else me_port e
    | None => None
    end
  else None.
(** The frames that continue a run: same destination, registered source. *)
Definition same_run (dst registered : mac) (frame : list Z) : bool :=
  (14 <=? length frame)%nat && bool_decide (dst_mac frame = dst) && bool_decide (src_mac frame = registered).
Fixpoint take_run (dst registered : mac) (l : list FramePayload) : list FramePayload * list FramePayload :=
  match l with
  | f :: l' =>
      if same_run dst registered (as_slice f) then
        let '(run, rest) := take_run dst registered l' in (f :: run, rest)
      else ([], l)
  | [] => ([], [])
  end.

(** [fuel] counts the frames left; [write_payload_batch] delivers a run in order. *)
Fixpoint process_session_batch_loop (fuel : nat) (s : VSwitch) (src : string) (registered : mac)
    (frames : list FramePayload) (now : Z) : VSwitch * list delivery :=
  match fuel, frames with
  | S fuel', frame :: rest =>
      match batch_port s src registered (as_slice frame) with
      | Some port =>
          let '(run, rest) := take_run (dst_mac (as_slice frame)) registered rest in
          let '(s, out) := process_session_batch_loop fuel' s src registered rest now in
          (s, ((fun f => (port, f)) <$> frame :: run) ++ out)
      | None =>
          let '(s, out1) := process_session_frame s src registered frame now in
          let '(s, out2) := process_session_batch_loop fuel' s src registered rest now in
          (s, out1 ++ out2)
      end
  | _, _ => (s, [])
  end.
Definition process_session_batch (s : VSwitch) (src : string) (registered : mac) (frames : list FramePayload) (now : Z)
  : VSwitch * list delivery :=
  process_session_batch_loop (length frames) s src registered frames now.

(** ** Properties of the source check *)

Definition static_at (s : VSwitch) (m : mac) (id : string) : Prop :=
  exists e, vs_mac_table s !! m = Some e /\ me_static e = true /\ me_port_id e = id.

Lemma learn_src_static s src m now s' m' id :
  learn_src s src m now = Some s' -> static_at s m' id -> static_at s' m' id.
Proof.
  unfold learn_src. intros E (e & He & Hst & Hid).
  destruct (decide (m = m')) as [->|Hne].
  - rewrite He, Hst in E. cbn in E. case_match; simplify_eq. by exists e.
  - assert (Hkeep : forall x, static_at (vs_set_macs s (<[m := x]> (vs_mac_table s))) m' id).
    { intros x. exists e. split; [|done]. cbn. by rewrite lookup_insert_ne. }
    assert (Hs : static_at s m' id) by by exists e.
    destruct (vs_mac_table s !! m); repeat case_match; by simplify_eq.
Qed.
Lemma learn_src_ports s src m now s' :
  learn_src s src m now = Some s' ->
  vs_ports s' = vs_ports s /\ vs_trusted_port s' = vs_trusted_port s /\ vs_flood_mu s' = vs_flood_mu s.
Proof. unfold learn_src. destruct (vs_mac_table s !! m); repeat case_match; intros; by simplify_eq. Qed.

Lemma allow_flood_tables s src now s' r :
  allow_flood s src now = (s', r) ->
  vs_mac_table s' = vs_mac_table s /\ vs_ports s' = vs_ports s /\ vs_trusted_port s' = vs_trusted_port s.
Proof. unfold allow_flood. destruct (vs_flood_mu s !! src); repeat case_match; intros; by simplify_eq. Qed.
Lemma flood_tables s src frame now s' out :
  flood s src frame now = (s', out) ->
  vs_mac_table s' = vs_mac_table s /\ vs_ports s' = vs_ports s /\ vs_trusted_port s' = vs_trusted_port s /\
  forall d, d ∈ out -> exists id, id <> src /\ vs_ports s !! id = Some d.1.
Proof.
  unfold flood. set (x := if decide _ then _ else _). destruct x as [s1 allowed] eqn:E.
  assert (H1 : vs_mac_table s1 = vs_mac_table s /\ vs_ports s1 = vs_ports s /\ vs_trusted_port s1 = vs_trusted_port s).
  { unfold x in E. case_match; [by simplify_eq|]. by eapply allow_flood_tables. }
  destruct H1 as (Hm & Hp & Ht). destruct allowed; cbn; intros [= <- <-].
  - split; [done|]. split; [done|]. split; [done|].
    intros d ([id port] & -> & [Hne Hin%elem_of_map_to_list]%list_elem_of_filter)%list_elem_of_fmap.
    exists id. split; [done|]. by rewrite Hp in Hin.
  - split; [done|]. split; [done|]. split; [done|]. by intros d ?%elem_of_nil.
Qed.

Lemma check_src_static s src reg m now s' m' id :
  check_src s src reg m now = Some s' -> static_at s m' id -> static_at s' m' id.
Proof.
  unfold check_src. intros E Hs. destruct reg as [r|]; [|by eapply learn_src_static].
  case_match; [by eapply learn_src_static|]. case_match; by simplify_eq.
Qed.
Lemma check_src_ports s src reg m now s' :
  check_src s src reg m now = Some s' -> vs_ports s' = vs_ports s /\ vs_trusted_port s' = vs_trusted_port s.
Proof.
  unfold check_src. destruct reg as [r|]; [|by intros (? & ? & ?)%learn_src_ports].
  case_match; [by intros (? & ? & ?)%learn_src_ports|]. case_match; intros; by simplify_eq.
Qed.

Lemma forward_tables s src frame now s' out :
  forward s src frame now = (s', out) ->
  vs_mac_table s' = vs_mac_table s /\ vs_ports s' = vs_ports s.
Proof.
  unfold forward. intros E. repeat case_match; simplify_eq; try done;
    by apply flood_tables in E as (? & ? & _).
Qed.

Lemma process_frame_static s src reg frame now m id :
  static_at s m id -> static_at (process_frame_inner s src reg frame now).1 m id.
Proof.
  intros Hs. unfold process_frame_inner. case_match; [done|].
  destruct (check_src s src reg _ now) as [s1|] eqn:E; [|done].
  destruct (forward s1 src frame now) as [s2 out] eqn:E2. cbn.
  destruct (check_src_static _ _ _ _ _ _ _ _ E Hs) as (e & He & ?). exists e. split; [|done].
  by destruct (forward_tables _ _ _ _ _ _ E2) as [-> _].
Qed.

(** Frames make no entry static: only [add_static_mac] does. *)
Lemma learn_src_static_inv s src m now s' m' id :
  learn_src s src m now = Some s' -> static_at s' m' id -> static_at s m' id.
Proof.
  unfold learn_src, static_at. intros E (e' & He & Hst & Hid).
  destruct (vs_mac_table s !! m) as [e|] eqn:Em.
  - destruct (me_static e) eqn:Es; repeat case_match; simplify_eq; eauto; cbn in He;
      destruct (decide (m = m')) as [->|]; rewrite ?lookup_insert_eq, ?lookup_insert_ne in He by done; simplify_eq; eauto.
  - repeat case_match; simplify_eq; cbn in He;
      destruct (decide (m = m')) as [->|]; rewrite ?lookup_insert_eq, ?lookup_insert_ne in He by done; simplify_eq; eauto.
Qed.
Lemma process_frame_static_inv s src reg frame now m id :
  static_at (process_frame_inner s src reg frame now).1 m id -> static_at s m id.
Proof.
  unfold process_frame_inner. case_match; [done|].
  destruct (check_src s src reg _ now) as [s1|] eqn:E; [|done].
  destruct (forward s1 src frame now) as [s2 out] eqn:E2. cbn. unfold static_at.
  destruct (forward_tables _ _ _ _ _ _ E2) as [-> _]. revert E. unfold check_src.
  destruct reg as [r|]; repeat case_match; intros E; simplify_eq; try done; by eapply learn_src_static_inv.
Qed.

(** ** The batch path is the scalar path *)

Fixpoint process_each (s : VSwitch) (src : string) (registered : mac) (frames : list FramePayload) (now : Z)
  : VSwitch * list delivery :=
  match frames with
  | [] => (s, [])
  | f :: rest =>
      let '(s, out1) := process_session_frame s src registered f now in
      let '(s, out2) := process_each s src registered rest now in (s, out1 ++ out2)
  end.

Lemma process_frame_fast s src registered dst frame port now e :
  registered <> null_mac -> same_run dst registered (as_slice frame) = true -> is_unicast dst = true ->
  vs_mac_table s !! dst = Some e -> me_port_id e <> src -> me_port e = Some port ->
  process_session_frame s src registered frame now = (s, [(port, frame)]).
Proof.
  intros Hr [[Hl%Nat.leb_le Hd%bool_decide_eq_true]%andb_true_iff Hs%bool_decide_eq_true]%andb_true_iff Hu He Hne Hp.
  unfold process_session_frame, process_frame_inner. destruct (Nat.ltb_spec (length (as_slice frame)) 14); [lia|].
  unfold check_src. rewrite decide_False by done. rewrite decide_True by done.
  unfold forward. rewrite Hd, Hu, He. rewrite decide_False by done. by rewrite Hp.
Qed.

Lemma take_run_spec s src registered dst port now e l :
  registered <> null_mac -> is_unicast dst = true ->
  vs_mac_table s !! dst = Some e -> me_port_id e <> src -> me_port e = Some port ->
  forall run rest, take_run dst registered l = (run, rest) ->
  (length rest <= length l)%nat /\
  process_each s src registered l now =
    let '(s', out) := process_each s src registered rest now in (s', ((fun f => (port, f)) <$> run) ++ out).
Proof.
  intros Hr Hu He Hne Hp. induction l as [|f l IH]; cbn [take_run]; intros run rest; [by intros [= <- <-]|].
  destruct (same_run dst registered (as_slice f)) eqn:Es.
  2: { intros [= <- <-]. split; [done|]. cbn. by repeat case_match. }
  destruct (take_run dst registered l) as [run' rest'] eqn:Et. intros [= <- <-].
  destruct (IH _ _ eq_refl) as [Hlen IH']. split; [cbn; lia|]. cbn [process_each].
  rewrite (process_frame_fast s src registered dst f port now e) by done. rewrite IH'.
  by destruct (process_each s src registered rest' now).
Qed.

Lemma batch_port_spec s src registered frame port :
  batch_port s src registered frame = Some port ->
  registered <> null_mac /\ same_run (dst_mac frame) registered frame = true /\ is_unicast (dst_mac frame) = true /\
  exists e, vs_mac_table s !! dst_mac frame = Some e /\ me_port_id e <> src /\ me_port e = Some port.
Proof.
  unfold batch_port, same_run. destruct (_ && _) eqn:E; [|done].
  apply andb_true_iff in E as [[[Hr%bool_decide_eq_true Hl]%andb_true_iff Hs]%andb_true_iff Hu].
  destruct (vs_mac_table s !! _) as [e|]; [|done]. case_match; [done|]. intros Hp.
  split; [done|]. rewrite Hl, Hs. split; [by rewrite bool_decide_eq_true_2|]. split; [done|]. by exists e.
Qed.

Lemma batch_loop_each fuel : forall s src registered frames now,
  (length frames <= fuel)%nat ->
  process_session_batch_loop fuel s src registered frames now = process_each s src registered frames now.
Proof.
  induction fuel as [|fuel IH]; intros s src registered [|frame rest] now Hlen; cbn in Hlen; try done; [lia|].
  cbn [process_session_batch_loop]. destruct (batch_port s src registered (as_slice frame)) as [port|] eqn:Eb.
  - apply batch_port_spec in Eb as (Hr & Hs & Hu & e & He & Hne & Hp).
    destruct (take_run (dst_mac (as_slice frame)) registered rest) as [run rest'] eqn:Et.
    destruct (take_run_spec s src registered _ port now e rest Hr Hu He Hne Hp run rest' Et) as [Hl Hrest].
    rewrite IH by lia. cbn [process_each].
    rewrite (process_frame_fast s src registered (dst_mac (as_slice frame)) frame port now e) by done.
    rewrite Hrest. by destruct (process_each s src registered rest' now).
  - cbn [process_each]. destruct (process_session_frame s src registered frame now) as [s1 o1].
    rewrite IH by lia. done.
Qed.

(** Grouping is invisible: processing a session's frames as a batch (runs to one
    known destination handed to its port at once) leaves the switch in the same state
    and makes the same deliveries in the same order as processing them one by one. *)
Theorem session_batch_equals_scalar s src registered frames now :
  process_session_batch s src registered frames now = process_each s src registered frames now.
Proof. unfold process_session_batch. by apply batch_loop_each. Qed.

(** ** Runs of the switch *)

Inductive vs_op :=
| VProcess (src : string) (registered : option mac) (frame : FramePayload) (now : Z)
| VBatch (src : string) (registered : mac) (frames : list FramePayload) (now : Z)
| VAddPort (id : string) (serial : nat)
| VAddStatic (id : string) (m : mac) (now : Z)
| VRemovePort (id : string)
| VSetValidate (f : string -> mac -> bool)
| VGc (now : Z).

Definition vs_step (s : VSwitch) (op : vs_op) : VSwitch * list delivery :=
  match op with
  | VProcess src registered frame now => process_frame_inner s src registered frame now
  | VBatch src registered frames now => process_session_batch s src registered frames now
  | VAddPort id serial => (add_port s id {| pr_id := id; pr_serial := serial |}, [])
  | VAddStatic id m now => (add_static_mac s id m now, [])
  | VRemovePort id => (remove_port s id, [])
  | VSetValidate f => (set_validate_mac s f, [])
  | VGc now => (gc s now, [])
  end.
Definition vs_run (s : VSwitch) (ops : list vs_op) : VSwitch := foldl (fun s op => (vs_step s op).1) s ops.

(** The operations that may take a registration away. *)
Definition revokes (m : mac) (id : string) (op : vs_op) : Prop :=
  match op with VAddStatic _ m' _ => m' = m | VRemovePort id' => id' = id | _ => False end.

Lemma process_each_static src registered now m id frames : forall s,
  static_at s m id -> static_at (process_each s src registered frames now).1 m id.
Proof.
  induction frames as [|f frames IH]; intros s Hs; [done|]. cbn [process_each].
  pose proof (process_frame_static s src (Some registered) f now m id Hs) as H1.
  unfold process_session_frame. destruct (process_frame_inner s src (Some registered) f now) as [s1 o1].
  pose proof (IH s1 H1) as H2. by destruct (process_each s1 src registered frames now).
Qed.

Lemma vs_step_static s op m id : static_at s m id -> ~ revokes m id op -> static_at (vs_step s op).1 m id.
Proof.
  intros Hs Hr. destruct op as [src reg frame now|src reg frames now|id' n|id' m' now|id'|f|now]; cbn in *.
  - by apply process_frame_static.
  - unfold process_session_batch. rewrite batch_loop_each by done. by apply process_each_static.
  - done.
  - unfold add_static_mac. case_match; [done|]. destruct Hs as (e & ? & ?). exists e. cbn.
    by rewrite lookup_insert_ne.
  - destruct Hs as (e & He & Hst & Hid). exists e. split; [|done]. cbn.
    apply map_lookup_filter_Some. split; [done|]. cbn. congruence.
  - done.
  - destruct Hs as (e & He & Hst & Hid). exists e. split; [|done]. cbn.
    apply map_lookup_filter_Some. split; [done|]. cbn. by left.
Qed.

(** C29: a registered MAC cannot be hijacked: once a session's MAC is bound to its
    port, no traffic from any port, no learning, ageing or change of the validator
    moves or removes the binding; only a new registration of that MAC or the removal
    of that port does. *)
Theorem static_mac_never_hijacked s ops m id :
  static_at s m id -> Forall (fun op => ~ revokes m id op) ops -> static_at (vs_run s ops) m id.
Proof.
  revert s. induction ops as [|op ops IH]; intros s Hs Hops; [done|].
  apply Forall_cons in Hops as [Hop Hops]. cbn. apply IH; [|done]. by apply vs_step_static.
Qed.
Definition demo_mac (b : Z) : mac := [2; 0; 0; 0; 0; b].
Definition demo_eth (dst src : mac) : FramePayload := Owned (dst ++ src ++ [8; 0; 1; 2]).
Definition demo_vs_ops : list vs_op :=
  [VAddPort "a" 0; VAddPort "b" 1; VAddPort "c" 2; VAddStatic "a" (demo_mac 1) 0].
Definition demo_switch : VSwitch := vs_run VSwitch_new demo_vs_ops.
Lemma static_mac_never_hijacked_witness :
  static_at (vs_run demo_switch
    [VProcess "b" None (demo_eth (demo_mac 3) (demo_mac 1)) 9; VGc (secs 4000); VRemovePort "b"]) (demo_mac 1) "a".
Proof.
  apply (static_mac_never_hijacked demo_switch _ (demo_mac 1) "a").
  - eexists. split; [reflexivity|]. split; reflexivity.
  - repeat (apply Forall_cons; split); try (intros []; fail); [intros E; discriminate E|constructor].
Defined.

(** C40: a frame that claims another session's MAC is dropped whole: when the source
    MAC is not the registered one of the sending session, or is bound statically to
    another port (and the sender is neither registered nor the trusted TAP), nothing
    is delivered, the table is unchanged and the drop is counted. *)
Theorem spoofed_source_dropped s src registered frame now :
  (14 <= length (as_slice frame))%nat ->
  match registered with
  | Some r => r <> null_mac /\ src_mac (as_slice frame) <> r
  | None => src <> vs_trusted_port s /\ exists id, id <> src /\ static_at s (src_mac (as_slice frame)) id
  end ->
  process_frame_inner s src registered frame now = (vs_count s 1 0, []).
Proof.
  intros Hl H. unfold process_frame_inner. destruct (Nat.ltb_spec (length (as_slice frame)) 14); [lia|].
  destruct registered as [r|]; unfold check_src.
  - destruct H. rewrite !decide_False by done. done.
  - destruct H as (Ht & id & Hid & e & He & Hst & <-). unfold learn_src. rewrite He, Hst.
    rewrite !bool_decide_eq_false_2 by done. done.
Qed.
Lemma spoofed_source_dropped_witness :
  process_frame_inner demo_switch "b" None (demo_eth (demo_mac 3) (demo_mac 1)) 9 = (vs_count demo_switch 1 0, []).
Proof.
  apply (spoofed_source_dropped demo_switch "b" None (demo_eth (demo_mac 3) (demo_mac 1)) 9); [cbn; lia|].
  split; [discriminate|]. exists "a". split; [discriminate|].
  eexists. split; [reflexivity|]. split; reflexivity.
Defined.

(** ** Where frames go *)

(** Ports are stored under their id, also in the table entries that cache them. *)
Record switch_ok (s : VSwitch) : Prop := {
  so_ports : forall id p, vs_ports s !! id = Some p -> pr_id p = id;
  so_macs : forall m e p, vs_mac_table s !! m = Some e -> me_port e = Some p -> pr_id p = me_port_id e }.

Lemma learn_src_ok s src m now s' : switch_ok s -> learn_src s src m now = Some s' -> switch_ok s'.
Proof.
  intros [Hp Hm] E.
  assert (Hins : forall st, switch_ok (vs_set_macs s (<[m := {| me_port_id := src; me_port := vs_ports s !! src;
            me_updated_at := now; me_static := st |}]> (vs_mac_table s)))).
  { intros st. split; [done|]. intros m' e p. cbn. destruct (decide (m = m')) as [->|].
    - rewrite lookup_insert_eq. intros [= <-]. cbn. apply Hp.
    - rewrite lookup_insert_ne by done. apply Hm. }
  assert (Hs : switch_ok s) by done.
  unfold learn_src in E. destruct (vs_mac_table s !! m); repeat case_match; by simplify_eq.
Qed.
Lemma check_src_ok s src reg m now s' : switch_ok s -> check_src s src reg m now = Some s' -> switch_ok s'.
Proof.
  unfold check_src. intros Hs. destruct reg as [r|]; [|by apply learn_src_ok].
  case_match; [by apply learn_src_ok|]. case_match; intros; by simplify_eq.
Qed.
Lemma switch_ok_same s s' :
  vs_ports s' = vs_ports s -> vs_mac_table s' = vs_mac_table s -> switch_ok s -> switch_ok s'.
Proof. intros E1 E2 [H1 H2]. split; by rewrite ?E1, ?E2. Qed.

Lemma process_frame_ok s src reg frame now : switch_ok s -> switch_ok (process_frame_inner s src reg frame now).1.
Proof.
  intros Hs. unfold process_frame_inner. case_match; [done|].
  destruct (check_src s src reg _ now) as [s1|] eqn:E; [|by apply (switch_ok_same s)].
  destruct (forward s1 src frame now) as [s2 out] eqn:E2. destruct (forward_tables _ _ _ _ _ _ E2) as [? ?].
  apply (switch_ok_same s1); [done..|]. by eapply check_src_ok.
Qed.
Lemma process_each_ok src registered now frames : forall s,
  switch_ok s -> switch_ok (process_each s src registered frames now).1.
Proof.
  induction frames as [|f frames IH]; intros s Hs; [done|]. cbn [process_each].
  pose proof (process_frame_ok s src (Some registered) f now Hs) as H1.
  unfold process_session_frame. destruct (process_frame_inner s src (Some registered) f now) as [s1 o1].
  pose proof (IH s1 H1) as H2. by destruct (process_each s1 src registered frames now).
Qed.

Lemma vs_step_ok s op : switch_ok s -> switch_ok (vs_step s op).1.
Proof.
  intros Hs. pose proof Hs as [Hp Hm].
  destruct op as [src reg frame now|src reg frames now|id' n|id' m' now|id'|f|now]; cbn.
  - by apply process_frame_ok.
  - unfold process_session_batch. rewrite batch_loop_each by done. by apply process_each_ok.
  - split; [|done]. intros id p. cbn. destruct (decide (id' = id)) as [->|].
    + rewrite lookup_insert_eq. by intros [= <-].
    + rewrite lookup_insert_ne by done. apply Hp.
  - unfold add_static_mac. case_match; [done|]. split; [done|]. intros m e p. cbn.
    destruct (decide (m' = m)) as [->|]; [rewrite lookup_insert_eq; intros [= <-]; apply Hp|].
    rewrite lookup_insert_ne by done. apply Hm.
  - split; cbn.
    + intros id p [_ ?]%lookup_delete_Some. by apply Hp.
    + intros m e p [? _]%map_lookup_filter_Some. by apply (Hm m).
  - done.
  - split; [done|]. cbn. intros m e p [? _]%map_lookup_filter_Some. by apply (Hm m).
Qed.
Lemma vs_run_ok ops : forall s, switch_ok s -> switch_ok (vs_run s ops).
Proof. induction ops as [|op ops IH]; intros s Hs; [done|]. cbn. by apply IH, vs_step_ok. Qed.

Lemma with_flood_budgets_ok burst rate : switch_ok (with_flood_budgets burst rate).
Proof. split; cbn; intros *; by rewrite lookup_empty. Qed.

(** A frame goes nowhere, or to the port that owns its destination, or is flooded. *)
Lemma forward_cases s src frame now s' out :
  switch_ok s -> forward s src frame now = (s', out) ->
  (out = [] /\ s' = s) \/
  (exists e p, is_unicast (dst_mac (as_slice frame)) = true /\
     vs_mac_table s !! dst_mac (as_slice frame) = Some e /\
     me_port_id e <> src /\ pr_id p = me_port_id e /\ out = [(p, frame)]) \/
  ((is_unicast (dst_mac (as_slice frame)) = true -> vs_mac_table s !! dst_mac (as_slice frame) = None) /\
   flood s src frame now = (s', out)).
Proof.
  intros Hs. unfold forward. destruct (is_unicast _) eqn:Hu; [|intros; right; right; by split].
  destruct (vs_mac_table s !! _) as [e|] eqn:He; [|intros; right; right; by split].
  destruct (decide _); [intros [= <- <-]; by left|].
  destruct (me_port e) as [p|] eqn:Ep; [|destruct (vs_ports s !! _) as [p|] eqn:Ep']; intros [= <- <-]; [..|by left].
  - right; left. exists e, p. split; [done|]. split; [done|]. split; [done|]. split; [|done]. by apply (so_macs _ Hs _ _ _ He).
  - right; left. exists e, p. split; [done|]. split; [done|]. split; [done|]. split; [|done]. by apply (so_ports _ Hs).
Qed.

(** No frame returns to its sender and a known unicast stays private: in every
    reachable switch a delivered frame goes to ports other than the source port, and
    a unicast whose destination is bound goes at most to the port it is bound to. *)
Theorem forwarding_isolated burst rate ops src registered frame now s' out :
  let s := vs_run (with_flood_budgets burst rate) ops in
  process_frame_inner s src registered frame now = (s', out) ->
  (forall d, d ∈ out -> pr_id d.1 <> src) /\
  (forall id, is_unicast (dst_mac (as_slice frame)) = true -> static_at s (dst_mac (as_slice frame)) id ->
    (length out <= 1)%nat /\ forall d, d ∈ out -> pr_id d.1 = id /\ d.2 = frame).
Proof.
  intros s. assert (Hs : switch_ok s) by (apply vs_run_ok, with_flood_budgets_ok).
  assert (Hnil : forall out : list delivery, out = [] -> (forall d, d ∈ out -> pr_id d.1 <> src) /\
    (forall id, is_unicast (dst_mac (as_slice frame)) = true -> static_at s (dst_mac (as_slice frame)) id ->
      (length out <= 1)%nat /\ forall d, d ∈ out -> pr_id d.1 = id /\ d.2 = frame)).
  { intros ? ->. split; [by intros d ?%elem_of_nil|]. intros. split; [cbn; lia|by intros d ?%elem_of_nil]. }
  unfold process_frame_inner. case_match; [intros [= <- <-]; by apply Hnil|].
  destruct (check_src s src registered _ now) as [s1|] eqn:E; [|intros [= <- <-]; by apply Hnil].
  pose proof (check_src_ok _ _ _ _ _ _ Hs E) as Hs1. intros Ef.
  destruct (forward_cases _ _ _ _ _ _ Hs1 Ef) as [[-> _]|[(e & p & Hu & He & Hne & Hp & ->)|[Hno Hfl]]]; [by apply Hnil| |].
  - split; [intros d ->%list_elem_of_singleton; cbn; congruence|]. intros id _ Hst. split; [cbn; lia|].
    destruct (check_src_static _ _ _ _ _ _ _ _ E Hst) as (e' & He' & _ & Hid).
    intros d ->%list_elem_of_singleton. cbn. split; [congruence|done].
  - apply flood_tables in Hfl as (_ & _ & _ & Hf). split.
    + intros d (id & Hne & Hp)%Hf. by rewrite (so_ports _ Hs1 _ _ Hp).
    + intros id Hu Hst. destruct (check_src_static _ _ _ _ _ _ _ _ E Hst) as (e & He & _). by rewrite (Hno Hu) in He.
Qed.
Lemma forwarding_isolated_witness :
  let out := (process_frame_inner demo_switch "b" None (demo_eth (demo_mac 1) (demo_mac 2)) 9).2 in
  length out = 1%nat /\ (forall d, d ∈ out -> pr_id d.1 <> "b").
Proof.
  split; [reflexivity|].
  apply (forwarding_isolated 8192 16384 demo_vs_ops "b" None (demo_eth (demo_mac 1) (demo_mac 2)) 9
    (process_frame_inner demo_switch "b" None (demo_eth (demo_mac 1) (demo_mac 2)) 9).1 _). reflexivity.
Defined.

(** ** The flood budget *)

(** Requests of one port at the given times: how many floods are let through. *)
Fixpoint flood_requests (s : VSwitch) (src : string) (times : list Z) : VSwitch * Z :=
  match times with
  | [] => (s, 0)
  | t :: times' =>
      let '(s, ok) := allow_flood s src t in
      let '(s, n) := flood_requests s src times' in (s, (if ok then 1 else 0) + n)
  end.

(** Times never go back. *)
Fixpoint monotone (t0 : Z) (times : list Z) : Prop :=
  match times with [] => True | t :: times' => t0 <= t /\ monotone t times' end.

Lemma allow_flood_spec s src t s' ok b :
  vs_flood_mu s !! src = Some b -> 0 <= fb_tokens b <= vs_flood_burst s * TOKEN -> 0 <= vs_flood_rate_per_sec s ->
  fb_last b <= t -> allow_flood s src t = (s', ok) ->
  vs_flood_burst s' = vs_flood_burst s /\ vs_flood_rate_per_sec s' = vs_flood_rate_per_sec s /\
  exists b', vs_flood_mu s' !! src = Some b' /\ fb_last b' = t /\ 0 <= fb_tokens b' <= vs_flood_burst s * TOKEN /\
    fb_tokens b' + (if ok then TOKEN else 0) <= fb_tokens b + (t - fb_last b) * vs_flood_rate_per_sec s.
Proof.
  intros Hb Htok Hrate Ht. unfold allow_flood. rewrite Hb. set (b1 := if 0 <? t - fb_last b then _ else b).
  assert (H1 : fb_last b1 = t /\ 0 <= fb_tokens b1 <= vs_flood_burst s * TOKEN /\
    fb_tokens b1 <= fb_tokens b + (t - fb_last b) * vs_flood_rate_per_sec s).
  { unfold b1. destruct (Z.ltb_spec 0 (t - fb_last b)); cbn.
    - split; [done|]. split; [|lia]. nia.
    - split; [lia|]. split; [lia|]. nia. }
  destruct H1 as (Hl & Ht1 & Hle). unfold TOKEN in *.
  destruct (Z.ltb_spec (fb_tokens b1) 1000000000); intros [= <- <-]; (split; [done|]); (split; [done|]);
    eexists; (split; [apply lookup_insert_eq|]); cbn; (split; [done|]); (split; [lia|]); lia.
Qed.

Lemma flood_requests_bound src rate burst times : forall s b t_end,
  vs_flood_mu s !! src = Some b -> vs_flood_burst s = burst -> vs_flood_rate_per_sec s = rate -> 0 <= rate ->
  0 <= fb_tokens b <= burst * TOKEN -> monotone (fb_last b) times ->
  Forall (fun t => t <= t_end) times -> fb_last b <= t_end ->
  (flood_requests s src times).2 * TOKEN <= fb_tokens b + (t_end - fb_last b) * rate.
Proof.
  induction times as [|t times IH]; intros s b t_end Hb Eb Er Hr Htok Hmono Hend Hle; cbn [flood_requests].
  { cbn. nia. }
  destruct Hmono as [Ht Hmono]. apply Forall_cons in Hend as [Hte Hend]. subst burst rate.
  destruct (allow_flood s src t) as [s1 ok] eqn:E.
  destruct (allow_flood_spec _ _ _ _ _ _ Hb Htok Hr Ht E) as (E1 & E2 & b' & Hb' & Hl' & Htok' & Hstep).
  specialize (IH s1 b' t_end Hb' E1 E2 Hr Htok').
  rewrite Hl' in IH. specialize (IH Hmono Hend Hte).
  destruct (flood_requests s1 src times) as [s2 n]. cbn in *. destruct ok; nia.
Qed.

(** Broadcast amplification is bounded: whatever the arrival pattern, the floods
    of one port let through in [T] nanoseconds from its first one are at most the
    burst plus the refill [rate * T]. *)
Theorem flood_budget_bounded s src t0 times T :
  vs_flood_mu s !! src = None -> 1 <= vs_flood_burst s -> 0 <= vs_flood_rate_per_sec s -> 0 <= T ->
  monotone t0 times -> Forall (fun t => t <= t0 + T) times ->
  (flood_requests s src (t0 :: times)).2 * TOKEN <= vs_flood_burst s * TOKEN + T * vs_flood_rate_per_sec s.
Proof.
  intros Hnone Hburst Hrate HT Hmono Hend. cbn [flood_requests]. unfold allow_flood. rewrite Hnone.
  set (b := {| fb_tokens := vs_flood_burst s * TOKEN - TOKEN; fb_last := t0 |}). set (s1 := vs_set_tables _ _ _ _).
  pose proof (flood_requests_bound src (vs_flood_rate_per_sec s) (vs_flood_burst s) times s1 b (t0 + T)
    (lookup_insert_eq _ _ _) eq_refl eq_refl Hrate) as H.
  destruct (flood_requests s1 src times) as [s2 n]. cbn in *. unfold TOKEN in *.
  specialize (H ltac:(lia) Hmono Hend ltac:(lia)). lia.
Qed.
Lemma flood_budget_bounded_witness :
  (flood_requests (with_flood_budgets 2 1) "a" [0; 0; 0; secs 1; secs 1]).2 * TOKEN <= 2 * TOKEN + secs 1 * 1.
Proof.
  apply (flood_budget_bounded (with_flood_budgets 2 1) "a" 0 [0; 0; secs 1; secs 1] (secs 1));
    [reflexivity|cbn; lia|cbn; lia|unfold secs; lia|cbn [monotone]; unfold secs; lia|].
  repeat (apply Forall_cons; split); try (unfold secs; lia); constructor.
Defined.
