(* ===== verification/Pool.v ===== *)
(** * Addresses of the sessions: [IpPool] and the CIDR parsers of [src/src/server.rs],
      the address helpers of [src/src/utils.rs]

    Texts are byte lists (ASCII).  IPv4 text is modelled after the standard
    library's strict dotted-decimal parser; the text form of IPv6 addresses is a
    parameter with the round-trip law of [Ipv6Addr].  The two allocators of the
    source differ in the width only and share one definition.  The scan loop runs
    by doubling: [scan n] makes at most [2^n] turns, so the width of the family is
    enough turns for every network. *)
From S2P Require Import Prelude Utils Crypto.

Abbreviation text := (list Z).
Definition SLASH : Z := 47.
Definition DOT : Z := 46.

(** ** Address families *)

Record family := {
  fam_bits : Z;
  fam_print : Z -> text;
  fam_parse : text -> option Z }.
Class FamilyLaws (fam : family) : Prop := {
  fam_bits_ok : 8 <= fam_bits fam;
  fam_parse_print : forall a, 0 <= a < 2 ^ fam_bits fam -> fam_parse fam (fam_print fam a) = Some a;
  fam_parse_range : forall s a, fam_parse fam s = Some a -> 0 <= a < 2 ^ fam_bits fam;
  fam_print_nonempty : forall a, fam_print fam a <> [] }.

Lemma fam_print_inj fam `{!FamilyLaws fam} a b :
  0 <= a < 2 ^ fam_bits fam -> 0 <= b < 2 ^ fam_bits fam -> fam_print fam a = fam_print fam b -> a = b.
Proof. intros Ha Hb E. apply fam_parse_print in Ha, Hb. rewrite E in Ha. congruence. Qed.

(** Decimal numbers. *)
Definition is_digit (c : Z) : bool := (48 <=? c) && (c <=? 57).
Definition digits_value (s : text) : Z := foldl (fun v c => v * 10 + (c - 48)) 0 s.

(** [str::parse::<u32>]: an optional plus sign, at least one digit, no overflow. *)
Definition parse_u32 (s : text) : option Z :=
  let s := match s with c :: s' => if c =? 43 then s' else s | [] => s end in
  match s with
  | [] => None
  | _ => if forallb is_digit s && (digits_value s <=? U32_MAX) then Some (digits_value s) else None
  end.

(** One octet: one to three digits, no leading zero, at most 255. *)
Definition parse_octet (s : text) : option Z :=
  match s with
  | [] => None
  | c :: s' =>
      if forallb is_digit s && (length s <=? 3)%nat && ((length s =? 1)%nat || negb (c =? 48)) && (digits_value s <=? 255)
      then Some (digits_value s) else None
  end.
Definition print_octet (b : Z) : text :=
  if b <? 10 then [48 + b]
  else if b <? 100 then [48 + b / 10; 48 + b mod 10]
  else [48 + b / 100; 48 + b / 10 mod 10; 48 + b mod 10].

(** [Ipv4Addr::from_str] and [Ipv4Addr::to_string], on the address as a number. *)
Definition ipv4_parse (s : text) : option Z :=
  match mapM parse_octet (split_on DOT s) with
  | Some [a; b; c; d] => Some (be_decode [a; b; c; d])
  | _ => None
  end.
Definition u32_to_ip4 (v : Z) : text :=
  match be_encode 4 v with
  | [a; b; c; d] => print_octet a ++ DOT :: print_octet b ++ DOT :: print_octet c ++ DOT :: print_octet d
  | _ => []
  end.
Definition v4_family : family := {| fam_bits := 32; fam_print := u32_to_ip4; fam_parse := ipv4_parse |}.

(** [ip4_to_u32] / [ip6_to_u128]: an unparsable text falls back to [dflt]. *)
Definition addr_or (fam : family) (dflt : Z) (s : text) : Z := default dflt (fam_parse fam s).
Definition ip4_to_u32 (s : text) : Z := addr_or v4_family 167772161 s.

(** ** CIDR *)

(** [str::split_once('/')]; the first component is [split('/').next()]. *)
Fixpoint split_once (sep : Z) (s : text) : text * option text :=
  match s with
  | [] => ([], None)
  | c :: s' => if c =? sep then ([], Some s') else let '(a, b) := split_once sep s' in (c :: a, b)
  end.

Lemma split_once_spec sep s :
  match split_once sep s with
  | (a, Some b) => s = a ++ sep :: b /\ sep ∉ a
  | (a, None) => a = s /\ sep ∉ s
  end.
Proof.
  induction s as [|c s IH]; cbn; [split; [done|set_solver]|]. destruct (Z.eqb_spec c sep) as [->|]; [split; [done|set_solver]|].
  destruct (split_once sep s) as [a [b|]]; destruct IH as [-> ?]; split; try done; set_solver.
Qed.
Lemma split_once_app sep a b : sep ∉ a -> split_once sep (a ++ sep :: b) = (a, Some b).
Proof.
  induction a as [|c a IH]; cbn; intros Hn; [by rewrite Z.eqb_refl|].
  rewrite (proj2 (Z.eqb_neq c sep)) by set_solver. rewrite IH by set_solver. done.
Qed.

Definition is_space (c : Z) : bool := (c =? 32) || ((9 <=? c) && (c <=? 13)).
Fixpoint trim_start (s : text) : text :=
  match s with c :: s' => if is_space c then trim_start s' else s | [] => [] end.
(** [str::trim] on ASCII text. *)
Definition trim (s : text) : text := rev (trim_start (rev (trim_start s))).

Definition is_valid_cidr (fam : family) (s : text) : bool :=
  let s := trim s in
  match s with
  | [] => false
  | _ =>
      let bits_ok n := n <=? fam_bits fam in
      match split_once SLASH s with
      | (a, Some b) =>
          match parse_u32 (trim b) with
          | Some n => bool_decide (is_Some (fam_parse fam (trim a))) && bits_ok n
          | None => false
          end
      | (_, None) => bool_decide (is_Some (fam_parse fam s))
      end
  end.

(** [mask & base] with the [bits] leading ones. *)
Definition net_mask (fam : family) (bits : Z) : Z :=
  if bits =? 0 then 0 else Z.ones (Z.min bits (fam_bits fam)) * 2 ^ (fam_bits fam - Z.min bits (fam_bits fam)).
Definition parse_cidr (fam : family) (dflt_addr dflt_bits : Z) (cidr : text) : Z * Z :=
  let '(base, bits) := split_once SLASH cidr in
  let bits := match bits with Some b => default dflt_bits (parse_u32 b) | None => dflt_bits end in
  (Z.land (addr_or fam dflt_addr base) (net_mask fam bits), Z.min bits (fam_bits fam)).
Definition parse_v4_cidr (cidr : text) : Z * Z := parse_cidr v4_family 167772161 24 cidr.
(** fd00::1 *)
Definition FD00_1 : Z := 253 * 2 ^ 120 + 1.
Definition parse_v6_cidr (v6 : family) (cidr : text) : Z * Z := parse_cidr v6 FD00_1 64 cidr.

(** ** Allocation *)

Definition net_broadcast (fam : family) (base mask_bits : Z) : Z :=
  let host_bits := fam_bits fam - mask_bits in
  if fam_bits fam <=? host_bits then 2 ^ fam_bits fam - 1 else Z.lor base (2 ^ host_bits - 1).

Definition in_net (fam : family) (base mask_bits val : Z) : bool :=
  let host_bits := fam_bits fam - mask_bits in
  (fam_bits fam <=? host_bits) || (Z.shiftr val host_bits =? Z.shiftr base host_bits).

Inductive scan_result := Found (a : Z) | Exhausted | More (cur : Z).

Definition host_free (fam : family) (used : gset text) (cur : Z) : bool :=
  let last_byte := Z.land cur 255 in
  negb (last_byte =? 0) && negb (last_byte =? 255) && negb (bool_decide (fam_print fam cur ∈ used)).
Definition scan_step (fam : family) (used : gset text) (broadcast cur : Z) : scan_result :=
  if cur <? broadcast then if host_free fam used cur then Found cur else More (cur + 1) else Exhausted.
Fixpoint scan (fam : family) (used : gset text) (broadcast : Z) (n : nat) (cur : Z) : scan_result :=
  match n with
  | O => scan_step fam used broadcast cur
  | S n' => match scan fam used broadcast n' cur with More c => scan fam used broadcast n' c | r => r end
  end.

Definition alloc_scan (fam : family) (used : gset text) (base mask_bits : Z) : gset text * text :=
  match scan fam used (net_broadcast fam base mask_bits) (Z.to_nat (fam_bits fam)) ((base + 1) mod 2 ^ fam_bits fam) with
  | Found a => ({[ fam_print fam a ]} ∪ used, fam_print fam a)
  | _ => (used, [])
  end.
Definition alloc (fam : family) (used : gset text) (base mask_bits : Z) (req : text) : gset text * text :=
  match fam_parse fam (split_once SLASH req).1 with
  | Some val =>
      let s := fam_print fam val in
      if in_net fam base mask_bits val && negb (bool_decide (s ∈ used)) then ({[ s ]} ∪ used, s)
      else alloc_scan fam used base mask_bits
  | None => alloc_scan fam used base mask_bits
  end.

(** ** The pool *)

Record IpPool := {
  ip_used_v4 : gset text;
  ip_used_v6 : gset text;
  ip_v4_base : Z;
  ip_v4_mask_bits : Z;
  ip_v6_base : Z;
  ip_v6_mask_bits : Z;
  ip_mac_to_ip : gmap text (text * text) }.

Section Pool.
Context (v6 : family).

Definition ip_set_used (p : IpPool) (u4 u6 : gset text) (macs : gmap text (text * text)) : IpPool :=
  {| ip_used_v4 := u4; ip_used_v6 := u6; ip_v4_base := ip_v4_base p; ip_v4_mask_bits := ip_v4_mask_bits p;
     ip_v6_base := ip_v6_base p; ip_v6_mask_bits := ip_v6_mask_bits p; ip_mac_to_ip := macs |}.

(** The gateway is base + 1 and never leased. *)
Definition IpPool_new (v4cidr v6cidr : text) : IpPool * text * text :=
  let '(b4, m4) := parse_v4_cidr v4cidr in
  let '(b6, m6) := parse_v6_cidr v6 v6cidr in
  let gw4 := u32_to_ip4 ((b4 + 1) mod 2 ^ 32) in
  let gw6 := fam_print v6 ((b6 + 1) mod 2 ^ fam_bits v6) in
  ({| ip_used_v4 := {[ gw4 ]}; ip_used_v6 := {[ gw6 ]}; ip_v4_base := b4; ip_v4_mask_bits := m4;
      ip_v6_base := b6; ip_v6_mask_bits := m6; ip_mac_to_ip := ∅ |}, gw4, gw6).

Definition alloc_v4 (p : IpPool) (req : text) : IpPool * text :=
  let '(u, s) := alloc v4_family (ip_used_v4 p) (ip_v4_base p) (ip_v4_mask_bits p) req in
  (ip_set_used p u (ip_used_v6 p) (ip_mac_to_ip p), s).
Definition alloc_v6 (p : IpPool) (req : text) : IpPool * text :=
  let '(u, s) := alloc v6 (ip_used_v6 p) (ip_v6_base p) (ip_v6_mask_bits p) req in
  (ip_set_used p (ip_used_v4 p) u (ip_mac_to_ip p), s).

Definition pool_release (p : IpPool) (mac v4 v6 : text) : IpPool :=
  let macs := match ip_mac_to_ip p !! mac with
              | Some b => if decide (b.1 = v4) then delete mac (ip_mac_to_ip p) else ip_mac_to_ip p
              | None => ip_mac_to_ip p end in
  ip_set_used p (ip_used_v4 p ∖ {[ v4 ]}) (ip_used_v6 p ∖ {[ v6 ]}) macs.

(** The handshake of a new session: the addresses bound to its MAC are asked for
    first, then one address of each family is taken or none at all. *)
Definition bound_request (p : IpPool) (mac req4 req6 : text) : text * text :=
  match mac with
  | [] => (req4, req6)
  | _ => default (req4, req6) (ip_mac_to_ip p !! mac)
  end.
Definition assign_addresses (p : IpPool) (req4 req6 : text) : IpPool * option (text * text) :=
  let '(p, v4ip) := alloc_v4 p req4 in
  match v4ip with
  | [] => (p, None)
  | _ =>
      let '(p, v6ip) := alloc_v6 p req6 in
      match v6ip with
      | [] => (ip_set_used p (ip_used_v4 p ∖ {[ v4ip ]}) (ip_used_v6 p) (ip_mac_to_ip p), None)
      | _ => (p, Some (v4ip, v6ip))
      end
  end.
Definition bind_mac (p : IpPool) (mac : text) (ips : text * text) : IpPool :=
  match mac with
  | [] => p
  | _ => ip_set_used p (ip_used_v4 p) (ip_used_v6 p) (<[mac := ips]> (ip_mac_to_ip p))
  end.

(** Used IPv4 leases, IPv4 capacity (capped), used IPv6 leases. *)
Definition pool_status (p : IpPool) : Z * Z * Z :=
  let host_bits := 32 - ip_v4_mask_bits p in
  let total := if 16 <=? host_bits then 65536
               else let c := 2 ^ host_bits in if 2 <? c then c - 2 else c in
  (Z.of_nat (size (ip_used_v4 p)), total, Z.of_nat (size (ip_used_v6 p))).
End Pool.

(** ** IPv4 text *)

Definition all_bytes : list Z := Z.of_nat <$> seq 0 256.
Lemma all_bytes_elem b : is_byte b -> b ∈ all_bytes.
Proof.
  intros Hb. apply list_elem_of_fmap. exists (Z.to_nat b). unfold is_byte in Hb.
  split; [lia|]. apply elem_of_seq. lia.
Qed.

(** Checked by evaluation on all 256 octets. *)
Lemma octet_roundtrip b :
  is_byte b -> parse_octet (print_octet b) = Some b /\ Forall (fun c => c <> DOT) (print_octet b).
Proof.
  intros Hb%all_bytes_elem.
  assert (Hall : Forall (fun b => parse_octet (print_octet b) = Some b /\ Forall (fun c => c <> DOT) (print_octet b)) all_bytes).
  { apply (bool_decide_unpack _). vm_compute. exact I. }
  rewrite Forall_forall in Hall. by apply Hall.
Qed.

Lemma digits_value_nonneg s : forallb is_digit s = true -> 0 <= digits_value s.
Proof.
  unfold digits_value.
  enough (H : forall s v, 0 <= v -> forallb is_digit s = true -> 0 <= foldl (fun v c => v * 10 + (c - 48)) v s)
    by (by apply H).
  clear. induction s as [|c s IH]; intros v Hv; [done|]. cbn.
  intros [[H1%Z.leb_le _]%andb_true_iff H2]%andb_true_iff. apply IH; [lia|done].
Qed.
Lemma parse_octet_byte s b : parse_octet s = Some b -> is_byte b.
Proof.
  unfold parse_octet. destruct s as [|c s]; [done|]. case_match eqn:E; [|done]. intros [= <-].
  apply andb_true_iff in E as [[[Hd _]%andb_true_iff _]%andb_true_iff Hle%Z.leb_le].
  apply digits_value_nonneg in Hd. unfold is_byte. lia.
Qed.

#[global] Instance v4_laws : FamilyLaws v4_family.
Proof.
  split; cbn [v4_family fam_bits fam_print fam_parse].
  - lia.
  - intros a Ha. unfold u32_to_ip4.
    pose proof (be_decode_encode 4 a ltac:(lia)) as Hd. pose proof (be_encode_bytes 4 a) as Hb.
    destruct (be_encode 4 a) as [|x1 [|x2 [|x3 [|x4 [|]]]]] eqn:E; try discriminate E.
    rewrite !Forall_cons in Hb. destruct Hb as (H1 & H2 & H3 & H4 & _).
    apply octet_roundtrip in H1 as [P1 N1], H2 as [P2 N2], H3 as [P3 N3], H4 as [P4 N4].
    unfold ipv4_parse. rewrite (proj1 (split_on_app DOT _ _ N1)), (proj1 (split_on_app DOT _ _ N2)),
      (proj1 (split_on_app DOT _ _ N3)), (proj2 (split_on_app DOT _ [] N4)).
    assert (Hm : mapM parse_octet [print_octet x1; print_octet x2; print_octet x3; print_octet x4] = Some [x1; x2; x3; x4])
      by (cbn; by rewrite P1, P2, P3, P4).
    by rewrite Hm, Hd.
  - intros s a. unfold ipv4_parse. destruct (mapM _ _) as [l|] eqn:E; [|done].
    assert (Hl : bytes_ok l).
    { apply mapM_Some in E. clear -E. induction E; constructor; [by eapply parse_octet_byte|done]. }
    destruct l as [|x1 [|x2 [|x3 [|x4 [|]]]]]; try discriminate. intros [= <-].
    apply (be_decode_bound [x1; x2; x3; x4]) in Hl. exact Hl.
  - intros a. unfold u32_to_ip4.
    destruct (be_encode 4 a) as [|x1 [|x2 [|x3 [|x4 [|]]]]] eqn:E; try discriminate E.
    intros [? [=]]%app_eq_nil.
Qed.

(** ** The scan *)

Section Alloc.
Context (fam : family) `{!FamilyLaws fam} (used : gset text).
Abbreviation free := (host_free fam used).

Lemma scan_spec bc n cur :
  match scan fam used bc n cur with
  | Found a => cur <= a < bc /\ free a = true /\ forall x, cur <= x < a -> free x = false
  | Exhausted => forall x, cur <= x < bc -> free x = false
  | More c => c = cur + 2 ^ Z.of_nat n /\ c <= bc /\ forall x, cur <= x < c -> free x = false
  end.
Proof using.
  revert cur. induction n as [|n IH]; intros cur; cbn [scan].
  - unfold scan_step. destruct (Z.ltb_spec cur bc); [|intros; lia]. destruct (free cur) eqn:E.
    + split; [lia|]. split; [done|]. intros; lia.
    + split; [done|]. split; [lia|]. intros x Hx. by replace x with cur by lia.
  - pose proof (IH cur) as H1. destruct (scan fam used bc n cur) as [a| |c]; [done..|].
    destruct H1 as (-> & Hle & Hno). pose proof (IH (cur + 2 ^ Z.of_nat n)) as H2.
    rewrite Nat2Z.inj_succ, Z.pow_succ_r by lia.
    pose proof (Z.pow_pos_nonneg 2 (Z.of_nat n) ltac:(lia) ltac:(lia)).
    destruct (scan fam used bc n _) as [a| |c].
    + destruct H2 as (? & ? & H2). split; [lia|]. split; [done|]. intros x Hx.
      destruct (Z.lt_ge_cases x (cur + 2 ^ Z.of_nat n)); [apply Hno; lia|apply H2; lia].
    + intros x Hx. destruct (Z.lt_ge_cases x (cur + 2 ^ Z.of_nat n)); [apply Hno; lia|apply H2; lia].
    + destruct H2 as (-> & ? & H2). split; [lia|]. split; [done|]. intros x Hx.
      destruct (Z.lt_ge_cases x (cur + 2 ^ Z.of_nat n)); [apply Hno; lia|apply H2; lia].
Qed.

(** The network of the pool: [base] has no host bits and is not the last address. *)
Record net_ok (base mask_bits : Z) : Prop := {
  no_bits : 0 <= mask_bits <= fam_bits fam;
  no_base : 0 <= base < 2 ^ fam_bits fam - 1;
  no_aligned : Z.land base (2 ^ (fam_bits fam - mask_bits) - 1) = 0 }.

Lemma net_broadcast_spec base mask_bits :
  net_ok base mask_bits ->
  net_broadcast fam base mask_bits = base + 2 ^ (fam_bits fam - mask_bits) - 1 /\
  net_broadcast fam base mask_bits < 2 ^ fam_bits fam.
Proof using Type*.
  intros [Hm Hb Ha]. pose proof fam_bits_ok as Hbits. unfold net_broadcast.
  set (w := fam_bits fam) in *. set (h := w - mask_bits) in *.
  rewrite Z.sub_1_r, <-Z.ones_equiv in Ha. assert (0 <= h) by lia.
  assert (Hlor : Z.lor base (2 ^ h - 1) = base + 2 ^ h - 1).
  { rewrite Z.sub_1_r, <-Z.ones_equiv, <-Z.lxor_lor, <-Z.add_nocarry_lxor by done. rewrite Z.ones_equiv. lia. }
  rewrite Z.land_ones in Ha by done.
  assert (Hlt : base + 2 ^ h - 1 < 2 ^ w).
  { replace w with (mask_bits + h) in * by lia. rewrite Z.pow_add_r in * by lia.
    pose proof (Z.pow_pos_nonneg 2 h ltac:(lia) ltac:(lia)). pose proof (Z.div_mod base (2 ^ h) ltac:(lia)).
    assert (base / 2 ^ h < 2 ^ mask_bits) by (apply Z.div_lt_upper_bound; lia). nia. }
  destruct (Z.leb_spec w h); [|by rewrite Hlor].
  replace h with w in * by lia. rewrite Z.mod_small in Ha by lia. lia.
Qed.

Lemma in_net_spec base mask_bits a :
  net_ok base mask_bits -> 0 <= a < 2 ^ fam_bits fam ->
  (in_net fam base mask_bits a = true <-> base <= a <= net_broadcast fam base mask_bits).
Proof using Type*.
  intros Hn Ha. pose proof (net_broadcast_spec _ _ Hn) as [Hbc Hlt]. destruct Hn as [Hm Hb Hal].
  rewrite Hbc in *. unfold in_net. set (w := fam_bits fam) in *. set (h := w - mask_bits) in *.
  rewrite Z.sub_1_r, <-Z.ones_equiv, Z.land_ones in Hal by lia.
  pose proof (Z.pow_pos_nonneg 2 h ltac:(lia) ltac:(lia)).
  pose proof (Z.div_mod base (2 ^ h) ltac:(lia)). pose proof (Z.div_mod a (2 ^ h) ltac:(lia)).
  pose proof (Z.mod_pos_bound a (2 ^ h) ltac:(lia)).
  rewrite orb_true_iff, Z.leb_le, Z.eqb_eq, !Z.shiftr_div_pow2 by lia. split.
  - intros [Hw|E].
    + replace h with w in * by lia. rewrite Z.mod_small in Hal by lia. lia.
    + rewrite <-E in *. lia.
  - intros Hr. right. rewrite (Z.div_unique_pos a (2 ^ h) (base / 2 ^ h) (a - base)); [done|lia|lia].
Qed.

(** What an allocation returns: a free address of the network, or nothing when
    every host address is taken. *)
Definition alloc_outcome (base mask_bits : Z) (used' : gset text) (s : text) : Prop :=
  (s = [] /\ used' = used /\
   forall x, base < x < net_broadcast fam base mask_bits -> Z.land x 255 <> 0 -> Z.land x 255 <> 255 ->
     fam_print fam x ∈ used) \/
  (s <> [] /\ s ∉ used /\ used' = {[ s ]} ∪ used /\
   exists a, s = fam_print fam a /\ base <= a <= net_broadcast fam base mask_bits).

Lemma alloc_scan_spec base mask_bits used' s :
  net_ok base mask_bits -> alloc_scan fam used base mask_bits = (used', s) -> alloc_outcome base mask_bits used' s.
Proof using Type*.
  intros Hn. destruct (net_broadcast_spec _ _ Hn) as [_ Hlt]. pose proof (no_base _ _ Hn) as Hb.
  pose proof fam_bits_ok as Hw. unfold alloc_scan. rewrite (Z.mod_small (base + 1)) by lia.
  pose proof (scan_spec (net_broadcast fam base mask_bits) (Z.to_nat (fam_bits fam)) (base + 1)) as H.
  destruct (scan _ _ _ _ _) as [a| |c]; intros [= <- <-].
  - destruct H as (Hr & Hf & _). right. unfold host_free in Hf.
    apply andb_true_iff in Hf as [_ Hf%negb_true_iff%bool_decide_eq_false].
    split; [apply fam_print_nonempty|]. split; [done|]. split; [done|]. exists a. split; [done|lia].
  - left. split; [done|]. split; [done|]. intros x Hx H0 H255. specialize (H x ltac:(lia)).
    unfold host_free in H. apply Z.eqb_neq in H0, H255. rewrite H0, H255 in H.
    by apply negb_false_iff, bool_decide_eq_true in H.
  - destruct H as (-> & Hle & _). rewrite Z2Nat.id in Hle by lia. lia.
Qed.

Lemma alloc_spec base mask_bits req used' s :
  net_ok base mask_bits -> alloc fam used base mask_bits req = (used', s) -> alloc_outcome base mask_bits used' s.
Proof using Type*.
  intros Hn. unfold alloc. destruct (fam_parse fam _) as [val|] eqn:Ep; [|by apply alloc_scan_spec].
  destruct (_ && _) eqn:E; [|by apply alloc_scan_spec]. intros [= <- <-].
  apply andb_true_iff in E as [Hin Hf%negb_true_iff%bool_decide_eq_false].
  right. split; [apply fam_print_nonempty|]. split; [done|]. split; [done|]. exists val. split; [done|].
  apply in_net_spec; [done| |done]. by eapply fam_parse_range.
Qed.
End Alloc.

(** ** Sessions and their addresses *)

Record lease := { ls_mac : text; ls_v4 : text; ls_v6 : text }.
#[global] Instance lease_eq_dec : EqDecision lease.
Proof. solve_decision. Defined.

Section Leases.
Context (v6 : family) `{!FamilyLaws v6}.

Inductive pool_op :=
| Join (mac req4 req6 : text)
| Leave (l : lease).

(** A joining session gets its addresses or is refused; a leaving one (it must be
    live) gives them back. *)
Definition pool_step (st : IpPool * list lease) (op : pool_op) : IpPool * list lease :=
  let '(p, live) := st in
  match op with
  | Join mac req4 req6 =>
      let '(r4, r6) := bound_request p mac req4 req6 in
      match assign_addresses v6 p r4 r6 with
      | (p, Some ips) => (bind_mac p mac ips, {| ls_mac := mac; ls_v4 := ips.1; ls_v6 := ips.2 |} :: live)
      | (p, None) => (p, live)
      end
  | Leave l =>
      if decide (l ∈ live) then (pool_release p (ls_mac l) (ls_v4 l) (ls_v6 l), filter (fun x => x <> l) live)
      else (p, live)
  end.
Definition pool_run (st : IpPool * list lease) (ops : list pool_op) : IpPool * list lease := foldl pool_step st ops.

(** The pool of one family: the used texts are the gateway and the live leases. *)
Record leases_ok (fam : family) (base mask_bits : Z) (gw : text) (used : gset text) (live : list text) : Prop := {
  lo_used : used = {[ gw ]} ∪ list_to_set live;
  lo_gw : gw ∉ live;
  lo_nodup : NoDup live;
  lo_net : Forall (fun s => exists a, s = fam_print fam a /\ base <= a <= net_broadcast fam base mask_bits) live }.

Lemma leases_alloc fam `{!FamilyLaws fam} base m gw used live req used' s :
  net_ok fam base m -> leases_ok fam base m gw used live -> alloc fam used base m req = (used', s) ->
  (s = [] /\ used' = used) \/ (s <> [] /\ s ∉ used /\ leases_ok fam base m gw used' (s :: live)).
Proof.
  intros Hn [Hu Hg Hd Hf] E. destruct (alloc_spec fam used _ _ _ _ _ Hn E) as [(-> & -> & _)|(Hne & Hs & -> & Ha)]; [by left|].
  right. split; [done|]. split; [done|]. rewrite Hu in Hs. split.
  - rewrite Hu. cbn. set_solver.
  - set_solver.
  - constructor; [set_solver|done].
  - constructor; done.
Qed.
Lemma leases_release fam base m gw used live s :
  leases_ok fam base m gw used (s :: live) -> leases_ok fam base m gw (used ∖ {[ s ]}) live.
Proof.
  intros [Hu Hg Hd Hf]. apply NoDup_cons in Hd as [Hs Hd]. apply Forall_cons in Hf as [_ Hf].
  split; [|set_solver|done|done]. rewrite Hu. cbn. rewrite not_elem_of_cons in Hg. destruct Hg as [Hg _].
  apply leibniz_equiv. set_solver.
Qed.
Lemma leases_perm fam base m gw used l1 l2 :
  l1 ≡ₚ l2 -> leases_ok fam base m gw used l1 -> leases_ok fam base m gw used l2.
Proof.
  intros HP [Hu Hg Hd Hf]. split; [|by rewrite <-HP..]. rewrite Hu. f_equal.
  apply leibniz_equiv. by rewrite HP.
Qed.

Record pool_inv (gw4 gw6 : text) (p : IpPool) (live : list lease) : Prop := {
  pi_net4 : net_ok v4_family (ip_v4_base p) (ip_v4_mask_bits p);
  pi_net6 : net_ok v6 (ip_v6_base p) (ip_v6_mask_bits p);
  pi_v4 : leases_ok v4_family (ip_v4_base p) (ip_v4_mask_bits p) gw4 (ip_used_v4 p) (ls_v4 <$> live);
  pi_v6 : leases_ok v6 (ip_v6_base p) (ip_v6_mask_bits p) gw6 (ip_used_v6 p) (ls_v6 <$> live) }.

Lemma assign_inv gw4 gw6 p live r4 r6 p' r mac :
  pool_inv gw4 gw6 p live -> assign_addresses v6 p r4 r6 = (p', r) ->
  match r with
  | Some ips => pool_inv gw4 gw6 p' ({| ls_mac := mac; ls_v4 := ips.1; ls_v6 := ips.2 |} :: live)
  | None => pool_inv gw4 gw6 p' live
  end.
Proof using Type*.
  intros [Hn4 Hn6 H4 H6]. unfold assign_addresses, alloc_v4, alloc_v6.
  destruct (alloc v4_family _ _ _ r4) as [u4 s4] eqn:E4.
  destruct (leases_alloc _ _ _ _ _ _ _ _ _ Hn4 H4 E4) as [[-> ->]|(Hne4 & Hs4 & H4')]; [by intros [= <- <-]|].
  destruct s4 as [|c s4]; [done|]. set (s := c :: s4) in *. cbn [ip_set_used ip_used_v6 ip_v6_base ip_v6_mask_bits ip_used_v4 ip_mac_to_ip].
  destruct (alloc v6 _ _ _ r6) as [u6 s6] eqn:E6.
  destruct (leases_alloc _ _ _ _ _ _ _ _ _ Hn6 H6 E6) as [[-> ->]|(Hne6 & Hs6 & H6')].
  - intros [= <- <-]. split; [done..| |done]. cbn. by apply leases_release in H4'.
  - destruct s6 as [|c6 s6]; [done|]. intros [= <- <-]. by split.
Qed.

Lemma pool_step_keeps st op :
  let p := (pool_step st op).1 in
  ip_v4_base p = ip_v4_base st.1 /\ ip_v4_mask_bits p = ip_v4_mask_bits st.1 /\
  ip_v6_base p = ip_v6_base st.1 /\ ip_v6_mask_bits p = ip_v6_mask_bits st.1.
Proof using.
  destruct st as [p live]. destruct op as [mac req4 req6|l]; cbn [pool_step]; [|by case_match].
  destruct (bound_request p mac req4 req6) as [r4 r6]. unfold assign_addresses, alloc_v4, alloc_v6.
  destruct (alloc v4_family _ _ _ r4) as [u4 [|c4 s4]]; [done|].
  destruct (alloc v6 _ _ _ r6) as [u6 [|c6 s6]]; [done|]. by destruct mac.
Qed.
Lemma pool_run_keeps ops : forall st,
  let p := (pool_run st ops).1 in
  ip_v4_base p = ip_v4_base st.1 /\ ip_v4_mask_bits p = ip_v4_mask_bits st.1 /\
  ip_v6_base p = ip_v6_base st.1 /\ ip_v6_mask_bits p = ip_v6_mask_bits st.1.
Proof using.
  induction ops as [|op ops IH]; intros st; [done|]. cbn [pool_run foldl].
  destruct (pool_step_keeps st op) as (E1 & E2 & E3 & E4). destruct (IH (pool_step st op)) as (F1 & F2 & F3 & F4).
  unfold pool_run in *. by rewrite F1, F2, F3, F4.
Qed.

Lemma live_perm (live : list lease) l :
  NoDup live -> l ∈ live -> live ≡ₚ l :: filter (fun x => x <> l) live.
Proof using.
  intros Hd Hl. apply NoDup_Permutation; [done| |].
  - constructor; [|by apply NoDup_filter]. by intros [? _]%list_elem_of_filter.
  - intros x. rewrite elem_of_cons, list_elem_of_filter. destruct (decide (x = l)) as [->|]; naive_solver.
Qed.

Lemma pool_step_inv gw4 gw6 p live op :
  pool_inv gw4 gw6 p live -> let '(p', live') := pool_step (p, live) op in pool_inv gw4 gw6 p' live'.
Proof using Type*.
  intros Hi. destruct op as [mac req4 req6|l]; cbn [pool_step].
  - destruct (bound_request p mac req4 req6) as [r4 r6].
    destruct (assign_addresses v6 p r4 r6) as [p' [ips|]] eqn:E;
      pose proof (assign_inv _ _ _ _ _ _ _ _ mac Hi E) as H; [|done].
    unfold bind_mac. destruct mac; [done|]. by destruct H.
  - destruct (decide (l ∈ live)) as [Hl|]; [|done]. destruct Hi as [Hn4 Hn6 H4 H6].
    assert (Hd : NoDup live) by (apply (NoDup_fmap_1 ls_v4); apply H4).
    pose proof (live_perm live l Hd Hl) as HP. split; [done..| |]; cbn.
    + apply leases_release. eapply leases_perm; [|exact H4]. by rewrite HP at 1.
    + apply leases_release. eapply leases_perm; [|exact H6]. by rewrite HP at 1.
Qed.

Lemma pool_run_inv gw4 gw6 ops : forall p live,
  pool_inv gw4 gw6 p live ->
  pool_inv gw4 gw6 (pool_run (p, live) ops).1 (pool_run (p, live) ops).2.
Proof using Type*.
  induction ops as [|op ops IH]; intros p live Hi; [done|]. cbn [pool_run foldl].
  pose proof (pool_step_inv gw4 gw6 p live op Hi) as H1. destruct (pool_step (p, live) op) as [p1 live1].
  by apply IH.
Qed.
End Leases.

(** ** The networks that CIDR texts denote *)

Lemma parse_u32_nonneg s n : parse_u32 s = Some n -> 0 <= n.
Proof.
  unfold parse_u32. set (s' := match s with [] => _ | _ => _ end). destruct s' as [|c t]; [done|].
  case_match eqn:E; [|done]. intros [= <-]. apply andb_true_iff in E as [Hd _]. by apply digits_value_nonneg.
Qed.

Lemma land_le_l x m : 0 <= x -> 0 <= Z.land x m <= x.
Proof.
  intros Hx. split; [apply Z.land_nonneg; by left|].
  assert (E : Z.ldiff (Z.land x m) x = 0).
  { apply Z.bits_inj'. intros i Hi. rewrite Z.ldiff_spec, Z.land_spec, Z.bits_0. by destruct (Z.testbit x i), (Z.testbit m i). }
  apply Z.sub_nocarry_ldiff in E. pose proof (proj2 (Z.ldiff_nonneg x (Z.land x m)) (or_introl Hx)). lia.
Qed.
Lemma parse_cidr_net_ok fam `{!FamilyLaws fam} dflt dbits cidr :
  0 <= dflt < 2 ^ fam_bits fam -> 0 <= dbits ->
  (parse_cidr fam dflt dbits cidr).2 < fam_bits fam ->
  net_ok fam (parse_cidr fam dflt dbits cidr).1 (parse_cidr fam dflt dbits cidr).2.
Proof.
  intros Hd Hdb. pose proof fam_bits_ok as Hw. unfold parse_cidr. destruct (split_once SLASH cidr) as [b o].
  set (bits := match o with Some _ => _ | None => _ end).
  assert (Hbits : 0 <= bits).
  { unfold bits. destruct o; [|done]. destruct (parse_u32 _) eqn:E; [|done]. by apply parse_u32_nonneg in E. }
  cbn [fst snd]. set (w := fam_bits fam) in *. intros Hlt. rewrite Z.min_l in * by lia.
  assert (Hx : 0 <= addr_or fam dflt b < 2 ^ w).
  { unfold addr_or. destruct (fam_parse fam b) eqn:E; cbn; [by apply fam_parse_range in E|done]. }
  set (x := addr_or fam dflt b) in *. unfold net_mask. fold w. rewrite Z.min_l by lia.
  set (mask := if bits =? 0 then 0 else _).
  assert (Hmask : mask = Z.shiftl (Z.ones bits) (w - bits)).
  { unfold mask. rewrite Z.shiftl_mul_pow2 by lia. destruct (Z.eqb_spec bits 0) as [->|]; [done|done]. }
  assert (Hal : Z.land (Z.land x mask) (2 ^ (w - bits) - 1) = 0).
  { rewrite Z.sub_1_r, <-Z.ones_equiv, <-Z.land_assoc, Hmask. apply Z.bits_inj'. intros i Hi.
    rewrite !Z.land_spec, Z.shiftl_spec, Z.bits_0 by done.
    destruct (Z.lt_ge_cases i (w - bits)).
    - rewrite (Z.testbit_neg_r _ (i - (w - bits))) by lia. by rewrite andb_false_r.
    - rewrite (Z.ones_spec_high (w - bits)) by lia. by rewrite !andb_false_r. }
  pose proof (land_le_l x mask (proj1 Hx)) as Hle. split; [lia| |done].
  rewrite Z.sub_1_r, <-Z.ones_equiv, Z.land_ones in Hal by lia.
  pose proof (Z.div_mod (Z.land x mask) (2 ^ (w - bits)) ltac:(apply Z.pow_nonzero; lia)) as Hdiv. rewrite Hal in Hdiv.
  assert (Ew : 2 ^ w = 2 ^ (w - bits) * 2 ^ bits) by (rewrite <-Z.pow_add_r by lia; f_equal; lia).
  assert (Eh : 2 ^ (w - bits) = 2 * 2 ^ (w - bits - 1)) by (rewrite <-Z.pow_succ_r by lia; f_equal; lia).
  fold w. set (q := Z.land x mask / 2 ^ (w - bits)) in *. set (h := 2 ^ (w - bits - 1)) in *.
  rewrite Eh, <-Z.mul_assoc in Ew, Hdiv. lia.
Qed.

(** ** Theorems *)

(** The initial pool, for networks narrower than the whole family. *)
Lemma pool_new_inv v6 `{!FamilyLaws v6} v4cidr v6cidr p0 gw4 gw6 :
  (parse_v4_cidr v4cidr).2 < 32 -> (parse_v6_cidr v6 v6cidr).2 < fam_bits v6 -> 128 <= fam_bits v6 ->
  IpPool_new v6 v4cidr v6cidr = (p0, gw4, gw6) ->
  pool_inv v6 gw4 gw6 p0 [] /\
  parse_v4_cidr v4cidr = (ip_v4_base p0, ip_v4_mask_bits p0) /\ parse_v6_cidr v6 v6cidr = (ip_v6_base p0, ip_v6_mask_bits p0).
Proof.
  intros H4 H6 Hw. unfold IpPool_new.
  pose proof (parse_cidr_net_ok v4_family 167772161 24 v4cidr ltac:(cbn; lia) ltac:(lia) H4) as Hn4.
  assert (Hfd : 0 <= FD00_1 < 2 ^ fam_bits v6).
  { unfold FD00_1. split; [lia|]. apply Z.lt_le_trans with (2 ^ 128); [reflexivity|]. apply Z.pow_le_mono_r; lia. }
  pose proof (parse_cidr_net_ok v6 FD00_1 64 v6cidr Hfd ltac:(lia) H6) as Hn6.
  fold (parse_v4_cidr v4cidr) in Hn4. fold (parse_v6_cidr v6 v6cidr) in Hn6.
  destruct (parse_v4_cidr v4cidr) as [b4 m4]. destruct (parse_v6_cidr v6 v6cidr) as [b6 m6]. cbn [fst snd] in *.
  assert (Hgw : forall fam base m gw, leases_ok fam base m gw {[ gw ]} []).
  { intros. split; [set_solver|set_solver|constructor|constructor]. }
  intros [= <- <- <-]. split; [|done]. split; [done|done|apply Hgw|apply Hgw].
Qed.

(** Addresses neither conflict nor leak: over any sequence of sessions joining
    (with or without requested addresses and MAC bindings) and leaving, the live
    sessions hold pairwise distinct IPv4 and IPv6 addresses of the configured
    networks, never the gateway's, and the pool marks exactly the gateway and the
    live addresses as used. *)
Theorem pool_no_conflict_no_leak v6 `{!FamilyLaws v6} v4cidr v6cidr ops :
  (parse_v4_cidr v4cidr).2 < 32 -> (parse_v6_cidr v6 v6cidr).2 < fam_bits v6 -> 128 <= fam_bits v6 ->
  let '(p0, gw4, gw6) := IpPool_new v6 v4cidr v6cidr in
  let '(p, live) := pool_run v6 (p0, []) ops in
  leases_ok v4_family (parse_v4_cidr v4cidr).1 (parse_v4_cidr v4cidr).2 gw4 (ip_used_v4 p) (ls_v4 <$> live) /\
  leases_ok v6 (parse_v6_cidr v6 v6cidr).1 (parse_v6_cidr v6 v6cidr).2 gw6 (ip_used_v6 p) (ls_v6 <$> live).
Proof.
  intros H4 H6 Hw. destruct (IpPool_new v6 v4cidr v6cidr) as [[p0 gw4] gw6] eqn:E.
  destruct (pool_new_inv _ _ _ _ _ _ H4 H6 Hw E) as (H0 & -> & ->). cbn [fst snd].
  pose proof (pool_run_inv v6 gw4 gw6 ops p0 [] H0) as Hr.
  pose proof (pool_run_keeps v6 ops (p0, [])) as Hkeep. destruct (pool_run v6 (p0, []) ops) as [p live]. cbn in *.
  destruct Hkeep as (E1 & E2 & E3 & E4). destruct Hr as [_ _ Hl4 Hl6]. by rewrite E1, E2 in Hl4; rewrite E3, E4 in Hl6.
Qed.

(** A concrete 128-bit family, for examples: an address is its sixteen bytes. *)
Definition raw_v6 : family :=
  {| fam_bits := 128; fam_print := be_encode 16;
     fam_parse := fun s => if decide (length s = 16%nat /\ bytes_ok s) then Some (be_decode s) else None |}.
#[global] Instance raw_v6_laws : FamilyLaws raw_v6.
Proof.
  split; cbn [raw_v6 fam_bits fam_print fam_parse].
  - lia.
  - intros a Ha. rewrite decide_True by (split; [apply length_be_encode|apply be_encode_bytes]).
    by rewrite be_decode_encode.
  - intros s a. destruct (decide _) as [[Hl Hb]|]; [|done]. intros [= <-]. apply be_decode_bound in Hb. by rewrite Hl in Hb.
  - intros a E. apply (f_equal length) in E. by rewrite length_be_encode in E.
Qed.

Definition demo_v4cidr : text := bytes_of_string "10.0.0.0/29".
Definition demo_joins : list pool_op :=
  [Join [1] [] []; Join [2] (bytes_of_string "10.0.0.5") []; Join [3] (bytes_of_string "10.0.0.1/29") [];
   Leave {| ls_mac := [2]; ls_v4 := bytes_of_string "10.0.0.5"; ls_v6 := be_encode 16 (253 * 2 ^ 120 + 3) |}].
Lemma pool_no_conflict_no_leak_witness :
  let '(p0, gw4, gw6) := IpPool_new raw_v6 demo_v4cidr [] in
  let '(p, live) := pool_run raw_v6 (p0, []) demo_joins in
  leases_ok v4_family 167772160 29 gw4 (ip_used_v4 p) (ls_v4 <$> live) /\
  leases_ok raw_v6 (253 * 2 ^ 120) 64 gw6 (ip_used_v6 p) (ls_v6 <$> live).
Proof.
  apply (pool_no_conflict_no_leak raw_v6 demo_v4cidr [] demo_joins); [reflexivity|reflexivity|discriminate].
Defined.

(** A refusal is real: the IPv4 allocator returns nothing only when every host
    address of the network (outside the .0 and .255 ones it never hands out) is
    taken, and then it changes nothing; the loop ends within its turns. *)
Theorem exhaustion_is_real p req p' :
  net_ok v4_family (ip_v4_base p) (ip_v4_mask_bits p) -> alloc_v4 p req = (p', []) ->
  p' = p /\
  forall x, ip_v4_base p < x < net_broadcast v4_family (ip_v4_base p) (ip_v4_mask_bits p) ->
    Z.land x 255 <> 0 -> Z.land x 255 <> 255 -> u32_to_ip4 x ∈ ip_used_v4 p.
Proof.
  intros Hn. unfold alloc_v4. destruct (alloc _ _ _ _ req) as [u s] eqn:E. intros [= <- ->].
  destruct (alloc_spec _ _ _ _ _ _ _ Hn E) as [(_ & -> & Hall)|(? & _)]; [|done].
  split; [by destruct p|]. exact Hall.
Qed.
Lemma exhaustion_is_real_witness :
  let p := (IpPool_new raw_v6 (bytes_of_string "10.0.0.0/30") []).1.1 in
  let full := (alloc_v4 p []).1 in
  (alloc_v4 full []).1 = full /\
  forall x, 167772160 < x < net_broadcast v4_family 167772160 30 ->
    Z.land x 255 <> 0 -> Z.land x 255 <> 255 -> u32_to_ip4 x ∈ ip_used_v4 full.
Proof.
  apply (exhaustion_is_real (alloc_v4 (IpPool_new raw_v6 (bytes_of_string "10.0.0.0/30") []).1.1 []).1 []
    (alloc_v4 (alloc_v4 (IpPool_new raw_v6 (bytes_of_string "10.0.0.0/30") []).1.1 []).1 []).1).
  - split; vm_compute; split; discriminate || reflexivity.
  - reflexivity.
Defined.

Lemma trim_start_id s : forallb (fun c => negb (is_space c)) s = true -> trim_start s = s.
Proof. destruct s as [|c s]; [done|]. cbn. intros [Hc%negb_true_iff _]%andb_true_iff. by rewrite Hc. Qed.
Lemma trim_id s : forallb (fun c => negb (is_space c)) s = true -> trim s = s.
Proof.
  intros Hs. unfold trim. rewrite (trim_start_id s) by done. rewrite trim_start_id; [apply rev_involutive|].
  apply forallb_forall. intros x Hx. rewrite <-in_rev in Hx. by apply (proj1 (forallb_forall _ _) Hs).
Qed.
Lemma split_once_spaces sep s :
  forallb (fun c => negb (is_space c)) s = true ->
  forallb (fun c => negb (is_space c)) (split_once sep s).1 = true /\
  forall b, (split_once sep s).2 = Some b -> forallb (fun c => negb (is_space c)) b = true.
Proof.
  induction s as [|c s IH]; [done|]. cbn [forallb split_once]. intros [Hc Hs]%andb_true_iff.
  case_match; [split; [done|]; intros b [= <-]; done|].
  destruct (split_once sep s) as [a o]. cbn in *. destruct (IH Hs) as [Ha Ho]. by rewrite Hc, Ha.
Qed.

(** A validated text without white space is parsed, never replaced by a default. *)
Lemma valid_cidr_parsed fam dflt dbits s :
  forallb (fun c => negb (is_space c)) s = true -> is_valid_cidr fam s = true ->
  exists a n, fam_parse fam (split_once SLASH s).1 = Some a /\
    match (split_once SLASH s).2 with Some b => parse_u32 b = Some n /\ n <= fam_bits fam | None => n = dbits end /\
    parse_cidr fam dflt dbits s = (Z.land a (net_mask fam n), Z.min n (fam_bits fam)).
Proof.
  intros Hs. unfold is_valid_cidr, parse_cidr, addr_or. rewrite trim_id by done.
  destruct (split_once_spaces SLASH s Hs) as [Ha Hb].
  destruct s as [|c0 s0] eqn:Es; [done|]. rewrite <-Es in *.
  destruct (split_once SLASH s) as [a [b|]] eqn:E; cbn [fst snd] in *.
  - rewrite (trim_id a), (trim_id b) by auto. destruct (parse_u32 b) as [n|] eqn:En; [|done].
    intros [[x Hx]%bool_decide_eq_true Hn%Z.leb_le]%andb_true_iff. exists x, n. by rewrite Hx.
  - intros [x Hx]%bool_decide_eq_true.
    assert (a = s) as ->.
    { clear -E. revert a E. induction s as [|c s IH]; intros a; cbn [split_once]; [by intros [= <-]|].
      case_match; [done|]. destruct (split_once SLASH s) as [a' o]. intros [= <- ->]. by rewrite (IH a'). }
    exists x, dbits. by rewrite Hx.
Qed.
(** A validated network text without white space is the network that is used:
    when [is_valid_cidr] accepts it, the parser of the pool reads the written address
    and prefix length and does not fall back to a default network.  The restriction
    is needed: validation trims white space around the two parts and the parser does
    not, so the accepted text "192.168.5.0 /24" selects the default 10.0.0.0/24. *)
Theorem valid_cidr_is_honoured fam dflt dbits s :
  (forallb (fun c => negb (is_space c)) s = true -> is_valid_cidr fam s = true ->
   exists a n, fam_parse fam (split_once SLASH s).1 = Some a /\
     match (split_once SLASH s).2 with Some b => parse_u32 b = Some n /\ n <= fam_bits fam | None => n = dbits end /\
     parse_cidr fam dflt dbits s = (Z.land a (net_mask fam n), Z.min n (fam_bits fam))) /\
  is_valid_cidr v4_family (bytes_of_string "192.168.5.0 /24") = true /\
  parse_v4_cidr (bytes_of_string "192.168.5.0 /24") = parse_v4_cidr (bytes_of_string "10.0.0.0/24").
Proof. split; [apply valid_cidr_parsed|]. split; vm_compute; reflexivity. Qed.
Lemma valid_cidr_is_honoured_witness :
  exists a n, fam_parse v4_family (bytes_of_string "192.168.5.0") = Some a /\
    (parse_u32 (bytes_of_string "20") = Some n /\ n <= 32) /\
    parse_v4_cidr (bytes_of_string "192.168.5.0/20") = (Z.land a (net_mask v4_family n), Z.min n 32).
Proof.
  apply (proj1 (valid_cidr_is_honoured v4_family 167772161 24 (bytes_of_string "192.168.5.0/20"))); reflexivity.
Defined.
