(* ===== verification/Brutal.v ===== *)
(** * TCP Brutal: rate shares, parameter codec and socket configuration
      ([src/src/net.rs])

    A session has one rate budget per direction; its connections either join one
    kernel group (TCP Brutal v2) or each shape an equal share of the budget.  The
    socket is the class [BrutalSocketOps]; the texts of error messages are the
    constructors of [brutal_error]. *)
From S2P Require Import Prelude Utils Crypto.

Definition MAX_BRUTAL_RATE_MBPS : Z := 1000000.
Definition BRUTAL_V2_VERSION : Z := 131072.
Definition BRUTAL_CWND_GAIN : Z := 20.
Definition le_decode (l : list Z) : Z := be_decode (rev l).

(** ** Shares of a budget *)

(** [u64::from(index < total % conns)] *)
Definition share (total conns index : Z) : Z :=
  total / conns + if index <? total mod conns then 1 else 0.
Definition split_legacy_brutal_rate (total conns index : Z) : Z :=
  if (total =? 0) || (conns =? 0) || (conns <=? index) then 0 else share total conns index.
(** Mbit/s to bytes per second; the multiplication is on [u64]. *)
Definition mbps_to_bps (mbps : Z) : Z := u64_wrap (mbps * 1000000) / 8.
Definition split_legacy_brutal_rate_bps (total_mbps conns index : Z) : Z :=
  if (total_mbps =? 0) || (conns =? 0) || (conns <=? index) then 0
  else share (mbps_to_bps total_mbps) conns index.

(** ** Parameter block of the socket option *)

Inductive BrutalSockError := Locked | NoVersion | Other.

Definition encode_brutal_params_bps (rate_bps gain : Z) (group_id : option Z) : option (list Z) :=
  if (rate_bps =? 0) || (mbps_to_bps MAX_BRUTAL_RATE_MBPS <? rate_bps) then None
  else Some (le_encode 8 rate_bps ++ le_encode 4 gain ++
             match group_id with Some g => le_encode 8 g | None => [] end).
Definition decode_brutal_params_bps (params : list Z) : option (Z * Z * Z) :=
  if negb (length params =? 12)%nat && negb (length params =? 20)%nat then None
  else Some (le_decode (slice 0 8 params), le_decode (slice 8 12 params),
             if (length params =? 20)%nat then le_decode (slice 12 20 params) else 0).

Section GroupId.
Context `{CryptoPrims}.
Definition brutal_group_id (domain identity : list Z) : Z :=
  let digest := sha256 (bytes_of_string "tlsvpn/brutal/" ++ domain ++ [0] ++ identity) in
  let id := le_decode (take 8 digest) in
  if id =? 0 then 1 else id.
End GroupId.

(** ** Configuring a socket *)

Class BrutalSocketOps := {
  bsock : Type;
  set_congestion : bsock -> list Z -> bsock * result unit BrutalSockError;
  get_congestion : bsock -> result (list Z) BrutalSockError;
  get_version : bsock -> result Z BrutalSockError;
  set_params : bsock -> list Z -> bsock * result unit BrutalSockError;
  get_params : bsock -> nat -> result (list Z) BrutalSockError }.

Inductive brutal_error :=
| NoError | RateOutsideRange | RuleLockedOtherAlgorithm | CongestionFailed (e : BrutalSockError)
| VersionFailed (e : BrutalSockError) | ZeroShare | ParamsOutsideRange | ParamsFailed (e : BrutalSockError)
| LockedUnreadable | ReadbackFailed (e : BrutalSockError).

Record BrutalApplyResult := {
  br_attempted : bool; br_applied : bool; br_rule_managed : bool; br_version : Z; br_rate_bps : Z;
  br_rate_mbps : Z; br_cwnd_gain : Z; br_group_id : Z; br_error : brutal_error }.
Definition BrutalApplyResult_default : BrutalApplyResult :=
  {| br_attempted := false; br_applied := false; br_rule_managed := false; br_version := 0; br_rate_bps := 0;
     br_rate_mbps := 0; br_cwnd_gain := 0; br_group_id := 0; br_error := NoError |}.
(** A configuration attempt that gave up. *)
Definition br_failed (rule_managed : bool) (version : Z) (e : brutal_error) : BrutalApplyResult :=
  {| br_attempted := true; br_applied := false; br_rule_managed := rule_managed; br_version := version;
     br_rate_bps := 0; br_rate_mbps := 0; br_cwnd_gain := BRUTAL_CWND_GAIN; br_group_id := 0; br_error := e |}.

Section Configure.
Context `{BrutalSocketOps}.

Definition BRUTAL : list Z := bytes_of_string "brutal".
Definition current_congestion (s : bsock) : list Z :=
  match get_congestion s with Ok c => c | Err _ => [] end.
(** [if !previous.is_empty() && previous != "brutal" { let _ = ops.set_congestion(&previous); }] *)
Definition restore_congestion (s : bsock) (previous : list Z) : bsock :=
  if bool_decide (previous <> [] /\ previous <> BRUTAL) then (set_congestion s previous).1 else s.

(** The last step: read the parameters back and report. *)
Definition read_back (s : bsock) (version rate_bps group_id : Z) (use_group rule_managed : bool) : BrutalApplyResult :=
  let report rate mbps gain group err :=
    {| br_attempted := true; br_applied := true; br_rule_managed := rule_managed; br_version := version;
       br_rate_bps := rate; br_rate_mbps := mbps; br_cwnd_gain := gain; br_group_id := group; br_error := err |} in
  let actual :=
    match get_params s (if BRUTAL_V2_VERSION <=? version then 20%nat else 12%nat) with
    | Ok p => match decode_brutal_params_bps p with Some a => Ok a | None => Err Other end
    | Err e => Err e
    end in
  match actual with
  | Ok (rate, gain, group) => report rate (u64_wrap (rate * 8) / 1000000) gain group NoError
  | Err Locked =>
      if rule_managed then report 0 0 BRUTAL_CWND_GAIN 0 LockedUnreadable
      else report rate_bps (u64_wrap (rate_bps * 8) / 1000000) BRUTAL_CWND_GAIN (if use_group then group_id else 0)
             (ReadbackFailed Locked)
  | Err e =>
      report rate_bps (u64_wrap (rate_bps * 8) / 1000000) BRUTAL_CWND_GAIN (if use_group then group_id else 0)
        (ReadbackFailed e)
  end.

(** Version known: choose between group and share, write the parameters. *)
Definition apply_params (s : bsock) (previous : list Z) (rule_managed : bool) (version total_rate legacy_rate_bps group_id : Z)
  : bsock * BrutalApplyResult :=
  let use_group := (BRUTAL_V2_VERSION <=? version) && negb (group_id =? 0) in
  let rate_bps := if use_group then mbps_to_bps total_rate else legacy_rate_bps in
  if rate_bps =? 0 then (restore_congestion s previous, br_failed rule_managed version ZeroShare)
  else
    match encode_brutal_params_bps rate_bps BRUTAL_CWND_GAIN (if use_group then Some group_id else None) with
    | None => (s, br_failed rule_managed version ParamsOutsideRange)
    | Some params =>
        match set_params s params with
        | (s, Ok _) => (s, read_back s version rate_bps group_id use_group rule_managed)
        | (s, Err Locked) => (s, read_back s version rate_bps group_id use_group true)
        | (s, Err e) => (restore_congestion s previous, br_failed rule_managed version (ParamsFailed e))
        end
    end.

Definition with_version (s : bsock) (previous : list Z) (rule_managed : bool) (total_rate legacy_rate_bps group_id : Z)
  : bsock * BrutalApplyResult :=
  match get_version s with
  | Ok v => apply_params s previous rule_managed v total_rate legacy_rate_bps group_id
  | Err NoVersion => apply_params s previous rule_managed 0 total_rate legacy_rate_bps group_id
  | Err e => (restore_congestion s previous, br_failed rule_managed 0 (VersionFailed e))
  end.

Definition configure_tcp_brutal (s : bsock) (total_rate legacy_rate_bps group_id : Z) : bsock * BrutalApplyResult :=
  if (total_rate =? 0) || (MAX_BRUTAL_RATE_MBPS <? total_rate) then (s, br_failed false 0 RateOutsideRange)
  else
    let previous := current_congestion s in
    match set_congestion s BRUTAL with
    | (s, Ok _) => with_version s previous false total_rate legacy_rate_bps group_id
    | (s, Err Locked) =>
        if bool_decide (current_congestion s <> BRUTAL) then (s, br_failed false 0 RuleLockedOtherAlgorithm)
        else with_version s previous true total_rate legacy_rate_bps group_id
    | (s, Err e) => (s, br_failed false 0 (CongestionFailed e))
    end.
End Configure.

(** ** Shares *)

Fixpoint Zsum (n : nat) (f : Z -> Z) : Z :=
  match n with O => 0 | S n' => Zsum n' f + f (Z.of_nat n') end.
Lemma Zsum_ext n f g : (forall i, 0 <= i < Z.of_nat n -> f i = g i) -> Zsum n f = Zsum n g.
Proof. induction n as [|n IH]; intros E; [done|]. simpl. rewrite IH, E; [done|lia|]. intros i Hi. apply E. lia. Qed.
Lemma Zsum_step n q r :
  Zsum n (fun i => q + if i <? r then 1 else 0) = Z.of_nat n * q + Z.min (Z.of_nat n) (Z.max 0 r).
Proof. induction n as [|n IH]; [simpl; lia|]. cbn [Zsum]. rewrite IH. case_bools. Qed.
Lemma Zsum_share n total : (0 < n)%nat -> Zsum n (share total (Z.of_nat n)) = total.
Proof. intros Hn. unfold share. rewrite Zsum_step. div_mod total (Z.of_nat n). lia. Qed.
Lemma share_bounds total conns i : 0 < conns -> total / conns <= share total conns i <= total / conns + 1.
Proof. intros. unfold share. case_bools. Qed.

Lemma mbps_to_bps_small mbps : 0 <= mbps <= MAX_BRUTAL_RATE_MBPS -> mbps_to_bps mbps = mbps * 125000.
Proof.
  unfold MAX_BRUTAL_RATE_MBPS, mbps_to_bps, u64_wrap. intros.
  rewrite Z.mod_small by lia. replace (mbps * 1000000) with (mbps * 125000 * 8) by lia. by apply Z.div_mul.
Qed.

(** The legacy shares of the connections of a session add up to exactly the
    negotiated budget, in bytes per second and in Mbit/s, and two shares differ by
    at most one unit, so splitting never exceeds nor wastes the budget. *)
Theorem brutal_shares_conserve (n : nat) (total : Z) :
  (0 < n)%nat -> 0 <= total <= MAX_BRUTAL_RATE_MBPS ->
  Zsum n (split_legacy_brutal_rate_bps total (Z.of_nat n)) = total * 125000 /\
  Zsum n (split_legacy_brutal_rate total (Z.of_nat n)) = total /\
  forall i j, 0 <= i < Z.of_nat n -> 0 <= j < Z.of_nat n ->
    Z.abs (split_legacy_brutal_rate_bps total (Z.of_nat n) i - split_legacy_brutal_rate_bps total (Z.of_nat n) j) <= 1.
Proof.
  intros Hn Ht.
  assert (Hb : forall i, 0 <= i < Z.of_nat n ->
    split_legacy_brutal_rate_bps total (Z.of_nat n) i = share (total * 125000) (Z.of_nat n) i).
  { intros i Hi. unfold split_legacy_brutal_rate_bps. rewrite mbps_to_bps_small by done.
    case_bools; unfold share; rewrite ?Z.mul_0_l, ?Z.div_0_l, ?Z.mod_0_l by lia; case_bools. }
  repeat split.
  - rewrite (Zsum_ext _ _ _ Hb). by apply Zsum_share.
  - rewrite (Zsum_ext _ _ (share total (Z.of_nat n))); [by apply Zsum_share|].
    intros i Hi. unfold split_legacy_brutal_rate.
    case_bools; unfold share; rewrite ?Z.div_0_l, ?Z.mod_0_l by lia; case_bools.
  - intros i j Hi Hj. rewrite !Hb by done.
    pose proof (share_bounds (total * 125000) (Z.of_nat n) i). pose proof (share_bounds (total * 125000) (Z.of_nat n) j). lia.
Qed.
Lemma brutal_shares_conserve_witness :
  Zsum 3 (split_legacy_brutal_rate_bps 10 3) = 1250000 /\ Zsum 3 (split_legacy_brutal_rate 10 3) = 10.
Proof.
  pose proof (brutal_shares_conserve 3 10 ltac:(lia) ltac:(unfold MAX_BRUTAL_RATE_MBPS; lia)) as (H1 & H2 & _).
  by split.
Defined.

(** ** The parameter block *)

Lemma length_le_encode n z : length (le_encode n z) = n.
Proof. unfold le_encode. by rewrite length_rev, length_be_encode. Qed.
#[export] Hint Rewrite length_le_encode : vpnlen.
Lemma le_decode_encode n z : 0 <= z < 256 ^ Z.of_nat n -> le_decode (le_encode n z) = z.
Proof. intros. unfold le_decode, le_encode. rewrite rev_involutive. by apply be_decode_encode. Qed.

Lemma brutal_params_roundtrip rate gain group params :
  is_u64 rate -> is_u32 gain -> (forall g, group = Some g -> is_u64 g) ->
  encode_brutal_params_bps rate gain group = Some params ->
  decode_brutal_params_bps params = Some (rate, gain, default 0 group) /\
  length params = match group with Some _ => 20%nat | None => 12%nat end.
Proof.
  unfold_ints. intros Hr Hg Hgr. unfold encode_brutal_params_bps. case_match; [done|]. intros <-%(inj Some).
  assert (H8 := length_le_encode 8 rate). assert (H4 := length_le_encode 4 gain).
  unfold decode_brutal_params_bps.
  destruct group as [g|]; rewrite !length_app, H8, H4, ?length_le_encode; (split; [|done]); cbn -[slice le_encode le_decode];
    rewrite (slice_app_l _ _ 8), (slice_app_r _ _ 8 12 8), (slice_app_l _ _ 4) by lia;
    rewrite !(le_decode_encode 8 rate), !(le_decode_encode 4 gain) by (cbn; lia); [|done].
  specialize (Hgr g eq_refl). rewrite (slice_app_r _ _ 12 20 8), (slice_app_r _ _ _ _ 4) by lia.
  rewrite <-(app_nil_r (le_encode 8 g)), (slice_app_l _ _ 8) by (by rewrite length_le_encode).
  by rewrite le_decode_encode by (cbn; lia).
Qed.

(** ** Sockets *)

(** A failed option call changes nothing; an algorithm that was set is the one in
    use; the parameters do not touch the algorithm and are read back as written,
    the group of a short block being zero. *)
Class BrutalSocketLaws `{BrutalSocketOps} := {
  set_congestion_ok : forall s c s', set_congestion s c = (s', Ok tt) -> get_congestion s' = Ok c;
  set_congestion_err : forall s c s' e, set_congestion s c = (s', Err e) -> get_congestion s' = get_congestion s;
  set_params_congestion : forall s p, get_congestion (set_params s p).1 = get_congestion s;
  set_params_read : forall s p s' n, set_params s p = (s', Ok tt) -> (length p <= n <= 20)%nat ->
    get_params s' n = Ok (resize0 n p) }.

Section Outcome.
Context `{BrutalSocketLaws}.

(** The socket's previous algorithm can be selected again. *)
Definition reselectable (previous : list Z) : Prop :=
  forall s, exists s', set_congestion s previous = (s', Ok tt).

Lemma restore_spec s previous :
  previous <> [] -> reselectable previous -> current_congestion s = BRUTAL ->
  current_congestion (restore_congestion s previous) = previous.
Proof.
  intros Hne Hr Hc. unfold restore_congestion. case_bool_decide as E.
  - destruct (Hr s) as [s' Hs]. rewrite Hs. cbn. unfold current_congestion. by rewrite (set_congestion_ok _ _ _ Hs).
  - rewrite Hc. destruct (decide (previous = BRUTAL)); [done|]. by destruct E.
Qed.

Lemma read_back_applied s v rate group ug rm : br_applied (read_back s v rate group ug rm) = true.
Proof. unfold read_back. by repeat case_match. Qed.
Lemma read_back_managed s v rate group ug rm : br_rule_managed (read_back s v rate group ug rm) = rm.
Proof. unfold read_back. by repeat case_match. Qed.

(** What a lawful socket reports after the parameters were accepted. *)
Lemma read_back_reports s p s' v rate group ug rm :
  is_u64 rate -> is_u64 group -> set_params s p = (s', Ok tt) ->
  (ug = true -> BRUTAL_V2_VERSION <= v) ->
  encode_brutal_params_bps rate BRUTAL_CWND_GAIN (if ug then Some group else None) = Some p ->
  br_rate_bps (read_back s' v rate group ug rm) = rate /\
  br_group_id (read_back s' v rate group ug rm) = (if ug then group else 0) /\
  br_error (read_back s' v rate group ug rm) = NoError.
Proof.
  intros Hr Hg Hs Hug He.
  assert (Hgain : is_u32 BRUTAL_CWND_GAIN) by (unfold_ints; unfold BRUTAL_CWND_GAIN; lia).
  assert (Hgr : forall g, (if ug then Some group else None) = Some g -> is_u64 g) by (intros g Eg; by destruct ug; simplify_eq).
  destruct (brutal_params_roundtrip _ _ _ _ Hr Hgain Hgr He) as [Hd Hl].
  assert (Hget : exists q, get_params s' (if BRUTAL_V2_VERSION <=? v then 20%nat else 12%nat) = Ok q /\
                           decode_brutal_params_bps q = Some (rate, BRUTAL_CWND_GAIN, if ug then group else 0)).
  { eexists. split.
    - apply (set_params_read _ _ _ _ Hs). rewrite Hl. destruct ug; [specialize (Hug eq_refl)|]; case_bools; lia.
    - destruct ug; cbn in Hl, Hd.
      + specialize (Hug eq_refl). destruct (Z.leb_spec BRUTAL_V2_VERSION v); [|lia].
        unfold resize0. by rewrite take_ge, Hl, app_nil_r by lia.
      + case_bools; unfold resize0; rewrite take_ge, Hl by lia; [|by rewrite app_nil_r].
        unfold decode_brutal_params_bps in Hd |- *. rewrite Hl in Hd. rewrite length_app, length_replicate, Hl. cbn in Hd |- *.
        injection Hd as E1 E2. unfold slice in *. rewrite !drop_app_le, !take_app_le by (rewrite ?length_drop; lia).
        rewrite E1, E2. by rewrite (drop_ge p 12) by lia. }
  destruct Hget as (q & Hq & Hdq). unfold read_back. rewrite Hq, Hdq. done.
Qed.

(** The steps after the algorithm was selected. *)
Lemma apply_params_spec s previous rm v total legacy group s' r :
  is_u64 group -> 0 < total <= MAX_BRUTAL_RATE_MBPS -> 0 <= legacy <= MAX_BRUTAL_RATE_MBPS * 125000 ->
  current_congestion s = BRUTAL -> apply_params s previous rm v total legacy group = (s', r) ->
  (br_applied r = true /\ current_congestion s' = BRUTAL /\
   (br_rule_managed r = false ->
    br_error r = NoError /\
    br_rate_bps r = (if (BRUTAL_V2_VERSION <=? v) && negb (group =? 0) then total * 125000 else legacy) /\
    br_group_id r = (if (BRUTAL_V2_VERSION <=? v) && negb (group =? 0) then group else 0))) \/
  (br_applied r = false /\ exists s1, s' = restore_congestion s1 previous /\ current_congestion s1 = BRUTAL).
Proof.
  intros Hg Ht Hl Hc. unfold apply_params. set (ug := (BRUTAL_V2_VERSION <=? v) && negb (group =? 0)).
  rewrite mbps_to_bps_small by lia. set (rate := if ug then total * 125000 else legacy).
  assert (Hrate : 0 <= rate <= MAX_BRUTAL_RATE_MBPS * 125000) by (unfold rate; destruct ug; lia).
  case_match eqn:Ez; [intros [= <- <-]; right; split; [done|]; by exists s|].
  destruct (encode_brutal_params_bps _ _ _) as [p|] eqn:He; last first.
  { exfalso. unfold encode_brutal_params_bps in He. rewrite Ez, mbps_to_bps_small in He by (unfold MAX_BRUTAL_RATE_MBPS; lia).
    cbn in He. destruct (Z.ltb_spec (MAX_BRUTAL_RATE_MBPS * 125000) rate); [lia|]. discriminate He. }
  destruct (set_params s p) as [s1 o] eqn:Hs.
  assert (Hc1 : current_congestion s1 = BRUTAL).
  { unfold current_congestion in *. pose proof (set_params_congestion s p) as E. rewrite Hs in E. cbn in E. by rewrite E. }
  destruct o as [[]|[]]; intros [= <- <-]; [left|left|right..];
    rewrite ?read_back_applied, ?read_back_managed; [..|by split; [|exists s1]|by split; [|exists s1]].
  - repeat split; [done|..]; eapply (read_back_reports s p); try done;
      unfold MAX_BRUTAL_RATE_MBPS in *; unfold_ints; try lia; intros [?%Z.leb_le _]%andb_true_iff; done.
  - by split; [|split].
Qed.

Definition brutal_outcome (total legacy group : Z) (previous : list Z) (s' : bsock) (r : BrutalApplyResult) : Prop :=
  (br_applied r = true /\ current_congestion s' = BRUTAL /\
   (br_rule_managed r = false ->
    br_error r = NoError /\
    exists v, br_rate_bps r = (if (BRUTAL_V2_VERSION <=? v) && negb (group =? 0) then total * 125000 else legacy) /\
              br_group_id r = (if (BRUTAL_V2_VERSION <=? v) && negb (group =? 0) then group else 0))) \/
  (br_applied r = false /\ current_congestion s' = previous).

Lemma with_version_spec s previous rm total legacy group s' r :
  is_u64 group -> 0 < total <= MAX_BRUTAL_RATE_MBPS -> 0 <= legacy <= MAX_BRUTAL_RATE_MBPS * 125000 ->
  previous <> [] -> reselectable previous -> current_congestion s = BRUTAL ->
  with_version s previous rm total legacy group = (s', r) -> brutal_outcome total legacy group previous s' r.
Proof.
  intros Hg Ht Hl Hne Hre Hc.
  assert (Hgo : forall v, apply_params s previous rm v total legacy group = (s', r) -> brutal_outcome total legacy group previous s' r).
  { intros v E. destruct (apply_params_spec _ _ _ _ _ _ _ _ _ Hg Ht Hl Hc E) as [(Ha & Hb & Hm)|(Ha & s2 & -> & Hc2)].
    - left. split; [done|]. split; [done|]. intros Hrm. destruct (Hm Hrm) as (He & Hr & Hgr). split; [done|]. by exists v.
    - right. split; [done|]. by apply restore_spec. }
  unfold with_version. destruct (get_version s) as [v|[]]; eauto;
    intros [= <- <-]; right; (split; [done|]); by apply restore_spec.
Qed.

(** Configuring a socket either leaves it shaped by TCP Brutal or exactly as it
    was.  On success, unless an administrative rule owns the socket, the kernel
    holds the whole budget with the session's group id when groups are supported
    and this connection's share otherwise, and that rate is what the result
    reports.  On failure the congestion algorithm is the one in use before. *)
Theorem brutal_shapes_or_restores s total legacy group s' r :
  is_u64 group -> 0 <= legacy <= MAX_BRUTAL_RATE_MBPS * 125000 -> 0 <= total ->
  current_congestion s <> [] -> reselectable (current_congestion s) ->
  configure_tcp_brutal s total legacy group = (s', r) ->
  brutal_outcome total legacy group (current_congestion s) s' r.
Proof.
  intros Hg Hl Ht Hne Hre. unfold configure_tcp_brutal. case_match eqn:Er.
  { intros [= <- <-]. by right. }
  apply orb_false_iff in Er as [?%Z.eqb_neq ?%Z.ltb_ge].
  destruct (set_congestion s BRUTAL) as [s1 [[]|e]] eqn:Es.
  - apply with_version_spec; try done; [lia|]. unfold current_congestion. by rewrite (set_congestion_ok _ _ _ Es).
  - pose proof (set_congestion_err _ _ _ _ Es) as E1.
    assert (E2 : current_congestion s1 = current_congestion s) by (unfold current_congestion; by rewrite E1).
    destruct e; [|intros [= <- <-]; right; by split..].
    case_bool_decide as Eb; [intros [= <- <-]; right; by split|]. apply with_version_spec; try done; lia.
Qed.
End Outcome.

(** A socket of a kernel with TCP Brutal v2: algorithm and parameter block. *)
Record demo_socket := { dk_algo : list Z; dk_params : list Z }.
#[local] Instance demo_brutal_ops : BrutalSocketOps := {|
  bsock := demo_socket;
  set_congestion s c := ({| dk_algo := c; dk_params := dk_params s |}, Ok tt);
  get_congestion s := Ok (dk_algo s);
  get_version s := Ok BRUTAL_V2_VERSION;
  set_params s p := ({| dk_algo := dk_algo s; dk_params := p |}, Ok tt);
  get_params s n := Ok (resize0 n (dk_params s)) |}.
#[local] Instance demo_brutal_laws : BrutalSocketLaws.
Proof.
  split; simpl.
  - by intros s c s' [= <-].
  - by intros.
  - done.
  - intros s p s' n [= <-] _. done.
Qed.

Lemma brutal_shapes_or_restores_witness :
  let s := {| dk_algo := bytes_of_string "cubic"; dk_params := [] |} in
  brutal_outcome 10 416667 77 (dk_algo s) (configure_tcp_brutal s 10 416667 77).1 (configure_tcp_brutal s 10 416667 77).2 /\
  br_rate_bps (configure_tcp_brutal s 10 416667 77).2 = 1250000.
Proof.
  intros s. split; [|by vm_compute].
  apply (@brutal_shapes_or_restores demo_brutal_ops demo_brutal_laws s 10 416667 77).
  - unfold_ints; lia.
  - unfold MAX_BRUTAL_RATE_MBPS; lia.
  - lia.
  - done.
  - intros s1. eexists. reflexivity.
  - apply surjective_pairing.
Defined.
