(* ===== verification/PeerInfo.v ===== *)
(** * Diagnostic peer metadata: [src/src/peer_info.rs]

    Texts are UTF-8 byte lists.  [utf8_trim] is [str::trim] with the Unicode
    [White_Space] set, on the encoded form.  The fields of an untrusted peer are
    trimmed and bounded before the session keeps them. *)
From S2P Require Import Prelude Utils.

Definition PEER_INFO_FIELD_MAX : nat := 256.

(** ** UTF-8 *)

Definition is_cont (b : Z) : bool := (128 <=? b) && (b <=? 191).
(** [str::is_char_boundary] inside a valid text. *)
Definition is_char_boundary (s : list Z) (i : nat) : bool :=
  (i =? 0)%nat || (i =? length s)%nat ||
  match s !! i with Some b => negb (is_cont b) | None => false end.

(** Bytes of the character a text starts with, by the table of well-formed sequences. *)
Definition utf8_head (s : list Z) : option nat :=
  match s with
  | b0 :: r =>
      if (0 <=? b0) && (b0 <=? 127) then Some 1%nat
      else if (194 <=? b0) && (b0 <=? 223) then
        match r with b1 :: _ => if is_cont b1 then Some 2%nat else None | _ => None end
      else if (224 <=? b0) && (b0 <=? 239) then
        match r with
        | b1 :: b2 :: _ =>
            if ((if b0 =? 224 then 160 else 128) <=? b1) && (b1 <=? (if b0 =? 237 then 159 else 191)) && is_cont b2
            then Some 3%nat else None
        | _ => None end
      else if (240 <=? b0) && (b0 <=? 244) then
        match r with
        | b1 :: b2 :: b3 :: _ =>
            if ((if b0 =? 240 then 144 else 128) <=? b1) && (b1 <=? (if b0 =? 244 then 143 else 191)) && is_cont b2 && is_cont b3
            then Some 4%nat else None
        | _ => None end
      else None
  | [] => None
  end.
(** A text is a sequence of characters. *)
Inductive utf8 : list Z -> Prop :=
| utf8_nil : utf8 []
| utf8_char n s : utf8_head s = Some n -> utf8 (drop n s) -> utf8 s.

(** The [White_Space] characters in UTF-8. *)
Definition ws_char (c : list Z) : bool :=
  match c with
  | [b] => (b =? 32) || ((9 <=? b) && (b <=? 13))
  | [b0; b1] => (b0 =? 194) && ((b1 =? 133) || (b1 =? 160))
  | [b0; b1; b2] =>
      ((b0 =? 225) && (b1 =? 154) && (b2 =? 128)) ||
      ((b0 =? 226) && (b1 =? 128) && (((128 <=? b2) && (b2 <=? 138)) || (b2 =? 168) || (b2 =? 169) || (b2 =? 175))) ||
      ((b0 =? 226) && (b1 =? 129) && (b2 =? 159)) ||
      ((b0 =? 227) && (b1 =? 128) && (b2 =? 128))
  | _ => false
  end.
(** Length of the white-space character at the start / at the end, if any. *)
Definition ws_head (s : list Z) : option nat :=
  if ws_char (take 1 s) then Some 1%nat else if ws_char (take 2 s) then Some 2%nat
  else if ws_char (take 3 s) then Some 3%nat else None.
Definition take_last (n : nat) (s : list Z) : list Z := drop (length s - n) s.
Definition ws_last (s : list Z) : option nat :=
  if ws_char (take_last 1 s) then Some 1%nat
  else if (2 <=? length s)%nat && ws_char (take_last 2 s) then Some 2%nat
  else if (3 <=? length s)%nat && ws_char (take_last 3 s) then Some 3%nat else None.
Fixpoint utf8_trim_start (fuel : nat) (s : list Z) : list Z :=
  match fuel with
  | O => s
  | S fuel' => match ws_head s with Some n => utf8_trim_start fuel' (drop n s) | None => s end
  end.
Fixpoint utf8_trim_end (fuel : nat) (s : list Z) : list Z :=
  match fuel with
  | O => s
  | S fuel' => match ws_last s with Some n => utf8_trim_end fuel' (take (length s - n) s) | None => s end
  end.
Definition utf8_trim (s : list Z) : list Z :=
  let s := utf8_trim_start (length s) s in utf8_trim_end (length s) s.

(** ** Fields *)

(** [while end > 0 && !trimmed.is_char_boundary(end) { end -= 1; }] *)
Fixpoint boundary_before (s : list Z) (e : nat) : nat :=
  match e with
  | O => O
  | S e' => if is_char_boundary s e then e else boundary_before s e'
  end.
Definition trim_field (value : list Z) : list Z :=
  let trimmed := utf8_trim value in
  if (length trimmed <=? PEER_INFO_FIELD_MAX)%nat then trimmed
  else take (boundary_before trimmed PEER_INFO_FIELD_MAX) trimmed.

Record PeerInfo := {
  pi_implementation : list Z; pi_hostname : list Z; pi_os : list Z; pi_os_version : list Z; pi_kernel : list Z;
  pi_arch : list Z; pi_version : list Z; pi_git_commit : list Z; pi_build_time : list Z }.
Definition normalize_peer_info (i : PeerInfo) : PeerInfo :=
  {| pi_implementation := trim_field (pi_implementation i); pi_hostname := trim_field (pi_hostname i);
     pi_os := trim_field (pi_os i); pi_os_version := trim_field (pi_os_version i);
     pi_kernel := trim_field (pi_kernel i); pi_arch := trim_field (pi_arch i);
     pi_version := trim_field (pi_version i); pi_git_commit := trim_field (pi_git_commit i);
     pi_build_time := trim_field (pi_build_time i) |}.
Definition peer_fields (i : PeerInfo) : list (list Z) :=
  [pi_implementation i; pi_hostname i; pi_os i; pi_os_version i; pi_kernel i; pi_arch i; pi_version i;
   pi_git_commit i; pi_build_time i].

(** ** Local information *)

(** The files read: [None] when a file cannot be read or is not UTF-8. *)
Definition read_trimmed (content : option (list Z)) : option (list Z) :=
  match content with
  | None => None
  | Some v => match utf8_trim v with [] => None | v' => Some v' end
  end.

Fixpoint strip_prefix (prefix s : list Z) : option (list Z) :=
  match prefix, s with
  | [], _ => Some s
  | c :: p, d :: s' => if c =? d then strip_prefix p s' else None
  | _, [] => None
  end.
(** [str::trim_matches(c)] for an ASCII character. *)
Fixpoint skip_char (c : Z) (s : list Z) : list Z :=
  match s with d :: s' => if d =? c then skip_char c s' else s | [] => [] end.
Definition trim_matches (c : Z) (s : list Z) : list Z := rev (skip_char c (rev (skip_char c s))).
Definition PRETTY_NAME : list Z := bytes_of_string "PRETTY_NAME=".
Definition QUOTE : Z := 34.
Fixpoint pretty_name_in (lines : list (list Z)) : option (list Z) :=
  match lines with
  | [] => None
  | line :: rest =>
      match strip_prefix PRETTY_NAME (utf8_trim line) with
      | Some value =>
          match utf8_trim (trim_matches QUOTE (utf8_trim value)) with
          | [] => pretty_name_in rest
          | v => Some v
          end
      | None => pretty_name_in rest
      end
  end.
(** [str::lines]; the line terminators are white space to [trim]. *)
Definition os_release_pretty_name (content : option (list Z)) : option (list Z) :=
  match content with None => None | Some data => pretty_name_in (split_on 10 data) end.

(** ** Boundaries of characters *)

Lemma utf8_head_bound s n : utf8_head s = Some n -> (1 <= n <= 4)%nat /\ (n <= length s)%nat.
Proof. destruct s as [|? [|? [|? [|? ?]]]]; cbn; intros; repeat case_match; simplify_eq; cbn; lia. Qed.
Lemma utf8_head_cont s n i :
  utf8_head s = Some n -> (0 < i < n)%nat -> exists b, s !! i = Some b /\ is_cont b = true.
Proof.
  destruct s as [|? [|? [|? [|? ?]]]]; cbn -[is_cont]; intros Hh Hi; repeat case_match; simplify_eq; try lia;
    repeat match goal with H : _ && _ = true |- _ => apply andb_true_iff in H as [? ?] end;
    destruct i as [|[|[|[|]]]]; try lia; cbn -[is_cont]; eexists; split; try done;
    unfold is_cont; apply andb_true_iff; split; apply Z.leb_le;
    repeat match goal with H : (_ <=? _) = true |- _ => apply Z.leb_le in H end; repeat case_match; lia.
Qed.
Lemma utf8_head_take s n m : utf8_head s = Some n -> (n <= m)%nat -> utf8_head (take m s) = Some n.
Proof.
  destruct s as [|? [|? [|? [|? ?]]]]; destruct m as [|[|[|[|]]]]; cbn; intros; repeat case_match; simplify_eq; try done; lia.
Qed.
Lemma utf8_inv s : utf8 s -> s = [] \/ exists n, utf8_head s = Some n /\ utf8 (drop n s).
Proof. inversion 1; eauto. Qed.

Lemma boundary_drop s n i : (n <= i)%nat -> (0 < n)%nat -> is_char_boundary s i = true -> is_char_boundary (drop n s) (i - n) = true.
Proof.
  unfold is_char_boundary. rewrite length_drop, lookup_drop. intros.
  replace (n + (i - n))%nat with i by lia.
  destruct (Nat.eqb_spec (i - n) 0); [done|]. destruct (Nat.eqb_spec i 0); [lia|]. cbn in *.
  destruct (Nat.eqb_spec i (length s)); [subst; by rewrite Nat.eqb_refl|]. cbn in *.
  destruct (Nat.eqb_spec (i - n) (length s - n)); [done|]. done.
Qed.

(** A text cut at a boundary is two texts. *)
Lemma utf8_split s i : utf8 s -> is_char_boundary s i = true -> utf8 (take i s) /\ utf8 (drop i s).
Proof.
  intros Hs. revert i. induction Hs as [|n s Hh Hd IH]; intros i Hb.
  - rewrite take_nil, drop_nil. split; constructor.
  - destruct (utf8_head_bound _ _ Hh) as [Hn Hl]. destruct (Nat.eq_dec i 0) as [->|Hi].
    + rewrite take_0, drop_0. split; [constructor|by econstructor].
    + destruct (Nat.le_gt_cases n i) as [Hni|Hni].
      * destruct (IH (i - n)%nat) as [H1 H2]; [by apply boundary_drop; [|lia|]|].
        rewrite drop_drop in H2. replace (n + (i - n))%nat with i in H2 by lia. split; [|done].
        apply (utf8_char n); [by apply utf8_head_take|]. by rewrite skipn_firstn_comm.
      * exfalso. destruct (utf8_head_cont s n i Hh ltac:(lia)) as (b & Eb & Hc).
        unfold is_char_boundary in Hb. rewrite Eb, Hc in Hb.
        destruct (Nat.eqb_spec i 0); [lia|]. destruct (Nat.eqb_spec i (length s)) as [->|]; [|done].
        apply lookup_lt_Some in Eb. lia.
Qed.

(** Every position has a boundary at most three bytes before it. *)
Lemma boundary_near s i : utf8 s -> (i <= length s)%nat -> exists j, (j <= i <= j + 3)%nat /\ is_char_boundary s j = true.
Proof.
  intros Hs. revert i. induction Hs as [|n s Hh Hd IH]; intros i Hi.
  - exists 0%nat. cbn in *. split; [lia|done].
  - destruct (utf8_head_bound _ _ Hh) as [Hn Hl]. destruct (Nat.le_gt_cases n i) as [Hni|Hni]; [|exists 0%nat; split; [lia|done]].
    destruct (IH (i - n)%nat) as (j & Hj & Hb); [rewrite length_drop; lia|]. exists (n + j)%nat. split; [lia|].
    unfold is_char_boundary in *. rewrite length_drop, lookup_drop in Hb.
    destruct (Nat.eqb_spec (n + j) 0); [done|]. destruct (Nat.eqb_spec (n + j) (length s)); [done|]. cbn.
    destruct (Nat.eqb_spec j (length s - n)); [lia|]. destruct (Nat.eqb_spec j 0) as [->|]; [|done].
    rewrite Nat.add_0_r. destruct (utf8_inv _ Hd) as [E|(m & Hm & _)].
    { apply (f_equal length) in E. rewrite length_drop in E. cbn in E. lia. }
    destruct (drop n s) as [|b r] eqn:Ed; [done|]. assert (Eb : s !! n = Some b) by (by rewrite <-(Nat.add_0_r n), <-lookup_drop, Ed).
    rewrite Eb. cbn in Hm. unfold is_cont. apply negb_true_iff, andb_false_iff. rewrite !Z.leb_gt.
    repeat case_match; simplify_eq; repeat match goal with H : _ && _ = true |- _ => apply andb_true_iff in H as [? ?] end;
      repeat match goal with H : (_ <=? _) = true |- _ => apply Z.leb_le in H end; lia.
Qed.

Lemma boundary_before_le s e : (boundary_before s e <= e)%nat.
Proof. induction e as [|e IH]; [done|]. cbn [boundary_before]. case_match; lia. Qed.
Lemma boundary_before_spec s e : is_char_boundary s (boundary_before s e) = true.
Proof. induction e as [|e IH]; [done|]. cbn [boundary_before]. by case_match. Qed.
Lemma boundary_before_near s e j : (j <= e)%nat -> is_char_boundary s j = true -> (j <= boundary_before s e)%nat.
Proof.
  induction e as [|e IH]; intros Hj Hb; [cbn; lia|]. cbn [boundary_before]. case_match eqn:E; [lia|].
  apply IH; [|done]. destruct (Nat.eq_dec j (S e)) as [->|]; [by rewrite Hb in E|lia].
Qed.

(** ** White space *)

Lemma ws_char_head c r : ws_char c = true -> utf8_head (c ++ r) = Some (length c).
Proof.
  destruct c as [|b0 [|b1 [|b2 [|]]]]; cbn; try done; intros H;
    repeat match goal with
    | H : _ || _ = true |- _ => apply orb_true_iff in H as [H|H]
    | H : _ && _ = true |- _ => apply andb_true_iff in H as [? ?] end;
    repeat match goal with H : (_ =? _) = true |- _ => apply Z.eqb_eq in H as -> | H : (_ <=? _) = true |- _ => apply Z.leb_le in H end;
    cbn; try done; unfold is_cont; case_bools; done.
Qed.
Lemma ws_char_boundary s n : ws_char (take_last n s) = true -> is_char_boundary s (length s - n) = true.
Proof.
  unfold take_last, is_char_boundary. intros Hw. set (i := (length s - n)%nat) in *.
  destruct (drop i s) as [|b r] eqn:Ed; [done|].
  assert (Eb : s !! i = Some b) by (by rewrite <-(Nat.add_0_r i), <-lookup_drop, Ed). rewrite Eb.
  apply orb_true_iff. right. apply negb_true_iff. unfold is_cont. apply andb_false_iff. rewrite !Z.leb_gt.
  destruct r as [|? [|? [|]]]; cbn in Hw; try done;
    repeat match goal with
    | H : _ || _ = true |- _ => apply orb_true_iff in H as [H|H]
    | H : _ && _ = true |- _ => apply andb_true_iff in H as [? ?] end;
    repeat match goal with H : (_ =? _) = true |- _ => apply Z.eqb_eq in H | H : (_ <=? _) = true |- _ => apply Z.leb_le in H end; lia.
Qed.

Lemma utf8_trim_start_ok fuel s : utf8 s -> utf8 (utf8_trim_start fuel s).
Proof.
  revert s. induction fuel as [|fuel IH]; intros s Hs; [done|]. cbn [utf8_trim_start].
  destruct (ws_head s) as [n|] eqn:En; [|done]. apply IH.
  assert (Hw : exists m, ws_char (take m s) = true /\ length (take m s) = n).
  { unfold ws_head in En. destruct s as [|? [|? [|? ?]]]; cbn -[ws_char] in En |- *; repeat case_match; simplify_eq; try discriminate;
      match goal with H : ws_char ?l = true |- _ => exists (length l); by split end. }
  destruct Hw as (m & Hw & Hl). pose proof (ws_char_head _ (drop m s) Hw) as Hh. rewrite take_drop, Hl in Hh.
  destruct (utf8_inv _ Hs) as [->|(k & Hk & Hd)]; [by rewrite drop_nil|]. by simplify_eq.
Qed.
Lemma utf8_trim_end_ok fuel s : utf8 s -> utf8 (utf8_trim_end fuel s).
Proof.
  revert s. induction fuel as [|fuel IH]; intros s Hs; [done|]. cbn [utf8_trim_end].
  destruct (ws_last s) as [n|] eqn:En; [|done]. apply IH.
  apply utf8_split; [done|]. apply ws_char_boundary.
  unfold ws_last in En. repeat case_match; simplify_eq; try done;
    repeat match goal with H : _ && _ = true |- _ => apply andb_true_iff in H as [? ?] end; done.
Qed.

Lemma trim_field_ok v : utf8 v -> utf8 (trim_field v) /\ (length (trim_field v) <= PEER_INFO_FIELD_MAX)%nat.
Proof.
  intros Hv. assert (Ht : utf8 (utf8_trim v)) by (by apply utf8_trim_end_ok, utf8_trim_start_ok).
  unfold trim_field. destruct (Nat.leb_spec (length (utf8_trim v)) PEER_INFO_FIELD_MAX); [done|].
  split; [apply utf8_split; [done|apply boundary_before_spec]|].
  rewrite length_take. pose proof (boundary_before_le (utf8_trim v) PEER_INFO_FIELD_MAX). lia.
Qed.

(** Normalising the metadata of an untrusted peer keeps every field valid
    UTF-8 of at most 256 bytes, a prefix of the trimmed input, and cuts a longer
    field by no more than the three bytes a character may straddle the limit. *)
Theorem peer_info_bounded i :
  Forall utf8 (peer_fields i) ->
  Forall2 (fun v f => utf8 f /\ (length f <= PEER_INFO_FIELD_MAX)%nat /\ f `prefix_of` utf8_trim v /\
                      (Nat.min (length (utf8_trim v)) (PEER_INFO_FIELD_MAX - 3) <= length f)%nat)
    (peer_fields i) (peer_fields (normalize_peer_info i)).
Proof.
  intros Hi. change (peer_fields (normalize_peer_info i)) with (trim_field <$> peer_fields i).
  apply Forall2_fmap_r, Forall_Forall2_diag. eapply Forall_impl; [exact Hi|].
  intros v Hv. destruct (trim_field_ok v Hv) as [H1 H2]. split; [done|]. split; [done|].
  assert (Ht : utf8 (utf8_trim v)) by (by apply utf8_trim_end_ok, utf8_trim_start_ok).
  unfold trim_field. destruct (Nat.leb_spec (length (utf8_trim v)) PEER_INFO_FIELD_MAX); [split; [done|lia]|].
  split; [apply prefix_take|]. rewrite length_take.
  destruct (boundary_near _ PEER_INFO_FIELD_MAX Ht ltac:(lia)) as (j & Hj & Hb).
  pose proof (boundary_before_near _ PEER_INFO_FIELD_MAX j ltac:(lia) Hb). lia.
Qed.
Definition demo_peer : PeerInfo :=
  {| pi_implementation := bytes_of_string "go"; pi_hostname := bytes_of_string "  node-a "; pi_os := [];
     pi_os_version := [231; 149; 140; 194; 160; 32]; pi_kernel := []; pi_arch := []; pi_version := [];
     pi_git_commit := []; pi_build_time := [] |}.
Lemma peer_info_bounded_witness :
  pi_hostname (normalize_peer_info demo_peer) = bytes_of_string "node-a" /\
  pi_os_version (normalize_peer_info demo_peer) = [231; 149; 140] /\
  Forall2 (fun v f => utf8 f /\ (length f <= PEER_INFO_FIELD_MAX)%nat /\ f `prefix_of` utf8_trim v /\
                      (Nat.min (length (utf8_trim v)) (PEER_INFO_FIELD_MAX - 3) <= length f)%nat)
    (peer_fields demo_peer) (peer_fields (normalize_peer_info demo_peer)).
Proof.
  split; [by vm_compute|]. split; [by vm_compute|]. apply (peer_info_bounded demo_peer).
  repeat constructor; repeat (eapply utf8_char; [reflexivity|cbn]); apply utf8_nil.
Defined.
