(* ===== verification/Session.v ===== *)
(** * Server sessions: handshake, resume tokens, key epochs, retention and
      destruction ([src/src/server.rs], [BanList] of [src/src/api.rs])

    A [ClientSession] is shared by the table and by the connections attached to
    it, so sessions live in a heap and the table, like every connection, holds a
    reference; [Arc::ptr_eq] is equality of references.  The JSON codec, the UUID
    library, the random source and the outcome of writing the response are inputs.
    Client identifiers are [string]s, every other text a byte list.  Instants are
    milliseconds. *)
From stdpp Require Import pretty.
From S2P Require Import Prelude Protocol Utils Crypto Xor Fec Buffer Reorder RxActor Adaptive Queue Port VSwitch Pool Brutal PeerInfo.

(** ** The ban list *)

(** Client identifier to the expiry in Unix milliseconds, zero for ever. *)
Definition BanList : Type := gmap string Z.
Definition ban (l : BanList) (now : Z) (client_id : string) (ttl_minutes : Z) : BanList * bool :=
  if decide (client_id = EmptyString) then (l, false)
  else
    let exp := if ttl_minutes <=? 0 then 0 else i64_wrap (now + i64_wrap (ttl_minutes * 60 * 1000)) in
    ((<[client_id := exp]> (l : gmap string Z)) : BanList, true).
Definition unban (l : BanList) (client_id : string) : BanList := delete client_id (l : gmap string Z).
Definition is_banned (l : BanList) (now : Z) (client_id : string) : BanList * bool :=
  if decide (client_id = EmptyString) then (l, false)
  else
    match (l : gmap string Z) !! client_id with
    | None => (l, false)
    | Some exp => if (0 <? exp) && (exp <=? now) then (delete client_id (l : gmap string Z), false) else (l, true)
    end.
Definition ban_snapshot (l : BanList) (now : Z) : BanList * gmap string Z :=
  let l' := filter (fun e : string * Z => e.2 = 0 \/ now < e.2) (l : gmap string Z) in
  (l', (fun exp => if exp =? 0 then 0 else Z.quot (exp - now) 1000) <$> l').

(** ** Messages *)

Record HandshakeReq := {
  rq_protocol_version : Z; rq_client_instance : list Z; rq_conn_id : list Z; rq_client_id : string;
  rq_psk : list Z; rq_mac : list Z; rq_ipv4 : list Z; rq_ipv6 : list Z;
  rq_brutal_groups : bool; rq_brutal_total_tx : Z; rq_brutal_total_rx : Z; rq_brutal_conns : Z;
  rq_brutal_conn_index : Z; rq_fec : bool; rq_fec_group : Z; rq_encrypt : bool; rq_enc_algo : Z;
  rq_session_token : list Z; rq_peer_info : option PeerInfo }.

Record HandshakeResp := {
  rs_protocol_version : Z; rs_session_epoch : Z; rs_success : bool; rs_session_id : list Z; rs_client_id : string;
  rs_ipv4 : list Z; rs_ipv6 : list Z; rs_gw_v4 : list Z; rs_gw_v6 : list Z;
  rs_brutal_groups : bool; rs_brutal_total_tx : Z; rs_brutal_total_rx : Z; rs_fec : bool; rs_fec_group : Z;
  rs_encrypt : bool; rs_enc_algo : Z; rs_enc_salt : list Z; rs_enc_salt2 : list Z; rs_session_token : list Z }.

Inductive HandshakeOutcome := HOk | HClose | HTarpitClose.

(** The UUID library: parsing, and the name-based constructors. *)
Class UuidLib := {
  uuid_parse : list Z -> option (list Z);
  uuid_url : list Z;
  uuid_v3 : list Z -> list Z -> list Z;
  uuid_v5 : list Z -> list Z -> list Z }.

(** What one handshake draws from the random source; [None] is a failing source. *)
Record entropy := {
  en_salt_a : list Z; en_salt_b : list Z; en_token : option (list Z); en_session_id : list Z }.

Definition normalize_max_sessions (n : Z) : Z := if n =? 0 then 1024 else n.
Definition src_mac_allowed (registered : option mac) (m : mac) : bool :=
  match registered with
  | Some r => if decide (r = null_mac) then true else bool_decide (r = m)
  | None => true
  end.

Section Server.
Context `{FrameChannel} `{CryptoPrims} `{HexCodec} `{UuidLib} `{BrutalSocketOps}.
Context (v6 : family).

(** ** Sessions *)

Record SessionEpochState := {
  es_instance_id : list Z;
  es_epoch : Z;
  es_resume_token : list Z;
  es_pending_resume_token : list Z;
  es_enc_algo : Z;
  es_salt_a : list Z;
  es_salt_b : list Z;
  es_ic_tx : option InnerCipher;
  es_ic_rx : option InnerCipher;
  es_fec_dec : option FecDecoder }.

(** The counters of [ClientStat] that steer the session. *)
Record ClientStat := {
  st_client_id : string;
  st_active_conns : Z;
  st_disconnect_version : Z;
  st_force_disconnect : bool;
  st_fec_recovered_lifetime : Z;
  st_fec_lost_lifetime : Z }.
Definition ClientStat_new (id : string) : ClientStat :=
  {| st_client_id := id; st_active_conns := 0; st_disconnect_version := 0; st_force_disconnect := false;
     st_fec_recovered_lifetime := 0; st_fec_lost_lifetime := 0 |}.
Definition st_set_active (st : ClientStat) (n : Z) : ClientStat :=
  {| st_client_id := st_client_id st; st_active_conns := n; st_disconnect_version := st_disconnect_version st;
     st_force_disconnect := st_force_disconnect st; st_fec_recovered_lifetime := st_fec_recovered_lifetime st;
     st_fec_lost_lifetime := st_fec_lost_lifetime st |}.

Record ClientSession := {
  cs_session_id : list Z;
  cs_stat : ClientStat;
  cs_port : AsyncPort;
  cs_reorder_buf : ReorderBuffer;
  cs_dedup : DeDuplicator;
  cs_rx_actor : option RxActorState;
  cs_fec_enc_k : Z;
  cs_mac : list Z;
  cs_peer_info : option PeerInfo;
  cs_mac_bin : mac;
  cs_ipv4 : list Z;
  cs_ipv6 : list Z;
  cs_epoch_state : SessionEpochState;
  cs_destroy_deadline : option (Z * Z);
  cs_brutal_tx : Z;
  cs_brutal_rx : Z;
  cs_brutal_applied_conns : Z;
  cs_brutal_error : brutal_error }.

(** Functional updates, one per group of fields that change together. *)
Definition cs_set_stat (s : ClientSession) (st : ClientStat) (deadline : option (Z * Z)) : ClientSession :=
  {| cs_session_id := cs_session_id s; cs_stat := st; cs_port := cs_port s; cs_reorder_buf := cs_reorder_buf s;
     cs_dedup := cs_dedup s; cs_rx_actor := cs_rx_actor s; cs_fec_enc_k := cs_fec_enc_k s; cs_mac := cs_mac s;
     cs_peer_info := cs_peer_info s; cs_mac_bin := cs_mac_bin s; cs_ipv4 := cs_ipv4 s; cs_ipv6 := cs_ipv6 s;
     cs_epoch_state := cs_epoch_state s; cs_destroy_deadline := deadline; cs_brutal_tx := cs_brutal_tx s;
     cs_brutal_rx := cs_brutal_rx s; cs_brutal_applied_conns := cs_brutal_applied_conns s;
     cs_brutal_error := cs_brutal_error s |}.
Definition cs_set_epoch (s : ClientSession) (e : SessionEpochState) : ClientSession :=
  {| cs_session_id := cs_session_id s; cs_stat := cs_stat s; cs_port := cs_port s; cs_reorder_buf := cs_reorder_buf s;
     cs_dedup := cs_dedup s; cs_rx_actor := cs_rx_actor s; cs_fec_enc_k := cs_fec_enc_k s; cs_mac := cs_mac s;
     cs_peer_info := cs_peer_info s; cs_mac_bin := cs_mac_bin s; cs_ipv4 := cs_ipv4 s; cs_ipv6 := cs_ipv6 s;
     cs_epoch_state := e; cs_destroy_deadline := cs_destroy_deadline s; cs_brutal_tx := cs_brutal_tx s;
     cs_brutal_rx := cs_brutal_rx s; cs_brutal_applied_conns := cs_brutal_applied_conns s;
     cs_brutal_error := cs_brutal_error s |}.
Definition cs_set_port (s : ClientSession) (p : AsyncPort) : ClientSession :=
  {| cs_session_id := cs_session_id s; cs_stat := cs_stat s; cs_port := p; cs_reorder_buf := cs_reorder_buf s;
     cs_dedup := cs_dedup s; cs_rx_actor := cs_rx_actor s; cs_fec_enc_k := cs_fec_enc_k s; cs_mac := cs_mac s;
     cs_peer_info := cs_peer_info s; cs_mac_bin := cs_mac_bin s; cs_ipv4 := cs_ipv4 s; cs_ipv6 := cs_ipv6 s;
     cs_epoch_state := cs_epoch_state s; cs_destroy_deadline := cs_destroy_deadline s; cs_brutal_tx := cs_brutal_tx s;
     cs_brutal_rx := cs_brutal_rx s; cs_brutal_applied_conns := cs_brutal_applied_conns s;
     cs_brutal_error := cs_brutal_error s |}.
Definition cs_set_rx (s : ClientSession) (rb : ReorderBuffer) (dd : DeDuplicator) (actor : option RxActorState) : ClientSession :=
  {| cs_session_id := cs_session_id s; cs_stat := cs_stat s; cs_port := cs_port s; cs_reorder_buf := rb;
     cs_dedup := dd; cs_rx_actor := actor; cs_fec_enc_k := cs_fec_enc_k s; cs_mac := cs_mac s;
     cs_peer_info := cs_peer_info s; cs_mac_bin := cs_mac_bin s; cs_ipv4 := cs_ipv4 s; cs_ipv6 := cs_ipv6 s;
     cs_epoch_state := cs_epoch_state s; cs_destroy_deadline := cs_destroy_deadline s; cs_brutal_tx := cs_brutal_tx s;
     cs_brutal_rx := cs_brutal_rx s; cs_brutal_applied_conns := cs_brutal_applied_conns s;
     cs_brutal_error := cs_brutal_error s |}.
Definition es_set_fec_dec (e : SessionEpochState) (d : option FecDecoder) : SessionEpochState :=
  {| es_instance_id := es_instance_id e; es_epoch := es_epoch e; es_resume_token := es_resume_token e;
     es_pending_resume_token := es_pending_resume_token e; es_enc_algo := es_enc_algo e; es_salt_a := es_salt_a e;
     es_salt_b := es_salt_b e; es_ic_tx := es_ic_tx e; es_ic_rx := es_ic_rx e; es_fec_dec := d |}.
(** The decoder is shared: every holder sees its new state. *)
Definition cs_set_dec (s : ClientSession) (d : option FecDecoder) : ClientSession :=
  cs_set_epoch s (es_set_fec_dec (cs_epoch_state s) d).
Definition cs_set_peer (s : ClientSession) (info : option PeerInfo) : ClientSession :=
  {| cs_session_id := cs_session_id s; cs_stat := cs_stat s; cs_port := cs_port s; cs_reorder_buf := cs_reorder_buf s;
     cs_dedup := cs_dedup s; cs_rx_actor := cs_rx_actor s; cs_fec_enc_k := cs_fec_enc_k s; cs_mac := cs_mac s;
     cs_peer_info := info; cs_mac_bin := cs_mac_bin s; cs_ipv4 := cs_ipv4 s; cs_ipv6 := cs_ipv6 s;
     cs_epoch_state := cs_epoch_state s; cs_destroy_deadline := cs_destroy_deadline s; cs_brutal_tx := cs_brutal_tx s;
     cs_brutal_rx := cs_brutal_rx s; cs_brutal_applied_conns := cs_brutal_applied_conns s;
     cs_brutal_error := cs_brutal_error s |}.
Definition cs_set_brutal (s : ClientSession) (tx rx applied : Z) (e : brutal_error) : ClientSession :=
  {| cs_session_id := cs_session_id s; cs_stat := cs_stat s; cs_port := cs_port s; cs_reorder_buf := cs_reorder_buf s;
     cs_dedup := cs_dedup s; cs_rx_actor := cs_rx_actor s; cs_fec_enc_k := cs_fec_enc_k s; cs_mac := cs_mac s;
     cs_peer_info := cs_peer_info s; cs_mac_bin := cs_mac_bin s; cs_ipv4 := cs_ipv4 s; cs_ipv6 := cs_ipv6 s;
     cs_epoch_state := cs_epoch_state s; cs_destroy_deadline := cs_destroy_deadline s; cs_brutal_tx := tx;
     cs_brutal_rx := rx; cs_brutal_applied_conns := applied; cs_brutal_error := e |}.

(** Recovered and lost frames over the life of the session, reorder counters, bypass. *)
Definition rx_runtime_snapshot (s : ClientSession) : Z * Z * ReorderStats * bool :=
  match cs_rx_actor s with
  | Some actor =>
      let snap := snapshot actor in
      (u64_sat_add (st_fec_recovered_lifetime (cs_stat s)) (sn_recovered snap),
       u64_sat_add (st_fec_lost_lifetime (cs_stat s)) (sn_lost snap), sn_reorder snap, sn_fec_bypass snap)
  | None =>
      let '(r, l, bypass) :=
        match es_fec_dec (cs_epoch_state s) with
        | Some dec => (fi_recovered (fd_inner dec), fi_lost (fd_inner dec), bypass_snapshot dec)
        | None => (0, 0, false)
        end in
      (u64_sat_add (st_fec_recovered_lifetime (cs_stat s)) r,
       u64_sat_add (st_fec_lost_lifetime (cs_stat s)) l, rb_stats (cs_reorder_buf s), bypass)
  end.

(** ** Resume tokens *)

Definition valid_session_token_format (token : list Z) : bool :=
  (length token =? 64)%nat &&
  match hex_decode token with Some raw => (length raw =? 32)%nat | None => false end.

Definition es_set_tokens (e : SessionEpochState) (current pending : list Z) : SessionEpochState :=
  {| es_instance_id := es_instance_id e; es_epoch := es_epoch e; es_resume_token := current;
     es_pending_resume_token := pending; es_enc_algo := es_enc_algo e; es_salt_a := es_salt_a e;
     es_salt_b := es_salt_b e; es_ic_tx := es_ic_tx e; es_ic_rx := es_ic_rx e; es_fec_dec := es_fec_dec e |}.
Definition is_nil {A} (l : list A) : bool := match l with [] => true | _ => false end.

(** [!pending.is_empty() && verify(pending, presented)] *)
Definition pending_matches (e : SessionEpochState) (presented : list Z) : bool :=
  negb (is_nil (es_pending_resume_token e)) && verify_random_session_token (es_pending_resume_token e) presented.
(** The pending token becomes the current one. *)
Definition promote_pending (e : SessionEpochState) : SessionEpochState :=
  es_set_tokens e (es_pending_resume_token e) [].

Definition accept_session_resume_token (e : SessionEpochState) (presented : list Z) : SessionEpochState * bool :=
  if verify_random_session_token (es_resume_token e) presented then (e, true)
  else if pending_matches e presented then (promote_pending e, true)
  else (e, false).
Definition ensure_pending_resume_token (e : SessionEpochState) (fresh : option (list Z)) : option SessionEpochState :=
  if is_nil (es_pending_resume_token e)
  then match fresh with Some t => Some (es_set_tokens e (es_resume_token e) t) | None => None end
  else Some e.
Definition response_resume_token (e : SessionEpochState) : list Z :=
  if is_nil (es_pending_resume_token e) then es_resume_token e else es_pending_resume_token e.
Definition response_enc_salts (enc_algo : Z) (salt_a salt_b : list Z) : list Z * list Z :=
  if negb (is_inner_aead_algo enc_algo) then ([], []) else (hex_encode salt_a, hex_encode salt_b).

(** ** The server *)

(** The part of [ServerCore] that never changes. *)
Record ServerConf := {
  sc_psk : list Z; sc_psk_hash : list Z; sc_encrypt : bool; sc_enc_algo : Z; sc_min_enc : Z;
  sc_brutal : bool; sc_brutal_up : Z; sc_brutal_down : Z; sc_max_sessions : Z;
  sc_fec_group_min : Z; sc_fec_group_max : Z; sc_gw_v4 : list Z; sc_gw_v6 : list Z;
  sc_v4_mask_bits : Z; sc_v6_mask_bits : Z;
  (** [port_dispatch_enabled()] and the batch size of the receive actor *)
  sc_port_dispatch : bool; sc_rx_batch : nat }.

Record ServerCore := {
  sv_heap : gmap nat ClientSession;
  sv_next : nat;
  sv_sessions : gmap string nat;
  sv_registry : gmap string nat;
  sv_vswitch : VSwitch;
  sv_pool : IpPool;
  sv_banned : BanList;
  sv_fec_recovered_retired : Z;
  sv_fec_lost_retired : Z }.

(** The source check [start_server] installs: a session's port may only claim the
    session's MAC.  The closure reads the table at the time of the call. *)
Definition session_mac (c : ServerCore) (id : string) : option mac := cs_mac_bin <$> (sv_sessions c !! id ≫= (sv_heap c !!.)).
Definition validate_src (c : ServerCore) (src : string) (m : mac) : bool := src_mac_allowed (session_mac c src) m.

(** [start_server]: no sessions and the gateways reserved. *)
Definition ServerCore_new (v4cidr v6cidr : list Z) : ServerCore :=
  {| sv_heap := ∅; sv_next := 0; sv_sessions := ∅; sv_registry := ∅; sv_vswitch := VSwitch_new;
     sv_pool := (IpPool_new v6 v4cidr v6cidr).1.1; sv_banned := ∅; sv_fec_recovered_retired := 0; sv_fec_lost_retired := 0 |}.

Definition sv_set_heap (c : ServerCore) (h : gmap nat ClientSession) : ServerCore :=
  {| sv_heap := h; sv_next := sv_next c; sv_sessions := sv_sessions c; sv_registry := sv_registry c;
     sv_vswitch := sv_vswitch c; sv_pool := sv_pool c; sv_banned := sv_banned c;
     sv_fec_recovered_retired := sv_fec_recovered_retired c; sv_fec_lost_retired := sv_fec_lost_retired c |}.
Definition sv_set_banned (c : ServerCore) (b : BanList) : ServerCore :=
  {| sv_heap := sv_heap c; sv_next := sv_next c; sv_sessions := sv_sessions c; sv_registry := sv_registry c;
     sv_vswitch := sv_vswitch c; sv_pool := sv_pool c; sv_banned := b;
     sv_fec_recovered_retired := sv_fec_recovered_retired c; sv_fec_lost_retired := sv_fec_lost_retired c |}.
Definition sv_set_pool (c : ServerCore) (p : IpPool) : ServerCore :=
  {| sv_heap := sv_heap c; sv_next := sv_next c; sv_sessions := sv_sessions c; sv_registry := sv_registry c;
     sv_vswitch := sv_vswitch c; sv_pool := p; sv_banned := sv_banned c;
     sv_fec_recovered_retired := sv_fec_recovered_retired c; sv_fec_lost_retired := sv_fec_lost_retired c |}.
Definition sv_put (c : ServerCore) (r : nat) (s : ClientSession) : ServerCore :=
  sv_set_heap c (<[r := s]> (sv_heap c)).

(** *** Key epochs *)

Record epoch_ciphers := {
  ec_tx : option InnerCipher; ec_rx : option InnerCipher; ec_fec_tx : option InnerCipher; ec_fec_rx : option InnerCipher }.
(** Data and FEC ciphers of both directions: the server sends with salt B. *)
Definition make_ciphers (conf : ServerConf) (salt_a salt_b : list Z) (algo : Z) : result epoch_ciphers cipher_error :=
  if sc_encrypt conf then
    tx <-? for_algo (sc_psk conf) salt_b algo;
    rx <-? for_algo (sc_psk conf) salt_a algo;
    ftx <-? domain_for_algo (sc_psk conf) salt_b DOMAIN_FEC algo;
    frx <-? domain_for_algo (sc_psk conf) salt_a DOMAIN_FEC algo;
    Ok {| ec_tx := Some tx; ec_rx := Some rx; ec_fec_tx := Some ftx; ec_fec_rx := Some frx |}
  else Ok {| ec_tx := None; ec_rx := None; ec_fec_tx := None; ec_fec_rx := None |}.

(** The receive side starts clean under the new keys: the actor is reconfigured, a
    session without one folds its decoder's counters and clears its own buffers. *)
Definition reset_rx (s : ClientSession) (fec_rx : option InnerCipher) : ClientSession :=
  let k := cs_fec_enc_k s in
  match cs_rx_actor s with
  | Some actor =>
      cs_set_rx s (cs_reorder_buf s) (cs_dedup s)
        (Some (reconfigure actor (if 0 <? k then Some (FecDecoder_new k fec_rx) else None)))
  | None =>
      let st := cs_stat s in
      let st := match es_fec_dec (cs_epoch_state s) with
                | Some old =>
                    {| st_client_id := st_client_id st; st_active_conns := st_active_conns st;
                       st_disconnect_version := st_disconnect_version st; st_force_disconnect := st_force_disconnect st;
                       st_fec_recovered_lifetime := u64_wrap (st_fec_recovered_lifetime st + fi_recovered (fd_inner old));
                       st_fec_lost_lifetime := u64_wrap (st_fec_lost_lifetime st + fi_lost (fd_inner old)) |}
                | None => st end in
      cs_set_rx (cs_set_stat s st (cs_destroy_deadline s))
        (ReorderBuffer_reset (cs_reorder_buf s)) (DeDuplicator_reset (cs_dedup s)) None
  end.

Definition rotate_session_epoch (conf : ServerConf) (s : ClientSession) (instance_id salt_a salt_b : list Z)
  : result ClientSession cipher_error :=
  let e := cs_epoch_state s in
  ciphers <-? make_ciphers conf salt_a salt_b (es_enc_algo e);
  let k := cs_fec_enc_k s in
  let legacy_fec := match cs_rx_actor s with
                    | None => if 0 <? k then Some (FecDecoder_new k (ec_fec_rx ciphers)) else None
                    | Some _ => None end in
  let s := reset_rx s (ec_fec_rx ciphers) in
  let s := cs_set_port s (if 0 <? k then reset_epoch (cs_port s) k (ec_fec_tx ciphers) else reset_epoch (cs_port s) 0 None) in
  let e := {| es_instance_id := instance_id; es_epoch := u64_sat_add (es_epoch e) 1;
              es_resume_token := es_resume_token e; es_pending_resume_token := es_pending_resume_token e;
              es_enc_algo := es_enc_algo e; es_salt_a := salt_a; es_salt_b := salt_b;
              es_ic_tx := ec_tx ciphers; es_ic_rx := ec_rx ciphers; es_fec_dec := legacy_fec |} in
  Ok (cs_set_stat (cs_set_epoch s e) (st_set_active (cs_stat s) 0) (cs_destroy_deadline s)).

(** ** The handshake *)

(** A physical connection, as far as sessions are concerned. *)
Record MioSession := {
  ms_socket : bsock;
  ms_conn_id : list Z;
  ms_tx_backend : Backend;
  ms_handshake_done : bool;
  ms_client_session : option nat;
  ms_ic_rx : option InnerCipher;
  ms_session_epoch : Z;
  ms_rx_producer : option RxProducer;
  ms_brutal_applied : bool }.

(** The checks on the request alone, in the order of the source. *)
Definition check_credentials (conf : ServerConf) (rq : HandshakeReq) : option HandshakeOutcome :=
  if negb (constant_time_eq (rq_psk rq) (sc_psk_hash conf)) then Some HTarpitClose
  else if negb (Bool.eqb (rq_encrypt rq) (sc_encrypt conf)) then Some HTarpitClose
  else if sc_encrypt conf && (0 <? sc_min_enc conf) && negb (is_inner_aead_algo (rq_enc_algo rq)) then Some HClose
  else if sc_encrypt conf && negb (rq_enc_algo rq =? sc_enc_algo conf) then Some HClose
  else None.
Definition check_format (conf : ServerConf) (rq : HandshakeReq) : option HandshakeOutcome :=
  if bool_decide (rq_client_id rq = EmptyString) then Some HClose
  else if negb (is_valid_client_id (bytes_of_string (rq_client_id rq))) then Some HClose
  else if negb (is_valid_session_mac (rq_mac rq)) then Some HClose
  else if negb (rq_protocol_version rq =? PROTOCOL_VERSION) then Some HClose
  else if rq_fec rq && ((rq_fec_group rq <? sc_fec_group_min conf) || (sc_fec_group_max conf <? rq_fec_group rq)) then Some HClose
  else if negb (is_valid_client_instance (rq_client_instance rq)) then Some HClose
  else None.
(** The identifier a MAC must claim under this pre-shared key. *)
Definition expected_client_id (conf : ServerConf) (m : list Z) : list Z :=
  uuid_v5 (uuid_v3 uuid_url (bytes_of_string "my_vpn_tunnel")) (m ++ sc_psk conf).
(** [canonical_mac(&req.mac).expect("validated MAC")]: the format check has passed. *)
Definition request_mac (rq : HandshakeReq) : list Z := default [] (canonical_mac (rq_mac rq)).

Definition check_request (conf : ServerConf) (rq : HandshakeReq) : option HandshakeOutcome :=
  match check_credentials conf rq with
  | Some o => Some o
  | None =>
      match check_format conf rq with
      | Some o => Some o
      | None => if negb (constant_time_eq (bytes_of_string (rq_client_id rq)) (expected_client_id conf (request_mac rq)))
                then Some HClose else None
      end
  end.

(** *** An existing session *)

Definition MAX_SESSION_CONNS : Z := 16.

(** The token and epoch part: a new client process must present a valid token and
    gets fresh keys, the process that owns the session may confirm the next token.
    The session may have changed even if the connection is refused. *)
Definition resume_epoch (conf : ServerConf) (s : ClientSession) (rq : HandshakeReq) (en : entropy)
  : ClientSession * option HandshakeOutcome :=
  let e := cs_epoch_state s in
  if negb (bool_decide (es_instance_id e = rq_client_instance rq)) then
    let '(e, valid) := accept_session_resume_token e (rq_session_token rq) in
    let s := cs_set_epoch s e in
    if negb valid then (s, Some HClose)
    else
      match rotate_session_epoch conf s (rq_client_instance rq) (en_salt_a en) (en_salt_b en) with
      | Err _ => (s, Some HClose)
      | Ok s =>
          match ensure_pending_resume_token (cs_epoch_state s) (en_token en) with
          | None => (s, Some HClose)
          | Some e => (cs_set_epoch s e, None)
          end
      end
  else if pending_matches e (rq_session_token rq) then (cs_set_epoch s (promote_pending e), None)
  else (s, None).

Definition revive_session (conf : ServerConf) (s : ClientSession) (rq : HandshakeReq) (en : entropy)
  : ClientSession * option HandshakeOutcome :=
  if negb (constant_time_eq (request_mac rq) (cs_mac s)) then (s, Some HTarpitClose)
  else if negb (es_enc_algo (cs_epoch_state s) =? rq_enc_algo rq) then (s, Some HClose)
  else
    match resume_epoch conf s rq en with
    | (s, Some o) => (s, Some o)
    | (s, None) =>
        let s := cs_set_stat s (cs_stat s) None in
        let active := st_active_conns (cs_stat s) in
        if MAX_SESSION_CONNS <=? active then (s, Some HClose)
        else (cs_set_stat s (st_set_active (cs_stat s) (u32_wrap (active + 1))) None, None)
    end.

(** *** A new session *)

(** [InnerCipher::for_algo(..).expect(..)]: a configured algorithm cannot fail, the
    process would abort. *)
Definition expect_ciphers (r : result epoch_ciphers cipher_error) : epoch_ciphers :=
  match r with Ok c => c | Err _ => {| ec_tx := None; ec_rx := None; ec_fec_tx := None; ec_fec_rx := None |} end.

Definition build_session (conf : ServerConf) (rq : HandshakeReq) (en : entropy) (ips : list Z * list Z)
    (resume_token : list Z) : ClientSession :=
  let k := if rq_fec rq then rq_fec_group rq else 0 in
  let enc_algo := if sc_encrypt conf then sc_enc_algo conf else ENC_ALGO_NONE in
  let ciphers := expect_ciphers (make_ciphers conf (en_salt_a en) (en_salt_b en) enc_algo) in
  (** the FEC pair is derived for the AEAD algorithms only *)
  let '(fec_tx, fec_rx) := if is_inner_aead_algo enc_algo then (ec_fec_tx ciphers, ec_fec_rx ciphers) else (None, None) in
  let multi_rx := 1 <? rq_brutal_conns rq in
  let port := AsyncPort_new in
  let port := if sc_port_dispatch conf then enable_dispatch port else port in
  let port := if 0 <? k then attach_encoder port k fec_tx else port in
  let dec := if 0 <? k then Some (FecDecoder_new k fec_rx) else None in
  {| cs_session_id := en_session_id en;
     cs_stat := st_set_active (ClientStat_new (rq_client_id rq)) 1;
     cs_port := port;
     cs_reorder_buf := ReorderBuffer_new;
     cs_dedup := DeDuplicator_new;
     cs_rx_actor := if multi_rx then Some (RxActorState_new dec) else None;
     cs_fec_enc_k := k;
     cs_mac := request_mac rq;
     cs_peer_info := normalize_peer_info <$> rq_peer_info rq;
     cs_mac_bin := default null_mac (parse_mac_key (request_mac rq));
     cs_ipv4 := ips.1; cs_ipv6 := ips.2;
     cs_epoch_state :=
       {| es_instance_id := rq_client_instance rq; es_epoch := 1; es_resume_token := resume_token;
          es_pending_resume_token := []; es_enc_algo := enc_algo; es_salt_a := en_salt_a en; es_salt_b := en_salt_b en;
          es_ic_tx := ec_tx ciphers; es_ic_rx := ec_rx ciphers;
          es_fec_dec := if multi_rx then None else dec |};
     cs_destroy_deadline := None;
     cs_brutal_tx := 0; cs_brutal_rx := 0; cs_brutal_applied_conns := 0; cs_brutal_error := NoError |}.

(** The new session enters heap, table, registry and switch. *)
Definition publish_session (c : ServerCore) (s : ClientSession) (pool : IpPool) (now : Z) : ServerCore * nat :=
  let r := sv_next c in
  let id := st_client_id (cs_stat s) in
  let vs := add_port (sv_vswitch c) id {| pr_id := id; pr_serial := r |} in
  let vs := add_static_mac vs id (cs_mac_bin s) now in
  ({| sv_heap := <[r := s]> (sv_heap c); sv_next := S r; sv_sessions := <[id := r]> (sv_sessions c);
      sv_registry := <[id := r]> (sv_registry c); sv_vswitch := vs; sv_pool := pool; sv_banned := sv_banned c;
      sv_fec_recovered_retired := sv_fec_recovered_retired c; sv_fec_lost_retired := sv_fec_lost_retired c |}, r).

Definition create_session (conf : ServerConf) (c : ServerCore) (rq : HandshakeReq) (en : entropy) (now : Z)
  : ServerCore * result nat HandshakeOutcome :=
  if (0 <? sc_max_sessions conf) && (sc_max_sessions conf <=? Z.of_nat (size (sv_sessions c))) then (c, Err HTarpitClose)
  else
    let m := request_mac rq in
    let '(req4, req6) := bound_request (sv_pool c) m (rq_ipv4 rq) (rq_ipv6 rq) in
    match assign_addresses v6 (sv_pool c) req4 req6 with
    | (pool, None) => (sv_set_pool c pool, Err HTarpitClose)
    | (pool, Some ips) =>
        match (if valid_session_token_format (rq_session_token rq) then Some (rq_session_token rq) else en_token en) with
        | None => (sv_set_pool c (pool_release pool m ips.1 ips.2), Err HClose)
        | Some token =>
            let '(c, r) := publish_session c (build_session conf rq en ips token) (bind_mac pool m ips) now in
            (c, Ok r)
        end
    end.

(** *** Attaching the connection *)

Definition group_offer (rq : HandshakeReq) : bool :=
  rq_brutal_groups rq && (0 <? rq_brutal_conns rq) && (rq_brutal_conns rq <=? 65536) &&
  (0 <=? rq_brutal_conn_index rq) && (rq_brutal_conn_index rq <? rq_brutal_conns rq) &&
  (rq_brutal_total_tx rq <=? MAX_BRUTAL_RATE_MBPS) && (rq_brutal_total_rx rq <=? MAX_BRUTAL_RATE_MBPS).
(** The lower of two budgets, where zero means no budget. *)
Definition clip_rate (own requested : Z) : Z :=
  if (0 <? requested) && ((own =? 0) || (requested <? own)) then requested else own.
(** Server to client, client to server, and this connection's share in bytes per second. *)
Definition negotiate_brutal (conf : ServerConf) (rq : HandshakeReq) : Z * Z * Z :=
  let '(req_rx, req_tx) := if group_offer rq then (rq_brutal_total_rx rq, rq_brutal_total_tx rq) else (0, 0) in
  let server_tx := clip_rate (sc_brutal_down conf) req_rx in
  let client_tx := clip_rate (sc_brutal_up conf) req_tx in
  let legacy := if group_offer rq
                then split_legacy_brutal_rate_bps server_tx (rq_brutal_conns rq) (rq_brutal_conn_index rq)
                else mbps_to_bps server_tx in
  (server_tx, client_tx, legacy).

(** The dotted address with the prefix length of its network. *)
Definition ip_cidr (ip : list Z) (bits : Z) : list Z := ip ++ SLASH :: bytes_of_string (pretty bits).

Definition make_response (conf : ServerConf) (s : ClientSession) (rq : HandshakeReq) (server_tx client_tx : Z) : HandshakeResp :=
  let e := cs_epoch_state s in
  let '(salt, salt2) := response_enc_salts (es_enc_algo e) (es_salt_a e) (es_salt_b e) in
  {| rs_protocol_version := PROTOCOL_VERSION; rs_session_epoch := es_epoch e; rs_success := true;
     rs_session_id := cs_session_id s; rs_client_id := rq_client_id rq;
     rs_ipv4 := ip_cidr (cs_ipv4 s) (sc_v4_mask_bits conf); rs_ipv6 := ip_cidr (cs_ipv6 s) (sc_v6_mask_bits conf);
     rs_gw_v4 := sc_gw_v4 conf; rs_gw_v6 := sc_gw_v6 conf;
     rs_brutal_groups := group_offer rq; rs_brutal_total_tx := client_tx; rs_brutal_total_rx := server_tx;
     rs_fec := rq_fec rq; rs_fec_group := cs_fec_enc_k s; rs_encrypt := sc_encrypt conf; rs_enc_algo := es_enc_algo e;
     rs_enc_salt := salt; rs_enc_salt2 := salt2; rs_session_token := response_resume_token e |}.

Definition be_set_rtt (b : Backend) (rtt : Z) : Backend :=
  {| be_fec_fence_gen := be_fec_fence_gen b; be_ch := be_ch b; be_owned_batches := be_owned_batches b;
     be_rtt_cache := rtt; be_notify := be_notify b; be_scheduler := be_scheduler b |}.

(** Session side: metadata, single-path decoder, backend, negotiated rates. *)
Definition attach_session (s : ClientSession) (rq : HandshakeReq) (b : Backend) (server_tx client_tx : Z) : ClientSession :=
  let s := cs_set_peer s (normalize_peer_info <$> rq_peer_info rq) in
  let e := cs_epoch_state s in
  let s := match cs_rx_actor s, es_fec_dec e with
           | None, Some dec =>
               cs_set_epoch s
                 {| es_instance_id := es_instance_id e; es_epoch := es_epoch e; es_resume_token := es_resume_token e;
                    es_pending_resume_token := es_pending_resume_token e; es_enc_algo := es_enc_algo e;
                    es_salt_a := es_salt_a e; es_salt_b := es_salt_b e; es_ic_tx := es_ic_tx e; es_ic_rx := es_ic_rx e;
                    es_fec_dec := Some (set_static_single_path dec true) |}
           | _, _ => s end in
  let s := cs_set_port s (register_backend (cs_port s) b) in
  cs_set_brutal s server_tx client_tx (cs_brutal_applied_conns s) (cs_brutal_error s).

(** The rest of the handshake on session [r]; [write_ok] is whether the response
    entered the TLS stream. *)
Definition attach (conf : ServerConf) (c : ServerCore) (ms : MioSession) (r : nat) (s : ClientSession) (rq : HandshakeReq)
    (write_ok : bool) : ServerCore * MioSession * HandshakeOutcome * option HandshakeResp :=
  let b := be_set_rtt (ms_tx_backend ms) 50000 in
  let '(server_tx, client_tx, legacy) := negotiate_brutal conf rq in
  let s := attach_session s rq b server_tx client_tx in
  let e := cs_epoch_state s in
  let set sock applied :=
    {| ms_socket := sock; ms_conn_id := ms_conn_id ms; ms_tx_backend := b; ms_handshake_done := ms_handshake_done ms;
       ms_client_session := Some r; ms_ic_rx := es_ic_rx e; ms_session_epoch := es_epoch e;
       ms_rx_producer := (fun a => producer a (sc_rx_batch conf)) <$> cs_rx_actor s; ms_brutal_applied := applied |} in
  if negb write_ok then (sv_put c r s, set (ms_socket ms) (ms_brutal_applied ms), HClose, None)
  else
    let '(sock, result) :=
      if sc_brutal conf && (0 <? server_tx)
      then configure_tcp_brutal (ms_socket ms) server_tx legacy
             (if group_offer rq then brutal_group_id (bytes_of_string "server") (response_resume_token e) else 0)
      else (ms_socket ms, BrutalApplyResult_default) in
    let applied := if br_applied result then u64_wrap (cs_brutal_applied_conns s + 1) else cs_brutal_applied_conns s in
    let s := cs_set_brutal s server_tx client_tx applied (br_error result) in
    (sv_put c r s, set sock (br_applied result), HOk, Some (make_response conf s rq server_tx client_tx)).

Definition ms_set_conn_id (ms : MioSession) (id : list Z) : MioSession :=
  {| ms_socket := ms_socket ms; ms_conn_id := id; ms_tx_backend := ms_tx_backend ms;
     ms_handshake_done := ms_handshake_done ms; ms_client_session := ms_client_session ms; ms_ic_rx := ms_ic_rx ms;
     ms_session_epoch := ms_session_epoch ms; ms_rx_producer := ms_rx_producer ms; ms_brutal_applied := ms_brutal_applied ms |}.

(** [None] is a request that does not parse.  [now_unix] is the wall clock of the
    ban list, [now] the monotonic clock. *)
Definition handle_handshake (conf : ServerConf) (c : ServerCore) (ms : MioSession) (req : option HandshakeReq) (en : entropy)
    (now_unix now : Z) (write_ok : bool) : ServerCore * MioSession * HandshakeOutcome * option HandshakeResp :=
  match req with
  | None => (c, ms, HTarpitClose, None)
  | Some rq =>
      let ms := ms_set_conn_id ms (default [] (uuid_parse (trim (rq_conn_id rq)))) in
      match check_request conf rq with
      | Some o => (c, ms, o, None)
      | None =>
          let '(banned, hit) := is_banned (sv_banned c) now_unix (rq_client_id rq) in
          let c := sv_set_banned c banned in
          if hit then (c, ms, HTarpitClose, None)
          else
            match sv_sessions c !! rq_client_id rq with
            | Some r =>
                match sv_heap c !! r with
                | Some s =>
                    match revive_session conf s rq en with
                    | (s, Some o) => (sv_put c r s, ms, o, None)
                    | (s, None) => attach conf (sv_put c r s) ms r s rq write_ok
                    end
                | None => (c, ms, HClose, None)
                end
            | None =>
                match create_session conf c rq en now with
                | (c, Err o) => (c, ms, o, None)
                | (c, Ok r) =>
                    match sv_heap c !! r with
                    | Some s => attach conf c ms r s rq write_ok
                    | None => (c, ms, HClose, None)
                    end
                end
            end
      end
  end.

(** ** Closing, retention and destruction *)

Definition SESSION_RETENTION : Z := 120000.

(** A connection of an earlier epoch no longer counts; the last one of the current
    epoch starts the retention period. *)
Definition close_session (s : ClientSession) (b : Backend) (connection_epoch : Z) (brutal_applied : bool) (now : Z) : ClientSession :=
  let s := cs_set_port s (unregister_backend (cs_port s) (be_ch b)) in
  let s := if brutal_applied
           then cs_set_brutal s (cs_brutal_tx s) (cs_brutal_rx s) (sat_sub (cs_brutal_applied_conns s) 1) (cs_brutal_error s)
           else s in
  if negb (es_epoch (cs_epoch_state s) =? connection_epoch) then s
  else
    let st := cs_stat s in
    let active := st_active_conns st in
    let st := st_set_active st (u32_wrap (active - 1)) in
    if active <=? 1 then
      let version := u64_wrap (st_disconnect_version st + 1) in
      cs_set_stat s {| st_client_id := st_client_id st; st_active_conns := st_active_conns st; st_disconnect_version := version;
                       st_force_disconnect := st_force_disconnect st;
                       st_fec_recovered_lifetime := st_fec_recovered_lifetime st; st_fec_lost_lifetime := st_fec_lost_lifetime st |}
        (Some (now + SESSION_RETENTION, version))
    else cs_set_stat s st (cs_destroy_deadline s).
Definition on_conn_closed (c : ServerCore) (ms : MioSession) (now : Z) : ServerCore :=
  match ms_client_session ms with
  | None => c
  | Some r =>
      match sv_heap c !! r with
      | None => c
      | Some s => sv_put c r (close_session s (ms_tx_backend ms) (ms_session_epoch ms) (ms_brutal_applied ms) now)
      end
  end.

(** [destroy_session] takes the session out of the table under the table's lock and
    cleans up switch, registry and pool after it has released that lock. *)
Definition destroy_unlink (c : ServerCore) (r : nat) : option ServerCore :=
  match sv_heap c !! r with
  | None => None
  | Some s =>
      let cid := st_client_id (cs_stat s) in
      match sv_sessions c !! cid with
      | None => None
      | Some current =>
          if negb (current =? r)%nat then None
          else
            let '(recovered, lost, _, _) := rx_runtime_snapshot s in
            Some {| sv_heap := sv_heap c; sv_next := sv_next c; sv_sessions := delete cid (sv_sessions c);
                    sv_registry := sv_registry c; sv_vswitch := sv_vswitch c; sv_pool := sv_pool c; sv_banned := sv_banned c;
                    sv_fec_recovered_retired := u64_wrap (sv_fec_recovered_retired c + recovered);
                    sv_fec_lost_retired := u64_wrap (sv_fec_lost_retired c + lost) |}
      end
  end.
Definition destroy_cleanup (c : ServerCore) (r : nat) : ServerCore :=
  match sv_heap c !! r with
  | None => c
  | Some s =>
      let cid := st_client_id (cs_stat s) in
      {| sv_heap := sv_heap c; sv_next := sv_next c; sv_sessions := sv_sessions c;
         sv_registry := delete cid (sv_registry c); sv_vswitch := remove_port (sv_vswitch c) cid;
         sv_pool := pool_release (sv_pool c) (cs_mac s) (cs_ipv4 s) (cs_ipv6 s); sv_banned := sv_banned c;
         sv_fec_recovered_retired := sv_fec_recovered_retired c; sv_fec_lost_retired := sv_fec_lost_retired c |}
  end.
Definition destroy_session (c : ServerCore) (r : nat) : ServerCore :=
  match destroy_unlink c r with Some c => destroy_cleanup c r | None => c end.

(** The reaper's filter, and the sweep over the table. *)
Definition expired (s : ClientSession) (now : Z) : bool :=
  (st_active_conns (cs_stat s) =? 0) &&
  match cs_destroy_deadline s with
  | Some (deadline, version) => (version =? st_disconnect_version (cs_stat s)) && (deadline <=? now)
  | None => false
  end.
Definition reap_collect (c : ServerCore) (now : Z) : list nat :=
  filter (fun r => match sv_heap c !! r with Some s => expired s now | None => false end = true) ((map_to_list (sv_sessions c)).*2).
Definition reap (c : ServerCore) (now : Z) : ServerCore := fold_left destroy_session (reap_collect c now) c.

(** The timer's check of one attached connection: [true] closes it.  An exhausted
    sequence space ends the epoch, the other conditions only close. *)
Definition exhausted_prefix : list Z := bytes_of_string "exhausted-".
Definition is_prefix (p l : list Z) : bool := bool_decide (take (length p) l = p).
Definition retire_epoch (s : ClientSession) (fresh_id : list Z) : ClientSession :=
  let e := cs_epoch_state s in
  if is_prefix exhausted_prefix (es_instance_id e) then s
  else
    cs_set_stat
      (cs_set_epoch s
         {| es_instance_id := exhausted_prefix ++ fresh_id; es_epoch := u64_sat_add (es_epoch e) 1;
            es_resume_token := es_resume_token e; es_pending_resume_token := es_pending_resume_token e;
            es_enc_algo := es_enc_algo e; es_salt_a := es_salt_a e; es_salt_b := es_salt_b e; es_ic_tx := es_ic_tx e;
            es_ic_rx := es_ic_rx e; es_fec_dec := es_fec_dec e |})
      (st_set_active (cs_stat s) 0) (cs_destroy_deadline s).
Definition sweep_conn (c : ServerCore) (ms : MioSession) (fresh_id : list Z) : ServerCore * bool :=
  match ms_client_session ms with
  | None => (c, false)
  | Some r =>
      match sv_heap c !! r with
      | None => (c, false)
      | Some s =>
          if po_sequence_exhausted (cs_port s) then (sv_put c r (retire_epoch s fresh_id), true)
          else (c, negb (es_epoch (cs_epoch_state s) =? ms_session_epoch ms) || st_force_disconnect (cs_stat s))
      end
  end.

(** ** Operator actions *)

Definition force_disconnect (s : ClientSession) : ClientSession :=
  let st := cs_stat s in
  cs_set_stat s {| st_client_id := st_client_id st; st_active_conns := st_active_conns st;
                   st_disconnect_version := st_disconnect_version st; st_force_disconnect := true;
                   st_fec_recovered_lifetime := st_fec_recovered_lifetime st; st_fec_lost_lifetime := st_fec_lost_lifetime st |}
    (cs_destroy_deadline s).
Definition kick_ref (c : ServerCore) (r : nat) : ServerCore :=
  match sv_heap c !! r with
  | Some s => destroy_session (sv_put c r (force_disconnect s)) r
  | None => c
  end.
Definition kick (c : ServerCore) (client_id : string) : ServerCore :=
  match sv_sessions c !! client_id with Some r => kick_ref c r | None => c end.
Definition kick_all (c : ServerCore) : ServerCore := fold_left kick_ref ((map_to_list (sv_sessions c)).*2) c.

Inductive control_action := CKick (id : string) | CBan (id : string) (ttl : Z) | CUnban (id : string) | CKickAll.
Definition control (c : ServerCore) (now_unix : Z) (a : control_action) : ServerCore :=
  match a with
  | CKick id => kick c id
  | CBan id ttl =>
      let '(banned, ok) := ban (sv_banned c) now_unix id ttl in
      let c := sv_set_banned c banned in
      if ok then kick c id else c
  | CUnban id => sv_set_banned c (unban (sv_banned c) id)
  | CKickAll => kick_all c
  end.
End Server.
