(* ===== verification/SessionSpec.v ===== *)
(** * Properties of the server's sessions

    The server is a state machine over its core and its open connections.  An
    operation is one handler of a worker thread; traffic of the data path may
    replace the sending port and the receive state of a session at any time. *)
From S2P Require Import Prelude Protocol Utils Crypto Xor Fec Buffer Reorder RxActor Adaptive Queue Port PortSpec VSwitch Pool Brutal PeerInfo Session.

Section Spec.
Context `{FrameChannel} `{CryptoPrims} `{HexCodec} `{UuidLib} `{BrutalSocketOps}.
Context (v6 : family) (conf : ServerConf).

Abbreviation es s := (es_epoch (cs_epoch_state s)).
Abbreviation active s := (st_active_conns (cs_stat s)).
Abbreviation cid s := (st_client_id (cs_stat s)).

(** ** The state machine *)

Record server := { sr_core : ServerCore; sr_conns : gmap nat MioSession }.
Inductive server_op :=
| OConnect (k : nat) (ms : MioSession)
| OHandshake (k : nat) (req : option HandshakeReq) (en : entropy) (now_unix now : Z) (write_ok : bool)
| OSweep (k : nat) (fresh_id : list Z)
| OClose (k : nat) (now : Z)
| OReap (now : Z)
| OControl (now_unix : Z) (a : control_action)
| OTraffic (r : nat) (port : AsyncPort) (rb : ReorderBuffer) (dd : DeDuplicator) (actor : option RxActorState) (dec : option FecDecoder)
| OFrame (src : string) (registered : option mac) (frame : FramePayload) (now : Z).

(** A worker drops a closed connection after [on_conn_closed]. *)
Definition close_conn (st : server) (k : nat) (now : Z) : server :=
  match sr_conns st !! k with
  | Some ms => {| sr_core := on_conn_closed (sr_core st) ms now; sr_conns := delete k (sr_conns st) |}
  | None => st
  end.
Definition ms_done (ms : MioSession) : MioSession :=
  {| ms_socket := ms_socket ms; ms_conn_id := ms_conn_id ms; ms_tx_backend := ms_tx_backend ms; ms_handshake_done := true;
     ms_client_session := ms_client_session ms; ms_ic_rx := ms_ic_rx ms; ms_session_epoch := ms_session_epoch ms;
     ms_rx_producer := ms_rx_producer ms; ms_brutal_applied := ms_brutal_applied ms |}.

(** What the data path may replace in a session: the sending port, the reorder buffer,
    the duplicate filter and the states of the receive actor and of the FEC decoder. *)
Definition cs_traffic (s : ClientSession) (port : AsyncPort) (rb : ReorderBuffer) (dd : DeDuplicator)
    (actor : option RxActorState) (dec : option FecDecoder) : ClientSession :=
  cs_set_dec (cs_set_rx (cs_set_port s port) rb dd ((fun a => default a actor) <$> cs_rx_actor s))
    ((fun d => default d dec) <$> es_fec_dec (cs_epoch_state s)).

Definition server_step (st : server) (op : server_op) : server :=
  match op with
  | OConnect k ms =>
      if decide (sr_conns st !! k = None /\ ms_client_session ms = None /\ ms_handshake_done ms = false)
      then {| sr_core := sr_core st; sr_conns := <[k := ms]> (sr_conns st) |} else st
  | OHandshake k req en now_unix now write_ok =>
      match sr_conns st !! k with
      | Some ms =>
          if ms_handshake_done ms then st
          else
            match handle_handshake v6 conf (sr_core st) ms req en now_unix now write_ok with
            | (c, ms, HOk, _) => {| sr_core := c; sr_conns := <[k := ms_done ms]> (sr_conns st) |}
            | (c, ms, _, _) => close_conn {| sr_core := c; sr_conns := <[k := ms]> (sr_conns st) |} k now
            end
      | None => st
      end
  | OSweep k fresh_id =>
      match sr_conns st !! k with
      | Some ms => {| sr_core := (sweep_conn (sr_core st) ms fresh_id).1; sr_conns := sr_conns st |}
      | None => st
      end
  | OClose k now => close_conn st k now
  | OReap now => {| sr_core := reap (sr_core st) now; sr_conns := sr_conns st |}
  | OControl now_unix a => {| sr_core := control (sr_core st) now_unix a; sr_conns := sr_conns st |}
  | OTraffic r port rb dd actor dec =>
      match sv_heap (sr_core st) !! r with
      | Some s => {| sr_core := sv_put (sr_core st) r (cs_traffic s port rb dd actor dec); sr_conns := sr_conns st |}
      | None => st
      end
  | OFrame src registered frame now =>
      let c := sr_core st in
      let vs := (process_frame_inner (set_validate_mac (sv_vswitch c) (validate_src c)) src registered frame now).1 in
      {| sr_core := {| sv_heap := sv_heap c; sv_next := sv_next c; sv_sessions := sv_sessions c; sv_registry := sv_registry c;
                       sv_vswitch := vs; sv_pool := sv_pool c; sv_banned := sv_banned c;
                       sv_fec_recovered_retired := sv_fec_recovered_retired c; sv_fec_lost_retired := sv_fec_lost_retired c |};
         sr_conns := sr_conns st |}
  end.
Definition server_new (v4cidr v6cidr : list Z) : server := {| sr_core := ServerCore_new v6 v4cidr v6cidr; sr_conns := ∅ |}.
Definition server_run (st : server) (ops : list server_op) : server := foldl server_step st ops.

Lemma server_run_invariant (P : server -> Prop) ops st :
  (forall st op, P st -> P (server_step st op)) -> P st -> P (server_run st ops).
Proof. intros Hstep. revert st. induction ops as [|op ops IH]; intros st Hst; [done|]. by apply IH, Hstep. Qed.

(** ** Projections of the updates *)

Lemma cs_set_epoch_id s : cs_set_epoch s (cs_epoch_state s) = s.
Proof. by destruct s. Qed.

(** What a handler on one session leaves alone. *)
Record same_identity (s s' : ClientSession) : Prop := {
  si_cid : cid s' = cid s;
  si_mac : cs_mac s' = cs_mac s;
  si_mac_bin : cs_mac_bin s' = cs_mac_bin s;
  si_ipv4 : cs_ipv4 s' = cs_ipv4 s;
  si_ipv6 : cs_ipv6 s' = cs_ipv6 s }.
#[local] Hint Constructors same_identity : core.
Lemma same_identity_refl s : same_identity s s.
Proof. by constructor. Qed.
Lemma same_identity_trans a b c : same_identity a b -> same_identity b c -> same_identity a c.
Proof. intros [] []. constructor; congruence. Qed.

Lemma rotate_spec s inst sa sb s' :
  rotate_session_epoch conf s inst sa sb = Ok s' ->
  same_identity s s' /\ es s' = u64_sat_add (es s) 1 /\ active s' = 0 /\ cs_destroy_deadline s' = cs_destroy_deadline s /\
  es_instance_id (cs_epoch_state s') = inst /\ st_disconnect_version (cs_stat s') = st_disconnect_version (cs_stat s) /\
  es_resume_token (cs_epoch_state s') = es_resume_token (cs_epoch_state s) /\
  es_pending_resume_token (cs_epoch_state s') = es_pending_resume_token (cs_epoch_state s) /\
  es_enc_algo (cs_epoch_state s') = es_enc_algo (cs_epoch_state s).
Proof.
  unfold rotate_session_epoch, result_bind. destruct (make_ciphers _ _ _ _) as [ci|]; [|done]. intros [= <-].
  unfold reset_rx. destruct (cs_rx_actor s); [by repeat split|]. destruct (es_fec_dec (cs_epoch_state s)); by repeat split.
Qed.

(** The outcomes of reviving a session. *)
Record revive_ok (s s' : ClientSession) (rq : HandshakeReq) : Prop := {
  ro_identity : same_identity s s';
  ro_deadline : cs_destroy_deadline s' = None;
  ro_epoch : (es s' = es s /\ active s < 16 /\ active s' = u32_wrap (active s + 1) /\
              es_instance_id (cs_epoch_state s) = rq_client_instance rq) \/
             (es s' = u64_sat_add (es s) 1 /\ active s' = 1 /\
              (accept_session_resume_token (cs_epoch_state s) (rq_session_token rq)).2 = true) }.
Record revive_refused (s s' : ClientSession) (en : entropy) : Prop := {
  rr_identity : same_identity s s';
  rr_version : st_disconnect_version (cs_stat s') = st_disconnect_version (cs_stat s);
  rr_case : (es s' = es s /\ active s' = active s /\ es_instance_id (cs_epoch_state s') = es_instance_id (cs_epoch_state s) /\
             (cs_destroy_deadline s' = cs_destroy_deadline s \/ 16 <= active s)) \/
            (es s' = u64_sat_add (es s) 1 /\ active s' = 0 /\ en_token en = None) }.

Lemma accept_token_epoch e t :
  es_epoch (accept_session_resume_token e t).1 = es_epoch e /\
  es_instance_id (accept_session_resume_token e t).1 = es_instance_id e.
Proof. unfold accept_session_resume_token. by repeat case_match. Qed.

(** ** Counting the connections of an epoch *)

Definition attached (r : nat) (epoch : Z) (ms : MioSession) : bool :=
  bool_decide (ms_client_session ms = Some r) && (ms_session_epoch ms =? epoch).
Definition live_conns (conns : gmap nat MioSession) (r : nat) (epoch : Z) : Z :=
  Z.of_nat (size (filter (fun e => attached r epoch e.2 = true) conns)).

Lemma live_insert conns k ms r e :
  conns !! k = None -> live_conns (<[k := ms]> conns) r e = live_conns conns r e + if attached r e ms then 1 else 0.
Proof.
  intros Hk. unfold live_conns. rewrite map_filter_insert. cbn. case_decide as Ha.
  - rewrite Ha, map_size_insert_None by (by rewrite map_lookup_filter_None; left). lia.
  - rewrite delete_id by done. destruct (attached r e ms); [done|lia].
Qed.
Lemma live_delete conns k ms r e :
  conns !! k = Some ms -> live_conns (delete k conns) r e = live_conns conns r e - if attached r e ms then 1 else 0.
Proof.
  intros Hk. rewrite <-(insert_id conns k ms Hk) at 2. rewrite <-insert_delete_eq.
  rewrite live_insert by apply lookup_delete_eq. lia.
Qed.
Lemma live_replace conns k ms ms' r e :
  conns !! k = Some ms ->
  live_conns (<[k := ms']> conns) r e =
  live_conns conns r e - (if attached r e ms then 1 else 0) + if attached r e ms' then 1 else 0.
Proof.
  intros Hk. rewrite <-insert_delete_eq, live_insert by apply lookup_delete_eq. by rewrite (live_delete _ _ _ _ _ Hk).
Qed.
Lemma live_nonneg conns r e : 0 <= live_conns conns r e.
Proof. unfold live_conns. lia. Qed.
Lemma live_pos conns k ms r e : conns !! k = Some ms -> attached r e ms = true -> 0 < live_conns conns r e.
Proof.
  intros Hk Ha. pose proof (live_delete conns k ms r e Hk) as Hd. rewrite Ha in Hd.
  pose proof (live_nonneg (delete k conns) r e). lia.
Qed.
Lemma live_zero conns r e :
  (forall k ms, conns !! k = Some ms -> attached r e ms = false) -> live_conns conns r e = 0.
Proof.
  intros Hn. unfold live_conns. replace (filter _ conns) with (∅ : gmap nat MioSession); [by rewrite map_size_empty|].
  symmetry. apply map_empty. intros k. apply map_lookup_filter_None. right. intros ms Hk. cbn. by rewrite (Hn k ms Hk).
Qed.

(** ** The session table and its connections *)

(** [n] bounds the number of operations so far, hence the epochs. *)
Record table_ok (n : Z) (heap : gmap nat ClientSession) (next : nat) (table : gmap string nat) (conns : gmap nat MioSession) : Prop := {
  to_table : forall id r, table !! id = Some r -> exists s, heap !! r = Some s /\ cid s = id;
  to_fresh : forall r s, heap !! r = Some s -> (r < next)%nat;
  to_conn : forall k ms r, conns !! k = Some ms -> ms_client_session ms = Some r ->
              exists s, heap !! r = Some s /\ ms_session_epoch ms <= es s;
  to_count : forall r s, heap !! r = Some s ->
               active s = live_conns conns r (es s) /\ active s <= 16 /\ 1 <= es s <= 1 + n }.
Definition core_ok (n : Z) (c : ServerCore) (conns : gmap nat MioSession) : Prop :=
  table_ok n (sv_heap c) (sv_next c) (sv_sessions c) conns.
Definition pending_unattached (conns : gmap nat MioSession) : Prop :=
  forall k ms, conns !! k = Some ms -> ms_handshake_done ms = false -> ms_client_session ms = None.

Lemma table_ok_mono n m heap next table conns : n <= m -> table_ok n heap next table conns -> table_ok m heap next table conns.
Proof. intros Hnm [Ht Hf Hc Hn]. split; try done. intros r s Hr. destruct (Hn r s Hr) as (? & ? & ?). repeat split; try done; lia. Qed.
Lemma table_ok_sub n heap next table table' conns :
  (forall id r, table' !! id = Some r -> table !! id = Some r) -> table_ok n heap next table conns -> table_ok n heap next table' conns.
Proof. intros Hs [Ht Hf Hc Hn]. split; eauto. Qed.

(** Replacing one session, with the connections it accounts for. *)
Lemma table_ok_put n heap next table conns conns' r s s' :
  table_ok n heap next table conns -> heap !! r = Some s -> cid s' = cid s -> es s <= es s' <= 1 + n ->
  active s' = live_conns conns' r (es s') -> active s' <= 16 ->
  (forall r' e, r' <> r -> live_conns conns' r' e = live_conns conns r' e) ->
  (forall k ms r', conns' !! k = Some ms -> ms_client_session ms = Some r' ->
     (exists ms0, conns !! k = Some ms0 /\ ms_client_session ms0 = Some r' /\ ms_session_epoch ms0 = ms_session_epoch ms) \/
     (r' = r /\ ms_session_epoch ms <= es s')) ->
  table_ok n (<[r := s']> heap) next table conns'.
Proof.
  intros [Ht Hf Hc Hn] Hr Hcid He Ha H16 Hl Hconn. split.
  - intros id r' Hid. destruct (Ht id r' Hid) as (s0 & Hs0 & Hid0). destruct (decide (r' = r)) as [->|].
    + exists s'. rewrite lookup_insert_eq. split; [done|]. congruence.
    + exists s0. by rewrite lookup_insert_ne.
  - intros r' s0. destruct (decide (r' = r)) as [->|]; [intros _; by eapply Hf|]. rewrite lookup_insert_ne by done. apply Hf.
  - intros k ms r' Hk Hms. destruct (Hconn k ms r' Hk Hms) as [(ms0 & Hk0 & Hms0 & Hep)|[-> Hep]].
    + destruct (Hc k ms0 r' Hk0 Hms0) as (s0 & Hs0 & Hle). destruct (decide (r' = r)) as [->|].
      * exists s'. rewrite lookup_insert_eq. split; [done|]. simplify_eq. lia.
      * exists s0. rewrite lookup_insert_ne by done. split; [done|]. lia.
    + exists s'. by rewrite lookup_insert_eq.
  - intros r' s0. destruct (decide (r' = r)) as [->|Hne].
    + rewrite lookup_insert_eq. intros [= <-]. destruct (Hn r s Hr) as (_ & _ & ?). repeat split; try done; lia.
    + rewrite lookup_insert_ne by done. intros Hs0. rewrite Hl by done. by apply Hn.
Qed.

(** An update that keeps epoch and count, or opens a new epoch with none. *)
Lemma table_ok_same n heap next table conns r s s' :
  table_ok n heap next table conns -> heap !! r = Some s -> cid s' = cid s -> es s' = es s -> active s' = active s ->
  table_ok n (<[r := s']> heap) next table conns.
Proof.
  intros Hok Hr Hcid He Ha. destruct (to_count _ _ _ _ _ Hok r s Hr) as (Hc & H16 & Hb).
  eapply table_ok_put; try done; [lia|congruence|lia|]. intros k ms r' Hk Hms. left. by exists ms.
Qed.
Lemma live_new_epoch n heap next table conns r s e :
  table_ok n heap next table conns -> heap !! r = Some s -> es s < e -> live_conns conns r e = 0.
Proof.
  intros Hok Hr He. apply live_zero. intros k ms Hk. unfold attached. destruct (bool_decide _) eqn:Eb; [|done].
  apply bool_decide_eq_true in Eb. destruct (to_conn _ _ _ _ _ Hok k ms r Hk Eb) as (s0 & Hs0 & Hle). simplify_eq.
  cbn. apply Z.eqb_neq. lia.
Qed.
Lemma table_ok_bump n heap next table conns r s s' :
  table_ok n heap next table conns -> heap !! r = Some s -> cid s' = cid s -> es s' = es s + 1 -> active s' = 0 ->
  table_ok (n + 1) (<[r := s']> heap) next table conns.
Proof.
  intros Hok Hr Hcid He Ha. destruct (to_count _ _ _ _ _ Hok r s Hr) as (Hc & H16 & Hb).
  eapply table_ok_put; [by eapply table_ok_mono; [|exact Hok]; lia|done|done|lia| | |done|].
  - rewrite Ha. symmetry. eapply live_new_epoch; [exact Hok|done|lia].
  - lia.
  - intros k ms r' Hk Hms. left. by exists ms.
Qed.

(** ** Reviving and attaching *)

Lemma resume_epoch_spec s rq en s' o :
  resume_epoch conf s rq en = (s', o) ->
  same_identity s s' /\ st_disconnect_version (cs_stat s') = st_disconnect_version (cs_stat s) /\
  cs_destroy_deadline s' = cs_destroy_deadline s /\
  ((es s' = es s /\ active s' = active s /\ es_instance_id (cs_epoch_state s') = es_instance_id (cs_epoch_state s) /\
    (o = None -> es_instance_id (cs_epoch_state s) = rq_client_instance rq)) \/
   (es s' = u64_sat_add (es s) 1 /\ active s' = 0 /\
    (accept_session_resume_token (cs_epoch_state s) (rq_session_token rq)).2 = true /\
    (o = None \/ (o = Some HClose /\ en_token en = None)))).
Proof.
  unfold resume_epoch. case_bool_decide as Ei; cbn [negb].
  - case_match; intros [= <- <-]; repeat split; try done; left; repeat split; try done; by intros.
  - destruct (accept_token_epoch (cs_epoch_state s) (rq_session_token rq)) as [Hep Hin].
    destruct (accept_session_resume_token _ _) as [e valid] eqn:Ea. cbn in Hep, Hin |- *.
    destruct valid; cbn [negb]; last first.
    { intros [= <- <-]. repeat split; try done. left. repeat split; try done. }
    destruct (rotate_session_epoch _ _ _ _ _) as [s1|err] eqn:Er; last first.
    { intros [= <- <-]. repeat split; try done. left. repeat split; try done. }
    apply rotate_spec in Er as (Hid & He1 & Ha & Hd & _ & Hv & Ht & Hp & _). cbn in *. rewrite Hep in He1.
    assert (Hsi : same_identity s s1) by (eapply same_identity_trans; [|exact Hid]; by constructor).
    unfold ensure_pending_resume_token. destruct (is_nil _); [destruct (en_token en) as [t|] eqn:Et|];
      intros [= <- <-]; destruct Hsi; (split; [by constructor|]); (split; [exact Hv|]); (split; [exact Hd|]); right;
      (split; [exact He1|]); (split; [exact Ha|]); (split; [done|]); solve [by left|by right].
Qed.

Lemma revive_spec s rq en s' o :
  revive_session conf s rq en = (s', o) ->
  match o with None => revive_ok s s' rq | Some _ => revive_refused s s' en end.
Proof.
  assert (Hrefl : revive_refused s s en).
  { split; [apply same_identity_refl|done|left; repeat split; by left]. }
  unfold revive_session. case_match; [by intros [= <- <-]|]. case_match; [by intros [= <- <-]|].
  destruct (resume_epoch conf s rq en) as [s1 o1] eqn:E.
  apply resume_epoch_spec in E as (Hid & Hv & Hd & Hcase).
  destruct o1 as [o1|].
  { intros [= <- <-]. split; try done.
    destruct Hcase as [(?&?&?&?)|(?&?&?&[?|[??]])]; [left; repeat split; try done; by left|done|by right]. }
  cbn. unfold MAX_SESSION_CONNS. destruct (Z.leb_spec 16 (active s1)); intros [= <- <-]; destruct Hid.
  - split; [by constructor|done|]. destruct Hcase as [(?&Ha&?&?)|(?&Ha&?&?)]; cbn; [|lia].
    left. repeat split; try done. right. lia.
  - split; [by constructor|done|]. destruct Hcase as [(?&Ha&?&Hi)|(?&Ha&?&?)]; cbn.
    + left. repeat split; [done|lia|by rewrite Ha|by apply Hi].
    + right. repeat split; try done. by rewrite Ha.
Qed.

(** The rest of the handshake keeps what the table counts. *)
Lemma attach_spec c ms r s rq write_ok c' ms' o resp :
  attach conf c ms r s rq write_ok = (c', ms', o, resp) ->
  exists s', c' = sv_put c r s' /\ same_identity s s' /\ es s' = es s /\ active s' = active s /\
    cs_destroy_deadline s' = cs_destroy_deadline s /\
    st_disconnect_version (cs_stat s') = st_disconnect_version (cs_stat s) /\
    es_instance_id (cs_epoch_state s') = es_instance_id (cs_epoch_state s) /\
    ms_client_session ms' = Some r /\ ms_session_epoch ms' = es s /\ ms_handshake_done ms' = ms_handshake_done ms /\
    (o = HOk <-> write_ok = true).
Proof.
  unfold attach. destruct (negotiate_brutal conf rq) as [[stx ctx] leg].
  assert (Hs : forall s0, same_identity s0 (attach_session s0 rq (be_set_rtt (ms_tx_backend ms) 50000) stx ctx) /\
    es (attach_session s0 rq (be_set_rtt (ms_tx_backend ms) 50000) stx ctx) = es s0 /\
    cs_stat (attach_session s0 rq (be_set_rtt (ms_tx_backend ms) 50000) stx ctx) = cs_stat s0 /\
    cs_destroy_deadline (attach_session s0 rq (be_set_rtt (ms_tx_backend ms) 50000) stx ctx) = cs_destroy_deadline s0 /\
    es_instance_id (cs_epoch_state (attach_session s0 rq (be_set_rtt (ms_tx_backend ms) 50000) stx ctx)) = es_instance_id (cs_epoch_state s0)).
  { intros s0. unfold attach_session. cbn. destruct (cs_rx_actor s0), (es_fec_dec (cs_epoch_state s0)); by repeat split. }
  destruct (Hs s) as (Hid & He & Hst & Hd & Hi). set (s1 := attach_session _ _ _ _ _) in *. clearbody s1.
  destruct write_ok; cbn [negb].
  - destruct (if _ && _ then _ else _) as [sock res]. intros [= <- <- <- <-]. eexists. split; [reflexivity|].
    cbn. rewrite Hst. destruct Hid. repeat split; cbn; by rewrite ?Hst.
  - intros [= <- <- <- <-]. eexists. split; [reflexivity|]. cbn. rewrite Hst. destruct Hid. repeat split; by rewrite ?Hst.
Qed.

(** ** The outcomes of a handshake

    [hs_refused c c'] and [hs_attached c c' r s'] are the effects on the core of a
    handshake that ends without and with a session. *)

(** Equal in everything the table and the reaper look at. *)
Record same_account (s s' : ClientSession) : Prop := {
  sa_identity : same_identity s s';
  sa_epoch : es s' = es s;
  sa_active : active s' = active s;
  sa_deadline : cs_destroy_deadline s' = cs_destroy_deadline s;
  sa_version : st_disconnect_version (cs_stat s') = st_disconnect_version (cs_stat s);
  sa_instance : es_instance_id (cs_epoch_state s') = es_instance_id (cs_epoch_state s) }.

Definition session_room (c : ServerCore) : Prop :=
  0 < sc_max_sessions conf -> Z.of_nat (size (sv_sessions c)) < sc_max_sessions conf.

Inductive hs_refused (c : ServerCore) (en : entropy) : ServerCore -> Prop :=
| HR_checks b : hs_refused c en (sv_set_banned c b)
| HR_session b r s s' :
    sv_heap c !! r = Some s -> revive_refused s s' en -> hs_refused c en (sv_put (sv_set_banned c b) r s')
| HR_addresses b p req4 req6 :
    assign_addresses v6 (sv_pool c) req4 req6 = (p, None) -> hs_refused c en (sv_set_pool (sv_set_banned c b) p)
| HR_token b p req4 req6 ips m :
    assign_addresses v6 (sv_pool c) req4 req6 = (p, Some ips) ->
    hs_refused c en (sv_set_pool (sv_set_banned c b) (pool_release p m ips.1 ips.2)).

Inductive hs_attached (c : ServerCore) (rq : HandshakeReq) (en : entropy) (now : Z) (r : nat) (s' : ClientSession) : ServerCore -> Prop :=
| HA_revived b s s1 :
    sv_sessions c !! rq_client_id rq = Some r -> sv_heap c !! r = Some s ->
    revive_ok s s1 rq -> same_account s1 s' -> hs_attached c rq en now r s' (sv_put (sv_set_banned c b) r s')
| HA_created b req4 req6 p ips token :
    sv_sessions c !! rq_client_id rq = None -> r = sv_next c -> session_room c ->
    assign_addresses v6 (sv_pool c) req4 req6 = (p, Some ips) ->
    same_account (build_session conf rq en ips token) s' ->
    hs_attached c rq en now r s'
      (sv_put (publish_session (sv_set_banned c b) (build_session conf rq en ips token) (bind_mac p (request_mac rq) ips) now).1 r s').

Lemma handshake_cases c ms req en nu now wo c' ms' o resp :
  handle_handshake v6 conf c ms req en nu now wo = (c', ms', o, resp) ->
  ms_handshake_done ms' = ms_handshake_done ms /\
  ((ms_client_session ms' = ms_client_session ms /\ ms_session_epoch ms' = ms_session_epoch ms /\ o <> HOk /\ hs_refused c en c') \/
   exists rq r s', req = Some rq /\ check_request conf rq = None /\ (is_banned (sv_banned c) nu (rq_client_id rq)).2 = false /\
     ms_client_session ms' = Some r /\ ms_session_epoch ms' = es s' /\ hs_attached c rq en now r s' c').
Proof.
  assert (Hid : forall c, sv_set_banned c (sv_banned c) = c) by by intros [].
  assert (Hput : forall c b r s s', sv_put (sv_put (sv_set_banned c b) r s) r s' = sv_put (sv_set_banned c b) r s').
  { intros c0 b r s s'. unfold sv_put, sv_set_heap. cbn. by rewrite insert_insert_eq. }
  unfold handle_handshake. destruct req as [rq|]; last first.
  { intros [= <- <- <- <-]. split; [done|]. left. repeat split; try done. rewrite <-(Hid c) at 2. apply HR_checks. }
  destruct (check_request conf rq) as [o0|] eqn:Eq.
  { assert (Ho : o0 <> HOk) by (unfold check_request, check_credentials, check_format in Eq; intros ->; repeat (case_match; simplify_eq)).
    intros [= <- <- <- <-]. split; [done|]. left. repeat split; try done. rewrite <-(Hid c) at 2. apply HR_checks. }
  destruct (is_banned _ _ _) as [b hit] eqn:Eb.
  destruct hit; [intros [= <- <- <- <-]; split; [done|]; left; repeat split; try done; apply HR_checks|].
  cbn [sv_set_banned sv_sessions sv_heap]. destruct (sv_sessions c !! rq_client_id rq) as [r|] eqn:Es.
  - destruct (sv_heap c !! r) as [s|] eqn:Eh;
      [|intros [= <- <- <- <-]; split; [done|]; left; repeat split; try done; apply HR_checks].
    destruct (revive_session conf s rq en) as [s1 [o1|]] eqn:Er; pose proof (revive_spec _ _ _ _ _ Er) as Hr.
    + assert (o1 <> HOk).
      { unfold revive_session, resume_epoch in Er. intros ->. repeat (case_match; simplify_eq); try done. }
      intros [= <- <- <- <-]. split; [done|]. left. repeat split; try done. by eapply HR_session.
    + intros E. apply attach_spec in E as (s' & -> & Hsi & He & Ha & Hd & Hv & Hi & Hc & Hep & Hdone & _).
      split; [done|]. right. exists rq, r, s'. rewrite Hput. repeat split; try done; try congruence; try (by rewrite Eb).
      apply (HA_revived _ _ _ _ _ _ b s s1); [done|done|exact Hr|by constructor].
  - unfold create_session. cbn [sv_set_banned sv_sessions sv_pool].
    destruct (_ && _) eqn:Ecap; [intros [= <- <- <- <-]; split; [done|]; left; repeat split; try done; apply HR_checks|].
    destruct (bound_request _ _ _ _) as [req4 req6].
    destruct (assign_addresses _ _ _ _) as [p [ips|]] eqn:Ea; last first.
    { intros [= <- <- <- <-]. split; [done|]. left. repeat split; try done. by eapply HR_addresses. }
    destruct (if valid_session_token_format _ then _ else _) as [token|]; last first.
    { intros [= <- <- <- <-]. split; [done|]. left. repeat split; try done. by eapply HR_token. }
    set (s := build_session conf rq en ips token). unfold publish_session at 1. cbn [sv_heap sv_set_banned]. rewrite lookup_insert_eq.
    intros E. apply attach_spec in E as (s' & -> & Hsi & He & Ha' & Hd & Hv & Hi & Hc & Hep & Hdone & _).
    split; [done|]. right. exists rq, (sv_next c), s'. repeat split; try done; try congruence; try (by rewrite Eb).
    apply (HA_created _ _ _ _ _ _ b req4 req6 p ips token); [done|done| |done|by constructor].
    intros Hm. apply andb_false_iff in Ecap as [?%Z.ltb_ge|?%Z.leb_gt]; lia.
Qed.

(** ** The count is exact *)

Lemma table_ok_conns n heap next table conns conns' :
  table_ok n heap next table conns ->
  (forall r e, live_conns conns' r e = live_conns conns r e) ->
  (forall k ms r, conns' !! k = Some ms -> ms_client_session ms = Some r ->
     exists ms0, conns !! k = Some ms0 /\ ms_client_session ms0 = Some r /\ ms_session_epoch ms0 = ms_session_epoch ms) ->
  table_ok n heap next table conns'.
Proof.
  intros [Ht Hf Hc Hn] Hl Hconn. split; try done.
  - intros k ms r Hk Hms. destruct (Hconn k ms r Hk Hms) as (ms0 & Hk0 & Hms0 & <-). by eapply Hc.
  - intros r s Hr. rewrite Hl. by apply Hn.
Qed.
Lemma unattached r e ms : ms_client_session ms = None -> attached r e ms = false.
Proof. intros E. unfold attached. by rewrite E. Qed.
Lemma attached_iff r e r' ms : ms_client_session ms = Some r' -> attached r e ms = bool_decide (r' = r) && (ms_session_epoch ms =? e).
Proof. intros E. unfold attached. rewrite E. f_equal. by apply bool_decide_ext; naive_solver. Qed.

Lemma build_session_spec rq en ips token (s := build_session conf rq en ips token) :
  es s = 1 /\ active s = 1 /\ cs_destroy_deadline s = None /\ cid s = rq_client_id rq /\ cs_mac s = request_mac rq /\
  cs_mac_bin s = default null_mac (parse_mac_key (request_mac rq)) /\ cs_ipv4 s = ips.1 /\ cs_ipv6 s = ips.2 /\
  es_resume_token (cs_epoch_state s) = token /\ es_pending_resume_token (cs_epoch_state s) = [].
Proof. unfold s, build_session. by destruct (is_inner_aead_algo _). Qed.

Section Handshake.
Context (n : Z) (c : ServerCore) (conns : gmap nat MioSession) (k : nat) (ms ms' : MioSession).
Context (Hok : core_ok n c conns) (Hk : conns !! k = Some ms) (Hun : ms_client_session ms = None).
Context (Hn0 : 0 <= n) (Hn : 2 + n <= U64_MAX).

Lemma replace_unattached next table heap m :
  ms_client_session ms' = None -> table_ok m heap next table conns -> table_ok m heap next table (<[k := ms']> conns).
Proof using Hk Hun.
  intros Hu Ht. eapply table_ok_conns; [exact Ht|..].
  - intros r e. rewrite (live_replace _ _ _ _ _ _ Hk), !unattached by done. lia.
  - intros k' ms1 r. destruct (decide (k' = k)) as [->|]; [rewrite lookup_insert_eq; congruence|].
    rewrite lookup_insert_ne by done. intros ? ?. by exists ms1.
Qed.
Lemma sat_epoch r s : sv_heap c !! r = Some s -> u64_sat_add (es s) 1 = es s + 1.
Proof using Hok Hn. intros Hr. destruct (to_count _ _ _ _ _ Hok r s Hr) as (_ & _ & ?). unfold_ints. lia. Qed.

Lemma refused_ok en c' : ms_client_session ms' = None -> hs_refused c en c' -> core_ok (n + 1) c' (<[k := ms']> conns).
Proof using Hok Hk Hun Hn.
  intros Hu Hr. unfold core_ok. apply replace_unattached; [done|].
  assert (Hm : table_ok (n + 1) (sv_heap c) (sv_next c) (sv_sessions c) conns) by (eapply table_ok_mono; [|exact Hok]; lia).
  destruct Hr as [b|b r s s' Hs [Hid _ Hc]|b p req4 req6 _|b p req4 req6 ips m _]; try exact Hm. cbn.
  rewrite (sat_epoch r s Hs) in Hc. destruct Hc as [(He & Ha & _)|(He & Ha & _)].
  - eapply table_ok_same; try done. by destruct Hid.
  - eapply table_ok_bump; try done. by destruct Hid.
Qed.

(** Connection [k] is now attached to [r]: its session counts one more. *)
Lemma replace_attached r e :
  ms_client_session ms' = Some r -> ms_session_epoch ms' = e ->
  live_conns (<[k := ms']> conns) r e = live_conns conns r e + 1 /\
  (forall r' e', r' <> r -> live_conns (<[k := ms']> conns) r' e' = live_conns conns r' e') /\
  (forall k' ms1 r', <[k := ms']> conns !! k' = Some ms1 -> ms_client_session ms1 = Some r' ->
     (exists ms0, conns !! k' = Some ms0 /\ ms_client_session ms0 = Some r' /\ ms_session_epoch ms0 = ms_session_epoch ms1) \/
     (r' = r /\ ms_session_epoch ms1 <= e)).
Proof using Hk Hun.
  intros Hr He. repeat split.
  - rewrite (live_replace _ _ _ _ _ _ Hk), unattached, (attached_iff _ _ _ _ Hr), He by done.
    rewrite bool_decide_eq_true_2, Z.eqb_refl by done. cbn. lia.
  - intros r' e' Hne. rewrite (live_replace _ _ _ _ _ _ Hk), unattached, (attached_iff _ _ _ _ Hr) by done.
    rewrite bool_decide_eq_false_2 by done. cbn. lia.
  - intros k' ms1 r'. destruct (decide (k' = k)) as [->|].
    + rewrite lookup_insert_eq. intros [= <-] Hr'. right. simplify_eq. split; [done|lia].
    + rewrite lookup_insert_ne by done. intros. left. by exists ms1.
Qed.

Lemma attached_ok rq en now r s' c' :
  ms_client_session ms' = Some r -> ms_session_epoch ms' = es s' -> hs_attached c rq en now r s' c' ->
  core_ok (n + 1) c' (<[k := ms']> conns).
Proof using Hok Hk Hun Hn0 Hn.
  intros Hr He Ha. destruct (replace_attached r (es s') Hr He) as (Hl & Hl' & Hc). unfold core_ok.
  assert (Hm : table_ok (n + 1) (sv_heap c) (sv_next c) (sv_sessions c) conns) by (eapply table_ok_mono; [|exact Hok]; lia).
  destruct Ha as [b s s1 Hs Hh [Hid Hd Hcase] Hsa|b req4 req6 p ips token Hs -> Hroom Hass Hsa]; cbn.
  - destruct (to_count _ _ _ _ _ Hok r s Hh) as (Hcnt & H16 & Heb). destruct Hsa as [Hid2 He2 Ha2 _ _ _].
    rewrite (sat_epoch r s Hh) in Hcase.
    eapply table_ok_put; [exact Hm|exact Hh|destruct Hid, Hid2; congruence|..|exact Hl'|exact Hc].
    + destruct Hcase as [(?&_)|(?&_)]; lia.
    + rewrite Hl. destruct Hcase as [(E1 & Hlt & E2 & _)|(E1 & E2 & _)].
      * rewrite Ha2, E2, He2, E1, <-Hcnt. unfold_ints. pose proof (live_nonneg conns r (es s)). rewrite Z.mod_small by lia. lia.
      * rewrite Ha2, E2, He2, E1, (live_new_epoch n _ _ _ _ r s (es s + 1) Hok Hh ltac:(lia)). lia.
    + destruct Hcase as [(_ & Hlt & E2 & _)|(_ & E2 & _)]; rewrite Ha2, E2; [|lia].
      pose proof (live_nonneg conns r (es s)). unfold_ints. rewrite Z.mod_small by lia. lia.
  - set (s0 := build_session conf rq en ips token) in *. set (h1 := <[sv_next c := s0]> (sv_heap c)).
    destruct Hsa as [Hid He0 Ha0 _ _ _]. destruct (build_session_spec rq en ips token) as (Hb1 & Hb2 & _ & Hb3 & _). fold s0 in Hb1, Hb2, Hb3.
    rewrite Hb1 in He0. rewrite Hb2 in Ha0.
    assert (Hnew : forall k' ms1, conns !! k' = Some ms1 -> ms_client_session ms1 <> Some (sv_next c)).
    { intros k' ms1 H1' E. destruct (to_conn _ _ _ _ _ Hok k' ms1 _ H1' E) as (x & Hx & _).
      apply (to_fresh _ _ _ _ _ Hok) in Hx. lia. }
    assert (Hz : forall e, live_conns conns (sv_next c) e = 0).
    { intros e. apply live_zero. intros k' ms1 H1'. unfold attached. rewrite bool_decide_eq_false_2 by (by eapply Hnew). done. }
    assert (Hnone : sv_heap c !! sv_next c = None).
    { destruct (sv_heap c !! sv_next c) eqn:E; [|done]. apply (to_fresh _ _ _ _ _ Hok) in E. lia. }
    unfold h1. rewrite insert_insert_eq. destruct Hm as [Ht Hf Hcn Hco]. split.
    + intros id r'. destruct (decide (id = rq_client_id rq)) as [->|Hne].
      * rewrite Hb3, lookup_insert_eq. intros [= <-]. exists s'. rewrite lookup_insert_eq. split; [done|]. destruct Hid. congruence.
      * rewrite lookup_insert_ne by congruence. intros Hid'. destruct (Ht id r' Hid') as (x & Hx & Hcx). exists x.
        rewrite lookup_insert_ne; [done|]. intros <-. congruence.
    + intros r' x. destruct (decide (r' = sv_next c)) as [->|]; [lia|]. rewrite lookup_insert_ne by done.
      intros Hx%Hf. lia.
    + intros k' ms1 r' Hk' Hms1. destruct (Hc k' ms1 r' Hk' Hms1) as [(ms0 & Hk0 & Hms0 & <-)|[-> Hle]].
      * destruct (Hcn k' ms0 r' Hk0 Hms0) as (x & Hx & Hle). exists x. split; [|done].
        rewrite lookup_insert_ne; [done|]. intros <-. congruence.
      * exists s'. by rewrite lookup_insert_eq.
    + intros r' x. destruct (decide (r' = sv_next c)) as [->|Hne].
      * rewrite lookup_insert_eq. intros [= <-]. rewrite Hl, Hz.
        rewrite Ha0, He0. lia.
      * rewrite lookup_insert_ne, Hl' by done. apply Hco.
Qed.
Lemma handshake_ok req en nu now wo c' o resp :
  handle_handshake v6 conf c ms req en nu now wo = (c', ms', o, resp) -> core_ok (n + 1) c' (<[k := ms']> conns).
Proof using Hok Hk Hun Hn0 Hn.
  intros E. destruct (handshake_cases _ _ _ _ _ _ _ _ _ _ _ E) as [_ [(E1 & _ & _ & Hr)|(rq & r & s' & _ & _ & _ & E1 & E2 & Ha)]].
  - eapply refused_ok; [congruence|done].
  - by eapply attached_ok.
Qed.
End Handshake.

(** Closing a connection. *)
Lemma close_session_spec s b ce ba now (s' := close_session s b ce ba now) :
  same_identity s s' /\ es s' = es s /\ es_instance_id (cs_epoch_state s') = es_instance_id (cs_epoch_state s) /\
  (if es s =? ce then
     active s' = u32_wrap (active s - 1) /\
     (if active s <=? 1 then cs_destroy_deadline s' = Some (now + SESSION_RETENTION, st_disconnect_version (cs_stat s'))
      else cs_destroy_deadline s' = cs_destroy_deadline s /\
           st_disconnect_version (cs_stat s') = st_disconnect_version (cs_stat s))
   else active s' = active s /\ cs_destroy_deadline s' = cs_destroy_deadline s /\
        st_disconnect_version (cs_stat s') = st_disconnect_version (cs_stat s)).
Proof.
  unfold s', close_session. cbn.
  assert (E : forall (x y : ClientSession), cs_epoch_state (if ba then x else y) = if ba then cs_epoch_state x else cs_epoch_state y) by by destruct ba.
  destruct ba; cbn; destruct (es s =? ce); cbn; [destruct (active s <=? 1)| |destruct (active s <=? 1)|]; by repeat split.
Qed.

Lemma close_ok n c conns k ms now :
  core_ok n c conns -> conns !! k = Some ms -> core_ok n (on_conn_closed c ms now) (delete k conns).
Proof.
  intros Hok Hk. unfold core_ok, on_conn_closed.
  assert (Hsub : forall k' ms1 r', delete k conns !! k' = Some ms1 -> ms_client_session ms1 = Some r' ->
    exists ms0, conns !! k' = Some ms0 /\ ms_client_session ms0 = Some r' /\ ms_session_epoch ms0 = ms_session_epoch ms1).
  { intros k' ms1 r' [_ Hk']%lookup_delete_Some ?. by exists ms1. }
  destruct (ms_client_session ms) as [r|] eqn:Er; last first.
  { eapply table_ok_conns; [exact Hok| |exact Hsub]. intros r e. rewrite (live_delete _ _ _ _ _ Hk), unattached by done. lia. }
  destruct (to_conn _ _ _ _ _ Hok k ms r Hk Er) as (s & Hs & Hle). rewrite Hs. cbn.
  destruct (to_count _ _ _ _ _ Hok r s Hs) as (Hcnt & H16 & Hb).
  destruct (close_session_spec s (ms_tx_backend ms) (ms_session_epoch ms) (ms_brutal_applied ms) now) as ([Hid _ _ _ _] & He & _ & Hcase).
  set (s' := close_session _ _ _ _ _) in *. clearbody s'.
  eapply table_ok_put; [exact Hok|exact Hs|done|lia|..].
  - rewrite He, (live_delete _ _ _ _ _ Hk), (attached_iff _ _ _ _ Er), bool_decide_eq_true_2 by done. cbn.
    rewrite (Z.eqb_sym (ms_session_epoch ms)). destruct (Z.eqb_spec (es s) (ms_session_epoch ms)) as [E|E]; [|lia].
    destruct Hcase as [-> _].
    assert (0 < live_conns conns r (es s)).
    { eapply live_pos; [exact Hk|]. rewrite (attached_iff _ _ _ _ Er), bool_decide_eq_true_2, E by done. by rewrite Z.eqb_refl. }
    unfold_ints. rewrite Z.mod_small by lia. lia.
  - destruct (Z.eqb_spec (es s) (ms_session_epoch ms)) as [E|E]; [|lia]. destruct Hcase as [-> _].
    assert (0 < live_conns conns r (es s)).
    { eapply live_pos; [exact Hk|]. rewrite (attached_iff _ _ _ _ Er), bool_decide_eq_true_2, E by done. by rewrite Z.eqb_refl. }
    unfold_ints. rewrite Z.mod_small by lia. lia.
  - intros r' e Hne. rewrite (live_delete _ _ _ _ _ Hk), (attached_iff _ _ _ _ Er), bool_decide_eq_false_2 by done. cbn. lia.
  - intros k' ms1 r' Hk' Hms1. left. by eapply Hsub.
Qed.

Lemma retire_spec s fresh (s' := retire_epoch s fresh) :
  same_identity s s' /\ cs_destroy_deadline s' = cs_destroy_deadline s /\
  st_disconnect_version (cs_stat s') = st_disconnect_version (cs_stat s) /\
  is_prefix exhausted_prefix (es_instance_id (cs_epoch_state s')) = true /\
  (s' = s \/ (es s' = u64_sat_add (es s) 1 /\ active s' = 0)).
Proof.
  unfold s', retire_epoch. destruct (is_prefix _ _) eqn:E.
  - repeat split; try done. by left.
  - repeat split. by right.
Qed.

Lemma destroy_spec c r :
  sv_heap (destroy_session c r) = sv_heap c /\ sv_next (destroy_session c r) = sv_next c /\
  sv_banned (destroy_session c r) = sv_banned c /\
  (destroy_session c r = c \/
   exists s, sv_heap c !! r = Some s /\ sv_sessions c !! cid s = Some r /\
     sv_sessions (destroy_session c r) = delete (cid s) (sv_sessions c) /\
     sv_registry (destroy_session c r) = delete (cid s) (sv_registry c) /\
     sv_vswitch (destroy_session c r) = remove_port (sv_vswitch c) (cid s) /\
     sv_pool (destroy_session c r) = pool_release (sv_pool c) (cs_mac s) (cs_ipv4 s) (cs_ipv6 s)).
Proof.
  unfold destroy_session, destroy_unlink. destruct (sv_heap c !! r) as [s|] eqn:Hs; [|by repeat split; left].
  destruct (sv_sessions c !! cid s) as [cur|] eqn:Ec; [|by repeat split; left].
  destruct (Nat.eqb_spec cur r) as [->|]; cbn [negb]; [|by repeat split; left].
  destruct (rx_runtime_snapshot s) as [[[rec lost] ?] ?]. unfold destroy_cleanup. cbn. rewrite Hs. cbn.
  repeat split. right. by exists s.
Qed.
Lemma destroy_ok n c conns r : core_ok n c conns -> core_ok n (destroy_session c r) conns.
Proof.
  intros Hok. destruct (destroy_spec c r) as (Hh & Hn & _ & [->|(s & _ & _ & Hs & _)]); [done|].
  unfold core_ok. rewrite Hh, Hn, Hs. eapply table_ok_sub; [|exact Hok]. by intros id r' [_ ?]%lookup_delete_Some.
Qed.
Lemma fold_ok {A} (f : ServerCore -> A -> ServerCore) (P : ServerCore -> Prop) l c :
  (forall c x, P c -> P (f c x)) -> P c -> P (fold_left f l c).
Proof. intros Hf. revert c. induction l as [|x l IH]; intros c Hc; [done|]. apply IH. by apply Hf. Qed.
Lemma kick_ref_ok n c conns r : core_ok n c conns -> core_ok n (kick_ref c r) conns.
Proof.
  intros Hok. unfold kick_ref. destruct (sv_heap c !! r) as [s|] eqn:Hs; [|done].
  apply destroy_ok. by eapply table_ok_same.
Qed.
Lemma control_ok n c conns nu a : core_ok n c conns -> core_ok n (control c nu a) conns.
Proof.
  intros Hok. destruct a as [id|id ttl|id|]; cbn.
  - unfold kick. case_match; [by apply kick_ref_ok|done].
  - destruct (ban _ _ _ _) as [b ok]. destruct ok; [|done]. unfold kick. case_match; [by apply kick_ref_ok|done].
  - done.
  - unfold kick_all. apply (fold_ok _ (fun c => core_ok n c conns)); [|done]. intros. by apply kick_ref_ok.
Qed.

(** *** Runs *)

Definition server_ok (n : Z) (st : server) : Prop := core_ok n (sr_core st) (sr_conns st) /\ pending_unattached (sr_conns st).

Lemma close_conn_ok n st k now :
  core_ok n (sr_core st) (sr_conns st) -> pending_unattached (delete k (sr_conns st)) -> server_ok n (close_conn st k now).
Proof.
  intros Hok Hp. unfold close_conn. destruct (sr_conns st !! k) as [ms|] eqn:Hk.
  - split; [by apply close_ok|done].
  - split; [done|]. by rewrite delete_id in Hp.
Qed.
(** The operations that can begin an epoch. *)
Definition epoch_op (op : server_op) : Z := match op with OHandshake _ _ _ _ _ _ | OSweep _ _ => 1 | _ => 0 end.
Definition epoch_ops (ops : list server_op) : Z := foldr (fun op n => epoch_op op + n) 0 ops.
Lemma epoch_op_bound op : 0 <= epoch_op op <= 1.
Proof. destruct op; cbn; lia. Qed.
Lemma epoch_ops_bound ops : 0 <= epoch_ops ops <= zlen ops.
Proof. induction ops as [|op ops IH]; cbn; [lia|]. fold (epoch_ops ops). pose proof (epoch_op_bound op). lia. Qed.
Lemma epoch_ops_app l1 l2 : epoch_ops (l1 ++ l2) = epoch_ops l1 + epoch_ops l2.
Proof. induction l1 as [|op l1 IH]; cbn; [done|]. fold (epoch_ops (l1 ++ l2)) (epoch_ops l1). lia. Qed.
Lemma server_ok_mono n m st : n <= m -> server_ok n st -> server_ok m st.
Proof. intros Hn [Ho ?]. split; [|done]. by eapply table_ok_mono. Qed.

Lemma server_step_epochs n st op :
  0 <= n -> 2 + n <= U64_MAX -> server_ok n st -> server_ok (n + epoch_op op) (server_step st op).
Proof.
  intros Hn0 Hn [Hok Hp].
  assert (Hmono : forall st', server_ok n st' -> server_ok (n + epoch_op op) st').
  { intros st'. apply server_ok_mono. pose proof (epoch_op_bound op). lia. }
  assert (Hdel : forall k (m : gmap nat MioSession), pending_unattached m -> pending_unattached (delete k m)).
  { intros k m Hm k' ms [_ Hk']%lookup_delete_Some Hd. by apply (Hm k' ms). }
  destruct op as [k ms|k req en nu now wo|k fresh|k now|now|nu a|r port rb dd actor dec|src reg frame now]; cbn [server_step].
  - apply Hmono. case_decide as Hd; [|done]. destruct Hd as (Hk & Hu & _). split; cbn.
    + eapply table_ok_conns; [exact Hok|..].
      * intros r e. rewrite live_insert, unattached by done. lia.
      * intros k' ms1 r. destruct (decide (k' = k)) as [->|]; [rewrite lookup_insert_eq; congruence|].
        rewrite lookup_insert_ne by done. intros. by exists ms1.
    + intros k' ms1. destruct (decide (k' = k)) as [->|]; [rewrite lookup_insert_eq; congruence|].
      rewrite lookup_insert_ne by done. apply Hp.
  - destruct (sr_conns st !! k) as [ms|] eqn:Hk; [|by apply Hmono]. destruct (ms_handshake_done ms) eqn:Hd; [by apply Hmono|].
    destruct (handle_handshake _ _ _ _ _ _ _ _ _) as [[[c' ms'] o] resp] eqn:E.
    destruct (handshake_cases _ _ _ _ _ _ _ _ _ _ _ E) as [Hdone _]. pose proof (Hp k ms Hk Hd) as Hu.
    assert (Hc : core_ok (n + 1) c' (<[k := ms']> (sr_conns st))) by (by eapply handshake_ok).
    assert (Hpd : pending_unattached (delete k (<[k := ms']> (sr_conns st)))).
    { intros k' ms1. rewrite delete_insert_eq. intros [_ Hk']%lookup_delete_Some Hd1. by apply (Hp k' ms1). }
    destruct o; [|by apply close_conn_ok..]. split; cbn.
    + eapply table_ok_conns; [exact Hc|..].
      * intros r e. rewrite !(live_replace _ _ _ _ _ _ Hk). done.
      * intros k' ms1 r. destruct (decide (k' = k)) as [->|].
        -- rewrite !lookup_insert_eq. intros [= <-] Hr. by exists ms'.
        -- rewrite !lookup_insert_ne by done. intros. by exists ms1.
    + intros k' ms1. destruct (decide (k' = k)) as [->|]; [by rewrite lookup_insert_eq; intros [= <-]|].
      rewrite lookup_insert_ne by done. apply Hp.
  - destruct (sr_conns st !! k) as [ms|] eqn:Hk; [|by apply Hmono].
    unfold sweep_conn. destruct (ms_client_session ms) as [r|] eqn:Er; [|by apply Hmono].
    destruct (sv_heap (sr_core st) !! r) as [s|] eqn:Hs; [|by apply Hmono].
    destruct (po_sequence_exhausted _); [|by apply Hmono].
    split; [|done]. cbn. destruct (retire_spec s fresh) as ([Hid _ _ _ _] & _ & _ & _ & [->|[He Ha]]).
    + unfold core_ok. cbn. rewrite insert_id by done. eapply table_ok_mono; [|exact Hok]. lia.
    + rewrite (sat_epoch n _ _ Hok Hn r s Hs) in He. by eapply table_ok_bump.
  - apply Hmono, close_conn_ok; [done|by apply Hdel].
  - apply Hmono. split; [|done]. cbn. unfold reap. apply (fold_ok _ (fun c => core_ok n c (sr_conns st))); [|done].
    intros. by apply destroy_ok.
  - apply Hmono. split; [|done]. by apply control_ok.
  - apply Hmono. destruct (sv_heap (sr_core st) !! r) as [s|] eqn:Hs; [|done]. split; [|done]. by eapply table_ok_same.
  - apply Hmono. by split.
Qed.

Lemma server_step_ok n st op :
  0 <= n -> 2 + n <= U64_MAX -> server_ok n st -> server_ok (n + 1) (server_step st op).
Proof.
  intros Hn0 Hn Hok. pose proof (epoch_op_bound op). apply (server_ok_mono (n + epoch_op op)); [lia|]. by apply server_step_epochs.
Qed.
Lemma server_new_ok v4cidr v6cidr : server_ok 0 (server_new v4cidr v6cidr).
Proof. split; [|by intros k ms ?]. unfold core_ok. cbn. split; by intros. Qed.
Lemma server_run_ok ops : forall n st,
  0 <= n -> n + 1 + zlen ops <= U64_MAX -> server_ok n st -> server_ok (n + zlen ops) (server_run st ops).
Proof.
  induction ops as [|op ops IH]; intros n st Hn0 Hn Hok; cbn [server_run foldl length] in *.
  - by rewrite Z.add_0_r.
  - replace (n + Z.of_nat (S (length ops))) with (n + 1 + zlen ops) by lia. apply IH; [lia|lia|].
    apply server_step_ok; [done|lia|done].
Qed.

Lemma server_run_epochs ops : forall n st,
  0 <= n -> n + 1 + epoch_ops ops < U64_MAX -> server_ok n st -> server_ok (n + epoch_ops ops) (server_run st ops).
Proof.
  induction ops as [|op ops IH]; intros n st Hn0 Hn Hok; cbn [server_run foldl epoch_ops foldr] in *.
  - by rewrite Z.add_0_r.
  - fold (epoch_ops ops) in *. pose proof (epoch_op_bound op). pose proof (epoch_ops_bound ops).
    rewrite Z.add_assoc. apply IH; [lia|lia|]. apply server_step_epochs; [done|lia|done].
Qed.

(** C9: whatever the order of handshakes, closes, sweeps, reaping, operator actions
    and traffic, the connection counter of every session in the table is exactly
    the number of its open connections of the current key epoch and never exceeds
    sixteen, so it cannot underflow and the retention period starts exactly when
    the last of them closes.  A connection never claims an epoch its session has
    not reached. *)
Theorem active_conns_exact v4cidr v6cidr ops id r s :
  zlen ops < U64_MAX ->
  let st := server_run (server_new v4cidr v6cidr) ops in
  sv_sessions (sr_core st) !! id = Some r -> sv_heap (sr_core st) !! r = Some s ->
  cid s = id /\ active s = live_conns (sr_conns st) r (es s) /\ 0 <= active s <= 16 /\
  forall k ms, sr_conns st !! k = Some ms -> ms_client_session ms = Some r -> ms_session_epoch ms <= es s.
Proof.
  intros Hl st Hid Hs.
  destruct (server_run_ok ops 0 _ ltac:(lia) ltac:(lia) (server_new_ok v4cidr v6cidr)) as [Hok _]. fold st in Hok.
  destruct (to_table _ _ _ _ _ Hok id r Hid) as (s0 & Hs0 & Hc0). destruct (to_count _ _ _ _ _ Hok r s Hs) as (Hc & H16 & _).
  pose proof (live_nonneg (sr_conns st) r (es s)). simplify_eq. repeat split; try done; try lia.
  intros k ms Hk Hms. destruct (to_conn _ _ _ _ _ Hok k ms r Hk Hms) as (s1 & Hs1 & Hle). by simplify_eq.
Qed.

(** ** Addresses, switch ports and the registry *)

Definition lease_of (s : ClientSession) : lease := {| ls_mac := cs_mac s; ls_v4 := cs_ipv4 s; ls_v6 := cs_ipv6 s |}.
Definition table_leases (heap : gmap nat ClientSession) (table : gmap string nat) : list lease :=
  omap (fun e : string * nat => lease_of <$> heap !! e.2) (map_to_list table).
Definition session_port (id : string) (r : nat) : port_ref := {| pr_id := id; pr_serial := r |}.

(** What the sessions of the table hold, and that nothing else is held. *)
Record resources_ok (gw4 gw6 : text) (c : ServerCore) : Prop := {
  ro_room : 0 < sc_max_sessions conf -> Z.of_nat (size (sv_sessions c)) <= sc_max_sessions conf;
  ro_registry : sv_registry c = sv_sessions c;
  ro_ports : forall id, id <> TAP_PORT_ID -> vs_ports (sv_vswitch c) !! id = session_port id <$> sv_sessions c !! id;
  ro_owner : forall id r s, sv_sessions c !! id = Some r -> sv_heap c !! r = Some s ->
    cid s = id /\ id <> TAP_PORT_ID /\ bytes_of_string id = expected_client_id conf (cs_mac s) /\
    cs_mac s = format_mac (cs_mac_bin s) /\ cs_mac_bin s <> null_mac /\ static_at (sv_vswitch c) (cs_mac_bin s) id;
  ro_pinned : forall m id, static_at (sv_vswitch c) m id ->
    exists r s, sv_sessions c !! id = Some r /\ sv_heap c !! r = Some s /\ cs_mac_bin s = m;
  ro_known : forall id r, sv_sessions c !! id = Some r -> is_Some (sv_heap c !! r);
  ro_fresh : forall r s, sv_heap c !! r = Some s -> (r < sv_next c)%nat;
  ro_pool : pool_inv v6 gw4 gw6 (sv_pool c) (table_leases (sv_heap c) (sv_sessions c)) }.

(** The name-based UUID is a text of bytes. *)
Class UuidLaws := { uuid_v5_bytes : forall ns x, bytes_ok (uuid_v5 ns x) }.

Section Resources.
Context `{!HexLaws} `{!UuidLaws} `{!FamilyLaws v6}.

Section Gateways.
Context (gw4 gw6 : text).

(** What the checks establish of an accepted request. *)
Lemma check_request_spec rq :
  check_request conf rq = None ->
  exists m, parse_mac_key (request_mac rq) = Some m /\ request_mac rq = format_mac m /\ m <> null_mac /\
    bytes_of_string (rq_client_id rq) = expected_client_id conf (request_mac rq) /\ rq_client_id rq <> TAP_PORT_ID.
Proof.
  unfold check_request. destruct (check_credentials conf rq); [done|]. unfold check_format.
  case_bool_decide; [done|]. destruct (is_valid_client_id _) eqn:Ei; [|done]. cbn.
  destruct (is_valid_session_mac (rq_mac rq)) eqn:Em; [|done]. cbn. intros E.
  unfold is_valid_session_mac in Em. destruct (parse_mac_key (rq_mac rq)) as [m|] eqn:Ep; [|done].
  destruct (canonical_mac_roundtrip _ _ Ep) as (Hl & Hb & Hcan & Hpf & _).
  assert (Hrm : request_mac rq = format_mac m) by (unfold request_mac; by rewrite Hcan).
  exists m. rewrite Hrm. split; [done|]. split; [done|]. split.
  { unfold mac_unicast in Em. apply andb_true_iff in Em as [Em%negb_true_iff _]. by apply bool_decide_eq_false in Em. }
  split.
  - destruct (constant_time_eq _ _) eqn:Ec in E; [|by repeat case_match]. rewrite Hrm in Ec.
    eapply constant_time_eq_correct in Ec; [done|apply bytes_of_string_ok|apply uuid_v5_bytes].
  - intros Et. rewrite Et in Ei. vm_compute in Ei. done.
Qed.

Lemma table_leases_put heap table r s s' :
  heap !! r = Some s -> same_identity s s' -> table_leases (<[r := s']> heap) table = table_leases heap table.
Proof.
  intros Hr [_ Hm _ Hv4 Hv6]. unfold table_leases. apply list_omap_ext. apply Forall_Forall2_diag, Forall_forall. intros [id r'] _. cbn.
  destruct (decide (r' = r)) as [->|]; [|by rewrite lookup_insert_ne].
  rewrite lookup_insert_eq, Hr. cbn. unfold lease_of. by rewrite Hm, Hv4, Hv6.
Qed.

Lemma resources_put c r s s' :
  resources_ok gw4 gw6 c -> sv_heap c !! r = Some s -> same_identity s s' -> resources_ok gw4 gw6 (sv_put c r s').
Proof.
  intros [Hro Hrg Hpo How Hpin Hkn Hfr Hpl] Hr Hid. split; cbn; try done.
  - intros id r' s1 Ht. destruct (decide (r' = r)) as [->|]; [|rewrite lookup_insert_ne by done; by apply How].
    rewrite lookup_insert_eq. intros [= <-]. destruct Hid as [-> -> -> _ _]. by eapply How.
  - intros m id (r' & s1 & Ht & Hs1 & Hm)%Hpin. destruct (decide (r' = r)) as [->|].
    + exists r, s'. rewrite lookup_insert_eq, (si_mac_bin _ _ Hid). by simplify_eq.
    + exists r', s1. by rewrite lookup_insert_ne.
  - intros id r' Ht. destruct (decide (r' = r)) as [->|]; [by rewrite lookup_insert_eq|].
    rewrite lookup_insert_ne by done. by eapply Hkn.
  - intros r' s1. destruct (decide (r' = r)) as [->|]; [intros _; by eapply Hfr|]. rewrite lookup_insert_ne by done. apply Hfr.
  - by rewrite (table_leases_put _ _ _ s).
Qed.
Lemma resources_banned c b : resources_ok gw4 gw6 c -> resources_ok gw4 gw6 (sv_set_banned c b).
Proof. by intros []. Qed.
Lemma resources_pool c p :
  resources_ok gw4 gw6 c -> pool_inv v6 gw4 gw6 p (table_leases (sv_heap c) (sv_sessions c)) -> resources_ok gw4 gw6 (sv_set_pool c p).
Proof. by intros []. Qed.

Lemma pool_inv_perm p l1 l2 : l1 ≡ₚ l2 -> pool_inv v6 gw4 gw6 p l1 -> pool_inv v6 gw4 gw6 p l2.
Proof. intros HP [? ? Hv4 Hv6]. split; try done; (eapply leases_perm; [|done]); by rewrite HP. Qed.
Lemma pool_inv_release p l live : pool_inv v6 gw4 gw6 p (l :: live) -> forall m, pool_inv v6 gw4 gw6 (pool_release p m (ls_v4 l) (ls_v6 l)) live.
Proof. intros [? ? Hv4 Hv6] m. split; try done; by eapply (leases_release _ ). Qed.

Lemma resources_destroy c r : resources_ok gw4 gw6 c -> resources_ok gw4 gw6 (destroy_session c r).
Proof.
  intros Hok. destruct (destroy_spec c r) as (Hh & Hn & _ & [->|(s & Hs & Ht & E1 & E2 & E3 & E4)]); [done|].
  destruct Hok as [Hro Hrg Hpo How Hpin Hkn Hfr Hpl]. split; rewrite ?Hh, ?Hn, ?E1, ?E2, ?E3, ?E4.
  - intros Hm. rewrite map_size_delete, Ht. specialize (Hro Hm). cbn. lia.
  - by rewrite Hrg.
  - intros id Hne. cbn. destruct (decide (id = cid s)) as [->|]; [by rewrite !lookup_delete_eq|].
    rewrite !lookup_delete_ne by done. by apply Hpo.
  - intros id r' s1 [Hne Ht']%lookup_delete_Some Hs1. destruct (How id r' s1 Ht' Hs1) as (? & ? & ? & ? & ? & e & He & Hst & Hpid).
    repeat split; try done. exists e. split; [|done]. cbn. apply map_lookup_filter_Some. split; [done|]. cbn. congruence.
  - intros m id (e & [He Hne]%map_lookup_filter_Some & Hst & Hpid). cbn in Hne.
    destruct (Hpin m id) as (r' & s1 & Ht' & Hs1 & Hm); [by exists e|]. exists r', s1.
    rewrite lookup_delete_ne by congruence. done.
  - intros id r' [_ ?]%lookup_delete_Some. by eapply Hkn.
  - done.
  - eapply (pool_inv_release _ (lease_of s)). eapply pool_inv_perm; [|exact Hpl].
    unfold table_leases. rewrite <-(map_to_list_delete _ _ _ Ht). cbn. by rewrite Hs.
Qed.
Lemma resources_kick c r : resources_ok gw4 gw6 c -> resources_ok gw4 gw6 (kick_ref c r).
Proof.
  intros Hok. unfold kick_ref. destruct (sv_heap c !! r) as [s|] eqn:Hs; [|done].
  apply resources_destroy. eapply resources_put; [done..|]. by constructor.
Qed.

Lemma resources_refused c en c' : resources_ok gw4 gw6 c -> hs_refused c en c' -> resources_ok gw4 gw6 c'.
Proof.
  intros Hok Hr. destruct Hr as [b|b r s s' Hs [Hid _ _]|b p req4 req6 Ha|b p req4 req6 ips m Ha].
  - by apply resources_banned.
  - eapply resources_put; [by apply resources_banned|done|done].
  - apply resources_pool; [by apply resources_banned|]. exact (assign_inv v6 gw4 gw6 _ _ _ _ _ None [] (ro_pool _ _ _ Hok) Ha).
  - apply resources_pool; [by apply resources_banned|]. cbn.
    apply (pool_inv_release p {| ls_mac := m; ls_v4 := ips.1; ls_v6 := ips.2 |}).
    exact (assign_inv v6 gw4 gw6 _ _ _ _ _ (Some ips) m (ro_pool _ _ _ Hok) Ha).
Qed.

(** The new session takes a free slot, its own switch port and its own MAC entry. *)
Lemma resources_publish c rq en ips token p now :
  resources_ok gw4 gw6 c -> check_request conf rq = None -> session_room c -> sv_sessions c !! rq_client_id rq = None ->
  (exists req4 req6, assign_addresses v6 (sv_pool c) req4 req6 = (p, Some ips)) ->
  resources_ok gw4 gw6 (publish_session c (build_session conf rq en ips token) (bind_mac p (request_mac rq) ips) now).1.
Proof.
  intros [Hro Hrg Hpo How Hpin Hkn Hfr Hpl] Hcheck Hroom Hnew (req4 & req6 & Ha).
  destruct (check_request_spec rq Hcheck) as (m & Hpm & Hfm & Hnull & Hcid & Htap).
  destruct (build_session_spec rq en ips token) as (_ & _ & _ & Bid & Bmac & Bbin & B4 & B6 & _).
  set (s := build_session conf rq en ips token) in *. rewrite Hpm in Bbin. cbn in Bbin.
  assert (Hfresh : sv_heap c !! sv_next c = None).
  { destruct (sv_heap c !! sv_next c) eqn:E; [|done]. apply Hfr in E. lia. }
  assert (Hne : forall id r, sv_sessions c !! id = Some r -> r <> sv_next c).
  { intros id r Ht ->. destruct (Hkn id _ Ht) as [? E]. congruence. }
  unfold publish_session, add_static_mac. rewrite Bid, Bbin, decide_False by done.
  split; cbn; rewrite ?Bid.
  - intros Hm. rewrite map_size_insert_None by done. specialize (Hroom Hm). lia.
  - by rewrite Hrg.
  - intros id Hid. destruct (decide (id = rq_client_id rq)) as [->|]; [by rewrite !lookup_insert_eq|].
    rewrite !lookup_insert_ne by done. by apply Hpo.
  - intros id r s1. destruct (decide (id = rq_client_id rq)) as [->|Hid].
    + rewrite lookup_insert_eq. intros [= <-]. rewrite lookup_insert_eq. intros [= <-].
      rewrite Bid, Bmac, Bbin. repeat split; try done. eexists. split; [apply lookup_insert_eq|done].
    + rewrite lookup_insert_ne by done. intros Ht. rewrite lookup_insert_ne by (intros E; by apply (Hne _ _ Ht)).
      intros Hs1. destruct (How id r s1 Ht Hs1) as (E1 & E2 & E3 & E4 & E5 & e & He & Hst & Hpid).
      repeat split; try done. exists e. split; [|done]. cbn. rewrite (lookup_insert_ne (vs_mac_table (sv_vswitch c))); [done|]. intros E.
      apply Hid, bytes_of_string_inj. rewrite E3, Hcid, E4, Hfm. by rewrite E.
  - intros m' id (e & He & Hst & Hpid). cbn in He. destruct (decide (m' = m)) as [->|].
    + rewrite (lookup_insert_eq (vs_mac_table (sv_vswitch c))) in He. injection He as <-. cbn in Hpid. subst id.
      exists (sv_next c), s. by rewrite !lookup_insert_eq.
    + rewrite (lookup_insert_ne (vs_mac_table (sv_vswitch c))) in He by done.
      destruct (Hpin m' id) as (r & s1 & Ht & Hs1 & Hm); [by exists e|]. exists r, s1.
      rewrite lookup_insert_ne by congruence. rewrite lookup_insert_ne by (intros E; by apply (Hne _ _ Ht)). done.
  - intros id r. destruct (decide (id = rq_client_id rq)) as [->|].
    + rewrite lookup_insert_eq. intros [= <-]. by rewrite lookup_insert_eq.
    + rewrite lookup_insert_ne by done. intros Ht. rewrite lookup_insert_ne by (intros E; by apply (Hne _ _ Ht)). by eapply Hkn.
  - intros r s1. destruct (decide (r = sv_next c)) as [->|]; [lia|]. rewrite lookup_insert_ne by done. intros Hs1%Hfr. lia.
  - pose proof (assign_inv v6 gw4 gw6 _ _ _ _ _ (Some ips) (request_mac rq) Hpl Ha) as Hp. cbn in Hp.
    assert (Hb : pool_inv v6 gw4 gw6 (bind_mac p (request_mac rq) ips) (lease_of s :: table_leases (sv_heap c) (sv_sessions c))).
    { assert (El : lease_of s = {| ls_mac := request_mac rq; ls_v4 := ips.1; ls_v6 := ips.2 |})
        by (unfold lease_of; by rewrite Bmac, B4, B6).
      rewrite El. unfold bind_mac. destruct (request_mac rq); [done|]. by destruct Hp. }
    eapply pool_inv_perm; [|exact Hb]. unfold table_leases. rewrite (map_to_list_insert _ _ _ Hnew). cbn.
    rewrite lookup_insert_eq. cbn. apply Permutation_cons; [done|]. apply reflexive_eq, list_omap_ext, Forall_Forall2_diag, Forall_forall.
    intros [id r] Hin%elem_of_map_to_list. cbn. rewrite lookup_insert_ne; [done|]. intros E. by apply (Hne _ _ Hin).
Qed.

Lemma resources_attached c rq en now r s' c' :
  resources_ok gw4 gw6 c -> check_request conf rq = None -> hs_attached c rq en now r s' c' -> resources_ok gw4 gw6 c'.
Proof.
  intros Hok Hcheck Ha. destruct Ha as [b s s1 Ht Hs [Hid _ _] [Hid2 _ _ _ _ _]|b req4 req6 p ips token Ht -> Hroom Hass [Hid _ _ _ _ _]].
  - eapply resources_put; [by apply resources_banned|done|]. by eapply same_identity_trans.
  - eapply resources_put; [|cbn; apply lookup_insert_eq|exact Hid].
    apply resources_publish; try done; [by apply resources_banned|]. by exists req4, req6.
Qed.

Lemma resources_close c ms now : resources_ok gw4 gw6 c -> resources_ok gw4 gw6 (on_conn_closed c ms now).
Proof.
  intros Hok. unfold on_conn_closed. destruct (ms_client_session ms) as [r|]; [|done].
  destruct (sv_heap c !! r) as [s|] eqn:Hs; [|done]. eapply resources_put; [done..|]. apply close_session_spec.
Qed.
Lemma resources_close_conn st k now : resources_ok gw4 gw6 (sr_core st) -> resources_ok gw4 gw6 (sr_core (close_conn st k now)).
Proof. intros Hok. unfold close_conn. destruct (sr_conns st !! k); [|done]. by apply resources_close. Qed.

Lemma resources_frame c f src reg frame now :
  resources_ok gw4 gw6 c ->
  resources_ok gw4 gw6
    {| sv_heap := sv_heap c; sv_next := sv_next c; sv_sessions := sv_sessions c; sv_registry := sv_registry c;
       sv_vswitch := (process_frame_inner (set_validate_mac (sv_vswitch c) f) src reg frame now).1; sv_pool := sv_pool c; sv_banned := sv_banned c;
       sv_fec_recovered_retired := sv_fec_recovered_retired c; sv_fec_lost_retired := sv_fec_lost_retired c |}.
Proof.
  intros [Hro Hrg Hpo How Hpin Hkn Hfr Hpl]. split; cbn; try done.
  - intros id Hid. rewrite <-Hpo by done. unfold process_frame_inner. case_match; [done|].
    destruct (check_src _ _ _ _ _) as [s1|] eqn:E; [|done]. destruct (forward s1 src frame now) as [s2 out] eqn:E2. cbn.
    destruct (forward_tables _ _ _ _ _ _ E2) as [_ ->]. by destruct (check_src_ports _ _ _ _ _ _ E) as [-> _].
  - intros id r s Ht Hs. destruct (How id r s Ht Hs) as (? & ? & ? & ? & ? & Hst). repeat split; try done.
    by apply process_frame_static.
  - intros m id Hst. by apply Hpin, (process_frame_static_inv _ _ _ _ _ _ _ Hst).
Qed.

Lemma resources_step st op : resources_ok gw4 gw6 (sr_core st) -> resources_ok gw4 gw6 (sr_core (server_step st op)).
Proof.
  intros Hok.
  destruct op as [k ms|k req en nu now wo|k fresh|k now|now|nu a|r port rb dd actor dec|src reg frame now]; cbn [server_step].
  - by case_decide.
  - destruct (sr_conns st !! k) as [ms|]; [|done]. destruct (ms_handshake_done ms); [done|].
    destruct (handle_handshake _ _ _ _ _ _ _ _ _) as [[[c' ms'] o] resp] eqn:E.
    destruct (handshake_cases _ _ _ _ _ _ _ _ _ _ _ E) as [_ Hcase].
    assert (Hc : resources_ok gw4 gw6 c').
    { destruct Hcase as [(_ & _ & _ & Hr)|(rq & r & s' & _ & Hcheck & _ & _ & _ & Ha)]; [by eapply resources_refused|by eapply resources_attached]. }
    destruct o; [done|by apply resources_close_conn..].
  - destruct (sr_conns st !! k) as [ms|]; [|done]. unfold sweep_conn.
    destruct (ms_client_session ms) as [r|]; [|done]. destruct (sv_heap (sr_core st) !! r) as [s|] eqn:Hs; [|done].
    destruct (po_sequence_exhausted _); [|done]. cbn. eapply resources_put; [done..|]. apply retire_spec.
  - by apply resources_close_conn.
  - cbn. unfold reap. apply (fold_ok _ (resources_ok gw4 gw6)); [|done]. intros. by apply resources_destroy.
  - destruct a as [id|id ttl|id|]; cbn.
    + unfold kick. case_match; [by apply resources_kick|done].
    + destruct (ban _ _ _ _) as [b ok]. destruct ok; [|by apply resources_banned].
      unfold kick. case_match; [by apply resources_kick, resources_banned|by apply resources_banned].
    + by apply resources_banned.
    + unfold kick_all. apply (fold_ok _ (resources_ok gw4 gw6)); [|done]. intros. by apply resources_kick.
  - destruct (sv_heap (sr_core st) !! r) as [s|] eqn:Hs; [|done]. cbn. eapply resources_put; [done..|]. by constructor.
  - by apply resources_frame.
Qed.

End Gateways.

(** C10: over any run the sessions of the table, and nothing else, hold resources:
    each has its own switch port and a pinned MAC entry, every switch port but the
    TAP's and every pinned MAC entry belongs to one of them, the registry lists exactly
    them, their number respects the configured maximum, their identifiers are the
    ones their MACs derive, and their addresses are pairwise distinct, inside the
    networks, never the gateway, and exactly what the pool marks as used. *)
Theorem session_resources_consistent v4cidr v6cidr ops :
  (parse_v4_cidr v4cidr).2 < 32 -> (parse_v6_cidr v6 v6cidr).2 < fam_bits v6 -> 128 <= fam_bits v6 ->
  let '(_, gw4, gw6) := IpPool_new v6 v4cidr v6cidr in
  resources_ok gw4 gw6 (sr_core (server_run (server_new v4cidr v6cidr) ops)).
Proof.
  intros Hm4 Hm6 Hw. destruct (IpPool_new v6 v4cidr v6cidr) as [[p0 gw4] gw6] eqn:E.
  destruct (pool_new_inv _ _ _ _ _ _ Hm4 Hm6 Hw E) as [Hp _].
  apply (server_run_invariant (fun st => resources_ok gw4 gw6 (sr_core st))); [intros; by apply resources_step|].
  split; [intros Hm; cbn; rewrite map_size_empty; lia|done..|by intros m id (e & ? & _)|done|done|]. cbn. by rewrite E.
Qed.
End Resources.
End Spec.

(** ** A concrete server, for examples *)

Definition demo_client : string := "01234567-89ab-4cde-8f01-23456789abcd".
#[export] Instance demo_uuid : UuidLib := {|
  uuid_parse s := if (length s =? 36)%nat then Some s else None;
  uuid_url := []; uuid_v3 ns x := x; uuid_v5 ns x := bytes_of_string demo_client |}.
#[export] Instance demo_uuid_laws : UuidLaws.
Proof. split. intros. apply bytes_of_string_ok. Qed.
#[export] Existing Instance demo_brutal_ops.

Definition demo_conf : ServerConf :=
  {| sc_psk := [7; 7]; sc_psk_hash := [1; 2; 3]; sc_encrypt := true; sc_enc_algo := ENC_ALGO_XCHACHA20; sc_min_enc := 0;
     sc_brutal := true; sc_brutal_up := 100; sc_brutal_down := 50; sc_max_sessions := 4; sc_fec_group_min := 2;
     sc_fec_group_max := 64; sc_gw_v4 := bytes_of_string "10.0.0.1"; sc_gw_v6 := []; sc_v4_mask_bits := 29;
     sc_v6_mask_bits := 64; sc_port_dispatch := true; sc_rx_batch := 32 |}.
Definition demo_rq (instance token : list Z) : HandshakeReq :=
  {| rq_protocol_version := PROTOCOL_VERSION; rq_client_instance := instance; rq_conn_id := [];
     rq_client_id := demo_client; rq_psk := [1; 2; 3]; rq_mac := bytes_of_string "02:00:00:00:00:07"; rq_ipv4 := [];
     rq_ipv6 := []; rq_brutal_groups := true; rq_brutal_total_tx := 80; rq_brutal_total_rx := 60; rq_brutal_conns := 2;
     rq_brutal_conn_index := 0; rq_fec := true; rq_fec_group := 4; rq_encrypt := true; rq_enc_algo := ENC_ALGO_XCHACHA20;
     rq_session_token := token; rq_peer_info := None |}.
Definition demo_instance_a : list Z := bytes_of_string "process-a-000001".
Definition demo_instance_b : list Z := bytes_of_string "process-b-000002".
Definition demo_token (n : Z) : list Z := replicate 64 (48 + n).
Definition demo_en (n : Z) : entropy :=
  {| en_salt_a := replicate 8 n; en_salt_b := replicate 8 (n + 1); en_token := Some (demo_token n); en_session_id := [n] |}.
Definition demo_conn (k : nat) : MioSession :=
  {| ms_socket := {| dk_algo := bytes_of_string "cubic"; dk_params := [] |}; ms_conn_id := []; ms_tx_backend := demo_be k 8 0;
     ms_handshake_done := false; ms_client_session := None; ms_ic_rx := None; ms_session_epoch := 0; ms_rx_producer := None;
     ms_brutal_applied := false |}.
(** Process A opens two connections and drops the first, then process B resumes the
    session with the token of A, and the reaper runs. *)
Definition demo_ops : list server_op :=
  [OConnect 1 (demo_conn 1); OHandshake 1 (Some (demo_rq demo_instance_a [])) (demo_en 1) 0 10 true;
   OConnect 2 (demo_conn 2); OHandshake 2 (Some (demo_rq demo_instance_a [])) (demo_en 2) 0 20 true; OClose 1 30;
   OConnect 3 (demo_conn 3); OHandshake 3 (Some (demo_rq demo_instance_b (demo_token 1))) (demo_en 3) 0 40 true;
   OSweep 2 []; OClose 2 50; OReap 500000].
Definition demo_server (n : nat) : server := server_run raw_v6 demo_conf (server_new raw_v6 demo_v4cidr []) (take n demo_ops).

Lemma active_conns_exact_witness :
  exists s, sv_heap (sr_core (demo_server 5)) !! 0%nat = Some s /\
    st_active_conns (cs_stat s) = live_conns (sr_conns (demo_server 5)) 0 (es_epoch (cs_epoch_state s)) /\
    st_active_conns (cs_stat s) = 1.
Proof.
  assert (Hs : exists s, sv_heap (sr_core (demo_server 5)) !! 0%nat = Some s /\ st_active_conns (cs_stat s) = 1).
  { eexists. split; vm_compute; reflexivity. }
  destruct Hs as (s & Hs & Ha). exists s. split; [done|]. split; [|done].
  apply (active_conns_exact raw_v6 demo_conf demo_v4cidr [] (take 5 demo_ops) demo_client 0 s);
    [done|vm_compute; reflexivity|exact Hs].
Defined.

Lemma session_resources_consistent_witness :
  resources_ok raw_v6 demo_conf (bytes_of_string "10.0.0.1") (be_encode 16 (253 * 2 ^ 120 + 1)) (sr_core (demo_server 10)) /\
  size (sv_sessions (sr_core (demo_server 10))) = 1%nat.
Proof.
  split; [|vm_compute; reflexivity].
  exact (session_resources_consistent raw_v6 demo_conf demo_v4cidr [] demo_ops eq_refl eq_refl ltac:(discriminate)).
Defined.
