(* ===== verification/SessionGuard.v ===== *)
(** * Admission, resumption and retention of sessions

    Who gets a session, that a client cannot be locked out of the one it holds, and
    when the server takes a session back. *)
From S2P Require Import Prelude Protocol Utils Crypto Xor Fec Buffer Reorder RxActor Adaptive Queue Port PortSpec VSwitch Pool Brutal PeerInfo Session SessionSpec.

Section Guard.
Context `{FrameChannel} `{CryptoPrims} `{HexCodec} `{UuidLib} `{BrutalSocketOps}.
Context (v6 : family) (conf : ServerConf).

Abbreviation es s := (es_epoch (cs_epoch_state s)).
Abbreviation active s := (st_active_conns (cs_stat s)).
Abbreviation cid s := (st_client_id (cs_stat s)).

(** ** Tokens *)

(** Random tokens are 64 hexadecimal digits. *)
Definition token_ok (t : list Z) : Prop := bytes_ok t /\ length t = 64%nat.
Definition tokens_ok (e : SessionEpochState) : Prop :=
  token_ok (es_resume_token e) /\ (es_pending_resume_token e = [] \/ token_ok (es_pending_resume_token e)).
Definition entropy_ok (en : entropy) : Prop := forall t, en_token en = Some t -> token_ok t.
(** A token that resumes the session: the current one or the offered successor. *)
Definition resumes (e : SessionEpochState) (t : list Z) : Prop :=
  length t = 64%nat /\ (t = es_resume_token e \/ t = es_pending_resume_token e).

Lemma tokens_bytes e : tokens_ok e -> bytes_ok (es_resume_token e) /\ bytes_ok (es_pending_resume_token e).
Proof. intros [[? _] [->|[? _]]]; split; done. Qed.
Lemma verify_token a b : bytes_ok a -> bytes_ok b -> verify_random_session_token a b = true <-> a = b /\ length a = 64%nat.
Proof. intros Ha Hb. by apply constant_time_eq_correct. Qed.
Lemma pending_matches_iff e t :
  tokens_ok e -> bytes_ok t -> pending_matches e t = true <-> es_pending_resume_token e = t /\ length t = 64%nat.
Proof.
  intros [_ Hp]%tokens_bytes Ht. unfold pending_matches. rewrite andb_true_iff, verify_token by done. split; [naive_solver|].
  intros [<- Hl]. split; [|done]. by destruct (es_pending_resume_token e).
Qed.

Lemma accept_spec e t :
  tokens_ok e -> bytes_ok t -> exists e' b, accept_session_resume_token e t = (e', b) /\ tokens_ok e' /\
  (b = true <-> resumes e t) /\ es_enc_algo e' = es_enc_algo e /\ es_instance_id e' = es_instance_id e /\
  (b = false -> e' = e) /\
  (b = true -> es_resume_token e' = t /\
     (es_pending_resume_token e' = [] \/ es_pending_resume_token e' = es_pending_resume_token e /\ t = es_resume_token e)).
Proof.
  intros He Ht. destruct (tokens_bytes _ He) as [Hr Hp]. unfold accept_session_resume_token, resumes.
  destruct (verify_random_session_token _ _) eqn:Ev.
  { apply verify_token in Ev as [<- Hl]; [|done..]. eexists _, true. split; [done|]. naive_solver. }
  destruct (pending_matches e t) eqn:Ep.
  { apply pending_matches_iff in Ep as [<- Hl]; [|done..]. eexists _, true. split; [done|]. unfold tokens_ok, token_ok. cbn. naive_solver. }
  eexists _, false. split; [done|]. split; [done|]. split; [|naive_solver]. split; [done|]. intros [Hl [->| ->]].
  - assert (verify_random_session_token (es_resume_token e) (es_resume_token e) = true) by (by apply verify_token). congruence.
  - assert (pending_matches e (es_pending_resume_token e) = true) by (by apply pending_matches_iff). congruence.
Qed.

Lemma response_resumes e : tokens_ok e -> resumes e (response_resume_token e).
Proof.
  intros [[? Hl] Hp]. unfold response_resume_token, resumes. destruct (es_pending_resume_token e) eqn:E; cbn; [by split; [|left]|].
  destruct Hp as [?|[_ ?]]; [done|]. split; [done|by right].
Qed.
Lemma ensure_pending_spec e fresh e' :
  tokens_ok e -> (forall t, fresh = Some t -> token_ok t) -> ensure_pending_resume_token e fresh = Some e' ->
  tokens_ok e' /\ es_resume_token e' = es_resume_token e /\
  (es_pending_resume_token e' = es_pending_resume_token e /\ es_pending_resume_token e <> [] \/
   es_pending_resume_token e = [] /\ Some (es_pending_resume_token e') = fresh).
Proof.
  intros [Hc Hp] Hf. unfold ensure_pending_resume_token. destruct (es_pending_resume_token e) as [|x l] eqn:E; cbn.
  - destruct fresh as [t|]; [|done]. intros [= <-]. cbn. split; [|split; [done|by right]]. split; [done|]. right. by apply Hf.
  - intros [= <-]. rewrite E. split; [|split; [done|by left]]. split; [done|]. rewrite E. by right; destruct Hp.
Qed.

(** ** Resuming *)

(** The outcome of the token part, for a session whose tokens are well formed. *)
Lemma resume_tokens s rq en :
  tokens_ok (cs_epoch_state s) -> bytes_ok (rq_session_token rq) -> entropy_ok en ->
  tokens_ok (cs_epoch_state (resume_epoch conf s rq en).1).
Proof.
  intros He Ht Hen. unfold resume_epoch. case_bool_decide; cbn [negb].
  - destruct (pending_matches _ _) eqn:Ep; cbn; [|done]. apply pending_matches_iff in Ep as [<- Hl]; [|done..].
    destruct (tokens_bytes _ He). split; [by split|by left].
  - destruct (accept_spec (cs_epoch_state s) (rq_session_token rq) He Ht) as (e' & b & -> & He' & _).
    destruct b; cbn [negb]; [|done]. destruct (rotate_session_epoch _ _ _ _ _) as [s1|] eqn:Er; [|done].
    apply rotate_spec in Er as (_ & _ & _ & _ & _ & _ & Hr & Hp & _). cbn in Hr, Hp.
    assert (Hs1 : tokens_ok (cs_epoch_state s1)) by (unfold tokens_ok; by rewrite Hr, Hp).
    destruct (ensure_pending_resume_token _ _) as [e2|] eqn:E2; [|done]. by apply ensure_pending_spec in E2 as [? _].
Qed.

Lemma resume_accepts s rq en fresh (t := rq_session_token rq) :
  tokens_ok (cs_epoch_state s) -> bytes_ok t -> resumes (cs_epoch_state s) t -> en_token en = Some fresh -> token_ok fresh ->
  (exists ciphers, make_ciphers conf (en_salt_a en) (en_salt_b en) (es_enc_algo (cs_epoch_state s)) = Ok ciphers) ->
  exists s', resume_epoch conf s rq en = (s', None) /\ resumes (cs_epoch_state s') t /\
    (es_instance_id (cs_epoch_state s) = rq_client_instance rq /\ active s' = active s \/ active s' = 0) /\
    (t <> es_resume_token (cs_epoch_state s) ->
     forall old, resumes (cs_epoch_state s') old -> old = t \/ old = fresh).
Proof.
  intros He Ht Hres Hen Hf [ci Hci]. pose proof Hres as [Hl Hor]. unfold resume_epoch. case_bool_decide as Ei; cbn [negb].
  - destruct (pending_matches _ _) eqn:Ep; fold t in Ep.
    + apply pending_matches_iff in Ep as [Ep _]; [|done..]. eexists. split; [done|]. cbn. split; [split; [done|by left]|].
      split; [by left|]. intros _ old [Hlo [->| ->]]; cbn in *; [by left|done].
    + eexists. split; [done|]. split; [done|]. split; [by left|]. intros Hne. destruct Hor as [?|Hp]; [done|].
      assert (pending_matches (cs_epoch_state s) t = true) by (by apply pending_matches_iff). congruence.
  - destruct (accept_spec (cs_epoch_state s) t He Ht) as (e' & b & Ea & He' & Hb & Halg & _ & _ & Htok). fold t. rewrite Ea.
    apply Hb in Hres as Hbt. subst b. cbn [negb]. destruct (Htok eq_refl) as [Hcur Hpend].
    unfold rotate_session_epoch at 1. cbn [cs_epoch_state cs_set_epoch]. rewrite Halg, Hci. cbn [result_bind].
    set (s1 := cs_set_stat _ _ _). assert (Hs1 : es_resume_token (cs_epoch_state s1) = t /\
      es_pending_resume_token (cs_epoch_state s1) = es_pending_resume_token e' /\ active s1 = 0).
    { unfold s1. cbn. repeat split. by unfold reset_rx; cbn; repeat case_match. }
    clearbody s1. destruct Hs1 as (Hs1 & Hs2 & Hact).
    unfold ensure_pending_resume_token. rewrite Hs2, Hen. destruct (es_pending_resume_token e') as [|x l] eqn:Epe; cbn [is_nil].
    + eexists. split; [done|]. unfold resumes. cbn. rewrite Hs1. split; [split; [done|by left]|]. split; [by right|].
      intros _ old [_ [->| ->]]; [by left|by right].
    + rewrite cs_set_epoch_id. exists s1. split; [done|]. unfold resumes. rewrite Hs1. split; [split; [done|by left]|]. split; [by right|].
      intros Hne. destruct Hpend as [?|[_ ?]]; [done|]. congruence.
Qed.

(** ** Tokens over a run *)

Definition same_tokens (e e' : SessionEpochState) : Prop :=
  es_resume_token e' = es_resume_token e /\ es_pending_resume_token e' = es_pending_resume_token e.
Lemma tokens_ok_same e e' : same_tokens e e' -> tokens_ok e -> tokens_ok e'.
Proof. intros [E1 E2]. unfold tokens_ok. by rewrite E1, E2. Qed.
Lemma resumes_same e e' t : same_tokens e e' -> resumes e' t <-> resumes e t.
Proof. intros [E1 E2]. unfold resumes. by rewrite E1, E2. Qed.

(** [revive_session] changes tokens only through [resume_epoch]. *)
Lemma revive_epoch_state s rq en :
  cs_epoch_state (revive_session conf s rq en).1 = cs_epoch_state s \/
  cs_epoch_state (revive_session conf s rq en).1 = cs_epoch_state (resume_epoch conf s rq en).1.
Proof.
  unfold revive_session. case_match; [by left|]. case_match; [by left|]. right.
  destruct (resume_epoch conf s rq en) as [s1 [o|]]; [done|]. by case_match.
Qed.
Lemma attach_tokens c ms r s rq wo c' ms' o resp :
  attach conf c ms r s rq wo = (c', ms', o, resp) ->
  exists s', c' = sv_put c r s' /\ same_tokens (cs_epoch_state s) (cs_epoch_state s') /\
    (wo = true -> o = HOk /\ exists rs, resp = Some rs /\ rs_session_token rs = response_resume_token (cs_epoch_state s')).
Proof.
  unfold attach. destruct (negotiate_brutal conf rq) as [[stx ctx] leg].
  set (s1 := attach_session _ _ _ _ _). assert (Ht : same_tokens (cs_epoch_state s) (cs_epoch_state s1)).
  { unfold s1, attach_session. cbn. by destruct (cs_rx_actor s), (es_fec_dec (cs_epoch_state s)). }
  clearbody s1. destruct wo; cbn [negb].
  - destruct (if _ && _ then _ else _) as [sock res]. intros [= <- <- <- <-]. eexists. split; [reflexivity|].
    split; [exact Ht|]. intros _. split; [done|]. eexists. split; [done|]. unfold make_response. by destruct (response_enc_salts _ _ _).
  - intros [= <- <- <- <-]. eexists. split; [reflexivity|]. by split.
Qed.

(** *** Invariants of the epoch state of every session

    A property of keys and tokens that survives resuming and holds of new sessions
    holds in every state the server reaches: nothing else touches them. *)

(** Equal but for instance, epoch number and decoder. *)
Definition same_secrets (e e' : SessionEpochState) : Prop :=
  same_tokens e e' /\ es_enc_algo e' = es_enc_algo e /\ es_salt_a e' = es_salt_a e /\ es_salt_b e' = es_salt_b e /\
  es_ic_tx e' = es_ic_tx e /\ es_ic_rx e' = es_ic_rx e.
Definition heap_all (P : SessionEpochState -> Prop) (c : ServerCore) : Prop :=
  forall r s, sv_heap c !! r = Some s -> P (cs_epoch_state s).
(** The token a new session starts with. *)
Definition first_token (rq : HandshakeReq) (en : entropy) : option (list Z) :=
  if valid_session_token_format (rq_session_token rq) then Some (rq_session_token rq) else en_token en.

Lemma attach_secrets c ms r s rq wo c' ms' o resp :
  attach conf c ms r s rq wo = (c', ms', o, resp) ->
  exists s', c' = sv_put c r s' /\ same_secrets (cs_epoch_state s) (cs_epoch_state s').
Proof.
  unfold attach. destruct (negotiate_brutal conf rq) as [[stx ctx] leg].
  set (s1 := attach_session _ _ _ _ _). assert (Ht : same_secrets (cs_epoch_state s) (cs_epoch_state s1)).
  { unfold s1, attach_session. cbn. by destruct (cs_rx_actor s), (es_fec_dec (cs_epoch_state s)). }
  clearbody s1. destruct wo; cbn [negb].
  - destruct (if _ && _ then _ else _) as [sock res]. intros [= <- <- <- <-]. eexists. split; [reflexivity|exact Ht].
  - intros [= <- <- <- <-]. eexists. split; [reflexivity|exact Ht].
Qed.

Section EpochInvariant.
Context (P : SessionEpochState -> Prop) (req_good : HandshakeReq -> Prop) (en_good : entropy -> Prop).
Hypothesis P_frame : forall e e', same_secrets e e' -> P e -> P e'.
Hypothesis P_resume : forall s rq en, P (cs_epoch_state s) -> req_good rq -> en_good en -> P (cs_epoch_state (resume_epoch conf s rq en).1).
Hypothesis P_create : forall rq en ips token, req_good rq -> en_good en -> first_token rq en = Some token ->
  P (cs_epoch_state (build_session conf rq en ips token)).

Definition op_good (op : server_op) : Prop :=
  match op with OHandshake _ req en _ _ _ => (forall rq, req = Some rq -> req_good rq) /\ en_good en | _ => True end.

Lemma heap_all_put c r s : heap_all P c -> P (cs_epoch_state s) -> heap_all P (sv_put c r s).
Proof.
  intros Hc Hs r' s'. cbn. destruct (decide (r' = r)) as [->|]; [rewrite lookup_insert_eq; by intros [= <-]|].
  rewrite lookup_insert_ne by done. apply Hc.
Qed.
Lemma revive_all s rq en : P (cs_epoch_state s) -> req_good rq -> en_good en -> P (cs_epoch_state (revive_session conf s rq en).1).
Proof. intros Hs Hrq Hen. destruct (revive_epoch_state s rq en) as [->| ->]; [done|by apply P_resume]. Qed.
Lemma create_all c rq en now :
  heap_all P c -> req_good rq -> en_good en -> heap_all P (create_session v6 conf c rq en now).1.
Proof.
  intros Hc Hrq Hen. unfold create_session. case_match; [done|]. destruct (bound_request _ _ _ _) as [req4 req6].
  destruct (assign_addresses _ _ _ _) as [p [ips|]]; [|done]. fold (first_token rq en).
  destruct (first_token rq en) as [token|] eqn:Et; [|done]. cbn. intros r s. cbn.
  destruct (decide (r = sv_next c)) as [->|]; [|rewrite lookup_insert_ne by done; apply Hc].
  rewrite lookup_insert_eq. intros [= <-]. by apply P_create.
Qed.
Lemma handshake_all c ms req en nu now wo :
  heap_all P c -> (forall rq, req = Some rq -> req_good rq) -> en_good en -> heap_all P (handle_handshake v6 conf c ms req en nu now wo).1.1.1.
Proof.
  intros Hc Hreq Hen. unfold handle_handshake. destruct req as [rq|]; [|done]. specialize (Hreq rq eq_refl).
  destruct (check_request conf rq); [done|]. destruct (is_banned _ _ _) as [b [|]]; [done|]. cbn [sv_set_banned sv_sessions sv_heap].
  assert (Hatt : forall c0 ms0 r s, heap_all P c0 -> P (cs_epoch_state s) -> heap_all P (attach conf c0 ms0 r s rq wo).1.1.1).
  { intros c0 ms0 r s H0' Hs. destruct (attach conf c0 ms0 r s rq wo) as [[[c' ms'] o] resp] eqn:E.
    apply attach_secrets in E as (s' & -> & Hst). apply heap_all_put; [done|]. by eapply P_frame. }
  destruct (sv_sessions c !! rq_client_id rq) as [r|].
  - destruct (sv_heap c !! r) as [s|] eqn:Hs; [|done].
    pose proof (revive_all s rq en (Hc r s Hs) Hreq Hen) as Ht1.
    destruct (revive_session conf s rq en) as [s1 [o|]]; [by apply heap_all_put|]. apply Hatt; [by apply heap_all_put|done].
  - pose proof (create_all (sv_set_banned c b) rq en now Hc Hreq Hen) as Hcr.
    destruct (create_session _ _ _ _ _ _) as [c1 [r|o]]; [|done]. cbn in Hcr.
    destruct (sv_heap c1 !! r) as [s|] eqn:Hs; [|done]. apply Hatt; [done|by eapply Hcr].
Qed.
Lemma close_conn_all st k now : heap_all P (sr_core st) -> heap_all P (sr_core (close_conn st k now)).
Proof.
  intros Hc. unfold close_conn. destruct (sr_conns st !! k) as [ms|]; [|done]. cbn. unfold on_conn_closed.
  destruct (ms_client_session ms) as [r|]; [|done]. destruct (sv_heap (sr_core st) !! r) as [s|] eqn:Hs; [|done].
  apply heap_all_put; [done|]. replace (cs_epoch_state (close_session _ _ _ _ _)) with (cs_epoch_state s); [by eapply Hc|].
  unfold close_session. by repeat case_match.
Qed.
Lemma destroy_all c r : heap_all P c -> heap_all P (destroy_session c r).
Proof. intros Hc r' s. destruct (destroy_spec c r) as (-> & _). apply Hc. Qed.
Lemma kick_ref_all c r : heap_all P c -> heap_all P (kick_ref c r).
Proof.
  intros Hc. unfold kick_ref. destruct (sv_heap c !! r) as [s|] eqn:Hs; [|done].
  apply destroy_all, heap_all_put; [done|]. by eapply (Hc r s).
Qed.
Lemma control_all c nu a : heap_all P c -> heap_all P (control c nu a).
Proof.
  intros Hc. destruct a; cbn; unfold kick.
  - case_match; [by apply kick_ref_all|done].
  - destruct (ban _ _ _ _) as [b []]; [|done]. case_match; [by apply kick_ref_all|done].
  - done.
  - unfold kick_all. apply (fold_ok _ (heap_all P)); [|done]. intros. by apply kick_ref_all.
Qed.
Lemma step_all st op : op_good op -> heap_all P (sr_core st) -> heap_all P (sr_core (server_step v6 conf st op)).
Proof.
  intros Hop Hc. destruct op as [k ms|k req en nu now wo|k fresh|k now|now|nu a|r port rb dd actor dec|src reg frame now]; cbn [server_step].
  - by case_decide.
  - destruct (sr_conns st !! k) as [ms|]; [|done]. destruct (ms_handshake_done ms); [done|].
    pose proof (handshake_all (sr_core st) ms req en nu now wo Hc (proj1 Hop) (proj2 Hop)) as Hh.
    destruct (handle_handshake _ _ _ _ _ _ _ _ _) as [[[c' ms'] []] resp]; [done|by apply close_conn_all..].
  - destruct (sr_conns st !! k) as [ms|]; [|done]. unfold sweep_conn. destruct (ms_client_session ms) as [r|]; [|done].
    destruct (sv_heap (sr_core st) !! r) as [s|] eqn:Hs; [|done].
    destruct (po_sequence_exhausted _); [|done]. cbn. apply heap_all_put; [done|]. specialize (Hc r s Hs).
    unfold retire_epoch. case_match; [done|]. by apply (P_frame (cs_epoch_state s)).
  - by apply close_conn_all.
  - cbn. unfold reap. apply (fold_ok _ (heap_all P)); [|done]. intros. by apply destroy_all.
  - by apply control_all.
  - destruct (sv_heap (sr_core st) !! r) as [s|] eqn:Hs; [|done]. cbn. apply heap_all_put; [done|]. apply (P_frame (cs_epoch_state s)); [done|by eapply (Hc r s)].
  - done.
Qed.
Lemma run_all_epochs ops st : Forall op_good ops -> heap_all P (sr_core st) -> heap_all P (sr_core (server_run v6 conf st ops)).
Proof.
  intros Hops. revert st. induction Hops as [|op ops Hop _ IH]; intros st Hst; [done|]. by apply IH, step_all.
Qed.
End EpochInvariant.

Definition heap_tokens : ServerCore -> Prop := heap_all tokens_ok.
Definition request_ok (req : option HandshakeReq) : Prop := forall rq, req = Some rq -> bytes_ok (rq_session_token rq).
Definition op_ok (op : server_op) : Prop :=
  match op with OHandshake _ req en _ _ _ => request_ok req /\ entropy_ok en | _ => True end.
Lemma create_tokens rq en ips token :
  bytes_ok (rq_session_token rq) -> entropy_ok en -> first_token rq en = Some token ->
  tokens_ok (cs_epoch_state (build_session conf rq en ips token)).
Proof.
  intros Ht Hen Et. assert (Htok : token_ok token).
  { unfold first_token in Et. destruct (valid_session_token_format _) eqn:Ev; [|by apply Hen]. simplify_eq.
    unfold valid_session_token_format in Ev. apply andb_true_iff in Ev as [?%Nat.eqb_eq _]. by split. }
  destruct (build_session_spec conf rq en ips token) as (_ & _ & _ & _ & _ & _ & _ & _ & E1 & E2).
  unfold tokens_ok. rewrite E1, E2. split; [done|by left].
Qed.
Lemma run_tokens ops st : Forall op_ok ops -> heap_tokens (sr_core st) -> heap_tokens (sr_core (server_run v6 conf st ops)).
Proof.
  apply (run_all_epochs tokens_ok (fun rq => bytes_ok (rq_session_token rq)) entropy_ok);
    [intros e e' [? _]; by apply tokens_ok_same|intros; by apply resume_tokens|intros; by apply create_tokens].
Qed.

Lemma revive_accepts s rq en fresh (t := rq_session_token rq) :
  request_mac rq = cs_mac s -> bytes_ok (cs_mac s) -> es_enc_algo (cs_epoch_state s) = rq_enc_algo rq ->
  tokens_ok (cs_epoch_state s) -> bytes_ok t -> resumes (cs_epoch_state s) t -> en_token en = Some fresh -> token_ok fresh ->
  (exists ciphers, make_ciphers conf (en_salt_a en) (en_salt_b en) (es_enc_algo (cs_epoch_state s)) = Ok ciphers) ->
  (es_instance_id (cs_epoch_state s) = rq_client_instance rq -> active s < MAX_SESSION_CONNS) ->
  exists s', revive_session conf s rq en = (s', None) /\ resumes (cs_epoch_state s') t /\
    (t <> es_resume_token (cs_epoch_state s) -> forall old, resumes (cs_epoch_state s') old -> old = t \/ old = fresh).
Proof.
  intros Hm Hmb Ha He Ht Hr Hen Hf Hci H16. destruct (resume_accepts s rq en fresh He Ht Hr Hen Hf Hci) as (s1 & E & Hr1 & Hact & Hold).
  unfold revive_session. replace (constant_time_eq _ _) with true by (symmetry; by apply constant_time_eq_correct; rewrite ?Hm).
  rewrite Ha, Z.eqb_refl. cbn [negb]. rewrite E. cbn.
  destruct (Z.leb_spec MAX_SESSION_CONNS (active s1)) as [Hge|]; [unfold MAX_SESSION_CONNS in *; exfalso; naive_solver lia|].
  eexists. split; [done|]. by split.
Qed.

(** C15: a client is never locked out by a lost answer.  In every state the server
    can reach, a client that presents the current or the offered token of its
    session is let in, by the process that owns the session or by a new one.
    Whether or not the answer then arrives, both the token it presented and the
    token the answer carries keep resuming the session; and presenting the offered
    token revokes the one before it. *)
Theorem resume_survives_lost_response v4cidr v6cidr ops ms rq en fresh nu now wo r s :
  Forall op_ok ops ->
  let c := sr_core (server_run v6 conf (server_new v6 v4cidr v6cidr) ops) in
  let t := rq_session_token rq in
  check_request conf rq = None -> (is_banned (sv_banned c) nu (rq_client_id rq)).2 = false ->
  sv_sessions c !! rq_client_id rq = Some r -> sv_heap c !! r = Some s ->
  request_mac rq = cs_mac s -> bytes_ok (cs_mac s) -> es_enc_algo (cs_epoch_state s) = rq_enc_algo rq ->
  bytes_ok t -> resumes (cs_epoch_state s) t -> en_token en = Some fresh -> token_ok fresh ->
  (exists ciphers, make_ciphers conf (en_salt_a en) (en_salt_b en) (es_enc_algo (cs_epoch_state s)) = Ok ciphers) ->
  (es_instance_id (cs_epoch_state s) = rq_client_instance rq -> active s < MAX_SESSION_CONNS) ->
  exists c' ms' o resp s', handle_handshake v6 conf c ms (Some rq) en nu now wo = (c', ms', o, resp) /\
    ms_client_session ms' = Some r /\ sv_heap c' !! r = Some s' /\ resumes (cs_epoch_state s') t /\
    (wo = true -> o = HOk /\ exists rs, resp = Some rs /\ resumes (cs_epoch_state s') (rs_session_token rs)) /\
    (t <> es_resume_token (cs_epoch_state s) ->
     forall old, bytes_ok old -> old <> fresh -> old <> t -> (accept_session_resume_token (cs_epoch_state s') old).2 = false).
Proof.
  intros Hops c t Hchk Hban Hid Hs Hm Hmb Ha Ht Hr Hen Hf Hci H16.
  assert (Hc : heap_tokens c) by (apply run_tokens; [done|by intros ??]). pose proof (Hc r s Hs) as He.
  destruct (revive_accepts s rq en fresh Hm Hmb Ha He Ht Hr Hen Hf Hci H16) as (s1 & E & Hr1 & Hold).
  assert (He1 : tokens_ok (cs_epoch_state s1)).
  { assert (Hen' : entropy_ok en) by (intros x; rewrite Hen; by intros [= <-]).
    pose proof (revive_epoch_state s rq en) as Hcase. rewrite E in Hcase. cbn in Hcase.
    destruct Hcase as [->| ->]; [done|by apply resume_tokens]. }
  unfold handle_handshake. fold c. rewrite Hchk. destruct (is_banned _ _ _) as [b hit]. cbn in Hban. subst hit.
  cbn [sv_set_banned sv_sessions sv_heap]. rewrite Hid, Hs, E.
  destruct (attach conf _ _ r s1 rq wo) as [[[c' ms'] o] resp] eqn:Eat.
  destruct (attach_spec _ _ _ _ _ _ _ _ _ _ _ Eat) as (_ & _ & _ & _ & _ & _ & _ & _ & Hms & _).
  apply attach_tokens in Eat as (s' & -> & Hst & Hwo). exists (sv_put (sv_put (sv_set_banned c b) r s1) r s'), ms', o, resp, s'.
  split; [done|]. split; [done|]. split; [apply lookup_insert_eq|]. rewrite (resumes_same _ _ _ Hst). split; [done|]. split.
  - intros Hw. destruct (Hwo Hw) as (-> & rs & -> & Hrs). split; [done|]. exists rs. split; [done|]. rewrite Hrs.
    apply response_resumes. by eapply tokens_ok_same.
  - intros Hne old Hob Hnf Hnt.
    destruct (accept_spec (cs_epoch_state s') old) as (e' & b' & Eacc & _ & Hiff & _); [by eapply tokens_ok_same|done|].
    rewrite Eacc. cbn. destruct b'; [|done]. destruct Hiff as [Hacc _]. specialize (Hacc eq_refl).
    apply (resumes_same _ _ _ Hst) in Hacc. by destruct (Hold Hne old Hacc).
Qed.

(** ** Admission *)

Definition banned_at (l : BanList) (id : string) (now : Z) : Prop :=
  exists exp, (l : gmap string Z) !! id = Some exp /\ (exp <= 0 \/ now < exp).
Lemma is_banned_iff l now id : id <> EmptyString -> (is_banned l now id).2 = true <-> banned_at l id now.
Proof.
  intros Hid. unfold is_banned, banned_at. rewrite decide_False by done.
  destruct ((l : gmap string Z) !! id) as [exp|] eqn:E; cbn; [|split; [done|by intros (? & ? & _)]].
  destruct (Z.ltb_spec 0 exp), (Z.leb_spec exp now); cbn; split; try done; try (intros (? & [= <-] & ?); lia);
    intros _; exists exp; (split; [done|lia]).
Qed.

Lemma check_credentials_spec rq :
  bytes_ok (rq_psk rq) -> bytes_ok (sc_psk_hash conf) -> check_credentials conf rq = None ->
  rq_psk rq = sc_psk_hash conf /\ rq_encrypt rq = sc_encrypt conf /\
  (sc_encrypt conf = true -> rq_enc_algo rq = sc_enc_algo conf /\ (0 < sc_min_enc conf -> is_inner_aead_algo (rq_enc_algo rq) = true)).
Proof.
  intros Hp Hh. unfold check_credentials. destruct (constant_time_eq _ _) eqn:Ec; [|done]. cbn [negb].
  apply constant_time_eq_correct in Ec; [|done..].
  destruct (Bool.eqb_spec (rq_encrypt rq) (sc_encrypt conf)) as [Ee|]; [|done]. cbn [negb].
  destruct (_ && _ && _) eqn:Ea; [done|]. destruct (sc_encrypt conf && negb (rq_enc_algo rq =? sc_enc_algo conf)) eqn:Eb; [done|]. intros _.
  split; [done|]. split; [done|]. intros Henc. rewrite Henc in Ea, Eb. cbn in Ea, Eb. split.
  - by destruct (Z.eqb_spec (rq_enc_algo rq) (sc_enc_algo conf)).
  - intros Hm. apply Z.ltb_lt in Hm. rewrite Hm in Ea. by destruct (is_inner_aead_algo _).
Qed.

(** C16: a connection gets a session only if the peer knows the pre-shared key, agrees
    on encryption and algorithm, claims the identifier that its MAC derives under the
    key, and is not banned.  An existing session admits it only in the process that
    owns the session, below the connection limit, or with the session's current or
    offered token; a new session only within the configured number. *)
Theorem handshake_admission `{!HexLaws} `{!UuidLaws} c ms req en nu now wo c' ms' o resp r :
  bytes_ok (sc_psk_hash conf) -> (forall rq, req = Some rq -> bytes_ok (rq_psk rq) /\ bytes_ok (rq_session_token rq)) ->
  heap_tokens c -> ms_client_session ms = None ->
  handle_handshake v6 conf c ms req en nu now wo = (c', ms', o, resp) -> ms_client_session ms' = Some r ->
  exists rq, req = Some rq /\ rq_psk rq = sc_psk_hash conf /\ rq_encrypt rq = sc_encrypt conf /\
    (sc_encrypt conf = true -> rq_enc_algo rq = sc_enc_algo conf /\ (0 < sc_min_enc conf -> is_inner_aead_algo (rq_enc_algo rq) = true)) /\
    bytes_of_string (rq_client_id rq) = expected_client_id conf (request_mac rq) /\ ~ banned_at (sv_banned c) (rq_client_id rq) nu /\
    match sv_sessions c !! rq_client_id rq with
    | None => r = sv_next c /\ session_room conf c
    | Some r0 => r = r0 /\ exists s, sv_heap c !! r = Some s /\
        (es_instance_id (cs_epoch_state s) = rq_client_instance rq /\ active s < 16 \/ resumes (cs_epoch_state s) (rq_session_token rq))
    end.
Proof.
  intros Hh Hb Hc Hms E Hr. destruct (handshake_cases _ _ _ _ _ _ _ _ _ _ _ _ _ E) as [_ [(E1 & _)|(rq & r' & s' & -> & Hchk & Hban & E1 & _ & Ha)]];
    [congruence|]. simplify_eq. destruct (Hb rq eq_refl) as [Hpsk Htok]. exists rq.
  destruct (check_request_spec conf rq Hchk) as (m & _ & _ & _ & Hcid & _).
  assert (Hcc : check_credentials conf rq = None) by (unfold check_request in Hchk; by case_match).
  assert (Hne : rq_client_id rq <> EmptyString).
  { unfold check_request in Hchk. rewrite Hcc in Hchk. unfold check_format in Hchk. intros Hn. by rewrite bool_decide_eq_true_2 in Hchk. }
  destruct (check_credentials_spec rq Hpsk Hh Hcc) as (? & ? & ?). split; [done|]. split; [done|]. split; [done|]. split; [done|].
  split; [done|]. split; [intros Hbn; apply is_banned_iff in Hbn; [congruence|done]|].
  destruct Ha as [b s s1 Ht Hs Hrev _|b req4 req6 p ips token Ht -> Hroom _ _]; rewrite Ht; [|done].
  split; [done|]. exists s. split; [done|]. destruct (ro_epoch _ _ _ Hrev) as [(_ & ? & _ & ?)|(_ & _ & Hacc)]; [by left|]. right.
  destruct (accept_spec (cs_epoch_state s) (rq_session_token rq)) as (e' & b' & Eacc & _ & Hiff & _); [by eapply Hc|done|].
  rewrite Eacc in Hacc. by apply Hiff.
Qed.

(** ** Retention *)

(** The entries of the table point to sessions that carry their key. *)
Definition keyed (c : ServerCore) : Prop :=
  forall id r, sv_sessions c !! id = Some r -> exists s, sv_heap c !! r = Some s /\ cid s = id.

Lemma destroy_lookup c r0 id r :
  keyed c -> sv_sessions (destroy_session c r0) !! id = Some r <-> sv_sessions c !! id = Some r /\ r <> r0.
Proof.
  intros Hk. split.
  - destruct (destroy_spec c r0) as (_ & _ & _ & [E|(s & Hs & Ht & E & _)]).
    + rewrite E. intros Hid. split; [done|]. intros ->. destruct (Hk id r0 Hid) as (s & Hs & Hc).
      assert (sv_sessions (destroy_session c r0) !! id = None); [|congruence].
      unfold destroy_session, destroy_unlink. rewrite Hs, Hc, Hid, Nat.eqb_refl. cbn [negb].
      destruct (rx_runtime_snapshot s) as [[[? ?] ?] ?]. unfold destroy_cleanup. cbn. rewrite Hs. cbn. apply lookup_delete_eq.
    + rewrite E. intros [Hne Hid]%lookup_delete_Some. split; [done|]. intros ->. destruct (Hk id r0 Hid) as (s' & Hs' & Hc). congruence.
  - intros [Hid Hne]. destruct (destroy_spec c r0) as (_ & _ & _ & [->|(s & Hs & Ht & -> & _)]); [done|].
    apply lookup_delete_Some. split; [|done]. congruence.
Qed.
Lemma destroy_keyed c r : keyed c -> keyed (destroy_session c r).
Proof.
  intros Hk id r' [Hid _]%destroy_lookup; [|done]. destruct (destroy_spec c r) as (-> & _). by apply Hk.
Qed.
Lemma destroy_all_lookup l : forall c id r,
  keyed c -> sv_sessions (fold_left destroy_session l c) !! id = Some r <-> sv_sessions c !! id = Some r /\ r ∉ l.
Proof.
  induction l as [|r0 l IH]; intros c id r Hk; cbn; [set_solver|].
  rewrite IH by by apply destroy_keyed. rewrite destroy_lookup by done. set_solver.
Qed.
Lemma reap_lookup c now id r s :
  keyed c -> sv_sessions c !! id = Some r -> sv_heap c !! r = Some s ->
  sv_sessions (reap c now) !! id = if expired s now then None else Some r.
Proof.
  intros Hk Hid Hs. assert (Hin : r ∈ reap_collect c now <-> expired s now = true).
  { unfold reap_collect. rewrite list_elem_of_filter, Hs. split; [by intros [? _]|]. intros Hx. split; [done|].
    apply list_elem_of_fmap. exists (id, r). split; [done|]. by apply elem_of_map_to_list. }
  destruct (sv_sessions (reap c now) !! id) as [r'|] eqn:E.
  - apply destroy_all_lookup in E as [E Hn]; [|done]. simplify_eq. destruct (expired s now); [|done]. by exfalso; apply Hn, Hin.
  - destruct (expired s now); [done|]. exfalso.
    assert (sv_sessions (reap c now) !! id = Some r); [|congruence]. apply destroy_all_lookup; [done|]. split; [done|].
    intros Hx%Hin. done.
Qed.

Definition exhausted (s : ClientSession) : Prop := is_prefix exhausted_prefix (es_instance_id (cs_epoch_state s)) = true.
(** An idle session counts down to its end, which is at most one retention period
    after [T], or its epoch was retired with its sequence space. *)
Definition idle_ok (T : Z) (s : ClientSession) : Prop :=
  active s = 0 ->
  (exists d, cs_destroy_deadline s = Some (d, st_disconnect_version (cs_stat s)) /\ d <= T + SESSION_RETENTION) \/ exhausted s.
Definition heap_idle (T : Z) (heap : gmap nat ClientSession) : Prop := forall r s, heap !! r = Some s -> idle_ok T s.
(** The random source works and the clock does not pass [T]. *)
Definition op_ready (T : Z) (op : server_op) : Prop :=
  match op with
  | OHandshake _ _ en _ now _ => is_Some (en_token en) /\ now <= T
  | OClose _ now => now <= T
  | _ => True
  end.

Lemma heap_idle_put T heap r s : heap_idle T heap -> idle_ok T s -> heap_idle T (<[r := s]> heap).
Proof.
  intros Hh Hs r' s'. destruct (decide (r' = r)) as [->|]; [rewrite lookup_insert_eq; by intros [= <-]|].
  rewrite lookup_insert_ne by done. apply Hh.
Qed.
Lemma idle_same T s s' :
  active s' = active s -> cs_destroy_deadline s' = cs_destroy_deadline s ->
  st_disconnect_version (cs_stat s') = st_disconnect_version (cs_stat s) ->
  es_instance_id (cs_epoch_state s') = es_instance_id (cs_epoch_state s) -> idle_ok T s -> idle_ok T s'.
Proof. unfold idle_ok, exhausted. by intros -> -> -> ->. Qed.

Lemma idle_close n T c conns k ms now :
  core_ok n c conns -> conns !! k = Some ms -> now <= T -> heap_idle T (sv_heap c) -> heap_idle T (sv_heap (on_conn_closed c ms now)).
Proof.
  intros Hok Hk Hnow Hh. unfold on_conn_closed. destruct (ms_client_session ms) as [r|] eqn:Er; [|done].
  destruct (sv_heap c !! r) as [s|] eqn:Hs; [|done]. cbn. apply heap_idle_put; [done|].
  destruct (to_count _ _ _ _ _ Hok r s Hs) as (Hcnt & H16 & _). pose proof (live_nonneg conns r (es s)).
  destruct (close_session_spec s (ms_tx_backend ms) (ms_session_epoch ms) (ms_brutal_applied ms) now) as (_ & _ & Hi & Hcase).
  destruct (es s =? _); [|by destruct Hcase as (? & ? & ?); eapply idle_same; [..|by eapply Hh]].
  destruct Hcase as [Ha Hd]. destruct (Z.leb_spec (active s) 1); intros Hz.
  - left. eexists. split; [exact Hd|]. lia.
  - rewrite Ha in Hz. unfold_ints. rewrite Z.mod_small in Hz; lia.
Qed.
Lemma idle_refused T c en c' : is_Some (en_token en) -> heap_idle T (sv_heap c) -> hs_refused v6 c en c' -> heap_idle T (sv_heap c').
Proof.
  intros [t Ht] Hh Hr. destruct Hr as [| b r s s' Hs [_ Hv Hcase]| |]; try done. cbn. apply heap_idle_put; [done|].
  destruct Hcase as [(_ & Ha & Hi & [Hd|H16])|(_ & _ & Hn)]; [|intros Hz; lia|congruence].
  eapply idle_same; [done..|]. by eapply Hh.
Qed.
Lemma idle_attached n T c conns rq en now r s' c' :
  core_ok n c conns -> heap_idle T (sv_heap c) -> hs_attached v6 conf c rq en now r s' c' -> heap_idle T (sv_heap c').
Proof.
  intros Hok Hh Ha. destruct Ha as [b s s1 Ht Hs [_ _ Hep] [_ _ Hact _ _ _]|b req4 req6 p ips token Ht -> Hroom Hass [_ _ Hact _ _ _]]; cbn.
  - apply heap_idle_put; [done|]. intros Hz. rewrite Hact in Hz.
    destruct (to_count _ _ _ _ _ Hok r s Hs) as (Hcnt & H16 & _). pose proof (live_nonneg conns r (es s)).
    destruct Hep as [(_ & ? & E & _)|(_ & E & _)]; rewrite E in Hz; unfold_ints; [rewrite Z.mod_small in Hz|]; lia.
  - rewrite insert_insert_eq. apply heap_idle_put; [done|]. intros Hz. rewrite Hact in Hz.
    destruct (build_session_spec conf rq en ips token) as (_ & E & _). rewrite E in Hz. lia.
Qed.

Lemma idle_close_conn n T st k now :
  core_ok n (sr_core st) (sr_conns st) -> now <= T -> heap_idle T (sv_heap (sr_core st)) ->
  heap_idle T (sv_heap (sr_core (close_conn st k now))).
Proof. intros Hok Hnow Hh. unfold close_conn. destruct (sr_conns st !! k) eqn:Hk; [|done]. by eapply idle_close. Qed.
Lemma idle_destroy T c r : heap_idle T (sv_heap c) -> heap_idle T (sv_heap (destroy_session c r)).
Proof. by destruct (destroy_spec c r) as (-> & _). Qed.
Lemma idle_kick T c r : heap_idle T (sv_heap c) -> heap_idle T (sv_heap (kick_ref c r)).
Proof.
  intros Hh. unfold kick_ref. destruct (sv_heap c !! r) as [s|] eqn:Hs; [|done].
  apply idle_destroy. cbn. apply heap_idle_put; [done|]. eapply (idle_same T s); try done. by eapply Hh.
Qed.
Lemma idle_control T c nu a : heap_idle T (sv_heap c) -> heap_idle T (sv_heap (control c nu a)).
Proof.
  intros Hh. destruct a; cbn; unfold kick.
  - case_match; [by apply idle_kick|done].
  - destruct (ban _ _ _ _) as [b []]; [|done]. case_match; [by apply idle_kick|done].
  - done.
  - unfold kick_all. apply (fold_ok _ (fun c => heap_idle T (sv_heap c))); [|done]. intros. by apply idle_kick.
Qed.

Lemma idle_step n T st op :
  0 <= n -> 2 + n <= U64_MAX -> server_ok n st -> op_ready T op -> heap_idle T (sv_heap (sr_core st)) ->
  heap_idle T (sv_heap (sr_core (server_step v6 conf st op))).
Proof.
  intros Hn0 Hn [Hok Hp] Hop Hh.
  destruct op as [k ms|k req en nu now wo|k fresh|k now|now|nu a|r port rb dd actor dec|src reg frame now]; cbn [server_step].
  - by case_decide.
  - destruct (sr_conns st !! k) as [ms|] eqn:Hk; [|done]. destruct (ms_handshake_done ms) eqn:Hd; [done|].
    destruct (handle_handshake _ _ _ _ _ _ _ _ _) as [[[c' ms'] o] resp] eqn:E. destruct Hop as [Hen Hnow].
    assert (Hc : core_ok (n + 1) c' (<[k := ms']> (sr_conns st))) by (eapply handshake_ok; try done; by eapply Hp).
    assert (Hi : heap_idle T (sv_heap c')).
    { destruct (handshake_cases _ _ _ _ _ _ _ _ _ _ _ _ _ E) as [_ [(_ & _ & _ & Hr)|(rq & r & s' & _ & _ & _ & _ & _ & Ha)]];
        [by eapply idle_refused|]. eapply idle_attached; [exact Hok|exact Hh|exact Ha]. }
    destruct o; [done|eapply idle_close_conn; [exact Hc|done|done]..].
  - destruct (sr_conns st !! k) as [ms|] eqn:Hk; [|done]. unfold sweep_conn.
    destruct (ms_client_session ms) as [r|] eqn:Er; [|done]. destruct (sv_heap (sr_core st) !! r) as [s|] eqn:Hs; [|done].
    destruct (po_sequence_exhausted _); [|done]. cbn. apply heap_idle_put; [done|].
    destruct (retire_spec s fresh) as (_ & _ & _ & Hex & _). by intros _; right.
  - by eapply idle_close_conn.
  - cbn. unfold reap. apply (fold_ok _ (fun c => heap_idle T (sv_heap c))); [|done]. intros. by apply idle_destroy.
  - by apply idle_control.
  - destruct (sv_heap (sr_core st) !! r) as [s|] eqn:Hs; [|done]. cbn. apply heap_idle_put; [done|].
    eapply (idle_same T s); try done. by eapply Hh.
  - done.
Qed.
Lemma idle_run T ops : forall n st,
  0 <= n -> n + 1 + zlen ops <= U64_MAX -> server_ok n st -> Forall (op_ready T) ops -> heap_idle T (sv_heap (sr_core st)) ->
  heap_idle T (sv_heap (sr_core (server_run v6 conf st ops))).
Proof.
  induction ops as [|op ops IH]; intros n st Hn0 Hn Hok Hops Hh; [done|]. apply Forall_cons in Hops as [Hop Hops].
  cbn [length] in Hn. cbn [server_run foldl]. eapply (IH (n + 1)); [lia|lia|apply server_step_ok; [done|lia|done]|done|].
  eapply idle_step; [done|lia|done..].
Qed.

(** C36: the reaper takes back exactly the sessions nobody uses.  In every state reached
    with a working random source, a session with an open connection survives any
    sweep of the reaper; one without connections has a deadline, at most 120 seconds
    after the last event, before which it survives and from which on the next sweep
    removes it.  The only exception is a session whose epoch ended because its
    sequence numbers ran out ([exhausted_session_is_kept] below). *)
Theorem idle_sessions_reclaimed v4cidr v6cidr T ops id r s :
  zlen ops < U64_MAX -> Forall (op_ready T) ops ->
  let c := sr_core (server_run v6 conf (server_new v6 v4cidr v6cidr) ops) in
  sv_sessions c !! id = Some r -> sv_heap c !! r = Some s ->
  (active s <> 0 -> forall now, sv_sessions (reap c now) !! id = Some r) /\
  (active s = 0 -> ~ exhausted s ->
   exists d, d <= T + SESSION_RETENTION /\ forall now, sv_sessions (reap c now) !! id = if d <=? now then None else Some r).
Proof.
  intros Hl Hops c Hid Hs.
  destruct (server_run_ok v6 conf ops 0 _ ltac:(lia) ltac:(lia) (server_new_ok v6 v4cidr v6cidr)) as [Hok _].
  assert (Hk : keyed c) by exact (to_table _ _ _ _ _ Hok).
  assert (Hi : idle_ok T s).
  { eapply (idle_run T ops 0 (server_new v6 v4cidr v6cidr)); [lia|lia|apply server_new_ok|done|by intros ??|exact Hs]. }
  split.
  - intros Ha now. rewrite (reap_lookup c now id r s Hk Hid Hs). unfold expired. by rewrite (proj2 (Z.eqb_neq _ _) Ha).
  - intros Ha Hex. destruct (Hi Ha) as [(d & Hd & Hle)|]; [|done]. exists d. split; [done|]. intros now.
    rewrite (reap_lookup c now id r s Hk Hid Hs). unfold expired. by rewrite Ha, Hd, !Z.eqb_refl.
Qed.

(** What the exception costs: once a sweep has retired the epoch of a session in use,
    no later sweep of the reaper removes it, at any time; only a handshake of its
    client or an operator can. *)
Theorem exhausted_session_is_kept c ms fresh r s now now' :
  ms_client_session ms = Some r -> sv_heap c !! r = Some s -> po_sequence_exhausted (cs_port s) = true ->
  ~ exhausted s -> cs_destroy_deadline s = None -> es s < U64_MAX -> ms_session_epoch ms = es s ->
  let c1 := (sweep_conn c ms fresh).1 in
  let c2 := on_conn_closed c1 ms now in
  exists s', sv_heap c2 !! r = Some s' /\ active s' = 0 /\ expired s' now' = false.
Proof.
  intros Hms Hs Hse Hnex Hd Hmax Hep c1 c2. unfold c2, c1, sweep_conn. rewrite Hms, Hs, Hse. cbn.
  unfold on_conn_closed. rewrite Hms. cbn. rewrite lookup_insert_eq. cbn. rewrite lookup_insert_eq. eexists. split; [done|].
  destruct (retire_spec s fresh) as (_ & Hd' & _ & Hex & Hcase).
  set (s1 := retire_epoch s fresh) in *. destruct Hcase as [E|[He Ha]]; [by rewrite E in Hex|].
  destruct (close_session_spec s1 (ms_tx_backend ms) (ms_session_epoch ms) (ms_brutal_applied ms) now) as (_ & _ & _ & Hc).
  replace (es s1 =? ms_session_epoch ms) with false in Hc by (symmetry; apply Z.eqb_neq; rewrite He, Hep; unfold_ints; lia).
  destruct Hc as (Ha' & Hd2 & _). rewrite Ha', Ha. split; [done|]. unfold expired. by rewrite Ha', Ha, Hd2, Hd', Hd.
Qed.

(** ** Rates *)

(** The negotiated TCP Brutal rates never exceed what either side asked for: where
    the server or the client set a budget for a direction, the rate of that direction
    is at most it, and a direction has no rate only if neither set one. *)
Theorem brutal_budgets_respected rq server_tx client_tx share :
  0 <= sc_brutal_down conf -> 0 <= sc_brutal_up conf -> 0 <= rq_brutal_total_rx rq -> 0 <= rq_brutal_total_tx rq ->
  negotiate_brutal conf rq = (server_tx, client_tx, share) ->
  (0 < sc_brutal_down conf -> 0 < server_tx <= sc_brutal_down conf) /\ (0 < sc_brutal_up conf -> 0 < client_tx <= sc_brutal_up conf) /\
  (group_offer rq = true -> (0 < rq_brutal_total_rx rq -> 0 < server_tx <= rq_brutal_total_rx rq) /\
                            (0 < rq_brutal_total_tx rq -> 0 < client_tx <= rq_brutal_total_tx rq)) /\
  (server_tx = 0 <-> sc_brutal_down conf = 0 /\ (group_offer rq = true -> rq_brutal_total_rx rq = 0)).
Proof.
  assert (Hclip : forall own req, 0 <= own -> 0 <= req ->
    (0 < own -> 0 < clip_rate own req <= own) /\ (0 < req -> 0 < clip_rate own req <= req) /\
    (clip_rate own req = 0 <-> own = 0 /\ req = 0)).
  { intros own req. unfold clip_rate. destruct (Z.ltb_spec 0 req), (Z.eqb_spec own 0), (Z.ltb_spec req own); cbn; lia. }
  intros Hd Hu Hrx Htx. unfold negotiate_brutal.
  destruct (group_offer rq); intros [= <- <- _].
  - pose proof (Hclip _ _ Hd Hrx). pose proof (Hclip _ _ Hu Htx). naive_solver.
  - pose proof (Hclip _ 0 Hd ltac:(lia)). pose proof (Hclip _ 0 Hu ltac:(lia)). naive_solver.
Qed.
End Guard.

(** ** Examples *)

Lemma demo_token_ok n : 0 <= 48 + n < 256 -> token_ok (demo_token n).
Proof. intros Hn. split; [|done]. by apply Forall_replicate. Qed.
Lemma demo_entropy_ok n : 0 <= 48 + n < 256 -> entropy_ok (demo_en n).
Proof. intros Hn t [= <-]. by apply demo_token_ok. Qed.
Lemma demo_ops_ok : Forall op_ok demo_ops.
Proof.
  assert (Hb : forall i t en, bytes_ok t -> entropy_ok en -> request_ok (Some (demo_rq i t)) /\ entropy_ok en)
    by (intros i t en Ht Hen; split; [by intros rq [= <-]|done]).
  repeat (apply Forall_cons; split; [try exact I|]); try apply Forall_nil_2;
    (apply Hb; [first [by constructor|by apply demo_token_ok]|by apply demo_entropy_ok]).
Qed.
Lemma demo_session : exists s, sv_heap (sr_core (demo_server 5)) !! 0%nat = Some s /\
  sv_sessions (sr_core (demo_server 5)) !! demo_client = Some 0%nat /\ cs_mac s = bytes_of_string "02:00:00:00:00:07" /\
  es_enc_algo (cs_epoch_state s) = ENC_ALGO_XCHACHA20 /\ es_resume_token (cs_epoch_state s) = demo_token 1 /\
  es_instance_id (cs_epoch_state s) = demo_instance_a /\ st_active_conns (cs_stat s) = 1.
Proof. eexists. split; [vm_compute; reflexivity|]. repeat split; vm_compute; reflexivity. Qed.

Lemma resume_survives_lost_response_witness : exists c' ms' o resp s',
  handle_handshake raw_v6 demo_conf (sr_core (demo_server 5)) (demo_conn 3)
    (Some (demo_rq demo_instance_b (demo_token 1))) (demo_en 3) 0 40 false = (c', ms', o, resp) /\
  sv_heap c' !! 0%nat = Some s' /\ resumes (cs_epoch_state s') (demo_token 1).
Proof.
  destruct demo_session as (s & Hs & Hid & Hm & Ha & Ht & Hi & Hact).
  destruct (resume_survives_lost_response raw_v6 demo_conf demo_v4cidr [] (take 5 demo_ops) (demo_conn 3)
    (demo_rq demo_instance_b (demo_token 1)) (demo_en 3) (demo_token 3) 0 40 false 0 s)
    as (c' & ms' & o & resp & s' & E & _ & Hs' & Hr & _).
  - apply Forall_take, demo_ops_ok.
  - vm_compute. reflexivity.
  - vm_compute. reflexivity.
  - exact Hid.
  - exact Hs.
  - rewrite Hm. vm_compute. reflexivity.
  - rewrite Hm. apply bytes_of_string_ok.
  - exact Ha.
  - exact (proj1 (demo_token_ok 1 ltac:(lia))).
  - split; [reflexivity|]. left. symmetry. exact Ht.
  - reflexivity.
  - exact (demo_token_ok 3 ltac:(lia)).
  - rewrite Ha. eexists. vm_compute. reflexivity.
  - rewrite Hi. intros E. vm_compute in E. discriminate E.
  - exists c', ms', o, resp, s'. split; [exact E|]. split; [exact Hs'|exact Hr].
Defined.

Lemma handshake_admission_witness :
  exists rq, Some (demo_rq demo_instance_a []) = Some rq /\ rq_psk rq = sc_psk_hash demo_conf /\
    session_room demo_conf (ServerCore_new raw_v6 demo_v4cidr []).
Proof.
  destruct (handle_handshake raw_v6 demo_conf (ServerCore_new raw_v6 demo_v4cidr []) (demo_conn 1)
    (Some (demo_rq demo_instance_a [])) (demo_en 1) 0 10 true) as [[[c' ms'] o] resp] eqn:E.
  assert (Hms : ms_client_session ms' = Some 0%nat).
  { change ms' with (c', ms', o, resp).1.1.2. rewrite <-E. vm_compute. reflexivity. }
  destruct (handshake_admission raw_v6 demo_conf (ServerCore_new raw_v6 demo_v4cidr []) (demo_conn 1)
    (Some (demo_rq demo_instance_a [])) (demo_en 1) 0 10 true c' ms' o resp 0) as (rq & Erq & Hp & _ & _ & _ & _ & Hroom).
  - repeat constructor; done.
  - intros rq [= <-]. split; [|by constructor]. repeat constructor; done.
  - intros r s Hr. discriminate Hr.
  - reflexivity.
  - exact E.
  - exact Hms.
  - exists rq. split; [exact Erq|]. split; [exact Hp|]. injection Erq as <-. exact (proj2 Hroom).
Defined.

(** The same client goes away for good: its session ends between two sweeps. *)
Definition demo_leave : list server_op := take 5 demo_ops ++ [OClose 2 60].
Lemma idle_sessions_reclaimed_witness :
  let c := sr_core (server_run raw_v6 demo_conf (server_new raw_v6 demo_v4cidr []) demo_leave) in
  exists d, d <= 60 + SESSION_RETENTION /\ sv_sessions (reap c (d - 1)) !! demo_client = Some 0%nat /\
    sv_sessions (reap c d) !! demo_client = None.
Proof.
  intros c. assert (Hs : exists s, sv_heap c !! 0%nat = Some s /\ st_active_conns (cs_stat s) = 0 /\
    es_instance_id (cs_epoch_state s) = demo_instance_a).
  { eexists. split; [vm_compute; reflexivity|]. split; vm_compute; reflexivity. }
  destruct Hs as (s & Hs & Ha & Hi).
  destruct (idle_sessions_reclaimed raw_v6 demo_conf demo_v4cidr [] 60 demo_leave demo_client 0 s) as [_ Hd].
  - reflexivity.
  - unfold demo_leave, demo_ops. cbn [take app].
    repeat (apply Forall_cons; split; [cbn [op_ready]; first [exact I|lia|split; [by eexists|lia]]|]). apply Forall_nil_2.
  - vm_compute. reflexivity.
  - exact Hs.
  - destruct (Hd Ha) as (d & Hle & Hr); [unfold exhausted; rewrite Hi; by vm_compute|]. exists d. split; [done|].
    fold c in Hr. rewrite !Hr. split; [by rewrite (proj2 (Z.leb_gt _ _)) by lia|]. by rewrite Z.leb_refl.
Defined.

Lemma brutal_budgets_respected_witness :
  negotiate_brutal demo_conf (demo_rq demo_instance_a []) = (50, 80, mbps_to_bps 25) /\ 0 < 80 <= 80.
Proof.
  split; [by vm_compute|].
  destruct (brutal_budgets_respected demo_conf (demo_rq demo_instance_a []) 50 80 (mbps_to_bps 25)) as (_ & _ & Hg & _);
    [done..|by vm_compute|]. by apply Hg.
Defined.
