(* ===== verification/FecKeys.v ===== *)
(** * The parity keys of a session

    The FEC encoder of the sending port and the FEC decoder of the receive side each
    hold a cipher of their own.  The data path never replaces them; only the handshake
    does, when it creates a session or begins a key epoch.  So in every state the
    server can reach they are the ciphers derived from the salts the session announces. *)
From S2P Require Import Prelude Protocol Utils Crypto Xor Fec Buffer Reorder RxActor Adaptive Queue Port PortSpec VSwitch Pool Brutal PeerInfo Session SessionSpec SessionGuard.

(** ** The data path keeps the ciphers *)

Section DataPath.
Context `{FrameChannel} `{CryptoPrims}.
Context (k : cpu).

(** The cipher of a port's encoder and of an actor's decoder, if there is one. *)
Definition port_fec_key (p : AsyncPort) : option (option InnerCipher) := fe_ic <$> po_encoder p.
Definition actor_fec_key (a : RxActorState) : option (option InnerCipher) := fd_ic <$> ra_fec a.

Lemma add_keeps_key e seq data : fe_ic (FecEncoder_add k e seq data).1 = fe_ic e.
Proof using. unfold FecEncoder_add. by repeat case_match. Qed.
Lemma path_count_keeps_key e n : fe_ic (set_physical_path_count e n) = fe_ic e.
Proof using. unfold set_physical_path_count. repeat case_match; done. Qed.
Lemma fec_step_keeps p seq data : port_fec_key (fec_step k p seq data).1.1 = port_fec_key p.
Proof using.
  unfold fec_step, port_fec_key. destruct (po_encoder_enabled p); [|done]. destruct (po_encoder p) as [e|] eqn:E; [|cbn; by rewrite ?E].
  destruct (FecTxModeState_observe _ _ _ _) as [mode ?].
  pose proof (add_keeps_key (set_physical_path_count e (zlen (po_backends p))) seq data) as Ha.
  destruct (FecEncoder_add _ _ _ _) as [e' par]. cbn in *. by rewrite Ha, path_count_keeps_key.
Qed.
Lemma select_keeps p n now : port_fec_key (selected_data_backend_index p n now).1 = port_fec_key p.
Proof using. unfold selected_data_backend_index. by destruct (pick _ _ _ _ _) as [[? ?] ?]. Qed.
Lemma fallback_keeps p bs skip seq data c : port_fec_key (fallback_send p bs skip seq data c).1 = port_fec_key p.
Proof using. unfold fallback_send. by destruct (fallback_loop _ _ _ _ _ _) as [? []]. Qed.
Lemma send_any_keeps p i seq data c : port_fec_key (send_data_payload_to_any p i seq data c).1 = port_fec_key p.
Proof using.
  unfold send_data_payload_to_any. destruct i as [i|]; [|apply fallback_keeps]. case_match; [|apply fallback_keeps].
  destruct (attempt _ _ _ _ _) as [bs []]; [done|apply fallback_keeps].
Qed.
Lemma send_payload_keeps p i seq data : port_fec_key (send_payload_to p i seq data).1 = port_fec_key p.
Proof using. unfold send_payload_to. destruct (po_backends p !! i); [|done]. by destruct (try_send_payload_to _ _ _) as [? []]. Qed.
Lemma parity_index_keeps p i : port_fec_key (parity_backend_index p i).1 = port_fec_key p.
Proof using. unfold parity_backend_index. by destruct (_ =? 0)%nat. Qed.
Lemma send_parity_keeps p i par : port_fec_key (send_parity p i par) = port_fec_key p.
Proof using.
  unfold send_parity. destruct (_ <? _)%nat; [done|]. set (p0 := po_set_fec _ _ _ _ _ _).
  pose proof (parity_index_keeps p0 i) as Hk1. destruct (parity_backend_index p0 i) as [p1 [j|]]; cbn [fst] in Hk1; [|done].
  pose proof (send_payload_keeps p1 j 0 (Owned par)) as Hk2. destruct (send_payload_to p1 j 0 _) as [p2 n]. cbn [fst] in Hk2.
  transitivity (port_fec_key p2); [by destruct (n =? 0)|]. by rewrite Hk2, Hk1.
Qed.
Lemma write_payload_keeps p frame now : port_fec_key (write_payload k p frame now) = port_fec_key p.
Proof using.
  unfold write_payload, next_seq. destruct (_ =? 0)%nat; [done|]. destruct (_ =? 0)%nat; [done|].
  destruct (negb _); [done|]. destruct (_ =? U32_MAX); [done|]. set (p1 := po_set_seq _ _ _). set (s1 := po_tx_seq p + 1).
  transitivity (port_fec_key p1); [|done]. unfold send_numbered.
  pose proof (fec_step_keeps p1 s1 (as_slice frame)) as Hk1. destruct (fec_step k p1 s1 _) as [[p2 par] c]. cbn [fst] in Hk1.
  pose proof (select_keeps p2 (zlen (as_slice frame)) now) as Hk2. destruct (selected_data_backend_index p2 _ now) as [p3 sel]. cbn [fst] in Hk2.
  pose proof (send_any_keeps p3 sel s1 frame c) as Hk3. destruct (send_data_payload_to_any p3 _ _ _ _) as [p4 i]. cbn [fst] in Hk3.
  destruct par; [rewrite send_parity_keeps|]; congruence.
Qed.

Lemma fold_keeps {A} (f : AsyncPort -> A -> AsyncPort) l : forall p,
  (forall p x, port_fec_key (f p x) = port_fec_key p) -> port_fec_key (foldl f p l) = port_fec_key p.
Proof using. induction l as [|x l IH]; intros p Hf; [done|]. cbn. by rewrite IH, Hf. Qed.
Lemma write_owned_keeps p frame now : port_fec_key (write_owned_payload k p frame now) = port_fec_key p.
Proof using. unfold write_owned_payload, dispatch_enqueued. repeat case_match; try done. apply write_payload_keeps. Qed.
Lemma write_batch_keeps p frames now : port_fec_key (write_payload_batch k p frames now) = port_fec_key p.
Proof using.
  unfold write_payload_batch. destruct (po_dispatch_tx p); [apply fold_keeps; intros; apply write_owned_keeps|].
  assert (He : port_fec_key (foldl (fun p data => write_payload k p data now) p frames) = port_fec_key p)
    by (apply fold_keeps; intros; apply write_payload_keeps).
  destruct (po_backends p) as [|b [|]]; [done| |done]. destruct (po_encoder_enabled p); [done|].
  destruct (be_owned_batches b) as [q|]; [|done]. unfold write_batch_locked, port_fec_key. cbn [po_set_backends po_encoder].
  assert (Hb : forall l a, fe_ic <$> po_encoder (ba_port (foldl (batch_item q) a l)) = fe_ic <$> po_encoder (ba_port a)).
  { intros l. induction l as [|f l IH]; intros a; [done|]. cbn. rewrite IH. unfold batch_item, next_seq. by repeat case_match; simplify_eq. }
  by rewrite Hb.
Qed.
Lemma number_batch_keeps batch : forall p l n,
  port_fec_key (foldl (fun (acc : AsyncPort * list VPNFrame * Z) f =>
    let '(p, frames, bytes) := acc in
    match next_seq p with
    | (p, Some seq) => (p, frames ++ [{| vf_seq := seq; vf_data := f |}], bytes + zlen (as_slice f))
    | (p, None) => (drop_n p 1, frames, bytes)
    end) (p, l, n) batch).1.1 = port_fec_key p.
Proof using.
  induction batch as [|f batch IH]; intros p l n; [done|]. cbn [foldl].
  destruct (next_seq p) as [p1 r] eqn:E. assert (Hk1 : port_fec_key p1 = port_fec_key p) by (unfold next_seq in E; by case_match; simplify_eq).
  destruct r; rewrite IH; done.
Qed.
Lemma send_each_keeps p i frames : port_fec_key (send_each p i frames) = port_fec_key p.
Proof using.
  unfold send_each. apply fold_keeps. intros p' f. pose proof (send_payload_keeps p' i (vf_seq f) (vf_data f)) as Hs.
  destruct (send_payload_to _ _ _ _) as [p1 n]. cbn [fst] in Hs. by destruct (n =? 0).
Qed.
Lemma push_loop_keeps turns : forall p i frames n, port_fec_key (push_loop turns p i frames n).1 = port_fec_key p.
Proof using.
  induction turns as [|t IH]; intros p i frames n; [by destruct frames|]. destruct frames as [|f l]; [done|]. cbn [push_loop].
  destruct (po_backends p !! i) as [b|]; [|done]. destruct (be_owned_batches b) as [q|]; [|cbn [fst]; apply (send_each_keeps p i (f :: l))].
  destruct (push_prefix _ _ _ _) as [[b' rest] n']. destruct rest; [done|]. case_match; [|done]. by rewrite IH.
Qed.
Lemma dispatch_batch_keeps p batch n now : port_fec_key (dispatch_owned_batch k p batch n now) = port_fec_key p.
Proof using.
  unfold dispatch_owned_batch. case_match; [done|]. destruct (po_encoder_enabled p); [apply fold_keeps; intros; apply write_payload_keeps|].
  case_match; [done|]. pose proof (select_keeps p n now) as Hk1. destruct (selected_data_backend_index p n now) as [p1 [i|]]; [|done].
  cbn [fst] in Hk1. unfold number_batch. pose proof (number_batch_keeps batch p1 [] 0) as Hk2.
  destruct (foldl _ _ batch) as [[p2 frames] bytes]. cbn [fst] in Hk2.
  pose proof (push_loop_keeps (S (length (po_backends p2))) p2 i frames bytes) as Hk3.
  destruct (push_loop _ _ _ _ _) as [p3 rest]. cbn [fst] in Hk3. transitivity (port_fec_key p3); [done|congruence].
Qed.

(** Whatever is written, dispatched, taken, joined or left: the encoder's cipher stays. *)
Lemma port_run_keeps_key ops : forall p, port_fec_key (port_run k p ops).1 = port_fec_key p.
Proof using.
  induction ops as [|op ops IH]; intros p; [done|]. cbn [port_run].
  assert (Hk1 : port_fec_key (port_step k p op).1 = port_fec_key p).
  { destruct op as [frame now|frames now| |ready now|i budget|b|ch]; cbn [port_step fst].
    - apply write_owned_keeps.
    - apply write_batch_keeps.
    - unfold enable_dispatch. by case_match.
    - unfold dispatch_turn. repeat case_match; try done. by rewrite dispatch_batch_keeps.
    - unfold writer_pop. repeat case_match; try done.
    - done.
    - done. }
  destruct (port_step k p op) as [p1 o1]. cbn [fst] in Hk1. specialize (IH p1). destruct (port_run k p1 ops) as [p2 o2].
  cbn [fst] in *. congruence.
Qed.

Lemma on_data_keeps_key d s data e : fd_ic (on_data_actor k d s data e).1 = fd_ic d.
Proof using.
  assert (Hr : forall e, fd_ic (maybe_retire_old_groups_actor d e) = fd_ic d)
    by (intros e'; unfold maybe_retire_old_groups_actor; by repeat case_match).
  unfold on_data_actor. repeat case_match; simplify_eq; cbn; try done; apply Hr.
Qed.
Lemma on_control_keeps_key d payload e : fd_ic (on_control_actor k d payload e).1 = fd_ic d.
Proof using.
  assert (Hr : forall d e, fd_ic (maybe_retire_old_groups_actor d e) = fd_ic d)
    by (intros d' e'; unfold maybe_retire_old_groups_actor; by repeat case_match).
  assert (Hs : forall d g kk lens body, fd_ic (store_parity k d g kk lens body).1 = fd_ic d).
  { intros d' g kk lens body. unfold store_parity. repeat case_match; done. }
  unfold on_control_actor. repeat case_match; try done.
  - unfold on_parity_actor. repeat case_match; simplify_eq; cbn; try done; rewrite ?Hr; try done.
    all: match goal with E : store_parity _ ?x ?g ?kk ?l ?b = _ |- _ => pose proof (Hs x g kk l b) as Hx; rewrite E in Hx; cbn in Hx; by rewrite Hx, ?Hr end.
  - unfold handle_mode_control_actor. repeat case_match; cbn; rewrite ?Hr; done.
Qed.
Lemma process_item_keeps_key st it : actor_fec_key (process_item k st it).1.1 = actor_fec_key st.
Proof using.
  unfold process_item, actor_fec_key. destruct (rf_seq it =? 0).
  - destruct (ra_fec st) as [d|] eqn:E; [|cbn; by rewrite ?E].
    pose proof (on_control_keeps_key d (rf_data it) (rb_expected_seq (ra_reorder st))) as Hc.
    destruct (on_control_actor _ _ _ _) as [d' [[[rs rf]|]|]]; cbn in *; repeat case_match; cbn; by rewrite Hc.
  - set (fr := match ra_fec st with Some dec => _ | None => _ end). assert (Hf : fd_ic <$> fr.1 = fd_ic <$> ra_fec st).
    { unfold fr. destruct (ra_fec st) as [d|]; [|done].
      pose proof (on_data_keeps_key d (rf_seq it) (rf_data it) (rb_expected_seq (ra_reorder st))) as Hd.
      destruct (on_data_actor _ _ _ _ _). cbn in *. by rewrite Hd. }
    destruct fr as [fec rec]. cbn [fst] in Hf. destruct (is_duplicate _ _) as [dd dup].
    repeat case_match; simplify_eq; cbn; done.
Qed.
(** Whatever arrives and whenever the timer polls: the decoder's cipher stays. *)
Lemma rx_step_keeps_key st op : actor_fec_key (rx_step k st op).1.1 = actor_fec_key st.
Proof using.
  destruct op as [g items|now]; cbn [rx_step].
  - unfold process_batch. destruct items as [|it items]; [done|]. destruct (negb _); [done|].
    revert st. generalize (it :: items). clear it items. intros items. induction items as [|it items IH]; intros st; [done|].
    cbn [process_items]. pose proof (process_item_keeps_key st it) as Hi. destruct (process_item k st it) as [[st1 o1] [e|]]; [done|].
    cbn [fst] in Hi. specialize (IH st1). destruct (process_items k st1 items) as [[st2 o2] e2]. cbn [fst] in *. congruence.
  - unfold actor_flush_timeout_into. by destruct (flush_timeout_into _ _).
Qed.

(** The decoder of a session without an actor, likewise. *)
Lemma decoder_keeps_key d progress s data payload :
  fd_ic (on_data k d progress s data).1 = fd_ic d /\ fd_ic (on_control k d progress payload).1 = fd_ic d.
Proof using.
  assert (Hr : forall d, fd_ic (maybe_retire_old_groups_locked d progress) = fd_ic d)
    by (intros d'; unfold maybe_retire_old_groups_locked; by repeat case_match).
  assert (Hc : forall d, fd_ic (cleanup_by_reorder_progress d progress) = fd_ic d)
    by (intros d'; unfold cleanup_by_reorder_progress; case_match; [done|apply Hr]).
  assert (Hs : forall d g kk lens body, fd_ic (store_parity k d g kk lens body).1 = fd_ic d).
  { intros d' g kk lens body. unfold store_parity. repeat case_match; done. }
  assert (Hl : forall d, fd_ic (on_data_locked k d s data).1 = fd_ic d).
  { intros d'. unfold on_data_locked. repeat case_match; simplify_eq; done. }
  split.
  - unfold on_data. repeat case_match; cbn; rewrite ?Hl, ?Hc; done.
  - unfold on_control. repeat case_match; try done.
    + unfold on_parity_strict. repeat case_match; simplify_eq; cbn; try done; rewrite ?Hr, ?Hc; try done.
      all: match goal with E : store_parity _ ?x ?g ?kk ?l ?b = _ |- _ => pose proof (Hs x g kk l b) as Hx; rewrite E in Hx; cbn in Hx; by rewrite Hx, ?Hr, ?Hc end.
    + unfold handle_mode_control. repeat case_match; cbn; rewrite ?Hr, ?Hc; done.
Qed.
End DataPath.
