(* ===== verification/Policy.v ===== *)
(** * Policy routing: the [ip] command lines of [src/src/net.rs]

    Texts are byte lists, a command is the list of its arguments.  The text form of
    IPv6 addresses is the parameter [v6] of the address pool; the [ip] tool is an
    operation of the class [IpTool] on a kernel state it does not reveal. *)
From stdpp Require Import pretty sorting.
From S2P Require Import Prelude Utils Crypto PeerInfo Pool.

Definition word : string -> text := bytes_of_string.
Definition num (n : Z) : text := bytes_of_string (pretty n).

Record SourceRule := { sr_from : text; sr_table : Z; sr_priority : Z; sr_routes : list text }.
Record PolicyRoutingSpec := {
  pr_mark : Z; pr_priority : Z; pr_tap_name : text; pr_gw_v4 : text; pr_gw_v6 : text;
  pr_extra_routes : list text; pr_source_rules : list SourceRule }.

Inductive routing_error :=
| EmptyEntry | InvalidPrefix (p : text) | DuplicateDev | DevNeedsName | UnsupportedOption (o : text)
| EmptySource (i : nat) | InvalidSource (i : nat) | SourceHasDev (i : nat) | ReservedTable (i : nat)
| SourceRoute (i : nat) (e : routing_error) | ExtraRoute (e : routing_error)
| MissingGateway (i : nat).

Definition enabled (spec : PolicyRoutingSpec) : bool :=
  (0 <? pr_mark spec) || negb (bool_decide (pr_source_rules spec = [])).
Definition priority_label (spec : PolicyRoutingSpec) : text :=
  if 0 <? pr_priority spec then num (pr_priority spec) else word "auto".
Definition mark_table_args (spec : PolicyRoutingSpec) : list text :=
  [word "fwmark"; num (pr_mark spec); word "table"; num (pr_mark spec)].

(** ** Commands *)

Definition rule_cmd (spec : PolicyRoutingSpec) (family action : text) (with_priority : bool) : list text :=
  [family; word "rule"; action] ++
  (if with_priority && (0 <? pr_priority spec) then [word "priority"; num (pr_priority spec)] else []) ++
  mark_table_args spec.
Definition source_rule_cmd (rule : SourceRule) (family action : text) (with_priority : bool) : list text :=
  [family; word "rule"; action] ++
  (if with_priority && (0 <? sr_priority rule) then [word "priority"; num (sr_priority rule)] else []) ++
  [word "from"; sr_from rule; word "table"; num (sr_table rule)].
Definition default_route_cmd (family tap gateway : text) (table : Z) : option (list text) :=
  match gateway with
  | [] => None
  | _ => Some [family; word "route"; word "replace"; word "default"; word "via"; gateway; word "dev"; tap; word "table"; num table]
  end.
Definition route_del_cmd (family prefix tap : text) (table : Z) : list text :=
  [family; word "route"; word "del"; prefix; word "dev"; tap; word "table"; num table].

(** [str::split_whitespace] on UTF-8. *)
Definition flush_word (cur : text) : list text := match cur with [] => [] | _ => [cur] end.
Fixpoint split_ws (fuel : nat) (s cur : text) : list text :=
  match fuel with
  | O => flush_word cur
  | S fuel' =>
      match s with
      | [] => flush_word cur
      | c :: s' =>
          match ws_head s with
          | Some n => flush_word cur ++ split_ws fuel' (drop n s) []
          | None => split_ws fuel' s' (cur ++ [c])
          end
      end
  end.
Definition split_whitespace (s : text) : list text := split_ws (S (length s)) s [].

Section Routing.
Context (v6 : family).

(** [IpAddr]: IPv4 is tried first. *)
Inductive ip_addr := V4 (a : Z) | V6 (a : Z).
Definition ip_parse (s : text) : option ip_addr :=
  match ipv4_parse s with Some a => Some (V4 a) | None => V6 <$> fam_parse v6 s end.
Definition ip_print (a : ip_addr) : text := match a with V4 a => u32_to_ip4 a | V6 a => fam_print v6 a end.
Definition ip_width (a : ip_addr) : Z := match a with V4 _ => 32 | V6 _ => 128 end.
(** [v6.segments()[i]] *)
Definition segment (a : Z) (i : Z) : Z := Z.land (Z.shiftr a (112 - 16 * i)) 65535.

Definition host_bits (a : ip_addr) : Z := match a with V6 a => if segment a 5 =? 65535 then 32 else 128 | V4 _ => 32 end.
Definition normalize_prefix (first : text) : result text routing_error :=
  match split_once SLASH first with
  | (addr, Some len) =>
      match ip_parse addr, parse_u32 len with
      | Some a, Some n => if ip_width a <? n then Err (InvalidPrefix first) else Ok first
      | _, _ => Err (InvalidPrefix first)
      end
  | (_, None) =>
      match ip_parse first with
      | Some a => Ok (ip_print a ++ SLASH :: num (host_bits a))
      | None => Err (InvalidPrefix first)
      end
  end.

Definition DEV : text := bytes_of_string "dev".
Fixpoint route_options (rest : list text) (dev : text) : result text routing_error :=
  match rest with
  | [] => Ok dev
  | o :: rest' =>
      if decide (o = DEV) then
        match dev with
        | _ :: _ => Err DuplicateDev
        | [] => match rest' with [] => Err DevNeedsName | d :: rest'' => route_options rest'' d end
        end
      else Err (UnsupportedOption o)
  end.
Definition parse_route_spec (raw : text) : result (text * text) routing_error :=
  match split_whitespace raw with
  | [] => Err EmptyEntry
  | first :: rest => prefix <-? normalize_prefix first; dev <-? route_options rest []; Ok (prefix, dev)
  end.

(** The outgoing interface, the tunnel's by default. *)
Definition device (tap dev : text) : text := match dev with [] => tap | _ => dev end.
Definition extra_route_cmd (tap_name : text) (table : Z) (raw : text) : result (list text) routing_error :=
  r <-? parse_route_spec raw;
  Ok [word "route"; word "replace"; r.1; word "dev"; device tap_name r.2; word "table"; num table].

Definition COLON : Z := 58.
Definition V4_FLAG : text := bytes_of_string "-4".
Definition V6_FLAG : text := bytes_of_string "-6".
Definition prefix_family (prefix : text) : text := if bool_decide (COLON ∈ prefix) then V6_FLAG else V4_FLAG.
Definition extra_route_del_cmd (tap_name : text) (table : Z) (raw : text) : option (list text) :=
  match parse_route_spec raw with
  | Ok r => Some (route_del_cmd (prefix_family r.1) r.1 (device tap_name r.2) table)
  | Err _ => None
  end.
Definition default_routes (tap_name gw_v4 gw_v6 : text) (table : Z) : list (list text) :=
  option_list (default_route_cmd V4_FLAG tap_name gw_v4 table) ++ option_list (default_route_cmd V6_FLAG tap_name gw_v6 table).

(** ** Validation *)

Fixpoint validate_routes (wrap : routing_error -> routing_error) (routes : list text) : result unit routing_error :=
  match routes with
  | [] => Ok tt
  | raw :: rest => match parse_route_spec raw with Ok _ => validate_routes wrap rest | Err e => Err (wrap e) end
  end.
Definition validate_extra_routes (routes : list text) : result unit routing_error := validate_routes ExtraRoute routes.

(** One rule: the prefix is completed in place, also when a later check fails. *)
Definition validate_source_rule (i : nat) (r : SourceRule) : SourceRule * result unit routing_error :=
  match utf8_trim (sr_from r) with
  | [] => (r, Err (EmptySource i))
  | trimmed =>
      match parse_route_spec trimmed with
      | Err _ => (r, Err (InvalidSource i))
      | Ok (prefix, dev) =>
          if negb (bool_decide (dev = [])) then (r, Err (SourceHasDev i))
          else
            let r := {| sr_from := prefix; sr_table := sr_table r; sr_priority := sr_priority r; sr_routes := sr_routes r |} in
            if (sr_table r =? 0) || (sr_table r =? 253) || (sr_table r =? 254) || (sr_table r =? 255)
            then (r, Err (ReservedTable i))
            else (r, validate_routes (SourceRoute i) (sr_routes r))
      end
  end.
Fixpoint validate_source_rules_from (i : nat) (rules : list SourceRule) : list SourceRule * result unit routing_error :=
  match rules with
  | [] => ([], Ok tt)
  | r :: rest =>
      match validate_source_rule i r with
      | (r, Err e) => (r :: rest, Err e)
      | (r, Ok _) => let '(rest, res) := validate_source_rules_from (S i) rest in (r :: rest, res)
      end
  end.
Definition validate_source_rules (rules : list SourceRule) := validate_source_rules_from 0 rules.

(** ** Installation and cleanup *)

Fixpoint route_cmds (tap_name : text) (table : Z) (routes : list text) : result (list (list text)) routing_error :=
  match routes with
  | [] => Ok []
  | raw :: rest => c <-? extra_route_cmd tap_name table raw; cs <-? route_cmds tap_name table rest; Ok (c :: cs)
  end.
Definition gateway_of (spec : PolicyRoutingSpec) (fam : text) : text :=
  if bool_decide (fam = V6_FLAG) then pr_gw_v6 spec else pr_gw_v4 spec.

Definition cmds := (list (list text) * list (list text))%type.
(** The mark part. *)
Definition mark_cmds (spec : PolicyRoutingSpec) : result cmds routing_error :=
  if 0 <? pr_mark spec then
    extra <-? route_cmds (pr_tap_name spec) (pr_mark spec) (pr_extra_routes spec);
    Ok ((fun f => rule_cmd spec f (word "del") false) <$> [V4_FLAG; V6_FLAG],
        ((fun f => rule_cmd spec f (word "add") true) <$> [V4_FLAG; V6_FLAG]) ++
        default_routes (pr_tap_name spec) (pr_gw_v4 spec) (pr_gw_v6 spec) (pr_mark spec) ++ extra)
  else Ok ([], []).
Definition source_cmds (spec : PolicyRoutingSpec) (i : nat) (rule : SourceRule) : result cmds routing_error :=
  let fam := prefix_family (sr_from rule) in
  let gateway := gateway_of spec fam in
  match gateway with
  | [] => Err (MissingGateway i)
  | _ =>
      extra <-? route_cmds (pr_tap_name spec) (sr_table rule) (sr_routes rule);
      Ok ([source_rule_cmd rule fam (word "del") false],
          source_rule_cmd rule fam (word "add") true ::
          option_list (default_route_cmd fam (pr_tap_name spec) gateway (sr_table rule)) ++ extra)
  end.
Fixpoint sources_cmds (spec : PolicyRoutingSpec) (i : nat) (rules : list SourceRule) : result cmds routing_error :=
  match rules with
  | [] => Ok ([], [])
  | rule :: rest =>
      one <-? source_cmds spec i rule; more <-? sources_cmds spec (S i) rest;
      Ok (one.1 ++ more.1, one.2 ++ more.2)
  end.
Definition policy_routing_cmds (spec : PolicyRoutingSpec) : result cmds routing_error :=
  if negb (enabled spec) then Ok ([], [])
  else
    mark <-? mark_cmds spec; src <-? sources_cmds spec 0 (pr_source_rules spec);
    Ok (mark.1 ++ src.1, mark.2 ++ src.2).

Definition route_dels (tap_name : text) (table : Z) (routes : list text) : list (list text) :=
  omap (extra_route_del_cmd tap_name table) routes.
Definition default_del (spec : PolicyRoutingSpec) (fam : text) (table : Z) : list (list text) :=
  match gateway_of spec fam with [] => [] | _ => [route_del_cmd fam (word "default") (pr_tap_name spec) table] end.
Definition clean_mark (spec : PolicyRoutingSpec) : list (list text) :=
  if 0 <? pr_mark spec then
    ((fun f => rule_cmd spec f (word "del") false) <$> [V4_FLAG; V6_FLAG]) ++
    route_dels (pr_tap_name spec) (pr_mark spec) (pr_extra_routes spec) ++
    default_del spec V4_FLAG (pr_mark spec) ++ default_del spec V6_FLAG (pr_mark spec)
  else [].
Definition clean_source (spec : PolicyRoutingSpec) (rule : SourceRule) : list (list text) :=
  let fam := prefix_family (sr_from rule) in
  source_rule_cmd rule fam (word "del") false :: route_dels (pr_tap_name spec) (sr_table rule) (sr_routes rule) ++
  default_del spec fam (sr_table rule).
Definition clean_policy_routing_cmds (spec : PolicyRoutingSpec) : list (list text) :=
  if negb (enabled spec) then [] else clean_mark spec ++ concat (clean_source spec <$> pr_source_rules spec).

(** ** Running them *)

(** The [ip] tool on the state of the kernel; the text is what it reports on failure. *)
Class IpTool := { kernel : Type; run_ip : kernel -> list text -> kernel * option text }.
Context `{IpTool}.
Fixpoint run_all (k : kernel) (cs : list (list text)) : kernel * list text :=
  match cs with
  | [] => (k, [])
  | c :: cs => let '(k, e) := run_ip k c in let '(k, es) := run_all k cs in (k, option_list e ++ es)
  end.
(** Old rules are removed first, whatever that reports; then every command runs. *)
Definition setup_policy_routing (k : kernel) (spec : PolicyRoutingSpec) : kernel * result unit (routing_error + list text) :=
  if negb (enabled spec) then (k, Ok tt)
  else
    match policy_routing_cmds spec with
    | Err e => (k, Err (inl e))
    | Ok (pre, install) =>
        let '(k, errs) := run_all (run_all k pre).1 install in
        (k, match errs with [] => Ok tt | _ => Err (inr errs) end)
    end.
Definition clean_policy_routing (k : kernel) (spec : PolicyRoutingSpec) : kernel * list text :=
  if negb (enabled spec) then (k, []) else run_all k (clean_policy_routing_cmds spec).
End Routing.

(** ** Cleanup undoes installation *)

(** [undoes d c]: [d] removes what [c] adds: the same rule without its priority, or
    the route to the same destination through the same device of the same table. *)
Inductive undoes : list text -> list text -> Prop :=
| undo_rule fam prio sel :
    undoes (fam :: word "rule" :: word "del" :: sel) (fam :: word "rule" :: word "add" :: prio ++ sel)
| undo_default fam gw tap table :
    undoes (route_del_cmd fam (word "default") tap table)
      [fam; word "route"; word "replace"; word "default"; word "via"; gw; word "dev"; tap; word "table"; num table]
| undo_route prefix dev table :
    undoes (route_del_cmd (prefix_family prefix) prefix dev table)
      [word "route"; word "replace"; prefix; word "dev"; dev; word "table"; num table].

Section Cleanup.
Context (v6 : family).

(** A rearrangement of [ds] undoes the commands [cs] one by one. *)
Definition undone_by (cs ds : list (list text)) : Prop := exists l, l ≡ₚ ds /\ Forall2 undoes l cs.
Lemma undone_app cs1 cs2 ds1 ds2 : undone_by cs1 ds1 -> undone_by cs2 ds2 -> undone_by (cs1 ++ cs2) (ds1 ++ ds2).
Proof. intros (l1 & P1 & F1) (l2 & P2 & F2). exists (l1 ++ l2). split; [by rewrite P1, P2|by apply Forall2_app]. Qed.
Lemma undone_perm cs ds ds' : ds ≡ₚ ds' -> undone_by cs ds -> undone_by cs ds'.
Proof. intros P (l & P1 & F). exists l. split; [by rewrite P1|done]. Qed.
Lemma undone_nil : undone_by [] [].
Proof. by exists []. Qed.
Lemma undone_one d c : undoes d c -> undone_by [c] [d].
Proof. intros. exists [d]. split; [done|]. by constructor. Qed.

Lemma undone_rule spec fam p : undone_by [rule_cmd spec fam (word "add") p] [rule_cmd spec fam (word "del") false].
Proof. apply undone_one. exact (undo_rule fam (if p && (0 <? pr_priority spec) then _ else _) (mark_table_args spec)). Qed.
Lemma undone_source rule fam p : undone_by [source_rule_cmd rule fam (word "add") p] [source_rule_cmd rule fam (word "del") false].
Proof.
  apply undone_one. exact (undo_rule fam (if p && (0 <? sr_priority rule) then _ else _) [word "from"; sr_from rule; word "table"; num (sr_table rule)]).
Qed.
Lemma undone_default spec fam table :
  undone_by (option_list (default_route_cmd fam (pr_tap_name spec) (gateway_of spec fam) table)) (default_del spec fam table).
Proof. unfold default_del. destruct (gateway_of spec fam) eqn:E; [apply undone_nil|]. apply undone_one, undo_default. Qed.
Lemma undone_routes tap table routes : forall cs,
  route_cmds v6 tap table routes = Ok cs -> undone_by cs (route_dels v6 tap table routes).
Proof.
  induction routes as [|raw rest IH]; intros cs; cbn; [intros [= <-]; apply undone_nil|].
  unfold extra_route_cmd, extra_route_del_cmd, result_bind. destruct (parse_route_spec v6 raw) as [[p d]|]; [|done].
  destruct (route_cmds v6 tap table rest) as [cs'|]; [|done]. intros [= <-].
  apply (undone_app [_] cs' [_]); [apply undone_one, undo_route|by apply IH].
Qed.

Lemma undone_mark spec cs : mark_cmds v6 spec = Ok cs -> undone_by cs.2 (clean_mark v6 spec).
Proof.
  unfold mark_cmds, clean_mark. destruct (0 <? pr_mark spec); [|intros [= <-]; apply undone_nil].
  unfold result_bind. destruct (route_cmds _ _ _ _) as [extra|] eqn:E; [|done]. intros [= <-]. cbn [snd fmap list_fmap].
  apply (undone_app [_; _] _ [_; _]).
  - apply (undone_app [_] [_] [_] [_]); apply undone_rule.
  - eapply undone_perm; [apply Permutation_app_comm|]. apply undone_app; [|by apply undone_routes].
    apply undone_app; [apply (undone_default spec V4_FLAG)|apply (undone_default spec V6_FLAG)].
Qed.
Lemma undone_source_rule spec i rule cs : source_cmds v6 spec i rule = Ok cs -> undone_by cs.2 (clean_source v6 spec rule).
Proof.
  unfold source_cmds, clean_source. set (fam := prefix_family (sr_from rule)). destruct (gateway_of spec fam) as [|x gw] eqn:Eg; [done|].
  unfold result_bind. destruct (route_cmds _ _ _ _) as [extra|] eqn:E; [|done]. intros [= <-]. cbn [snd].
  apply (undone_app [_] _ [_]); [apply undone_source|].
  eapply undone_perm; [apply Permutation_app_comm|]. apply (undone_app [_] extra); [|by apply undone_routes].
  pose proof (undone_default spec fam (sr_table rule)) as Hd. by rewrite Eg in Hd.
Qed.
Lemma undone_sources spec : forall rules i cs,
  sources_cmds v6 spec i rules = Ok cs -> undone_by cs.2 (concat (clean_source v6 spec <$> rules)).
Proof.
  induction rules as [|rule rest IH]; intros i cs; cbn [sources_cmds fmap list_fmap concat];
    [intros [= <-]; apply undone_nil|]. unfold result_bind. destruct (source_cmds v6 spec i rule) as [one|] eqn:E1; [|done].
  destruct (sources_cmds v6 spec (S i) rest) as [more|] eqn:E2; [|done]. intros [= <-]. cbn [snd].
  apply undone_app; [by eapply undone_source_rule|by eapply IH].
Qed.

(** The cleanup at exit removes exactly what the installation added, command by
    command: for every rule and route that was installed there is one deletion of
    that rule or route, and no deletion of anything else. *)
Theorem policy_cleanup_exact spec pre install :
  policy_routing_cmds v6 spec = Ok (pre, install) -> undone_by install (clean_policy_routing_cmds v6 spec).
Proof.
  unfold policy_routing_cmds, clean_policy_routing_cmds. destruct (enabled spec); cbn [negb]; [|intros [= <- <-]; apply undone_nil].
  unfold result_bind. destruct (mark_cmds v6 spec) as [m|] eqn:E1; [|done].
  destruct (sources_cmds v6 spec 0 _) as [s|] eqn:E2; [|done]. intros [= <- <-].
  apply undone_app; [by apply undone_mark|by eapply undone_sources].
Qed.
End Cleanup.

(** ** Order of the cleanup *)

Definition on_rules (c : list text) : Prop := c !! 1%nat = Some (word "rule").
Definition table_of (c : list text) : option text := last c.
(** The tables a configuration uses. *)
Definition tables (spec : PolicyRoutingSpec) : list Z :=
  (if 0 <? pr_mark spec then [pr_mark spec] else []) ++ (sr_table <$> pr_source_rules spec).
(** No route is deleted before a rule that leads to its table. *)
Definition rule_first (before after : list text) : Prop :=
  on_rules after -> ~ on_rules before -> table_of before <> table_of after.

Section Order.
Context (v6 : family).

Lemma elem_of_concat {A} (x : A) ls : x ∈ concat ls <-> exists l, x ∈ l /\ l ∈ ls.
Proof. rewrite list_elem_of_In, in_concat. setoid_rewrite list_elem_of_In. naive_solver. Qed.
#[global] Instance num_inj : Inj (=) (=) num.
Proof. intros a b E. by apply (inj pretty), bytes_of_string_inj. Qed.

(** The commands of one table: rules, then routes. *)
Definition table_block (t : Z) (l : list (list text)) : Prop :=
  exists rs qs, l = rs ++ qs /\ Forall on_rules rs /\ Forall (fun c => ~ on_rules c) qs /\ Forall (fun c => table_of c = Some (num t)) l.
Lemma block_sorted t l : table_block t l -> StronglySorted rule_first l.
Proof.
  intros (rs & qs & -> & Hr & Hq & _). rewrite Forall_forall in Hr, Hq. apply StronglySorted_app_2.
  - intros x y Hx Hy Ha. by destruct (Hq y Hy).
  - induction rs as [|r rs IH]; constructor; [apply IH; set_solver|]. apply Forall_forall. intros y Hy _ Hn. destruct Hn. apply Hr. left.
  - induction qs as [|q qs IH]; constructor; [apply IH; set_solver|]. apply Forall_forall. intros y Hy Ha. destruct (Hq y); [by right|done].
Qed.
Lemma block_table t l c : table_block t l -> c ∈ l -> table_of c = Some (num t).
Proof. intros (rs & qs & _ & _ & _ & Hf). rewrite Forall_forall in Hf. apply Hf. Qed.

Lemma route_dels_block tap table routes :
  Forall (fun c => ~ on_rules c /\ table_of c = Some (num table)) (route_dels v6 tap table routes).
Proof.
  apply Forall_forall. intros c (raw & _ & E)%list_elem_of_omap. unfold extra_route_del_cmd in E.
  destruct (parse_route_spec v6 raw); simplify_eq. by split.
Qed.
Lemma default_del_block spec fam table :
  Forall (fun c => ~ on_rules c /\ table_of c = Some (num table)) (default_del spec fam table).
Proof. unfold default_del. destruct (gateway_of spec fam); repeat constructor. done. Qed.
(** Rules with the table's number followed by routes of that table form its block. *)
Lemma mk_block t rs qs :
  Forall (fun c => on_rules c /\ table_of c = Some (num t)) rs ->
  Forall (fun c => ~ on_rules c /\ table_of c = Some (num t)) qs -> table_block t (rs ++ qs).
Proof.
  rewrite !Forall_and. intros [Hr Hrt] [Hq Hqt]. exists rs, qs. repeat split; try done. by apply Forall_app.
Qed.
Lemma source_block spec rule : table_block (sr_table rule) (clean_source v6 spec rule).
Proof.
  apply (mk_block _ [_]); [by repeat constructor|]. apply Forall_app. split; [apply route_dels_block|apply default_del_block].
Qed.
Lemma mark_block spec : 0 < pr_mark spec -> table_block (pr_mark spec) (clean_mark v6 spec).
Proof.
  intros Hm%Z.ltb_lt. unfold clean_mark. rewrite Hm. apply (mk_block _ [_; _]); [by repeat constructor|].
  rewrite !Forall_app. split; [apply route_dels_block|split; apply default_del_block].
Qed.
Lemma sources_sorted spec rules :
  NoDup (sr_table <$> rules) -> StronglySorted rule_first (concat (clean_source v6 spec <$> rules)).
Proof.
  induction rules as [|r rules IH]; intros Hnd; [constructor|]. cbn [fmap list_fmap concat] in *.
  apply NoDup_cons in Hnd as [Hn Hnd]. apply StronglySorted_app_2; [|eapply block_sorted, source_block|by apply IH].
  intros x y Hx (l & Hy & (r' & -> & Hr')%list_elem_of_fmap)%elem_of_concat _ _.
  rewrite (block_table _ _ _ (source_block spec r) Hx), (block_table _ _ _ (source_block spec r') Hy).
  intros [= E%(inj num)]. apply Hn, list_elem_of_fmap. by exists r'.
Qed.

(** While it cleans up, the client never leaves a rule that leads to a table whose
    routes are already gone: when no two rules share a table, every deletion of a
    route comes after the deletions of all rules for its table. *)
Theorem rules_removed_before_routes spec :
  NoDup (tables spec) -> StronglySorted rule_first (clean_policy_routing_cmds v6 spec).
Proof.
  unfold tables, clean_policy_routing_cmds. intros Hnd. destruct (enabled spec); [|constructor]. cbn [negb].
  apply NoDup_app in Hnd as (_ & Hdis & Hnd). apply StronglySorted_app_2; [| |by apply sources_sorted].
  - intros x y Hx (l & Hy & (r & -> & Hr)%list_elem_of_fmap)%elem_of_concat _ _.
    rewrite (block_table _ _ _ (source_block spec r) Hy).
    destruct (0 <? pr_mark spec) eqn:Em; [|unfold clean_mark in Hx; rewrite Em in Hx; set_solver].
    apply Z.ltb_lt in Em. rewrite (block_table _ _ _ (mark_block spec Em) Hx). intros [= E%(inj num)].
    apply (Hdis (pr_mark spec)); [by left|]. apply list_elem_of_fmap. by exists r.
  - destruct (0 <? pr_mark spec) eqn:Em; [eapply block_sorted, mark_block; by apply Z.ltb_lt|].
    unfold clean_mark. rewrite Em. constructor.
Qed.
End Order.

(** ** Validation *)

(** The text form of IPv6: it has a colon, and the printed form no slash. *)
Class V6Text (fam : family) : Prop := {
  v6_parse_colon : forall s a, fam_parse fam s = Some a -> COLON ∈ s;
  v6_print_plain : forall a, SLASH ∉ fam_print fam a }.

Section Validation.
Context (v6 : family) `{!FamilyLaws v6} `{!V6Text v6}.

Lemma split_on_elem sep s c : c ∈ s -> c = sep \/ exists p, p ∈ split_on sep s /\ c ∈ p.
Proof.
  induction s as [|d s IH]; cbn; [set_solver|]. destruct (Z.eqb_spec d sep) as [->|].
  - intros [->|Hc]%elem_of_cons; [by left|]. destruct (IH Hc) as [|(p & Hp & ?)]; [by left|]. right. exists p. split; [by right|done].
  - intros Hc. destruct (split_on sep s) as [|p ps] eqn:E.
    + apply elem_of_cons in Hc as [->|Hc]; [right; exists [d]; set_solver|]. destruct (IH Hc) as [|(p & Hp & _)]; [by left|set_solver].
    + apply elem_of_cons in Hc as [->|Hc]; [right; exists (d :: p); set_solver|].
      destruct (IH Hc) as [|(p' & [->|Hp]%elem_of_cons & ?)]; [by left|right; exists (d :: p); set_solver|right; exists p'; set_solver].
Qed.
Lemma ipv4_chars s a c : ipv4_parse s = Some a -> c ∈ s -> c = DOT \/ is_digit c = true.
Proof.
  unfold ipv4_parse. destruct (mapM parse_octet (split_on DOT s)) as [l|] eqn:E; [|done]. intros _ Hc.
  destruct (split_on_elem DOT s c Hc) as [|(p & Hp & Hcp)]; [by left|]. right. apply mapM_Some in E.
  apply list_elem_of_lookup in Hp as [i Hi]. destruct (Forall2_lookup_l _ _ _ _ _ E Hi) as (v & _ & Hv).
  unfold parse_octet in Hv. destruct p as [|x p]; [done|]. destruct (forallb is_digit (x :: p)) eqn:Ef; [|done].
  rewrite forallb_forall in Ef. apply Ef. by apply list_elem_of_In.
Qed.
Lemma u32_chars s n c : parse_u32 s = Some n -> c ∈ s -> c = 43 \/ is_digit c = true.
Proof.
  unfold parse_u32. destruct s as [|x s]; [done|]. destruct (Z.eqb_spec x 43) as [->|].
  - destruct s as [|y s]; [done|]. destruct (forallb is_digit (y :: s)) eqn:Ef; [|done]. intros _ [->|Hc]%elem_of_cons; [by left|].
    rewrite forallb_forall in Ef. right. apply Ef. by apply list_elem_of_In.
  - destruct (forallb is_digit (x :: s)) eqn:Ef; [|done]. intros _ Hc. rewrite forallb_forall in Ef. right. apply Ef. by apply list_elem_of_In.
Qed.

Definition flag_of (a : ip_addr) : text := match a with V4 _ => V4_FLAG | V6 _ => V6_FLAG end.
(** An address of a family, a mask within it, and the flag of that family. *)
Definition valid_prefix (q : text) : Prop :=
  exists addr len a n, split_once SLASH q = (addr, Some len) /\ ip_parse v6 addr = Some a /\ parse_u32 len = Some n /\
    n <= ip_width a /\ prefix_family q = flag_of a.

Lemma not_colon_digit c : is_digit c = true -> c <> COLON.
Proof. unfold is_digit, COLON. intros E ->. done. Qed.
Lemma family_flag addr len a n :
  ip_parse v6 addr = Some a -> parse_u32 len = Some n -> prefix_family (addr ++ SLASH :: len) = flag_of a.
Proof.
  intros Ha Hn. unfold prefix_family. assert (Hl : COLON ∉ len).
  { intros Hc. destruct (u32_chars _ _ _ Hn Hc) as [|Hd]; [done|]. by apply not_colon_digit in Hd. }
  unfold ip_parse in Ha. destruct (ipv4_parse addr) as [b|] eqn:E4; simplify_eq/=.
  - rewrite bool_decide_eq_false_2; [done|]. intros [Hc|[?|Hc]%elem_of_cons]%elem_of_app; try done.
    destruct (ipv4_chars _ _ _ E4 Hc) as [|Hd]; [done|]. by apply not_colon_digit in Hd.
  - destruct (fam_parse v6 addr) as [b|] eqn:E6; simplify_eq/=. rewrite bool_decide_eq_true_2; [done|].
    apply elem_of_app. left. by eapply v6_parse_colon.
Qed.
Lemma ip_print_spec s a : ip_parse v6 s = Some a -> SLASH ∉ ip_print v6 a /\ ip_parse v6 (ip_print v6 a) = Some a.
Proof.
  unfold ip_parse. destruct (ipv4_parse s) as [b|] eqn:E4; intros E; simplify_eq/=.
  - assert (Hp : ipv4_parse (u32_to_ip4 b) = Some b)
      by exact (fam_parse_print (fam := v4_family) b (fam_parse_range (fam := v4_family) s b E4)). cbn [ip_print]. rewrite Hp.
    split; [|done]. intros Hc. destruct (ipv4_chars _ _ _ Hp Hc) as [|Hd]; done.
  - destruct (fam_parse v6 s) as [b|] eqn:E6; simplify_eq/=. split; [apply v6_print_plain|].
    rewrite (fam_parse_print b) by (by eapply fam_parse_range).
    destruct (ipv4_parse (fam_print v6 b)) as [x|] eqn:Ex; [|done]. exfalso.
    assert (Hc : COLON ∈ fam_print v6 b) by (eapply v6_parse_colon, fam_parse_print; by eapply fam_parse_range).
    destruct (ipv4_chars _ _ _ Ex Hc) as [|Hd]; done.
Qed.

Lemma normalize_valid p q : normalize_prefix v6 p = Ok q -> valid_prefix q.
Proof.
  unfold normalize_prefix. pose proof (split_once_spec SLASH p) as Hs. destruct (split_once SLASH p) as [addr [len|]] eqn:Es.
  - destruct Hs as [-> Hn]. destruct (ip_parse v6 addr) as [a|] eqn:Ea; [|done]. destruct (parse_u32 len) as [n|] eqn:El; [|done].
    destruct (Z.ltb_spec (ip_width a) n); [done|]. intros [= <-]. exists addr, len, a, n. repeat split; try done. by eapply family_flag.
  - destruct (ip_parse v6 p) as [a|] eqn:Ea; [|done]. intros [= <-]. destruct (ip_print_spec _ _ Ea) as [Hsl Hpp].
    assert (Hb : parse_u32 (num (host_bits a)) = Some (host_bits a) /\ host_bits a <= ip_width a).
    { unfold host_bits. destruct a; [by split|]. case_match; split; done. }
    destruct Hb as [Hb1 Hb2]. exists (ip_print v6 a), (num (host_bits a)), a, (host_bits a). rewrite split_once_app by done.
    repeat split; try done. by eapply family_flag.
Qed.

Lemma parse_route_valid raw p d : parse_route_spec v6 raw = Ok (p, d) -> valid_prefix p.
Proof.
  unfold parse_route_spec, result_bind. destruct (split_whitespace raw) as [|f rest]; [done|].
  destruct (normalize_prefix v6 f) as [q|] eqn:E; [|done]. destruct (route_options rest []); [|done]. intros [= <- <-].
  by eapply normalize_valid.
Qed.

Lemma routes_succeed wrap tap table routes :
  validate_routes v6 wrap routes = Ok tt -> exists cs, route_cmds v6 tap table routes = Ok cs.
Proof.
  induction routes as [|raw rest IH]; cbn; [by eexists|]. unfold extra_route_cmd, result_bind.
  destruct (parse_route_spec v6 raw) as [r|]; [|done]. intros Hv. destruct (IH Hv) as [cs ->]. by eexists.
Qed.

(** What validation establishes of a rule. *)
Definition rule_ok (r : SourceRule) : Prop :=
  valid_prefix (sr_from r) /\ sr_table r ∉ [0; 253; 254; 255] /\ exists i, validate_routes v6 (SourceRoute i) (sr_routes r) = Ok tt.
Lemma source_rule_ok i r r' : validate_source_rule v6 i r = (r', Ok tt) -> rule_ok r'.
Proof.
  unfold validate_source_rule. destruct (utf8_trim (sr_from r)) as [|c t] eqn:Et; [done|].
  destruct (parse_route_spec v6 (c :: t)) as [[p d]|] eqn:Ep; [|done]. case_bool_decide; [|done]. cbn [negb sr_table].
  destruct (_ || _ || _ || _) eqn:Etab; [done|]. intros [= <- Hv]. split; [by eapply parse_route_valid|]. split; [|by exists i].
  cbn. rewrite !orb_false_iff in Etab. rewrite !Z.eqb_neq in Etab. set_solver.
Qed.
Lemma source_rules_ok rules : forall i rules', validate_source_rules_from v6 i rules = (rules', Ok tt) -> Forall rule_ok rules'.
Proof.
  induction rules as [|r rest IH]; intros i rules'; cbn; [intros [= <-]; constructor|].
  destruct (validate_source_rule v6 i r) as [r' [[]|]] eqn:E; [|done].
  destruct (validate_source_rules_from v6 (S i) rest) as [rest' res] eqn:E2. intros [= <- ->].
  constructor; [by eapply source_rule_ok|by eapply IH].
Qed.
Lemma sources_only_gateway spec rules : forall i e,
  Forall rule_ok rules -> sources_cmds v6 spec i rules = Err e ->
  exists j r, rules !! j = Some r /\ e = MissingGateway (i + j) /\ gateway_of spec (prefix_family (sr_from r)) = [].
Proof.
  induction rules as [|r rest IH]; intros i e Hr; cbn [sources_cmds]; [done|]. apply Forall_cons in Hr as [(_ & _ & k & Hk) Hr].
  unfold source_cmds at 1. unfold result_bind. destruct (gateway_of spec _) as [|x gw] eqn:Eg.
  - intros [= <-]. exists 0%nat, r. split; [done|]. by rewrite Nat.add_0_r.
  - destruct (routes_succeed _ (pr_tap_name spec) (sr_table r) _ Hk) as [cs ->].
    destruct (sources_cmds v6 spec (S i) rest) as [more|e'] eqn:E; [done|]. intros [= <-].
    destruct (IH (S i) e' Hr E) as (j & r' & Hj & -> & Hg). exists (S j), r'. split; [done|]. split; [f_equal; lia|done].
Qed.

(** Configuration errors are found when the configuration is loaded.  Once the
    extra routes and the source rules have passed validation, every rule carries a
    prefix with its mask and the flag of its own address family and no table of the
    kernel, and building the commands can only fail because the server announced no
    gateway for the family of a rule. *)
Theorem validated_routing_only_needs_gateways spec rules :
  validate_extra_routes v6 (pr_extra_routes spec) = Ok tt ->
  validate_source_rules v6 rules = (pr_source_rules spec, Ok tt) ->
  Forall (fun r => valid_prefix (sr_from r) /\ sr_table r ∉ [0; 253; 254; 255]) (pr_source_rules spec) /\
  forall e, policy_routing_cmds v6 spec = Err e ->
    exists i r, pr_source_rules spec !! i = Some r /\ e = MissingGateway i /\ gateway_of spec (prefix_family (sr_from r)) = [].
Proof.
  intros Hx Hs. pose proof (source_rules_ok _ _ _ Hs) as Hok. split.
  { eapply Forall_impl; [exact Hok|]. by intros r (? & ? & _). }
  intros e. unfold policy_routing_cmds. destruct (enabled spec); [|done]. cbn [negb]. unfold result_bind.
  destruct (mark_cmds v6 spec) as [m|e1] eqn:Em.
  - destruct (sources_cmds v6 spec 0 _) as [s|e2] eqn:Es; [done|]. intros [= <-]. exact (sources_only_gateway _ _ 0 _ Hok Es).
  - exfalso. unfold mark_cmds, result_bind in Em. destruct (0 <? pr_mark spec); [|done].
    destruct (routes_succeed _ (pr_tap_name spec) (pr_mark spec) _ Hx) as [cs E]. by rewrite E in Em.
Qed.
End Validation.

(** ** Examples *)

(** A 128-bit family with a text form of its own: a colon and 32 letters. *)
Fixpoint unletters (s : text) : option (list Z) :=
  match s with
  | [] => Some []
  | a :: b :: s' =>
      if decide (97 <= a < 113 /\ 97 <= b < 113) then cons (16 * (a - 97) + (b - 97)) <$> unletters s' else None
  | _ => None
  end.
Definition letters (l : list Z) : text := concat ((fun b => [97 + b / 16; 97 + b mod 16]) <$> l).
Lemma unletters_letters l : bytes_ok l -> unletters (letters l) = Some l.
Proof.
  induction 1 as [|b l Hb _ IH]; [done|]. unfold is_byte in Hb. cbn -[Z.div Z.modulo]. fold (letters l). rewrite IH.
  pose proof (Z.div_mod b 16 ltac:(lia)). pose proof (Z.mod_pos_bound b 16 ltac:(lia)).
  assert (0 <= b / 16 < 16) by (split; [apply Z.div_pos; lia|apply Z.div_lt_upper_bound; lia]).
  rewrite decide_True by lia. cbn -[Z.div Z.modulo]. do 2 f_equal. lia.
Qed.
Lemma unletters_bytes n : forall s l, (length s <= n)%nat -> unletters s = Some l -> bytes_ok l /\ length s = (2 * length l)%nat.
Proof.
  induction n as [|n IH]; intros [|a [|b s]] l Hl; cbn in Hl |- *; try lia; try done; try (intros [= <-]; by split).
  case_decide as Hd; [|done]. destruct (unletters s) as [l'|] eqn:E; [|done]. intros [= <-]. cbn in Hl.
  destruct (IH s l' ltac:(lia) E) as [Hb Hlen]. split; [constructor; [unfold is_byte; lia|done]|cbn; lia].
Qed.
Definition letter_v6 : family :=
  {| fam_bits := 128; fam_print a := COLON :: letters (be_encode 16 a);
     fam_parse s := match s with
                    | c :: s' => if decide (c = COLON /\ length s' = 32%nat) then be_decode <$> unletters s' else None
                    | [] => None end |}.
Lemma letters_length l : length (letters l) = (2 * length l)%nat.
Proof. induction l as [|b l IH]; [done|]. cbn. fold (letters l). rewrite IH. lia. Qed.
#[local] Instance letter_v6_laws : FamilyLaws letter_v6.
Proof.
  split; cbn [letter_v6 fam_bits fam_print fam_parse]; [lia| | |done].
  - intros a Ha. rewrite decide_True by (split; [done|]; by rewrite letters_length, length_be_encode).
    rewrite unletters_letters by apply be_encode_bytes. cbn [fmap option_fmap option_map]. f_equal. by apply be_decode_encode.
  - intros [|c s] a; [done|]. case_decide as Hd; [|done]. destruct (unletters s) as [l|] eqn:E; [|done]. intros [= <-].
    destruct (unletters_bytes _ _ _ (le_n _) E) as [Hb Hl]. apply be_decode_bound in Hb.
    replace (length l) with 16%nat in Hb by lia. exact Hb.
Qed.
#[local] Instance letter_v6_text : V6Text letter_v6.
Proof.
  split; cbn [letter_v6 fam_bits fam_print fam_parse].
  - intros [|c s] a; [done|]. case_decide as Hd; [|done]. destruct Hd as [-> _]. left.
  - intros a [?|Hc]%elem_of_cons; [done|]. unfold letters in Hc.
    apply elem_of_concat in Hc as (l & Hl & (b & -> & Hb)%list_elem_of_fmap). unfold SLASH in Hl.
    pose proof (be_encode_bytes 16 a) as Hf. rewrite Forall_forall in Hf. specialize (Hf b Hb). unfold is_byte in Hf.
    pose proof (Z.div_pos b 16 ltac:(lia) ltac:(lia)). pose proof (Z.mod_pos_bound b 16 ltac:(lia)).
    rewrite !elem_of_cons, elem_of_nil in Hl. lia.
Qed.

Definition demo_spec : PolicyRoutingSpec :=
  {| pr_mark := 100; pr_priority := 500; pr_tap_name := bytes_of_string "tap0"; pr_gw_v4 := bytes_of_string "10.0.0.1"; pr_gw_v6 := [];
     pr_extra_routes := [bytes_of_string "192.168.7.0/24 dev eth0"; bytes_of_string " 10.9.8.7 "];
     pr_source_rules := [{| sr_from := bytes_of_string "172.16.0.0/12"; sr_table := 7; sr_priority := 0;
                            sr_routes := [bytes_of_string "10.1.0.0/16"] |}] |}.
Lemma policy_cleanup_exact_witness :
  exists pre install, policy_routing_cmds letter_v6 demo_spec = Ok (pre, install) /\ length install = 8%nat /\
    undone_by install (clean_policy_routing_cmds letter_v6 demo_spec).
Proof.
  destruct (policy_routing_cmds letter_v6 demo_spec) as [[pre install]|] eqn:E; [|by vm_compute in E].
  exists pre, install. split; [done|]. split; [vm_compute in E; by injection E as <- <-|].
  exact (policy_cleanup_exact letter_v6 demo_spec pre install E).
Defined.
Lemma rules_removed_before_routes_witness : StronglySorted rule_first (clean_policy_routing_cmds letter_v6 demo_spec).
Proof.
  apply (rules_removed_before_routes letter_v6 demo_spec). unfold tables. cbn.
  constructor; [set_solver|]. constructor; [set_solver|constructor].
Defined.
Definition demo_no_gateway : PolicyRoutingSpec :=
  {| pr_mark := 0; pr_priority := 0; pr_tap_name := []; pr_gw_v4 := []; pr_gw_v6 := []; pr_extra_routes := [];
     pr_source_rules := pr_source_rules demo_spec |}.
Lemma validated_routing_only_needs_gateways_witness :
  exists i r, pr_source_rules demo_spec !! i = Some r /\ policy_routing_cmds letter_v6 demo_no_gateway = Err (MissingGateway i).
Proof.
  destruct (validated_routing_only_needs_gateways letter_v6 demo_no_gateway (pr_source_rules demo_spec)) as [_ He];
    [reflexivity|vm_compute; reflexivity|].
  destruct (He (MissingGateway 0)) as (i & r & Hr & [= <-] & _); [vm_compute; reflexivity|].
  exists 0%nat, r. split; [exact Hr|vm_compute; reflexivity].
Defined.

(** The completion of a bare address looks at one of the eight groups only, so an
    IPv6 host such as 2001:db8::ffff:1:2 gets the mask of an IPv4 host; an IPv4-mapped
    address gets it too and keeps its IPv6 form, which makes the prefix ::/32. *)
Example mapped_test_is_partial :
  host_bits (V6 (0x20010db8 * 2 ^ 96 + 0xffff * 2 ^ 32 + 0x00010002)) = 32 /\
  host_bits (V6 (0xffff * 2 ^ 32 + 0x01020304)) = 32 /\
  prefix_family (ip_print letter_v6 (V6 (0xffff * 2 ^ 32 + 0x01020304))) = V6_FLAG.
Proof. split_and!; vm_compute; reflexivity. Qed.
