(* ===== verification/Cork.v ===== *)
(** * Batch corking of the outer TCP stream: [src/src/tcp_cork.rs]

    Instants and durations are microseconds.  The [TCP_CORK] socket option is the
    argument [ok] of an operation: whether the kernel accepted the request.  The
    shared flag that announces carried bytes is a field of the state. *)
From S2P Require Import Prelude.

Definition RTT_THRESHOLD_US : Z := 1000.
Definition MAX_DELAY_US : Z := 150.
Definition FALLBACK_MSS : Z := 1440.

Definition policy_for_rtt (rtt_us : Z) : option Z :=
  if (0 <? rtt_us) && (rtt_us <? RTT_THRESHOLD_US) then None
  else
    let delay_us := if rtt_us =? 0 then MAX_DELAY_US else Z.min (rtt_us / 8) MAX_DELAY_US in
    Some (Z.max delay_us 1).

Record TlsBatchCork := {
  ck_enabled : bool; ck_corked : bool; ck_mss : Z; ck_progress : Z; ck_delay : Z; ck_deadline : option Z;
  ck_carry_state : option bool }.

Definition cork_disabled : TlsBatchCork :=
  {| ck_enabled := false; ck_corked := false; ck_mss := FALLBACK_MSS; ck_progress := 0; ck_delay := MAX_DELAY_US;
     ck_deadline := None; ck_carry_state := None |}.
(** [new]: round-trip time and segment size as the kernel reports them. *)
Definition TlsBatchCork_new (rtt measured_mss : Z) : TlsBatchCork :=
  match policy_for_rtt rtt with
  | None => cork_disabled
  | Some delay =>
      {| ck_enabled := true; ck_corked := false; ck_mss := if 256 <=? measured_mss then measured_mss else FALLBACK_MSS;
         ck_progress := 0; ck_delay := delay; ck_deadline := None; ck_carry_state := None |}
  end.
Definition bind_carry_state (c : TlsBatchCork) : TlsBatchCork :=
  {| ck_enabled := ck_enabled c; ck_corked := ck_corked c; ck_mss := ck_mss c; ck_progress := ck_progress c;
     ck_delay := ck_delay c; ck_deadline := ck_deadline c; ck_carry_state := Some (ck_corked c) |}.
Definition cork_next_timeout (c : TlsBatchCork) (now : Z) : option Z :=
  if negb (ck_enabled c) || negb (ck_corked c) then None else (fun d => Z.max (d - now) 0) <$> ck_deadline c.

(** State after the cork is set, or after the kernel refused it. *)
Definition cork_on (c : TlsBatchCork) (now : Z) : TlsBatchCork :=
  {| ck_enabled := ck_enabled c; ck_corked := true; ck_mss := ck_mss c; ck_progress := 0; ck_delay := ck_delay c;
     ck_deadline := Some (now + ck_delay c); ck_carry_state := (fun _ => true) <$> ck_carry_state c |}.
Definition cork_refused (c : TlsBatchCork) : TlsBatchCork :=
  {| ck_enabled := false; ck_corked := ck_corked c; ck_mss := ck_mss c; ck_progress := ck_progress c; ck_delay := ck_delay c;
     ck_deadline := ck_deadline c; ck_carry_state := (fun _ => false) <$> ck_carry_state c |}.
Definition set_progress (c : TlsBatchCork) (progress : Z) (deadline : option Z) : TlsBatchCork :=
  {| ck_enabled := ck_enabled c; ck_corked := ck_corked c; ck_mss := ck_mss c; ck_progress := progress; ck_delay := ck_delay c;
     ck_deadline := deadline; ck_carry_state := ck_carry_state c |}.
Definition advance (c : TlsBatchCork) (n now : Z) : TlsBatchCork :=
  let progress := u64_sat_add (ck_progress c) n in
  if ck_mss c <=? progress then set_progress c (progress mod ck_mss c) (Some (now + ck_delay c))
  else
    match ck_deadline c with
    | None => set_progress c progress (Some (now + ck_delay c))
    | Some d => set_progress c progress (Some d)
    end.

Definition before_write_with (c : TlsBatchCork) (n now : Z) (ok : bool) : TlsBatchCork :=
  if negb (ck_enabled c) || (n =? 0) then c
  else if negb (ck_corked c) then if negb ok then cork_refused c else advance (cork_on c now) n now
  else advance c n now.
Definition before_write (c : TlsBatchCork) (n now : Z) (ok : bool) : TlsBatchCork :=
  if negb (ck_enabled c) || (n =? 0) then c else before_write_with c n now ok.

Definition flush_with (c : TlsBatchCork) (ok : bool) : TlsBatchCork :=
  if negb (ck_corked c) then c
  else
    {| ck_enabled := if ok then ck_enabled c else false; ck_corked := false; ck_mss := ck_mss c; ck_progress := 0;
       ck_delay := ck_delay c; ck_deadline := None; ck_carry_state := (fun _ => false) <$> ck_carry_state c |}.
Definition maybe_flush_with (c : TlsBatchCork) (now : Z) (ok : bool) : TlsBatchCork :=
  if negb (ck_corked c) || match ck_deadline c with Some d => now <? d | None => false end then c else flush_with c ok.
Definition maybe_flush (c : TlsBatchCork) (now : Z) (ok : bool) : TlsBatchCork :=
  if negb (ck_enabled c) || negb (ck_corked c) then c else maybe_flush_with c now ok.
Definition cork_close (c : TlsBatchCork) (ok : bool) : TlsBatchCork := if ck_corked c then flush_with c ok else c.

(** ** The bytes the kernel may hold back

    A corked socket sends full segments at once and keeps the remainder.  [held] is
    that remainder, each byte with the time it was written. *)

Inductive cork_op := CWrite (n now : Z) (ok : bool) | CFlush (now : Z) (ok : bool) | CClose (ok : bool).
Record corked_socket := { cs_cork : TlsBatchCork; cs_held : list Z }.
Definition after_segments (mss : Z) (held : list Z) : list Z := drop (Z.to_nat (zlen held / mss * mss)) held.
Definition cork_step (s : corked_socket) (op : cork_op) : corked_socket :=
  match op with
  | CWrite n now ok =>
      let c := before_write (cs_cork s) n now ok in
      {| cs_cork := c;
         cs_held := if ck_corked c then after_segments (ck_mss c) (cs_held s ++ replicate (Z.to_nat n) now) else [] |}
  | CFlush now ok => let c := maybe_flush (cs_cork s) now ok in {| cs_cork := c; cs_held := if ck_corked c then cs_held s else [] |}
  | CClose ok => {| cs_cork := cork_close (cs_cork s) ok; cs_held := [] |}
  end.
Definition cork_run (s : corked_socket) (ops : list cork_op) : corked_socket := foldl cork_step s ops.
(** Lengths of one write stay far below the width of [usize], and time does not go back. *)
Definition op_now (op : cork_op) : option Z := match op with CWrite _ now _ | CFlush now _ => Some now | CClose _ => None end.
Definition cork_op_ok (t : Z) (op : cork_op) : Prop :=
  match op with CWrite n now _ => 0 <= n < 2 ^ 62 /\ t <= now | CFlush now _ => t <= now | CClose _ => True end.
Fixpoint cork_ops_ok (t : Z) (ops : list cork_op) : Prop :=
  match ops with [] => True | op :: ops => cork_op_ok t op /\ cork_ops_ok (default t (op_now op)) ops end.

Record cork_inv (t : Z) (s : corked_socket) : Prop := {
  ci_mss : 256 <= ck_mss (cs_cork s) < 2 ^ 62;
  ci_delay : 1 <= ck_delay (cs_cork s) <= MAX_DELAY_US;
  ci_held : if ck_corked (cs_cork s) then zlen (cs_held s) = ck_progress (cs_cork s) /\ ck_progress (cs_cork s) < ck_mss (cs_cork s) else cs_held s = [];
  ci_deadline : if ck_corked (cs_cork s)
                then exists d, ck_deadline (cs_cork s) = Some d /\ d <= t + ck_delay (cs_cork s) /\
                       Forall (fun w => d <= w + ck_delay (cs_cork s)) (cs_held s)
                else ck_deadline (cs_cork s) = None;
  ci_carry : ck_carry_state (cs_cork s) = None \/ ck_carry_state (cs_cork s) = Some (ck_corked (cs_cork s));
  ci_enabled : ck_corked (cs_cork s) = true -> ck_enabled (cs_cork s) = true }.

Lemma cork_new_inv t rtt mss : 0 <= rtt -> mss < 2 ^ 62 -> cork_inv t {| cs_cork := bind_carry_state (TlsBatchCork_new rtt mss); cs_held := [] |}.
Proof.
  intros Hr Hm. unfold TlsBatchCork_new, policy_for_rtt, RTT_THRESHOLD_US, MAX_DELAY_US.
  destruct (_ && _) eqn:E; split; cbn; unfold FALLBACK_MSS, MAX_DELAY_US; try done; try lia; try (by right).
  - case_match; lia.
  - case_match; [lia|]. pose proof (Z.div_pos rtt 8 Hr). lia.
Qed.

Lemma advance_keeps c n now : ck_corked (advance c n now) = ck_corked c /\ ck_mss (advance c n now) = ck_mss c.
Proof. unfold advance. by repeat case_match. Qed.
(** One write of [n > 0] bytes on a corked socket. *)
Lemma advance_inv t s n now :
  cork_inv t s -> ck_corked (cs_cork s) = true -> 0 < n < 2 ^ 62 -> t <= now ->
  cork_inv now {| cs_cork := advance (cs_cork s) n now;
                  cs_held := after_segments (ck_mss (cs_cork s)) (cs_held s ++ replicate (Z.to_nat n) now) |}.
Proof.
  intros [Hmss Hdelay Hheld Hdl Hcarry Hen] Hc Hn Ht. rewrite Hc in Hheld, Hdl, Hcarry, Hen. destruct Hheld as [Hlen Hlt]. destruct Hdl as (d & Hd & Hdt & Hall).
  set (c := cs_cork s) in *. set (h := cs_held s) in *.
  assert (Hnew : zlen (h ++ replicate (Z.to_nat n) now) = ck_progress c + n) by (rewrite length_app, length_replicate; lia).
  assert (Hp : u64_sat_add (ck_progress c) n = ck_progress c + n) by (unfold_ints; lia).
  unfold after_segments. rewrite Hnew. unfold advance. rewrite Hp, Hd.
  destruct (Z.leb_spec (ck_mss c) (ck_progress c + n)) as [Hge|Hsm].
  - set (q := (ck_progress c + n) / ck_mss c). assert (Hq : 1 <= q) by (apply Z.div_le_lower_bound; lia).
    pose proof (Z.div_mod (ck_progress c + n) (ck_mss c) ltac:(lia)) as Hdm. fold q in Hdm.
    pose proof (Z.mod_pos_bound (ck_progress c + n) (ck_mss c) ltac:(lia)).
    assert (Hge' : zlen h <= q * ck_mss c) by nia.
    split; cbn; rewrite ?Hc; try done.
    + split; [|lia]. rewrite length_drop, Nat2Z.inj_sub by lia. rewrite Z2Nat.id by nia. lia.
    + exists (now + ck_delay c). split; [done|]. split; [lia|]. rewrite drop_app_ge by lia.
      apply Forall_drop, Forall_replicate. lia.
  - rewrite (Z.div_small (ck_progress c + n) (ck_mss c)) by lia. cbn. rewrite drop_0.
    split; cbn; rewrite ?Hc; try done.
    exists d. split; [done|]. split; [lia|]. apply Forall_app. split; [done|]. apply Forall_replicate. lia.
Qed.
Lemma cork_on_inv t c now :
  cork_inv t {| cs_cork := c; cs_held := [] |} -> ck_enabled c = true -> t <= now -> cork_inv now {| cs_cork := cork_on c now; cs_held := [] |}.
Proof.
  intros [Hmss Hdelay _ _ Hcarry _] Hen Ht. split; cbn in *; try done.
  - lia.
  - exists (now + ck_delay c). split; [done|]. split; [lia|constructor].
  - destruct Hcarry as [->| ->]; [by left|by right].
Qed.
Lemma cork_inv_mono t t' s : t <= t' -> cork_inv t s -> cork_inv t' s.
Proof.
  intros Ht [? ? ? Hd ? ?]. split; try done. destruct (ck_corked (cs_cork s)); [|done].
  destruct Hd as (d & ? & ? & ?). exists d. repeat split; try done. lia.
Qed.
Lemma flush_inv t s ok : cork_inv t s -> cork_inv t {| cs_cork := flush_with (cs_cork s) ok; cs_held := [] |}.
Proof.
  intros [Hmss Hdelay Hheld Hdl Hcarry Hen]. unfold flush_with. destruct (ck_corked (cs_cork s)) eqn:Hc; cbn [negb].
  - split; cbn; try done. destruct Hcarry as [->| ->]; [by left|by right].
  - split; cbn; rewrite ?Hc; try done.
Qed.

Lemma cork_step_inv t s op : cork_inv t s -> cork_op_ok t op -> cork_inv (default t (op_now op)) (cork_step s op).
Proof.
  intros Hi Hop. pose proof Hi as [Hmss Hdelay Hheld Hdl Hcarry Hen]. destruct op as [n now ok|now ok|ok]; cbn in Hop |- *.
  - destruct Hop as [Hn Ht]. unfold before_write, before_write_with.
    destruct (ck_enabled (cs_cork s)) eqn:Ee; cbn [negb orb].
    + destruct (Z.eqb_spec n 0) as [->|Hn0].
      { replace (if ck_corked (cs_cork s) then _ else _) with (cs_held s); [apply (cork_inv_mono t); [done|by destruct s]|].
        cbn. rewrite app_nil_r. destruct (ck_corked (cs_cork s)); [|done]. destruct Hheld as [Hl ?].
        unfold after_segments. by rewrite Z.div_small by lia. }
      destruct (ck_corked (cs_cork s)) eqn:Hc; cbn [negb].
      * pose proof (advance_inv t s n now Hi Hc ltac:(lia) Ht) as Ha.
        destruct (advance_keeps (cs_cork s) n now) as [-> ->]. by rewrite Hc.
      * assert (Hs : s = {| cs_cork := cs_cork s; cs_held := [] |}) by (destruct s; cbn in *; by rewrite Hheld).
        destruct ok; cbn [negb].
        -- rewrite Hs in Hi. pose proof (cork_on_inv t _ now Hi Ee Ht) as Ho.
           pose proof (advance_inv now _ n now Ho eq_refl ltac:(lia) ltac:(lia)) as Ha.
           rewrite Hheld. destruct (advance_keeps (cork_on (cs_cork s) now) n now) as [-> ->]. exact Ha.
        -- split; cbn; rewrite ?Hc; try done. destruct Hcarry as [->| ->]; [by left|by right].
    + assert (Hc : ck_corked (cs_cork s) = false) by (destruct (ck_corked (cs_cork s)); [by specialize (Hen eq_refl)|done]).
      rewrite Hc in *. apply (cork_inv_mono t); [done|]. rewrite <-Hheld. by destruct s.
  - unfold maybe_flush, maybe_flush_with. destruct (negb (ck_enabled (cs_cork s)) || negb (ck_corked (cs_cork s))) eqn:E0.
    { apply (cork_inv_mono t); [done|]. destruct s as [c h]; cbn in *. destruct (ck_corked c); [done|]. by rewrite Hheld in Hi. }
    apply orb_false_iff in E0 as [_ Hc%negb_false_iff]. rewrite Hc in Hdl |- *. destruct Hdl as (d & Hd & _). rewrite Hd. cbn [negb orb].
    destruct (now <? d); apply (cork_inv_mono t); try done.
    + rewrite Hc. by destruct s.
    + unfold flush_with. rewrite Hc. cbn [negb ck_corked]. pose proof (flush_inv t s ok Hi) as Hf. unfold flush_with in Hf. by rewrite Hc in Hf.
  - unfold cork_close. destruct (ck_corked (cs_cork s)) eqn:Hc; [by apply flush_inv|]. rewrite <-Hheld. by destruct s.
Qed.
Lemma cork_run_inv ops : forall t s, cork_inv t s -> cork_ops_ok t ops -> exists t', cork_inv t' (cork_run s ops).
Proof.
  induction ops as [|op ops IH]; intros t s Hi Hops; [by exists t|]. destruct Hops as [Ho Hops].
  eapply IH; [by apply cork_step_inv|done].
Qed.

(** Corking delays no byte for long.  Over any sequence of writes, timer flushes
    and refused socket options, every byte the kernel may hold back was written at
    most [delay] before the flush deadline, with [delay] between 1 and 150
    microseconds, fewer bytes than one segment are held, the timer knows the
    deadline, a flush at the deadline releases them all, and the published flag says
    exactly whether bytes are carried. *)
Theorem cork_delay_bounded rtt mss ops t :
  0 <= rtt -> mss < 2 ^ 62 -> cork_ops_ok t ops ->
  let s := cork_run {| cs_cork := bind_carry_state (TlsBatchCork_new rtt mss); cs_held := [] |} ops in
  ck_carry_state (cs_cork s) = Some (ck_corked (cs_cork s)) /\
  (cs_held s <> [] -> zlen (cs_held s) < ck_mss (cs_cork s) /\
   exists d, ck_deadline (cs_cork s) = Some d /\ Forall (fun w => d <= w + MAX_DELAY_US) (cs_held s) /\
     forall now ok, cork_next_timeout (cs_cork s) now = Some (Z.max (d - now) 0) /\
       (d <= now -> cs_held (cork_step s (CFlush now ok)) = [])).
Proof.
  intros Hr Hm Hops s. destruct (cork_run_inv ops t _ (cork_new_inv t rtt mss Hr Hm) Hops) as [t' Hi]. fold s in Hi.
  destruct Hi as [Hmss Hdelay Hheld Hdl Hcarry Hen]. split.
  - destruct Hcarry as [E|E]; [|done]. exfalso. unfold s in E. clear -E.
    assert (Hk : forall ops s0, ck_carry_state (cs_cork s0) <> None -> ck_carry_state (cs_cork (cork_run s0 ops)) <> None).
    { clear. induction ops as [|op ops IH]; intros s0 H0; [done|]. apply IH. destruct op; cbn.
      - unfold before_write, before_write_with, advance, cork_on, cork_refused, set_progress. repeat case_match; cbn; try done;
          by destruct (ck_carry_state (cs_cork s0)).
      - unfold maybe_flush, maybe_flush_with, flush_with. repeat case_match; cbn; try done; by destruct (ck_carry_state (cs_cork s0)).
      - unfold cork_close, flush_with. repeat case_match; cbn; try done; by destruct (ck_carry_state (cs_cork s0)). }
    by apply Hk in E.
  - intros Hne. destruct (ck_corked (cs_cork s)) eqn:Hc; [|done]. destruct Hheld as [Hl Hlt]. split; [lia|].
    destruct Hdl as (d & Hd & _ & Hall). exists d. split; [done|]. split; [eapply Forall_impl; [exact Hall|]; intros w ?; cbn in *; lia|].
    intros now ok. unfold cork_next_timeout. rewrite (Hen eq_refl), Hc, Hd. split; [done|]. intros Hnow. cbn.
    unfold maybe_flush, maybe_flush_with, flush_with. rewrite (Hen eq_refl), Hc, Hd. cbn. rewrite (proj2 (Z.ltb_ge now d)) by done. done.
Qed.
Lemma cork_delay_bounded_witness :
  let s := cork_run {| cs_cork := bind_carry_state (TlsBatchCork_new 8000 1400); cs_held := [] |}
             [CWrite 1000 10 true; CWrite 1000 40 true; CFlush 100 true] in
  cs_held s = replicate 600 40 /\ exists d, ck_deadline (cs_cork s) = Some d /\ Forall (fun w => d <= w + MAX_DELAY_US) (cs_held s).
Proof.
  intros s. split; [vm_compute; reflexivity|].
  destruct (cork_delay_bounded 8000 1400 [CWrite 1000 10 true; CWrite 1000 40 true; CFlush 100 true] 0) as [_ Hh];
    [lia|reflexivity|cbn; lia|].
  destruct Hh as (_ & d & Hd & Hf & _); [vm_compute; discriminate|]. exists d. split; [exact Hd|exact Hf].
Defined.
