(* ===== verification/Socks.v ===== *)
(** * The SOCKS5 client: [src/src/socks5.rs]

    Texts are UTF-8 byte lists.  The socket to the proxy is a state of the monad
    [io]: the bytes still to be received, the bytes sent, and how many more writes
    succeed.  The socket timeouts show as a failing read or write. *)
From Stdlib Require Import ZifyBool.
From S2P Require Import Prelude Utils Crypto PeerInfo Pool.

Record Socks5Proxy := { px_host : text; px_port : Z; px_username : option text; px_password : option text }.

(** ** Parsing the configuration *)

(** [str::rsplit_once] *)
Definition rsplit_once (sep : Z) (s : text) : option (text * text) :=
  match split_once sep (rev s) with
  | (b, Some a) => Some (rev a, rev b)
  | (_, None) => None
  end.
Fixpoint contains (pat s : text) : bool :=
  match strip_prefix pat s with
  | Some _ => true
  | None => match s with [] => false | _ :: s' => contains pat s' end
  end.
Definition parse_u16 (s : text) : option Z :=
  match parse_u32 s with Some n => if n <=? 65535 then Some n else None | None => None end.
Definition is_bracket (c : Z) : bool := (c =? 91) || (c =? 93).
Fixpoint skip_brackets (s : text) : text := match s with c :: s' => if is_bracket c then skip_brackets s' else s | [] => [] end.
Definition trim_brackets (s : text) : text := rev (skip_brackets (rev (skip_brackets s))).
Definition AT : Z := 64.
Definition COLON : Z := 58.

Definition strip_scheme (s : text) : option text :=
  match strip_prefix (bytes_of_string "socks5h://") s with
  | Some rest => Some rest
  | None =>
      match strip_prefix (bytes_of_string "socks5://") s with
      | Some rest => Some rest
      | None => if contains (bytes_of_string "://") s then None else Some s
      end
  end.
Definition split_auth (s : text) : option text * option text * text :=
  match rsplit_once AT s with
  | Some (auth, hp) => let '(u, p) := split_once COLON auth in (Some u, Some (default [] p), hp)
  | None => (None, None, s)
  end.
Definition Socks5Proxy_parse (spec : text) : option Socks5Proxy :=
  match strip_scheme (utf8_trim spec) with
  | None => None
  | Some s =>
      let '(username, password, hostport) := split_auth s in
      match rsplit_once COLON hostport with
      | None => None
      | Some (host, port) =>
          match parse_u16 port with
          | None => None
          | Some port =>
              match trim_brackets host with
              | [] => None
              | host => Some {| px_host := host; px_port := port; px_username := username; px_password := password |}
              end
          end
      end
  end.

(** [str::split_once] with a two-byte pattern. *)
Fixpoint split_once2 (p q : Z) (s : text) : option (text * text) :=
  match s with
  | a :: (b :: s') as t =>
      if (a =? p) && (b =? q) then Some ([], s')
      else match split_once2 p q t with Some (x, y) => Some (a :: x, y) | None => None end
  | _ => None
  end.
Definition split_host_port (addr : text) : text * Z :=
  match strip_prefix [91] addr with
  | Some rest =>
      match split_once2 93 COLON rest with
      | Some (host, port) => match parse_u16 port with Some p => (host, p) | None => (addr, 0) end
      | None => (addr, 0)
      end
  | None =>
      match rsplit_once COLON addr with
      | Some (h, p) => match parse_u16 p with Some port => (h, port) | None => (addr, 0) end
      | None => (addr, 0)
      end
  end.

(** ** The handshake *)

Inductive socks_error :=
| WriteFailed | ReadFailed | BadGreeting | AuthFailed | UnsupportedMethod (m : Z) | BadReply | Refused (code : Z).
Record socket := { so_in : list Z; so_out : list Z; so_writes : nat }.
Definition io (A : Type) : Type := socket -> socket * result A socks_error.
Definition io_ret {A} (x : A) : io A := fun s => (s, Ok x).
Definition io_fail {A} (e : socks_error) : io A := fun s => (s, Err e).
Definition io_bind {A B} (m : io A) (k : A -> io B) : io B :=
  fun s => match m s with (s, Ok x) => k x s | (s, Err e) => (s, Err e) end.
Notation "x <- m ;; k" := (io_bind m (fun x => k)) (at level 100, m at next level, right associativity).
Notation "m ;;; k" := (io_bind m (fun _ => k)) (at level 100, right associativity).

Definition sock_write_all (b : list Z) : io unit :=
  fun s => match so_writes s with
           | O => (s, Err WriteFailed)
           | S n => ({| so_in := so_in s; so_out := so_out s ++ b; so_writes := n |}, Ok tt)
           end.
Definition read_exact (n : nat) : io (list Z) :=
  fun s => if (length (so_in s) <? n)%nat then ({| so_in := []; so_out := so_out s; so_writes := so_writes s |}, Err ReadFailed)
           else ({| so_in := drop n (so_in s); so_out := so_out s; so_writes := so_writes s |}, Ok (take n (so_in s))).

Definition greeting (p : Socks5Proxy) : list Z :=
  match px_username p with Some _ => [5; 2; 0; 2] | None => [5; 1; 0] end.
(** User name and password with their lengths cut to one byte. *)
Definition auth_request (p : Socks5Proxy) : list Z :=
  let u := default [] (px_username p) in
  let w := default [] (px_password p) in
  [1; zlen u mod 256] ++ u ++ [zlen w mod 256] ++ w.
Definition method_step (p : Socks5Proxy) (m : Z) : io unit :=
  if m =? 0 then io_ret tt
  else if m =? 2 then
    sock_write_all (auth_request p) ;;;
    r <- read_exact 2 ;;
    (if negb (nth 0 r 0 =? 1) || negb (nth 1 r 0 =? 0) then io_fail AuthFailed else io_ret tt)
  else io_fail (UnsupportedMethod m).

Section Target.
Context (v6 : family).

Definition target_bytes (host : text) : list Z :=
  match ipv4_parse host with
  | Some a => 1 :: be_encode 4 a
  | None =>
      match fam_parse v6 host with
      | Some a => 4 :: be_encode 16 a
      | None => [3; zlen host mod 256] ++ host
      end
  end.
Definition connect_request (host : text) (port : Z) : list Z := [5; 1; 0] ++ target_bytes host ++ be_encode 2 port.
(** The address the proxy reports is read and dropped. *)
Definition skip_bound (atyp : Z) : io unit :=
  if atyp =? 1 then (read_exact 6 ;;; io_ret tt)
  else if atyp =? 4 then (read_exact 18 ;;; io_ret tt)
  else if atyp =? 3 then (len <- read_exact 1 ;; read_exact (Z.to_nat (nth 0 len 0)) ;;; io_ret tt)
  else io_ret tt.
Definition connect_over (p : Socks5Proxy) (target_host : text) (target_port : Z) : io unit :=
  sock_write_all (greeting p) ;;;
  resp <- read_exact 2 ;;
  (if negb (nth 0 resp 0 =? 5) then io_fail BadGreeting
   else
     method_step p (nth 1 resp 0) ;;;
     sock_write_all (connect_request target_host target_port) ;;;
     head <- read_exact 4 ;;
     (if negb (nth 0 head 0 =? 5) then io_fail BadReply
      else if negb (nth 1 head 0 =? 0) then io_fail (Refused (nth 1 head 0))
      else skip_bound (nth 3 head 0))).
End Target.

(** ** The wire format of RFC 1928 *)

(** The proxy's view: target address and port of a CONNECT request. *)
Inductive target := TV4 (a : Z) | TV6 (a : Z) | TName (n : text).
Definition decode_request (l : list Z) : option (target * Z) :=
  match l with
  | 5 :: 1 :: 0 :: 1 :: r => if (length r =? 6)%nat then Some (TV4 (be_decode (take 4 r)), be_decode (drop 4 r)) else None
  | 5 :: 1 :: 0 :: 4 :: r => if (length r =? 18)%nat then Some (TV6 (be_decode (take 16 r)), be_decode (drop 16 r)) else None
  | 5 :: 1 :: 0 :: 3 :: n :: r =>
      if (length r =? Z.to_nat n + 2)%nat then Some (TName (take (Z.to_nat n) r), be_decode (drop (Z.to_nat n) r)) else None
  | _ => None
  end.
(** The reply of a proxy that connected, with the address it bound. *)
Inductive bound := BV4 (a : Z) | BV6 (a : Z) | BName (n : text).
Definition encode_reply (b : bound) (port : Z) : list Z :=
  [5; 0; 0] ++ match b with BV4 a => 1 :: be_encode 4 a | BV6 a => 4 :: be_encode 16 a | BName n => [3; zlen n] ++ n end ++
  be_encode 2 port.

Section Wire.
Context (v6 : family) `{!FamilyLaws v6} (Hv6 : fam_bits v6 = 128).

Definition meant (host : text) : target :=
  match ipv4_parse host with
  | Some a => TV4 a
  | None => match fam_parse v6 host with Some a => TV6 a | None => TName host end
  end.
Lemma decode_connect_request host port :
  0 <= port < 65536 -> zlen host < 256 -> decode_request (connect_request v6 host port) = Some (meant host, port).
Proof using All.
  intros Hp Hl. unfold connect_request, target_bytes, meant. assert (Hport : be_decode (be_encode 2 port) = port) by (by apply be_decode_encode).
  destruct (ipv4_parse host) as [a|] eqn:E4; [|destruct (fam_parse v6 host) as [a|] eqn:E6].
  - pose proof (fam_parse_range (fam := v4_family) host a E4) as Ha. cbn -[be_encode be_decode take drop].
    rewrite length_app, !length_be_encode. cbn -[be_encode be_decode take drop].
    rewrite take_app_length' by (by rewrite length_be_encode). rewrite drop_app_length' by (by rewrite length_be_encode).
    rewrite Hport, (be_decode_encode 4 a); [done|]. exact Ha.
  - pose proof (fam_parse_range host a E6) as Ha. rewrite Hv6 in Ha. cbn -[be_encode be_decode take drop].
    rewrite length_app, !length_be_encode. cbn -[be_encode be_decode take drop].
    rewrite take_app_length' by (by rewrite length_be_encode). rewrite drop_app_length' by (by rewrite length_be_encode).
    rewrite Hport, (be_decode_encode 16 a); [done|]. exact Ha.
  - rewrite Z.mod_small by lia. cbn -[be_encode be_decode take drop Z.to_nat].
    rewrite length_app, !length_be_encode, Nat2Z.id, Nat.eqb_refl.
    rewrite take_app_length, drop_app_length. by rewrite Hport.
Qed.
End Wire.

(** ** Runs of the handshake *)

Lemma run_write b k s n : so_writes s = S n ->
  io_bind (A := unit) (B := unit) (sock_write_all b) k s = k tt {| so_in := so_in s; so_out := so_out s ++ b; so_writes := n |}.
Proof. intros E. unfold io_bind, sock_write_all. by rewrite E. Qed.
Lemma run_read {B} n (k : list Z -> io B) s a rest : so_in s = a ++ rest -> length a = n ->
  io_bind (read_exact n) k s = k a {| so_in := rest; so_out := so_out s; so_writes := so_writes s |}.
Proof.
  intros E <-. unfold io_bind, read_exact. rewrite E, length_app. rewrite (proj2 (Nat.ltb_ge _ _)) by lia.
  by rewrite take_app_length, drop_app_length.
Qed.

Lemma run_ret {A B} (x : A) (k : A -> io B) s : io_bind (io_ret x) k s = k x s.
Proof. done. Qed.
Lemma run_assoc {A B C} (m : io A) (k : A -> io B) (k' : B -> io C) s :
  io_bind (io_bind m k) k' s = io_bind m (fun x => io_bind (k x) k') s.
Proof. unfold io_bind. by destruct (m s) as [s' [x|e]]. Qed.

(** Answer of the proxy to the greeting, with the reply to a password. *)
Definition method_reply (m : Z) : list Z := if m =? 2 then [5; 2; 1; 0] else [5; 0].
Definition sent_auth (p : Socks5Proxy) (m : Z) : list Z := if m =? 2 then auth_request p else [].
(** What the reader leaves of the reply: the port after a bound name. *)
Definition leftover (b : bound) (port : Z) : list Z := match b with BName _ => be_encode 2 port | _ => [] end.
Definition bound_ok (b : bound) : Prop := match b with BName n => zlen n < 256 | _ => True end.

Lemma skip_bound_reply b port rest s :
  bound_ok b -> so_in s = drop 4 (encode_reply b port) ++ rest ->
  skip_bound (nth 3 (encode_reply b port) 0) s = ({| so_in := leftover b port ++ rest; so_out := so_out s; so_writes := so_writes s |}, Ok tt).
Proof.
  intros Hb Hin. unfold skip_bound. destruct b as [a|a|n]; cbn -[be_encode] in Hin |- *; try rewrite drop_0 in Hin.
  - erewrite (run_read _ _ _ _ rest); [done|exact Hin|]. by rewrite length_app, !length_be_encode.
  - erewrite (run_read _ _ _ _ rest); [done|exact Hin|]. by rewrite length_app, !length_be_encode.
  - rewrite (run_read 1 _ s [zlen n] (n ++ be_encode 2 port ++ rest)); [|by rewrite Hin, <-!app_assoc|done]. cbn -[be_encode Z.to_nat].
    rewrite Nat2Z.id. by rewrite (run_read _ _ _ n (be_encode 2 port ++ rest)).
Qed.

(** A handshake with a proxy that answers by RFC 1928 succeeds, sends the greeting,
    the credentials when asked and a request the proxy reads as the wanted address and
    port, and hands the connection over with exactly the bytes that follow the reply;
    after a reply that names a domain as bound address the two bytes of the port are
    still unread. *)
Theorem socks_handshake v6 `{!FamilyLaws v6} p host port m b bport rest s n :
  fam_bits v6 = 128 -> 0 <= port < 65536 -> zlen host < 256 -> m = 0 \/ m = 2 -> bound_ok b ->
  so_in s = method_reply m ++ encode_reply b bport ++ rest -> so_writes s = (3 + n)%nat ->
  exists s', connect_over v6 p host port s = (s', Ok tt) /\
    so_in s' = leftover b bport ++ rest /\
    so_out s' = so_out s ++ greeting p ++ sent_auth p m ++ connect_request v6 host port /\
    decode_request (connect_request v6 host port) = Some (meant v6 host, port).
Proof.
  intros Hv6 Hp Hl Hm Hb Hin Hw.
  assert (Hreply : forall out w, (head <- read_exact 4 ;;
      (if negb (nth 0 head 0 =? 5) then io_fail BadReply
       else if negb (nth 1 head 0 =? 0) then io_fail (Refused (nth 1 head 0)) else skip_bound (nth 3 head 0)))
      {| so_in := encode_reply b bport ++ rest; so_out := out; so_writes := w |} =
      ({| so_in := leftover b bport ++ rest; so_out := out; so_writes := w |}, Ok tt)).
  { intros out w. assert (Hsplit : encode_reply b bport = take 4 (encode_reply b bport) ++ drop 4 (encode_reply b bport)) by by rewrite take_drop.
    rewrite (run_read 4 _ _ (take 4 (encode_reply b bport)) (drop 4 (encode_reply b bport) ++ rest));
      [|cbn [so_in]; rewrite Hsplit at 1; by rewrite <-app_assoc|by destruct b].
    replace (nth 0 (take 4 _) 0) with 5 by by destruct b. replace (nth 1 (take 4 _) 0) with 0 by by destruct b.
    replace (nth 3 (take 4 _) 0) with (nth 3 (encode_reply b bport) 0) by by destruct b. cbn [Z.eqb negb].
    rewrite (skip_bound_reply b bport rest); done. }
  exists {| so_in := leftover b bport ++ rest; so_out := so_out s ++ greeting p ++ sent_auth p m ++ connect_request v6 host port;
            so_writes := if m =? 2 then n else S n |}.
  split; [|split; [done|split; [done|by apply decode_connect_request]]].
  unfold connect_over. rewrite (run_write _ _ _ (2 + n) Hw).
  destruct Hm as [-> | ->]; cbn [method_reply Z.eqb app sent_auth] in *.
  - rewrite (run_read 2 _ _ [5; 0] (encode_reply b bport ++ rest)) by done. cbn [nth Z.eqb Pos.eqb negb so_out so_writes].
    change (method_step p 0) with (io_ret tt). rewrite run_ret.
    rewrite (run_write _ _ _ (1 + n)) by done. cbn [so_in so_out so_writes]. rewrite Hreply. by rewrite <-!app_assoc.
  - rewrite (run_read 2 _ _ [5; 2] ([1; 0] ++ encode_reply b bport ++ rest)) by done. cbn [nth Z.eqb Pos.eqb negb so_out so_writes].
    unfold method_step. cbn [Z.eqb Pos.eqb]. rewrite run_assoc, (run_write _ _ _ (1 + n)) by done. cbn [so_in so_out so_writes].
    rewrite run_assoc, (run_read 2 _ _ [1; 0] (encode_reply b bport ++ rest)) by done. cbn [nth Z.eqb Pos.eqb negb orb so_out so_writes].
    rewrite run_ret.
    rewrite (run_write _ _ _ n) by done. cbn [so_in so_out so_writes]. rewrite Hreply. by rewrite <-!app_assoc.
Qed.

Lemma bind_ok {A B} (m : io A) (k : A -> io B) s s' x :
  io_bind m k s = (s', Ok x) -> exists s1 y, m s = (s1, Ok y) /\ k y s1 = (s', Ok x).
Proof. unfold io_bind. destruct (m s) as [s1 [y|e]]; [|done]. intros E. by exists s1, y. Qed.
Lemma read_ok n s s1 b : read_exact n s = (s1, Ok b) -> so_in s = b ++ so_in s1 /\ length b = n /\ so_out s1 = so_out s.
Proof.
  unfold read_exact. destruct (Nat.ltb_spec (length (so_in s)) n); [done|]. intros [= <- <-]. cbn.
  rewrite take_drop, length_take. repeat split. lia.
Qed.
Lemma write_ok b s s1 u : sock_write_all b s = (s1, Ok u) -> so_in s1 = so_in s /\ so_out s1 = so_out s ++ b.
Proof. unfold sock_write_all. destruct (so_writes s); [done|]. by intros [= <- <-]. Qed.
Lemma skip_ok atyp s s1 u : skip_bound atyp s = (s1, Ok u) -> (exists r, so_in s = r ++ so_in s1) /\ so_out s1 = so_out s.
Proof.
  unfold skip_bound. destruct (atyp =? 1); [|destruct (atyp =? 4); [|destruct (atyp =? 3)]].
  1,2: intros (s2 & b & (? & _ & ?)%read_ok & [= <- <-])%bind_ok; split; [by exists b|done].
  - intros (s2 & b & (E1 & _ & O1)%read_ok & (s3 & b' & (E2 & _ & O2)%read_ok & [= <- <-])%bind_ok)%bind_ok.
    split; [|congruence]. exists (b ++ b'). rewrite E1, E2. by rewrite app_assoc.
  - intros [= <- <-]. split; [by exists []|done].
Qed.
Lemma method_ok p m s s1 u :
  method_step p m s = (s1, Ok u) ->
  (m = 0 /\ so_in s = so_in s1 /\ so_out s1 = so_out s) \/
  (m = 2 /\ so_in s = [1; 0] ++ so_in s1 /\ so_out s1 = so_out s ++ auth_request p).
Proof.
  unfold method_step. destruct (Z.eqb_spec m 0) as [->|]; [intros [= <- <-]; by left|].
  destruct (Z.eqb_spec m 2) as [->|]; [|done].
  intros (s2 & ? & (E1 & O1)%write_ok & (s3 & b & (E2 & L2 & O2)%read_ok & E3)%bind_ok)%bind_ok. right. split; [done|].
  destruct b as [|v [|w [|? ?]]]; try done. cbn [nth] in E3.
  destruct (Z.eqb_spec v 1) as [->|]; [|done]. destruct (Z.eqb_spec w 0) as [->|]; [|done]. injection E3 as <- <-.
  split; [congruence|]. rewrite O2, O1. done.
Qed.

(** The client takes a connection for established only if the proxy said so: it
    answered with version 5 and a method the client knows, accepted the password when
    it asked for one, and replied with version 5 and code 0; the client sent the
    request exactly once, after that. *)
Theorem socks_success_means_accepted v6 p host port s s' u :
  connect_over v6 p host port s = (s', Ok u) ->
  exists m x y r, (m = 0 \/ m = 2) /\
    so_in s = method_reply m ++ [5; 0; x; y] ++ r ++ so_in s' /\
    so_out s' = so_out s ++ greeting p ++ sent_auth p m ++ connect_request v6 host port.
Proof.
  unfold connect_over.
  intros (s1 & ? & (E1 & O1)%write_ok & (s2 & b & (E2 & L2 & O2)%read_ok & E)%bind_ok)%bind_ok.
  destruct b as [|v [|m [|? ?]]]; try done. cbn [nth] in E. destruct (Z.eqb_spec v 5) as [->|]; [|done]. cbn [negb] in E.
  apply bind_ok in E as (s3 & ? & Em & (s4 & ? & (E4 & O4)%write_ok & (s5 & h & (E5 & L5 & O5)%read_ok & E)%bind_ok)%bind_ok).
  destruct h as [|v [|code [|h2 [|h3 [|? ?]]]]]; try done. cbn [nth] in E.
  destruct (Z.eqb_spec v 5) as [->|]; [|done]. destruct (Z.eqb_spec code 0) as [->|]; [|done]. cbn [negb] in E.
  apply skip_ok in E as [[r E6] O6]. exists m, h2, h3, r.
  apply method_ok in Em as [(-> & E3 & O3)|(-> & E3 & O3)].
  - split; [by left|]. split; [by rewrite <-E1, E2, E3, <-E4, E5, E6|]. by rewrite O6, O5, O4, O3, O2, O1, <-!app_assoc.
  - split; [by right|]. split; [by rewrite <-E1, E2, E3, <-E4, E5, E6|]. by rewrite O6, O5, O4, O3, O2, O1, <-!app_assoc.
Qed.

(** ** The configuration text *)

Lemma rsplit_once_app sep a b : sep ∉ b -> rsplit_once sep (a ++ sep :: b) = Some (a, b).
Proof.
  intros Hn. unfold rsplit_once. rewrite rev_app_distr. cbn [rev]. rewrite <-app_assoc. cbn [app].
  rewrite split_once_app, !rev_involutive; [done|]. rewrite list_elem_of_In, <-in_rev, <-list_elem_of_In. done.
Qed.
Lemma strip_prefix_app p s : strip_prefix p (p ++ s) = Some s.
Proof. induction p as [|c p IH]; [done|]. cbn. by rewrite Z.eqb_refl. Qed.
(** A text that begins with an ASCII letter and ends with a digit is trimmed already. *)
Lemma trim_plain c s d : 97 <= c <= 122 -> is_digit d = true -> utf8_trim ((c :: s) ++ [d]) = (c :: s) ++ [d].
Proof.
  intros Hc Hd. unfold is_digit in Hd. apply andb_true_iff in Hd as [?%Z.leb_le ?%Z.leb_le].
  assert (Hh : ws_head ((c :: s) ++ [d]) = None).
  { unfold ws_head. assert (H1 : ws_char (take 1 ((c :: s) ++ [d])) = false) by (cbn; rewrite ?take_0; cbn; lia). rewrite H1.
    assert (H2 : ws_char (take 2 ((c :: s) ++ [d])) = false) by (destruct s as [|x s]; cbn; rewrite ?take_0; cbn; lia). rewrite H2.
    assert (H3 : ws_char (take 3 ((c :: s) ++ [d])) = false) by (destruct s as [|x [|y s]]; cbn; rewrite ?take_0; cbn; lia). by rewrite H3. }
  assert (Hl : ws_last ((c :: s) ++ [d]) = None).
  { unfold ws_last, take_last. set (l := (c :: s) ++ [d]). assert (Hlen : length l = S (S (length s))) by (unfold l; rewrite length_app; cbn; lia).
    assert (T1 : drop (length l - 1) l = [d]) by (rewrite Hlen; unfold l; rewrite drop_app_ge by (cbn; lia); cbn; by rewrite Nat.sub_diag).
    rewrite T1. assert (H1 : ws_char [d] = false) by (cbn; lia). rewrite H1.
    assert (T2 : forall k, (k <= length l)%nat -> (2 <= k)%nat -> exists u, drop (length l - k) l = u ++ [d] /\ length u = (k - 1)%nat).
    { intros k Hk H2. exists (drop (length l - k) (c :: s)). unfold l at 2. rewrite drop_app_le by (rewrite Hlen; cbn; lia).
      split; [done|]. rewrite length_drop, Hlen. cbn. lia. }
    destruct (2 <=? length l)%nat eqn:E2; cbn [andb].
    - apply Nat.leb_le in E2. destruct (T2 2%nat E2 ltac:(lia)) as ([|x [|? ?]] & -> & ?); try done. cbn [ws_char app].
      replace ((x =? 194) && ((d =? 133) || (d =? 160))) with false by lia.
      destruct (3 <=? length l)%nat eqn:E3; cbn [andb]; [|done]. apply Nat.leb_le in E3.
      destruct (T2 3%nat E3 ltac:(lia)) as ([|y [|z [|? ?]]] & -> & ?); try done. cbn [ws_char app].
      replace (_ || _ || _ || _) with false by lia. done.
    - destruct (3 <=? length l)%nat eqn:E3; [|done]. apply Nat.leb_le in E3. apply Nat.leb_gt in E2. lia. }
  unfold utf8_trim. set (l := (c :: s) ++ [d]) in *. clearbody l.
  assert (Es : utf8_trim_start (length l) l = l) by (destruct (length l); cbn; [done|by rewrite Hh]). rewrite Es.
  destruct (length l); cbn; [done|by rewrite Hl].
Qed.

Definition proxy_text (user pass host port : text) : text :=
  bytes_of_string "socks5://" ++ user ++ COLON :: pass ++ AT :: host ++ COLON :: port.

(** The address of an authenticated proxy reads back as written: whatever the
    password contains, also colons and at-signs, and with or without brackets around
    the host, the parts of the text are the parts of the parsed proxy. *)
Theorem proxy_text_roundtrip user pass host port ptext brackets :
  COLON ∉ user -> AT ∉ host -> host <> [] -> trim_brackets (if (brackets : bool) then 91 :: host ++ [93] else host) = host ->
  parse_u16 ptext = Some port ->
  Socks5Proxy_parse (proxy_text user pass (if brackets then 91 :: host ++ [93] else host) ptext) =
    Some {| px_host := host; px_port := port; px_username := Some user; px_password := Some pass |}.
Proof.
  intros Hu Hh Hne Htb Hp. set (h := if brackets then _ else _) in *.
  assert (Hdig : exists q d, ptext = q ++ [d] /\ is_digit d = true /\ AT ∉ ptext /\ COLON ∉ ptext).
  { unfold parse_u16, parse_u32 in Hp. assert (Hall : ptext <> [] /\ forall x, x ∈ ptext -> x = 43 \/ is_digit x = true).
    { destruct ptext as [|x l]; [done|]. split; [done|]. destruct (Z.eqb_spec x 43) as [->|].
      - destruct l as [|y l]; [done|]. destruct (forallb is_digit (y :: l)) eqn:Ef; [|done]. rewrite forallb_forall in Ef.
        intros z [->|Hz]%elem_of_cons; [by left|]. right. apply Ef. by apply list_elem_of_In.
      - destruct (forallb is_digit (x :: l)) eqn:Ef; [|done]. rewrite forallb_forall in Ef. intros z Hz. right. apply Ef. by apply list_elem_of_In. }
    destruct Hall as [Hpe Hall]. destruct (exists_last Hpe) as (q & d & ->). exists q, d. split; [done|]. split.
    - destruct (Hall d) as [->|]; [apply elem_of_app; right; by left| |done]. exfalso.
      destruct q as [|x q]; [done|]. cbn in Hp. destruct (x =? 43); [destruct q as [|y q]; [done|]|];
        cbn in Hp; rewrite ?forallb_app, ?andb_false_r in Hp; cbn in Hp; rewrite ?andb_false_r in Hp; done.
    - split; intros Hin; destruct (Hall _ Hin) as [|Hd]; done. }
  destruct Hdig as (q & d & Eq & Hd & Hat & Hcol).
  assert (Htrim : utf8_trim (proxy_text user pass h ptext) = proxy_text user pass h ptext).
  { unfold proxy_text. rewrite Eq. set (m := tail (bytes_of_string "socks5://") ++ user ++ COLON :: pass ++ AT :: h ++ COLON :: q).
    replace (_ ++ user ++ _) with ((115 :: m) ++ [d]); [by apply trim_plain|]. unfold m. cbn.
    repeat (rewrite <-app_assoc; cbn). done. }
  assert (Hhat : AT ∉ h ++ COLON :: ptext).
  { unfold h. rewrite elem_of_app, elem_of_cons. intros [Hx|[?|?]]; try done.
    destruct brackets; [|done]. rewrite elem_of_cons, elem_of_app, list_elem_of_singleton in Hx. by destruct Hx as [?|[?|?]]. }
  unfold Socks5Proxy_parse. rewrite Htrim. unfold proxy_text, strip_scheme.
  replace (strip_prefix (bytes_of_string "socks5h://") _) with (@None text) by done. rewrite strip_prefix_app. unfold split_auth.
  replace (user ++ COLON :: pass ++ AT :: h ++ COLON :: ptext) with ((user ++ COLON :: pass) ++ AT :: h ++ COLON :: ptext) by (by rewrite <-app_assoc).
  rewrite rsplit_once_app by done. rewrite split_once_app by done. cbn [default].
  rewrite rsplit_once_app by done. rewrite Hp, Htb. by destruct host.
Qed.

(** ** Examples *)

Definition demo_proxy : Socks5Proxy :=
  {| px_host := bytes_of_string "127.0.0.1"; px_port := 1080; px_username := Some (bytes_of_string "bob"); px_password := Some (bytes_of_string "pw") |}.
Definition demo_socket_in (b : bound) : socket :=
  {| so_in := method_reply 2 ++ encode_reply b 443 ++ [22; 3; 3]; so_out := []; so_writes := 3 |}.

Lemma socks_handshake_witness :
  exists s', connect_over raw_v6 demo_proxy (bytes_of_string "vpn.example.org") 8443 (demo_socket_in (BV4 16909060)) = (s', Ok tt) /\
    so_in s' = [22; 3; 3].
Proof.
  destruct (socks_handshake raw_v6 demo_proxy (bytes_of_string "vpn.example.org") 8443 2 (BV4 16909060) 443 [22; 3; 3]
    (demo_socket_in (BV4 16909060)) 0) as (s' & E & Hin & _);
    [reflexivity|lia|reflexivity|by right|exact I|reflexivity|reflexivity|].
  exists s'. split; [exact E|exact Hin].
Defined.
(** A proxy that reports a bound name leaves its port in the stream of the tunnel. *)
Example socks_bound_name_leaves_port :
  so_in (connect_over raw_v6 demo_proxy (bytes_of_string "vpn.example.org") 8443 (demo_socket_in (BName (bytes_of_string "gw")))).1 =
  [1; 187; 22; 3; 3].
Proof. vm_compute. reflexivity. Qed.
(** A name of more than 255 bytes is announced with its length modulo 256. *)
Example socks_long_name_is_garbled :
  decode_request (connect_request raw_v6 (replicate 300 97) 443) = None /\ meant raw_v6 (replicate 300 97) = TName (replicate 300 97).
Proof. split; vm_compute; reflexivity. Qed.

Lemma socks_success_means_accepted_witness :
  exists m x y r, (m = 0 \/ m = 2) /\ so_in (demo_socket_in (BV4 1)) = method_reply m ++ [5; 0; x; y] ++ r ++ [22; 3; 3].
Proof.
  destruct (connect_over raw_v6 demo_proxy (bytes_of_string "vpn.example.org") 8443 (demo_socket_in (BV4 1))) as [s' r] eqn:E.
  assert (Hr : r = Ok tt /\ so_in s' = [22; 3; 3]) by (vm_compute in E; injection E as <- <-; split; reflexivity).
  destruct Hr as [-> Hin].
  destruct (socks_success_means_accepted raw_v6 demo_proxy (bytes_of_string "vpn.example.org") 8443 (demo_socket_in (BV4 1)) s' tt E)
    as (m & x & y & rr & Hm & Es & _).
  exists m, x, y, rr. rewrite Hin in Es. split; [exact Hm|exact Es].
Defined.

Lemma proxy_text_roundtrip_witness :
  Socks5Proxy_parse (bytes_of_string "socks5://bob:p:w@x@[::1]:1080") =
    Some {| px_host := bytes_of_string "::1"; px_port := 1080; px_username := Some (bytes_of_string "bob");
            px_password := Some (bytes_of_string "p:w@x") |}.
Proof.
  apply (proxy_text_roundtrip (bytes_of_string "bob") (bytes_of_string "p:w@x") (bytes_of_string "::1") 1080 (bytes_of_string "1080") true).
  - vm_compute. set_solver.
  - vm_compute. set_solver.
  - discriminate.
  - reflexivity.
  - reflexivity.
Defined.
Example split_host_port_forms :
  split_host_port (bytes_of_string "[fe80::1]:443") = (bytes_of_string "fe80::1", 443) /\
  split_host_port (bytes_of_string "example.org:80") = (bytes_of_string "example.org", 80) /\
  split_host_port (bytes_of_string "[fe80::1]") = (bytes_of_string "[fe80::1]", 0).
Proof. split_and!; vm_compute; reflexivity. Qed.
