(* ===== verification/Hooks.v ===== *)
(** * Lifecycle hooks and the persisted client identity
      ([src/src/hooks.rs], [src/src/client_state.rs])

    What a script run by a hook does and reports is an input, the outcome of the
    process; the mutex of [LifecycleHooks] covers a whole call, so calls are steps.
    Files are a map from paths to contents, and the JSON codec of the state file is
    an operation with its round-trip law. *)
From S2P Require Import Prelude Utils Crypto Pool.

(** ** Running one script *)

Definition HOOK_OUTPUT_CAP : nat := 65536.
Record HookEnv := {
  he_mode : text; he_dev : text; he_config : text; he_ipv4 : text; he_ipv6 : text; he_gateway_v4 : text; he_gateway_v6 : text }.
Definition HookEnv_default : HookEnv :=
  {| he_mode := []; he_dev := []; he_config := []; he_ipv4 := []; he_ipv6 := []; he_gateway_v4 := []; he_gateway_v6 := [] |}.

(** The reader of one pipe: [reads] are the results of [read], [None] an error, an
    empty list the end of the stream.  A read returns at most what it was asked for. *)
Fixpoint spawn_output_reader (reads : list (option (list Z))) (kept : list Z) : list Z :=
  match reads with
  | [] => kept
  | r :: reads =>
      if (length kept <? HOOK_OUTPUT_CAP / 2)%nat then
        match r with
        | None | Some [] => kept
        | Some b => spawn_output_reader reads (kept ++ take (Nat.min (HOOK_OUTPUT_CAP / 2 - length kept) 4096) b)
        end
      else kept
  end.
(** Both captures, the second on a line of its own; [None] is a reader that has not
    finished in time. *)
Definition hook_output (stdout stderr : option (list Z)) : list Z :=
  let out := default [] stdout in
  let err := default [] stderr in
  take HOOK_OUTPUT_CAP (out ++ (match out, err with _ :: _, _ :: _ => [10] | _, _ => [] end) ++ err).

(** A finished process: its exit status, if there is one, and whether it was killed at
    the deadline. *)
Inductive hook_process :=
| SpawnError | WaitError | Finished (success : option bool) (timed_out : bool) (stdout stderr : option (list Z)).
Inductive hook_error :=
| HSpawn | HWait | HTimedOut (output : list Z) | HFailed (output : list Z) | HNoStatus (output : list Z).
Definition run_hook (p : hook_process) : result unit hook_error :=
  match p with
  | SpawnError => Err HSpawn
  | WaitError => Err HWait
  | Finished status timed_out stdout stderr =>
      let output := hook_output stdout stderr in
      if timed_out then Err (HTimedOut output)
      else match status with
           | Some true => Ok tt
           | Some false => Err (HFailed output)
           | None => Err (HNoStatus output)
           end
  end.

Definition strip_cidr (value : text) : text := (split_once SLASH value).1.
Definition hook_environment (kind : text) (env : HookEnv) : list (text * text) :=
  [(bytes_of_string "script_type", kind); (bytes_of_string "dev", he_dev env); (bytes_of_string "dev_type", bytes_of_string "tap");
   (bytes_of_string "config", he_config env); (bytes_of_string "ifconfig_local", strip_cidr (he_ipv4 env));
   (bytes_of_string "ifconfig_ipv6_local", strip_cidr (he_ipv6 env)); (bytes_of_string "route_vpn_gateway", he_gateway_v4 env);
   (bytes_of_string "route_ipv6_gateway", he_gateway_v6 env); (bytes_of_string "TLSVPN_SCRIPT_TYPE", kind);
   (bytes_of_string "TLSVPN_MODE", he_mode env); (bytes_of_string "TLSVPN_DEV", he_dev env);
   (bytes_of_string "TLSVPN_CONFIG", he_config env); (bytes_of_string "TLSVPN_IPV4", he_ipv4 env);
   (bytes_of_string "TLSVPN_IPV6", he_ipv6 env); (bytes_of_string "TLSVPN_GATEWAY_V4", he_gateway_v4 env);
   (bytes_of_string "TLSVPN_GATEWAY_V6", he_gateway_v6 env)].
Definition base_hook_environment : list (text * text) :=
  [(bytes_of_string "PATH", bytes_of_string "/usr/local/sbin:/usr/local/bin:/usr/sbin:/usr/bin:/sbin:/bin");
   (bytes_of_string "LANG", bytes_of_string "C"); (bytes_of_string "LC_ALL", bytes_of_string "C")].

(** ** The hooks of a process *)

Record HookState := {
  hk_active : bool; hk_env : HookEnv; hk_up_result : option (result unit hook_error); hk_down_result : option (result unit hook_error) }.
Record LifecycleHooks := { lh_up_path : text; lh_down_path : text; lh_state : HookState }.
Definition LifecycleHooks_new (up_path down_path : text) : LifecycleHooks :=
  {| lh_up_path := up_path; lh_down_path := down_path;
     lh_state := {| hk_active := false; hk_env := HookEnv_default; hk_up_result := None; hk_down_result := None |} |}.
Definition configured (h : LifecycleHooks) : bool :=
  negb (bool_decide (lh_up_path h = [])) || negb (bool_decide (lh_down_path h = [])).
Definition set_state (h : LifecycleHooks) (s : HookState) : LifecycleHooks :=
  {| lh_up_path := lh_up_path h; lh_down_path := lh_down_path h; lh_state := s |}.
Definition hook_activate (h : LifecycleHooks) (env : HookEnv) : LifecycleHooks :=
  let s := lh_state h in
  set_state h {| hk_active := true; hk_env := env; hk_up_result := hk_up_result s; hk_down_result := hk_down_result s |}.

(** The scripts that were started, oldest first, with their environment. *)
Inductive started := StartUp (env : HookEnv) | StartDown (env : HookEnv).
Definition hook_up (h : LifecycleHooks) (env : HookEnv) (p : hook_process) : LifecycleHooks * result unit hook_error * list started :=
  let s := lh_state h in
  match hk_up_result s with
  | Some r => (h, r, [])
  | None =>
      let '(r, log) := match lh_up_path h with [] => (Ok tt, []) | _ => (run_hook p, [StartUp env]) end in
      (set_state h {| hk_active := true; hk_env := env; hk_up_result := Some r; hk_down_result := hk_down_result s |}, r, log)
  end.
Definition hook_down (h : LifecycleHooks) (p : hook_process) : LifecycleHooks * result unit hook_error * list started :=
  let s := lh_state h in
  match hk_down_result s with
  | Some r => (h, r, [])
  | None =>
      let '(r, log) := if negb (hk_active s) || bool_decide (lh_down_path h = []) then (Ok tt, []) else (run_hook p, [StartDown (hk_env s)]) in
      (set_state h {| hk_active := hk_active s; hk_env := hk_env s; hk_up_result := hk_up_result s; hk_down_result := Some r |}, r, log)
  end.

Inductive hook_call := CallActivate (env : HookEnv) | CallUp (env : HookEnv) (p : hook_process) | CallDown (p : hook_process).
(** State, results of the calls to [up] and to [down], and the scripts started. *)
Record hook_run := { hr_hooks : LifecycleHooks; hr_ups : list (result unit hook_error); hr_downs : list (result unit hook_error); hr_log : list started }.
Definition hook_step (r : hook_run) (c : hook_call) : hook_run :=
  match c with
  | CallActivate env => {| hr_hooks := hook_activate (hr_hooks r) env; hr_ups := hr_ups r; hr_downs := hr_downs r; hr_log := hr_log r |}
  | CallUp env p =>
      let '(h, x, log) := hook_up (hr_hooks r) env p in
      {| hr_hooks := h; hr_ups := hr_ups r ++ [x]; hr_downs := hr_downs r; hr_log := hr_log r ++ log |}
  | CallDown p =>
      let '(h, x, log) := hook_down (hr_hooks r) p in
      {| hr_hooks := h; hr_ups := hr_ups r; hr_downs := hr_downs r ++ [x]; hr_log := hr_log r ++ log |}
  end.
Definition hook_calls (r : hook_run) (cs : list hook_call) : hook_run := foldl hook_step r cs.

Definition is_up (s : started) : bool := match s with StartUp _ => true | _ => false end.
Definition ups (log : list started) : nat := length (List.filter is_up log).
Definition downs (log : list started) : nat := length (List.filter (fun s => negb (is_up s)) log).

Record hooks_inv (r : hook_run) : Prop := {
  hi_ups : match hk_up_result (lh_state (hr_hooks r)) with
           | None => hr_ups r = [] /\ ups (hr_log r) = 0%nat
           | Some x => Forall (eq x) (hr_ups r) /\ (ups (hr_log r) <= 1)%nat end;
  hi_downs : match hk_down_result (lh_state (hr_hooks r)) with
             | None => hr_downs r = [] /\ downs (hr_log r) = 0%nat
             | Some x => Forall (eq x) (hr_downs r) /\ (downs (hr_log r) <= 1)%nat end;
  hi_active : hr_log r <> [] -> hk_active (lh_state (hr_hooks r)) = true }.
Lemma hooks_inv_step r c : hooks_inv r -> hooks_inv (hook_step r c).
Proof.
  intros [Hu Hd Ha]. destruct c as [env|env p|p]; cbn.
  - split; cbn; try done.
  - unfold hook_up. destruct (hk_up_result (lh_state (hr_hooks r))) as [x|] eqn:Eu.
    + cbn. rewrite app_nil_r. destruct Hu. split; cbn; rewrite ?Eu; try done. split; [|done]. apply Forall_app. split; [done|by apply Forall_singleton].
    + destruct Hu as [-> Hu]. destruct (lh_up_path (hr_hooks r)); cbn; rewrite ?app_nil_r; split; cbn; try done.
      * split; [by apply Forall_singleton|unfold ups, downs in *; lia].
      * split; [by apply Forall_singleton|]. unfold ups in *. rewrite List.filter_app, length_app. cbn. lia.
      * unfold downs in *. rewrite List.filter_app, length_app. cbn. rewrite Nat.add_0_r. done.
  - unfold hook_down. destruct (hk_down_result (lh_state (hr_hooks r))) as [x|] eqn:Eu.
    + cbn. rewrite app_nil_r. destruct Hd. split; cbn; rewrite ?Eu; try done. split; [|done]. apply Forall_app. split; [done|by apply Forall_singleton].
    + destruct Hd as [-> Hd]. destruct (negb (hk_active (lh_state (hr_hooks r))) || _) eqn:E; cbn; rewrite ?app_nil_r; split; cbn; try done.
      * split; [by apply Forall_singleton|unfold ups, downs in *; lia].
      * unfold ups in *. rewrite List.filter_app, length_app. cbn. rewrite Nat.add_0_r. done.
      * split; [by apply Forall_singleton|]. unfold downs in *. rewrite List.filter_app, length_app. cbn. lia.
      * intros _. by apply orb_false_iff in E as [?%negb_false_iff _].
Qed.

(** Whatever the order and the number of calls from concurrent handshakes and exit
    paths, each script runs at most once and every caller gets the result of that
    one run; no script runs before the tunnel became active. *)
Theorem hooks_run_once up_path down_path cs :
  let r := hook_calls {| hr_hooks := LifecycleHooks_new up_path down_path; hr_ups := []; hr_downs := []; hr_log := [] |} cs in
  (ups (hr_log r) <= 1)%nat /\ (downs (hr_log r) <= 1)%nat /\
  (forall x y, x ∈ hr_ups r -> y ∈ hr_ups r -> x = y) /\ (forall x y, x ∈ hr_downs r -> y ∈ hr_downs r -> x = y) /\
  (hr_log r <> [] -> hk_active (lh_state (hr_hooks r)) = true).
Proof.
  intros r. assert (Hi : hooks_inv r).
  { unfold r, hook_calls. assert (H0 : hooks_inv {| hr_hooks := LifecycleHooks_new up_path down_path; hr_ups := []; hr_downs := []; hr_log := [] |})
      by by split. revert H0. generalize (Build_hook_run (LifecycleHooks_new up_path down_path) [] [] []).
    induction cs as [|c cs IH]; intros s Hs; [done|]. apply IH; by apply hooks_inv_step. }
  destruct Hi as [Hu Hd Ha].
  assert (Hall : forall (o : option (result unit hook_error)) l n,
    match o with None => l = [] /\ n = 0%nat | Some z => Forall (eq z) l /\ (n <= 1)%nat end ->
    (n <= 1)%nat /\ forall x y, x ∈ l -> y ∈ l -> x = y).
  { intros [z|] l n [Hl Hn]; (split; [lia|]); intros x y Hx Hy; [|rewrite Hl in Hx; set_solver].
    rewrite Forall_forall in Hl. by rewrite <-(Hl x Hx), <-(Hl y Hy). }
  apply Hall in Hu as [Hu1 Hu2], Hd as [Hd1 Hd2]. by split_and!.
Qed.

Lemma reader_bounded reads : forall kept,
  (length kept <= HOOK_OUTPUT_CAP / 2)%nat -> (length (spawn_output_reader reads kept) <= HOOK_OUTPUT_CAP / 2)%nat.
Proof.
  induction reads as [|r reads IH]; intros kept Hk; cbn [spawn_output_reader]; [done|].
  destruct (Nat.ltb_spec (length kept) (HOOK_OUTPUT_CAP / 2)); [|done]. destruct r as [[|b l]|]; try done.
  apply IH. rewrite length_app, length_take. lia.
Qed.
(** The script's variables neither repeat nor hide the fixed search path. *)
Lemma hook_names_distinct kind env : NoDup ((base_hook_environment ++ hook_environment kind env).*1).
Proof. cbn [base_hook_environment hook_environment app fmap list_fmap fst]. apply (bool_decide_unpack _). vm_compute. exact I. Qed.

(** A failing script's report is bounded, whatever it prints. *)
Theorem hook_report_bounded reads_out reads_err status timed_out e :
  run_hook (Finished status timed_out (Some (spawn_output_reader reads_out [])) (Some (spawn_output_reader reads_err []))) = Err e ->
  exists out, (e = HTimedOut out \/ e = HFailed out \/ e = HNoStatus out) /\ (length out <= HOOK_OUTPUT_CAP)%nat /\
    (exists rest, spawn_output_reader reads_out [] ++ rest = out \/ out ++ rest = spawn_output_reader reads_out []).
Proof.
  unfold run_hook. set (out := hook_output _ _). intros E. exists out.
  assert (He : e = HTimedOut out \/ e = HFailed out \/ e = HNoStatus out).
  { destruct timed_out; [injection E as <-; by left|]. destruct status as [[]|]; [done|injection E as <-; by right; left|injection E as <-; by right; right]. }
  split; [done|]. split; [unfold out, hook_output; rewrite length_take; lia|].
  pose proof (reader_bounded reads_out [] (Nat.le_0_l _)) as Hb. unfold out, hook_output. cbn [default].
  rewrite take_app_ge; [by eexists; left|]. etransitivity; [exact Hb|]. unfold HOOK_OUTPUT_CAP. apply Nat.div_le_upper_bound; lia.
Qed.

(** ** The state file *)

Record ClientState := { cl_client_id : text; cl_mac : text; cl_session_id : text; cl_session_token : text; cl_session_epoch : Z }.
Definition ClientState_default : ClientState :=
  {| cl_client_id := []; cl_mac := []; cl_session_id := []; cl_session_token := []; cl_session_epoch := 0 |}.
Class StateCodec := { state_to_json : ClientState -> list Z; state_from_json : list Z -> option ClientState }.
Class StateCodecLaws `{StateCodec} := { state_json_roundtrip : forall st, state_from_json (state_to_json st) = Some st }.

Definition client_state_path (config_path : text) : text :=
  match config_path with [] => [] | _ => config_path ++ bytes_of_string ".state" end.
Definition files : Type := gmap text (list Z).

Section State.
Context `{StateCodec}.

Definition load_client_state (fs : files) (path : text) : ClientState :=
  match path with
  | [] => ClientState_default
  | _ => match (fs : gmap text (list Z)) !! path with
         | None => ClientState_default
         | Some data => default ClientState_default (state_from_json data)
         end
  end.

(** What the disk does: a write that fails may have stored a part of its bytes. *)
Inductive write_outcome := WriteDone | WriteFails (stored : option nat).
Definition tmp_path (path : text) : text := path ++ bytes_of_string ".tmp".
Definition put (fs : files) (path : text) (data : list Z) : files := <[path := data]> (fs : gmap text (list Z)).
(** The sequence of file systems [save_client_state] goes through, and its result. *)
Definition save_client_state (fs : files) (path : text) (st : ClientState) (w : write_outcome) (rename_ok : bool)
  : list files * result unit unit :=
  match path with
  | [] => ([fs], Ok tt)
  | _ =>
      let data := state_to_json st in
      let tmp := tmp_path path in
      match w with
      | WriteFails None => ([fs], Err tt)
      | WriteFails (Some n) => ([fs; put fs tmp (take n data)], Err tt)
      | WriteDone =>
          let fs1 := put fs tmp data in
          if rename_ok then ([fs; fs1; delete tmp (put fs1 path data : gmap text (list Z))], Ok tt)
          else ([fs; fs1; delete tmp (fs1 : gmap text (list Z))], Err tt)
      end
  end.
Definition generate_tap_mac (random : list Z) : text :=
  match random with
  | b :: rest => format_mac (Z.lor (Z.land b 254) 2 :: rest)
  | [] => []
  end.

Lemma tmp_path_ne path : tmp_path path <> path.
Proof. unfold tmp_path. intros E. apply (f_equal length) in E. rewrite length_app in E. cbn in E. lia. Qed.

Lemma load_saved `{!StateCodecLaws} fs path st :
  path <> [] -> load_client_state (default fs (last (save_client_state fs path st WriteDone true).1)) path = st.
Proof.
  intros Hne. destruct path as [|c path]; [done|]. set (q := c :: path) in *. pose proof (tmp_path_ne q) as Ht.
  unfold save_client_state. cbn [q]. fold q. unfold load_client_state, put. cbn.
  rewrite lookup_delete_ne by done. by rewrite lookup_insert_eq, state_json_roundtrip.
Qed.

(** Saving the identity is atomic.  Whenever the process or the machine stops while
    the state is saved, also when writing or renaming fails, loading finds either the
    old identity or the new one, whole; after a successful save it finds the new one. *)
Theorem client_state_save_atomic `{!StateCodecLaws} fs path st w rename_ok steps res :
  path <> [] -> save_client_state fs path st w rename_ok = (steps, res) ->
  Forall (fun fs' => load_client_state fs' path = load_client_state fs path \/ load_client_state fs' path = st) steps /\
  exists final, last steps = Some final /\
    load_client_state final path = if res is Ok _ then st else load_client_state fs path.
Proof.
  intros Hne. destruct path as [|c path]; [done|]. set (q := c :: path) in *.
  assert (Hother : forall (f : files) p data, p <> q -> load_client_state (put f p data) q = load_client_state f q).
  { intros f p data Hp. unfold load_client_state, put. cbn. by rewrite lookup_insert_ne. }
  assert (Hdel : forall (f : files) p, p <> q -> load_client_state (delete p (f : gmap text (list Z))) q = load_client_state f q).
  { intros f p Hp. unfold load_client_state. cbn. by rewrite lookup_delete_ne. }
  assert (Hnew : forall (f : files), load_client_state (put f q (state_to_json st)) q = st).
  { intros f. unfold load_client_state, put. cbn. rewrite lookup_insert_eq. by rewrite state_json_roundtrip. }
  pose proof (tmp_path_ne q) as Ht. unfold save_client_state. cbn [q]. fold q.
  destruct w as [|[n|]]; [destruct rename_ok|..]; intros [= <- <-].
  - split; [|eexists; split; [done|]; by rewrite Hdel, Hnew].
    rewrite !Forall_cons, Forall_nil. split_and!; [by left|left; by rewrite Hother|right; by rewrite Hdel, Hnew|done].
  - split; [|eexists; split; [done|]; by rewrite Hdel, Hother].
    rewrite !Forall_cons, Forall_nil. split_and!; [by left|left; by rewrite Hother|left; by rewrite Hdel, Hother|done].
  - split; [|eexists; split; [done|]; by rewrite Hother]. rewrite !Forall_cons, Forall_nil. split_and!; [by left|left; by rewrite Hother|done].
  - split; [|by eexists]. rewrite Forall_cons, Forall_nil. split; [by left|done].
Qed.
End State.

(** A generated address is one the server accepts: it parses back, is unicast, locally
    administered and not null. *)
Theorem generated_mac_valid `{HexLaws} random :
  length random = 6%nat -> bytes_ok random ->
  exists m, parse_mac_key (generate_tap_mac random) = Some m /\ is_valid_session_mac (generate_tap_mac random) = true /\
    Z.testbit (nth_byte m 0) 1 = true /\ drop 1 m = drop 1 random.
Proof.
  intros Hl Hb. destruct random as [|b rest]; [done|]. apply Forall_cons in Hb as [Hb Hr]. cbn [generate_tap_mac].
  set (b' := Z.lor (Z.land b 254) 2). assert (Hb' : is_byte b').
  { unfold is_byte in *. unfold b'. split; [apply Z.lor_nonneg; split; [apply Z.land_nonneg; lia|lia]|].
    apply Z.log2_lt_cancel. change (Z.log2 256) with 8. rewrite Z.log2_lor by (try apply Z.land_nonneg; lia).
    apply Z.max_lub_lt; [|done]. pose proof (Z.log2_land b 254 ltac:(lia) ltac:(lia)). change (Z.log2 254) with 7 in *. lia. }
  assert (Hbit : forall i, 0 <= i -> Z.testbit b' i = Z.testbit b i && Z.testbit 254 i || Z.testbit 2 i)
    by (intros; unfold b'; by rewrite Z.lor_spec, Z.land_spec).
  assert (Hp : parse_mac_key (format_mac (b' :: rest)) = Some (b' :: rest)) by (apply parse_format; [by constructor|done]).
  exists (b' :: rest). split; [done|]. unfold is_valid_session_mac, mac_unicast. rewrite Hp. unfold nth_byte. cbn [nth].
  assert (Hb1 : Z.testbit b' 1 = true) by (rewrite Hbit by lia; cbn; by rewrite orb_true_r).
  assert (Hb0 : Z.testbit b' 0 = false) by (rewrite Hbit by lia; cbn; by rewrite andb_false_r).
  split; [|done]. rewrite bool_decide_eq_false_2 by (intros [= E0 _]; by rewrite E0 in Hb1). cbn [negb andb].
  apply Z.eqb_eq. change 1 with (Z.ones 1). rewrite Z.land_ones by lia. change (2 ^ 1) with 2.
  pose proof (Z.bit0_mod b') as Hmod. rewrite Hb0 in Hmod. exact (eq_sym Hmod).
Qed.

(** ** Examples *)

#[export] Instance demo_codec : StateCodec := {|
  state_to_json st := [zlen (cl_client_id st)] ++ cl_client_id st ++ [zlen (cl_mac st)] ++ cl_mac st ++ [zlen (cl_session_id st)] ++ cl_session_id st ++
    [zlen (cl_session_token st)] ++ cl_session_token st ++ [cl_session_epoch st];
  state_from_json l :=
    let field l := match l with n :: l => (take (Z.to_nat n) l, drop (Z.to_nat n) l) | [] => ([], []) end in
    let '(a, l) := field l in let '(b, l) := field l in let '(c, l) := field l in let '(d, l) := field l in
    match l with [e] => Some {| cl_client_id := a; cl_mac := b; cl_session_id := c; cl_session_token := d; cl_session_epoch := e |} | _ => None end |}.
#[export] Instance demo_codec_laws : StateCodecLaws.
Proof.
  split. intros [a b c d e]. cbn -[take drop Z.to_nat].
  rewrite !Nat2Z.id, !take_app_length, !drop_app_length. cbn -[take drop Z.to_nat]. rewrite !Nat2Z.id, !take_app_length, !drop_app_length.
  cbn -[take drop Z.to_nat]. rewrite !Nat2Z.id, !take_app_length, !drop_app_length.
  cbn -[take drop Z.to_nat]. by rewrite !Nat2Z.id, !take_app_length, !drop_app_length.
Qed.
Definition demo_state : ClientState :=
  {| cl_client_id := [1]; cl_mac := [2; 3]; cl_session_id := []; cl_session_token := [4]; cl_session_epoch := 9 |}.
(** The disk fills up in the middle of the write. *)
Lemma client_state_save_atomic_witness :
  let '(steps, res) := save_client_state ∅ (bytes_of_string "c.json.state") demo_state (WriteFails (Some 3%nat)) true in
  length steps = 2%nat /\
  Forall (fun fs' => load_client_state fs' (bytes_of_string "c.json.state") = load_client_state ∅ (bytes_of_string "c.json.state") \/
                     load_client_state fs' (bytes_of_string "c.json.state") = demo_state) steps.
Proof.
  destruct (save_client_state ∅ (bytes_of_string "c.json.state") demo_state (WriteFails (Some 3%nat)) true) as [steps res] eqn:E.
  split; [change steps with (steps, res).1; rewrite <-E; reflexivity|].
  exact (proj1 (client_state_save_atomic ∅ (bytes_of_string "c.json.state") demo_state (WriteFails (Some 3%nat)) true steps res ltac:(discriminate) E)).
Defined.
