(* ===== verification/TapDelivery.v ===== *)
(** * Delivery to the TAP device: [TapDelivery] and the client's receive
      batches ([src/src/client.rs])

    Frames in sequence leave the reorder buffer in batches that a worker thread
    writes to the device; a bounded queue decouples it from the socket readers, and
    two return queues carry used vectors back to them.  [tap.send] is the list of
    payloads written.  A released vector goes to the pool of the releasing thread
    ([Buffer.release_frame_vec]); the operations return the vectors they release. *)
From S2P Require Import Prelude Utils Crypto Protocol Xor Fec Buffer Reorder ReorderSpec.

Definition TAP_DELIVERY_QUEUE : nat := 256.
Definition TAP_RETURN_POOL : nat := 8.
Definition TAP_RETURN_FRAMES : nat := 32.
Definition TAP_RETURN_MAX_CAPACITY : Z := 2048.

Inductive TapWork := SharedWork (batch : list FrameVec) | OwnedWork (batch : list FrameVec).
Definition work_batch (w : TapWork) : list FrameVec := match w with SharedWork b | OwnedWork b => b end.

Record TapDelivery := {
  td_tx : list TapWork;
  td_pool : list (list FrameVec);
  td_owned_pool : list (list FrameVec);
  td_dropped : Z }.
Definition TapDelivery_new : TapDelivery := {| td_tx := []; td_pool := []; td_owned_pool := []; td_dropped := 0 |}.

(** [try_send] on a return queue: a batch that does not fit is dropped. *)
Definition return_send (pool : list (list FrameVec)) (batch : list FrameVec) : list (list FrameVec) :=
  if (length pool <? TAP_RETURN_POOL)%nat then pool ++ [batch] else pool.
Definition td_set_pools (td : TapDelivery) (pool owned : list (list FrameVec)) : TapDelivery :=
  {| td_tx := td_tx td; td_pool := pool; td_owned_pool := owned; td_dropped := td_dropped td |}.
Definition td_push (td : TapDelivery) (w : TapWork) : TapDelivery :=
  {| td_tx := td_tx td ++ [w]; td_pool := td_pool td; td_owned_pool := td_owned_pool td; td_dropped := td_dropped td |}.
Definition td_drop (td : TapDelivery) (n : Z) : TapDelivery :=
  {| td_tx := td_tx td; td_pool := td_pool td; td_owned_pool := td_owned_pool td; td_dropped := u64_wrap (td_dropped td + n) |}.

(** An empty batch to fill, and the vectors released on the way. *)
Definition acquire (td : TapDelivery) : TapDelivery * list FrameVec :=
  match td_pool td with
  | b :: rest => (td_set_pools td rest (td_owned_pool td), b)
  | [] => (td, [])
  end.
Definition acquire_owned (td : TapDelivery) : TapDelivery * list FrameVec :=
  match td_owned_pool td with
  | b :: rest => (td_set_pools td (td_pool td) rest, b)
  | [] => (td, [])
  end.
Definition recycle (td : TapDelivery) : TapDelivery :=
  td_set_pools td (return_send (td_pool td) []) (td_owned_pool td).
Definition recycle_owned (td : TapDelivery) : TapDelivery :=
  td_set_pools td (td_pool td) (return_send (td_owned_pool td) []).
Definition tap_full (td : TapDelivery) : bool := (TAP_DELIVERY_QUEUE <=? length (td_tx td))%nat.

Definition enqueue (td : TapDelivery) (batch : list FrameVec) : TapDelivery * list FrameVec :=
  match batch with
  | [] => (recycle td, [])
  | _ => if tap_full td then (recycle (td_drop td (zlen batch)), batch) else (td_push td (SharedWork batch), [])
  end.
Definition enqueue_owned (td : TapDelivery) (batch : list FrameVec) : TapDelivery * list FrameVec :=
  match batch with
  | [] => (recycle_owned td, [])
  | _ => if tap_full td then (recycle_owned (td_drop td (zlen batch)), batch) else (td_push td (OwnedWork batch), [])
  end.

(** ** The worker thread *)

(** [slice::swap]; the loop below stays in range. *)
Definition swap {A} (i j : nat) (l : list A) : list A :=
  match l !! i, l !! j with Some a, Some b => <[i := b]> (<[j := a]> l) | _, _ => l end.

(** [for index in 0..batch.len()]: send the frame, move a returnable vector to the front. *)
Fixpoint send_loop (recycle : bool) (turns index : nat) (batch : list FrameVec) (keep : nat)
  : list (list Z) * list FrameVec * nat :=
  match turns, batch !! index with
  | S turns', Some v =>
      let '(batch, keep) :=
        if recycle && (keep <? TAP_RETURN_FRAMES)%nat && (fv_capacity v =? TAP_RETURN_MAX_CAPACITY)
        then (swap keep index batch, S keep) else (batch, keep) in
      let '(sent, batch, keep) := send_loop recycle turns' (S index) batch keep in
      (fv_data v :: sent, batch, keep)
  | _, _ => ([], batch, keep)
  end.
Definition worker_send (recycle : bool) (batch : list FrameVec) : list (list Z) * list FrameVec * list FrameVec :=
  let '(sent, batch, keep) := send_loop recycle (length batch) 0 batch 0 in
  (sent, take keep batch, drop keep batch).

(** One turn of the worker: the payloads sent and the vectors released; [None]
    while the queue is empty. *)
Definition worker_turn (recycle : bool) (td : TapDelivery) : option (TapDelivery * list (list Z) * list FrameVec) :=
  match td_tx td with
  | [] => None
  | w :: rest =>
      let td := {| td_tx := rest; td_pool := td_pool td; td_owned_pool := td_owned_pool td; td_dropped := td_dropped td |} in
      let '(sent, kept, released) := worker_send recycle (work_batch w) in
      Some (match w with
            | SharedWork _ => td_set_pools td (return_send (td_pool td) kept) (td_owned_pool td)
            | OwnedWork _ => td_set_pools td (td_pool td) (return_send (td_owned_pool td) kept)
            end, sent, released)
  end.

(** ** Receive batches of a connection without the session actor

    [vec] is the vector that carries a frame of the reorder buffer. *)

Section Flush.

Context (p : cpu) (vec : frame -> FrameVec).

Definition flush_client_rx_batch (conns_count : Z) (rx_bypass : bool) (dec : option FecDecoder)
    (rb : ReorderBuffer) (td : TapDelivery) (now : Z) (fec_data reorder_input : list (Z * frame))
  : option FecDecoder * ReorderBuffer * TapDelivery * list FrameVec :=
  let '(dec', recovered) :=
    match dec with
    | Some d =>
        match fec_data with
        | [] => (Some d, [])
        | _ => let '(d, r) := on_data_batch p d (Some (rb_expected_seq rb)) fec_data in (Some d, r)
        end
    | None => (None, [])
    end in
  let input := reorder_input ++ recovered in
  match input with
  | [] => (dec', rb, td, [])
  | _ =>
      let '(td, released) := acquire td in
      let direct := if (conns_count =? 1) && (match dec with None => true | Some _ => false end) && rx_bypass
                    then try_direct_batch rb input else None in
      let '(rb, ready) := match direct with Some r => r | None => insert_all rb now input end in
      match ready with
      | [] => (dec', rb, recycle td, released)
      | _ => let '(td, released') := enqueue td (vec <$> ready) in (dec', rb, td, released ++ released')
      end
  end.

Definition is_empty_vec (v : FrameVec) : bool := match fv_data v with [] => true | _ => false end.
Definition flush_owned_frames (rb : ReorderBuffer) (td : TapDelivery) (now : Z) (input : list (Z * FrameVec))
  : ReorderBuffer * TapDelivery * list FrameVec :=
  match input with
  | [] => (rb, td, [])
  | _ =>
      match try_advance_sequences rb input.*1 with
      | Some rb =>
          let '(td, released) := acquire_owned td in
          let ready := List.filter (fun v => negb (is_empty_vec v)) input.*2 in
          let '(td, released') := enqueue_owned td ready in
          (rb, td, released ++ List.filter is_empty_vec input.*2 ++ released')
      | None =>
          let '(td, released) := acquire td in
          let '(rb, ready) := insert_all rb now (prod_map id fv_data <$> input) in
          let '(td, released') := enqueue td (vec <$> ready) in
          (rb, td, released ++ released')
      end
  end.
Definition flush_owned_client_rx_batch := flush_owned_frames.

Definition flush_reorder_to_tap (rb : ReorderBuffer) (td : TapDelivery) (now : Z) : ReorderBuffer * TapDelivery * list FrameVec :=
  let '(td, released) := acquire td in
  let '(rb, ready) := flush_timeout_into rb now in
  match ready with
  | [] => (rb, recycle td, released)
  | _ => let '(td, released') := enqueue td (vec <$> ready) in (rb, td, released ++ released')
  end.
End Flush.

(** ** The worker sends every frame once, in order *)

Lemma swap_perm {A} i j (l : list A) : swap i j l ≡ₚ l.
Proof.
  unfold swap. destruct (l !! i) as [a|] eqn:Ei, (l !! j) as [b|] eqn:Ej; try done.
  by apply Permutation_insert_swap.
Qed.
Lemma swap_drop {A} i j n (l : list A) : (i < n)%nat -> (j < n)%nat -> drop n (swap i j l) = drop n l.
Proof. intros. unfold swap. destruct (l !! i), (l !! j); try done. by rewrite !drop_insert_lt. Qed.
(** Swapping the element at [j] to the end of the first [i]. *)
Lemma swap_take {A} i j (l : list A) v :
  (i <= j)%nat -> l !! j = Some v -> take (S i) (swap i j l) = take i l ++ [v].
Proof.
  intros Hij Hj. unfold swap. rewrite Hj. assert (j < length l)%nat by by eapply lookup_lt_Some.
  destruct (lookup_lt_is_Some_2 l i ltac:(lia)) as [a ->].
  rewrite (take_S_r _ _ v).
  - by rewrite !take_insert_ge by lia.
  - rewrite list_lookup_insert_eq; [done|rewrite length_insert; lia].
Qed.

Definition returnable (v : FrameVec) : Prop := fv_capacity v = TAP_RETURN_MAX_CAPACITY.

Lemma send_loop_spec recycle turns index batch keep sent batch' keep' :
  send_loop recycle turns index batch keep = (sent, batch', keep') ->
  (index + turns = length batch)%nat -> (keep <= index)%nat -> (keep <= TAP_RETURN_FRAMES)%nat ->
  Forall returnable (take keep batch) ->
  sent = fv_data <$> drop index batch /\ batch' ≡ₚ batch /\ (keep' <= TAP_RETURN_FRAMES)%nat /\
  (keep' <= length batch)%nat /\ Forall returnable (take keep' batch') /\ (recycle = false -> keep' = keep).
Proof.
  revert index batch keep sent batch' keep'. induction turns as [|turns IH]; intros index batch keep sent batch' keep'; simpl.
  { intros [= <- <- <-] Hi Hk Hf Hr. rewrite drop_ge by lia. split_and!; try done. lia. }
  intros Hs Hi Hk Hf Hr. destruct (lookup_lt_is_Some_2 batch index ltac:(lia)) as [v Hv]. rewrite Hv in Hs.
  rewrite (drop_S _ _ _ Hv).
  destruct (recycle && _ && _) eqn:Ec.
  - apply andb_true_iff in Ec as [[-> ?%Nat.ltb_lt]%andb_true_iff ?%Z.eqb_eq].
    destruct (send_loop _ _ _ _ _) as [[sent1 b1] k1] eqn:E1. injection Hs as <- <- <-.
    pose proof (swap_perm keep index batch) as Hp. pose proof (Permutation_length Hp) as Hl.
    apply IH in E1 as (-> & Hb & ? & ? & ? & ?); [|lia..|].
    + rewrite swap_drop by lia. rewrite Hl in *. split_and!; try done. by rewrite Hb.
    + rewrite (swap_take keep index batch v) by done. apply Forall_app. split; [done|]. by constructor.
  - destruct (send_loop _ _ _ _ _) as [[sent1 b1] k1] eqn:E1. injection Hs as <- <- <-.
    apply IH in E1 as (-> & ? & ? & ? & ? & ?); [done|lia..|done].
Qed.

Lemma worker_send_spec recycle batch sent kept released :
  worker_send recycle batch = (sent, kept, released) ->
  sent = fv_data <$> batch /\ kept ++ released ≡ₚ batch /\ (length kept <= TAP_RETURN_FRAMES)%nat /\
  Forall returnable kept /\ (recycle = false -> kept = []).
Proof.
  unfold worker_send. destruct (send_loop _ _ _ _ _) as [[s b] k] eqn:E. intros [= <- <- <-].
  apply send_loop_spec in E as (-> & Hp & ? & Hk & Hr & Hn); [|simpl; unfold TAP_RETURN_FRAMES; lia || constructor..].
  rewrite drop_0, take_drop. split_and!; try done.
  - rewrite length_take. lia.
  - intros ->. by rewrite Hn.
Qed.

(** ** The queue over a run *)

Inductive td_op := OAcquire | OAcquireOwned | OEnqueue (b : list FrameVec) | OEnqueueOwned (b : list FrameVec) | OWork.
(** What has been accepted, sent to the device and refused so far. *)
Record td_run := { tr_td : TapDelivery; tr_accepted : list (list Z); tr_sent : list (list Z); tr_refused : Z }.
Definition td_offer (r : td_run) (batch : list FrameVec) (td : TapDelivery) : td_run :=
  if tap_full (tr_td r)
  then {| tr_td := td; tr_accepted := tr_accepted r; tr_sent := tr_sent r; tr_refused := tr_refused r + zlen batch |}
  else {| tr_td := td; tr_accepted := tr_accepted r ++ (fv_data <$> batch); tr_sent := tr_sent r; tr_refused := tr_refused r |}.
Definition td_with (r : td_run) (td : TapDelivery) (sent : list (list Z)) : td_run :=
  {| tr_td := td; tr_accepted := tr_accepted r; tr_sent := tr_sent r ++ sent; tr_refused := tr_refused r |}.
Definition td_step (recycle : bool) (r : td_run) (op : td_op) : td_run :=
  match op with
  | OAcquire => td_with r (acquire (tr_td r)).1 []
  | OAcquireOwned => td_with r (acquire_owned (tr_td r)).1 []
  | OEnqueue b => td_offer r b (enqueue (tr_td r) b).1
  | OEnqueueOwned b => td_offer r b (enqueue_owned (tr_td r) b).1
  | OWork => match worker_turn recycle (tr_td r) with Some (td, sent, _) => td_with r td sent | None => r end
  end.
Definition td_start : td_run := {| tr_td := TapDelivery_new; tr_accepted := []; tr_sent := []; tr_refused := 0 |}.

(** Bytes held by a return queue. *)
Definition retained (pool : list (list FrameVec)) : Z := foldr (fun v n => fv_capacity v + n) 0 (concat pool).
Definition tap_queued (td : TapDelivery) : list (list Z) := concat ((fun w => fv_data <$> work_batch w) <$> td_tx td).

Definition pool_ok (pool : list (list FrameVec)) : Prop :=
  (length pool <= TAP_RETURN_POOL)%nat /\ Forall (fun b => (length b <= TAP_RETURN_FRAMES)%nat /\ Forall returnable b) pool.
Record td_inv (r : td_run) : Prop := {
  ti_fifo : tr_sent r ++ tap_queued (tr_td r) = tr_accepted r;
  ti_dropped : td_dropped (tr_td r) = u64_wrap (tr_refused r);
  ti_bound : (length (td_tx (tr_td r)) <= TAP_DELIVERY_QUEUE)%nat;
  ti_pool : pool_ok (td_pool (tr_td r));
  ti_owned : pool_ok (td_owned_pool (tr_td r)) }.

Lemma pool_ok_send pool b :
  pool_ok pool -> (length b <= TAP_RETURN_FRAMES)%nat -> Forall returnable b -> pool_ok (return_send pool b).
Proof.
  intros [Hl Hf] Hb Hr. unfold return_send. destruct (Nat.ltb_spec (length pool) TAP_RETURN_POOL); [|done].
  split; [rewrite length_app; simpl; lia|]. apply Forall_app. split; [done|]. constructor; [done|constructor].
Qed.
Lemma pool_ok_tail b pool : pool_ok (b :: pool) -> pool_ok pool.
Proof. intros [Hl [_ Hf]%Forall_cons]. split; [simpl in Hl; lia|done]. Qed.
Lemma pool_ok_empty_batch pool : pool_ok pool -> pool_ok (return_send pool []).
Proof. intros. apply pool_ok_send; [done|simpl; lia|constructor]. Qed.

Lemma pool_retained pool : pool_ok pool -> retained pool <= 524288.
Proof.
  intros [Hl Hf]. assert (retained pool = 2048 * zlen (concat pool)) as ->.
  { unfold retained. induction Hf as [|b pool [_ Hb] _ IH]; [done|]. simpl. rewrite foldr_app, length_app.
    simpl in Hl. rewrite IH by lia. clear -Hb. induction Hb as [|v b Hv _ IH]; simpl; [done|].
    rewrite IH. unfold returnable, TAP_RETURN_MAX_CAPACITY in Hv. lia. }
  assert (length (concat pool) <= 32 * length pool)%nat.
  { clear Hl. induction Hf as [|b pool [Hb _] _ IH]; [done|]. simpl. rewrite length_app. unfold TAP_RETURN_FRAMES in Hb. lia. }
  unfold TAP_RETURN_POOL in Hl. lia.
Qed.

Lemma queued_push td w : tap_queued (td_push td w) = tap_queued td ++ (fv_data <$> work_batch w).
Proof. unfold tap_queued. cbn [td_tx td_push]. rewrite fmap_app, concat_app. simpl. by rewrite app_nil_r. Qed.

(** Offering a batch, for both kinds of work. *)
Lemma td_offer_inv r b td :
  td_inv r ->
  (if tap_full (tr_td r)
   then td_tx td = td_tx (tr_td r) /\ td_dropped td = u64_wrap (td_dropped (tr_td r) + zlen b)
   else tap_queued td = tap_queued (tr_td r) ++ (fv_data <$> b) /\ (length (td_tx td) <= TAP_DELIVERY_QUEUE)%nat /\
        td_dropped td = td_dropped (tr_td r)) ->
  pool_ok (td_pool td) -> pool_ok (td_owned_pool td) -> td_inv (td_offer r b td).
Proof.
  intros Hi Hc Hp Ho. unfold td_offer. destruct (tap_full (tr_td r)).
  - destruct Hc as [E1 E2]. split; cbn; [|..|done|done].
    + unfold tap_queued. rewrite E1. apply (ti_fifo _ Hi).
    + rewrite E2, (ti_dropped _ Hi). unfold u64_wrap. by rewrite Zplus_mod_idemp_l.
    + rewrite E1. apply Hi.
  - destruct Hc as (E1 & E2 & E3). split; cbn; [|..|done|done].
    + by rewrite E1, app_assoc, (ti_fifo _ Hi).
    + rewrite E3. apply Hi.
    + done.
Qed.

(** The outcomes of offering a batch, the same for both return queues. *)
Ltac offer_cases Hi b enq :=
  let Hw := fresh in
  assert (Hw : forall r, td_inv r -> u64_wrap (td_dropped (tr_td r) + 0) = td_dropped (tr_td r));
  [intros ? Hr; rewrite Z.add_0_r, (ti_dropped _ Hr); unfold u64_wrap; by rewrite Zmod_mod|];
  pose proof (ti_pool _ Hi); pose proof (ti_owned _ Hi); pose proof (ti_bound _ Hi);
  apply td_offer_inv; [done|..]; unfold enq, tap_full; destruct b as [|v b];
  try (match goal with |- context [(?a <=? ?b)%nat] => destruct (Nat.leb_spec a b) end);
  cbn [fst recycle recycle_owned td_set_pools td_push td_drop td_pool td_owned_pool td_tx td_dropped];
  rewrite ?queued_push, ?length_app; try apply pool_ok_empty_batch; try done;
  [by rewrite Hw|rewrite app_nil_r|]; split_and!; try done; simpl; lia.
Lemma enqueue_inv r b : td_inv r -> td_inv (td_offer r b (enqueue (tr_td r) b).1).
Proof. intros Hi. offer_cases Hi b enqueue. Qed.
Lemma enqueue_owned_inv r b : td_inv r -> td_inv (td_offer r b (enqueue_owned (tr_td r) b).1).
Proof. intros Hi. offer_cases Hi b enqueue_owned. Qed.

Lemma td_step_inv recycle r op : td_inv r -> td_inv (td_step recycle r op).
Proof.
  intros Hi. pose proof (ti_pool _ Hi) as Hp. pose proof (ti_owned _ Hi) as Ho. destruct op as [| |b|b|]; cbn [td_step].
  - unfold acquire. destruct (td_pool (tr_td r)) as [|b pool] eqn:E;
      (split; cbn; rewrite ?app_nil_r; try apply Hi). by apply pool_ok_tail in Hp.
  - unfold acquire_owned. destruct (td_owned_pool (tr_td r)) as [|b pool] eqn:E;
      (split; cbn; rewrite ?app_nil_r; try apply Hi). by apply pool_ok_tail in Ho.
  - by apply enqueue_inv.
  - by apply enqueue_owned_inv.
  - unfold worker_turn. destruct (td_tx (tr_td r)) as [|w rest] eqn:Et; [done|].
    destruct (worker_send recycle (work_batch w)) as [[sent kept] released] eqn:Ew.
    apply worker_send_spec in Ew as (-> & _ & Hk & Hr & _).
    assert (Hlen : (length rest <= TAP_DELIVERY_QUEUE)%nat).
    { pose proof (ti_bound _ Hi) as Hb. rewrite Et in Hb. simpl in Hb. lia. }
    assert (Hf : tr_sent r ++ (fv_data <$> work_batch w) ++ concat ((fun w => fv_data <$> work_batch w) <$> rest) = tr_accepted r).
    { rewrite <-(ti_fifo _ Hi). unfold tap_queued. by rewrite Et. }
    destruct w; (split; cbn; [by rewrite <-app_assoc|apply Hi|done|..]); auto using pool_ok_send.
Qed.

Lemma td_start_inv : td_inv td_start.
Proof. split; cbn; try done; [unfold TAP_DELIVERY_QUEUE; lia|split; [unfold TAP_RETURN_POOL; simpl; lia|constructor]..]. Qed.

(** The device receives exactly the accepted frames, in order and once each,
    whatever the interleaving of readers and worker and although the worker moves
    vectors around in the batch it is sending; what the full queue refuses is counted,
    at most 256 batches wait, and either return queue holds at most 512 KiB. *)
Theorem tap_delivery_exact recycle ops :
  let r := foldl (td_step recycle) td_start ops in
  tr_sent r ++ tap_queued (tr_td r) = tr_accepted r /\ td_dropped (tr_td r) = u64_wrap (tr_refused r) /\
  (length (td_tx (tr_td r)) <= TAP_DELIVERY_QUEUE)%nat /\
  retained (td_pool (tr_td r)) <= 524288 /\ retained (td_owned_pool (tr_td r)) <= 524288.
Proof.
  intros r. assert (Hi : td_inv r).
  { subst r. generalize td_start_inv. generalize td_start.
    induction ops as [|op ops IH]; intros s Hs; [done|]. apply IH. by apply td_step_inv. }
  destruct Hi. split_and!; auto using pool_retained.
Qed.

(** ** The owned fast path against the shared one *)

(** What an offer of payloads does to queue and counter. *)
Definition offered (td : TapDelivery) (payloads : list (list Z)) (td' : TapDelivery) : Prop :=
  tap_queued td' = tap_queued td ++ (if tap_full td then [] else payloads) /\
  td_dropped td' = match payloads with
                   | [] => td_dropped td
                   | _ => if tap_full td then u64_wrap (td_dropped td + zlen payloads) else td_dropped td
                   end.

Ltac offered_cases enq b :=
  unfold offered, enq; destruct b as [|v b]; [destruct (tap_full _); simpl; by rewrite ?app_nil_r|];
  destruct (tap_full _); cbn [fst recycle recycle_owned td_set_pools td_drop td_dropped td_push];
  rewrite ?queued_push, ?app_nil_r, ?length_fmap; done.
Lemma enqueue_offered td b : offered td (fv_data <$> b) (enqueue td b).1.
Proof. offered_cases enqueue b. Qed.
Lemma enqueue_owned_offered td b : offered td (fv_data <$> b) (enqueue_owned td b).1.
Proof. offered_cases enqueue_owned b. Qed.

Lemma acquire_queue td : td_tx (acquire td).1 = td_tx td /\ td_dropped (acquire td).1 = td_dropped td.
Proof. unfold acquire. by destruct (td_pool td). Qed.
Lemma acquire_owned_queue td : td_tx (acquire_owned td).1 = td_tx td /\ td_dropped (acquire_owned td).1 = td_dropped td.
Proof. unfold acquire_owned. by destruct (td_owned_pool td). Qed.
Lemma offered_acquired td td0 l td' :
  td_tx td0 = td_tx td /\ td_dropped td0 = td_dropped td -> offered td0 l td' -> offered td l td'.
Proof. unfold offered, tap_full, tap_queued. by intros [-> ->]. Qed.
Lemma offered_det td l td1 td2 : offered td l td1 -> offered td l td2 -> tap_queued td1 = tap_queued td2 /\ td_dropped td1 = td_dropped td2.
Proof. intros [-> ->] [-> ->]. done. Qed.

Lemma nonempty_payloads (input : list (Z * FrameVec)) :
  fv_data <$> List.filter (fun v => negb (is_empty_vec v)) input.*2 =
  concat ((fun q : Z * frame => deliverable q.2) <$> (prod_map id fv_data <$> input)).
Proof.
  induction input as [|[s v] input IH]; [done|]. cbn. unfold is_empty_vec at 1.
  destruct (fv_data v) as [|b d] eqn:E; cbn; [done|]. by rewrite E, IH.
Qed.

(** The shared path offers what leaves the reorder buffer. *)
Lemma shared_offers p vec conns bypass rb td now input :
  (forall f, fv_data (vec f) = f) -> input <> [] ->
  exists rb2 ready, (rb2, ready) = (match (if (conns =? 1) && true && bypass then try_direct_batch rb input else None) with
                                    | Some r => r | None => insert_all rb now input end) /\
    (flush_client_rx_batch p vec conns bypass None rb td now [] input).1.1.2 = rb2 /\
    offered td ready (flush_client_rx_batch p vec conns bypass None rb td now [] input).1.2.
Proof.
  intros Hv Hne. unfold flush_client_rx_batch. rewrite app_nil_r.
  destruct input as [|x input]; [done|].
  destruct (acquire td) as [td1 released] eqn:Ea. pose proof (acquire_queue td) as Hq. rewrite Ea in Hq.
  destruct (match _ with Some r => r | None => _ end) as [rb2 ready]. exists rb2, ready. split; [done|].
  assert (Hd : fv_data <$> (vec <$> ready) = ready).
  { rewrite <-list_fmap_compose. rewrite <-(list_fmap_id ready) at 2. apply list_fmap_ext. intros; apply Hv. }
  destruct ready as [|f ready]; cbn [fst snd].
  - split; [done|]. apply (offered_acquired _ td1); [done|]. apply (enqueue_offered td1 []).
  - pose proof (enqueue_offered td1 (vec <$> f :: ready)) as He. rewrite Hd in He.
    destruct (enqueue td1 _) as [td2 rel2]. split; [done|]. by apply (offered_acquired _ td1).
Qed.

Lemma owned_offers vec rb td now input :
  (forall f, fv_data (vec f) = f) -> input <> [] ->
  let shared := prod_map id fv_data <$> input in
  exists rb1 ready, (rb1, ready) = (match try_direct_batch rb shared with Some r => r | None => insert_all rb now shared end) /\
    (flush_owned_frames vec rb td now input).1.1 = rb1 /\ offered td ready (flush_owned_frames vec rb td now input).1.2.
Proof.
  intros Hv Hne shared. unfold flush_owned_frames, try_direct_batch.
  assert (shared.*1 = input.*1) as ->.
  { unfold shared. rewrite <-list_fmap_compose. by apply list_fmap_ext. }
  destruct input as [|x input]; [done|]. destruct (try_advance_sequences rb _) as [rb1|].
  - destruct (acquire_owned td) as [td1 released] eqn:Ea. pose proof (acquire_owned_queue td) as Hq. rewrite Ea in Hq.
    eexists rb1, _. split; [done|].
    pose proof (enqueue_owned_offered td1 (List.filter (fun v => negb (is_empty_vec v)) (x :: input).*2)) as He.
    rewrite nonempty_payloads in He. destruct (enqueue_owned td1 _) as [td2 rel2]. split; [done|].
    by apply (offered_acquired _ td1).
  - destruct (acquire td) as [td1 released] eqn:Ea. pose proof (acquire_queue td) as Hq. rewrite Ea in Hq.
    destruct (insert_all rb now _) as [rb1 ready]. exists rb1, ready. split; [done|].
    pose proof (enqueue_offered td1 (vec <$> ready)) as He. rewrite <-list_fmap_compose in He.
    rewrite (list_fmap_ext _ id) in He by (intros; apply Hv). rewrite list_fmap_id in He.
    destruct (enqueue td1 _) as [td2 rel2]. split; [done|]. by apply (offered_acquired _ td1).
Qed.

(** A single-connection client that hands vectors over without sharing them
    delivers exactly what the shared path would: the same payloads in the same order,
    the same drops, and the same reorder buffer, or one that also has nothing
    pending and expects the same number. *)
Theorem owned_path_equals_shared p vec conns bypass rb m td now input :
  RB_inv rb m -> Forall is_u32 input.*1 -> (forall f, fv_data (vec f) = f) ->
  let '(rb1, td1, _) := flush_owned_frames vec rb td now input in
  let '(_, rb2, td2, _) := flush_client_rx_batch p vec conns bypass None rb td now [] (prod_map id fv_data <$> input) in
  tap_queued td1 = tap_queued td2 /\ td_dropped td1 = td_dropped td2 /\
  (rb1 = rb2 \/ RB_inv rb1 ∅ /\ RB_inv rb2 ∅ /\ rb_expected_seq rb1 = rb_expected_seq rb2).
Proof.
  intros Hinv Hu Hv. destruct (decide (input = [])) as [->|Hne]; [by split_and!; [| |left]|].
  assert (Hne' : prod_map id fv_data <$> input <> []) by by destruct input.
  assert (Hu' : Forall is_u32 (prod_map id fv_data <$> input).*1).
  { rewrite <-list_fmap_compose. by rewrite (list_fmap_ext _ fst) by done. }
  destruct (owned_offers vec rb td now input Hv Hne) as (rb1 & r1 & E1 & F1 & O1).
  destruct (shared_offers p vec conns bypass rb td now _ Hv Hne') as (rb2 & r2 & E2 & F2 & O2).
  destruct (flush_owned_frames _ _ _ _ _) as [[rb1' td1] ?], (flush_client_rx_batch _ _ _ _ _ _ _ _ _ _) as [[[? rb2'] td2] ?].
  cbn [fst snd] in *. subst rb1' rb2'.
  destruct (try_direct_batch rb _) as [[rbd out]|] eqn:Ed.
  - injection E1 as -> ->. destruct (direct_is_inserts rb m now _ rbd out Hinv Hu' Ed) as (Hid & rbi & Hall & Hii & Hee).
    destruct (_ && _ && _).
    + injection E2 as -> ->. destruct (offered_det _ _ _ _ O1 O2). split_and!; [done..|by left].
    + rewrite Hall in E2. injection E2 as -> ->. destruct (offered_det _ _ _ _ O1 O2). split_and!; [done..|right; done].
  - assert (E2' : (rb2, r2) = insert_all rb now (prod_map id fv_data <$> input)) by (by destruct (_ && _ && _)).
    rewrite <-E1 in E2'. injection E2' as -> ->. destruct (offered_det _ _ _ _ O1 O2). split_and!; [done..|by left].
Qed.

Definition demo_vec (f : frame) : FrameVec := {| fv_data := f; fv_capacity := 2048 |}.
Lemma owned_path_equals_shared_witness :
  let input := [(5, demo_vec [1; 2]); (6, demo_vec []); (7, demo_vec [3])] in
  let '(rb1, td1, _) := flush_owned_frames demo_vec ReorderBuffer_new TapDelivery_new 0 input in
  let '(_, rb2, td2, _) := flush_client_rx_batch OtherCpu demo_vec 2 true None ReorderBuffer_new
                             TapDelivery_new 0 [] (prod_map id fv_data <$> input) in
  tap_queued td1 = tap_queued td2 /\ td_dropped td1 = td_dropped td2 /\
  (rb1 = rb2 \/ RB_inv rb1 ∅ /\ RB_inv rb2 ∅ /\ rb_expected_seq rb1 = rb_expected_seq rb2).
Proof.
  apply (owned_path_equals_shared OtherCpu demo_vec 2 true ReorderBuffer_new ∅).
  - apply new_inv.
  - repeat constructor; done.
  - done.
Defined.
