(* ===== verification/Client.v ===== *)
(** * The client: identity, reconnection and session negotiation
      ([src/src/client.rs])

    A client keeps [conns_count] physical connections to the server, each supervised
    by its own thread ([conn_loop]); a connection that completes the handshake
    negotiates ciphers, FEC and the key epoch of the session all of them share.  The
    state they share is [Client]; what never changes is [ClientConf].  TLS, the
    socket and the clock are inputs, as is the random source.  Times are milliseconds. *)
From stdpp Require Import pretty.
From S2P Require Import Prelude Protocol Utils Crypto Xor Fec Buffer Reorder RxActor Adaptive Queue Port VSwitch Pool Brutal PeerInfo Session Hooks.

(** ** Reconnection *)

Definition RECONNECT_BACKOFF_BASE : Z := 1000.
Definition RECONNECT_BACKOFF_MAX : Z := 30000.
Definition RECONNECT_BACKOFF_RESET : Z := 30000.

Definition reconnect_backoff_delay (r : FastRand) (attempt : Z) : FastRand * Z :=
  let shift := Z.min attempt 5 in
  let d_ms := RECONNECT_BACKOFF_BASE * Z.shiftl 1 shift in
  let max_ms := RECONNECT_BACKOFF_MAX in
  let d_ms := if (max_ms <? d_ms) || (d_ms =? 0) then max_ms else d_ms in
  let third := d_ms / 3 in
  let jitter_range := Z.max (third * 2) 1 in
  let '(r, jitter) := gen_range r 0 jitter_range in
  let delay_ms := third * 2 + jitter in
  (r, if max_ms <? delay_ms then RECONNECT_BACKOFF_MAX else delay_ms).

(** The local state of [conn_loop]. *)
Record ConnLoop := { lp_attempt : Z; lp_seen_generation : Z }.
Definition ConnLoop_new (generation : Z) : ConnLoop := {| lp_attempt := 0; lp_seen_generation := generation |}.
(** A change of the forced-reconnect generation forgets the failures. *)
Definition observe_generation (l : ConnLoop) (generation : Z) : ConnLoop :=
  if generation =? lp_seen_generation l then l else {| lp_attempt := 0; lp_seen_generation := generation |}.
(** From the top of the loop to the wait: [linked] is how long the connection was up. *)
Definition conn_turn (l : ConnLoop) (generation linked : Z) (r : FastRand) : ConnLoop * FastRand * Z :=
  let l := observe_generation l generation in
  let attempt := if RECONNECT_BACKOFF_RESET <=? linked then 0 else lp_attempt l in
  let '(r, delay) := reconnect_backoff_delay r attempt in
  ({| lp_attempt := u32_wrap (attempt + 1); lp_seen_generation := lp_seen_generation l |}, r, delay).
(** The wait: the clock and the generation at each look, until the deadline; [true]
    when a forced reconnect cut it short. *)
Fixpoint conn_wait (l : ConnLoop) (deadline : Z) (looks : list (Z * Z)) : ConnLoop * bool :=
  match looks with
  | [] => (l, false)
  | (now, generation) :: looks' =>
      if deadline <=? now then (l, false)
      else if generation =? lp_seen_generation l then conn_wait l deadline looks'
      else (observe_generation l generation, true)
  end.

(** ** Identity *)

Definition to_ascii_lowercase (s : text) : text := (fun c => if (65 <=? c) && (c <=? 90) then c + 32 else c) <$> s.
Definition string_of_bytes (l : list Z) : string :=
  String.string_of_list_ascii ((fun c => Ascii.ascii_of_nat (Z.to_nat c)) <$> l).

Section Identity.
Context `{HexCodec} `{UuidLib} `{StateCodec}.

(** The address written to the device: configured, persisted or generated.  The
    outer [Err] stops the process, [None] leaves the choice to the kernel. *)
Definition apply_mac (args_mac identity_mac generated : text) : result (option (list Z)) config_mac_error :=
  match parse_config_mac args_mac with
  | Ok (Some m) => Ok (Some m)
  | Err e => Err e
  | Ok None =>
      match identity_mac with
      | _ :: _ => match parse_config_mac identity_mac with Ok (Some m) => Ok (Some m) | _ => Ok None end
      | [] => match parse_config_mac generated with Ok m => Ok m | Err _ => Ok None end
      end
  end.
(** The address the client declares; [from_sys] is what the kernel reports. *)
Definition actual_mac (args_mac identity_mac : text) (applied : option (list Z)) (from_sys generated : text) : text :=
  match args_mac with
  | [] =>
      match identity_mac with
      | _ :: _ => to_ascii_lowercase identity_mac
      | [] =>
          match applied with
          | Some m => format_mac m
          | None => match trim from_sys with [] => generated | s => to_ascii_lowercase s end
          end
      end
  | _ => to_ascii_lowercase args_mac
  end.
Definition derive_client_id (mac psk : text) : text := uuid_v5 (uuid_v3 uuid_url (bytes_of_string "my_vpn_tunnel")) (mac ++ psk).

Record startup := { su_applied : option (list Z); su_mac : text; su_identity : ClientState; su_files : files; su_client_id : text }.
Definition with_mac (st : ClientState) (m : text) : ClientState :=
  {| cl_client_id := cl_client_id st; cl_mac := m; cl_session_id := cl_session_id st; cl_session_token := cl_session_token st;
     cl_session_epoch := cl_session_epoch st |}.
(** The first part of [start_client]; the two generated addresses, the kernel's and
    the outcome of the disk are inputs. *)
Definition start_identity (args_mac psk state_path : text) (fs : files) (generated from_sys generated2 : text)
    (w : write_outcome) (rename_ok : bool) : result startup config_mac_error :=
  let identity := load_client_state fs state_path in
  applied <-? apply_mac args_mac (cl_mac identity) generated;
  let m := actual_mac args_mac (cl_mac identity) applied from_sys generated2 in
  let '(identity, fs) :=
    match args_mac with
    | [] => if bool_decide (cl_mac identity = m) then (identity, fs)
            else let identity := with_mac identity m in
                 (identity, default fs (last (save_client_state fs state_path identity w rename_ok).1))
    | _ => (identity, fs)
    end in
  Ok {| su_applied := applied; su_mac := m; su_identity := identity; su_files := fs; su_client_id := derive_client_id m psk |}.
End Identity.

(** ** The state of a client *)

Record SessionState := {
  ss_server_session_id : text;
  ss_fec_negotiated : Z;
  ss_fec_algo : Z;
  ss_fec_salt_key : text;
  ss_ic_tx : option InnerCipher;
  ss_ic_rx : option InnerCipher;
  ss_enc_algo : Z;
  ss_gw_v4 : text;
  ss_gw_v6 : text;
  ss_session_token : text;
  ss_session_epoch : Z;
  ss_brutal_tx : Z;
  ss_brutal_rx : Z }.
Definition SessionState_default : SessionState :=
  {| ss_server_session_id := []; ss_fec_negotiated := 0; ss_fec_algo := 0; ss_fec_salt_key := []; ss_ic_tx := None;
     ss_ic_rx := None; ss_enc_algo := 0; ss_gw_v4 := []; ss_gw_v6 := []; ss_session_token := []; ss_session_epoch := 0;
     ss_brutal_tx := 0; ss_brutal_rx := 0 |}.
(** The session of the state file, if it belongs to this identity. *)
Definition restore_session (identity : ClientState) (client_id : text) : SessionState :=
  if bool_decide (cl_client_id identity = client_id) && negb (is_nil (cl_session_id identity)) then
    {| ss_server_session_id := cl_session_id identity; ss_fec_negotiated := 0; ss_fec_algo := 0; ss_fec_salt_key := [];
       ss_ic_tx := None; ss_ic_rx := None; ss_enc_algo := 0; ss_gw_v4 := []; ss_gw_v6 := [];
       ss_session_token := cl_session_token identity; ss_session_epoch := cl_session_epoch identity; ss_brutal_tx := 0;
       ss_brutal_rx := 0 |}
  else SessionState_default.

Record ClientConf := {
  cc_client_id : text; cc_psk : text; cc_mac : text; cc_req_v4 : text; cc_req_v6 : text;
  cc_brutal : bool; cc_brutal_up : Z; cc_brutal_down : Z; cc_conns_count : Z;
  cc_fec_mode : bool; cc_fec_group_req : Z; cc_encrypt : bool; cc_enc_algo : Z; cc_min_enc : Z;
  cc_state_path : text; cc_socks5 : bool }.

Section Client.
Context `{FrameChannel} `{CryptoPrims} `{HexCodec} `{UuidLib} `{BrutalSocketOps} `{StateCodec}.

Record Client := {
  ct_session : SessionState;
  ct_tx_port : AsyncPort;
  ct_rx_actor : option RxActorState;
  ct_fec_dec : option FecDecoder;
  ct_reorder_buf : ReorderBuffer;
  ct_dedup : DeDuplicator;
  ct_identity : ClientState;
  ct_files : files;
  ct_fec_recovered_lifetime : Z;
  ct_fec_lost_lifetime : Z;
  ct_assigned_v4 : text;
  ct_assigned_v6 : text;
  ct_fec_status : text;
  ct_enc_algo_display : Z;
  ct_sequence_rekeying : bool }.

(** [start_client]: the receive actor exists exactly with more than one connection. *)
Definition Client_new (conf : ClientConf) (identity : ClientState) (fs : files) : Client :=
  {| ct_session := restore_session identity (cc_client_id conf); ct_tx_port := AsyncPort_new;
     ct_rx_actor := if 1 <? cc_conns_count conf then Some (RxActorState_new None) else None; ct_fec_dec := None;
     ct_reorder_buf := ReorderBuffer_new; ct_dedup := DeDuplicator_new; ct_identity := identity; ct_files := fs;
     ct_fec_recovered_lifetime := 0; ct_fec_lost_lifetime := 0; ct_assigned_v4 := []; ct_assigned_v6 := [];
     ct_fec_status := bytes_of_string "off"; ct_enc_algo_display := 0; ct_sequence_rekeying := false |}.

(** ** The request *)

Definition build_request (conf : ClientConf) (cl : Client) (instance_id conn_id : text) (conn_index : Z)
    (peer : option PeerInfo) : HandshakeReq :=
  {| rq_protocol_version := PROTOCOL_VERSION; rq_client_instance := instance_id; rq_conn_id := conn_id;
     rq_client_id := string_of_bytes (cc_client_id conf); rq_psk := hash_psk (cc_psk conf); rq_mac := cc_mac conf;
     rq_ipv4 := cc_req_v4 conf; rq_ipv6 := cc_req_v6 conf; rq_brutal_groups := true;
     rq_brutal_total_tx := cc_brutal_up conf; rq_brutal_total_rx := cc_brutal_down conf;
     rq_brutal_conns := cc_conns_count conf; rq_brutal_conn_index := conn_index; rq_fec := cc_fec_mode conf;
     rq_fec_group := if cc_fec_mode conf then cc_fec_group_req conf else 0; rq_encrypt := cc_encrypt conf;
     rq_enc_algo := if cc_encrypt conf then cc_enc_algo conf else ENC_ALGO_NONE;
     rq_session_token := ss_session_token (ct_session cl); rq_peer_info := peer |}.

(** ** The response *)

Inductive link_error :=
| BadVersion (v : Z) | EncryptionMismatch | WrongCipher (algo : Z) | BadSalts | CipherInit | BelowMinimum (algo : Z).

(** The connection's keys. *)
Record link_keys := {
  lk_algo : Z; lk_ic_tx : option InnerCipher; lk_ic_rx : option InnerCipher; lk_fec_tx : option InnerCipher; lk_fec_rx : option InnerCipher }.
Definition result_ok {A E} (r : result A E) : option A := match r with Ok a => Some a | Err _ => None end.
Definition decode_salts (resp : HandshakeResp) : option (list Z * list Z) :=
  match hex_decode (rs_enc_salt resp), hex_decode (rs_enc_salt2 resp) with
  | Some a, Some b => if (length a =? ENC_SALT_SIZE)%nat && (length b =? ENC_SALT_SIZE)%nat then Some (a, b) else None
  | _, _ => None
  end.
(** The client sends under the first salt and receives under the second. *)
Definition derive_keys (conf : ClientConf) (resp : HandshakeResp) : result link_keys link_error :=
  if cc_encrypt conf then
    if negb (rs_enc_algo resp =? cc_enc_algo conf) then Err (WrongCipher (rs_enc_algo resp))
    else
      match decode_salts resp with
      | None => Err BadSalts
      | Some (stx, srx) =>
          match for_algo (cc_psk conf) stx (rs_enc_algo resp), for_algo (cc_psk conf) srx (rs_enc_algo resp) with
          | Ok tx, Ok rx =>
              Ok {| lk_algo := rs_enc_algo resp; lk_ic_tx := Some tx; lk_ic_rx := Some rx;
                    lk_fec_tx := result_ok (domain_for_algo (cc_psk conf) stx DOMAIN_FEC (rs_enc_algo resp));
                    lk_fec_rx := result_ok (domain_for_algo (cc_psk conf) srx DOMAIN_FEC (rs_enc_algo resp)) |}
          | _, _ => Err CipherInit
          end
      end
  else Ok {| lk_algo := ENC_ALGO_NONE; lk_ic_tx := None; lk_ic_rx := None; lk_fec_tx := None; lk_fec_rx := None |}.
Definition check_response (conf : ClientConf) (resp : HandshakeResp) : result link_keys link_error :=
  if negb (rs_protocol_version resp =? PROTOCOL_VERSION) then Err (BadVersion (rs_protocol_version resp))
  else if negb (Bool.eqb (rs_encrypt resp) (cc_encrypt conf)) then Err EncryptionMismatch
  else
    keys <-? derive_keys conf resp;
    if (0 <? cc_min_enc conf) && negb (is_inner_aead_algo (lk_algo keys)) then Err (BelowMinimum (lk_algo keys)) else Ok keys.

(** The shaping of the connection: the server's clipped budget, or the local one. *)
Definition brutal_rates (conf : ClientConf) (resp : HandshakeResp) (conn_index : Z) : option (Z * Z) :=
  let local := split_legacy_brutal_rate_bps (cc_brutal_up conf) (cc_conns_count conf) conn_index in
  if cc_brutal conf && (0 <? local) && negb (cc_socks5 conf) then
    Some (if rs_brutal_groups resp && (0 <? rs_brutal_total_tx resp)
          then (rs_brutal_total_tx resp, split_legacy_brutal_rate_bps (rs_brutal_total_tx resp) (cc_conns_count conf) conn_index)
          else (cc_brutal_up conf, local))
  else None.
Definition apply_brutal (conf : ClientConf) (resp : HandshakeResp) (conn_index : Z) (instance_id : text) (sock : bsock)
  : bsock * BrutalApplyResult :=
  match brutal_rates conf resp conn_index with
  | Some (total, legacy) => configure_tcp_brutal sock total legacy (brutal_group_id (bytes_of_string "client") instance_id)
  | None => (sock, BrutalApplyResult_default)
  end.

(** *** The session block, under the session lock *)

Definition ss_set_fec (st : SessionState) (negotiated algo : Z) (salt : text) : SessionState :=
  {| ss_server_session_id := ss_server_session_id st; ss_fec_negotiated := negotiated; ss_fec_algo := algo;
     ss_fec_salt_key := salt; ss_ic_tx := ss_ic_tx st; ss_ic_rx := ss_ic_rx st; ss_enc_algo := ss_enc_algo st;
     ss_gw_v4 := ss_gw_v4 st; ss_gw_v6 := ss_gw_v6 st; ss_session_token := ss_session_token st;
     ss_session_epoch := ss_session_epoch st; ss_brutal_tx := ss_brutal_tx st; ss_brutal_rx := ss_brutal_rx st |}.
Definition ct_set (cl : Client) (st : SessionState) (port : AsyncPort) (dec : option FecDecoder) : Client :=
  {| ct_session := st; ct_tx_port := port; ct_rx_actor := ct_rx_actor cl; ct_fec_dec := dec;
     ct_reorder_buf := ct_reorder_buf cl; ct_dedup := ct_dedup cl; ct_identity := ct_identity cl; ct_files := ct_files cl;
     ct_fec_recovered_lifetime := ct_fec_recovered_lifetime cl; ct_fec_lost_lifetime := ct_fec_lost_lifetime cl;
     ct_assigned_v4 := ct_assigned_v4 cl; ct_assigned_v6 := ct_assigned_v6 cl; ct_fec_status := ct_fec_status cl;
     ct_enc_algo_display := ct_enc_algo_display cl; ct_sequence_rekeying := ct_sequence_rekeying cl |}.
Definition ct_set_rx (cl : Client) (actor : option RxActorState) (rb : ReorderBuffer) (dd : DeDuplicator) : Client :=
  {| ct_session := ct_session cl; ct_tx_port := ct_tx_port cl; ct_rx_actor := actor; ct_fec_dec := ct_fec_dec cl;
     ct_reorder_buf := rb; ct_dedup := dd; ct_identity := ct_identity cl; ct_files := ct_files cl;
     ct_fec_recovered_lifetime := ct_fec_recovered_lifetime cl; ct_fec_lost_lifetime := ct_fec_lost_lifetime cl;
     ct_assigned_v4 := ct_assigned_v4 cl; ct_assigned_v6 := ct_assigned_v6 cl; ct_fec_status := ct_fec_status cl;
     ct_enc_algo_display := ct_enc_algo_display cl; ct_sequence_rekeying := ct_sequence_rekeying cl |}.

(** The group size is negotiated once; the status text is for display. *)
Definition negotiate_fec (conf : ClientConf) (cl : Client) (resp : HandshakeResp) : Client :=
  let st := ct_session cl in
  if cc_fec_mode conf && (ss_fec_negotiated st =? 0) then
    let accepted := FEC_MIN_GROUP <=? rs_fec_group resp in
    {| ct_session := if accepted then ss_set_fec st (rs_fec_group resp) (ss_fec_algo st) (ss_fec_salt_key st) else st;
       ct_tx_port := ct_tx_port cl; ct_rx_actor := ct_rx_actor cl; ct_fec_dec := ct_fec_dec cl;
       ct_reorder_buf := ct_reorder_buf cl; ct_dedup := ct_dedup cl; ct_identity := ct_identity cl; ct_files := ct_files cl;
       ct_fec_recovered_lifetime := ct_fec_recovered_lifetime cl; ct_fec_lost_lifetime := ct_fec_lost_lifetime cl;
       ct_assigned_v4 := ct_assigned_v4 cl; ct_assigned_v6 := ct_assigned_v6 cl;
       ct_fec_status := if accepted then bytes_of_string "xor K=" ++ bytes_of_string (pretty (rs_fec_group resp)) else bytes_of_string "off";
       ct_enc_algo_display := ct_enc_algo_display cl; ct_sequence_rekeying := ct_sequence_rekeying cl |}
  else cl.
Definition use_xor_fec (conf : ClientConf) (cl : Client) : bool := cc_fec_mode conf && (0 <? ss_fec_negotiated (ct_session cl)).

Definition rebuild_needed (cl : Client) (algo : Z) (salt : text) : bool :=
  match ct_rx_actor cl with
  | Some _ => false
  | None => match ct_fec_dec cl with None => true | Some _ => false end
  end || negb (ss_fec_algo (ct_session cl) =? algo) || negb (bool_decide (ss_fec_salt_key (ct_session cl) = salt)).
(** New FEC state for new keys: with the actor the decoder is its business, without
    it the old decoder's counters are folded and a single-path one is installed. *)
Definition rebuild_fec (cl : Client) (keys : link_keys) (salt : text) : Client :=
  let st := ct_session cl in
  let k := ss_fec_negotiated st in
  let st := ss_set_fec st k (lk_algo keys) salt in
  let port := reset_epoch (ct_tx_port cl) k (lk_fec_tx keys) in
  match ct_rx_actor cl with
  | Some _ => ct_set cl st port None
  | None =>
      let '(r, l) := match ct_fec_dec cl with Some old => (fi_recovered (fd_inner old), fi_lost (fd_inner old)) | None => (0, 0) end in
      let cl := ct_set cl st port (Some (set_static_single_path (FecDecoder_new k (lk_fec_rx keys)) true)) in
      {| ct_session := ct_session cl; ct_tx_port := ct_tx_port cl; ct_rx_actor := ct_rx_actor cl; ct_fec_dec := ct_fec_dec cl;
         ct_reorder_buf := ct_reorder_buf cl; ct_dedup := ct_dedup cl; ct_identity := ct_identity cl; ct_files := ct_files cl;
         ct_fec_recovered_lifetime := u64_wrap (ct_fec_recovered_lifetime cl + r);
         ct_fec_lost_lifetime := u64_wrap (ct_fec_lost_lifetime cl + l);
         ct_assigned_v4 := ct_assigned_v4 cl; ct_assigned_v6 := ct_assigned_v6 cl; ct_fec_status := ct_fec_status cl;
         ct_enc_algo_display := ct_enc_algo_display cl; ct_sequence_rekeying := ct_sequence_rekeying cl |}
  end.

(** [persist_session_state]: never goes back to an earlier epoch. *)
Definition persist_session_state (conf : ClientConf) (identity : ClientState) (fs : files) (session_id token : text) (epoch : Z)
    (w : write_outcome) (rename_ok : bool) : ClientState * files :=
  if is_nil (cc_state_path conf) then (identity, fs)
  else if epoch <? cl_session_epoch identity then (identity, fs)
  else
    let st := {| cl_client_id := cc_client_id conf; cl_mac := cl_mac identity; cl_session_id := session_id;
                 cl_session_token := token; cl_session_epoch := epoch |} in
    (st, default fs (last (save_client_state fs (cc_state_path conf) st w rename_ok).1)).

Definition is_new_session (st : SessionState) (resp : HandshakeResp) : bool :=
  negb (bool_decide (ss_server_session_id st = rs_session_id resp)) || negb (ss_session_epoch st =? rs_session_epoch resp).

(** The fields taken over from the response. *)
Definition adopt (st : SessionState) (keys : link_keys) (resp : HandshakeResp) : SessionState :=
  let fresh := negb (ss_enc_algo st =? lk_algo keys) in
  {| ss_server_session_id := if is_new_session st resp then rs_session_id resp else ss_server_session_id st;
     ss_fec_negotiated := ss_fec_negotiated st; ss_fec_algo := ss_fec_algo st; ss_fec_salt_key := ss_fec_salt_key st;
     ss_ic_tx := if fresh then lk_ic_tx keys else ss_ic_tx st; ss_ic_rx := if fresh then lk_ic_rx keys else ss_ic_rx st;
     ss_enc_algo := lk_algo keys; ss_gw_v4 := rs_gw_v4 resp; ss_gw_v6 := rs_gw_v6 resp;
     ss_session_token := rs_session_token resp;
     ss_session_epoch := if is_new_session st resp then rs_session_epoch resp else ss_session_epoch st;
     ss_brutal_tx := if rs_brutal_groups resp then rs_brutal_total_tx resp else ss_brutal_tx st;
     ss_brutal_rx := if rs_brutal_groups resp then rs_brutal_total_rx resp else ss_brutal_rx st |}.

(** [resp.ipv4.split('/').next()] *)
Definition before_slash (s : text) : text := (split_once SLASH s).1.

(** Steps 5 of [dial_and_serve]: the session block and the receive side after it. *)
Definition apply_session (conf : ClientConf) (cl : Client) (keys : link_keys) (resp : HandshakeResp)
    (w : write_outcome) (rename_ok : bool) : Client :=
  let cl := negotiate_fec conf cl resp in
  let fec := use_xor_fec conf cl in
  let rebuild := fec && rebuild_needed cl (lk_algo keys) (rs_enc_salt resp) in
  let cl := if rebuild then rebuild_fec cl keys (rs_enc_salt resp) else cl in
  let st := ct_session cl in
  let new := is_new_session st resp in
  let dec := match ct_rx_actor cl with None => (fun d => set_static_single_path d true) <$> ct_fec_dec cl | Some _ => ct_fec_dec cl end in
  let '(identity, fs) :=
    persist_session_state conf (ct_identity cl) (ct_files cl) (rs_session_id resp) (rs_session_token resp) (rs_session_epoch resp) w rename_ok in
  let cl :=
    {| ct_session := adopt st keys resp;
       ct_tx_port := if new && negb fec then reset_epoch (ct_tx_port cl) 0 None else ct_tx_port cl;
       ct_rx_actor := ct_rx_actor cl; ct_fec_dec := dec; ct_reorder_buf := ct_reorder_buf cl; ct_dedup := ct_dedup cl;
       ct_identity := identity; ct_files := fs;
       ct_fec_recovered_lifetime := ct_fec_recovered_lifetime cl; ct_fec_lost_lifetime := ct_fec_lost_lifetime cl;
       ct_assigned_v4 := before_slash (rs_ipv4 resp); ct_assigned_v6 := before_slash (rs_ipv6 resp);
       ct_fec_status := ct_fec_status cl; ct_enc_algo_display := lk_algo keys;
       ct_sequence_rekeying := if new then false else ct_sequence_rekeying cl |} in
  let k := if fec then ss_fec_negotiated st else 0 in
  match ct_rx_actor cl with
  | Some actor =>
      if rebuild || new
      then ct_set_rx cl (Some (reconfigure actor (if fec && (FEC_MIN_GROUP <=? k) then Some (FecDecoder_new k (lk_fec_rx keys)) else None)))
             (ct_reorder_buf cl) (ct_dedup cl)
      else cl
  | None =>
      if new then ct_set_rx cl None (ReorderBuffer_reset (ct_reorder_buf cl)) (DeDuplicator_reset (ct_dedup cl)) else cl
  end.

(** The handling of a response on a connection. *)
Definition handle_response (conf : ClientConf) (cl : Client) (resp : HandshakeResp) (w : write_outcome) (rename_ok : bool)
  : Client * result link_keys link_error :=
  match check_response conf resp with
  | Err e => (cl, Err e)
  | Ok keys => (apply_session conf cl keys resp w rename_ok, Ok keys)
  end.

(** Recovered and lost frames over the life of the client, reorder counters, bypass. *)
Definition client_rx_snapshot (cl : Client) : Z * Z * ReorderStats * bool :=
  match ct_rx_actor cl with
  | Some actor =>
      let snap := snapshot actor in
      (u64_sat_add (ct_fec_recovered_lifetime cl) (sn_recovered snap),
       u64_sat_add (ct_fec_lost_lifetime cl) (sn_lost snap), sn_reorder snap, sn_fec_bypass snap)
  | None =>
      let '(r, l, bypass) :=
        match ct_fec_dec cl with
        | Some d => (fi_recovered (fd_inner d), fi_lost (fd_inner d), bypass_snapshot d)
        | None => (0, 0, false)
        end in
      (u64_sat_add (ct_fec_recovered_lifetime cl) r, u64_sat_add (ct_fec_lost_lifetime cl) l,
       rb_stats (ct_reorder_buf cl), bypass)
  end.
End Client.
