(* ===== verification/ClientSpec.v ===== *)
(** * Properties of the client: pacing of reconnections, identity, key epochs

    The theorems about the handshake run the client's half of [Client] against the
    server's half of [Session]. *)
From S2P Require Import Prelude Protocol Utils Crypto Xor Fec Buffer Reorder RxActor Adaptive Queue Port PortSpec VSwitch Pool Brutal PeerInfo Session SessionSpec SessionGuard Hooks Client.

(** ** Reconnection *)

(** The nominal delay before retry [attempt] and the window its jitter leaves. *)
Definition backoff_nominal (attempt : Z) : Z := Z.min RECONNECT_BACKOFF_MAX (RECONNECT_BACKOFF_BASE * 2 ^ Z.min attempt 5).
Definition in_backoff_window (attempt delay : Z) : Prop :=
  2 * (backoff_nominal attempt / 3) <= delay <= Z.min RECONNECT_BACKOFF_MAX (4 * (backoff_nominal attempt / 3)).

Lemma backoff_nominal_bounds a : 0 <= a -> 1000 <= backoff_nominal a <= 30000.
Proof.
  intros Ha. unfold backoff_nominal, RECONNECT_BACKOFF_BASE, RECONNECT_BACKOFF_MAX.
  pose proof (Z.pow_le_mono_r 2 0 (Z.min a 5) ltac:(lia) ltac:(lia)). change (2 ^ 0) with 1 in *. lia.
Qed.

Lemma backoff_delay_window r a r' delay :
  rand_ok r -> 0 <= a -> reconnect_backoff_delay r a = (r', delay) -> rand_ok r' /\ in_backoff_window a delay.
Proof.
  intros Hr Ha. pose proof (backoff_nominal_bounds a Ha) as Hn. unfold reconnect_backoff_delay.
  rewrite Z.shiftl_mul_pow2, Z.mul_1_l by lia.
  assert (Hd : (if (RECONNECT_BACKOFF_MAX <? RECONNECT_BACKOFF_BASE * 2 ^ Z.min a 5) || (RECONNECT_BACKOFF_BASE * 2 ^ Z.min a 5 =? 0)
                then RECONNECT_BACKOFF_MAX else RECONNECT_BACKOFF_BASE * 2 ^ Z.min a 5) = backoff_nominal a).
  { unfold backoff_nominal in *. unfold RECONNECT_BACKOFF_BASE, RECONNECT_BACKOFF_MAX in *. case_bools. }
  rewrite Hd. clear Hd. set (third := backoff_nominal a / 3).
  assert (Ht : 333 <= third) by (subst third; div_mod (backoff_nominal a) 3; lia).
  destruct (gen_range r 0 (Z.max (third * 2) 1)) as [r1 jitter] eqn:Eg.
  pose proof (gen_range_ok r 0 (Z.max (third * 2) 1) Hr) as (Hr1 & Hlo & Hhi). rewrite Eg in *. cbn [fst snd] in *.
  intros [= <- <-]. split; [done|]. unfold in_backoff_window. fold third.
  assert (Hm : 3 * third <= 30000) by (subst third; div_mod (backoff_nominal a) 3; lia).
  unfold RECONNECT_BACKOFF_MAX in *. destruct (Z.ltb_spec 30000 (third * 2 + jitter)); lia.
Qed.

(** A sequence of failed connections: how long each was up, no forced reconnect. *)
Fixpoint conn_turns (l : ConnLoop) (r : FastRand) (linked : list Z) : list Z :=
  match linked with
  | [] => []
  | t :: linked' => let '(l, r, delay) := conn_turn l (lp_seen_generation l) t r in delay :: conn_turns l r linked'
  end.

Lemma conn_turns_window linked l r i delay :
  rand_ok r -> Forall (fun t => t < RECONNECT_BACKOFF_RESET) linked -> 0 <= lp_attempt l ->
  lp_attempt l + zlen linked <= U32_MAX -> conn_turns l r linked !! i = Some delay ->
  in_backoff_window (lp_attempt l + Z.of_nat i) delay.
Proof.
  intros Hr Hl. revert l r i Hr. induction Hl as [|t linked Ht _ IH]; intros l r i Hr Ha Hb; [done|].
  cbn [conn_turns length] in *. unfold conn_turn, observe_generation. rewrite Z.eqb_refl.
  rewrite (proj2 (Z.leb_gt _ _)) by lia.
  destruct (reconnect_backoff_delay r (lp_attempt l)) as [r1 d1] eqn:Ed.
  apply backoff_delay_window in Ed as [Hr1 Hw]; [|done..].
  destruct i as [|i]; cbn.
  - intros [= <-]. by rewrite Z.add_0_r.
  - intros Hi. apply IH in Hi; cbn; [|done|..]; unfold u32_wrap, U32_MAX in *; rewrite ?Z.mod_small in * by lia; [|lia..].
    by replace (lp_attempt l + Z.of_nat (S i)) with (lp_attempt l + 1 + Z.of_nat i) by lia.
Qed.

(** A connection that keeps failing is retried with doubling delays: before retry
    [i] it waits between two and four thirds of 2{^i} seconds, never more than 30
    seconds, whatever the random source gives; so it neither floods the server nor
    stops trying. *)
Theorem reconnect_paced generation r linked i delay :
  rand_ok r -> Forall (fun t => t < RECONNECT_BACKOFF_RESET) linked -> zlen linked <= U32_MAX ->
  conn_turns (ConnLoop_new generation) r linked !! i = Some delay ->
  in_backoff_window (Z.of_nat i) delay /\ 666 <= delay <= 30000.
Proof.
  intros Hr Hl Hn Hi. apply conn_turns_window in Hi; [|done..]. change (lp_attempt (ConnLoop_new generation)) with 0 in Hi. rewrite Z.add_0_l in Hi. split; [done|].
  pose proof (backoff_nominal_bounds (Z.of_nat i) ltac:(lia)). unfold in_backoff_window, RECONNECT_BACKOFF_MAX in Hi.
  div_mod (backoff_nominal (Z.of_nat i)) 3. lia.
Qed.

Lemma reconnect_paced_witness :
  exists d, conn_turns (ConnLoop_new 7) (FastRand_new 12345) [0; 500; 20000; 0] !! 3%nat = Some d /\
    in_backoff_window 3 d /\ 666 <= d <= 30000.
Proof.
  eexists. split; [vm_compute; reflexivity|].
  apply (reconnect_paced 7 (FastRand_new 12345) [0; 500; 20000; 0] 3).
  - split; vm_compute; [split; discriminate|discriminate].
  - repeat constructor.
  - done.
  - vm_compute. reflexivity.
Defined.

(** A long connection, or a forced reconnect, starts again from the shortest delay. *)
Lemma conn_turn_resets l generation linked r l' r' delay :
  rand_ok r -> RECONNECT_BACKOFF_RESET <= linked \/ generation <> lp_seen_generation l ->
  conn_turn l generation linked r = (l', r', delay) -> in_backoff_window 0 delay /\ lp_attempt l' = 1.
Proof.
  intros Hr Hc. unfold conn_turn, observe_generation.
  assert (E : (if RECONNECT_BACKOFF_RESET <=? linked then 0
    else lp_attempt (if generation =? lp_seen_generation l then l else {| lp_attempt := 0; lp_seen_generation := generation |})) = 0).
  { destruct (Z.leb_spec RECONNECT_BACKOFF_RESET linked), (Z.eqb_spec generation (lp_seen_generation l)); try done. lia. }
  rewrite E. destruct (reconnect_backoff_delay r 0) as [r1 d1] eqn:Ed. intros [= <- <- <-].
  apply backoff_delay_window in Ed as [_ ?]; done.
Qed.

(** ** Identity *)

Section IdentityFacts.
Context `{HexLaws} `{UuidLib} `{StateCodec}.

Definition lower (c : Z) : Z := if (65 <=? c) && (c <=? 90) then c + 32 else c.
Lemma lower_digit c v : hex_val c = Some v -> hex_digit v = lower c.
Proof.
  unfold hex_val, hex_digit, lower. intros E. repeat (case_match; simplify_eq);
    repeat match goal with
    | E : _ && _ = true |- _ => apply andb_true_iff in E as [?%Z.leb_le ?%Z.leb_le]
    | E : _ && _ = false |- _ => apply andb_false_iff in E as [?%Z.leb_gt|?%Z.leb_gt]
    | E : (_ <? _) = true |- _ => apply Z.ltb_lt in E
    | E : (_ <? _) = false |- _ => apply Z.ltb_ge in E
    end; lia.
Qed.

Lemma lower_colon c : lower c = 58 <-> c = 58.
Proof. unfold lower. destruct (Z.leb_spec 65 c), (Z.leb_spec c 90); cbn; lia. Qed.
Lemma split_on_lower s : split_on 58 (to_ascii_lowercase s) = to_ascii_lowercase <$> split_on 58 s.
Proof.
  induction s as [|c s IH]; [done|]. cbn. fold (to_ascii_lowercase s). fold (lower c). rewrite IH.
  pose proof (lower_colon c). destruct (Z.eqb_spec (lower c) 58), (Z.eqb_spec c 58); try (exfalso; tauto); [done|].
  by destruct (split_on 58 s).
Qed.
Fixpoint join_on (sep : Z) (parts : list (list Z)) : list Z :=
  match parts with [] => [] | [p] => p | p :: ps => p ++ sep :: join_on sep ps end.
Lemma split_on_cons sep s : exists p ps, split_on sep s = p :: ps.
Proof. destruct s as [|c s]; cbn; [by do 2 eexists|]. destruct (c =? sep), (split_on sep s); by do 2 eexists. Qed.
Lemma join_split sep s : join_on sep (split_on sep s) = s.
Proof.
  induction s as [|c s IH]; [done|]. cbn [split_on]. destruct (split_on_cons sep s) as (p & ps & E). rewrite E in *.
  destruct (Z.eqb_spec c sep) as [->|]; [by rewrite <-IH|].
  destruct ps; cbn [join_on app] in *; congruence.
Qed.

Lemma mac_parts_lower cur parts m : mac_parts cur parts = Some m -> to_ascii_lowercase <$> parts = hex_byte <$> m.
Proof.
  revert cur m. induction parts as [|p parts IH]; intros cur m; cbn; [destruct (cur =? 6)%nat; by intros [= <-]|].
  destruct (cur =? 6)%nat; [done|]. destruct (hex_decode p) as [[|b [|]]|] eqn:E; try done.
  destruct (mac_parts (S cur) parts) as [m'|] eqn:Em; [|done]. intros [= <-]. cbn. f_equal; [|by eapply IH].
  pose proof (hex_decode_length _ _ E) as Hp. destruct p as [|a1 [|a2 [|]]]; try done.
  rewrite hex_decode_pair in E. destruct (hex_val a1) as [x|] eqn:E1, (hex_val a2) as [y|] eqn:E2; simplify_eq.
  pose proof (hex_val_bound _ _ E1). pose proof (hex_val_bound _ _ E2). unfold hex_byte.
  replace ((16 * x + y) / 16) with x by (rewrite Z.mul_comm, Z.div_add_l, Z.div_small by lia; lia).
  replace ((16 * x + y) mod 16) with y by (rewrite Z.add_comm, Z.mul_comm, Z.mod_add, Z.mod_small by lia; lia).
  rewrite (lower_digit _ _ E1), (lower_digit _ _ E2). done.
Qed.

(** A MAC text in lower case is the canonical spelling. *)
Lemma lower_is_canonical s m : parse_mac_key s = Some m -> to_ascii_lowercase s = format_mac m.
Proof.
  intros Hp. destruct (mac_parts_bytes _ _ _ Hp) as [Hb Hl]. cbn in Hl.
  rewrite <-(join_split 58 (to_ascii_lowercase s)), <-(join_split 58 (format_mac m)).
  rewrite split_on_lower, split_format by (done || by destruct m). by rewrite (mac_parts_lower _ _ _ Hp).
Qed.
Lemma parse_lower s m : parse_mac_key s = Some m -> parse_mac_key (to_ascii_lowercase s) = Some m.
Proof.
  intros Hp. destruct (mac_parts_bytes _ _ _ Hp) as [Hb Hl]. rewrite (lower_is_canonical _ _ Hp). by apply parse_format.
Qed.
Lemma lower_idem s : to_ascii_lowercase (to_ascii_lowercase s) = to_ascii_lowercase s.
Proof.
  unfold to_ascii_lowercase. rewrite <-list_fmap_compose. apply list_fmap_ext. intros _ c _. cbn. fold (lower c). fold (lower (lower c)).
  unfold lower. destruct (Z.leb_spec 65 c), (Z.leb_spec c 90); cbn; case_bools; lia.
Qed.

Lemma parse_mac_nil : parse_mac_key [] = None.
Proof.
  unfold parse_mac_key. cbn. destruct (hex_decode []) as [[|b [|]]|] eqn:E; try done.
Qed.
Lemma parse_config_spec s m :
  parse_config_mac s = Ok (Some m) <-> s <> [] /\ parse_mac_key s = Some m /\ mac_unicast m = true.
Proof.
  unfold parse_config_mac, mac_unicast. destruct s as [|c s]; [split; [done|by intros []]|].
  destruct (parse_mac_key (c :: s)) as [m'|]; [|by split; [|intros (_ & ? & _)]].
  destruct (bool_decide (m' = zero_mac)) eqn:E1, (Z.land (nth_byte m' 0) 1 =? 0) eqn:E2; cbn [negb orb andb];
    (split; [intros E; simplify_eq|intros (_ & E & Hu); simplify_eq]); try done; try (by rewrite E1, E2); by rewrite E1, E2 in Hu.
Qed.
Lemma session_mac_spec s : is_valid_session_mac s = true <-> exists m, parse_mac_key s = Some m /\ mac_unicast m = true.
Proof. unfold is_valid_session_mac. destruct (parse_mac_key s); naive_solver. Qed.

(** The address of a start: either spelled by the user or the state file, or generated. *)
Lemma chosen_mac args_mac identity_mac rnd applied from_sys g2 :
  apply_mac args_mac identity_mac (generate_tap_mac rnd) = Ok applied ->
  args_mac <> [] \/ identity_mac = [] \/ is_valid_session_mac identity_mac = true ->
  length rnd = 6%nat -> bytes_ok rnd ->
  exists m, applied = Some m /\ bytes_ok m /\ length m = 6%nat /\ mac_unicast m = true /\
    actual_mac args_mac identity_mac applied from_sys g2 = format_mac m.
Proof.
  intros Ha Hc Hl Hb. unfold apply_mac in Ha. unfold actual_mac.
  assert (Hpick : forall s m, parse_config_mac s = Ok (Some m) ->
    bytes_ok m /\ length m = 6%nat /\ mac_unicast m = true /\ to_ascii_lowercase s = format_mac m).
  { intros s m (_ & Hp & Hu)%parse_config_spec. destruct (mac_parts_bytes _ _ _ Hp) as [? ?].
    split_and!; try done. by apply lower_is_canonical. }
  destruct (parse_config_mac args_mac) as [[m|]|] eqn:Ec; [| |done].
  - injection Ha as <-. pose proof (Hpick _ _ Ec) as (? & ? & ? & Elow). apply parse_config_spec in Ec as (Hne & _).
    destruct args_mac; [done|]. exists m. done.
  - destruct args_mac as [|x args_mac]; [|exfalso; unfold parse_config_mac in Ec; repeat case_match; simplify_eq].
    destruct identity_mac as [|c s].
    + pose proof (generated_mac_valid rnd Hl Hb) as (m & Hp & Hv & _).
      unfold is_valid_session_mac in Hv. rewrite Hp in Hv.
      assert (Hg : parse_config_mac (generate_tap_mac rnd) = Ok (Some m)).
      { apply parse_config_spec. split; [|done]. intros E. by rewrite E, parse_mac_nil in Hp. }
      rewrite Hg in Ha. injection Ha as <-. destruct (Hpick _ _ Hg) as (? & ? & ? & _). by exists m.
    + destruct Hc as [?|[?|(m & Hp & Hu)%session_mac_spec]]; [done..|].
      assert (Hg : parse_config_mac (c :: s) = Ok (Some m)) by by apply parse_config_spec.
      rewrite Hg in Ha. injection Ha as <-. destruct (Hpick _ _ Hg) as (? & ? & ? & ?). by exists m.
Qed.

(** The identity a client starts with is one its server accepts: the address it
    declares is the address written to the device, is a valid session MAC in the
    canonical spelling, and derives, under a shared key, exactly the client identifier
    the server expects of it. *)
Theorem identity_accepted conf args_mac psk path fs rnd from_sys g2 w ok su :
  sc_psk conf = psk -> length rnd = 6%nat -> bytes_ok rnd ->
  (args_mac <> [] \/ cl_mac (load_client_state fs path) = [] \/ is_valid_session_mac (cl_mac (load_client_state fs path)) = true) ->
  start_identity args_mac psk path fs (generate_tap_mac rnd) from_sys g2 w ok = Ok su ->
  is_valid_session_mac (su_mac su) = true /\ parse_mac_key (su_mac su) = su_applied su /\
  canonical_mac (su_mac su) = Some (su_mac su) /\ su_client_id su = expected_client_id conf (default [] (canonical_mac (su_mac su))).
Proof.
  intros Hpsk Hl Hb Hc. unfold start_identity, result_bind. destruct (apply_mac _ _ _) as [applied|] eqn:Ea; [|done].
  destruct (chosen_mac _ _ _ _ from_sys g2 Ea Hc Hl Hb) as (m & -> & Hm & Hlm & Hu & Emac).
  destruct (match args_mac with [] => _ | _ => _ end) as [identity' fs']. intros [= <-]. cbn [su_mac su_applied su_client_id].
  rewrite Emac. pose proof (parse_format m Hm Hlm) as Hp. unfold is_valid_session_mac, canonical_mac, expected_client_id, derive_client_id.
  rewrite Hp. cbn. by rewrite Hpsk.
Qed.

(** The identity survives restarts: once a start without a configured address has
    saved its state, every later start finds the same address and client identifier,
    whatever is drawn or reported then. *)
Theorem identity_survives_restart `{!StateCodecLaws} psk path fs rnd from_sys g2 su rnd' from_sys' g2' w' ok' su' :
  path <> [] -> length rnd = 6%nat -> bytes_ok rnd ->
  cl_mac (load_client_state fs path) = [] \/ is_valid_session_mac (cl_mac (load_client_state fs path)) = true ->
  start_identity [] psk path fs (generate_tap_mac rnd) from_sys g2 WriteDone true = Ok su ->
  start_identity [] psk path (su_files su) rnd' from_sys' g2' w' ok' = Ok su' ->
  su_mac su' = su_mac su /\ su_client_id su' = su_client_id su /\ su_applied su' = su_applied su.
Proof.
  intros Hne Hl Hb Hc. unfold start_identity at 1, result_bind.
  destruct (apply_mac [] _ _) as [applied|] eqn:Ea; [|done].
  destruct (chosen_mac [] _ _ _ from_sys g2 Ea (or_intror Hc) Hl Hb) as (m & -> & Hm & Hlm & Hu & Emac).
  rewrite Emac. pose proof (parse_format m Hm Hlm) as Hp.
  assert (Hfm : format_mac m <> []) by (intros E; by rewrite E, parse_mac_nil in Hp).
  set (fs1 := if bool_decide (cl_mac (load_client_state fs path) = format_mac m) then fs
              else default fs (last (save_client_state fs path (with_mac (load_client_state fs path) (format_mac m)) WriteDone true).1)).
  assert (Hload : cl_mac (load_client_state fs1 path) = format_mac m).
  { unfold fs1. case_bool_decide as Ed; [done|]. by rewrite load_saved. }
  intros E1. assert (Esu : su_files su = fs1 /\ su_mac su = format_mac m /\ su_client_id su = derive_client_id (format_mac m) psk /\ su_applied su = Some m).
  { unfold fs1. clear -E1. case_bool_decide; injection E1 as <-; done. }
  destruct Esu as (-> & -> & -> & ->). unfold start_identity, result_bind. rewrite Hload.
  assert (Ha' : apply_mac [] (format_mac m) rnd' = Ok (Some m)).
  { unfold apply_mac. cbn [parse_config_mac]. destruct (format_mac m) as [|c s] eqn:Ef; [done|]. rewrite <-Ef in Hp |- *.
    by rewrite (proj2 (parse_config_spec (format_mac m) m)) by (split; [by rewrite Ef|done]). }
  rewrite Ha'. assert (Em' : actual_mac [] (format_mac m) (Some m) from_sys' g2' = format_mac m).
  { unfold actual_mac. destruct (format_mac m) eqn:Ef; [done|]. rewrite <-Ef in Hp |- *. by apply lower_is_canonical. }
  rewrite Em'. rewrite bool_decide_eq_true_2 by done. intros [= <-]. done.
Qed.
End IdentityFacts.

Definition demo_path : text := bytes_of_string "vpn.json.state".
Definition demo_random : list Z := [255; 1; 2; 3; 4; 5].
Lemma identity_accepted_witness :
  exists su, start_identity (bytes_of_string "02:AB:00:00:00:01") [7; 7] demo_path ∅ (generate_tap_mac demo_random) [] [] WriteDone true = Ok su /\
    su_mac su = bytes_of_string "02:ab:00:00:00:01" /\
    su_client_id su = expected_client_id demo_conf (default [] (canonical_mac (su_mac su))).
Proof.
  eexists. split; [vm_compute; reflexivity|]. split; [vm_compute; reflexivity|].
  apply (identity_accepted demo_conf (bytes_of_string "02:AB:00:00:00:01") [7; 7] demo_path ∅ demo_random [] [] WriteDone true).
  - reflexivity.
  - reflexivity.
  - repeat constructor; done.
  - by left.
  - vm_compute. reflexivity.
Defined.

(** The second process draws another address and does not use it. *)
Lemma identity_survives_restart_witness :
  exists su su', start_identity [] [7; 7] demo_path ∅ (generate_tap_mac demo_random) [] [] WriteDone true = Ok su /\
    start_identity [] [7; 7] demo_path (su_files su) (generate_tap_mac [0; 0; 0; 0; 0; 9]) [] [] WriteDone true = Ok su' /\
    su_mac su' = su_mac su /\ su_client_id su' = su_client_id su.
Proof.
  destruct (start_identity [] [7; 7] demo_path ∅ (generate_tap_mac demo_random) [] [] WriteDone true) as [su|] eqn:E1; [|vm_compute in E1; discriminate].
  destruct (start_identity [] [7; 7] demo_path (su_files su) (generate_tap_mac [0; 0; 0; 0; 0; 9]) [] [] WriteDone true) as [su'|] eqn:E2.
  - exists su, su'. split; [done|]. split; [done|].
    destruct (identity_survives_restart [7; 7] demo_path ∅ demo_random [] [] su (generate_tap_mac [0; 0; 0; 0; 0; 9]) [] [] WriteDone true su')
      as (Hm & Hi & _); [discriminate|reflexivity|repeat constructor; done|left; reflexivity|exact E1|exact E2|]. done.
  - exfalso. assert (E : Ok su = start_identity [] [7; 7] demo_path ∅ (generate_tap_mac demo_random) [] [] WriteDone true) by (symmetry; exact E1).
    vm_compute in E. injection E as ->. vm_compute in E2. discriminate.
Defined.

(** A persisted address that does not parse is reported as replaced, but it stays the
    declared one: the device gets another address, the file is not repaired, and no
    server accepts the client. *)
Example unusable_mac_is_kept :
  let fs := put ∅ demo_path (state_to_json (with_mac ClientState_default (bytes_of_string "zz"))) in
  match start_identity [] [7; 7] demo_path fs (generate_tap_mac demo_random) [] [] WriteDone true with
  | Ok su => su_mac su = bytes_of_string "zz" /\ su_applied su = None /\
      cl_mac (load_client_state (su_files su) demo_path) = bytes_of_string "zz" /\ is_valid_session_mac (su_mac su) = false
  | Err _ => False
  end.
Proof. vm_compute. repeat (split; [reflexivity|]). reflexivity. Qed.
