(* ===== verification/Handshake.v ===== *)
(** * The handshake as a whole: the client of [Client] against the server of [Session]

    Both ends derive the keys of an epoch from the salts of the response.  The
    theorems here run the two halves against each other, and show what a client does
    with its shared state when the server starts a new epoch. *)
From S2P Require Import Prelude Protocol Utils Crypto Xor Fec Buffer Reorder RxActor Adaptive Queue Port PortSpec VSwitch Pool Brutal PeerInfo Session SessionSpec SessionGuard FecKeys Hooks Client ClientSpec.

(** ** The parity ciphers of the client *)

Section ClientFec.
Context `{FrameChannel} `{CryptoPrims} `{HexCodec} `{StateCodec}.
Context (conf : ClientConf).

(** Whether FEC is in use after an answer, and whether the answer makes the client
    build its FEC state anew. *)
Definition client_fec_on (cl : Client) (resp : HandshakeResp) : bool := use_xor_fec conf (negotiate_fec conf cl resp).
Definition client_rebuilds (cl : Client) (keys : link_keys) (resp : HandshakeResp) : bool :=
  client_fec_on cl resp && rebuild_needed cl (lk_algo keys) (rs_enc_salt resp).

Definition client_fec_tx (cl : Client) : option (option InnerCipher) := port_fec_key (ct_tx_port cl).
Definition client_fec_rx (cl : Client) : option (option InnerCipher) :=
  match ct_rx_actor cl with
  | Some a => actor_fec_key a
  | None => fd_ic <$> ct_fec_dec cl
  end.

(** New FEC state carries the parity keys of the connection. *)
Lemma rebuilt_fec_keys cl keys resp w ok (cl' := apply_session conf cl keys resp w ok) :
  client_rebuilds cl keys resp = true -> FEC_MIN_GROUP <= ss_fec_negotiated (ct_session cl') ->
  client_fec_tx cl' = Some (lk_fec_tx keys) /\ client_fec_rx cl' = Some (lk_fec_rx keys).
Proof.
  unfold client_rebuilds. intros [Hf Hr]%andb_true_iff.
  assert (Hr' : rebuild_needed (negotiate_fec conf cl resp) (lk_algo keys) (rs_enc_salt resp) = true).
  { rewrite <-Hr. unfold rebuild_needed, negotiate_fec. destruct (_ && _); [|done]. cbn. by destruct (_ <=? _). }
  unfold cl', apply_session. fold (client_fec_on cl resp). rewrite Hf, Hr'. cbn [andb negb orb]. rewrite andb_false_r. cbn [orb].
  destruct (persist_session_state _ _ _ _ _ _ _ _) as [identity fs].
  unfold client_fec_tx, client_fec_rx, port_fec_key, actor_fec_key, rebuild_fec. set (cl0 := negotiate_fec conf cl resp).
  destruct (ct_rx_actor cl0) as [a|] eqn:Ea; cbn [ct_set ct_rx_actor ct_set_rx ct_tx_port ct_session ct_fec_dec adopt ss_set_fec ss_fec_negotiated]; rewrite ?Ea.
  - cbn [ct_set_rx ct_session ct_rx_actor ct_tx_port adopt ss_fec_negotiated]. cbn. intros Hk.
    unfold reset_epoch. rewrite (proj2 (Z.leb_le _ _) Hk). cbn. split; [done|].
    unfold reconfigure. by destruct (match ra_fec a with Some _ => _ | None => _ end).
  - destruct (match ct_fec_dec cl0 with Some _ => _ | None => _ end) as [r l]. cbn [ct_set ct_rx_actor ct_session ct_tx_port ct_fec_dec].
    rewrite ?Ea. destruct (is_new_session _ _); cbn; rewrite ?Ea; intros Hk; unfold reset_epoch; rewrite (proj2 (Z.leb_le _ _) Hk); cbn; done.
Qed.
End ClientFec.

(** ** The keys of every session derive from its salts *)

Section Keys.
Context `{FrameChannel} `{CryptoPrims} `{HexLaws} `{UuidLib} `{BrutalSocketOps} `{StateCodec}.
Context (v6 : family) (conf : ServerConf).

Definition salt_ok (s : list Z) : Prop := length s = ENC_SALT_SIZE /\ bytes_ok s.
Definition salts_ok (en : entropy) : Prop := salt_ok (en_salt_a en) /\ salt_ok (en_salt_b en).
Definition session_algo : Z := if sc_encrypt conf then sc_enc_algo conf else ENC_ALGO_NONE.
(** The server receives under salt A and sends under salt B. *)
Definition keys_ok (e : SessionEpochState) : Prop :=
  es_enc_algo e = session_algo /\ salt_ok (es_salt_a e) /\ salt_ok (es_salt_b e) /\
  exists ci, make_ciphers conf (es_salt_a e) (es_salt_b e) session_algo = Ok ci /\ es_ic_tx e = ec_tx ci /\ es_ic_rx e = ec_rx ci.
(** Configuration checks: an encrypting server has one of the AEAD algorithms. *)
Definition conf_ok : Prop := sc_encrypt conf = true -> is_inner_aead_algo (sc_enc_algo conf) = true.

Lemma domain_for_algo_total psk salt d algo :
  length salt = ENC_SALT_SIZE -> d = DOMAIN_DATA \/ d = DOMAIN_FEC -> is_inner_aead_algo algo = true ->
  exists c, domain_for_algo psk salt d algo = Ok c.
Proof.
  intros Hl Hd Ha. unfold domain_for_algo. rewrite Hl, Nat.eqb_refl. cbn [negb].
  assert (negb (bool_decide (d = DOMAIN_DATA)) && negb (bool_decide (d = DOMAIN_FEC)) = false) as ->
    by (destruct Hd as [->| ->]; vm_compute; done).
  unfold is_inner_aead_algo, is_gcm_algo in Ha. unfold base_label.
  destruct (algo =? ENC_ALGO_GCM), (algo =? ENC_ALGO_GCM128), (algo =? ENC_ALGO_CHACHA20), (algo =? ENC_ALGO_XCHACHA20);
    cbn in *; try done; by eexists.
Qed.

Lemma make_ciphers_total sa sb :
  conf_ok -> salt_ok sa -> salt_ok sb -> exists ci, make_ciphers conf sa sb session_algo = Ok ci.
Proof.
  intros Hc [Ha _] [Hb _]. unfold make_ciphers, session_algo. destruct (sc_encrypt conf) eqn:E; [|by eexists].
  assert (Hal : is_inner_aead_algo (sc_enc_algo conf) = true) by by apply Hc.
  destruct (domain_for_algo_total (sc_psk conf) sb DOMAIN_DATA (sc_enc_algo conf) Hb (or_introl eq_refl) Hal) as [c1 E1].
  destruct (domain_for_algo_total (sc_psk conf) sa DOMAIN_DATA (sc_enc_algo conf) Ha (or_introl eq_refl) Hal) as [c2 E2].
  destruct (domain_for_algo_total (sc_psk conf) sb DOMAIN_FEC (sc_enc_algo conf) Hb (or_intror eq_refl) Hal) as [c3 E3].
  destruct (domain_for_algo_total (sc_psk conf) sa DOMAIN_FEC (sc_enc_algo conf) Ha (or_intror eq_refl) Hal) as [c4 E4].
  unfold for_algo. rewrite E1, E2, E3, E4. by eexists.
Qed.

Lemma rotate_keys s inst sa sb s' :
  es_enc_algo (cs_epoch_state s) = session_algo -> salt_ok sa -> salt_ok sb ->
  rotate_session_epoch conf s inst sa sb = Ok s' -> keys_ok (cs_epoch_state s').
Proof.
  intros He Ha Hb. unfold rotate_session_epoch. rewrite He.
  destruct (make_ciphers conf sa sb session_algo) as [ci|] eqn:E; [|done]. cbn [result_bind]. intros [= <-].
  unfold keys_ok. cbn. split; [done|]. split; [done|]. split; [done|]. by exists ci.
Qed.

Lemma keys_frame e e' : same_secrets e e' -> keys_ok e -> keys_ok e'.
Proof. intros (_ & Ea & Es & Es2 & Et & Er). unfold keys_ok. by rewrite Ea, Es, Es2, Et, Er. Qed.
Lemma keys_tokens e cur pend : keys_ok e -> keys_ok (es_set_tokens e cur pend).
Proof. done. Qed.

Lemma accept_keys e t : keys_ok e -> keys_ok (accept_session_resume_token e t).1.
Proof.
  intros He. unfold accept_session_resume_token. case_match; [done|]. case_match; [|done]. by apply keys_tokens.
Qed.
Lemma resume_keys s rq en : keys_ok (cs_epoch_state s) -> salts_ok en -> keys_ok (cs_epoch_state (resume_epoch conf s rq en).1).
Proof.
  intros Hs [Ha Hb]. unfold resume_epoch. case_match; [|case_match; [by apply keys_tokens|done]].
  pose proof (accept_keys (cs_epoch_state s) (rq_session_token rq) Hs) as Hacc.
  destruct (accept_session_resume_token _ _) as [e valid]. cbn in Hacc. destruct valid; cbn [negb]; [|done].
  destruct (rotate_session_epoch _ _ _ _ _) as [s1|] eqn:Er; [|done].
  apply rotate_keys in Er; [|by destruct Hacc|done..].
  unfold ensure_pending_resume_token. destruct (is_nil _); [|done]. destruct (en_token en); [by apply keys_tokens|done].
Qed.
Lemma build_keys rq en ips token : conf_ok -> salts_ok en -> keys_ok (cs_epoch_state (build_session conf rq en ips token)).
Proof.
  intros Hc [Ha Hb]. destruct (make_ciphers_total _ _ Hc Ha Hb) as [ci E]. unfold build_session.
  fold session_algo. rewrite E. cbn [expect_ciphers]. destruct (is_inner_aead_algo session_algo); cbn; (split; [done|]); (split; [done|]); (split; [done|]); by exists ci.
Qed.

Definition op_salts (op : server_op) : Prop := match op with OHandshake _ _ en _ _ _ => salts_ok en | _ => True end.
Lemma run_keys ops st :
  conf_ok -> Forall op_salts ops -> heap_all keys_ok (sr_core st) -> heap_all keys_ok (sr_core (server_run v6 conf st ops)).
Proof.
  intros Hc Hops. apply (run_all_epochs v6 conf keys_ok (fun _ => True) salts_ok).
  - apply keys_frame.
  - intros. by apply resume_keys.
  - intros. by apply build_keys.
  - eapply Forall_impl; [exact Hops|]. intros []; cbn; try done.
Qed.

(** ** The parity ciphers of a session derive from its salts *)

Definition session_fec_tx (s : ClientSession) : option (option InnerCipher) := port_fec_key (cs_port s).
Definition session_fec_rx (s : ClientSession) : option (option InnerCipher) :=
  match cs_rx_actor s with
  | Some a => actor_fec_key a
  | None => fd_ic <$> es_fec_dec (cs_epoch_state s)
  end.
(** With FEC on, the encoder and the decoder in use hold the FEC pair of the epoch. *)
Definition fec_keys_ok (s : ClientSession) : Prop :=
  let e := cs_epoch_state s in
  FEC_MIN_GROUP <= cs_fec_enc_k s ->
  exists ci, make_ciphers conf (es_salt_a e) (es_salt_b e) (es_enc_algo e) = Ok ci /\
    session_fec_tx s = Some (ec_fec_tx ci) /\ session_fec_rx s = Some (ec_fec_rx ci).

Record same_fec (s s' : ClientSession) : Prop := {
  sf_k : cs_fec_enc_k s' = cs_fec_enc_k s;
  sf_tx : session_fec_tx s' = session_fec_tx s;
  sf_rx : session_fec_rx s' = session_fec_rx s;
  sf_algo : es_enc_algo (cs_epoch_state s') = es_enc_algo (cs_epoch_state s);
  sf_a : es_salt_a (cs_epoch_state s') = es_salt_a (cs_epoch_state s);
  sf_b : es_salt_b (cs_epoch_state s') = es_salt_b (cs_epoch_state s) }.
Lemma fec_keys_same s s' : same_fec s s' -> fec_keys_ok s -> fec_keys_ok s'.
Proof. intros [Ek Et Er Ea E1 E2] Hs. unfold fec_keys_ok. by rewrite Ek, Et, Er, Ea, E1, E2. Qed.
Lemma same_fec_trans a b c : same_fec a b -> same_fec b c -> same_fec a c.
Proof. intros [] []. split; congruence. Qed.

Lemma rotate_fec s inst sa sb s' : rotate_session_epoch conf s inst sa sb = Ok s' -> fec_keys_ok s'.
Proof.
  unfold rotate_session_epoch. destruct (make_ciphers conf sa sb _) as [ci|] eqn:E; [|done]. cbn [result_bind]. intros [= <-].
  unfold fec_keys_ok, FEC_MIN_GROUP, session_fec_tx, session_fec_rx, port_fec_key, actor_fec_key, reset_rx. cbn.
  destruct (cs_rx_actor s) as [a|]; cbn; intros Hk; exists ci; (split; [done|]);
    (destruct (Z.ltb_spec 0 (cs_fec_enc_k s)); [|lia]); unfold reset_epoch; cbn;
    (destruct (Z.leb_spec FEC_MIN_GROUP (cs_fec_enc_k s)) as [|Hx]; [|unfold FEC_MIN_GROUP in Hx; lia]); cbn; (split; [done|]).
  - unfold reconfigure. by destruct (match ra_fec a with Some _ => _ | None => _ end).
  - done.
Qed.
Lemma resume_fec s rq en : fec_keys_ok s -> fec_keys_ok (resume_epoch conf s rq en).1.
Proof.
  intros Hs. assert (Htok : forall s c p, fec_keys_ok s -> fec_keys_ok (cs_set_epoch s (es_set_tokens (cs_epoch_state s) c p))).
  { intros s0 c p. apply fec_keys_same. by split. }
  unfold resume_epoch. case_match; [|case_match; [by apply Htok|done]].
  assert (Hacc : fec_keys_ok (cs_set_epoch s (accept_session_resume_token (cs_epoch_state s) (rq_session_token rq)).1)).
  { unfold accept_session_resume_token. destruct (verify_random_session_token _ _); [|destruct (pending_matches _ _); [by apply Htok|]];
      (apply (fec_keys_same s); [by split|done]). }
  destruct (accept_session_resume_token _ _) as [e valid]. cbn [fst] in Hacc. destruct valid; cbn [negb]; [|done].
  destruct (rotate_session_epoch _ _ _ _ _) as [s1|] eqn:Er; [|done]. apply rotate_fec in Er.
  unfold ensure_pending_resume_token. destruct (is_nil _); [destruct (en_token en); [by apply Htok|done]|].
  apply (fec_keys_same s1); [by split|done].
Qed.
Lemma revive_fec s rq en : fec_keys_ok s -> fec_keys_ok (revive_session conf s rq en).1.
Proof.
  intros Hs. unfold revive_session. case_match; [done|]. case_match; [done|]. pose proof (resume_fec s rq en Hs) as Hr.
  destruct (resume_epoch conf s rq en) as [s1 [o|]]; [done|]. cbn [fst] in Hr.
  case_match; cbn [fst]; (apply (fec_keys_same s1); [by split|done]).
Qed.
Lemma build_fec rq en ips token : conf_ok -> salts_ok en -> fec_keys_ok (build_session conf rq en ips token).
Proof.
  intros Hc [Ha Hb]. destruct (make_ciphers_total _ _ Hc Ha Hb) as [ci E]. unfold build_session.
  fold session_algo. rewrite E. cbn [expect_ciphers].
  assert (Hpair : (if is_inner_aead_algo session_algo then (ec_fec_tx ci, ec_fec_rx ci) else (None, None)) = (ec_fec_tx ci, ec_fec_rx ci)).
  { unfold session_algo in *. unfold make_ciphers in E. destruct (sc_encrypt conf) eqn:Ee; [by rewrite (Hc Ee)|].
    injection E as <-. by destruct (is_inner_aead_algo _). }
  rewrite Hpair. unfold fec_keys_ok, FEC_MIN_GROUP, session_fec_tx, session_fec_rx, port_fec_key, actor_fec_key. cbn. intros Hk. exists ci.
  split; [done|]. destruct (Z.ltb_spec 0 (if rq_fec rq then rq_fec_group rq else 0)); [|lia]. cbn. split; [done|].
  by destruct (1 <? rq_brutal_conns rq).
Qed.

Lemma attach_same_fec s rq b stx ctx : same_fec s (attach_session s rq b stx ctx).
Proof.
  unfold attach_session. split; cbn; destruct (cs_rx_actor s) as [a|] eqn:Ea, (es_fec_dec (cs_epoch_state s)) as [d|] eqn:Ed; cbn;
    try done; unfold session_fec_rx; cbn; rewrite ?Ea, ?Ed; cbn; try done.
  unfold set_static_single_path, reset_state_preserve_static. cbn. by destruct (fd_static_single d).
Qed.
Lemma close_same_fec s b e applied now : same_fec s (close_session s b e applied now).
Proof. unfold close_session. repeat case_match; by split. Qed.
Lemma retire_same_fec s fresh : same_fec s (retire_epoch s fresh).
Proof. unfold retire_epoch. case_match; by split. Qed.

(** *** Runs *)

Definition sessions_fec (c : ServerCore) : Prop := forall r s, sv_heap c !! r = Some s -> fec_keys_ok s.
Lemma sessions_fec_put c r s : sessions_fec c -> fec_keys_ok s -> sessions_fec (sv_put c r s).
Proof.
  intros Hc Hs r' s'. cbn. destruct (decide (r' = r)) as [->|]; [rewrite lookup_insert_eq; by intros [= <-]|].
  rewrite lookup_insert_ne by done. apply Hc.
Qed.
Lemma attach_fec c ms r s rq wo c' ms' o resp :
  attach conf c ms r s rq wo = (c', ms', o, resp) -> exists s', c' = sv_put c r s' /\ same_fec s s'.
Proof.
  unfold attach. destruct (negotiate_brutal conf rq) as [[stx ctx] leg].
  pose proof (attach_same_fec s rq (be_set_rtt (ms_tx_backend ms) 50000) stx ctx) as Hs.
  set (s1 := attach_session _ _ _ _ _) in *. clearbody s1. destruct wo; cbn [negb].
  - destruct (if _ && _ then _ else _) as [sock res]. intros [= <- <- <- <-]. eexists. split; [reflexivity|].
    eapply same_fec_trans; [exact Hs|]. by split.
  - intros [= <- <- <- <-]. by eexists.
Qed.
Lemma handshake_fec c ms req en nu now wo :
  conf_ok -> sessions_fec c -> salts_ok en -> sessions_fec (handle_handshake v6 conf c ms req en nu now wo).1.1.1.
Proof.
  intros Hconf Hc Hen. unfold handle_handshake. destruct req as [rq|]; [|done].
  destruct (check_request conf rq); [done|]. destruct (is_banned _ _ _) as [b [|]]; [done|]. cbn [sv_set_banned sv_sessions sv_heap].
  assert (Hatt : forall c0 ms0 r s, sessions_fec c0 -> fec_keys_ok s -> sessions_fec (attach conf c0 ms0 r s rq wo).1.1.1).
  { intros c0 ms0 r s H0' Hs. destruct (attach conf c0 ms0 r s rq wo) as [[[c' ms'] o] resp] eqn:E.
    apply attach_fec in E as (s' & -> & Hst). apply sessions_fec_put; [done|]. by eapply fec_keys_same. }
  destruct (sv_sessions c !! rq_client_id rq) as [r|].
  - destruct (sv_heap c !! r) as [s|] eqn:Hs; [|done].
    pose proof (revive_fec s rq en (Hc r s Hs)) as Ht1.
    destruct (revive_session conf s rq en) as [s1 [o|]]; [by apply sessions_fec_put|]. apply Hatt; [by apply sessions_fec_put|done].
  - assert (Hcr : sessions_fec (create_session v6 conf (sv_set_banned c b) rq en now).1).
    { unfold create_session. case_match; [done|]. destruct (bound_request _ _ _ _) as [req4 req6].
      destruct (assign_addresses _ _ _ _) as [p [ips|]]; [|done]. case_match; [|done]. cbn. intros r s. cbn.
      destruct (decide (r = sv_next c)) as [->|]; [|rewrite lookup_insert_ne by done; apply Hc].
      rewrite lookup_insert_eq. intros [= <-]. by apply build_fec. }
    destruct (create_session _ _ _ _ _ _) as [c1 [r|o]]; [|done]. cbn [fst] in Hcr.
    destruct (sv_heap c1 !! r) as [s|] eqn:Hs; [|done]. apply Hatt; [done|by eapply Hcr].
Qed.

(** The data path replaces the port and the receive state of a session, not their
    parity ciphers ([port_run_keeps_key], [rx_step_keeps_key]). *)
Definition traffic_keeps (st : server) (op : server_op) : Prop :=
  match op with
  | OTraffic r port rb dd actor dec =>
      forall s, sv_heap (sr_core st) !! r = Some s ->
        session_fec_tx (cs_traffic s port rb dd actor dec) = session_fec_tx s /\
        session_fec_rx (cs_traffic s port rb dd actor dec) = session_fec_rx s
  | _ => True
  end.
Fixpoint traffic_run (st : server) (ops : list server_op) : Prop :=
  match ops with
  | [] => True
  | op :: ops' => traffic_keeps st op /\ traffic_run (server_step v6 conf st op) ops'
  end.

Lemma destroy_fec c r : sessions_fec c -> sessions_fec (destroy_session c r).
Proof. intros Hc r' s. destruct (destroy_spec c r) as (-> & _). apply Hc. Qed.
Lemma kick_fec c r : sessions_fec c -> sessions_fec (kick_ref c r).
Proof.
  intros Hc. unfold kick_ref. destruct (sv_heap c !! r) as [s|] eqn:Hs; [|done]. apply destroy_fec, sessions_fec_put; [done|].
  apply (fec_keys_same s); [by split|by eapply (Hc r s)].
Qed.
Lemma close_fec st k now : sessions_fec (sr_core st) -> sessions_fec (sr_core (close_conn st k now)).
Proof.
  intros Hc. unfold close_conn. destruct (sr_conns st !! k) as [ms|]; [|done]. cbn. unfold on_conn_closed.
  destruct (ms_client_session ms) as [r|]; [|done]. destruct (sv_heap (sr_core st) !! r) as [s|] eqn:Hs; [|done].
  apply sessions_fec_put; [done|]. eapply fec_keys_same; [apply close_same_fec|by eapply (Hc r s)].
Qed.
Lemma step_fec st op :
  conf_ok -> op_salts op -> traffic_keeps st op -> sessions_fec (sr_core st) -> sessions_fec (sr_core (server_step v6 conf st op)).
Proof.
  intros Hconf Hop Htr Hc. destruct op as [k ms|k req en nu now wo|k fresh|k now|now|nu a|r port rb dd actor dec|src reg frame now]; cbn [server_step].
  - by case_decide.
  - destruct (sr_conns st !! k) as [ms|]; [|done]. destruct (ms_handshake_done ms); [done|].
    pose proof (handshake_fec (sr_core st) ms req en nu now wo Hconf Hc Hop) as Hh.
    destruct (handle_handshake _ _ _ _ _ _ _ _ _) as [[[c' ms'] []] resp]; [done|by apply close_fec..].
  - destruct (sr_conns st !! k) as [ms|]; [|done]. unfold sweep_conn. destruct (ms_client_session ms) as [r|]; [|done].
    destruct (sv_heap (sr_core st) !! r) as [s|] eqn:Hs; [|done]. destruct (po_sequence_exhausted _); [|done].
    cbn. apply sessions_fec_put; [done|]. eapply fec_keys_same; [apply retire_same_fec|by eapply (Hc r s)].
  - by apply close_fec.
  - cbn. unfold reap. apply (fold_ok _ sessions_fec); [|done]. intros. by apply destroy_fec.
  - destruct a; cbn; unfold kick.
    + case_match; [by apply kick_fec|done].
    + destruct (ban _ _ _ _) as [b []]; [|done]. case_match; [by apply kick_fec|done].
    + done.
    + unfold kick_all. apply (fold_ok _ sessions_fec); [|done]. intros. by apply kick_fec.
  - destruct (sv_heap (sr_core st) !! r) as [s|] eqn:Hs; [|done]. cbn. apply sessions_fec_put; [done|].
    destruct (Htr s Hs). apply (fec_keys_same s); [by split|by eapply (Hc r s)].
  - done.
Qed.
Lemma run_fec ops : forall st,
  conf_ok -> Forall op_salts ops -> traffic_run st ops -> sessions_fec (sr_core st) -> sessions_fec (sr_core (server_run v6 conf st ops)).
Proof.
  induction ops as [|op ops IH]; intros st Hc Ho Ht Hs; [done|]. apply Forall_cons in Ho as [Hop Ho]. destruct Ht as [Ht1 Ht].
  cbn [server_run foldl]. apply IH; [done|done|done|]. by apply step_fec.
Qed.

(** ** The answer to a handshake *)

(** What the server says, and what it keeps for connection and session. *)
Record answered (ms : MioSession) (resp : HandshakeResp) (s : ClientSession) : Prop := {
  an_ic_rx : ms_ic_rx ms = es_ic_rx (cs_epoch_state s);
  an_conn_epoch : ms_session_epoch ms = es_epoch (cs_epoch_state s);
  an_epoch : rs_session_epoch resp = es_epoch (cs_epoch_state s);
  an_version : rs_protocol_version resp = PROTOCOL_VERSION;
  an_encrypt : rs_encrypt resp = sc_encrypt conf;
  an_algo : rs_enc_algo resp = es_enc_algo (cs_epoch_state s);
  an_salts : (rs_enc_salt resp, rs_enc_salt2 resp) =
    response_enc_salts (es_enc_algo (cs_epoch_state s)) (es_salt_a (cs_epoch_state s)) (es_salt_b (cs_epoch_state s)) }.

Lemma attach_answer c ms r s rq wo c' ms' o resp :
  attach conf c ms r s rq wo = (c', ms', o, Some resp) ->
  exists s', sv_heap c' !! r = Some s' /\ ms_client_session ms' = Some r /\ same_secrets (cs_epoch_state s) (cs_epoch_state s') /\
    answered ms' resp s'.
Proof.
  unfold attach. destruct (negotiate_brutal conf rq) as [[stx ctx] leg].
  set (s1 := attach_session _ _ _ _ _). assert (Ht : same_secrets (cs_epoch_state s) (cs_epoch_state s1)).
  { unfold s1, attach_session. cbn. by destruct (cs_rx_actor s), (es_fec_dec (cs_epoch_state s)). }
  clearbody s1. destruct wo; cbn [negb]; [|done].
  destruct (if _ && _ then _ else _) as [sock res]. intros [= <- <- <- <-].
  eexists. split; [apply lookup_insert_eq|]. split; [done|]. split; [exact Ht|].
  unfold make_response. cbn [cs_epoch_state cs_set_brutal].
  destruct (response_enc_salts _ _ _) eqn:Es. by split.
Qed.

Lemma accepted_answer c ms rq en nu now wo c' ms' resp :
  conf_ok -> heap_all keys_ok c -> salts_ok en ->
  handle_handshake v6 conf c ms (Some rq) en nu now wo = (c', ms', HOk, Some resp) ->
  check_request conf rq = None /\
  exists r s', sv_heap c' !! r = Some s' /\ ms_client_session ms' = Some r /\ keys_ok (cs_epoch_state s') /\ answered ms' resp s'.
Proof.
  intros Hc Hk Hen. unfold handle_handshake. destruct (check_request conf rq) eqn:Eq; [done|].
  destruct (is_banned _ _ _) as [b [|]]; [done|]. cbn [sv_set_banned sv_sessions sv_heap].
  assert (Hfin : forall c0 ms0 r s, keys_ok (cs_epoch_state s) -> attach conf c0 ms0 r s rq wo = (c', ms', HOk, Some resp) ->
    exists r s', sv_heap c' !! r = Some s' /\ ms_client_session ms' = Some r /\ keys_ok (cs_epoch_state s') /\ answered ms' resp s').
  { intros c0 ms0 r s Hs E. apply attach_answer in E as (s' & Hs' & Hms & Hsec & Hrest). exists r, s'.
    split; [done|]. split; [done|]. split; [by eapply keys_frame|done]. }
  destruct (sv_sessions c !! rq_client_id rq) as [r|].
  - destruct (sv_heap c !! r) as [s|] eqn:Hs; [|done].
    pose proof (revive_all conf keys_ok (fun _ => True) salts_ok (fun s rq en Hs _ He => resume_keys s rq en Hs He) s rq en (Hk r s Hs) I Hen) as Hr.
    destruct (revive_session conf s rq en) as [s1 [o|]]; [done|]. intros E. split; [done|]. by eapply Hfin.
  - pose proof (create_all v6 conf keys_ok (fun _ => True) salts_ok (fun rq en ips t _ He _ => build_keys rq en ips t Hc He) (sv_set_banned c b) rq en now Hk I Hen) as Hcr.
    destruct (create_session _ _ _ _ _ _) as [c1 [r|o]]; [|done]. cbn in Hcr.
    destruct (sv_heap c1 !! r) as [s|] eqn:Hs; [|done]. intros E. split; [done|]. eapply Hfin; [by eapply Hcr|exact E].
Qed.

Lemma request_agrees rq :
  check_request conf rq = None -> rq_encrypt rq = sc_encrypt conf /\ (sc_encrypt conf = true -> rq_enc_algo rq = sc_enc_algo conf).
Proof.
  unfold check_request. destruct (check_credentials conf rq) eqn:E; [done|]. intros _. revert E. unfold check_credentials.
  case_match; [done|]. destruct (Bool.eqb_spec (rq_encrypt rq) (sc_encrypt conf)) as [Ee|]; [|done]. cbn [negb].
  case_match; [done|]. destruct (sc_encrypt conf && negb (rq_enc_algo rq =? sc_enc_algo conf)) eqn:Eb; [done|]. intros _.
  split; [done|]. intros Henc. rewrite Henc in Eb. by destruct (Z.eqb_spec (rq_enc_algo rq) (sc_enc_algo conf)).
Qed.

(** The client's keys for the answer of an accepted session. *)
Lemma client_keys (cc : ClientConf) ms resp s ci :
  cc_psk cc = sc_psk conf -> cc_encrypt cc = sc_encrypt conf -> (sc_encrypt conf = true -> cc_enc_algo cc = sc_enc_algo conf) ->
  (0 < cc_min_enc cc -> cc_encrypt cc = true) -> conf_ok -> answered ms resp s ->
  es_enc_algo (cs_epoch_state s) = session_algo -> salt_ok (es_salt_a (cs_epoch_state s)) -> salt_ok (es_salt_b (cs_epoch_state s)) ->
  make_ciphers conf (es_salt_a (cs_epoch_state s)) (es_salt_b (cs_epoch_state s)) session_algo = Ok ci ->
  check_response cc resp =
    Ok {| lk_algo := session_algo; lk_ic_tx := ec_rx ci; lk_ic_rx := ec_tx ci; lk_fec_tx := ec_fec_rx ci; lk_fec_rx := ec_fec_tx ci |}.
Proof.
  intros Hpsk Henc Halg Hmin Hconf [_ _ _ Hv He Ha Hs] Hal [Hla Hba] [Hlb Hbb] Hci. unfold check_response.
  rewrite Hv, Z.eqb_refl, He, Henc, Bool.eqb_reflx. cbn [negb]. unfold derive_keys. rewrite Ha, Hal, Henc.
  unfold make_ciphers, session_algo, conf_ok in *. destruct (sc_encrypt conf) eqn:E.
  - rewrite Halg, Z.eqb_refl by done. cbn [negb]. rewrite Hal in Hs. unfold response_enc_salts in Hs.
    rewrite (Hconf eq_refl) in Hs. cbn [negb] in Hs. injection Hs as Hs1 Hs2. unfold decode_salts.
    rewrite Hs1, Hs2, !hex_roundtrip, Hla, Hlb, Nat.eqb_refl by done. cbn [andb]. rewrite Hpsk. revert Hci. unfold result_bind.
    destruct (for_algo (sc_psk conf) (es_salt_b _) _) as [tx|]; [|done]. destruct (for_algo (sc_psk conf) (es_salt_a _) _) as [rx|]; [|done].
    destruct (domain_for_algo _ (es_salt_b _) DOMAIN_FEC _) as [ftx|]; [|done]. destruct (domain_for_algo _ (es_salt_a _) DOMAIN_FEC _) as [frx|]; [|done].
    intros [= <-]. cbn [lk_algo result_ok ec_tx ec_rx ec_fec_tx ec_fec_rx]. by rewrite (Hconf eq_refl), andb_false_r.
  - injection Hci as <-. cbn. destruct (Z.ltb_spec 0 (cc_min_enc cc)); [|done]. rewrite Hmin in Henc by done. done.
Qed.

(** C7: after every successful handshake the two ends hold the same keys.  In every
    state the server can reach by operations whose traffic leaves the parity ciphers in
    place (as the data path does: [port_run_keeps_key], [rx_step_keeps_key],
    [decoder_keeps_key]), with salts of the right size from the random source, a client with the same pre-shared key whose request is
    accepted accepts the answer; the key it sends with is the key the connection
    receives with and the key it receives with is the session's sending key, so a
    payload sealed at one end opens at the other.  With FEC on, the cipher in the
    session's decoder is the client's parity sending key and the cipher in the encoder
    of the session's port is the client's parity receiving key; and when the answer
    makes the client build its FEC state anew, the encoder and the decoder it installs
    hold these same ciphers crosswise. *)
Theorem handshake_keys_agree `{!CryptoLaws} v4cidr v6cidr ops (cc : ClientConf) cl inst conn_id idx peer ms en nu now wo c' ms' resp :
  conf_ok -> Forall op_salts ops -> traffic_run (server_new v6 v4cidr v6cidr) ops -> salts_ok en ->
  cc_psk cc = sc_psk conf -> (0 < cc_min_enc cc -> cc_encrypt cc = true) ->
  let c := sr_core (server_run v6 conf (server_new v6 v4cidr v6cidr) ops) in
  handle_handshake v6 conf c ms (Some (build_request cc cl inst conn_id idx peer)) en nu now wo = (c', ms', HOk, Some resp) ->
  exists keys r s, check_response cc resp = Ok keys /\ ms_client_session ms' = Some r /\ sv_heap c' !! r = Some s /\
    lk_ic_tx keys = ms_ic_rx ms' /\ lk_ic_rx keys = es_ic_tx (cs_epoch_state s) /\ rs_session_epoch resp = ms_session_epoch ms' /\
    (FEC_MIN_GROUP <= cs_fec_enc_k s ->
     session_fec_rx s = Some (lk_fec_tx keys) /\ session_fec_tx s = Some (lk_fec_rx keys) /\
     forall w ok, let cl' := apply_session cc cl keys resp w ok in
       client_rebuilds cc cl keys resp = true -> FEC_MIN_GROUP <= ss_fec_negotiated (ct_session cl') ->
       client_fec_tx cl' = session_fec_rx s /\ client_fec_rx cl' = session_fec_tx s) /\
    forall ic pt seq wl, lk_ic_tx keys = Some ic -> pt <> [] ->
      exists ic', ms_ic_rx ms' = Some ic' /\
        open_in_place ic' (seal_in_place ic (pt ++ replicate GCM_TAG_SIZE 0) (length pt) seq wl) seq wl = Some pt.
Proof.
  intros Hconf Hops Htr Hen Hpsk Hmin c E.
  assert (Hk : heap_all keys_ok c) by (apply run_keys; [done|done|by intros ??]).
  assert (Hf : sessions_fec c) by (apply run_fec; [done..|by intros ??]).
  pose proof (handshake_fec c ms (Some (build_request cc cl inst conn_id idx peer)) en nu now wo Hconf Hf Hen) as Hf'.
  rewrite E in Hf'. cbn [fst] in Hf'.
  destruct (accepted_answer _ _ _ _ _ _ _ _ _ _ Hconf Hk Hen E) as (Hchk & r & s & Hs & Hms & (Hal & Ha & Hb & ci & Hci & Htx & Hrx) & Han).
  destruct (request_agrees _ Hchk) as [Henc Halg]. cbn in Henc, Halg. specialize (Hf' r s Hs). unfold fec_keys_ok in Hf'. rewrite Hal in Hf'.
  exists {| lk_algo := session_algo; lk_ic_tx := ec_rx ci; lk_ic_rx := ec_tx ci; lk_fec_tx := ec_fec_rx ci; lk_fec_rx := ec_fec_tx ci |}, r, s.
  split. { eapply client_keys; try done. rewrite Henc in Halg. intros Hy. rewrite Hy in Halg. by apply Halg. }
  cbn [lk_ic_tx lk_ic_rx lk_fec_tx lk_fec_rx]. split_and!; try done; try (by rewrite (an_ic_rx _ _ _ Han)).
  - by rewrite (an_epoch _ _ _ Han), (an_conn_epoch _ _ _ Han).
  - intros Hkk. destruct (Hf' Hkk) as (ci' & Hci' & -> & ->). rewrite Hci in Hci'. injection Hci' as <-.
    split; [done|]. split; [done|]. intros w ok Hre Hneg. by apply rebuilt_fec_keys.
  - intros ic pt seq wl Eic Hpt. exists ic. split; [by rewrite (an_ic_rx _ _ _ Han), Hrx|by apply open_in_place_seal].
Qed.
End Keys.

(** ** A client and a server that agree *)

Definition pair_conf : ServerConf :=
  {| sc_psk := [7; 7]; sc_psk_hash := hash_psk [7; 7]; sc_encrypt := true; sc_enc_algo := ENC_ALGO_CHACHA20; sc_min_enc := 0;
     sc_brutal := false; sc_brutal_up := 0; sc_brutal_down := 0; sc_max_sessions := 4; sc_fec_group_min := 2;
     sc_fec_group_max := 64; sc_gw_v4 := bytes_of_string "10.0.0.1"; sc_gw_v6 := []; sc_v4_mask_bits := 29;
     sc_v6_mask_bits := 64; sc_port_dispatch := true; sc_rx_batch := 32 |}.
Definition pair_client : ClientConf :=
  {| cc_client_id := bytes_of_string demo_client; cc_psk := [7; 7]; cc_mac := bytes_of_string "02:00:00:00:00:07"; cc_req_v4 := [];
     cc_req_v6 := []; cc_brutal := false; cc_brutal_up := 0; cc_brutal_down := 0; cc_conns_count := 2; cc_fec_mode := true;
     cc_fec_group_req := 4; cc_encrypt := true; cc_enc_algo := ENC_ALGO_CHACHA20; cc_min_enc := 1; cc_state_path := demo_path;
     cc_socks5 := false |}.
Definition pair_request (token : text) (instance : text) (idx : Z) : HandshakeReq :=
  build_request pair_client
    (Client_new pair_client {| cl_client_id := cc_client_id pair_client; cl_mac := []; cl_session_id := [1]; cl_session_token := token; cl_session_epoch := 1 |} ∅)
    instance [] idx None.
Definition pair_core (ops : list server_op) : ServerCore :=
  sr_core (server_run raw_v6 pair_conf (server_new raw_v6 demo_v4cidr []) ops).
(** The first connection of a process creates the session, the second joins it. *)
Definition pair_ops : list server_op :=
  [OConnect 1 (demo_conn 1); OHandshake 1 (Some (pair_request [] demo_instance_a 0)) (demo_en 1) 0 10 true].

Lemma pair_conf_ok : conf_ok pair_conf.
Proof. by intros _. Qed.
Lemma demo_en_salts n : 0 <= n < 250 -> salts_ok (demo_en n).
Proof. intros Hn. repeat split; cbn; repeat constructor; lia. Qed.
Lemma pair_ops_salts : Forall op_salts pair_ops.
Proof. repeat constructor; cbn; lia. Qed.

Lemma pair_traffic : traffic_run raw_v6 pair_conf (server_new raw_v6 demo_v4cidr []) pair_ops.
Proof. split; [done|]. split; done. Qed.
(** The second connection of the process joins the session, whose keys the client then holds. *)
Lemma handshake_keys_agree_witness :
  exists c' ms' resp keys r s,
    handle_handshake raw_v6 pair_conf (pair_core pair_ops) (demo_conn 2) (Some (pair_request [] demo_instance_a 1)) (demo_en 2) 0 20 true
      = (c', ms', HOk, Some resp) /\
    check_response pair_client resp = Ok keys /\ lk_ic_tx keys = ms_ic_rx ms' /\ sv_heap c' !! r = Some s /\
    (FEC_MIN_GROUP <= cs_fec_enc_k s -> session_fec_rx s = Some (lk_fec_tx keys) /\ session_fec_tx s = Some (lk_fec_rx keys)).
Proof.
  pose proof (handshake_keys_agree raw_v6 pair_conf demo_v4cidr [] pair_ops pair_client
    (Client_new pair_client {| cl_client_id := cc_client_id pair_client; cl_mac := []; cl_session_id := [1]; cl_session_token := []; cl_session_epoch := 1 |} ∅)
    demo_instance_a [] 1 None (demo_conn 2) (demo_en 2) 0 20 true) as Hagree. fold (pair_core pair_ops) in Hagree.
  assert (Ho : (handle_handshake raw_v6 pair_conf (pair_core pair_ops) (demo_conn 2) (Some (pair_request [] demo_instance_a 1)) (demo_en 2) 0 20 true).1.2 = HOk
    /\ is_Some (handle_handshake raw_v6 pair_conf (pair_core pair_ops) (demo_conn 2) (Some (pair_request [] demo_instance_a 1)) (demo_en 2) 0 20 true).2).
  { split; [vm_compute; reflexivity|]. eexists. vm_compute. reflexivity. }
  unfold pair_request in *. revert Hagree Ho. generalize (pair_core pair_ops). intros c Hagree Ho.
  destruct (handle_handshake _ _ _ _ _ _ _ _ _) as [[[c' ms'] o] resp]. cbn [fst snd] in Ho. destruct Ho as [-> [rs ->]].
  destruct (Hagree c' ms' rs pair_conf_ok pair_ops_salts pair_traffic (demo_en_salts 2 ltac:(lia)) eq_refl (fun _ => eq_refl) eq_refl)
    as (keys & r & s & Hk & _ & Hs & Htx & _ & _ & Hfec & _).
  exists c', ms', rs, keys, r, s. split; [reflexivity|]. split; [exact Hk|]. split; [exact Htx|]. split; [exact Hs|].
  intros Hkk. destruct (Hfec Hkk) as (H1 & H2 & _). exact (conj H1 H2).
Defined.

(** ** Epoch changes at the client *)

Section Epochs.
Context `{FrameChannel} `{CryptoPrims} `{HexCodec} `{StateCodec}.
Context (conf : ClientConf).

Definition ring_clean (rb : ReorderBuffer) : Prop :=
  rb_expected_seq rb = 0 /\ Forall (fun x => x = None) (rb_ring rb) /\ rb_gap_since rb = None.
(** Nothing of an earlier epoch is left on the receive side. *)
Definition rx_clean (cl : Client) : Prop :=
  match ct_rx_actor cl with
  | Some a => ring_clean (ra_reorder a) /\ Forall (fun x => x = 0) (ra_dedup a) /\
              match ra_fec a with Some d => fi_groups (fd_inner d) = ∅ | None => True end
  | None => ring_clean (ct_reorder_buf cl) /\ Forall (fun x => x = 0) (ct_dedup cl)
  end.
Definition same_rx (cl cl' : Client) : Prop :=
  ct_tx_port cl' = ct_tx_port cl /\ ct_rx_actor cl' = ct_rx_actor cl /\
  ct_reorder_buf cl' = ct_reorder_buf cl /\ ct_dedup cl' = ct_dedup cl.

Abbreviation fec_on := (client_fec_on conf).
Abbreviation rebuilds := (client_rebuilds conf).

Lemma negotiate_keeps cl resp (cl' := negotiate_fec conf cl resp) :
  ct_tx_port cl' = ct_tx_port cl /\ ct_rx_actor cl' = ct_rx_actor cl /\ ct_fec_dec cl' = ct_fec_dec cl /\
  ct_reorder_buf cl' = ct_reorder_buf cl /\ ct_dedup cl' = ct_dedup cl /\
  ss_fec_algo (ct_session cl') = ss_fec_algo (ct_session cl) /\ ss_fec_salt_key (ct_session cl') = ss_fec_salt_key (ct_session cl) /\
  ss_server_session_id (ct_session cl') = ss_server_session_id (ct_session cl) /\
  ss_session_epoch (ct_session cl') = ss_session_epoch (ct_session cl).
Proof. unfold cl', negotiate_fec. destruct (_ && _); [|done]. cbn. by destruct (_ <=? _). Qed.

Lemma rebuild_keeps cl keys salt (cl' := rebuild_fec cl keys salt) :
  ct_rx_actor cl' = ct_rx_actor cl /\ ct_reorder_buf cl' = ct_reorder_buf cl /\ ct_dedup cl' = ct_dedup cl /\
  ct_tx_port cl' = reset_epoch (ct_tx_port cl) (ss_fec_negotiated (ct_session cl)) (lk_fec_tx keys) /\
  ct_session cl' = ss_set_fec (ct_session cl) (ss_fec_negotiated (ct_session cl)) (lk_algo keys) salt /\
  (ct_rx_actor cl = None -> is_Some (ct_fec_dec cl')).
Proof.
  unfold cl', rebuild_fec. destruct (ct_rx_actor cl) eqn:E; [cbn; by rewrite E|].
  destruct (ct_fec_dec cl); cbn; rewrite E; split_and!; try done; by eexists.
Qed.

(** The state after the FEC step, before the session block. *)
Definition fec_stage (cl : Client) (keys : link_keys) (resp : HandshakeResp) : Client :=
  if rebuilds cl keys resp then rebuild_fec (negotiate_fec conf cl resp) keys (rs_enc_salt resp) else negotiate_fec conf cl resp.
Lemma fec_stage_spec cl keys resp (cl' := fec_stage cl keys resp) :
  ct_rx_actor cl' = ct_rx_actor cl /\ ct_reorder_buf cl' = ct_reorder_buf cl /\ ct_dedup cl' = ct_dedup cl /\
  (if rebuilds cl keys resp then po_tx_seq (ct_tx_port cl') = 0 /\ po_sequence_exhausted (ct_tx_port cl') = false
   else ct_tx_port cl' = ct_tx_port cl) /\
  is_new_session (ct_session cl') resp = is_new_session (ct_session cl) resp /\
  ss_fec_negotiated (ct_session cl') = ss_fec_negotiated (ct_session (negotiate_fec conf cl resp)) /\
  (fec_on cl resp = true -> ss_fec_algo (ct_session cl') = lk_algo keys /\ ss_fec_salt_key (ct_session cl') = rs_enc_salt resp /\
     (ct_rx_actor cl = None -> is_Some (ct_fec_dec cl'))).
Proof.
  destruct (negotiate_keeps cl resp) as (N1 & N2 & N3 & N4 & N5 & N6 & N7 & N8 & N9).
  destruct (rebuild_keeps (negotiate_fec conf cl resp) keys (rs_enc_salt resp)) as (R1 & R2 & R3 & R4 & R5 & R6).
  unfold cl', fec_stage, is_new_session. destruct (rebuilds cl keys resp) eqn:Er.
  - rewrite R1, R2, R3, R4, R5. cbn. rewrite N2, N4, N5, N8, N9. rewrite N2 in R6. done.
  - rewrite N1, N2, N4, N5, N8, N9. split_and!; try done. intros Hf. unfold client_rebuilds in Er. rewrite Hf in Er. cbn in Er.
    unfold rebuild_needed in Er. rewrite N6, N7, N3. apply orb_false_iff in Er as [[Ed Ea]%orb_false_iff Es].
    apply negb_false_iff, Z.eqb_eq in Ea. apply negb_false_iff, bool_decide_eq_true in Es. split_and!; [done..|].
    intros Hn. rewrite Hn in Ed. destruct (ct_fec_dec cl); [by eexists|done].
Qed.

Lemma apply_session_spec cl keys resp w ok (cl' := apply_session conf cl keys resp w ok) (st := fec_stage cl keys resp) :
  ct_session cl' = adopt (ct_session st) keys resp /\
  ct_tx_port cl' = (if is_new_session (ct_session cl) resp && negb (fec_on cl resp) then reset_epoch (ct_tx_port st) 0 None else ct_tx_port st) /\
  (is_Some (ct_fec_dec st) <-> is_Some (ct_fec_dec cl')) /\
  match ct_rx_actor cl with
  | Some a => if rebuilds cl keys resp || is_new_session (ct_session cl) resp
              then (exists dec, ct_rx_actor cl' = Some (reconfigure a (((fun kc => FecDecoder_new kc.1 kc.2) <$> dec)))) /\
                   ct_reorder_buf cl' = ct_reorder_buf cl /\ ct_dedup cl' = ct_dedup cl
              else ct_rx_actor cl' = Some a /\ ct_reorder_buf cl' = ct_reorder_buf cl /\ ct_dedup cl' = ct_dedup cl
  | None => ct_rx_actor cl' = None /\
            if is_new_session (ct_session cl) resp
            then ct_reorder_buf cl' = ReorderBuffer_reset (ct_reorder_buf cl) /\ ct_dedup cl' = DeDuplicator_reset (ct_dedup cl)
            else ct_reorder_buf cl' = ct_reorder_buf cl /\ ct_dedup cl' = ct_dedup cl
  end.
Proof.
  destruct (fec_stage_spec cl keys resp) as (F1 & F2 & F3 & _ & F5 & _). fold st in F1, F2, F3, F5.
  destruct (negotiate_keeps cl resp) as (_ & N2 & N3 & _ & _ & N6 & N7 & _ & _).
  unfold cl', apply_session. fold (fec_on cl resp).
  replace (rebuild_needed (negotiate_fec conf cl resp) _ _) with (rebuild_needed cl (lk_algo keys) (rs_enc_salt resp))
    by (unfold rebuild_needed; by rewrite N2, N3, N6, N7).
  fold (rebuilds cl keys resp). fold (fec_stage cl keys resp). fold st. rewrite F5.
  destruct (persist_session_state _ _ _ _ _ _ _ _) as [identity fs]. cbn [ct_rx_actor ct_reorder_buf ct_dedup]. rewrite F1.
  destruct (ct_rx_actor cl) as [a|].
  - destruct (rebuilds cl keys resp || is_new_session (ct_session cl) resp); cbn; split_and!; try done.
    destruct (fec_on cl resp && _).
    + by exists (Some (if fec_on cl resp then ss_fec_negotiated (ct_session st) else 0, lk_fec_rx keys)).
    + by exists None.
  - destruct (is_new_session (ct_session cl) resp); cbn; rewrite F2, F3; split_and!; try done; destruct (ct_fec_dec st); cbn; split; intros [? ?]; try done; by eexists.
Qed.

Lemma reset_ring_clean rb : ring_clean (ReorderBuffer_reset rb).
Proof. split; [done|]. split; [|done]. cbn. apply Forall_fmap, Forall_true. done. Qed.
Lemma reset_dedup_clean dd : Forall (fun x => x = 0) (DeDuplicator_reset dd).
Proof. unfold DeDuplicator_reset. apply Forall_fmap, Forall_true. done. Qed.
Lemma reconfigure_clean a dec :
  ring_clean (ra_reorder (reconfigure a dec)) /\ Forall (fun x => x = 0) (ra_dedup (reconfigure a dec)) /\
  match ra_fec (reconfigure a dec) with Some d => fi_groups (fd_inner d) = ∅ | None => True end.
Proof.
  unfold reconfigure. destruct (match ra_fec a with Some _ => _ | None => _ end) as [rb lb]. cbn.
  split_and!; [apply reset_ring_clean|apply reset_dedup_clean|by destruct dec].
Qed.

(** What connections of one epoch of one session are told. *)
Definition same_epoch (resp resp' : HandshakeResp) : Prop :=
  rs_session_id resp' = rs_session_id resp /\ rs_session_epoch resp' = rs_session_epoch resp /\
  rs_enc_algo resp' = rs_enc_algo resp /\ rs_enc_salt resp' = rs_enc_salt resp /\ rs_fec_group resp' = rs_fec_group resp.
(** Traffic changes contents, not which parts exist. *)
Definition same_shape (cl cl' : Client) : Prop :=
  ct_session cl' = ct_session cl /\ (ct_rx_actor cl' = None <-> ct_rx_actor cl = None) /\ (is_Some (ct_fec_dec cl) -> is_Some (ct_fec_dec cl')).

Lemma response_algo cl resp w ok cl' keys :
  handle_response conf cl resp w ok = (cl', Ok keys) ->
  cl' = apply_session conf cl keys resp w ok /\ lk_algo keys = if cc_encrypt conf then rs_enc_algo resp else ENC_ALGO_NONE.
Proof.
  unfold handle_response. destruct (check_response conf resp) as [k|] eqn:E; [|done]. intros [= <- <-]. split; [done|].
  unfold check_response, result_bind, derive_keys in E. repeat (case_match; simplify_eq); done.
Qed.

Lemma negotiated_value cl resp :
  cc_fec_mode conf = true ->
  ss_fec_negotiated (ct_session (negotiate_fec conf cl resp)) =
    if ss_fec_negotiated (ct_session cl) =? 0 then (if FEC_MIN_GROUP <=? rs_fec_group resp then rs_fec_group resp else 0)
    else ss_fec_negotiated (ct_session cl).
Proof.
  intros Hm. unfold negotiate_fec. rewrite Hm. cbn [andb]. destruct (Z.eqb_spec (ss_fec_negotiated (ct_session cl)) 0) as [E|]; [|done].
  cbn [ct_session]. by destruct (_ <=? _).
Qed.

(** The salt of an epoch is fresh: with FEC in use, a new epoch announces another salt
    than the one the FEC state was built for, unless there is no FEC state yet.  The
    server draws a random salt for every epoch of an encrypted session; without inner
    encryption all salts are empty and this fails ([plain_fec_sender_never_armed]). *)
Definition fresh_salt (cl : Client) (resp : HandshakeResp) : Prop :=
  is_new_session (ct_session cl) resp = true -> fec_on cl resp = true ->
  rs_enc_salt resp <> ss_fec_salt_key (ct_session cl) \/ (ct_rx_actor cl = None /\ ct_fec_dec cl = None).
Lemma fresh_salt_rebuilds cl keys resp :
  fresh_salt cl resp -> is_new_session (ct_session cl) resp = true -> fec_on cl resp = true ->
  rebuild_needed cl (lk_algo keys) (rs_enc_salt resp) = true.
Proof.
  intros Hs Hn Hf. unfold rebuild_needed. destruct (Hs Hn Hf) as [Hne|[-> ->]]; [|done].
  rewrite (bool_decide_eq_false_2 (ss_fec_salt_key _ = _)) by congruence. cbn. by rewrite orb_true_r.
Qed.

(** C25: the client switches epochs exactly once, when FEC is off or the epoch's salt is
    fresh.  The first connection that learns of a
    new session or epoch restarts numbering at the sender and leaves nothing of the old
    epoch in reorder buffer, duplicate filter and decoder; every later connection of the
    same epoch, whatever traffic has gone through in between, leaves the sender, its
    sequence numbers and the receive state as they are. *)
Theorem epoch_switch_once cl resp w ok cl1 keys :
  fresh_salt cl resp -> handle_response conf cl resp w ok = (cl1, Ok keys) ->
  (is_new_session (ct_session cl) resp = true ->
     po_tx_seq (ct_tx_port cl1) = 0 /\ po_sequence_exhausted (ct_tx_port cl1) = false /\ rx_clean cl1) /\
  forall cl2 resp2 w2 ok2 cl3 keys2, same_shape cl1 cl2 -> same_epoch resp resp2 ->
    handle_response conf cl2 resp2 w2 ok2 = (cl3, Ok keys2) -> same_rx cl2 cl3.
Proof.
  intros Hsalt [-> Hal]%response_algo. pose proof (fresh_salt_rebuilds cl keys resp Hsalt) as Hfresh.
  destruct (apply_session_spec cl keys resp w ok) as (A1 & A2 & A3 & A4).
  destruct (fec_stage_spec cl keys resp) as (F1 & F2 & F3 & F4 & F5 & F6 & F7). set (cl1 := apply_session _ _ _ _ _ _) in *. split.
  - intros Hn. rewrite Hn in A2, A4. cbn in A2. unfold client_rebuilds in *. split; [|split].
    + rewrite A2. destruct (fec_on cl resp) eqn:Ef; cbn in *; [|done]. rewrite (Hfresh Hn eq_refl) in F4. by destruct F4.
    + rewrite A2. destruct (fec_on cl resp) eqn:Ef; cbn in *; [|done]. rewrite (Hfresh Hn eq_refl) in F4. by destruct F4.
    + unfold rx_clean. destruct (ct_rx_actor cl) as [a|].
      * rewrite orb_true_r in A4. destruct A4 as ((dec & ->) & _ & _). apply reconfigure_clean.
      * destruct A4 as (-> & -> & ->). split; [apply reset_ring_clean|apply reset_dedup_clean].
  - intros cl2 resp2 w2 ok2 cl3 keys2 (Hs & Hact & Hdec) (E1 & E2 & E3 & E4 & E5) [-> Hal2]%response_algo.
    destruct (apply_session_spec cl2 keys2 resp2 w2 ok2) as (B1 & B2 & B3 & B4).
    destruct (fec_stage_spec cl2 keys2 resp2) as (G1 & G2 & G3 & G4 & G5 & G6 & G7).
    assert (Hk : lk_algo keys2 = lk_algo keys) by (rewrite Hal, Hal2, E3; done).
    assert (Hnew : is_new_session (ct_session cl2) resp2 = false).
    { rewrite Hs, A1. unfold is_new_session, adopt. cbn. rewrite E1, E2, F5.
      destruct (is_new_session (ct_session cl) resp) eqn:En.
      - by rewrite bool_decide_eq_true_2, Z.eqb_refl.
      - unfold is_new_session in F5. exact F5. }
    assert (Hfec : fec_on cl2 resp2 = fec_on cl resp).
    { unfold client_fec_on, use_xor_fec. destruct (cc_fec_mode conf) eqn:Em; [|done]. cbn [andb].
      rewrite (negotiated_value cl2), E5, Hs, A1 by done. cbn [adopt ss_fec_negotiated]. rewrite F6, negotiated_value by done.
      unfold FEC_MIN_GROUP. destruct (Z.eqb_spec (ss_fec_negotiated (ct_session cl)) 0), (Z.leb_spec 2 (rs_fec_group resp)); cbn; try done;
        by rewrite (proj2 (Z.eqb_neq _ _)) by lia. }
    assert (Hre : rebuilds cl2 keys2 resp2 = false).
    { unfold client_rebuilds. rewrite Hfec. destruct (fec_on cl resp) eqn:Ef; [|done]. cbn. destruct (F7 eq_refl) as (K1 & K2 & K3).
      unfold rebuild_needed. rewrite Hs, A1, Hk, E4. cbn. rewrite K1, K2, Z.eqb_refl, bool_decide_eq_true_2 by done. cbn.
      destruct (ct_rx_actor cl2) eqn:Ea; [done|].
      assert (Hn1 : ct_rx_actor cl = None).
      { destruct Hact as [Hact _]. specialize (Hact eq_refl). destruct (ct_rx_actor cl) as [a|]; [|done].
        destruct (_ || _); [destruct A4 as ((d & Hd) & _); congruence|destruct A4 as (Hd & _); congruence]. }
      destruct (Hdec (proj1 A3 (K3 Hn1))) as [d ->]. done. }
    rewrite Hre in *. rewrite Hnew in *. cbn in B2, B4. unfold same_rx. rewrite B2, G4. split; [done|].
    destruct (ct_rx_actor cl2); destruct B4 as (-> & -> & ->); done.
Qed.

(** Without inner encryption the salts of every answer are empty, so a client with more
    than one connection never finds its FEC state out of date: the encoder is not
    attached and the numbering is not restarted, although the group size is negotiated. *)
Theorem plain_fec_sender_never_armed cl resp w ok cl' keys a :
  cc_encrypt conf = false -> ct_rx_actor cl = Some a -> ss_fec_algo (ct_session cl) = 0 -> ss_fec_salt_key (ct_session cl) = [] ->
  rs_enc_salt resp = [] -> fec_on cl resp = true -> handle_response conf cl resp w ok = (cl', Ok keys) ->
  ct_tx_port cl' = ct_tx_port cl /\ is_Some (ct_rx_actor cl') /\ ss_fec_algo (ct_session cl') = 0 /\ ss_fec_salt_key (ct_session cl') = [].
Proof.
  intros Henc Ha H3 H4 H5 Hf [-> Hal]%response_algo. rewrite Henc in Hal.
  assert (Hre : rebuilds cl keys resp = false).
  { unfold client_rebuilds, rebuild_needed. rewrite Hf, Ha, H3, H4, H5, Hal. done. }
  destruct (apply_session_spec cl keys resp w ok) as (A1 & A2 & _ & A4). rewrite Ha in A4.
  destruct (fec_stage_spec cl keys resp) as (_ & _ & _ & F4 & _ & _ & F7). rewrite Hre in F4, A4.
  destruct (F7 Hf) as (K1 & K2 & _). rewrite A2, Hf, andb_false_r, A1. cbn. rewrite K1, K2. split; [done|].
  split; [|by rewrite Hal, H5]. destruct (_ || _); [destruct A4 as ((d & ->) & _)|destruct A4 as (-> & _)]; by eexists.
Qed.

(** ** The state file *)

Record persisted := { ps_session : text; ps_token : text; ps_epoch : Z; ps_write : write_outcome; ps_rename : bool }.
Definition persist_step (st : ClientState * files) (p : persisted) : ClientState * files :=
  persist_session_state conf st.1 st.2 (ps_session p) (ps_token p) (ps_epoch p) (ps_write p) (ps_rename p).

(** Concurrent handshakes never take the saved identity back to an earlier epoch:
    whatever the order in which their answers are saved, the identity in memory ends at
    the largest epoch among them and the one it started with, is one of the answers (or
    unchanged), and is what the state file holds if every write succeeded. *)
Theorem saved_epoch_never_regresses `{!StateCodecLaws} identity fs ps :
  cc_state_path conf <> [] ->
  let '(st, fs') := foldl persist_step (identity, fs) ps in
  cl_session_epoch identity <= cl_session_epoch st /\ Forall (fun p => ps_epoch p <= cl_session_epoch st) ps /\
  (st = identity \/ exists p, p ∈ ps /\ cl_session_id st = ps_session p /\ cl_session_token st = ps_token p /\ cl_session_epoch st = ps_epoch p /\
     cl_client_id st = cc_client_id conf) /\
  (load_client_state fs (cc_state_path conf) = identity -> Forall (fun p => ps_write p = WriteDone /\ ps_rename p = true) ps ->
   load_client_state fs' (cc_state_path conf) = st).
Proof.
  intros Hpath. revert identity fs. induction ps as [|p ps IH]; intros identity fs; [cbn; split_and!; try done; by left|].
  cbn [foldl]. unfold persist_step at 2. unfold persist_session_state. cbn [fst snd].
  destruct (is_nil (cc_state_path conf)) eqn:En; [by destruct (cc_state_path conf)|].
  destruct (Z.ltb_spec (ps_epoch p) (cl_session_epoch identity)) as [Hlt|Hge].
  - specialize (IH identity fs). destruct (foldl persist_step (identity, fs) ps) as [st fs'].
    destruct IH as (I1 & I2 & I3 & I4). split; [done|]. split; [constructor; [lia|done]|]. split.
    + destruct I3 as [->|(q & Hq & I3)]; [by left|]. right. exists q. split; [by right|done].
    + intros Hl [_ Hw]%Forall_cons. by apply I4.
  - set (id1 := {| cl_client_id := _; cl_mac := _; cl_session_id := _; cl_session_token := _; cl_session_epoch := _ |}).
    set (fs1 := default fs _). specialize (IH id1 fs1). destruct (foldl persist_step (id1, fs1) ps) as [st fs'].
    destruct IH as (I1 & I2 & I3 & I4). cbn in I1. split; [lia|]. split; [by constructor|]. split.
    + right. destruct I3 as [->|(q & Hq & I3)]; [exists p; split; [by left|done]|exists q; split; [by right|done]].
    + intros _ [[Hw Hr] Hws]%Forall_cons. apply I4; [|done]. unfold fs1. rewrite Hw, Hr. by apply load_saved.
Qed.
End Epochs.

(** ** Examples *)

Definition pair_identity : ClientState :=
  {| cl_client_id := cc_client_id pair_client; cl_mac := []; cl_session_id := []; cl_session_token := []; cl_session_epoch := 0 |}.
Definition pair_answer (epoch : Z) (salt : Z) : HandshakeResp :=
  {| rs_protocol_version := PROTOCOL_VERSION; rs_session_epoch := epoch; rs_success := true; rs_session_id := [9]; rs_client_id := demo_client;
     rs_ipv4 := bytes_of_string "10.0.0.2/29"; rs_ipv6 := []; rs_gw_v4 := []; rs_gw_v6 := []; rs_brutal_groups := false; rs_brutal_total_tx := 0;
     rs_brutal_total_rx := 0; rs_fec := true; rs_fec_group := 4; rs_encrypt := true; rs_enc_algo := ENC_ALGO_CHACHA20;
     rs_enc_salt := hex_encode (replicate 8 salt); rs_enc_salt2 := hex_encode (replicate 8 (salt + 1)); rs_session_token := demo_token 1 |}.
(** Two connections learn of epoch 1. *)
Lemma epoch_switch_once_witness :
  exists cl1 cl2 keys keys2,
    handle_response pair_client (Client_new pair_client pair_identity ∅) (pair_answer 1 5) WriteDone true = (cl1, Ok keys) /\
    handle_response pair_client cl1 (pair_answer 1 5) WriteDone true = (cl2, Ok keys2) /\
    po_tx_seq (ct_tx_port cl1) = 0 /\ rx_clean cl1 /\ same_rx cl1 cl2.
Proof.
  assert (Hok : forall cl, exists k, handle_response pair_client cl (pair_answer 1 5) WriteDone true =
    (apply_session pair_client cl k (pair_answer 1 5) WriteDone true, Ok k)) by (intros cl; eexists; reflexivity).
  destruct (Hok (Client_new pair_client pair_identity ∅)) as [keys E1].
  set (cl1 := apply_session pair_client (Client_new pair_client pair_identity ∅) keys (pair_answer 1 5) WriteDone true) in *.
  destruct (Hok cl1) as [keys2 E2].
  destruct (epoch_switch_once pair_client (Client_new pair_client pair_identity ∅) (pair_answer 1 5) WriteDone true cl1 keys) as [Hnew Hsame];
    [intros _ _; left; vm_compute; discriminate|exact E1|].
  destruct (Hnew eq_refl) as (Hseq & _ & Hrx).
  exists cl1, (apply_session pair_client cl1 keys2 (pair_answer 1 5) WriteDone true), keys, keys2.
  refine (conj E1 (conj E2 (conj Hseq (conj Hrx _)))).
  eapply Hsame; [|repeat split|exact E2]. split; [reflexivity|]. split; [tauto|tauto].
Defined.

Lemma saved_epoch_never_regresses_witness :
  let mk e := {| ps_session := [e]; ps_token := [e; e]; ps_epoch := e; ps_write := WriteDone; ps_rename := true |} in
  let '(st, fs') := foldl (persist_step pair_client) (pair_identity, ∅) [mk 1; mk 3; mk 2] in
  cl_session_epoch st = 3 /\ Forall (fun p => ps_epoch p <= cl_session_epoch st) [mk 1; mk 3; mk 2].
Proof.
  intros mk. pose proof (saved_epoch_never_regresses pair_client pair_identity ∅ [mk 1; mk 3; mk 2] ltac:(discriminate)) as Hs.
  assert (He : cl_session_epoch (foldl (persist_step pair_client) (pair_identity, ∅) [mk 1; mk 3; mk 2]).1 = 3) by reflexivity.
  destruct (foldl (persist_step pair_client) (pair_identity, ∅) [mk 1; mk 3; mk 2]) as [st fs'].
  destruct Hs as (_ & Hf & _). exact (conj He Hf).
Defined.

(** A session that expired is created again at epoch 1, below the epoch in the state
    file, so the client keeps the old token there while the session moves on: process B
    resumes it and its second connection confirms the new token; process C then presents
    the token of the file and is refused. *)
Definition expired_identity : ClientState :=
  {| cl_client_id := cc_client_id pair_client; cl_mac := []; cl_session_id := [8]; cl_session_token := demo_token 1; cl_session_epoch := 3 |}.
Definition expired_ops : list server_op :=
  [OConnect 1 (demo_conn 1); OHandshake 1 (Some (pair_request (demo_token 1) demo_instance_a 0)) (demo_en 4) 0 10 true; OClose 1 20;
   OConnect 2 (demo_conn 2); OHandshake 2 (Some (pair_request (demo_token 1) demo_instance_b 0)) (demo_en 5) 0 30 true;
   OConnect 3 (demo_conn 3); OHandshake 3 (Some (pair_request (demo_token 5) demo_instance_b 1)) (demo_en 6) 0 40 true].
Example stale_token_after_expiry :
  persist_session_state pair_client expired_identity ∅ [9] (demo_token 5) 2 WriteDone true = (expired_identity, ∅) /\
  (handle_handshake raw_v6 pair_conf (pair_core (take 5 expired_ops)) (demo_conn 3) (Some (pair_request (demo_token 5) demo_instance_b 1))
     (demo_en 6) 0 40 true).1.2 = HOk /\
  (handle_handshake raw_v6 pair_conf (pair_core expired_ops) (demo_conn 4)
     (Some (pair_request (cl_session_token expired_identity) (bytes_of_string "process-c-000003") 0)) (demo_en 7) 0 50 true).1.2 = HClose.
Proof. vm_compute. repeat (split; [reflexivity|]). reflexivity. Qed.
