(* ===== verification/Writer.v ===== *)
(** * The connection writers: [flush_outbound] and [drain_tls] of [src/src/server.rs],
      the sending half of [dial_and_serve] of [src/src/client.rs],
      [src/src/stats_accounting.rs]

    One writer serves one physical connection.  It takes batches from the backend's
    queue while they fit one TLS record, frames and seals them into a buffer, pads the
    buffer, hands it to rustls and moves rustls' ciphertext to the socket until the
    socket blocks.  rustls is a class with the behaviour it documents; the socket is
    the list of its next answers; the clock, the answer of the cork's socket option
    and of the poller's registration are arguments. *)
From S2P Require Import Prelude Protocol Utils Crypto Frame Adaptive Queue Fec Port Cork.

(** ** Accounting *)

Record TxFrameTotals := {
  tt_data_frames : Z; tt_parity_frames : Z; tt_control_frames : Z; tt_data_wire_bytes : Z; tt_parity_wire_bytes : Z }.
Definition TxFrameTotals_default : TxFrameTotals :=
  {| tt_data_frames := 0; tt_parity_frames := 0; tt_control_frames := 0; tt_data_wire_bytes := 0;
     tt_parity_wire_bytes := 0 |}.

Definition is_parity_payload (payload : list Z) : bool :=
  match payload with b :: _ => b =? CONTROL_KIND_FEC_PARITY | [] => false end.
Definition add_frame (t : TxFrameTotals) (seq : Z) (payload : list Z) (wire_bytes : Z) : TxFrameTotals :=
  if negb (seq =? 0) then
    {| tt_data_frames := u64_sat_add (tt_data_frames t) 1; tt_parity_frames := tt_parity_frames t;
       tt_control_frames := tt_control_frames t;
       tt_data_wire_bytes := u64_sat_add (tt_data_wire_bytes t) wire_bytes;
       tt_parity_wire_bytes := tt_parity_wire_bytes t |}
  else if is_parity_payload payload then
    {| tt_data_frames := tt_data_frames t; tt_parity_frames := u64_sat_add (tt_parity_frames t) 1;
       tt_control_frames := tt_control_frames t; tt_data_wire_bytes := tt_data_wire_bytes t;
       tt_parity_wire_bytes := u64_sat_add (tt_parity_wire_bytes t) wire_bytes |}
  else
    {| tt_data_frames := tt_data_frames t; tt_parity_frames := tt_parity_frames t;
       tt_control_frames := u64_sat_add (tt_control_frames t) 1; tt_data_wire_bytes := tt_data_wire_bytes t;
       tt_parity_wire_bytes := tt_parity_wire_bytes t |}.

(** [TxFrameCounters::record]; [c] is the value of the atomic counters. *)
Definition counters_record (c totals : TxFrameTotals) : TxFrameTotals :=
  {| tt_data_frames := u64_wrap (tt_data_frames c + tt_data_frames totals);
     tt_parity_frames := u64_wrap (tt_parity_frames c + tt_parity_frames totals);
     tt_control_frames := u64_wrap (tt_control_frames c + tt_control_frames totals);
     tt_data_wire_bytes := u64_wrap (tt_data_wire_bytes c + tt_data_wire_bytes totals);
     tt_parity_wire_bytes := u64_wrap (tt_parity_wire_bytes c + tt_parity_wire_bytes totals) |}.

(** [PADDING_WIRE_BYTES] and [PADDING_BYTES]. *)
Definition record_padding_write (c : Z * Z) (wire_bytes pad_bytes : Z) : Z * Z :=
  (u64_wrap (c.1 + wire_bytes), u64_wrap (c.2 + pad_bytes)).

(** ** rustls and the socket *)

Class Rustls := {
  tls : Type;
  wants_write : tls -> bool;
  (** [writer().write_all(buf)]; [None] is an error (the outgoing buffer is full) *)
  writer_write_all : tls -> list Z -> option tls;
  (** [write_tls] into a socket that takes at most so many bytes; the result
      carries the number of bytes written *)
  write_tls : tls -> Z -> tls * Z;
  send_close_notify : tls -> tls }.

(** What rustls documents: [wants_write] says whether TLS output is waiting, a write
    appends to the plaintext stream and is accepted when nothing is waiting and it is
    no larger than one record (the default buffer limit is 64 KiB), [write_tls] takes
    what it reports from the waiting output and leaves the plaintext stream alone. *)
Class RustlsLaws `{Rustls} := {
  tls_output : tls -> Z;
  tls_plaintext : tls -> list Z;
  tls_output_nonneg : forall t, 0 <= tls_output t;
  wants_write_output : forall t, wants_write t = (0 <? tls_output t);
  write_all_appends : forall t buf t', writer_write_all t buf = Some t' -> tls_plaintext t' = tls_plaintext t ++ buf;
  write_all_room : forall t buf, wants_write t = false -> zlen buf <= MAX_TLS_PLAINTEXT_RECORD ->
    is_Some (writer_write_all t buf);
  write_tls_plaintext : forall t n, tls_plaintext (write_tls t n).1 = tls_plaintext t;
  write_tls_takes : forall t n, 0 <= n -> 0 <= (write_tls t n).2 <= n /\
    tls_output (write_tls t n).1 = tls_output t - (write_tls t n).2 }.

(** An answer of the socket to a write; [SAccept n] leaves room for [n] bytes. *)
Inductive sock_event := SAccept (space : Z) | SBlock | STimedOut | SFail.

(** ** Taking batches from the backend *)

Section Writer.
Context `{FrameChannel} `{CryptoPrims} `{Rustls}.
Context (PADDING_CACHE : list Z) (mode : pad_mode).

(** A backend without a queue (tests only) hands over single frames of its channel. *)
Definition try_recv_backend_batch (b : Backend) (legacy_rx : list VPNFrame) (wire_budget : Z)
  : Backend * list VPNFrame * option VPNFrameBatch :=
  match be_owned_batches b with
  | Some queue => let '(queue, r) := try_pop_fitting queue wire_budget in (be_set_queue b queue, legacy_rx, r)
  | None =>
      match legacy_rx with
      | [] => (b, [], None)
      | f :: rest => (b, rest, Some (from_frame f (frame_len f)))
      end
  end.
Definition backend_tx_is_empty (b : Backend) (legacy_rx : list VPNFrame) : bool :=
  match be_owned_batches b with
  | Some queue => oq_is_empty queue
  | None => bool_decide (legacy_rx = [])
  end.
Definition be_set_notify (b : Backend) (n : option BackendNotify) : Backend :=
  {| be_fec_fence_gen := be_fec_fence_gen b; be_ch := be_ch b; be_owned_batches := be_owned_batches b;
     be_rtt_cache := be_rtt_cache b; be_notify := n; be_scheduler := be_scheduler b |}.
Definition be_consume_wake (b : Backend) : Backend := be_set_notify b (consume_wake <$> be_notify b).

(** The local variables of one batch. *)
Record tx_fill := {
  tf_backend : Backend;
  tf_rx : list VPNFrame;
  tf_rand : FastRand;
  tf_buf : list Z;
  tf_last : option nat;
  tf_frames : Z;
  tf_payload : Z;
  tf_written : TxFrameTotals }.

Definition tf_start (b : Backend) (rx : list VPNFrame) (r : FastRand) (payload : Z) : tx_fill :=
  {| tf_backend := b; tf_rx := rx; tf_rand := r; tf_buf := []; tf_last := None; tf_frames := 0; tf_payload := payload;
     tf_written := TxFrameTotals_default |}.
Definition tf_source (st : tx_fill) (b : Backend) (rx : list VPNFrame) : tx_fill :=
  {| tf_backend := b; tf_rx := rx; tf_rand := tf_rand st; tf_buf := tf_buf st; tf_last := tf_last st;
     tf_frames := tf_frames st; tf_payload := tf_payload st; tf_written := tf_written st |}.

(** The body of [for f in batch.frames]: control frames are not sealed. *)
Definition append_queued (ic_tx : option InnerCipher) (st : tx_fill) (f : VPNFrame) : tx_fill :=
  let data := as_slice (vf_data f) in
  let ic := if negb (vf_seq f =? 0) then ic_tx else None in
  let '(r, buf, start) := append_unpadded_frame PADDING_CACHE mode (tf_rand st) (tf_buf st) (vf_seq f) data ic in
  {| tf_backend := tf_backend st; tf_rx := tf_rx st; tf_rand := r; tf_buf := buf; tf_last := Some start;
     tf_frames := tf_frames st; tf_payload := tf_payload st;
     tf_written := add_frame (tf_written st) (vf_seq f) data (zlen buf - zlen (tf_buf st)) |}.
Definition tf_count (st : tx_fill) (frames payload : Z) : tx_fill :=
  {| tf_backend := tf_backend st; tf_rx := tf_rx st; tf_rand := tf_rand st; tf_buf := tf_buf st; tf_last := tf_last st;
     tf_frames := frames; tf_payload := payload; tf_written := tf_written st |}.

Definition wire_budget (buf : list Z) : Z :=
  sat_sub (sat_sub MAX_TLS_PLAINTEXT_RECORD STREAM_PAD_ABSOLUTE_LIMIT) (zlen buf).

(** Batches waiting for the writer, which bounds the turns of both loops. *)
Definition backlog (b : Backend) (rx : list VPNFrame) : nat :=
  match be_owned_batches b with Some q => length (qi_batches (oq_inner q)) | None => length rx end.

(** The client's [while let Some(batch) = ...]; [None] is a loop that was cut off. *)
Fixpoint client_fill_loop (turns : nat) (ic_tx : option InnerCipher) (st : tx_fill) : option tx_fill :=
  match turns with
  | O => None
  | S turns =>
      match try_recv_backend_batch (tf_backend st) (tf_rx st) (wire_budget (tf_buf st)) with
      | (b, rx, None) => Some (tf_source st b rx)
      | (b, rx, Some batch) =>
          let st := foldl (append_queued ic_tx) (tf_source st b rx) (vb_frames batch) in
          let st := tf_count st (u64_wrap (tf_frames st + zlen (vb_frames batch)))
                      (u64_sat_add (tf_payload st) (vb_bytes batch)) in
          if STREAM_TLS_BATCH_SOFT_LIMIT <=? zlen (tf_buf st) then Some st else client_fill_loop turns ic_tx st
      end
  end.
Definition client_fill (ic_tx : option InnerCipher) (st : tx_fill) : option tx_fill :=
  client_fill_loop (S (backlog (tf_backend st) (tf_rx st))) ic_tx st.

(** The server's [loop], with [hit_drain_limit]. *)
Definition PULL_LIMIT : Z := 2048.
Fixpoint server_fill_loop (turns : nat) (ic_tx : option InnerCipher) (st : tx_fill) : option (tx_fill * bool) :=
  match turns with
  | O => None
  | S turns =>
      if (STREAM_TLS_BATCH_SOFT_LIMIT <=? zlen (tf_buf st)) || (PULL_LIMIT <=? tf_frames st) then Some (st, true)
      else
        match try_recv_backend_batch (tf_backend st) (tf_rx st) (wire_budget (tf_buf st)) with
        | (b, rx, None) => Some (tf_source st b rx, false)
        | (b, rx, Some batch) =>
            let st := foldl (append_queued ic_tx) (tf_source st b rx) (vb_frames batch) in
            server_fill_loop turns ic_tx
              (tf_count st (u64_sat_add (tf_frames st) (zlen (vb_frames batch)))
                 (u64_sat_add (tf_payload st) (vb_bytes batch)))
        end
  end.
Definition server_fill (ic_tx : option InnerCipher) (st : tx_fill) : option (tx_fill * bool) :=
  server_fill_loop (S (backlog (tf_backend st) (tf_rx st))) ic_tx st.

(** The cover padding of a filled buffer. *)
Definition pad_fill (st : tx_fill) (pad_record_limit : Z) : FastRand * list Z * Z :=
  if negb (tf_frames st =? 0) then
    pad_stream_batch_tail PADDING_CACHE mode (tf_rand st) (tf_buf st) (tf_last st) pad_record_limit
  else (tf_rand st, tf_buf st, 0).

(** ** The server's writer *)

Definition SECOND : Z := 1000000.

(** The sent packets and bytes, the written frames by kind, and the padding counters. *)
Record tx_stats := { ts_packets : Z; ts_bytes : Z; ts_written : TxFrameTotals; ts_padding : Z * Z }.
Record tx_timers := { tm_handshake_done : bool; tm_last_rx : Z; tm_rtt_timer : Z; tm_last_keepalive : Z }.

(** The sending half of [MioSession] with the counters of the session it serves;
    [send_buf] is empty between calls.  Times are in microseconds. *)
Record ServerTx := {
  sx_tls : tls;
  sx_socket : list sock_event;
  sx_backend : Backend;
  sx_rx : list VPNFrame;
  sx_rand : FastRand;
  sx_write_stalled : option Z;
  sx_queued_payload_pending : Z;
  sx_tx_leftover : bool;
  sx_batch_cork : TlsBatchCork;
  sx_pad_record_limit : Z;
  sx_session_epoch : Z;
  sx_timers : tx_timers;
  sx_stats : tx_stats }.

Definition sx_set_io (w : ServerTx) (t : tls) (sock : list sock_event) (stalled : option Z) : ServerTx :=
  {| sx_tls := t; sx_socket := sock; sx_backend := sx_backend w; sx_rx := sx_rx w; sx_rand := sx_rand w;
     sx_write_stalled := stalled; sx_queued_payload_pending := sx_queued_payload_pending w;
     sx_tx_leftover := sx_tx_leftover w; sx_batch_cork := sx_batch_cork w;
     sx_pad_record_limit := sx_pad_record_limit w; sx_session_epoch := sx_session_epoch w;
     sx_timers := sx_timers w; sx_stats := sx_stats w |}.
Definition sx_set_backend (w : ServerTx) (b : Backend) (pending : Z) : ServerTx :=
  {| sx_tls := sx_tls w; sx_socket := sx_socket w; sx_backend := b; sx_rx := sx_rx w; sx_rand := sx_rand w;
     sx_write_stalled := sx_write_stalled w; sx_queued_payload_pending := pending;
     sx_tx_leftover := sx_tx_leftover w; sx_batch_cork := sx_batch_cork w;
     sx_pad_record_limit := sx_pad_record_limit w; sx_session_epoch := sx_session_epoch w;
     sx_timers := sx_timers w; sx_stats := sx_stats w |}.
(** After a batch was taken. *)
Definition sx_set_fill (w : ServerTx) (st : tx_fill) (r : FastRand) (leftover : bool) : ServerTx :=
  {| sx_tls := sx_tls w; sx_socket := sx_socket w; sx_backend := tf_backend st; sx_rx := tf_rx st; sx_rand := r;
     sx_write_stalled := sx_write_stalled w; sx_queued_payload_pending := sx_queued_payload_pending w;
     sx_tx_leftover := leftover; sx_batch_cork := sx_batch_cork w; sx_pad_record_limit := sx_pad_record_limit w;
     sx_session_epoch := sx_session_epoch w; sx_timers := sx_timers w; sx_stats := sx_stats w |}.
Definition sb_set_carry (s : SchedulerBackendState) (carry : bool) : SchedulerBackendState :=
  {| sb_queued_bytes := sb_queued_bytes s; sb_rate := sb_rate s; sb_eta_us := sb_eta_us s; sb_active := sb_active s;
     sb_carry_pending := carry; sb_assigned_bytes := sb_assigned_bytes s;
     sb_assigned_batches := sb_assigned_batches s; sb_fec_assigned_bytes := sb_fec_assigned_bytes s;
     sb_fec_assigned_batches := sb_fec_assigned_batches s; sb_virtual_finish_ns := sb_virtual_finish_ns s;
     sb_sample_bytes := sb_sample_bytes s; sb_sample_start_us := sb_sample_start_us s |}.
(** The cork shares its carry flag with the scheduler of the backend. *)
Definition share_carry (b : Backend) (c : TlsBatchCork) : Backend :=
  match ck_carry_state c with Some v => be_set_sched b (sb_set_carry (be_scheduler b) v) | None => b end.
Definition sx_set_cork (w : ServerTx) (c : TlsBatchCork) : ServerTx :=
  {| sx_tls := sx_tls w; sx_socket := sx_socket w; sx_backend := share_carry (sx_backend w) c; sx_rx := sx_rx w;
     sx_rand := sx_rand w; sx_write_stalled := sx_write_stalled w;
     sx_queued_payload_pending := sx_queued_payload_pending w; sx_tx_leftover := sx_tx_leftover w;
     sx_batch_cork := c; sx_pad_record_limit := sx_pad_record_limit w; sx_session_epoch := sx_session_epoch w;
     sx_timers := sx_timers w; sx_stats := sx_stats w |}.
Definition sx_set_stats (w : ServerTx) (s : tx_stats) : ServerTx :=
  {| sx_tls := sx_tls w; sx_socket := sx_socket w; sx_backend := sx_backend w; sx_rx := sx_rx w;
     sx_rand := sx_rand w; sx_write_stalled := sx_write_stalled w;
     sx_queued_payload_pending := sx_queued_payload_pending w; sx_tx_leftover := sx_tx_leftover w;
     sx_batch_cork := sx_batch_cork w; sx_pad_record_limit := sx_pad_record_limit w;
     sx_session_epoch := sx_session_epoch w; sx_timers := sx_timers w; sx_stats := s |}.
Definition sx_set_timers (w : ServerTx) (t : tls) (r : FastRand) (tm : tx_timers) : ServerTx :=
  {| sx_tls := t; sx_socket := sx_socket w; sx_backend := sx_backend w; sx_rx := sx_rx w; sx_rand := r;
     sx_write_stalled := sx_write_stalled w; sx_queued_payload_pending := sx_queued_payload_pending w;
     sx_tx_leftover := sx_tx_leftover w; sx_batch_cork := sx_batch_cork w;
     sx_pad_record_limit := sx_pad_record_limit w; sx_session_epoch := sx_session_epoch w; sx_timers := tm;
     sx_stats := sx_stats w |}.

(** [while sess.tls.wants_write()]: the last result is the new value of [close]. *)
Fixpoint drain_loop (t : tls) (sock : list sock_event) (stalled : option Z) (now : Z) (close : bool)
  : tls * list sock_event * option Z * bool :=
  if wants_write t then
    match sock with
    | [] => (t, [], Some (default now stalled), close)
    | SBlock :: rest => (t, rest, Some (default now stalled), close)
    | SAccept space :: rest =>
        let '(t, n) := write_tls t space in
        if n =? 0 then (t, rest, stalled, true) else drain_loop t rest stalled now close
    | STimedOut :: rest | SFail :: rest => (t, rest, stalled, true)
    end
  else (t, sock, stalled, close).

(** [complete_queued] and [observe_delivered] once everything is in the kernel. *)
Definition settle (b : Backend) (pending now : Z) : Backend :=
  be_set_sched b (observe_delivered (complete_queued (be_scheduler b) pending) pending now).

Definition drain_tls (w : ServerTx) (now : Z) (close : bool) : ServerTx * bool :=
  let '(t, sock, stalled, close) := drain_loop (sx_tls w) (sx_socket w) (sx_write_stalled w) now close in
  let w := sx_set_io w t sock stalled in
  if negb (wants_write t) then
    let w := sx_set_io w t sock None in
    if negb (sx_queued_payload_pending w =? 0)
    then (sx_set_backend w (settle (sx_backend w) (sx_queued_payload_pending w) now) 0, close)
    else (w, close)
  else (w, close).

(** The counters after a write of [buf], a batch of [tf_frames st] frames. *)
Definition account_write (s : tx_stats) (st : tx_fill) (buf : list Z) (pad_bytes : Z) : tx_stats :=
  if negb (tf_frames st =? 0) then
    {| ts_packets := u64_wrap (ts_packets s + tf_frames st); ts_bytes := u64_wrap (ts_bytes s + zlen buf);
       ts_written := counters_record (ts_written s) (tf_written st);
       ts_padding := record_padding_write (ts_padding s) (zlen buf) pad_bytes |}
  else {| ts_packets := ts_packets s; ts_bytes := u64_wrap (ts_bytes s + zlen buf); ts_written := ts_written s;
          ts_padding := ts_padding s |}.

(** The state of the session the connection belongs to: its epoch and [ic_tx]. *)
Definition tx_session : Type := option (Z * option InnerCipher).

(** Filling, writing and draining, once nothing is left of the previous batch.
    [cork_ok] is the answer to the cork's socket option.  A loop cut off by its
    bound is reported by [None]. *)
Definition flush_batch (session : tx_session) (ic_tx : option InnerCipher) (w : ServerTx) (now : Z) (cork_ok : bool)
    (close : bool) : option (ServerTx * bool) :=
  '(st, hit) ← server_fill ic_tx (tf_start (sx_backend w) (sx_rx w) (sx_rand w) 0);
  let '(r, buf, pad_bytes) := pad_fill st (sx_pad_record_limit w) in
  let w := sx_set_fill w st r hit in
  if negb (bool_decide (buf = [])) then
    let w := sx_set_cork w (before_write (sx_batch_cork w) (zlen buf) now cork_ok) in
    match writer_write_all (sx_tls w) buf with
    | None => Some (w, true)
    | Some t =>
        let w := sx_set_io w t (sx_socket w) (sx_write_stalled w) in
        let w := match session with Some _ => sx_set_stats w (account_write (sx_stats w) st buf pad_bytes) | None => w end in
        let w := sx_set_backend w (sx_backend w) (u64_sat_add (sx_queued_payload_pending w) (tf_payload st)) in
        Some (drain_tls w now close)
    end
  else Some (drain_tls w now close).

Definition flush_outbound (session : tx_session) (w : ServerTx) (now : Z) (cork_ok : bool) (close : bool)
  : option (ServerTx * bool) :=
  let w := sx_set_backend w (be_consume_wake (sx_backend w)) (sx_queued_payload_pending w) in
  let '(w, close) :=
    if bool_decide (is_Some (sx_write_stalled w)) || wants_write (sx_tls w) then drain_tls w now close else (w, close) in
  if close || wants_write (sx_tls w) then Some (w, close)
  else
    match session with
    | Some (epoch, ic) =>
        if negb (epoch =? sx_session_epoch w) then Some (w, true) else flush_batch session ic w now cork_ok close
    | None => flush_batch session None w now cork_ok close
    end.

(** ** The worker's scan of one connection *)

(** The round-trip time is refreshed every 200 ms; [rtt] is what the kernel reports. *)
Definition scan_rtt (w : ServerTx) (now idle_time rtt : Z) : ServerTx :=
  let tm := sx_timers w in
  if 200000 <? now - tm_rtt_timer tm then
    let b := sx_backend w in
    let b := {| be_fec_fence_gen := be_fec_fence_gen b; be_ch := be_ch b; be_owned_batches := be_owned_batches b;
                be_rtt_cache := if 5 <=? idle_time then 100000 else rtt; be_notify := be_notify b;
                be_scheduler := be_scheduler b |} in
    sx_set_timers (sx_set_backend w b (sx_queued_payload_pending w)) (sx_tls w) (sx_rand w)
      {| tm_handshake_done := tm_handshake_done tm; tm_last_rx := tm_last_rx tm; tm_rtt_timer := now;
         tm_last_keepalive := tm_last_keepalive tm |}
  else w.

Definition scan_keepalive (w : ServerTx) (now : Z) : ServerTx :=
  let tm := sx_timers w in
  if (4 * SECOND <? now - tm_last_keepalive tm) && negb (bool_decide (is_Some (sx_write_stalled w))) &&
     negb (wants_write (sx_tls w))
  then
    let '(r, buf) := append_padded_frame_with_limit PADDING_CACHE mode (sx_rand w) [] 0 [] None (sx_pad_record_limit w) in
    match writer_write_all (sx_tls w) buf with
    | Some t =>
        sx_set_timers w t r {| tm_handshake_done := tm_handshake_done tm; tm_last_rx := tm_last_rx tm;
                               tm_rtt_timer := tm_rtt_timer tm; tm_last_keepalive := now |}
    | None => sx_set_timers w (sx_tls w) r tm
    end
  else w.

Definition write_overdue (w : ServerTx) (now : Z) : bool :=
  match sx_write_stalled w with Some since => 10 * SECOND <? now - since | None => false end.
Definition wake_pending (b : Backend) : bool := match be_notify b with Some n => bn_pending n | None => false end.
Definition flush_due (w : ServerTx) : bool :=
  wake_pending (sx_backend w) || sx_tx_leftover w || wants_write (sx_tls w) || bool_decide (is_Some (sx_write_stalled w)).

(** The body of the scan; [swept] says that a check on the session (exhausted sequence
    numbers, a foreign epoch, a forced disconnect) closes the connection.  The result
    carries whether the connection is closed. *)
Definition scan_conn (session : tx_session) (swept : bool) (w : ServerTx) (now rtt : Z) (cork_ok : bool)
  : option (ServerTx * bool) :=
  let w := sx_set_cork w (maybe_flush (sx_batch_cork w) now cork_ok) in
  let idle_time := (now - tm_last_rx (sx_timers w)) / SECOND in
  if 15 <? idle_time then Some (w, true)
  else if negb (tm_handshake_done (sx_timers w)) then Some (w, false)
  else
    let w := scan_keepalive (scan_rtt w now idle_time rtt) now in
    if swept then Some (w, true)
    else if write_overdue w now then Some (w, true)
    else if flush_due w then flush_outbound session w now cork_ok false
    else Some (w, false).

(** [close_session_tls] *)
Fixpoint close_drain (t : tls) (sock : list sock_event) : tls :=
  if wants_write t then
    match sock with
    | SAccept space :: rest => let '(t, n) := write_tls t space in if n =? 0 then t else close_drain t rest
    | _ => t
    end
  else t.
Definition close_session_tls (w : ServerTx) (cork_ok : bool) : ServerTx :=
  let w := sx_set_cork w (cork_close (sx_batch_cork w) cork_ok) in
  sx_set_io w (close_drain (send_close_notify (sx_tls w)) (sx_socket w)) (sx_socket w) (sx_write_stalled w).

(** ** The client's writer *)

(** The variables of the data loop of [dial_and_serve] that its sending half uses. *)
Record ClientTx := {
  cx_tls : tls;
  cx_socket : list sock_event;
  cx_backend : Backend;
  cx_rx : list VPNFrame;
  cx_rand : FastRand;
  cx_queued_payload_pending : Z;
  cx_batch_cork : TlsBatchCork;
  cx_write_blocked : bool;
  cx_last_keepalive : Z;
  cx_last_write_progress : Z;
  cx_last_rx : Z;
  cx_conn_tx_bytes : Z;
  cx_stats : tx_stats }.

Inductive tx_close :=
| PlaintextWriterFailed | WriteTlsZero | WriteTlsFailed | RegisterFailed | RestoreFailed | WriteStalled | ReceiveStalled.

(** [client_socket_interest]: readable always, writable when the flag says so. *)
Definition client_socket_interest (write_blocked : bool) : bool * bool := (true, write_blocked).
Definition clamp_poll_for_tx_backlog (base : Z) (tx_backlog tls_wants_write : bool) : Z :=
  if tx_backlog && negb tls_wants_write then 0 else base.
Definition cx_set_fill (c : ClientTx) (st : tx_fill) (r : FastRand) : ClientTx :=
  {| cx_tls := cx_tls c; cx_socket := cx_socket c; cx_backend := tf_backend st; cx_rx := tf_rx st; cx_rand := r;
     cx_queued_payload_pending := tf_payload st; cx_batch_cork := cx_batch_cork c;
     cx_write_blocked := cx_write_blocked c; cx_last_keepalive := cx_last_keepalive c;
     cx_last_write_progress := cx_last_write_progress c; cx_last_rx := cx_last_rx c;
     cx_conn_tx_bytes := cx_conn_tx_bytes c; cx_stats := cx_stats c |}.
Definition cx_set_cork (c : ClientTx) (k : TlsBatchCork) : ClientTx :=
  {| cx_tls := cx_tls c; cx_socket := cx_socket c; cx_backend := share_carry (cx_backend c) k; cx_rx := cx_rx c;
     cx_rand := cx_rand c; cx_queued_payload_pending := cx_queued_payload_pending c; cx_batch_cork := k;
     cx_write_blocked := cx_write_blocked c; cx_last_keepalive := cx_last_keepalive c;
     cx_last_write_progress := cx_last_write_progress c; cx_last_rx := cx_last_rx c;
     cx_conn_tx_bytes := cx_conn_tx_bytes c; cx_stats := cx_stats c |}.
Definition cx_set_written (c : ClientTx) (t : tls) (s : tx_stats) (wire_bytes now : Z) : ClientTx :=
  {| cx_tls := t; cx_socket := cx_socket c; cx_backend := cx_backend c; cx_rx := cx_rx c; cx_rand := cx_rand c;
     cx_queued_payload_pending := cx_queued_payload_pending c; cx_batch_cork := cx_batch_cork c;
     cx_write_blocked := cx_write_blocked c; cx_last_keepalive := now;
     cx_last_write_progress := cx_last_write_progress c; cx_last_rx := cx_last_rx c;
     cx_conn_tx_bytes := u64_wrap (cx_conn_tx_bytes c + wire_bytes); cx_stats := s |}.
Definition cx_set_io (c : ClientTx) (t : tls) (sock : list sock_event) (progress : Z) (blocked : bool) : ClientTx :=
  {| cx_tls := t; cx_socket := sock; cx_backend := cx_backend c; cx_rx := cx_rx c; cx_rand := cx_rand c;
     cx_queued_payload_pending := cx_queued_payload_pending c; cx_batch_cork := cx_batch_cork c;
     cx_write_blocked := blocked; cx_last_keepalive := cx_last_keepalive c; cx_last_write_progress := progress;
     cx_last_rx := cx_last_rx c; cx_conn_tx_bytes := cx_conn_tx_bytes c; cx_stats := cx_stats c |}.
Definition cx_set_settled (c : ClientTx) (b : Backend) (pending : Z) : ClientTx :=
  {| cx_tls := cx_tls c; cx_socket := cx_socket c; cx_backend := b; cx_rx := cx_rx c; cx_rand := cx_rand c;
     cx_queued_payload_pending := pending; cx_batch_cork := cx_batch_cork c;
     cx_write_blocked := cx_write_blocked c; cx_last_keepalive := cx_last_keepalive c;
     cx_last_write_progress := cx_last_write_progress c; cx_last_rx := cx_last_rx c;
     cx_conn_tx_bytes := cx_conn_tx_bytes c; cx_stats := cx_stats c |}.

(** Taking and padding a batch: nothing is taken while TLS output is waiting. *)
Definition client_collect (ic_tx : option InnerCipher) (c : ClientTx) (woken : bool) (pad_record_limit : Z)
  : option (ClientTx * tx_fill * list Z * Z) :=
  if negb (wants_write (cx_tls c)) && (woken || negb (backend_tx_is_empty (cx_backend c) (cx_rx c))) then
    st ← client_fill ic_tx
           (tf_start (be_consume_wake (cx_backend c)) (cx_rx c) (cx_rand c) (cx_queued_payload_pending c));
    let '(r, buf, pad_bytes) := pad_fill st pad_record_limit in
    Some (cx_set_fill c st r, st, buf, pad_bytes)
  else
    let st := tf_start (cx_backend c) (cx_rx c) (cx_rand c) (cx_queued_payload_pending c) in
    Some (c, st, [], 0).

(** The keep-alive of an otherwise silent connection. *)
Definition client_keepalive (c : ClientTx) (buf : list Z) (pad_record_limit now : Z) : ClientTx * list Z :=
  if bool_decide (buf = []) && negb (wants_write (cx_tls c)) && (4 * SECOND <? now - cx_last_keepalive c) then
    let '(r, buf) := append_padded_frame_with_limit PADDING_CACHE mode (cx_rand c) buf 0 [] None pad_record_limit in
    (cx_set_fill c (tf_start (cx_backend c) (cx_rx c) r (cx_queued_payload_pending c)) r, buf)
  else (c, buf).

(** [false] in the result ends the loop at once. *)
Definition client_write (c : ClientTx) (st : tx_fill) (buf : list Z) (pad_bytes now : Z) (cork_ok : bool)
  : ClientTx * bool :=
  if bool_decide (buf = []) then (c, true)
  else
    let c := if negb (tf_frames st =? 0) then cx_set_cork c (before_write (cx_batch_cork c) (zlen buf) now cork_ok) else c in
    match writer_write_all (cx_tls c) buf with
    | None => (c, false)
    | Some t => (cx_set_written c t (account_write (cx_stats c) st buf pad_bytes) (zlen buf) now, true)
    end.

(** [while tls.wants_write()]; [reg_ok] is the answer to subscribing to WRITABLE. *)
Fixpoint client_drain (t : tls) (sock : list sock_event) (progress : Z) (blocked reg_ok : bool) (now : Z)
  : tls * list sock_event * Z * bool * option tx_close :=
  if wants_write t then
    let block rest :=
      if blocked then (t, rest, progress, true, None)
      else if reg_ok then (t, rest, progress, true, None) else (t, rest, progress, false, Some RegisterFailed) in
    match sock with
    | [] => block []
    | SBlock :: rest | STimedOut :: rest => block rest
    | SAccept space :: rest =>
        let '(t, n) := write_tls t space in
        if n =? 0 then (t, rest, progress, blocked, Some WriteTlsZero) else client_drain t rest now blocked reg_ok now
    | SFail :: rest => (t, rest, progress, blocked, Some WriteTlsFailed)
    end
  else (t, sock, progress, blocked, None).

(** After the drain: the scheduler is settled, the subscription is restored
    ([restore_ok]) and the two deadlines are looked at. *)
Definition client_finish (c : ClientTx) (rx_closed : bool) (reason : option tx_close) (now : Z) (restore_ok : bool)
  : ClientTx * option tx_close :=
  let idle := negb (wants_write (cx_tls c)) in
  let c := if idle && negb (cx_queued_payload_pending c =? 0)
           then cx_set_settled c (settle (cx_backend c) (cx_queued_payload_pending c) now) 0 else c in
  let '(c, reason) :=
    if cx_write_blocked c && idle && negb rx_closed && bool_decide (reason = None) then
      if restore_ok then (cx_set_io c (cx_tls c) (cx_socket c) (cx_last_write_progress c) false, reason)
      else (c, Some RestoreFailed)
    else (c, reason) in
  let reason := if 10 * SECOND <? now - cx_last_write_progress c then Some WriteStalled else reason in
  let reason := if 15 * SECOND <? now - cx_last_rx c then Some ReceiveStalled else reason in
  (c, reason).

(** The sending half of one turn; the reason closes the connection.  [rx_closed] says
    that the receiving half has already decided so. *)
Definition client_tx_turn (ic_tx : option InnerCipher) (c : ClientTx) (woken rx_closed : bool) (pad_record_limit now : Z)
    (cork_ok reg_ok restore_ok : bool) : option (ClientTx * option tx_close) :=
  '(c, st, buf, pad_bytes) ← client_collect ic_tx c woken pad_record_limit;
  let '(c, buf) := client_keepalive c buf pad_record_limit now in
  let '(c, go) := client_write c st buf pad_bytes now cork_ok in
  if negb go then Some (c, Some PlaintextWriterFailed)
  else
    let '(t, sock, progress, blocked, reason) :=
      client_drain (cx_tls c) (cx_socket c) (cx_last_write_progress c) (cx_write_blocked c) reg_ok now in
    Some (client_finish (cx_set_io c t sock progress blocked) rx_closed reason now restore_ok).
End Writer.
