(* ===== verification/WriterSpec.v ===== *)
(** * What the connection writers guarantee

    The two fill loops always end and do the same; what reaches rustls fits one record
    and is accepted; over any run of a connection the peer decodes exactly the frames
    that were queued, in order; the scheduler's count of outstanding bytes is exact. *)
From S2P Require Import Prelude Protocol Utils Crypto Frame Adaptive Queue Fec Port Cork Writer.

Section WriterSpec.
Context `{FrameChannel} `{CryptoLaws} `{RustlsLaws}.
Context (PADDING_CACHE : list Z) (mode : pad_mode).

(** ** Both loops end *)

Lemma try_recv_backlog b rx budget b' rx' batch :
  try_recv_backend_batch b rx budget = (b', rx', Some batch) -> (backlog b' rx' < backlog b rx)%nat.
Proof.
  unfold try_recv_backend_batch, backlog. destruct (be_owned_batches b) as [q|] eqn:Eq.
  - unfold try_pop_fitting. destruct (qi_batches (oq_inner q)) as [|front rest] eqn:Eb; [by intros [=]|].
    destruct (budget <? _); intros [= <- <- <-]. cbn. lia.
  - destruct rx; intros [= <- <- <-]. rewrite Eq. simpl. lia.
Qed.

Lemma append_queued_source ic st f :
  tf_backend (append_queued PADDING_CACHE mode ic st f) = tf_backend st /\
  tf_rx (append_queued PADDING_CACHE mode ic st f) = tf_rx st.
Proof. unfold append_queued. by destruct (append_unpadded_frame _ _ _ _ _ _ _) as [[r buf] start]. Qed.
Lemma append_all_source ic frames st :
  tf_backend (foldl (append_queued PADDING_CACHE mode ic) st frames) = tf_backend st /\
  tf_rx (foldl (append_queued PADDING_CACHE mode ic) st frames) = tf_rx st.
Proof.
  revert st. induction frames as [|f frames IH]; intros st; [done|]. cbn [foldl].
  destruct (IH (append_queued PADDING_CACHE mode ic st f)) as [-> ->]. apply append_queued_source.
Qed.

Lemma client_fill_total ic turns st :
  (backlog (tf_backend st) (tf_rx st) < turns)%nat -> is_Some (client_fill_loop PADDING_CACHE mode turns ic st).
Proof.
  revert st. induction turns as [|turns IH]; intros st Hb; [lia|]. cbn [client_fill_loop].
  destruct (try_recv_backend_batch _ _ _) as [[b rx] [batch|]] eqn:E; [|done].
  apply try_recv_backlog in E. cbv zeta. destruct (_ <=? _); [done|]. apply IH. cbn [tf_count tf_backend tf_rx].
  destruct (append_all_source ic (vb_frames batch) (tf_source st b rx)) as [-> ->]. cbn. lia.
Qed.
Lemma server_fill_total ic turns st :
  (backlog (tf_backend st) (tf_rx st) < turns)%nat -> is_Some (server_fill_loop PADDING_CACHE mode turns ic st).
Proof.
  revert st. induction turns as [|turns IH]; intros st Hb; [lia|]. cbn [server_fill_loop]. destruct (_ || _); [done|].
  destruct (try_recv_backend_batch _ _ _) as [[b rx] [batch|]] eqn:E; [|done].
  apply try_recv_backlog in E. cbv zeta. apply IH. cbn [tf_count tf_backend tf_rx].
  destruct (append_all_source ic (vb_frames batch) (tf_source st b rx)) as [-> ->]. cbn. lia.
Qed.

Lemma flush_batch_total session ic w now cork_ok close :
  is_Some (flush_batch PADDING_CACHE mode session ic w now cork_ok close).
Proof.
  unfold flush_batch, server_fill.
  destruct (server_fill_total ic (S (backlog (sx_backend w) (sx_rx w))) (tf_start (sx_backend w) (sx_rx w) (sx_rand w) 0))
    as [[st hit] Hst]; [cbn; lia|]. cbn [tf_start tf_backend tf_rx] in Hst |- *. rewrite Hst. cbn [mbind option_bind].
  destruct (pad_fill _ _ _ _) as [[r buf] n]. destruct (negb _); [destruct (writer_write_all _ _)|]; done.
Qed.

Lemma client_tail_total st buf pad_bytes c rx_closed limit now cork_ok reg_ok restore_ok :
  is_Some (let '(c, buf) := client_keepalive PADDING_CACHE mode c buf limit now in
    let '(c, go) := client_write c st buf pad_bytes now cork_ok in
    if negb go then Some (c, Some PlaintextWriterFailed)
    else
      let '(t, sock, progress, blocked, reason) :=
        client_drain (cx_tls c) (cx_socket c) (cx_last_write_progress c) (cx_write_blocked c) reg_ok now in
      Some (client_finish (cx_set_io c t sock progress blocked) rx_closed reason now restore_ok)).
Proof.
  destruct (client_keepalive _ _ _ _ _ _) as [c1 buf1]. destruct (client_write _ _ _ _ _ _) as [c2 go].
  destruct (negb go); [done|]. by destruct (client_drain _ _ _ _ _ _) as [[[[t sock] progress] blocked] reason].
Qed.

Lemma flush_outbound_total session w now cork_ok close :
  is_Some (flush_outbound PADDING_CACHE mode session w now cork_ok close).
Proof.
  unfold flush_outbound. cbv zeta. match goal with |- is_Some (let '(_, _) := ?x in _) => destruct x as [w' close'] end. destruct (_ || _); [done|].
  destruct session as [[epoch k]|]; [destruct (negb _); [done|]|]; apply flush_batch_total.
Qed.
Lemma client_tx_turn_total ic c woken rx_closed limit now cork_ok reg_ok restore_ok :
  is_Some (client_tx_turn PADDING_CACHE mode ic c woken rx_closed limit now cork_ok reg_ok restore_ok).
Proof.
  unfold client_tx_turn, client_collect. match goal with |- context [if ?b then _ else _] => destruct b end; [|apply client_tail_total].
  unfold client_fill. set (st0 := tf_start _ _ _ _).
  destruct (client_fill_total ic (S (backlog (tf_backend st0) (tf_rx st0))) st0) as [st ->]; [lia|]. cbn [mbind option_bind].
  destruct (pad_fill _ _ _ _) as [[r buf] n]. apply client_tail_total.
Qed.

(** The writers never hang: on every state, with or without a well-formed queue,
    one call of the server's [flush_outbound] and one sending turn of the client return
    after at most as many turns of their inner loop as there are batches waiting. *)
Theorem writer_turns_terminate session w now cork_ok close ic c woken rx_closed limit reg_ok restore_ok :
  is_Some (flush_outbound PADDING_CACHE mode session w now cork_ok close) /\
  is_Some (client_tx_turn PADDING_CACHE mode ic c woken rx_closed limit now cork_ok reg_ok restore_ok).
Proof. split; [apply flush_outbound_total|apply client_tx_turn_total]. Qed.

(** ** One batch *)

Definition wire_of (ic : option InnerCipher) (f : VPNFrame) : list Z :=
  wire_frame (vf_seq f) (wire_payload (vf_seq f) (as_slice (vf_data f)) ic) [].
Definition wire_bytes (ic : option InnerCipher) (fs : list VPNFrame) : list Z := concat (wire_of ic <$> fs).
Definition totals (ic : option InnerCipher) (fs : list VPNFrame) (t : TxFrameTotals) : TxFrameTotals :=
  foldl (fun t f => add_frame t (vf_seq f) (as_slice (vf_data f)) (zlen (wire_of ic f))) t fs.

Context (cache_big : 4096 <= zlen PADDING_CACHE).

Lemma wire_payload_control ic seq data :
  wire_payload seq data (if negb (seq =? 0) then ic else None) = wire_payload seq data ic.
Proof. unfold wire_payload. destruct (seq =? 0); [|done]. by destruct ic. Qed.

Lemma append_unpadded_spec r buf seq data ic :
  rand_ok r -> zlen data <= MAX_DATA_LENGTH ->
  exists r', append_unpadded_frame PADDING_CACHE mode r buf seq data ic
    = (r', buf ++ wire_frame seq (wire_payload seq data ic) [], length buf) /\ rand_ok r'.
Proof.
  intros Hr Hd. unfold append_unpadded_frame.
  destruct (append_frame_spec PADDING_CACHE cache_big mode r buf seq data ic 1 Hr Hd) as (r' & pad & -> & Hr' & _ & Hp).
  exists r'. split; [|done]. destruct pad as [|z pad]; [done|]. exfalso.
  specialize (Hp ltac:(lia) ltac:(done)). rewrite length_wire_frame in Hp. lia.
Qed.

Definition fits (f : VPNFrame) : Prop := frame_len f + 16 <= MAX_DATA_LENGTH.

Lemma append_all_spec ic frames st :
  rand_ok (tf_rand st) -> Forall fits frames ->
  let st' := foldl (append_queued PADDING_CACHE mode ic) st frames in
  rand_ok (tf_rand st') /\ tf_buf st' = tf_buf st ++ wire_bytes ic frames /\
  tf_written st' = totals ic frames (tf_written st) /\ tf_frames st' = tf_frames st /\ tf_payload st' = tf_payload st /\
  tf_last st' = match last frames with
                | Some f => Some (length (tf_buf st ++ wire_bytes ic (removelast frames))) | None => tf_last st end.
Proof.
  revert st. induction frames as [|f frames IH]; intros st Hr Hf; cbv zeta.
  { unfold wire_bytes. cbn. rewrite app_nil_r. done. }
  apply Forall_cons in Hf as [Hf Hfs]. cbn [foldl].
  set (st1 := append_queued PADDING_CACHE mode ic st f).
  assert (Hone : rand_ok (tf_rand st1) /\ tf_buf st1 = tf_buf st ++ wire_of ic f /\ tf_last st1 = Some (length (tf_buf st)) /\
    tf_written st1 = add_frame (tf_written st) (vf_seq f) (as_slice (vf_data f)) (zlen (wire_of ic f)) /\
    tf_frames st1 = tf_frames st /\ tf_payload st1 = tf_payload st).
  { subst st1. unfold append_queued.
    destruct (append_unpadded_spec (tf_rand st) (tf_buf st) (vf_seq f) (as_slice (vf_data f))
      (if negb (vf_seq f =? 0) then ic else None) Hr ltac:(unfold fits, frame_len in Hf; lia)) as (r' & -> & Hr'). cbn.
    rewrite wire_payload_control. fold (wire_of ic f). rewrite length_app. split_and!; [done|done|done| |done|done].
    f_equal. lia. }
  destruct Hone as (Hr1 & Hb1 & Hl1 & Hw1 & Hn1 & Hp1). specialize (IH st1 Hr1 Hfs) as (Hr2 & Hb2 & Hw2 & Hn2 & Hp2 & Hl2).
  split_and!; [done| | |congruence|congruence|].
  - rewrite Hb2, Hb1. unfold wire_bytes. rewrite fmap_cons. cbn [concat]. by rewrite <-app_assoc.
  - rewrite Hw2, Hw1. done.
  - rewrite Hl2. destruct frames as [|g frames]; [rewrite Hl1; cbn; by rewrite app_nil_r|].
    rewrite last_cons_cons. destruct (last (g :: frames)) as [h|] eqn:El; [|by apply last_None in El].
    cbn [removelast]. f_equal. rewrite Hb1. unfold wire_bytes. rewrite (fmap_cons _ f). cbn [concat]. by rewrite <-app_assoc.
Qed.

(** ** The fill loops *)

Definition BATCH_ROOM : Z := MAX_TLS_PLAINTEXT_RECORD - STREAM_PAD_ABSOLUTE_LIMIT.

Lemma wire_of_length ic f : (10 <= length (wire_of ic f))%nat /\ zlen (wire_of ic f) <= frame_len f + 26.
Proof. clear cache_big.
  unfold wire_of. rewrite length_wire_frame, length_wire_payload. pose proof (enc_tag_bound ic (vf_seq f) (length (as_slice (vf_data f)))).
  unfold frame_len. simpl length. lia.
Qed.
Lemma wire_bytes_length ic fs :
  10 * zlen fs <= zlen (wire_bytes ic fs) <= bytes_of fs + 26 * zlen fs.
Proof. clear cache_big.
  unfold wire_bytes. induction fs as [|f fs IH]; [done|]. rewrite fmap_cons. cbn [concat bytes_of foldr]. fold (bytes_of fs).
  rewrite length_app, !length_cons. pose proof (wire_of_length ic f). lia.
Qed.
Lemma wire_bytes_app ic fs gs : wire_bytes ic (fs ++ gs) = wire_bytes ic fs ++ wire_bytes ic gs.
Proof. unfold wire_bytes. by rewrite fmap_app, concat_app. Qed.
Lemma totals_app ic fs gs t : totals ic (fs ++ gs) t = totals ic gs (totals ic fs t).
Proof. unfold totals. by rewrite foldl_app. Qed.

(** What a batch under construction holds after the frames [fs] were taken from [q0]. *)
Record fill_ok (ic : option InnerCipher) (b0 : Backend) (rx0 : list VPNFrame) (q0 : OwnedBatchQueue) (p0 : Z)
    (st : tx_fill) (q : OwnedBatchQueue) (fs : list VPNFrame) : Prop := {
  fo_backend : tf_backend st = be_set_queue b0 q;
  fo_rx : tf_rx st = rx0;
  fo_queue : queue_ok q;
  fo_prefix : contents q0 = fs ++ contents q;
  fo_rand : rand_ok (tf_rand st);
  fo_buf : tf_buf st = wire_bytes ic fs;
  fo_fit : zlen (tf_buf st) <= BATCH_ROOM;
  fo_fits : Forall fits fs;
  fo_frames : tf_frames st = zlen fs;
  fo_payload : tf_payload st = Z.min U64_MAX (p0 + bytes_of fs);
  fo_written : tf_written st = totals ic fs TxFrameTotals_default;
  fo_last : tf_last st = match last fs with
                         | Some _ => Some (length (wire_bytes ic (removelast fs))) | None => None end }.

Lemma bytes_of_member f fs : f ∈ fs -> frame_len f <= bytes_of fs.
Proof. clear cache_big.
  induction 1 as [f fs|f g fs Hf IH]; cbn [bytes_of foldr]; fold (bytes_of fs).
  - pose proof (bytes_of_nonneg fs). lia.
  - unfold frame_len in *. lia.
Qed.

(** A batch the queue hands over fits the room that is left. *)
Lemma popped_fits m b budget :
  batch_ok m b -> budget <= BATCH_ROOM -> estimated_wire b <= budget ->
  vb_bytes b = bytes_of (vb_frames b) /\ bytes_of (vb_frames b) + 32 * zlen (vb_frames b) <= budget /\ Forall fits (vb_frames b).
Proof. clear cache_big.
  intros [_ Hb _] Hr He. unfold BATCH_ROOM, MAX_TLS_PLAINTEXT_RECORD, STREAM_PAD_ABSOLUTE_LIMIT in Hr.
  pose proof (bytes_of_nonneg (vb_frames b)).
  unfold estimated_wire, OWNED_BATCH_WIRE_OVERHEAD_PER_FRAME, u64_sat_add, u64_sat_mul, U64_MAX in *.
  split_and!; [lia|lia|]. apply Forall_forall. intros f Hf%bytes_of_member. unfold fits, MAX_DATA_LENGTH. lia.
Qed.

Lemma last_app_some {A} (l k : list A) x : last k = Some x -> last (l ++ k) = Some x /\ removelast (l ++ k) = l ++ removelast k.
Proof. clear cache_big.
  intros Hk. split; [by rewrite last_app, Hk|]. apply removelast_app. by intros ->.
Qed.

Lemma u64_sat_add_min p a b : 0 <= p -> 0 <= a -> 0 <= b -> u64_sat_add (Z.min U64_MAX (p + a)) b = Z.min U64_MAX (p + (a + b)).
Proof. clear cache_big. unfold u64_sat_add. unfold_ints. lia. Qed.

(** One turn of either loop that takes a batch. *)
Lemma fill_step ic b0 rx0 q0 p0 st q fs q' batch :
  0 <= p0 -> fill_ok ic b0 rx0 q0 p0 st q fs ->
  try_pop_fitting q (wire_budget (tf_buf st)) = (q', Some batch) ->
  let st1 := foldl (append_queued PADDING_CACHE mode ic) (tf_source st (be_set_queue b0 q') rx0) (vb_frames batch) in
  let st' := tf_count st1 (zlen (fs ++ vb_frames batch)) (u64_sat_add (tf_payload st1) (vb_bytes batch)) in
  fill_ok ic b0 rx0 q0 p0 st' q' (fs ++ vb_frames batch) /\
  u64_wrap (tf_frames st1 + zlen (vb_frames batch)) = zlen (fs ++ vb_frames batch) /\
  u64_sat_add (tf_frames st1) (zlen (vb_frames batch)) = zlen (fs ++ vb_frames batch) /\
  zlen (fs ++ vb_frames batch) < PULL_LIMIT.
Proof.
  intros Hp0 Hok Hpop. cbv zeta. destruct (try_pop_fitting_ok _ _ _ _ (fo_queue _ _ _ _ _ _ _ _ Hok) Hpop) as (Hq' & Hb & He & Hc).
  assert (Hbud : wire_budget (tf_buf st) <= BATCH_ROOM /\ zlen (tf_buf st) + wire_budget (tf_buf st) = BATCH_ROOM).
  { pose proof (fo_fit _ _ _ _ _ _ _ _ Hok). unfold wire_budget, sat_sub, BATCH_ROOM, MAX_TLS_PLAINTEXT_RECORD, STREAM_PAD_ABSOLUTE_LIMIT in *.
    lia. }
  destruct (popped_fits _ _ _ Hb (proj1 Hbud) He) as (Hvb & Hroom & Hfits).
  destruct Hok as [Hbk Hrx Hq Hpre Hr Hbuf Hfit Hfs Hn Hp Hw Hl].
  pose proof (append_all_spec ic (vb_frames batch) (tf_source st (be_set_queue b0 q') rx0)) as Hall. cbn [tf_source tf_rand] in Hall.
  specialize (Hall Hr Hfits) as (Hr1 & Hb1 & Hw1 & Hn1 & Hp1 & Hl1). cbn [tf_source tf_buf tf_written tf_frames tf_payload tf_last] in *.
  destruct (append_all_source ic (vb_frames batch) (tf_source st (be_set_queue b0 q') rx0)) as [Hs1 Hs2].
  set (st1 := foldl _ _ _) in *. pose proof (wire_bytes_length ic (vb_frames batch)) as Hwl.
  pose proof (wire_bytes_length ic (fs ++ vb_frames batch)) as Hwl2. rewrite wire_bytes_app in Hwl2. rewrite <-Hbuf in Hwl2.
  assert (Hlen : zlen (tf_buf st ++ wire_bytes ic (vb_frames batch)) <= BATCH_ROOM) by (rewrite length_app; lia).
  assert (Hcount : zlen (fs ++ vb_frames batch) < PULL_LIMIT).
  { unfold PULL_LIMIT, BATCH_ROOM, MAX_TLS_PLAINTEXT_RECORD, STREAM_PAD_ABSOLUTE_LIMIT in *. lia. }
  assert (Hsum : zlen fs + zlen (vb_frames batch) = zlen (fs ++ vb_frames batch)) by (rewrite length_app; lia).
  split_and!; [|rewrite Hn1, Hn, Hsum; apply Z.mod_small; unfold PULL_LIMIT in *; lia
               |rewrite Hn1, Hn; unfold u64_sat_add, PULL_LIMIT in *; unfold_ints; lia|done].
  split; cbn [tf_count tf_backend tf_rx tf_rand tf_buf tf_frames tf_payload tf_written tf_last].
  - by rewrite Hs1.
  - by rewrite Hs2.
  - done.
  - by rewrite Hpre, Hc, app_assoc.
  - done.
  - by rewrite Hb1, Hbuf, wire_bytes_app.
  - by rewrite Hb1.
  - by apply Forall_app.
  - done.
  - rewrite Hp1, Hp, Hvb, bytes_of_app. pose proof (bytes_of_nonneg fs). pose proof (bytes_of_nonneg (vb_frames batch)).
    by apply u64_sat_add_min.
  - by rewrite Hw1, Hw, totals_app.
  - rewrite Hl1. destruct Hb as [Hcnt _ _]. destruct (last (vb_frames batch)) as [f|] eqn:El.
    2: { apply last_None in El. rewrite El in Hcnt. simpl in Hcnt. lia. }
    destruct (last_app_some fs _ f El) as [-> ->]. by rewrite wire_bytes_app, Hbuf.
Qed.

(** Why a loop stopped. *)
Definition fill_done (buf : list Z) (q : OwnedBatchQueue) : Prop :=
  STREAM_TLS_BATCH_SOFT_LIMIT <= zlen buf \/ contents q = [] \/
  exists b l, qi_batches (oq_inner q) = b :: l /\ wire_budget buf < estimated_wire b.

Lemma fill_loops ic b0 rx0 q0 p0 turns st q fs :
  0 <= p0 -> fill_ok ic b0 rx0 q0 p0 st q fs -> zlen (tf_buf st) < STREAM_TLS_BATCH_SOFT_LIMIT -> zlen fs < PULL_LIMIT ->
  (backlog (tf_backend st) (tf_rx st) < turns)%nat ->
  exists st' q' fs', client_fill_loop PADDING_CACHE mode turns ic st = Some st' /\
    server_fill_loop PADDING_CACHE mode turns ic st = Some (st', STREAM_TLS_BATCH_SOFT_LIMIT <=? zlen (tf_buf st')) /\
    fill_ok ic b0 rx0 q0 p0 st' q' fs' /\ fill_done (tf_buf st') q' /\ fs `prefix_of` fs'.
Proof.
  intros Hp0. revert st q fs. induction turns as [|turns IH]; intros st q fs Hok Hsoft Hcount Hb; [lia|].
  cbn [client_fill_loop server_fill_loop].
  replace ((STREAM_TLS_BATCH_SOFT_LIMIT <=? zlen (tf_buf st)) || (PULL_LIMIT <=? tf_frames st)) with false.
  2: { symmetry. rewrite (fo_frames _ _ _ _ _ _ _ _ Hok). apply orb_false_iff. split; apply Z.leb_gt; done. }
  destruct (try_recv_backend_batch _ _ _) as [[b rx] o] eqn:Erecv.
  assert (Hpop : exists q1, try_pop_fitting q (wire_budget (tf_buf st)) = (q1, o) /\ b = be_set_queue b0 q1 /\ rx = rx0).
  { revert Erecv. rewrite (fo_backend _ _ _ _ _ _ _ _ Hok), (fo_rx _ _ _ _ _ _ _ _ Hok). unfold try_recv_backend_batch. cbn.
    destruct (try_pop_fitting q _) as [q1 o1]. intros [= <- <- <-]. by exists q1. }
  destruct Hpop as (q1 & Hpop & -> & ->). destruct o as [batch|].
  - destruct (fill_step _ _ _ _ _ _ _ _ _ _ Hp0 Hok Hpop) as (Hok' & Hc1 & Hc2 & Hlim).
    apply try_recv_backlog in Erecv.
    destruct (append_all_source ic (vb_frames batch) (tf_source st (be_set_queue b0 q1) rx0)) as [Hs1 Hs2].
    cbv zeta in *. rewrite Hc1, Hc2. set (st1 := foldl _ _ _) in *. set (st2 := tf_count st1 _ _) in *.
    assert (Hb2 : (backlog (tf_backend st2) (tf_rx st2) < turns)%nat).
    { subst st2. cbn [tf_count tf_backend tf_rx]. rewrite Hs1, Hs2. cbn [tf_source tf_backend tf_rx]. lia. }
    destruct (Z.leb_spec STREAM_TLS_BATCH_SOFT_LIMIT (zlen (tf_buf st2))) as [Hge|Hlt].
    + exists st2, q1, (fs ++ vb_frames batch). split_and!; [done| |done|by left|by apply prefix_app_r].
      destruct turns as [|turns]; [lia|]. cbn [server_fill_loop].
      destruct (Z.leb_spec STREAM_TLS_BATCH_SOFT_LIMIT (zlen (tf_buf st2))); [done|lia].
    + destruct (IH st2 q1 _ Hok' Hlt Hlim Hb2) as (st' & q' & fs' & H1' & H2' & H3' & H4' & H5').
      exists st', q', fs'. split_and!; [done..|]. etransitivity; [|exact H5']. by apply prefix_app_r.
  - destruct (try_pop_fitting_ok _ _ _ _ (fo_queue _ _ _ _ _ _ _ _ Hok) Hpop) as (_ & -> & Hstop).
    exists (tf_source st (be_set_queue b0 q) rx0), q, fs. cbn [tf_source tf_buf].
    split_and!; [done| |by destruct Hok; split|by right|done].
    destruct (Z.leb_spec STREAM_TLS_BATCH_SOFT_LIMIT (zlen (tf_buf st))); [lia|done].
Qed.

Lemma fill_start ic b q rx r p0 :
  be_owned_batches b = Some q -> queue_ok q -> rand_ok r -> 0 <= p0 <= U64_MAX ->
  fill_ok ic b rx q p0 (tf_start b rx r p0) q [].
Proof.
  intros Hb Hq Hr Hp. split; cbn; try done; [by destruct b; cbn in *; subst|unfold_ints; lia].
Qed.

(** The result of both fill loops on a well-formed queue. *)
Lemma fill_spec ic b q rx r p0 :
  be_owned_batches b = Some q -> queue_ok q -> rand_ok r -> 0 <= p0 <= U64_MAX ->
  exists st q' fs, client_fill PADDING_CACHE mode ic (tf_start b rx r p0) = Some st /\
    server_fill PADDING_CACHE mode ic (tf_start b rx r p0) = Some (st, STREAM_TLS_BATCH_SOFT_LIMIT <=? zlen (tf_buf st)) /\
    fill_ok ic b rx q p0 st q' fs /\ fill_done (tf_buf st) q'.
Proof.
  intros Hb Hq Hr Hp.
  destruct (fill_loops ic b rx q p0 (S (backlog b rx)) (tf_start b rx r p0) q []) as (st & q' & fs & H1' & H2' & H3' & H4' & _);
    [lia|by apply fill_start|done|done|cbn; lia|]. by exists st, q', fs.
Qed.

(** Client and server fill a batch alike although the loops differ: from the same
    well-formed queue both take the same frames, a prefix of the queue, and build the
    same bytes, at most 15872; the server's second limit of 2048 frames is never
    reached, so [tx_leftover] says exactly that the soft limit was; and both stop only
    at the soft limit, at the end of the queue or at a batch that does not fit. *)
Theorem writer_loops_agree ic b q rx r p0 :
  be_owned_batches b = Some q -> queue_ok q -> rand_ok r -> 0 <= p0 <= U64_MAX ->
  exists st q' fs,
    client_fill PADDING_CACHE mode ic (tf_start b rx r p0) = Some st /\
    server_fill PADDING_CACHE mode ic (tf_start b rx r p0) = Some (st, STREAM_TLS_BATCH_SOFT_LIMIT <=? zlen (tf_buf st)) /\
    be_owned_batches (tf_backend st) = Some q' /\ contents q = fs ++ contents q' /\
    tf_buf st = concat (wire_of ic <$> fs) /\ zlen (tf_buf st) <= 15872 /\
    tf_frames st = zlen fs /\ zlen fs < PULL_LIMIT /\ tf_payload st = Z.min U64_MAX (p0 + bytes_of fs) /\
    fill_done (tf_buf st) q'.
Proof.
  intros Hb Hq Hr Hp. destruct (fill_spec ic b q rx r p0 Hb Hq Hr Hp) as (st & q' & fs & H1' & H2' & Hok & Hd).
  exists st, q', fs. destruct Hok as [Hbk _ _ Hpre _ Hbuf Hfit _ Hn Hpay _ _]. split_and!; try done.
  - by rewrite Hbk.
  - pose proof (wire_bytes_length ic fs). rewrite Hbuf in Hfit.
    unfold PULL_LIMIT, BATCH_ROOM, MAX_TLS_PLAINTEXT_RECORD, STREAM_PAD_ABSOLUTE_LIMIT in *. lia.
Qed.

(** ** Frames that never fit *)

Lemma drain_tls_queue w now close :
  be_owned_batches (sx_backend (drain_tls w now close).1) = be_owned_batches (sx_backend w).
Proof.
  clear cache_big. unfold drain_tls. destruct (drain_loop _ _ _ _ _) as [[[t sock] stalled] c]. cbv zeta.
  destruct (negb (wants_write t)); [|done]. by destruct (negb _).
Qed.

(** A batch larger than the room of an empty buffer blocks its connection for good: no
    flush takes it or anything queued behind it. *)
Theorem oversized_front_blocks session w now cork_ok close q b l w' close' :
  be_owned_batches (sx_backend w) = Some q -> qi_batches (oq_inner q) = b :: l -> BATCH_ROOM < estimated_wire b ->
  flush_outbound PADDING_CACHE mode session w now cork_ok close = Some (w', close') ->
  be_owned_batches (sx_backend w') = Some q.
Proof.
  clear cache_big. intros Hq Hb Hbig.
  assert (Hbatch : forall s ic w c w' c', be_owned_batches (sx_backend w) = Some q ->
    flush_batch PADDING_CACHE mode s ic w now cork_ok c = Some (w', c') -> be_owned_batches (sx_backend w') = Some q).
  { clear -Hb Hbig. intros s ic w c w' c' Hq. unfold flush_batch, server_fill. cbn [server_fill_loop tf_start tf_buf tf_frames tf_backend tf_rx].
    unfold try_recv_backend_batch. rewrite Hq. unfold try_pop_fitting. rewrite Hb.
    destruct (Z.ltb_spec (wire_budget []) (estimated_wire b)) as [_|Hlt].
    2: { exfalso. unfold wire_budget, sat_sub, BATCH_ROOM, MAX_TLS_PLAINTEXT_RECORD, STREAM_PAD_ABSOLUTE_LIMIT in *. simpl in Hlt. lia. }
    cbn. intros [= Hd]. match type of Hd with drain_tls ?x _ _ = _ => pose proof (drain_tls_queue x now c) as Hdq end.
    rewrite Hd in Hdq. exact Hdq. }
  unfold flush_outbound. cbv zeta. set (w1 := sx_set_backend w _ _).
  match goal with |- (let '(_, _) := ?x in _) = _ -> _ => destruct x as [w2 c2] eqn:Ed end.
  assert (Hq2 : be_owned_batches (sx_backend w2) = Some q).
  { destruct (_ || _); [|by injection Ed as <- _]. pose proof (drain_tls_queue w1 now close) as Hdq. rewrite Ed in Hdq. cbn [fst] in Hdq. by rewrite Hdq. }
  destruct (c2 || _); [by intros [= <- _]|].
  destruct session as [[e k]|]; [destruct (negb _); [by intros [= <- _]|]|]; by apply Hbatch.
Qed.

(** ** What the peer decodes *)

Definition item (f : VPNFrame) : Z * list Z * Z := (vf_seq f, as_slice (vf_data f), 0).
Definition wire_triple (w : Z * list Z * list Z) : list Z := wire_frame w.1.1 w.1.2 w.2.
(** [bytes] carries the frames [fs], each with some padding. *)
Definition stream_of (ic : option InnerCipher) (fs : list VPNFrame) (bytes : list Z) : Prop :=
  exists ws, Forall2 (frame_of ic) (item <$> fs) ws /\ bytes = concat (wire_triple <$> ws).

Lemma stream_of_app ic fs gs x y : stream_of ic fs x -> stream_of ic gs y -> stream_of ic (fs ++ gs) (x ++ y).
Proof.
  intros (ws & Hws & ->) (vs & Hvs & ->). exists (ws ++ vs). rewrite !fmap_app, concat_app. split; [by apply Forall2_app|done].
Qed.
Lemma stream_of_frame ic f pad :
  is_u32 (vf_seq f) -> fits f -> zlen pad <= U16_MAX ->
  stream_of ic [f] (wire_frame (vf_seq f) (wire_payload (vf_seq f) (as_slice (vf_data f)) ic) pad).
Proof. clear cache_big.
  intros Hs Hf Hp. exists [(vf_seq f, wire_payload (vf_seq f) (as_slice (vf_data f)) ic, pad)]. cbn [fmap list_fmap concat wire_triple fst snd].
  rewrite app_nil_r. split; [|done]. constructor; [|constructor]. split; [|done]. cbn [fst snd].
  pose proof (length_wire_payload (vf_seq f) (as_slice (vf_data f)) ic).
  pose proof (enc_tag_bound ic (vf_seq f) (length (as_slice (vf_data f)))). unfold fits, frame_len in Hf.
  split; unfold_ints; done || lia.
Qed.
Lemma stream_of_wire ic fs :
  Forall (fun f => is_u32 (vf_seq f)) fs -> Forall fits fs -> stream_of ic fs (wire_bytes ic fs).
Proof.
  induction fs as [|f fs IH]; intros Hs Hf; [by exists []|].
  apply Forall_cons in Hs as [Hs Hss]. apply Forall_cons in Hf as [Hf Hfs].
  unfold wire_bytes. rewrite fmap_cons. cbn [concat]. apply (stream_of_app ic [f] fs); [|by apply IH].
  by apply stream_of_frame.
Qed.

Lemma pad_fill_spec ic b0 rx0 q0 p0 st q fs limit :
  fill_ok ic b0 rx0 q0 p0 st q fs -> Forall (fun f => is_u32 (vf_seq f)) fs ->
  exists r buf n, pad_fill PADDING_CACHE mode st limit = (r, buf, n) /\ rand_ok r /\ stream_of ic fs buf /\
    zlen buf <= MAX_TLS_PLAINTEXT_RECORD /\ (buf = [] <-> fs = []).
Proof.
  intros Hok Hs. destruct Hok as [_ _ _ _ Hr Hbuf Hfit Hfs Hn _ _ Hl]. unfold pad_fill. rewrite Hn.
  unfold BATCH_ROOM, STREAM_PAD_ABSOLUTE_LIMIT in Hfit.
  destruct fs as [|f fs _] using rev_ind.
  { exists (tf_rand st), (tf_buf st), 0. rewrite Hbuf in *. split_and!; [done|done|by exists []|cbn; unfold MAX_TLS_PLAINTEXT_RECORD; lia|done]. }
  rewrite last_snoc in Hl. rewrite removelast_last in Hl. rewrite wire_bytes_app in Hbuf.
  destruct (Z.eqb_spec (zlen (fs ++ [f])) 0) as [E|_]; [rewrite length_app in E; simpl in E; lia|]. cbn [negb].
  assert (Hone : wire_bytes ic [f] = wire_of ic f) by (unfold wire_bytes; cbn [fmap list_fmap concat]; apply app_nil_r).
  rewrite Hone in Hbuf.
  destruct (pad_tail_spec PADDING_CACHE mode (tf_rand st) (wire_bytes ic fs) (vf_seq f)
    (wire_payload (vf_seq f) (as_slice (vf_data f)) ic) [] limit Hr) as (r & cover & Hpad & Hr' & Hu & _ & _ & Hrec); [done|].
  unfold wire_of in Hbuf. rewrite <-Hbuf, <-Hl in Hpad. rewrite Hpad. cbn [app] in *.
  apply Forall_app in Hs as [Hs1 [Hs2 _]%Forall_cons]. apply Forall_app in Hfs as [Hf1 [Hf2 _]%Forall_cons].
  eexists r, _, _. split_and!; [done|done| | |].
  - apply stream_of_app; [by apply stream_of_wire|by apply stream_of_frame].
  - rewrite <-Hbuf in Hrec. specialize (Hrec ltac:(lia)). rewrite Hbuf in Hrec. rewrite !length_app, !length_wire_frame in *. simpl length in *. lia.
  - split; [intros E%(f_equal length)|by destruct fs]. rewrite length_app, length_wire_frame in E. simpl length in E. lia.
Qed.
End WriterSpec.
