(* ===== verification/WriterRun.v ===== *)
(** * A connection's writer over its whole life

    Producers queue frames, the worker flushes on wake-ups and scans the connection,
    the socket takes as much as it likes.  The run theorems: the plaintext stream given
    to TLS is the queued frames in order, and the scheduler's count of outstanding
    bytes is exact at every moment. *)
From S2P Require Import Prelude Protocol Utils Crypto Frame Adaptive Queue Fec Port PortSpec Cork Writer WriterSpec.

Section WriterRun.
Context `{FrameChannel} `{CryptoLaws} `{RustlsLaws}.
Context (PADDING_CACHE : list Z) (mode : pad_mode) (cache_big : 4096 <= zlen PADDING_CACHE).
(** [prelude] is what the connection sent before, the handshake's answer. *)
Context (epoch : Z) (ic : option InnerCipher) (prelude : list Z).

(** ** Runs *)

(** Each call of the worker comes with the socket's next answers. *)
Inductive writer_op :=
| WPush (seq : Z) (data : FramePayload)
| WFlush (sock : list sock_event) (now : Z) (cork_ok : bool)
| WScan (sock : list sock_event) (now rtt : Z) (cork_ok : bool).

Record writer_run := { wr_tx : ServerTx; wr_accepted : list VPNFrame; wr_closed : bool }.

Definition with_socket (w : ServerTx) (sock : list sock_event) : ServerTx :=
  sx_set_io w (sx_tls w) sock (sx_write_stalled w).
Definition after_call (r : writer_run) (o : option (ServerTx * bool)) : writer_run :=
  match o with
  | Some (w, close) => {| wr_tx := w; wr_accepted := wr_accepted r; wr_closed := close |}
  | None => r
  end.
(** A closed connection is removed from the worker. *)
Definition writer_step (r : writer_run) (op : writer_op) : writer_run :=
  if wr_closed r then r
  else
    let w := wr_tx r in
    match op with
    | WPush seq data =>
        let '(b, res) := try_send_payload_to (sx_backend w) seq data in
        {| wr_tx := sx_set_backend w b (sx_queued_payload_pending w);
           wr_accepted := match res with
                          | Ok _ => wr_accepted r ++ [{| vf_seq := seq; vf_data := data |}] | Err _ => wr_accepted r end;
           wr_closed := false |}
    | WFlush sock now cork_ok =>
        after_call r (flush_outbound PADDING_CACHE mode (Some (epoch, ic)) (with_socket w sock) now cork_ok false)
    | WScan sock now rtt cork_ok =>
        after_call r (scan_conn PADDING_CACHE mode (Some (epoch, ic)) false (with_socket w sock) now rtt cork_ok)
    end.
Definition writer_runs (r : writer_run) (ops : list writer_op) : writer_run := foldl writer_step r ops.

Definition offered (op : writer_op) : list VPNFrame :=
  match op with WPush seq data => [{| vf_seq := seq; vf_data := data |}] | _ => [] end.
Definition all_offered (ops : list writer_op) : list VPNFrame := concat (offered <$> ops).

(** ** The invariant *)

Definition has_payload (f : VPNFrame) : Prop := as_slice (vf_data f) <> [].
#[local] Instance has_payload_dec f : Decision (has_payload f) := _.

Definition sx_queued (w : ServerTx) : Z := sb_queued_bytes (be_scheduler (sx_backend w)).

(** The plaintext stream after the handshake carries the frames [log]. *)
Definition carries (log : list VPNFrame) (t : tls) : Prop :=
  exists s, tls_plaintext t = prelude ++ s /\ stream_of ic log s.
Lemma carries_same log t t' : tls_plaintext t' = tls_plaintext t -> carries log t -> carries log t'.
Proof. intros E (s & Hs & Hst). exists s. by rewrite E. Qed.
Lemma carries_write log t buf t' fs :
  writer_write_all t buf = Some t' -> stream_of ic fs buf -> carries log t -> carries (log ++ fs) t'.
Proof.
  intros Hw Hb (s & Hs & Hst). exists (s ++ buf). split; [|by apply stream_of_app].
  by rewrite (write_all_appends _ _ _ Hw), Hs, app_assoc.
Qed.

(** [sent] left the queue, [log] is what the stream carries: the same frames and
    keep-alives. *)
Record tx_inv (w : ServerTx) (accepted sent log : list VPNFrame) (q : OwnedBatchQueue) : Prop := {
  ti_queue : be_owned_batches (sx_backend w) = Some q;
  ti_queue_ok : queue_ok q;
  ti_fifo : accepted = sent ++ contents q;
  ti_seq : Forall (fun f => is_u32 (vf_seq f)) accepted;
  ti_rand : rand_ok (sx_rand w);
  ti_stream : carries log (sx_tls w);
  ti_log : filter has_payload log = filter has_payload sent;
  ti_epoch : sx_session_epoch w = epoch;
  ti_pending : 0 <= sx_queued_payload_pending w <= bytes_of sent;
  ti_account : sx_queued w = bytes_of (contents q) + sx_queued_payload_pending w;
  ti_packets : ts_packets (sx_stats w) = u64_wrap (zlen sent) }.

(** Outstanding payload means that TLS output is waiting. *)
Definition settled (w : ServerTx) : Prop := sx_queued_payload_pending w <> 0 -> wants_write (sx_tls w) = true.

(** Two states that the invariant cannot tell apart. *)
Record same_tx (w w' : ServerTx) : Prop := {
  sm_queue : be_owned_batches (sx_backend w') = be_owned_batches (sx_backend w);
  sm_queued : sx_queued w' = sx_queued w;
  sm_rand : sx_rand w' = sx_rand w;
  sm_plain : tls_plaintext (sx_tls w') = tls_plaintext (sx_tls w);
  sm_epoch : sx_session_epoch w' = sx_session_epoch w;
  sm_pending : sx_queued_payload_pending w' = sx_queued_payload_pending w;
  sm_packets : ts_packets (sx_stats w') = ts_packets (sx_stats w) }.

Lemma tx_inv_same w w' accepted sent log q : same_tx w w' -> tx_inv w accepted sent log q -> tx_inv w' accepted sent log q.
Proof. intros [] []. split; try congruence. by eapply carries_same. Qed.

Lemma share_carry_same w c : same_tx w (sx_set_cork w c).
Proof. split; try done; cbn; unfold sx_queued; cbn; unfold share_carry; by destruct (ck_carry_state c). Qed.

(** ** Draining *)

Lemma drain_loop_plain t sock stalled now close :
  tls_plaintext (drain_loop t sock stalled now close).1.1.1 = tls_plaintext t.
Proof.
  revert t. induction sock as [|e sock IH]; intros t; cbn [drain_loop]; destruct (wants_write t); try done.
  destruct e as [space| | |]; try done. pose proof (write_tls_plaintext t space) as Hw. destruct (write_tls t space) as [t' n].
  cbn [fst] in Hw. destruct (n =? 0); [done|]. by rewrite IH.
Qed.

Lemma observe_delivered_queued s n now : sb_queued_bytes (observe_delivered s n now) = sb_queued_bytes s.
Proof. unfold observe_delivered. repeat case_match; done. Qed.
Lemma settle_queued b pending now : sb_queued_bytes (be_scheduler (settle b pending now)) =
  if pending =? 0 then sb_queued_bytes (be_scheduler b) else sat_sub (sb_queued_bytes (be_scheduler b)) pending.
Proof. unfold settle. cbn. rewrite observe_delivered_queued. unfold complete_queued. by destruct (pending =? 0). Qed.

Lemma drain_tls_inv w now close accepted sent log q :
  tx_inv w accepted sent log q ->
  tx_inv (drain_tls w now close).1 accepted sent log q /\ settled (drain_tls w now close).1.
Proof.
  intros Hinv. unfold drain_tls, settled.
  pose proof (drain_loop_plain (sx_tls w) (sx_socket w) (sx_write_stalled w) now close) as Hp.
  destruct (drain_loop _ _ _ _ _) as [[[t sock] stalled] close']. cbn [fst] in Hp. cbn zeta.
  destruct (wants_write t) eqn:Ew; cbn [negb].
  { split; [|done]. eapply tx_inv_same; [|exact Hinv]. by split. }
  cbn [sx_set_io sx_queued_payload_pending sx_backend].
  destruct (Z.eqb_spec (sx_queued_payload_pending w) 0) as [E|E]; cbn [negb fst].
  { split; [|by intros []]. eapply tx_inv_same; [|exact Hinv]. by split. }
  split; [|done]. destruct Hinv as [Hq Hqo Hf Hs Hr Hst Hl He Hpd Ha Hpk].
  split; cbn [sx_set_backend sx_set_io sx_backend sx_tls sx_rand sx_session_epoch sx_queued_payload_pending sx_stats]; try done.
  - by apply (carries_same log (sx_tls w)).
  - pose proof (bytes_of_nonneg sent). lia.
  - unfold sx_queued in *. cbn [sx_set_backend sx_backend]. rewrite settle_queued. destruct (Z.eqb_spec (sx_queued_payload_pending w) 0); [done|].
    unfold sat_sub. pose proof (bytes_of_nonneg (contents q)). lia.
Qed.

(** ** One flush *)

Lemma u64_wrap_add a b : u64_wrap (u64_wrap a + b) = u64_wrap (a + b).
Proof. apply Zplus_mod_idemp_l. Qed.

Lemma account_packets s st buf n :
  tf_frames st = 0 \/ ts_packets (account_write s st buf n) = u64_wrap (ts_packets s + tf_frames st).
Proof. unfold account_write. destruct (Z.eqb_spec (tf_frames st) 0); [by left|by right]. Qed.

(** The state after a batch [fs] was written to TLS, before the drain. *)
Lemma written_inv w accepted sent log q b0 rx0 st hit q' fs r buf n t c :
  bytes_of accepted <= U64_MAX -> sx_queued_payload_pending w = 0 -> tx_inv w accepted sent log q ->
  fill_ok ic b0 rx0 q 0 st q' fs -> sb_queued_bytes (be_scheduler b0) = sx_queued w -> rand_ok r -> stream_of ic fs buf ->
  writer_write_all (sx_tls w) buf = Some t -> zlen fs <> 0 ->
  let w1 := sx_set_cork (sx_set_fill w st r hit) c in
  let w2 := sx_set_io w1 t (sx_socket w1) (sx_write_stalled w1) in
  let w3 := sx_set_stats w2 (account_write (sx_stats w2) st buf n) in
  tx_inv (sx_set_backend w3 (sx_backend w3) (u64_sat_add (sx_queued_payload_pending w3) (tf_payload st)))
    accepted (sent ++ fs) (log ++ fs) q'.
Proof.
  intros Hbound Hp0 Hinv Hok Hb0 Hr Hst Hwr Hne. cbv zeta. destruct Hinv as [Hq Hqo Hf Hs Hrw Hstr Hl He Hpd Ha Hpk].
  destruct Hok as [Hbk Hrx Hqo' Hpre _ _ _ _ Hn Hpay _ _].
  assert (Hbytes : bytes_of sent + bytes_of fs + bytes_of (contents q') = bytes_of accepted).
  { rewrite Hf, Hpre, !bytes_of_app. lia. }
  pose proof (bytes_of_nonneg sent). pose proof (bytes_of_nonneg fs). pose proof (bytes_of_nonneg (contents q')).
  assert (Hadd : u64_sat_add 0 (tf_payload st) = bytes_of fs) by (rewrite Hpay; unfold u64_sat_add; lia).
  split; cbn [sx_set_backend sx_set_io sx_set_stats sx_set_cork sx_set_fill sx_backend sx_tls sx_rand sx_session_epoch
    sx_queued_payload_pending sx_stats]; try done.
  - rewrite Hbk. unfold share_carry. by destruct (ck_carry_state c).
  - by rewrite Hf, Hpre, app_assoc.
  - by eapply carries_write.
  - by rewrite !filter_app, Hl.
  - rewrite Hp0, Hadd, bytes_of_app. lia.
  - rewrite Hp0, Hadd. unfold sx_queued in *. cbn [sx_set_backend sx_set_io sx_set_stats sx_set_cork sx_set_fill sx_backend].
    assert (sb_queued_bytes (be_scheduler (share_carry (tf_backend st) c)) = sb_queued_bytes (be_scheduler b0)) as ->.
    { rewrite Hbk. unfold share_carry. by destruct (ck_carry_state c). }
    rewrite Hb0, Ha, Hp0, Hpre, bytes_of_app. lia.
  - destruct (account_packets (sx_stats w) st buf n) as [E|E]; [congruence|]. rewrite E, Hpk, Hn, u64_wrap_add.
    f_equal. rewrite length_app. lia.
Qed.

Lemma flush_batch_inv w now cork_ok close accepted sent log q w' close' :
  bytes_of accepted <= U64_MAX -> settled w -> wants_write (sx_tls w) = false -> tx_inv w accepted sent log q ->
  flush_batch PADDING_CACHE mode (Some (epoch, ic)) ic w now cork_ok close = Some (w', close') ->
  exists sent' log' q', tx_inv w' accepted sent' log' q' /\ settled w'.
Proof.
  intros Hbound Hset Hww Hinv. pose proof Hinv as [Hq Hqo Hf Hs Hrw _ _ _ _ _ _].
  destruct (fill_spec PADDING_CACHE mode cache_big ic (sx_backend w) q (sx_rx w) (sx_rand w) 0 Hq Hqo Hrw)
    as (st & q' & fs & _ & Hfill & Hok & _); [by unfold_ints|].
  unfold flush_batch. rewrite Hfill. cbn [mbind option_bind].
  assert (Hu : Forall (fun f => is_u32 (vf_seq f)) fs).
  { rewrite Hf, (fo_prefix _ _ _ _ _ _ _ _ Hok) in Hs. by apply Forall_app in Hs as [_ [Hs _]%Forall_app]. }
  destruct (pad_fill_spec PADDING_CACHE mode ic _ _ _ _ _ _ _ (sx_pad_record_limit w) Hok Hu)
    as (r & buf & n & -> & Hr & Hst & Hlen & Hnil). cbv zeta.
  assert (Hp0 : sx_queued_payload_pending w = 0) by (destruct (Z.eq_dec (sx_queued_payload_pending w) 0) as [|E]; [done|specialize (Hset E); congruence]).
  destruct (bool_decide (buf = [])) eqn:Eb; cbn [negb].
  - apply bool_decide_eq_true in Eb. apply Hnil in Eb as ->. intros [= Hd].
    pose proof (drain_tls_inv (sx_set_fill w st r (STREAM_TLS_BATCH_SOFT_LIMIT <=? zlen (tf_buf st))) now close accepted sent log q') as Hdr.
    rewrite Hd in Hdr. exists sent, log, q'. apply Hdr. destruct Hinv as [_ _ _ _ _ Hstr Hl He Hpd Ha Hpk].
    destruct Hok as [Hbk _ Hqo' Hpre _ _ _ _ _ _ _ _]. cbn [app] in Hpre.
    split; cbn [sx_set_fill sx_backend sx_tls sx_rand sx_session_epoch sx_queued_payload_pending sx_stats]; try done;
      [by rewrite Hbk|by rewrite <-Hpre|]. unfold sx_queued in *. cbn [sx_set_fill sx_backend]. rewrite Hbk, <-Hpre. done.
  - apply bool_decide_eq_false in Eb. cbn [sx_set_cork sx_set_fill sx_tls].
    destruct (write_all_room (sx_tls w) buf Hww Hlen) as [t Ht]. rewrite Ht. intros [= Hd].
    assert (Hne : zlen fs <> 0) by (destruct fs; [by destruct Eb; apply Hnil|simpl; lia]).
    pose proof (written_inv w accepted sent log q _ _ st (STREAM_TLS_BATCH_SOFT_LIMIT <=? zlen (tf_buf st)) q' fs r buf n t
      (before_write (sx_batch_cork w) (zlen buf) now cork_ok) Hbound Hp0 Hinv Hok eq_refl Hr Hst Ht Hne) as Hwi.
    apply (drain_tls_inv _ now close) in Hwi.
    match type of Hwi with context [drain_tls ?x now close] =>
      replace (drain_tls x now close) with (w', close') in Hwi by (symmetry; exact Hd) end. by exists (sent ++ fs), (log ++ fs), q'.
Qed.

(** ** Runs keep the invariant *)

Definition tx_live (w : ServerTx) (accepted : list VPNFrame) : Prop :=
  exists sent log q, tx_inv w accepted sent log q /\ settled w.

Lemma live_same w w' accepted :
  same_tx w w' -> (wants_write (sx_tls w) = true -> wants_write (sx_tls w') = true) -> tx_live w accepted -> tx_live w' accepted.
Proof.
  intros Hsame Hw (sent & log & q & Hi & Hs). exists sent, log, q. split; [by eapply tx_inv_same|].
  unfold settled in *. rewrite (sm_pending _ _ Hsame). auto.
Qed.

Lemma flush_outbound_live w now cork_ok close accepted w' close' :
  bytes_of accepted <= U64_MAX -> tx_live w accepted ->
  flush_outbound PADDING_CACHE mode (Some (epoch, ic)) w now cork_ok close = Some (w', close') -> tx_live w' accepted.
Proof.
  intros Hbound Hlive. unfold flush_outbound. cbv zeta. set (w1 := sx_set_backend w _ _).
  assert (H1' : tx_live w1 accepted) by (apply (live_same w); [by split|done|exact Hlive]).
  clearbody w1. clear Hlive. match goal with |- (let '(_, _) := ?x in _) = _ -> _ => destruct x as [w2 close2] eqn:Ed end.
  assert (H2' : tx_live w2 accepted).
  { destruct (_ || _); [|by injection Ed as <- <-]. destruct H1' as (sent & log & q & Hi & _). exists sent, log, q.
    apply (drain_tls_inv w1 now close) in Hi. by rewrite Ed in Hi. }
  destruct (close2 || wants_write (sx_tls w2)) eqn:Ec; [by intros [= <- <-]|]. apply orb_false_iff in Ec as [_ Ew].
  destruct H2' as (sent & log & q & Hi & Hs). destruct (negb _); [intros [= <- <-]; by exists sent, log, q|].
  intros Hf. by eapply flush_batch_inv.
Qed.

Lemma keepalive_live w now accepted : tx_live w accepted -> tx_live (scan_keepalive PADDING_CACHE mode w now) accepted.
Proof.
  intros (sent & log & q & Hi & Hs). unfold scan_keepalive.
  destruct (_ && _ && _) eqn:E; [|by exists sent, log, q]. apply andb_true_iff in E as [_ Ew%negb_true_iff].
  assert (Hp0 : sx_queued_payload_pending w = 0) by (destruct (Z.eq_dec (sx_queued_payload_pending w) 0) as [|E]; [done|specialize (Hs E); congruence]).
  pose proof Hi as [Hq Hqo Hf Hu Hr Hstr Hl He Hpd Ha Hpk].
  destruct (append_frame_spec PADDING_CACHE cache_big mode (sx_rand w) [] 0 [] None (sx_pad_record_limit w) Hr) as (r & pad & Happ & Hr' & Hpad & _); [done|].
  rewrite Happ. cbn [app] in *. set (buf := wire_frame 0 (wire_payload 0 [] None) pad).
  assert (Hk : exists t log', carries log' t /\ filter has_payload log' = filter has_payload sent /\
    match writer_write_all (sx_tls w) buf with Some t => t | None => sx_tls w end = t).
  { destruct (writer_write_all (sx_tls w) buf) as [t|] eqn:Et; [|by exists (sx_tls w), log].
    exists t, (log ++ [{| vf_seq := 0; vf_data := Owned [] |}]). split_and!; [| |done].
    - eapply carries_write; [exact Et| |done]. subst buf.
      assert (wire_payload 0 [] None = wire_payload 0 [] ic) as -> by (unfold wire_payload; by destruct ic).
      apply (stream_of_frame ic {| vf_seq := 0; vf_data := Owned [] |}); [by unfold_ints|done|unfold_ints; lia].
    - rewrite filter_app, filter_cons_False, filter_nil, app_nil_r; [done|]. by intros []. }
  destruct Hk as (t & log' & Hc & Hl' & Et). exists sent, log', q.
  destruct (writer_write_all (sx_tls w) buf); subst; (split; [by split|]); intros Hne; by destruct Hne.
Qed.

Lemma rtt_same w now idle rtt : same_tx w (scan_rtt w now idle rtt) /\ sx_tls (scan_rtt w now idle rtt) = sx_tls w.
Proof. unfold scan_rtt. destruct (_ <? _); by split; [split|]. Qed.

Lemma scan_conn_live w swept now rtt cork_ok accepted w' close' :
  bytes_of accepted <= U64_MAX -> tx_live w accepted ->
  scan_conn PADDING_CACHE mode (Some (epoch, ic)) swept w now rtt cork_ok = Some (w', close') -> tx_live w' accepted.
Proof.
  intros Hbound Hlive. unfold scan_conn. cbv zeta. set (w1 := sx_set_cork w _).
  assert (H1' : tx_live w1 accepted) by (apply (live_same w); [apply share_carry_same|done|exact Hlive]). clearbody w1.
  destruct (15 <? _); [by intros [= <- <-]|]. destruct (negb _); [by intros [= <- <-]|].
  destruct (rtt_same w1 now ((now - tm_last_rx (sx_timers w1)) / SECOND) rtt) as [Hsame Ht].
  set (w2 := scan_rtt _ _ _ _) in *. assert (H2' : tx_live w2 accepted) by (apply (live_same w1); [exact Hsame|by rewrite Ht|done]).
  apply (keepalive_live w2 now) in H2'. set (w3 := scan_keepalive _ _ _ _) in *. clearbody w3.
  destruct swept; [by intros [= <- <-]|]. destruct (write_overdue _ _); [by intros [= <- <-]|].
  destruct (flush_due w3); [by apply flush_outbound_live|by intros [= <- <-]].
Qed.

Lemma push_live w seq data accepted b res :
  is_u32 seq -> bytes_of accepted + frame_len {| vf_seq := seq; vf_data := data |} <= U64_MAX ->
  tx_live w accepted -> try_send_payload_to (sx_backend w) seq data = (b, res) ->
  tx_live (sx_set_backend w b (sx_queued_payload_pending w))
    (match res with Ok _ => accepted ++ [{| vf_seq := seq; vf_data := data |}] | Err _ => accepted end).
Proof.
  set (f := {| vf_seq := seq; vf_data := data |}). intros Hseq Hbound (sent & log & q & Hi & Hs) Hsend.
  pose proof Hi as [Hq Hqo Hf Hu Hr Hstr Hl He Hpd Ha Hpk].
  assert (Hb : sx_queued w + frame_len f <= U64_MAX) by (rewrite Ha; rewrite Hf, bytes_of_app in Hbound; lia).
  assert (Hlen : 0 <= frame_len f) by (unfold frame_len; lia).
  assert (Hadd : sb_queued_bytes (add_queued (be_scheduler (sx_backend w)) (frame_len f)) = sx_queued w + frame_len f).
  { unfold add_queued. destruct (Z.eqb_spec (frame_len f) 0) as [E|E]; [unfold sx_queued; lia|].
    cbn. unfold sx_queued in *. apply Z.mod_small. pose proof (bytes_of_nonneg (contents q)). unfold_ints. lia. }
  unfold try_send_payload_to in Hsend. cbv zeta in Hsend. change (zlen (as_slice data)) with (frame_len f) in Hsend.
  cbn [be_set_sched be_owned_batches be_scheduler] in Hsend. rewrite Hq in Hsend. fold f in Hsend.
  destruct (try_push q f (frame_len f)) as [q'|g] eqn:Ep; injection Hsend as <- <-.
  - destruct (try_push_ok q f q' Hqo Ep) as (Hqo' & Hc & _). exists sent, log, q'. split; [|done].
    split; cbn [sx_set_backend sx_backend sx_tls sx_rand sx_session_epoch sx_queued_payload_pending sx_stats]; try done.
    + by rewrite Hf, Hc, app_assoc.
    + apply Forall_app. split; [done|]. by apply Forall_singleton.
    + unfold sx_queued in *. cbn [sx_set_backend sx_backend be_wake be_set_queue be_set_sched be_scheduler].
      rewrite Hadd, Hc, bytes_of_app. cbn [bytes_of foldr]. lia.
  - exists sent, log, q. split; [|done].
    split; cbn [sx_set_backend sx_backend sx_tls sx_rand sx_session_epoch sx_queued_payload_pending sx_stats]; try done.
    unfold sx_queued in *. cbn [sx_set_backend sx_backend be_set_sched be_scheduler].
    unfold complete_queued. destruct (Z.eqb_spec (frame_len f) 0) as [E|E]; [lia|]. cbn [sb_set_queued sb_queued_bytes].
    rewrite Hadd. unfold sat_sub. pose proof (bytes_of_nonneg (contents q)). lia.
Qed.

Lemma socket_live w sock accepted : tx_live w accepted -> tx_live (with_socket w sock) accepted.
Proof. apply live_same; [by split|done]. Qed.

Lemma run_live ops r :
  Forall (fun f => is_u32 (vf_seq f)) (all_offered ops) -> bytes_of (wr_accepted r) + bytes_of (all_offered ops) <= U64_MAX ->
  tx_live (wr_tx r) (wr_accepted r) -> tx_live (wr_tx (writer_runs r ops)) (wr_accepted (writer_runs r ops)).
Proof.
  revert r. induction ops as [|op ops IH]; intros r Hseq Hbound Hlive; [done|].
  unfold all_offered in Hseq, Hbound. rewrite fmap_cons in Hseq, Hbound. cbn [concat] in Hseq, Hbound.
  fold (all_offered ops) in Hseq, Hbound. apply Forall_app in Hseq as [Hs1 Hs2]. rewrite bytes_of_app in Hbound.
  pose proof (bytes_of_nonneg (offered op)) as Hn1. pose proof (bytes_of_nonneg (all_offered ops)) as Hn2.
  assert (Hstep : bytes_of (wr_accepted (writer_step r op)) <= bytes_of (wr_accepted r) + bytes_of (offered op) /\
    tx_live (wr_tx (writer_step r op)) (wr_accepted (writer_step r op))).
  { unfold writer_step. destruct (wr_closed r); [split; [lia|done]|]. cbv zeta. destruct op as [seq data|sock now ok|sock now rtt ok].
    - destruct (try_send_payload_to _ _ _) as [b res] eqn:Es. cbn [offered bytes_of foldr] in *. apply Forall_cons in Hs1 as [Hs1 _].
      eapply push_live in Es; [|exact Hs1| |exact Hlive]; [|lia]. split; [|exact Es].
      cbn [wr_accepted]. destruct res; [rewrite bytes_of_app; cbn [bytes_of foldr]; lia|lia].
    - destruct (flush_outbound _ _ _ _ _ _ _) as [[w' close']|] eqn:Ef; cbn [after_call wr_accepted wr_tx]; [|split; [lia|done]].
      split; [lia|]. eapply flush_outbound_live; [|exact (socket_live _ sock _ Hlive)|exact Ef]. lia.
    - destruct (scan_conn _ _ _ _ _ _ _ _) as [[w' close']|] eqn:Ef; cbn [after_call wr_accepted wr_tx]; [|split; [lia|done]].
      split; [lia|]. eapply scan_conn_live; [|exact (socket_live _ sock _ Hlive)|exact Ef]. lia. }
  destruct Hstep as [Hb Hl]. apply IH; [done|lia|done].
Qed.

(** A connection as the handshake leaves it. *)
Record fresh_writer (env : option nat) (cap : nat) (w : ServerTx) : Prop := {
  fw_queue : be_owned_batches (sx_backend w) = Some (OwnedBatchQueue_new env cap);
  fw_queued : sx_queued w = 0;
  fw_pending : sx_queued_payload_pending w = 0;
  fw_rand : rand_ok (sx_rand w);
  fw_epoch : sx_session_epoch w = epoch;
  fw_packets : ts_packets (sx_stats w) = 0;
  fw_plain : tls_plaintext (sx_tls w) = prelude }.
Definition run_from (w : ServerTx) (ops : list writer_op) : writer_run :=
  writer_runs {| wr_tx := w; wr_accepted := []; wr_closed := false |} ops.

Lemma fresh_live env cap w : fresh_writer env cap w -> tx_live w [].
Proof.
  intros [Hq Hqd Hp Hr He Hpk Hpl]. exists [], [], (OwnedBatchQueue_new env cap). split; [|by intros []].
  pose proof (OwnedBatchQueue_new_ok env cap). split; try done; cbn; try lia.
  - exists []. rewrite app_nil_r. split; [done|by exists []].
Qed.
Lemma run_from_live env cap w ops :
  fresh_writer env cap w -> Forall (fun f => is_u32 (vf_seq f)) (all_offered ops) -> bytes_of (all_offered ops) <= U64_MAX ->
  tx_live (wr_tx (run_from w ops)) (wr_accepted (run_from w ops)).
Proof. intros Hw Hs Hb. apply run_live; [done|done|]. by eapply fresh_live. Qed.

(** What a receiver reads from a stream that carries [log]. *)
Lemma decode_stream vec_grow lazy log s rd fuel :
  (forall c, c < vec_grow c) -> stream_of ic log s -> Forall event_live rd -> reader_bytes rd = s ->
  (weight rd + length s < fuel)%nat ->
  exists st' got, scan_all vec_grow fuel (FrameScanner_new lazy) rd = (st', Ok got) /\
    mapM (open_payload ic) got = Some ((fun f => (as_slice (vf_data f), vf_seq f)) <$> log).
Proof.
  clear cache_big. intros Hg (ws & Hws & ->) Hl Hrd Hf.
  assert (Hlen : (length ws <= length (concat (wire_triple <$> ws)))%nat).
  { clear. induction ws as [|x ws IH]; [done|]. rewrite fmap_cons. cbn [concat]. rewrite length_app. unfold wire_triple at 1.
    rewrite length_wire_frame, length_cons. lia. }
  destruct (scan_all_spec vec_grow Hg fuel (FrameScanner_new lazy) rd ws []) as (st' & Hscan & _);
    [lia|split; done|done| | | |].
  - apply Forall_lookup. intros i f Hi. destruct (Forall2_lookup_r _ _ _ _ _ Hws Hi) as (x & _ & Hx & _). exact Hx.
  - exists 0, [], [], (wire_frame 0 [] []). split; [by split|done].
  - by rewrite app_nil_r, Hrd.
  - eexists st', _. split; [exact Hscan|]. apply open_frames in Hws. rewrite Hws. by rewrite <-list_fmap_compose.
Qed.

(** C8: over the whole life of a connection (frames queued by the producers, flushes on
    wake-ups, scans with keep-alives, a socket that blocks, takes partial writes or
    fails at any moment) every accepted frame is either still queued or was written to
    TLS: nothing is lost, duplicated or reordered on the way, and rustls never refuses
    a batch.  However the transport cuts what was written, the peer's scanner and
    cipher return exactly the frames that left the queue, in order, apart from empty
    keep-alives. *)
Theorem writer_stream_is_fifo env cap w ops vec_grow lazy rd fuel :
  fresh_writer env cap w -> Forall (fun f => is_u32 (vf_seq f)) (all_offered ops) -> bytes_of (all_offered ops) <= U64_MAX ->
  (forall c, c < vec_grow c) -> Forall event_live rd ->
  tls_plaintext (sx_tls (wr_tx (run_from w ops))) = prelude ++ reader_bytes rd ->
  (weight rd + length (reader_bytes rd) < fuel)%nat ->
  exists sent queue st' got decoded,
    be_owned_batches (sx_backend (wr_tx (run_from w ops))) = Some queue /\
    wr_accepted (run_from w ops) = sent ++ contents queue /\
    scan_all vec_grow fuel (FrameScanner_new lazy) rd = (st', Ok got) /\
    mapM (open_payload ic) got = Some decoded /\
    filter (fun x => x.1 <> []) decoded = (fun f => (as_slice (vf_data f), vf_seq f)) <$> filter has_payload sent.
Proof.
  intros Hw Hs Hb Hg Hl Hplain Hf. destruct (run_from_live env cap w ops Hw Hs Hb) as (sent & log & q & [Hq _ Hacc _ _ (s & Hs1 & Hst) Hlog _ _ _ _] & _).
  rewrite Hs1 in Hplain. apply app_inv_head in Hplain. subst s.
  destruct (decode_stream vec_grow lazy log _ rd fuel Hg Hst Hl eq_refl Hf) as (st' & got & Hscan & Hopen).
  eexists sent, q, st', got, _. split_and!; [done|done|done|done|]. rewrite <-Hlog. clear.
  induction log as [|f log IH]; [done|]. rewrite fmap_cons.
  destruct (decide (has_payload f)) as [E|E].
  - rewrite (filter_cons_True _ (_, _)), (filter_cons_True _ f), fmap_cons by done. by rewrite IH.
  - rewrite (filter_cons_False _ (_, _)), (filter_cons_False _ f) by done. by rewrite IH.
Qed.

(** C34: the scheduler's count of a connection's outstanding bytes is exact: after any
    run it is the payload still queued plus the payload that TLS holds, and as soon as
    TLS has no output left it is the payload still queued; the packet counter is the
    number of frames that left the queue. *)
Theorem scheduler_bytes_exact env cap w ops :
  fresh_writer env cap w -> Forall (fun f => is_u32 (vf_seq f)) (all_offered ops) -> bytes_of (all_offered ops) <= U64_MAX ->
  let w' := wr_tx (run_from w ops) in
  exists sent queue, be_owned_batches (sx_backend w') = Some queue /\
    wr_accepted (run_from w ops) = sent ++ contents queue /\
    sb_queued_bytes (be_scheduler (sx_backend w')) = bytes_of (contents queue) + sx_queued_payload_pending w' /\
    0 <= sx_queued_payload_pending w' <= bytes_of sent /\
    (wants_write (sx_tls w') = false -> sb_queued_bytes (be_scheduler (sx_backend w')) = bytes_of (contents queue)) /\
    ts_packets (sx_stats w') = u64_wrap (zlen sent).
Proof.
  intros Hw Hs Hb w'. destruct (run_from_live env cap w ops Hw Hs Hb) as (sent & log & q & [Hq _ Hacc _ _ _ _ _ Hp Ha Hpk] & Hset).
  exists sent, q. fold w' in Hq, Hp, Ha, Hpk, Hset. split_and!; [done|done|exact Ha|lia|lia| |done].
  intros Hww. change (sx_queued w' = bytes_of (contents q)). rewrite Ha.
  destruct (Z.eq_dec (sx_queued_payload_pending w') 0) as [E|E]; [lia|]. specialize (Hset E). congruence.
Qed.
End WriterRun.

(** ** Concrete connections *)

(** A TLS connection that turns plaintext into as many bytes of output. *)
#[export] Instance plain_tls : Rustls := {|
  tls := list Z * Z;
  wants_write := fun t => 0 <? t.2;
  writer_write_all := fun t buf => Some (t.1 ++ buf, t.2 + zlen buf);
  write_tls := fun t n => ((t.1, Z.max 0 t.2 - Z.max 0 (Z.min n t.2)), Z.max 0 (Z.min n t.2));
  send_close_notify := fun t => t |}.
#[export, program] Instance plain_tls_laws : @RustlsLaws plain_tls := {|
  tls_output := fun t => Z.max 0 t.2;
  tls_plaintext := fun t => t.1 |}.
Next Obligation. simpl. lia. Qed.
Next Obligation. simpl. lia. Qed.
Next Obligation. simpl. intros t buf t' [= <-]. done. Qed.
Next Obligation. simpl. intros t buf _ _. by eexists. Qed.
Next Obligation. done. Qed.
Next Obligation. simpl. lia. Qed.

Definition demo_cache : list Z := replicate 4096 9.
Definition demo_writer (plain : list Z) : ServerTx :=
  {| sx_tls := (plain, 0); sx_socket := [];
     sx_backend := be_set_notify (demo_be 1 64 0)
       (Some {| bn_token := 1; bn_pending := false; bn_dirty := []; bn_dirty_cap := 8; bn_wakes := 0 |});
     sx_rx := []; sx_rand := {| fr_state := 5 |}; sx_write_stalled := None; sx_queued_payload_pending := 0;
     sx_tx_leftover := false; sx_batch_cork := cork_disabled; sx_pad_record_limit := 1408; sx_session_epoch := 1;
     sx_timers := {| tm_handshake_done := true; tm_last_rx := 0; tm_rtt_timer := 0; tm_last_keepalive := 0 |};
     sx_stats := {| ts_packets := 0; ts_bytes := 0; ts_written := TxFrameTotals_default; ts_padding := (0, 0) |} |}.
Definition demo_cipher : option InnerCipher := Some (ChaCha20 (replicate 32 3) (replicate 8 4)).
Lemma demo_writer_fresh plain : fresh_writer 1 plain None 64 (demo_writer plain).
Proof. by split. Qed.

(** Two flushes around a blocked socket, then a scan that sends a keep-alive. *)
Definition demo_writer_ops : list writer_op :=
  [WPush 1 (Owned [1; 2; 3]); WPush 2 (Owned [4]); WFlush [SAccept 20; SBlock] 100 true; WPush 3 (Owned (replicate 40 7));
   WFlush [SBlock] 200 true; WFlush [SAccept 1000; SAccept 1000] 300 true; WScan [SAccept 1000] 5000000 120 true;
   WPush 0 (Owned [2; 2])].

Lemma writer_stream_is_fifo_witness :
  let stream := drop 2 (sx_tls (wr_tx (run_from demo_cache PAD_BUCKET 1 demo_cipher (demo_writer [8; 8]) demo_writer_ops))).1 in
  let rd := [RData (take 33 stream); RBlock; RData (drop 33 stream)] in
  exists sent queue st' got decoded,
    be_owned_batches (sx_backend (wr_tx (run_from demo_cache PAD_BUCKET 1 demo_cipher (demo_writer [8; 8]) demo_writer_ops))) = Some queue /\
    wr_accepted (run_from demo_cache PAD_BUCKET 1 demo_cipher (demo_writer [8; 8]) demo_writer_ops) = sent ++ contents queue /\
    scan_all (fun c => c + 1) 6000 (FrameScanner_new false) rd = (st', Ok got) /\
    mapM (open_payload demo_cipher) got = Some decoded /\
    filter (fun x => x.1 <> []) decoded = (fun f => (as_slice (vf_data f), vf_seq f)) <$> filter has_payload sent.
Proof.
  intros stream rd.
  apply (writer_stream_is_fifo demo_cache PAD_BUCKET ltac:(vm_compute; discriminate) 1 demo_cipher [8; 8] None 64
    (demo_writer [8; 8]) demo_writer_ops (fun c => c + 1) false rd 6000).
  - apply demo_writer_fresh.
  - repeat constructor; vm_compute; done.
  - vm_compute. discriminate.
  - lia.
  - repeat constructor; vm_compute; done.
  - vm_compute. reflexivity.
  - vm_compute. lia.
Defined.

Lemma scheduler_bytes_exact_witness :
  let w' := wr_tx (run_from demo_cache PAD_BUCKET 1 demo_cipher (demo_writer []) demo_writer_ops) in
  exists sent queue, be_owned_batches (sx_backend w') = Some queue /\
    wr_accepted (run_from demo_cache PAD_BUCKET 1 demo_cipher (demo_writer []) demo_writer_ops) = sent ++ contents queue /\
    sb_queued_bytes (be_scheduler (sx_backend w')) = bytes_of (contents queue) + sx_queued_payload_pending w' /\
    0 <= sx_queued_payload_pending w' <= bytes_of sent /\
    (wants_write (sx_tls w') = false -> sb_queued_bytes (be_scheduler (sx_backend w')) = bytes_of (contents queue)) /\
    ts_packets (sx_stats w') = u64_wrap (zlen sent).
Proof.
  apply (scheduler_bytes_exact demo_cache PAD_BUCKET ltac:(vm_compute; discriminate) 1 demo_cipher [] None 64
    (demo_writer []) demo_writer_ops).
  - apply demo_writer_fresh.
  - repeat constructor; vm_compute; done.
  - vm_compute. discriminate.
Defined.

Definition demo_filled : OwnedBatchQueue :=
  match try_push (OwnedBatchQueue_new None 64) (demo_frame 1 900) 900 with Ok q => q | Err _ => OwnedBatchQueue_new None 64 end.
Lemma demo_filled_ok : queue_ok demo_filled.
Proof. by apply (try_push_ok (OwnedBatchQueue_new None 64) (demo_frame 1 900)); [apply OwnedBatchQueue_new_ok|]. Qed.

Lemma writer_loops_agree_witness :
  let b := be_set_queue (demo_be 1 64 0) demo_filled in
  exists st q' fs,
    client_fill demo_cache PAD_BUCKET demo_cipher (tf_start b [] {| fr_state := 5 |} 0) = Some st /\
    server_fill demo_cache PAD_BUCKET demo_cipher (tf_start b [] {| fr_state := 5 |} 0)
      = Some (st, STREAM_TLS_BATCH_SOFT_LIMIT <=? zlen (tf_buf st)) /\
    be_owned_batches (tf_backend st) = Some q' /\ contents demo_filled = fs ++ contents q' /\
    tf_buf st = concat (wire_of demo_cipher <$> fs) /\ zlen (tf_buf st) <= 15872 /\
    tf_frames st = zlen fs /\ zlen fs < PULL_LIMIT /\ tf_payload st = Z.min U64_MAX (0 + bytes_of fs) /\
    fill_done (tf_buf st) q'.
Proof.
  intros b. apply (writer_loops_agree demo_cache PAD_BUCKET ltac:(vm_compute; discriminate) demo_cipher b demo_filled []
    {| fr_state := 5 |} 0).
  - reflexivity.
  - exact demo_filled_ok.
  - by split.
  - by unfold_ints.
Defined.

(** Twelve sealed frames of 1300 bytes are two batches; the second does not fit beside
    the first, so the flush stops below its soft limit with [tx_leftover] unset and the
    wake-up consumed: half of the frames stay queued and the next scan does not look
    at them, until another frame is queued or the next keep-alive is due. *)
Definition strand_ops : list writer_op :=
  (fun i => WPush (Z.of_nat i) (Owned (replicate 1300 7))) <$> seq 1 12.
Example unfit_batch_strands_frames :
  let flushed := run_from demo_cache PAD_OFF 1 demo_cipher (demo_writer []) (strand_ops ++ [WFlush [SAccept 20000] 100 true]) in
  let scanned := writer_runs demo_cache PAD_OFF 1 demo_cipher flushed [WScan [SAccept 20000] 1000000 120 true] in
  (length ∘ contents <$> be_owned_batches (sx_backend (wr_tx flushed))) = Some 6%nat /\
  flush_due (wr_tx flushed) = false /\ wr_closed scanned = false /\
  (length ∘ contents <$> be_owned_batches (sx_backend (wr_tx scanned))) = Some 6%nat.
Proof. vm_compute. done. Qed.

(** A frame of 16000 bytes, which the receive path accepts and the switch forwards, is
    at the front of a queue that no flush can serve any more. *)
Example oversized_frame_is_stuck :
  let r := run_from demo_cache PAD_OFF 1 demo_cipher (demo_writer [])
    [WPush 1 (Owned (replicate 16000 7)); WPush 2 (Owned [1]); WFlush [SAccept 20000] 100 true] in
  (fun q => estimated_wire <$> qi_batches (oq_inner q)) <$> be_owned_batches (sx_backend (wr_tx r)) = Some [16032; 33].
Proof. vm_compute. done. Qed.
