(* ===== verification/Reader.v ===== *)
(** * The server's receive loop: [process_plain_frames] and [flush_server_rx_batch]
      of [src/src/server.rs]

    One call drains the plaintext that TLS has ready on a connection whose handshake is
    done: frames are cut by the scanner, opened, checked against the session's epoch and
    handed either to the session's receive actor through the connection's producer, or,
    for sessions of one connection, through duplicate filter, FEC decoder and reorder
    buffer of the session in batches; what comes out goes to the switch.  The session,
    shared by its connections, is a field of the state.  The clock is an argument. *)
From S2P Require Import Prelude Protocol Utils Crypto Frame Xor Fec Buffer Reorder RxActor Adaptive Queue Port VSwitch Pool Brutal PeerInfo Session.

(** The receiving half of [MioSession]. *)
Record RxLink := {
  rl_scanner : FrameScanner;
  rl_ic_rx : option InnerCipher;
  rl_session_epoch : Z;
  rl_producer : option RxProducer;
  rl_fec_data : list (Z * frame);
  rl_reorder_input : list (Z * frame);
  rl_last_rx : Z }.

Section Reader.
Context `{FrameChannel} `{CryptoPrims}.
Context (p : cpu) (vec_grow : Z -> Z).
(** TLSVPN_RX_BATCH, the static bypass and TLSVPN_SWITCH_BATCH. *)
Context (rx_batch_cap : nat) (rx_bypass_enabled switch_batch_enabled : bool).

(** The state of a call: connection, session, switch with what it delivered, the local
    counters, whether a frame reached the batches ([batch_session]), and [close]. *)
Record rx_call := {
  rc_link : RxLink;
  rc_session : ClientSession;
  rc_switch : VSwitch;
  rc_out : list delivery;
  rc_bytes : Z;
  rc_packets : Z;
  rc_batch_session : bool;
  rc_close : bool }.

Definition rl_set_batches (l : RxLink) (fec_data reorder_input : list (Z * frame)) : RxLink :=
  {| rl_scanner := rl_scanner l; rl_ic_rx := rl_ic_rx l; rl_session_epoch := rl_session_epoch l;
     rl_producer := rl_producer l; rl_fec_data := fec_data; rl_reorder_input := reorder_input; rl_last_rx := rl_last_rx l |}.
Definition rl_set_io (l : RxLink) (sc : FrameScanner) (producer : option RxProducer) (last_rx : Z) : RxLink :=
  {| rl_scanner := sc; rl_ic_rx := rl_ic_rx l; rl_session_epoch := rl_session_epoch l;
     rl_producer := producer; rl_fec_data := rl_fec_data l; rl_reorder_input := rl_reorder_input l; rl_last_rx := last_rx |}.
Definition rc_set (c : rx_call) (l : RxLink) (s : ClientSession) (vs : VSwitch) (out : list delivery) : rx_call :=
  {| rc_link := l; rc_session := s; rc_switch := vs; rc_out := out; rc_bytes := rc_bytes c; rc_packets := rc_packets c;
     rc_batch_session := rc_batch_session c; rc_close := rc_close c |}.
Definition rc_set_link (c : rx_call) (l : RxLink) : rx_call := rc_set c l (rc_session c) (rc_switch c) (rc_out c).
Definition rc_count (c : rx_call) (n : nat) : rx_call :=
  {| rc_link := rc_link c; rc_session := rc_session c; rc_switch := rc_switch c; rc_out := rc_out c;
     rc_bytes := u64_sat_add (rc_bytes c) (Z.of_nat n + 10); rc_packets := u64_sat_add (rc_packets c) 1;
     rc_batch_session := rc_batch_session c; rc_close := rc_close c |}.
Definition rc_flags (c : rx_call) (batch_session close : bool) : rx_call :=
  {| rc_link := rc_link c; rc_session := rc_session c; rc_switch := rc_switch c; rc_out := rc_out c; rc_bytes := rc_bytes c;
     rc_packets := rc_packets c; rc_batch_session := batch_session; rc_close := close |}.

(** ** To the switch *)

(** The frames of a session, from the reorder buffer or from the actor's sink. *)
Definition process_ordered (s : ClientSession) (vs : VSwitch) (f : frame) (now : Z) : VSwitch * list delivery :=
  if bool_decide (cs_mac_bin s <> null_mac)
  then process_session_frame vs (st_client_id (cs_stat s)) (cs_mac_bin s) (Shared f) now
  else process_frame_inner vs (st_client_id (cs_stat s)) None (Shared f) now.
Fixpoint process_all (s : ClientSession) (vs : VSwitch) (ready : list frame) (now : Z) : VSwitch * list delivery :=
  match ready with
  | [] => (vs, [])
  | f :: ready =>
      let '(vs, out) := process_ordered s vs f now in
      let '(vs, out') := process_all s vs ready now in (vs, out ++ out')
  end.
Definition to_switch (s : ClientSession) (vs : VSwitch) (ready : list frame) (now : Z) : VSwitch * list delivery :=
  if bool_decide (cs_mac_bin s <> null_mac) && switch_batch_enabled
  then process_session_batch vs (st_client_id (cs_stat s)) (cs_mac_bin s) (Shared <$> ready) now
  else process_all s vs ready now.

(** ** Batches of a session without the actor *)

Definition cs_set_reorder (s : ClientSession) (rb : ReorderBuffer) : ClientSession :=
  cs_set_rx s rb (cs_dedup s) (cs_rx_actor s).
Definition static_rx (s : ClientSession) : bool :=
  bool_decide (cs_rx_actor s = None) && bool_decide (es_fec_dec (cs_epoch_state s) = None) &&
  (st_active_conns (cs_stat s) =? 1) && rx_bypass_enabled.

Definition flush_server_rx_batch (s : ClientSession) (vs : VSwitch) (fec_data reorder_input : list (Z * frame)) (now : Z)
  : ClientSession * VSwitch * list delivery :=
  let '(s, recovered) :=
    match es_fec_dec (cs_epoch_state s) with
    | Some d =>
        match fec_data with
        | [] => (s, [])
        | _ =>
            let '(d, r) := on_data_batch p d (Some (rb_expected_seq (cs_reorder_buf s))) fec_data in
            (cs_set_dec s (Some d), r)
        end
    | None => (s, [])
    end in
  match reorder_input ++ recovered with
  | [] => (s, vs, [])
  | input =>
      let direct := if static_rx s then try_direct_batch (cs_reorder_buf s) input else None in
      let '(rb, ready) := match direct with Some r => r | None => insert_all (cs_reorder_buf s) now input end in
      let s := cs_set_reorder s rb in
      let '(vs, out) := to_switch s vs ready now in
      (s, vs, out)
  end.

Definition rc_flush (c : rx_call) (now : Z) : rx_call :=
  let '(s, vs, out) := flush_server_rx_batch (rc_session c) (rc_switch c) (rl_fec_data (rc_link c))
                         (rl_reorder_input (rc_link c)) now in
  rc_set c (rl_set_batches (rc_link c) [] []) s vs (rc_out c ++ out).

(** ** One frame *)

Definition open_frame (l : RxLink) (raw : list Z) (seq : Z) : option (list Z) :=
  if negb (seq =? 0) then
    match rl_ic_rx l with
    | Some ic => open_in_place ic raw seq (u32_wrap (zlen raw))
    | None => Some raw
    end
  else Some raw.

(** What the actor hands to its sink. *)
Definition rc_actor (c : rx_call) (a : RxActorState) (pr : RxProducer) (ready : list frame) (now : Z) : rx_call :=
  let s := cs_set_rx (rc_session c) (cs_reorder_buf (rc_session c)) (cs_dedup (rc_session c)) (Some a) in
  let '(vs, out) := to_switch s (rc_switch c) ready now in
  rc_set c (rl_set_io (rc_link c) (rl_scanner (rc_link c)) (Some pr) (rl_last_rx (rc_link c))) s vs (rc_out c ++ out).

Definition close_call (c : rx_call) : rx_call := rc_flags c (rc_batch_session c) true.

(** The duplicate filter and the batches, flushed at their limit. *)
Definition batch_data (c : rx_call) (seq : Z) (data : list Z) (now : Z) : rx_call :=
  let s := rc_session c in
  let l := rc_link c in
  let fec_data := if bool_decide (is_Some (es_fec_dec (cs_epoch_state s))) then rl_fec_data l ++ [(seq, data)] else rl_fec_data l in
  let '(dd, duplicate) := if static_rx s then (cs_dedup s, false) else is_duplicate (cs_dedup s) seq in
  let s := cs_set_rx s (cs_reorder_buf s) dd (cs_rx_actor s) in
  let reorder_input := if duplicate then rl_reorder_input l else rl_reorder_input l ++ [(seq, data)] in
  let c := rc_set c (rl_set_batches l fec_data reorder_input) s (rc_switch c) (rc_out c) in
  if (rx_batch_cap <=? length fec_data)%nat || (rx_batch_cap <=? length reorder_input)%nat then rc_flush c now else c.

(** [true] in the result continues the loop. *)
Definition on_plain_frame (c : rx_call) (raw : list Z) (seq now : Z) : rx_call * bool :=
  let l := rc_link c in
  if bool_decide (raw = []) then (rc_set_link c (rl_set_io l (rl_scanner l) (rl_producer l) now), true)
  else
    let c := rc_count c (length raw) in
    match open_frame l raw seq with
    | None => (c, true)
    | Some data =>
        let s := rc_session c in
        if negb (rl_session_epoch l =? es_epoch (cs_epoch_state s)) then (close_call c, false)
        else
          match rl_producer l with
          | Some pr =>
              match cs_rx_actor s with
              | None => (close_call c, false)
              | Some a =>
                  let '(a, pr, ready, ok) := producer_push p a pr {| rf_seq := seq; rf_data := data; rf_now := now |} in
                  let c := rc_actor c a pr ready now in
                  if ok then (c, true) else (close_call c, false)
              end
          | None =>
              let c := rc_flags c true (rc_close c) in
              if seq =? 0 then
                match es_fec_dec (cs_epoch_state s) with
                | None => (close_call c, false)
                | Some d =>
                    match on_control p d (Some (rb_expected_seq (cs_reorder_buf s))) data with
                    | (d, Ok r) =>
                        (rc_set c (rl_set_batches l (rl_fec_data l) (rl_reorder_input l ++ option_list r))
                           (cs_set_dec s (Some d)) (rc_switch c) (rc_out c), true)
                    | (d, Err _) => (close_call (rc_set c l (cs_set_dec s (Some d)) (rc_switch c) (rc_out c)), false)
                    end
                end
              else (batch_data c seq data now, true)
          end
    end.

(** ** The loop *)

(** [None] is a loop that was cut off; the result carries what the reader still holds. *)
Fixpoint plain_loop (turns : nat) (c : rx_call) (rd : list read_event) (now : Z) : option (rx_call * list read_event) :=
  match turns with
  | O => None
  | S turns =>
      let l := rc_link c in
      match read_frame vec_grow (rl_scanner l) rd with
      | (sc, rd, r) =>
          let c := rc_set_link c (rl_set_io l sc (rl_producer l) (rl_last_rx l)) in
          match r with
          | Ok (Some (raw, seq)) =>
              let '(c, go) := on_plain_frame c raw seq now in
              if go then plain_loop turns c rd now else Some (c, rd)
          | Ok None => Some (c, rd)
          | Err _ => Some (close_call c, rd)
          end
      end
  end.

(** Bytes that can still become frames; a frame takes at least ten. *)
Definition unread (sc : FrameScanner) (rd : list read_event) : nat :=
  (length (fs_buffer sc) - fs_offset sc + length (reader_bytes rd))%nat.

(** After the loop: the producer is flushed and asked for the actor's error, or the
    session's batches are flushed. *)
Definition plain_finish (c : rx_call) (now : Z) : rx_call :=
  match rl_producer (rc_link c) with
  | Some pr =>
      match cs_rx_actor (rc_session c) with
      | None => close_call c
      | Some a =>
          let '(a, pr, ready, ok) := producer_flush p a pr in
          let '(pr, err) := take_error pr in
          let c := rc_actor c a pr ready now in
          if negb ok || bool_decide (is_Some err) then close_call c else c
      end
  | None => if rc_batch_session c then rc_flush c now else c
  end.

(** The whole call.  [rc_bytes] and [rc_packets] are what it adds to the session's
    statistics, [rc_close] is [close]. *)
Definition process_plain_frames (l : RxLink) (s : ClientSession) (vs : VSwitch) (rd : list read_event) (now : Z)
  : option (rx_call * list read_event) :=
  let c := {| rc_link := l; rc_session := s; rc_switch := vs; rc_out := []; rc_bytes := 0; rc_packets := 0;
              rc_batch_session := false; rc_close := false |} in
  match rl_producer l with
  | Some pr =>
      let '(pr, err) := take_error pr in
      let c := rc_set_link c (rl_set_io l (rl_scanner l) (Some pr) (rl_last_rx l)) in
      if bool_decide (is_Some err) then Some (close_call c, rd)
      else
        '(c, rd) ← plain_loop (S (unread (rl_scanner l) rd)) c rd now;
        Some (plain_finish c now, rd)
  | None =>
      '(c, rd) ← plain_loop (S (unread (rl_scanner l) rd)) c rd now;
      Some (plain_finish c now, rd)
  end.
End Reader.
