(* ===== verification/ReaderSpec.v ===== *)
(** * What the server's receive loop guarantees

    It ends; the size of the receive batches is invisible; it leaves no frame behind. *)
From S2P Require Import Prelude Protocol Utils Crypto Frame Xor Fec Buffer Reorder RxActor Adaptive Queue Port VSwitch Pool Brutal PeerInfo PortSpec Session Reader.

(** ** A frame takes at least ten bytes *)

Lemma compact_unread st b rd : unread (compact_consumed st b) rd = unread st rd.
Proof.
  unfold unread, compact_consumed. repeat case_match; cbn [fs_set fs_buffer fs_offset]; rewrite ?length_drop; lia.
Qed.
Lemma take_frame_unread st st' r rd :
  take_buffered_frame st = (st', Ok r) -> (unread st' rd + match r with Some _ => 10 | None => 0 end <= unread st rd)%nat.
Proof.
  unfold take_buffered_frame. destruct (Nat.ltb_spec (length (fs_buffer st) - fs_offset st) HEADER_SIZE); [intros [= <- <-]; lia|].
  cbv zeta. destruct (_ <? _); [done|]. destruct (Z.ltb_spec (Z.of_nat (length (fs_buffer st) - fs_offset st)) (Z.of_nat HEADER_SIZE +
    (be_decode (slice (fs_offset st) (fs_offset st + 4) (fs_buffer st)) + be_decode (slice (fs_offset st + 4) (fs_offset st + 6) (fs_buffer st)))))
    as [|Hle]; [intros [= <- <-]; lia|].
  intros [= <- <-]. rewrite compact_unread. unfold unread. cbn [fs_set fs_buffer fs_offset]. unfold HEADER_SIZE in *. lia.
Qed.

Section ReaderSpec.
Context `{FrameChannel} `{CryptoPrims}.
Context (p : cpu) (vec_grow : Z -> Z).

Lemma reader_read_bytes rd space :
  length (reader_bytes rd) =
  (length (reader_bytes (reader_read rd space).1) + match (reader_read rd space).2 with ReadOk b => length b | _ => 0 end)%nat.
Proof.
  destruct rd as [|[c| |] rd]; cbn [reader_read]; [done|destruct (zlen c <=? space)| |];
    cbn [fst snd]; unfold reader_bytes; rewrite !fmap_cons; cbn [concat event_bytes app];
    rewrite ?length_app, ?length_take, ?length_drop; lia.
Qed.

Lemma read_loop_unread fuel st rd st' rd' r :
  read_loop vec_grow fuel st rd = (st', rd', Ok r) -> (unread st' rd' + match r with Some _ => 10 | None => 0 end <= unread st rd)%nat.
Proof.
  revert st rd. induction fuel as [|fuel IH]; intros st rd; cbn [read_loop]; [intros [= <- <- <-]; lia|].
  destruct (take_buffered_frame st) as [st1 [[f|]|e]] eqn:Et; [| |done].
  { intros [= <- <- <-]. by apply (take_frame_unread _ _ _ rd) in Et. }
  apply (take_frame_unread _ _ _ rd) in Et. set (st2 := reserve_capacity vec_grow (compact_consumed st1 true)).
  assert (E2 : unread st2 rd = unread st1 rd) by apply compact_unread.
  pose proof (reader_read_bytes rd (Z.min (fs_capacity st2 - zlen (fs_buffer st2)) 16384)) as Hb.
  destruct (reader_read rd _) as [rd1 rr]. cbn [fst snd] in Hb. unfold unread in *.
  destruct rr as [[|b bytes]| |]; [intros [= <- <- <-]; simpl in Hb; lia| |intros [= <- <- <-]; lia|done].
  intros Hl%IH. cbn [fs_set fs_buffer fs_offset] in Hl. rewrite length_app in Hl. lia.
Qed.

(** ** The loop ends *)

Context (rx_bypass_enabled switch_batch_enabled : bool).
Section Ends.
Context (rx_batch_cap : nat).

Definition same_scanner (c c' : rx_call) : Prop := rl_scanner (rc_link c') = rl_scanner (rc_link c).
Lemma rc_flush_scanner c now : same_scanner c (rc_flush p rx_bypass_enabled switch_batch_enabled c now).
Proof. unfold same_scanner, rc_flush. by destruct (flush_server_rx_batch _ _ _ _ _ _ _ _) as [[s vs] out]. Qed.
Lemma rc_actor_scanner c a pr ready now : same_scanner c (rc_actor switch_batch_enabled c a pr ready now).
Proof. unfold same_scanner, rc_actor. by destruct (to_switch _ _ _ _ _) as [vs out]. Qed.
Lemma batch_data_scanner c seq data now : same_scanner c (batch_data p rx_batch_cap rx_bypass_enabled switch_batch_enabled c seq data now).
Proof.
  unfold batch_data. destruct (if static_rx _ _ then _ else _) as [dd dup]. cbv zeta.
  destruct (_ || _); [|done]. etransitivity; [apply rc_flush_scanner|done].
Qed.
Lemma on_plain_scanner c raw seq now :
  same_scanner c (on_plain_frame p rx_batch_cap rx_bypass_enabled switch_batch_enabled c raw seq now).1.
Proof.
  unfold on_plain_frame. destruct (bool_decide _); [done|]. destruct (open_frame _ _ _) as [data|]; [|done]. cbv zeta.
  destruct (negb _); [done|]. destruct (rl_producer _) as [pr|].
  - destruct (cs_rx_actor _) as [a|]; [|done]. destruct (producer_push _ _ _ _) as [[[a' pr'] ready] ok].
    pose proof (rc_actor_scanner (rc_count c (length raw)) a' pr' ready now) as Ha. unfold same_scanner in *.
    destruct ok; exact Ha.
  - destruct (seq =? 0); [|exact (batch_data_scanner _ _ _ _)]. destruct (es_fec_dec _) as [d|]; [|done].
    by destruct (on_control _ _ _ _) as [d' [r|e]].
Qed.

Lemma plain_loop_total turns c rd now :
  (unread (rl_scanner (rc_link c)) rd < turns)%nat ->
  is_Some (plain_loop p vec_grow rx_batch_cap rx_bypass_enabled switch_batch_enabled turns c rd now).
Proof.
  revert c rd. induction turns as [|turns IH]; intros c rd Hu; [lia|]. cbn [plain_loop]. unfold read_frame.
  destruct (read_loop _ _ _ _) as [[sc rd'] r] eqn:Er. destruct r as [[[raw seq]|]|e]; [|done|done].
  apply read_loop_unread in Er. set (c1 := rc_set_link c _).
  pose proof (on_plain_scanner c1 raw seq now) as Hs. destruct (on_plain_frame _ _ _ _ _ _ _ _) as [c2 go]. destruct go; [|done].
  apply IH. cbn [fst] in Hs. rewrite Hs. cbn. lia.
Qed.
End Ends.

(** ** The switch sees frames, not batches *)

Lemma process_all_same s s' vs ready now :
  cs_mac_bin s' = cs_mac_bin s -> st_client_id (cs_stat s') = st_client_id (cs_stat s) ->
  process_all s' vs ready now = process_all s vs ready now.
Proof.
  intros Hm Hi. revert vs. induction ready as [|f ready IH]; intros vs; [done|]. cbn [process_all].
  unfold process_ordered. rewrite Hm, Hi. case_match; by rewrite IH.
Qed.
Lemma process_all_app s vs r1 r2 now :
  process_all s vs (r1 ++ r2) now =
  let '(vs, o1) := process_all s vs r1 now in let '(vs, o2) := process_all s vs r2 now in (vs, o1 ++ o2).
Proof.
  revert vs. induction r1 as [|f r1 IH]; intros vs; cbn [app process_all]; [by destruct (process_all s vs r2 now)|].
  destruct (process_ordered s vs f now) as [vs1 o1]. rewrite IH. destruct (process_all s vs1 r1 now) as [vs2 o2].
  destruct (process_all s vs2 r2 now) as [vs3 o3]. by rewrite app_assoc.
Qed.
Lemma to_switch_all s vs ready now : to_switch switch_batch_enabled s vs ready now = process_all s vs ready now.
Proof.
  unfold to_switch. destruct (bool_decide (cs_mac_bin s <> null_mac)) eqn:Em; [|done]. destruct switch_batch_enabled; [|done]. cbn [andb].
  unfold process_session_batch. rewrite batch_loop_each by done.
  revert vs. induction ready as [|f ready IH]; intros vs; [done|]. rewrite fmap_cons. cbn [process_each process_all].
  unfold process_ordered. rewrite Em. destruct (process_session_frame _ _ _ _ _) as [vs1 o1]. by rewrite IH.
Qed.

Lemma insert_all_app rb now l1 l2 :
  insert_all rb now (l1 ++ l2) =
  let '(rb, o1) := insert_all rb now l1 in let '(rb, o2) := insert_all rb now l2 in (rb, o1 ++ o2).
Proof.
  revert rb. induction l1 as [|[s f] l1 IH]; intros rb; cbn [app insert_all]; [by destruct (insert_all rb now l2)|].
  destruct (insert_into rb now s f) as [rb1 o1]. rewrite IH. destruct (insert_all rb1 now l1) as [rb2 o2].
  destruct (insert_all rb2 now l2) as [rb3 o3]. by rewrite app_assoc.
Qed.

(** ** Sessions without the actor *)

Section Legacy.
Context (cap : nat) (now : Z).

(** Neither FEC nor the static bypass; nothing waits in the batches. *)
Record legacy_mode (c : rx_call) : Prop := {
  lm_fec_data : rl_fec_data (rc_link c) = [];
  lm_input : rl_reorder_input (rc_link c) = [];
  lm_producer : rl_producer (rc_link c) = None;
  lm_dec : es_fec_dec (cs_epoch_state (rc_session c)) = None;
  lm_static : static_rx rx_bypass_enabled (rc_session c) = false }.

Lemma static_reorder s rb dd :
  static_rx rx_bypass_enabled (cs_set_rx s rb dd (cs_rx_actor s)) = static_rx rx_bypass_enabled s.
Proof. done. Qed.

(** In this mode a flush is insertion one by one. *)
Lemma flush_legacy s vs fec_data input :
  es_fec_dec (cs_epoch_state s) = None -> static_rx rx_bypass_enabled s = false ->
  flush_server_rx_batch p rx_bypass_enabled switch_batch_enabled s vs fec_data input now =
  let '(rb, ready) := insert_all (cs_reorder_buf s) now input in
  let '(vs, out) := process_all s vs ready now in (cs_set_reorder s rb, vs, out).
Proof.
  intros Hd Hs. unfold flush_server_rx_batch. rewrite Hd, app_nil_r.
  destruct input as [|x input]; [cbn; by destruct s|]. rewrite Hs.
  destruct (insert_all _ _ _) as [rb ready]. rewrite to_switch_all. by rewrite (process_all_same s) by done.
Qed.

(** The call [c1] with batches of [cap] against the call [c2] without batching. *)
Definition lags (c1 c2 : rx_call) : Prop :=
  legacy_mode c2 /\ exists l rb vs out ready o,
    c1 = rc_set c2 (rl_set_batches (rc_link c2) [] l) (cs_set_reorder (rc_session c2) rb) vs out /\
    insert_all rb now l = (cs_reorder_buf (rc_session c2), ready) /\
    process_all (rc_session c2) vs ready now = (rc_switch c2, o) /\ rc_out c2 = out ++ o /\
    (l <> [] -> rc_batch_session c2 = true).

Lemma lags_refl c : legacy_mode c -> lags c c.
Proof.
  intros Hm. split; [done|]. exists [], (cs_reorder_buf (rc_session c)), (rc_switch c), (rc_out c), [], [].
  destruct Hm as [Hf Hi _ _ _]. rewrite app_nil_r. split_and!; try done.
  destruct c as [l s vs out n1 n2 b1 b2], l, s. cbn in *. by subst.
Qed.

Lemma flush_catches_up c1 c2 : lags c1 c2 -> rc_flush p rx_bypass_enabled switch_batch_enabled c1 now = c2.
Proof.
  intros [[Hf Hi Hp Hd Hs] (l & rb & vs & out & ready & o & -> & Hall & Hproc & Hout & _)]. unfold rc_flush.
  rewrite flush_legacy by done. cbn [rc_set rc_session rc_link rc_switch rl_set_batches rl_reorder_input cs_set_reorder cs_set_rx cs_reorder_buf].
  rewrite Hall. rewrite (process_all_same (rc_session c2)) by done. rewrite Hproc.
  destruct c2 as [l2 s vs2 out2 n1 n2 b1 b2], l2, s. cbn in *. by subst.
Qed.

(** Both calls before a possible flush of the batching one. *)
Definition pushed (c : rx_call) (seq : Z) (data : list Z) : rx_call :=
  let s := rc_session c in
  let '(dd, dup) := is_duplicate (cs_dedup s) seq in
  rc_set c (rl_set_batches (rc_link c) [] (if dup then rl_reorder_input (rc_link c) else rl_reorder_input (rc_link c) ++ [(seq, data)]))
    (cs_set_rx s (cs_reorder_buf s) dd (cs_rx_actor s)) (rc_switch c) (rc_out c).

Lemma batch_data_legacy n c seq data :
  rl_fec_data (rc_link c) = [] -> es_fec_dec (cs_epoch_state (rc_session c)) = None -> static_rx rx_bypass_enabled (rc_session c) = false ->
  batch_data p n rx_bypass_enabled switch_batch_enabled c seq data now =
  if (n <=? 0)%nat || (n <=? length (rl_reorder_input (rc_link (pushed c seq data))))%nat
  then rc_flush p rx_bypass_enabled switch_batch_enabled (pushed c seq data) now else pushed c seq data.
Proof.
  intros Hf Hd Hs. unfold batch_data, pushed. rewrite Hd, Hs, Hf. by destruct (is_duplicate _ _) as [dd dup].
Qed.

Lemma rc_set_eta c : legacy_mode c ->
  c = rc_set c (rl_set_batches (rc_link c) [] []) (cs_set_reorder (rc_session c) (cs_reorder_buf (rc_session c))) (rc_switch c) (rc_out c).
Proof. intros [Hf Hi _ _ _]. destruct c as [l s vs out n1 n2 b1 b2], l, s. cbn in *. by subst. Qed.

Lemma batch_data_lags c1 c2 seq data :
  lags c1 c2 -> rc_batch_session c2 = true ->
  lags (batch_data p cap rx_bypass_enabled switch_batch_enabled c1 seq data now)
    (batch_data p 1 rx_bypass_enabled switch_batch_enabled c2 seq data now).
Proof.
  intros [Hm (l & rb & vs & out & ready & o & -> & Hall & Hproc & Hout & Hb)] Hbs. pose proof Hm as [Hf Hi Hp Hd Hs].
  set (c1 := rc_set c2 _ _ _ _). set (c2x := batch_data p 1 _ _ c2 seq data now).
  assert (Hx : lags (pushed c1 seq data) c2x).
  { subst c2x. rewrite batch_data_legacy by done. unfold pushed. subst c1. cbn [rc_set rc_session cs_set_reorder cs_set_rx cs_dedup cs_rx_actor].
    destruct (is_duplicate (cs_dedup (rc_session c2)) seq) as [dd dup]. rewrite Hi. destruct dup; cbn [rc_link rc_set rl_set_batches rl_reorder_input length Nat.leb orb app].
    - split; [by split|]. exists l, rb, vs, out, ready, o. split_and!; try done. by rewrite (process_all_same (rc_session c2)).
    - unfold rc_flush. rewrite flush_legacy by done. cbn [rc_set rc_session rc_link rc_switch rl_set_batches rl_reorder_input cs_set_rx cs_reorder_buf].
      destruct (insert_all (cs_reorder_buf (rc_session c2)) now [(seq, data)]) as [rb' r'] eqn:Ex.
      rewrite (process_all_same (rc_session c2)) by done.
      destruct (process_all (rc_session c2) (rc_switch c2) r' now) as [vs' o'] eqn:Eo.
      split; [by split|]. exists (l ++ [(seq, data)]), rb, vs, out, (ready ++ r'), (o ++ o'). split_and!; try done.
      + by rewrite insert_all_app, Hall, Ex.
      + cbn [rc_session rc_set]. rewrite (process_all_same (rc_session c2)) by done. by rewrite process_all_app, Hproc, Eo.
      + cbn [rc_out rc_set]. by rewrite Hout, app_assoc. }
  rewrite batch_data_legacy by done. destruct (_ || _); [|done].
  rewrite (flush_catches_up _ _ Hx). apply lags_refl, Hx.
Qed.

Lemma legacy_step c1 c2 raw seq :
  lags c1 c2 ->
  let r1 := on_plain_frame p cap rx_bypass_enabled switch_batch_enabled c1 raw seq now in
  let r2 := on_plain_frame p 1 rx_bypass_enabled switch_batch_enabled c2 raw seq now in
  r1.2 = r2.2 /\ lags r1.1 r2.1.
Proof.
  intros Hl. pose proof Hl as [Hm (l & rb & vs & out & ready & o & E & Hall & Hproc & Hout & Hb)]. pose proof Hm as [Hf Hi Hp Hd Hs].
  assert (Hkeep : forall g : rx_call -> rx_call, (forall c l s vs out, g (rc_set c l s vs out) = rc_set (g c) l s vs out) ->
    rc_link (g c2) = rc_link c2 -> rc_session (g c2) = rc_session c2 -> rc_switch (g c2) = rc_switch c2 -> rc_out (g c2) = rc_out c2 ->
    (rc_batch_session c2 = true -> rc_batch_session (g c2) = true) -> lags (g c1) (g c2)).
  { intros g Hg G1 G2 G3 G4 G5. split; [destruct Hm; split; congruence|]. exists l, rb, vs, out, ready, o.
    rewrite E, Hg, G1, G2, G3, G4. split_and!; auto. }
  cbv zeta. clear Hl. subst c1. set (c1 := rc_set c2 _ _ _ _) in *. unfold on_plain_frame.
  change (open_frame (rc_link c1) raw seq) with (open_frame (rc_link c2) raw seq).
  destruct (bool_decide (raw = [])); [split; [done|]; split; [by split|]; by exists l, rb, vs, out, ready, o|].
  destruct (open_frame (rc_link c2) raw seq) as [data|].
  2: { split; [done|]. by apply (Hkeep (fun c => rc_count c (length raw))). }
  cbv zeta. change (rl_session_epoch (rc_link c1)) with (rl_session_epoch (rc_link c2)).
  change (es_epoch (cs_epoch_state (rc_session (rc_count c1 (length raw))))) with (es_epoch (cs_epoch_state (rc_session (rc_count c2 (length raw))))).
  change (rl_producer (rc_link c1)) with (rl_producer (rc_link c2)). rewrite Hp.
  change (es_fec_dec (cs_epoch_state (rc_session (rc_count c1 (length raw))))) with (es_fec_dec (cs_epoch_state (rc_session c2))).
  change (es_fec_dec (cs_epoch_state (rc_session (rc_count c2 (length raw))))) with (es_fec_dec (cs_epoch_state (rc_session c2))).
  rewrite Hd. destruct (negb _); [split; [done|]; by apply (Hkeep (fun c => close_call (rc_count c (length raw))))|].
  destruct (seq =? 0).
  - split; [done|]. by apply (Hkeep (fun c => close_call (rc_flags (rc_count c (length raw)) true (rc_close (rc_count c (length raw)))))).
  - split; [done|]. cbn [fst]. apply batch_data_lags; [|done].
    by apply (Hkeep (fun c => rc_flags (rc_count c (length raw)) true (rc_close (rc_count c (length raw))))).
Qed.

Lemma legacy_loop turns c1 c2 rd :
  lags c1 c2 ->
  match plain_loop p vec_grow cap rx_bypass_enabled switch_batch_enabled turns c1 rd now,
        plain_loop p vec_grow 1 rx_bypass_enabled switch_batch_enabled turns c2 rd now with
  | Some (d1, rd1), Some (d2, rd2) => lags d1 d2 /\ rd1 = rd2
  | None, None => True
  | _, _ => False
  end.
Proof.
  revert c1 c2 rd. induction turns as [|turns IH]; intros c1 c2 rd Hl; [done|]. cbn [plain_loop].
  pose proof Hl as [Hm (l & rb & vs & out & ready & o & E & Hall & Hproc & Hout & Hb)].
  assert (rl_scanner (rc_link c1) = rl_scanner (rc_link c2)) as -> by (by subst c1).
  destruct (read_frame vec_grow (rl_scanner (rc_link c2)) rd) as [[sc rd'] r].
  set (d1 := rc_set_link c1 _). set (d2 := rc_set_link c2 _).
  assert (Hd : lags d1 d2).
  { split; [by destruct Hm; split|]. subst d1 d2 c1. by exists l, rb, vs, out, ready, o. }
  destruct r as [[[raw seq]|]|e].
  - pose proof (legacy_step d1 d2 raw seq Hd) as [Hgo Hs]. cbv zeta in *.
    destruct (on_plain_frame _ cap _ _ _ _ _ _) as [e1 g1], (on_plain_frame _ 1 _ _ _ _ _ _) as [e2 g2]. cbn [fst snd] in *. subst g2.
    destruct g1; [by apply IH|done].
  - done.
  - split; [|done]. clear -Hd. destruct Hd as [Hm (l & rb & vs & out & ready & o & E & Hall & Hproc & Hout & Hb)].
    split; [by destruct Hm; split|]. rewrite E. by exists l, rb, vs, out, ready, o.
Qed.

Lemma finish_lags c1 c2 : lags c1 c2 ->
  plain_finish p rx_bypass_enabled switch_batch_enabled c1 now = plain_finish p rx_bypass_enabled switch_batch_enabled c2 now.
Proof.
  intros Hl. pose proof Hl as [Hm (l & rb & vs & out & ready & o & E & Hall & Hproc & Hout & Hb)]. unfold plain_finish.
  assert (rl_producer (rc_link c1) = rl_producer (rc_link c2)) as -> by (by subst c1).
  assert (rc_batch_session c1 = rc_batch_session c2) as -> by (by subst c1). rewrite (lm_producer _ Hm).
  destruct (rc_batch_session c2) eqn:Eb.
  - rewrite (flush_catches_up _ _ Hl), (flush_catches_up _ _ (lags_refl _ Hm)). done.
  - destruct l; [|specialize (Hb ltac:(done)); congruence]. rewrite E. cbn [insert_all] in Hall. injection Hall as -> <-. injection Hproc as -> <-.
    rewrite app_nil_r in Hout. subst out. symmetry. apply rc_set_eta. by destruct Hm; split.
Qed.
End Legacy.

(** ** Sessions with the actor *)

Lemma process_item_generation a x : ra_generation (process_item p a x).1.1 = ra_generation a.
Proof. unfold process_item. cbv zeta. repeat case_match; done. Qed.
Lemma process_items_generation a items : ra_generation (process_items p a items).1.1 = ra_generation a.
Proof.
  revert a. induction items as [|x items IH]; intros a; [done|]. cbn [process_items].
  pose proof (process_item_generation a x) as Hg. destruct (process_item p a x) as [[a1 o1] [e|]]; [done|]. cbn [fst] in Hg.
  specialize (IH a1). destruct (process_items p a1 items) as [[a2 o2] e2]. cbn [fst] in *. congruence.
Qed.
Lemma process_item_data a x : rf_seq x <> 0 -> (process_item p a x).2 = None.
Proof. intros Hx. unfold process_item. cbv zeta. destruct (Z.eqb_spec (rf_seq x) 0); [done|]. repeat case_match; done. Qed.
Lemma process_items_app a l1 l2 a1 o1 :
  process_items p a l1 = (a1, o1, None) ->
  process_items p a (l1 ++ l2) = let '(a2, o2, e) := process_items p a1 l2 in (a2, o1 ++ o2, e).
Proof.
  revert a o1. induction l1 as [|x l1 IH]; intros a o1; cbn [app process_items].
  { intros [= <- <-]. by destruct (process_items p a l2) as [[a2 o2] e2]. }
  destruct (process_item p a x) as [[a' o'] [e|]]; [done|]. destruct (process_items p a' l1) as [[a'' o''] e''] eqn:E.
  intros [= -> <- ->]. rewrite (IH a' o'' E). destruct (process_items p a1 l2) as [[a2 o2] e2]. by rewrite app_assoc.
Qed.
Lemma process_batch_snoc a g items x a1 o1 :
  process_batch p a g items = (a1, o1, None) ->
  process_batch p a g (items ++ [x]) = let '(a2, o2, e) := process_batch p a1 g [x] in (a2, o1 ++ o2, e).
Proof.
  intros Hb. assert (E : process_batch p a g (items ++ [x]) =
    if negb (g =? ra_generation a) then (a, [], None) else process_items p a (items ++ [x])) by (by destruct items).
  rewrite E. clear E. unfold process_batch at 1. destruct items as [|y items].
  { cbn in Hb. injection Hb as <- <-. cbn [app]. destruct (negb _); [done|]. by destruct (process_items p a [x]) as [[a2 o2] e2]. }
  unfold process_batch in Hb. destruct (negb (g =? ra_generation a)) eqn:Eg.
  - injection Hb as <- <-. by rewrite Eg.
  - pose proof (process_items_generation a (y :: items)) as Hg. rewrite Hb in Hg. cbn [fst] in Hg. rewrite Hg, Eg.
    by apply process_items_app.
Qed.

Definition set_producer (l : RxLink) (pr : RxProducer) : RxLink := rl_set_io l (rl_scanner l) (Some pr) (rl_last_rx l).
Definition pr_with (pr : RxProducer) (cap : nat) (items : list RxFrame) : RxProducer :=
  {| rp_generation := rp_generation pr; rp_batch := items; rp_batch_cap := cap; rp_failed := rp_failed pr |}.
Definition set_actor (s : ClientSession) (a : RxActorState) : ClientSession :=
  cs_set_rx s (cs_reorder_buf s) (cs_dedup s) (Some a).

Section Actor.
Context (cap : nat) (now : Z).

(** The call [c1] whose producer has collected [items] against the call [c2] that has
    already handed them over. *)
Definition trails (c1 c2 : rx_call) : Prop :=
  exists pr a1 a2 items vs out ready o,
    rl_producer (rc_link c2) = Some (pr_with pr 1 []) /\ cs_rx_actor (rc_session c2) = Some a2 /\
    c1 = rc_set c2 (set_producer (rc_link c2) (pr_with pr cap items)) (set_actor (rc_session c2) a1) vs out /\
    process_batch p a1 (rp_generation pr) items = (a2, ready, None) /\ (is_Some (rp_failed pr) -> items = []) /\
    process_all (rc_session c2) vs ready now = (rc_switch c2, o) /\ rc_out c2 = out ++ o.

Lemma rc_actor_eq c a pr ready vs o :
  process_all (rc_session c) (rc_switch c) ready now = (vs, o) ->
  rc_actor switch_batch_enabled c a pr ready now =
  rc_set c (set_producer (rc_link c) pr) (set_actor (rc_session c) a) vs (rc_out c ++ o).
Proof. intros Hp. unfold rc_actor. rewrite to_switch_all, (process_all_same (rc_session c)) by done. by rewrite Hp. Qed.

(** One push, seen by both. *)
Lemma push_trails c1 c2 x a1 pr1 a2 pr2 :
  trails c1 c2 -> rl_producer (rc_link c1) = Some pr1 -> cs_rx_actor (rc_session c1) = Some a1 ->
  rl_producer (rc_link c2) = Some pr2 -> cs_rx_actor (rc_session c2) = Some a2 ->
  let '(a1', pr1', ready1, ok1) := producer_push p a1 pr1 x in
  let '(a2', pr2', ready2, ok2) := producer_push p a2 pr2 x in
  ok1 = ok2 /\ trails (rc_actor switch_batch_enabled c1 a1' pr1' ready1 now) (rc_actor switch_batch_enabled c2 a2' pr2' ready2 now).
Proof.
  intros (pr & b1 & b2 & items & vs & out & ready & o & Hp2 & Ha2 & -> & Hb & Hfail & Hproc & Hout) Hp1 Ha1 Hp2' Ha2'.
  injection Hp1 as <-. injection Ha1 as <-. rewrite Hp2 in Hp2'. injection Hp2' as <-. rewrite Ha2 in Ha2'. injection Ha2' as <-.
  set (c1 := rc_set c2 _ _ _ _). unfold producer_push. cbn [pr_with rp_failed rp_batch rp_batch_cap rp_generation].
  destruct (rp_failed pr) as [f|] eqn:Ef.
  { split; [done|]. specialize (Hfail ltac:(done)) as ->. cbn in Hb. injection Hb as <- <-. injection Hproc as -> <-.
    rewrite (rc_actor_eq c1 b1 _ [] (rc_switch c2) []), (rc_actor_eq c2 b1 _ [] (rc_switch c2) []) by done.
    exists pr, b1, b1, [], (rc_switch c2), (rc_out c2 ++ []), [], []. rewrite Hout, !app_nil_r in *. by split_and!. }
  rewrite app_nil_l. replace ((1 <=? length [x])%nat || (rf_seq x =? 0)) with true by done.
  unfold producer_flush at 2. cbn [rp_batch rp_generation rp_batch_cap rp_failed].
  pose proof (process_batch_snoc b1 (rp_generation pr) items x b2 ready Hb) as Hsnoc.
  destruct (process_batch p b2 (rp_generation pr) [x]) as [[a3 r'] e] eqn:Ex.
  assert (He : rf_seq x <> 0 -> e = None).
  { intros Hx. unfold process_batch in Ex. destruct (negb _); [by injection Ex|]. cbn [process_items] in Ex.
    pose proof (process_item_data b2 x Hx) as Hn. destruct (process_item p b2 x) as [[a4 r4] e4]. cbn [snd] in Hn. subst e4. by injection Ex. }
  destruct (process_all (rc_session c2) (rc_switch c2) r' now) as [vs' o'] eqn:Eo.
  assert (Hready : process_all (rc_session c2) vs (ready ++ r') now = (vs', o ++ o')) by (by rewrite process_all_app, Hproc, Eo).
  rewrite (rc_actor_eq c2 a3 _ r' vs' o' Eo).
  destruct ((cap <=? length (items ++ [x]))%nat || (rf_seq x =? 0)) eqn:Ec.
  - unfold producer_flush. cbn [rp_batch rp_generation rp_batch_cap rp_failed].
    destruct (items ++ [x]) as [|y ys] eqn:Ei; [by destruct items|]. rewrite <-Ei in *. rewrite Hsnoc. split; [done|].
    rewrite (rc_actor_eq c1 a3 _ (ready ++ r') vs' (o ++ o')).
    2: { subst c1. cbn [rc_set rc_session rc_switch]. by rewrite (process_all_same (rc_session c2)). }
    exists {| rp_generation := rp_generation pr; rp_batch := []; rp_batch_cap := 1; rp_failed := match e with Some _ => e | None => None end |},
      a3, a3, [], vs', (out ++ (o ++ o')), [], []. split_and!; try done.
    cbn [rc_out rc_set]. by rewrite Hout, app_nil_r, app_assoc.
  - apply orb_false_iff in Ec as [_ Ec%Z.eqb_neq]. specialize (He Ec) as ->. split; [done|].
    rewrite (rc_actor_eq c1 b1 _ [] vs []) by done.
    exists {| rp_generation := rp_generation pr; rp_batch := []; rp_batch_cap := 1; rp_failed := None |}, b1, a3, (items ++ [x]), vs, out, (ready ++ r'), (o ++ o').
    split_and!; try done.
    + subst c1. cbn. by rewrite app_nil_r.
    + by intros [? [=]].
    + cbn [rc_session rc_set]. by rewrite (process_all_same (rc_session c2)).
    + cbn [rc_out rc_set]. by rewrite Hout, app_assoc.
Qed.

Lemma trails_sound c1 c2 : trails c1 c2 -> exists pr1 pr2 a1 a2,
  rl_producer (rc_link c1) = Some pr1 /\ cs_rx_actor (rc_session c1) = Some a1 /\
  rl_producer (rc_link c2) = Some pr2 /\ cs_rx_actor (rc_session c2) = Some a2 /\
  rl_scanner (rc_link c1) = rl_scanner (rc_link c2) /\ rl_ic_rx (rc_link c1) = rl_ic_rx (rc_link c2) /\
  rl_session_epoch (rc_link c1) = rl_session_epoch (rc_link c2) /\ rl_last_rx (rc_link c1) = rl_last_rx (rc_link c2) /\
  es_epoch (cs_epoch_state (rc_session c1)) = es_epoch (cs_epoch_state (rc_session c2)).
Proof.
  intros (pr & a1 & a2 & items & vs & out & ready & o & Hp2 & Ha2 & -> & _). by exists (pr_with pr cap items), (pr_with pr 1 []), a1, a2.
Qed.

(** Changes of the call that neither producer, session nor output see. *)
Lemma trails_map (g : rx_call -> rx_call) c1 c2 :
  (forall c l s vs out, g (rc_set c l s vs out) = rc_set (g c) l s vs out) ->
  rc_link (g c2) = rc_link c2 -> rc_session (g c2) = rc_session c2 -> rc_switch (g c2) = rc_switch c2 -> rc_out (g c2) = rc_out c2 ->
  trails c1 c2 -> trails (g c1) (g c2).
Proof.
  intros Hg G1 G2 G3 G4 (pr & a1 & a2 & items & vs & out & ready & o & Hp2 & Ha2 & -> & Hb & Hf & Hproc & Hout).
  exists pr, a1, a2, items, vs, out, ready, o. rewrite Hg, G1, G2, G3, G4. by split_and!.
Qed.
Lemma trails_link sc t c1 c2 : trails c1 c2 ->
  trails (rc_set_link c1 (rl_set_io (rc_link c1) sc (rl_producer (rc_link c1)) t))
    (rc_set_link c2 (rl_set_io (rc_link c2) sc (rl_producer (rc_link c2)) t)).
Proof.
  intros (pr & a1 & a2 & items & vs & out & ready & o & Hp2 & Ha2 & -> & Hb & Hf & Hproc & Hout).
  by exists pr, a1, a2, items, vs, out, ready, o.
Qed.

Lemma actor_step c1 c2 raw seq :
  trails c1 c2 ->
  let r1 := on_plain_frame p cap rx_bypass_enabled switch_batch_enabled c1 raw seq now in
  let r2 := on_plain_frame p 1 rx_bypass_enabled switch_batch_enabled c2 raw seq now in
  r1.2 = r2.2 /\ trails r1.1 r2.1.
Proof.
  intros Ht. destruct (trails_sound _ _ Ht) as (pr1 & pr2 & a1 & a2 & Hp1 & Ha1 & Hp2 & Ha2 & Hsc & Hic & Hep & Hlr & Hes).
  cbv zeta. unfold on_plain_frame. destruct (bool_decide (raw = [])).
  { split; [done|]. cbn [fst]. rewrite Hsc. by apply trails_link. }
  assert (open_frame (rc_link c1) raw seq = open_frame (rc_link c2) raw seq) as -> by (unfold open_frame; by rewrite Hic).
  assert (Hc : trails (rc_count c1 (length raw)) (rc_count c2 (length raw))) by (by apply (trails_map (fun c => rc_count c (length raw)))).
  set (d1 := rc_count c1 (length raw)) in *. set (d2 := rc_count c2 (length raw)) in *.
  destruct (open_frame (rc_link c2) raw seq) as [data|]; [|done]. cbv zeta.
  change (rc_session d1) with (rc_session c1). change (rc_session d2) with (rc_session c2). rewrite Hep, Hes.
  destruct (negb _); [split; [done|]; by apply (trails_map close_call)|].
  rewrite Hp1, Ha1, Hp2, Ha2.
  pose proof (push_trails d1 d2 {| rf_seq := seq; rf_data := data; rf_now := now |} a1 pr1 a2 pr2 Hc Hp1 Ha1 Hp2 Ha2) as Hpush.
  destruct (producer_push p a1 pr1 _) as [[[a1' pr1'] r1] ok1], (producer_push p a2 pr2 _) as [[[a2' pr2'] r2] ok2].
  destruct Hpush as [<- Hpush]. destruct ok1; (split; [done|]); [done|]. by apply (trails_map close_call).
Qed.

Lemma actor_loop turns c1 c2 rd :
  trails c1 c2 ->
  match plain_loop p vec_grow cap rx_bypass_enabled switch_batch_enabled turns c1 rd now,
        plain_loop p vec_grow 1 rx_bypass_enabled switch_batch_enabled turns c2 rd now with
  | Some (d1, rd1), Some (d2, rd2) => trails d1 d2 /\ rd1 = rd2
  | None, None => True
  | _, _ => False
  end.
Proof.
  revert c1 c2 rd. induction turns as [|turns IH]; intros c1 c2 rd Hl; [done|]. cbn [plain_loop].
  destruct (trails_sound _ _ Hl) as (pr1 & pr2 & a1 & a2 & Hp1 & Ha1 & Hp2 & Ha2 & -> & _ & _ & Hlr & _).
  destruct (read_frame vec_grow (rl_scanner (rc_link c2)) rd) as [[sc rd'] r]. rewrite Hlr.
  pose proof (trails_link sc (rl_last_rx (rc_link c2)) c1 c2 Hl) as Hd.
  set (d1 := rc_set_link c1 _) in *. set (d2 := rc_set_link c2 _) in *. destruct r as [[[raw seq]|]|e].
  - pose proof (actor_step d1 d2 raw seq Hd) as [Hgo Hs]. cbv zeta in *.
    destruct (on_plain_frame _ cap _ _ _ _ _ _) as [e1 g1], (on_plain_frame _ 1 _ _ _ _ _ _) as [e2 g2]. cbn [fst snd] in *. subst g2.
    destruct g1; [by apply IH|done].
  - done.
  - split; [|done]. by apply (trails_map close_call).
Qed.

Lemma finish_trails c1 c2 : trails c1 c2 -> exists pr,
  let d2 := plain_finish p rx_bypass_enabled switch_batch_enabled c2 now in
  rl_producer (rc_link d2) = Some (pr_with pr 1 []) /\
  plain_finish p rx_bypass_enabled switch_batch_enabled c1 now = rc_set_link d2 (set_producer (rc_link d2) (pr_with pr cap [])).
Proof.
  intros (pr & a1 & a2 & items & vs & out & ready & o & Hp2 & Ha2 & -> & Hb & Hf & Hproc & Hout). cbv zeta.
  unfold plain_finish. cbn [rc_set rc_link set_producer rl_set_io rl_producer]. rewrite Hp2.
  cbn [rc_session set_actor cs_set_rx cs_rx_actor]. rewrite Ha2. unfold producer_flush. cbn [pr_with rp_batch rp_failed rp_generation rp_batch_cap].
  set (c1 := rc_set c2 _ _ _ _). exists {| rp_generation := rp_generation pr; rp_batch := []; rp_batch_cap := 1; rp_failed := None |}.
  change (cs_rx_actor (rc_session c1)) with (Some a1). cbn [take_error rp_generation rp_batch rp_batch_cap rp_failed].
  rewrite (rc_actor_eq c2 a2 _ [] (rc_switch c2) []) by done.
  destruct items as [|x items].
  - cbn in Hb. injection Hb as <- <-. injection Hproc as -> <-. cbn [take_error rp_failed].
    rewrite (rc_actor_eq c1 a1 _ [] (rc_switch c2) []) by done. rewrite app_nil_r in Hout. subst out.
    cbn [pr_with rp_failed]. destruct (rp_failed pr); by split.
  - rewrite Hb. cbn [take_error rp_failed]. rewrite (rc_actor_eq c1 a2 _ ready (rc_switch c2) o).
    2: { subst c1. cbn [rc_set rc_session rc_switch]. by rewrite (process_all_same (rc_session c2)). }
    cbn [pr_with rp_failed]. destruct (rp_failed pr); [by specialize (Hf ltac:(done))|].
    subst c1. rewrite app_nil_r, Hout. by split.
Qed.
End Actor.

(** ** Theorems *)

(** The batch size of the connection's producer. *)
Definition with_cap (n : nat) (l : RxLink) : RxLink :=
  match rl_producer l with Some pr => set_producer l (pr_with pr n (rp_batch pr)) | None => l end.
(** Nothing waits on the connection. *)
Definition drained (l : RxLink) : Prop :=
  match rl_producer l with Some pr => rp_batch pr = [] | None => rl_fec_data l = [] /\ rl_reorder_input l = [] end.
(** The session has its actor, or it uses neither FEC nor the static bypass. *)
Definition batches_invisible (l : RxLink) (s : ClientSession) : Prop :=
  match rl_producer l with
  | Some _ => is_Some (cs_rx_actor s)
  | None => es_fec_dec (cs_epoch_state s) = None /\ static_rx rx_bypass_enabled s = false
  end.

(** The receive loop ends on every state of connection, session and reader: each turn
    takes at least ten bytes. *)
Theorem receive_loop_terminates n l s vs rd now :
  is_Some (process_plain_frames p vec_grow n rx_bypass_enabled switch_batch_enabled l s vs rd now).
Proof.
  unfold process_plain_frames. destruct (rl_producer l) as [pr|]; [destruct (take_error pr) as [pr' err]; destruct (bool_decide _); [done|]|].
  all: match goal with |- context [plain_loop _ _ ?k _ _ ?m ?x ?r ?t] =>
    destruct (plain_loop_total k m x r t) as [[c rd'] ->]; [cbn; lia|done] end.
Qed.

(** C35: the size of receive batches cannot be observed.  For a session with the receive
    actor, or without FEC and bypass, a drain of the plaintext with batches of any size
    leaves session and switch in the same state and makes the same deliveries, counts
    and closing decision as handling every frame on its own, and no frame stays behind
    in a batch. *)
Theorem receive_batch_size_invisible n l s vs rd now :
  drained l -> batches_invisible l s ->
  exists c rd',
    process_plain_frames p vec_grow 1 rx_bypass_enabled switch_batch_enabled (with_cap 1 l) s vs rd now = Some (c, rd') /\
    process_plain_frames p vec_grow n rx_bypass_enabled switch_batch_enabled (with_cap n l) s vs rd now
      = Some (rc_set_link c (with_cap n (rc_link c)), rd') /\
    drained (rc_link c).
Proof.
  unfold drained, batches_invisible, process_plain_frames, with_cap. destruct (rl_producer l) as [pr|] eqn:Ep.
  - intros Hb [a Ha]. rewrite Hb. cbn [set_producer rl_set_io rl_producer pr_with take_error rp_failed rl_scanner rl_last_rx].
    destruct (bool_decide (is_Some (rp_failed pr))) eqn:Ef.
    { eexists _, rd. split; [done|]. by split. }
    match goal with |- context [plain_loop _ _ 1 _ _ _ ?x rd now] => set (c2 := x) end.
    match goal with |- context [plain_loop _ _ n _ _ _ ?x rd now] => set (c1 := x) end.
    assert (Ht : trails n now c1 c2).
    { exists {| rp_generation := rp_generation pr; rp_batch := []; rp_batch_cap := 1; rp_failed := None |}, a, a, [], vs, [], [], [].
      split_and!; try done. by destruct s; cbn in *; subst. }
    pose proof (actor_loop n now (S (unread (rl_scanner l) rd)) c1 c2 rd Ht) as Hloop.
    destruct (plain_loop_total 1 (S (unread (rl_scanner l) rd)) c2 rd now) as [[d2 rd2] E2]; [subst c2; cbn; lia|].
    rewrite E2 in Hloop |- *. destruct (plain_loop _ _ n _ _ _ c1 rd now) as [[d1 rd1]|]; [|done]. destruct Hloop as [Hd ->].
    destruct (finish_trails n now d1 d2 Hd) as (pr' & Hp' & Hfin). eexists _, rd2. cbn [mbind option_bind].
    split; [done|]. cbv zeta in Hp', Hfin. rewrite Hfin, Hp'. by split.
  - intros [Hf Hi] [Hd Hs]. rewrite Ep. match goal with |- context [plain_loop _ _ 1 _ _ _ ?x rd now] => set (c0 := x) end.
    assert (Hl : lags now c0 c0) by (apply lags_refl; by split).
    pose proof (legacy_loop n now (S (unread (rl_scanner l) rd)) c0 c0 rd Hl) as Hloop.
    destruct (plain_loop_total 1 (S (unread (rl_scanner l) rd)) c0 rd now) as [[d2 rd2] E2]; [subst c0; cbn; lia|].
    rewrite E2 in Hloop |- *. destruct (plain_loop _ _ n _ _ _ c0 rd now) as [[d1 rd1]|]; [|done]. destruct Hloop as [Hdd ->].
    cbn [mbind option_bind]. rewrite (finish_lags now d1 d2 Hdd).
    destruct Hdd as [Hm _]. set (e := plain_finish _ _ _ d2 now).
    assert (He : rl_producer (rc_link e) = None /\ rl_fec_data (rc_link e) = [] /\ rl_reorder_input (rc_link e) = []).
    { subst e. unfold plain_finish. destruct Hm as [Hf' Hi' Hp' _ _]. rewrite Hp'. destruct (rc_batch_session d2); [|done].
      unfold rc_flush. by destruct (flush_server_rx_batch _ _ _ _ _ _ _ _) as [[s' vs'] o']. }
    destruct He as (He1 & He2 & He3). exists e, rd2. split; [done|]. rewrite He1. split; [|done]. by destruct e.
Qed.
End ReaderSpec.

(** ** A concrete session *)

Definition demo_rx_session : ClientSession :=
  {| cs_session_id := []; cs_stat := ClientStat_new "a"; cs_port := AsyncPort_new; cs_reorder_buf := ReorderBuffer_new;
     cs_dedup := DeDuplicator_new; cs_rx_actor := Some (RxActorState_new None); cs_fec_enc_k := 0; cs_mac := []; cs_peer_info := None;
     cs_mac_bin := null_mac; cs_ipv4 := []; cs_ipv6 := [];
     cs_epoch_state := {| es_instance_id := []; es_epoch := 1; es_resume_token := []; es_pending_resume_token := []; es_enc_algo := 0;
                          es_salt_a := []; es_salt_b := []; es_ic_tx := None; es_ic_rx := None; es_fec_dec := None |};
     cs_destroy_deadline := None; cs_brutal_tx := 0; cs_brutal_rx := 0; cs_brutal_applied_conns := 0; cs_brutal_error := NoError |}.
Definition demo_rx_link : RxLink :=
  {| rl_scanner := FrameScanner_new false; rl_ic_rx := None; rl_session_epoch := 1;
     rl_producer := Some (producer (RxActorState_new None) 8); rl_fec_data := []; rl_reorder_input := []; rl_last_rx := 0 |}.
Definition demo_rx_reads : list read_event :=
  [RData (wire_frame 1 (replicate 20 1) [] ++ wire_frame 3 (replicate 20 3) [0; 0]); RData (wire_frame 2 (replicate 20 2) []); RBlock].

Lemma demo_result (o : option (rx_call * list read_event)) c rd n l :
  (fun r => (rc_packets r.1, r.2)) <$> o = Some (n, l) -> o = Some (c, rd) -> rc_packets c = n /\ rd = l.
Proof. intros Hg ->. by injection Hg. Qed.

Lemma receive_batch_size_invisible_witness :
  exists c rd',
    process_plain_frames OtherCpu (fun c => c + 16384) 1 true true (with_cap 1 demo_rx_link) demo_rx_session VSwitch_new demo_rx_reads 5
      = Some (c, rd') /\
    process_plain_frames OtherCpu (fun c => c + 16384) 8 true true (with_cap 8 demo_rx_link) demo_rx_session VSwitch_new demo_rx_reads 5
      = Some (rc_set_link c (with_cap 8 (rc_link c)), rd') /\
    drained (rc_link c) /\ rc_packets c = 3 /\ rd' = [].
Proof.
  destruct (receive_batch_size_invisible OtherCpu (fun c => c + 16384) true true 8 demo_rx_link demo_rx_session VSwitch_new demo_rx_reads 5)
    as (c & rd' & E1 & E2 & Hd).
  - reflexivity.
  - by eexists.
  - exists c, rd'. split; [exact E1|]. split; [exact E2|]. split; [exact Hd|].
    assert (E : (fun r => (rc_packets r.1, r.2)) <$> process_plain_frames OtherCpu (fun c => c + 16384) 1 true true (with_cap 1 demo_rx_link)
      demo_rx_session VSwitch_new demo_rx_reads 5 = Some (3, [])) by (vm_compute; reflexivity).
    exact (demo_result _ c rd' 3 [] E E1).
Defined.
