(* ===== verification/Worker.v ===== *)
(** * The workers of the server: [acceptor_loop] and [worker_loop] of [src/src/server.rs]

    The acceptor deals accepted sockets to the workers in turn.  A worker keeps a table
    of connections under tokens; a turn of its loop admits new sockets, lets the reaper
    run, scans the timers, serves the readable connections, skips reorder gaps that are
    overdue and drops what it has found closed.  A readable connection is sniffed: a first
    byte that is not a TLS handshake record, and a TLS stream that does not start like a
    frame, get an HTTP 403; until its handshake is done only a request is looked at, then
    the receive loop of [Reader] runs.

    The sending half of a connection ([Writer]) meets the worker through its answers
    alone ([scan_answer], [tr_drain], the answers to [WWake]).  The decoded request of a
    handshake payload is a function of the section (serde_json).  Times are milliseconds. *)
From stdpp Require Import pretty sorting.
From S2P Require Import Prelude Protocol Utils Crypto Frame Xor Fec Buffer Reorder RxActor Adaptive Queue Port VSwitch Pool Brutal PeerInfo Session Writer Reader.

(** ** The answer to foreign protocols *)

Definition H2_403_RESPONSE : list Z :=
  [0; 0; 0; 4; 0; 0; 0; 0; 0; 0; 0; 0; 4; 1; 0; 0; 0; 0; 0; 0; 5; 1; 5; 0; 0; 0; 1; 8; 3; 52; 48; 51].
Definition fallback_body : list Z :=
  bytes_of_string "<html><head><title>403 Forbidden</title></head><body><center><h1>403 Forbidden</h1></center><hr><center>nginx</center></body></html>".
Definition http_403_response : list Z :=
  let crlf := [13; 10] in
  bytes_of_string "HTTP/1.1 403 Forbidden" ++ crlf ++
  bytes_of_string "Server: nginx" ++ crlf ++
  bytes_of_string "Content-Type: text/html" ++ crlf ++
  bytes_of_string ("Content-Length: " +:+ pretty (length fallback_body)) ++ crlf ++
  bytes_of_string "Connection: close" ++ crlf ++ crlf ++ fallback_body.
(** What [serve_fallback_http] hands to its writer. *)
Definition serve_fallback_http (is_h2 : bool) : list Z := if is_h2 then H2_403_RESPONSE else http_403_response.
(** The writer is the bare socket or the TLS stream. *)
Inductive fallback := ToSocket (bytes : list Z) | ToTls (bytes : list Z).

(** ** The acceptor *)

(** One bounded queue per worker; a full queue drops the socket.  [None] is the division
    by zero of an empty list of queues. *)
Section Acceptor.
Context {A : Type} (cap : nat).
Definition accept_one (queues : list (list A)) (rr : nat) (nodelay : option A) : option (list (list A) * nat) :=
  match nodelay with
  | None => Some (queues, rr)
  | Some socket =>
      if (length queues =? 0)%nat then None
      else
        let w := (rr mod length queues)%nat in
        Some (alter (fun q => if (length q <? cap)%nat then q ++ [socket] else q) w queues, S rr)
  end.
End Acceptor.

Section Worker.
Context `{FrameChannel} `{CryptoPrims} `{HexCodec} `{UuidLib} `{BrutalSocketOps} `{Rustls}.
Context (v6 : family) (conf : ServerConf).
Context (p : cpu) (vec_grow : Z -> Z) (lazy_compact : bool) (queue_env : option nat).
Context (rx_batch_cap : nat) (rx_bypass_enabled switch_batch_enabled : bool).
(** [serde_json::from_slice::<HandshakeReq>] *)
Context (parse_request : list Z -> option HandshakeReq).

(** ** Connections *)

(** [wc_ms] is what the handshake sees of the connection.  The producer lives in
    [wc_rx_producer] once the handshake has attached one. *)
Record WorkerConn := {
  wc_remote_ip : string;
  wc_ms : MioSession;
  wc_scanner : FrameScanner;
  wc_sniffed : bool;
  wc_sniffed_inner : bool;
  wc_rx_producer : option RxProducer;
  wc_fec_data : list (Z * frame);
  wc_reorder_input : list (Z * frame);
  wc_last_rx : Z }.
Definition wc_set_ms (c : WorkerConn) (ms : MioSession) (sc : FrameScanner) (producer : option RxProducer) : WorkerConn :=
  {| wc_remote_ip := wc_remote_ip c; wc_ms := ms; wc_scanner := sc; wc_sniffed := wc_sniffed c;
     wc_sniffed_inner := wc_sniffed_inner c; wc_rx_producer := producer; wc_fec_data := wc_fec_data c;
     wc_reorder_input := wc_reorder_input c; wc_last_rx := wc_last_rx c |}.
Definition wc_set_scanner (c : WorkerConn) (sc : FrameScanner) (last_rx : Z) : WorkerConn :=
  {| wc_remote_ip := wc_remote_ip c; wc_ms := wc_ms c; wc_scanner := sc; wc_sniffed := wc_sniffed c;
     wc_sniffed_inner := wc_sniffed_inner c; wc_rx_producer := wc_rx_producer c; wc_fec_data := wc_fec_data c;
     wc_reorder_input := wc_reorder_input c; wc_last_rx := last_rx |}.
Definition wc_set_sniffed (c : WorkerConn) (outer inner : bool) : WorkerConn :=
  {| wc_remote_ip := wc_remote_ip c; wc_ms := wc_ms c; wc_scanner := wc_scanner c; wc_sniffed := outer;
     wc_sniffed_inner := inner; wc_rx_producer := wc_rx_producer c; wc_fec_data := wc_fec_data c;
     wc_reorder_input := wc_reorder_input c; wc_last_rx := wc_last_rx c |}.
(** The receiving half, for the receive loop. *)
Definition wc_link (c : WorkerConn) : RxLink :=
  {| rl_scanner := wc_scanner c; rl_ic_rx := ms_ic_rx (wc_ms c); rl_session_epoch := ms_session_epoch (wc_ms c);
     rl_producer := wc_rx_producer c; rl_fec_data := wc_fec_data c; rl_reorder_input := wc_reorder_input c;
     rl_last_rx := wc_last_rx c |}.
Definition wc_set_link (c : WorkerConn) (l : RxLink) : WorkerConn :=
  {| wc_remote_ip := wc_remote_ip c; wc_ms := wc_ms c; wc_scanner := rl_scanner l; wc_sniffed := wc_sniffed c;
     wc_sniffed_inner := wc_sniffed_inner c; wc_rx_producer := rl_producer l; wc_fec_data := rl_fec_data l;
     wc_reorder_input := rl_reorder_input l; wc_last_rx := rl_last_rx l |}.

(** ** Plaintext of a connection *)

(** Before the handshake: empty frames are keep-alives, frames with a sequence number
    are dropped, the first other one is the request.  [None] is a loop that was cut off. *)
Inductive hs_end := HsMore | HsAccepted | HsRefused | HsScanError.
Record hs_input := { hi_entropy : entropy; hi_now_unix : Z; hi_write_ok : bool }.
Definition ms_finish (ms : MioSession) : MioSession :=
  {| ms_socket := ms_socket ms; ms_conn_id := ms_conn_id ms; ms_tx_backend := ms_tx_backend ms; ms_handshake_done := true;
     ms_client_session := ms_client_session ms; ms_ic_rx := ms_ic_rx ms; ms_session_epoch := ms_session_epoch ms;
     ms_rx_producer := ms_rx_producer ms; ms_brutal_applied := ms_brutal_applied ms |}.
Fixpoint hs_loop (turns : nat) (core : ServerCore) (c : WorkerConn) (rd : list read_event) (hi : hs_input) (now : Z)
  : option (ServerCore * WorkerConn * list read_event * hs_end) :=
  match turns with
  | O => None
  | S turns =>
      match read_frame vec_grow (wc_scanner c) rd with
      | (sc, rd, Ok (Some (raw, seq))) =>
          let c := wc_set_scanner c sc (if bool_decide (raw = []) then now else wc_last_rx c) in
          if bool_decide (raw = []) then hs_loop turns core c rd hi now
          else if seq =? 0 then
            match handle_handshake v6 conf core (wc_ms c) (parse_request raw) (hi_entropy hi) (hi_now_unix hi) now (hi_write_ok hi) with
            | (core, ms, HOk, _) =>
                Some (core, wc_set_ms c (ms_finish ms) (set_max_data_len sc MAX_DATA_LENGTH) (ms_rx_producer ms), rd, HsAccepted)
            | (core, ms, _, _) => Some (core, wc_set_ms c ms sc (wc_rx_producer c), rd, HsRefused)
            end
          else hs_loop turns core c rd hi now
      | (sc, rd, Ok None) => Some (core, wc_set_scanner c sc (wc_last_rx c), rd, HsMore)
      | (sc, rd, Err _) => Some (core, wc_set_scanner c sc (wc_last_rx c), rd, HsScanError)
      end
  end.

(** The result of serving a connection: what the switch delivered, what went to foreign
    peers, and [close]. *)
Record served := {
  se_core : ServerCore; se_conn : WorkerConn; se_out : list delivery; se_sent : list fallback; se_close : bool }.
Definition served_idle (core : ServerCore) (c : WorkerConn) (close : bool) : served :=
  {| se_core := core; se_conn := c; se_out := []; se_sent := []; se_close := close |}.

(** The switch asks the registry about source addresses when it is used. *)
Definition live_switch (core : ServerCore) : VSwitch := set_validate_mac (sv_vswitch core) (validate_src core).
Definition sv_set_switch (core : ServerCore) (vs : VSwitch) : ServerCore :=
  {| sv_heap := sv_heap core; sv_next := sv_next core; sv_sessions := sv_sessions core; sv_registry := sv_registry core;
     sv_vswitch := vs; sv_pool := sv_pool core; sv_banned := sv_banned core;
     sv_fec_recovered_retired := sv_fec_recovered_retired core; sv_fec_lost_retired := sv_fec_lost_retired core |}.
Definition attached_session (core : ServerCore) (c : WorkerConn) : option (nat * ClientSession) :=
  r ← ms_client_session (wc_ms c); s ← sv_heap core !! r; Some (r, s).
Definition served_call (core : ServerCore) (c : WorkerConn) (r : nat) (call : rx_call) : served :=
  {| se_core := sv_put (sv_set_switch core (rc_switch call)) r (rc_session call); se_conn := wc_set_link c (rc_link call);
     se_out := rc_out call; se_sent := []; se_close := rc_close call |}.

(** [while wants_write { let _ = write_tls }]: every error is ignored.  [None] means that
    the loop still runs when the socket has given all the answers of the list. *)
Fixpoint fallback_drain (t : tls) (sock : list sock_event) : option tls :=
  if wants_write t then
    match sock with
    | [] => None
    | SAccept space :: rest => fallback_drain (write_tls t space).1 rest
    | _ :: rest => fallback_drain t rest
    end
  else Some t.

(** One chunk of ciphertext that rustls accepted: its state, its negotiated protocol, the
    plaintext it has ready in chunks, the socket's answers to fallback writes, and whether draining
    rustls' answers closes the connection. *)
Record tls_turn := {
  tr_tls : tls; tr_h2 : bool; tr_plain : list (list Z); tr_sock : list sock_event; tr_drain : bool }.

Definition plain_frames (core : ServerCore) (c : WorkerConn) (tr : tls_turn) (hi : hs_input) (now : Z) : option served :=
  let turns c rd := S (unread (wc_scanner c) rd) in
  let rd := RData <$> tr_plain tr in
  if ms_handshake_done (wc_ms c) then
    '(r, s) ← attached_session core c;
    '(call, _) ← process_plain_frames p vec_grow rx_batch_cap rx_bypass_enabled switch_batch_enabled (wc_link c) s
                   (live_switch core) rd now;
    Some (served_call core c r call)
  else
    '(core, c, rd, e) ← hs_loop (turns c rd) core c rd hi now;
    match e with
    | HsMore => Some (served_idle core c false)
    | HsRefused => Some (served_idle core c true)
    | HsScanError =>
        let page := serve_fallback_http (tr_h2 tr) in
        _ ← fallback_drain (default (tr_tls tr) (writer_write_all (tr_tls tr) page)) (tr_sock tr);
        Some {| se_core := core; se_conn := c; se_out := []; se_sent := [ToTls page]; se_close := true |}
    | HsAccepted =>
        '(r, s) ← attached_session core c;
        let call := {| rc_link := wc_link c; rc_session := s; rc_switch := live_switch core; rc_out := []; rc_bytes := 0;
                       rc_packets := 0; rc_batch_session := false; rc_close := false |} in
        '(call, _) ← plain_loop p vec_grow rx_batch_cap rx_bypass_enabled switch_batch_enabled (turns c rd) call rd now;
        Some (served_call core c r (plain_finish p rx_bypass_enabled switch_batch_enabled call now))
    end.

(** ** A readable connection *)

Inductive read_turn := TEof | TBlock | TFail | TBadPackets | TPackets (tr : tls_turn).

Definition sniff_inner (c : WorkerConn) (tr : tls_turn) : WorkerConn * option fallback :=
  if wc_sniffed_inner c then (c, None)
  else
    match peek_first_byte (wc_scanner c) with
    | Some b => if 32 <=? b then (c, Some (ToTls (serve_fallback_http (tr_h2 tr)))) else (wc_set_sniffed c (wc_sniffed c) true, None)
    | None => (c, None)
    end.
Definition served_more (out : list delivery) (s : served) : served :=
  {| se_core := se_core s; se_conn := se_conn s; se_out := out ++ se_out s; se_sent := se_sent s; se_close := se_close s |}.
(** The socket is read until it blocks; an exhausted list of turns blocks. *)
Fixpoint socket_read (core : ServerCore) (c : WorkerConn) (turns : list read_turn) (hi : hs_input) (now : Z) : option served :=
  match turns with
  | [] | TBlock :: _ => Some (served_idle core c false)
  | TEof :: _ | TFail :: _ => Some (served_idle core c true)
  | TBadPackets :: _ =>
      let c := wc_set_scanner c (wc_scanner c) now in
      Some {| se_core := core; se_conn := c; se_out := [];
              se_sent := if ms_handshake_done (wc_ms c) then [] else [ToSocket (serve_fallback_http false)]; se_close := true |}
  | TPackets tr :: turns =>
      let c := wc_set_scanner c (wc_scanner c) now in
      match sniff_inner c tr with
      | (c, Some page) => Some {| se_core := core; se_conn := c; se_out := []; se_sent := [page]; se_close := true |}
      | (c, None) =>
          s ← plain_frames core c tr hi now;
          if se_close s || tr_drain tr
          then Some {| se_core := se_core s; se_conn := se_conn s; se_out := se_out s; se_sent := se_sent s; se_close := true |}
          else served_more (se_out s) <$> socket_read (se_core s) (se_conn s) turns hi now
      end
  end.

(** [rv_peek] is the byte a successful peek shows. *)
Record readable := { rv_peek : option Z; rv_turns : list read_turn; rv_drain : bool; rv_hs : hs_input }.
(** The first sniff: [true] is a peer that does not start a TLS handshake record. *)
Definition sniff_outer (c : WorkerConn) (peek : option Z) : WorkerConn * bool :=
  if wc_sniffed c then (c, false)
  else
    match peek with
    | Some b => (wc_set_sniffed c true (wc_sniffed_inner c), negb (b =? 22))
    | None => (c, false)
    end.
Definition on_readable (core : ServerCore) (c : WorkerConn) (ev : readable) (now : Z) : option served :=
  let '(c, foreign) := sniff_outer c (rv_peek ev) in
  if foreign then
    Some {| se_core := core; se_conn := c; se_out := []; se_sent := [ToSocket (serve_fallback_http false)]; se_close := true |}
  else
    s ← socket_read core c (rv_turns ev) (rv_hs ev) now;
    Some {| se_core := se_core s; se_conn := se_conn s; se_out := se_out s; se_sent := se_sent s;
            se_close := se_close s || rv_drain ev |}.

(** ** The table of a worker *)

(** [wk_released] records the connections handed to [on_conn_closed], in order. *)
Record worker := {
  wk_core : ServerCore;
  wk_conns : gmap nat WorkerConn;
  wk_unique_token : nat;
  wk_closed : list nat;
  wk_released : list nat }.
Definition worker_new (core : ServerCore) : worker :=
  {| wk_core := core; wk_conns := ∅; wk_unique_token := 2; wk_closed := []; wk_released := [] |}.
Definition wk_set (w : worker) (core : ServerCore) (conns : gmap nat WorkerConn) : worker :=
  {| wk_core := core; wk_conns := conns; wk_unique_token := wk_unique_token w;
     wk_closed := wk_closed w; wk_released := wk_released w |}.
Definition wk_set_core (w : worker) (core : ServerCore) : worker := wk_set w core (wk_conns w).
Definition wk_mark (w : worker) (t : nat) (close : bool) : worker :=
  {| wk_core := wk_core w; wk_conns := wk_conns w; wk_unique_token := wk_unique_token w;
     wk_closed := if close then wk_closed w ++ [t] else wk_closed w; wk_released := wk_released w |}.

(** A new socket: its peer, its queue to the writer, whether the poller takes it. *)
Record accepted_socket := { ac_remote_ip : string; ac_socket : bsock; ac_chan : chan; ac_registered : bool }.
Definition from_ip (ip : string) (c : WorkerConn) : bool := bool_decide (wc_remote_ip c = ip).
Definition ip_count (conns : gmap nat WorkerConn) (ip : string) : nat :=
  length (filter (fun e : nat * WorkerConn => from_ip ip e.2 = true) (map_to_list conns)).
Definition new_backend (a : accepted_socket) (t : nat) (dirty_cap : nat) : Backend :=
  {| be_fec_fence_gen := 0; be_ch := ac_chan a; be_owned_batches := Some (OwnedBatchQueue_new queue_env 1024);
     be_rtt_cache := 50000;
     be_notify := Some {| bn_token := t; bn_pending := false; bn_dirty := []; bn_dirty_cap := dirty_cap; bn_wakes := 0 |};
     be_scheduler := SchedulerBackendState_default |}.
Definition new_conn (a : accepted_socket) (t : nat) (now : Z) : WorkerConn :=
  {| wc_remote_ip := ac_remote_ip a;
     wc_ms := {| ms_socket := ac_socket a; ms_conn_id := []; ms_tx_backend := new_backend a t 4096; ms_handshake_done := false;
                 ms_client_session := None; ms_ic_rx := None; ms_session_epoch := 0; ms_rx_producer := None;
                 ms_brutal_applied := false |};
     wc_scanner := set_max_data_len (FrameScanner_new lazy_compact) HANDSHAKE_DATA_LENGTH;
     wc_sniffed := false; wc_sniffed_inner := false; wc_rx_producer := None; wc_fec_data := []; wc_reorder_input := [];
     wc_last_rx := now |}.
Definition MAX_WORKER_CONNS : nat := 32.
Definition MAX_IP_CONNS : nat := 4.
Definition admit_conn (w : worker) (a : accepted_socket) (now : Z) : worker :=
  if (MAX_WORKER_CONNS <=? size (wk_conns w))%nat || (MAX_IP_CONNS <=? ip_count (wk_conns w) (ac_remote_ip a))%nat then w
  else
    let t := wk_unique_token w in
    {| wk_core := wk_core w;
       wk_conns := if ac_registered a then <[t := new_conn a t now]> (wk_conns w) else wk_conns w;
       wk_unique_token := S t; wk_closed := wk_closed w; wk_released := wk_released w |}.

(** The reaper runs once a second, in the worker that wins the exchange of the shared
    time [last_reap] it has loaded. *)
Definition worker_reap (w : worker) (now_ms last_reap now : Z) (won : bool) : worker :=
  if (1000 <=? sat_sub now_ms last_reap) && won then wk_set_core w (reap (wk_core w) now) else w.

(** The timer of one connection.  The writer answers whether its output is stuck and
    whether flushing closes it; [sa_fresh_id] names a retired epoch. *)
Record scan_answer := { sa_overdue : bool; sa_flush_close : bool; sa_fresh_id : list Z }.
Definition idle_secs (c : WorkerConn) (now : Z) : Z := (now - wc_last_rx c) / 1000.
Definition scan_close (core : ServerCore) (c : WorkerConn) (ans : scan_answer) (now : Z) : ServerCore * bool :=
  if 15 <? idle_secs c now then (core, true)
  else if negb (ms_handshake_done (wc_ms c)) then (core, false)
  else
    let '(core, swept) := sweep_conn core (wc_ms c) (sa_fresh_id ans) in
    (core, swept || sa_overdue ans || sa_flush_close ans).
Definition scan_one (w : worker) (t : nat) (ans : scan_answer) (now : Z) : worker :=
  match wk_conns w !! t with
  | Some c => let '(core, close) := scan_close (wk_core w) c ans now in wk_mark (wk_set_core w core) t close
  | None => w
  end.

(** Dropping a connection: [close_session_tls], deregistration, [on_conn_closed]. *)
Definition remove_conn (w : worker) (t : nat) (now : Z) : worker :=
  match wk_conns w !! t with
  | Some c =>
      {| wk_core := on_conn_closed (wk_core w) (wc_ms c) now; wk_conns := delete t (wk_conns w);
         wk_unique_token := wk_unique_token w; wk_closed := wk_closed w;
         wk_released := wk_released w ++ [t] |}
  | None => w
  end.

(** A dirty connection, with the writer's answer to flushing it. *)
Definition on_dirty (w : worker) (t : nat) (close : bool) : worker :=
  match wk_conns w !! t with Some _ => wk_mark w t close | None => w end.
Definition on_event (w : worker) (t : nat) (ev : readable) (now : Z) : option (worker * list delivery * list fallback) :=
  match wk_conns w !! t with
  | Some c =>
      s ← on_readable (wk_core w) c ev now;
      let w := wk_set w (se_core s) (<[t := se_conn s]> (wk_conns w)) in
      Some (if se_close s then remove_conn w t now else w, se_out s, se_sent s)
  | None => Some (w, [], [])
  end.

(** Overdue gaps are skipped once per session, whatever the number of its connections. *)
Fixpoint distinct_from (seen : gset nat) (l : list nat) : list nat :=
  match l with
  | [] => []
  | r :: l => if decide (r ∈ seen) then distinct_from seen l else r :: distinct_from ({[r]} ∪ seen) l
  end.
Definition reorder_sessions (core : ServerCore) (conns : list WorkerConn) : list nat :=
  distinct_from ∅
    (filter (fun r => match sv_heap core !! r with Some s => bool_decide (cs_rx_actor s = None) | None => false end = true)
       (omap (fun c => ms_client_session (wc_ms c)) conns)).
Definition flush_overdue (core : ServerCore) (r : nat) (now : Z) : ServerCore * list delivery :=
  match sv_heap core !! r with
  | Some s =>
      let '(rb, ready) := flush_timeout_into (cs_reorder_buf s) now in
      let s := cs_set_reorder s rb in
      let '(vs, out) := process_all s (live_switch core) ready now in
      (sv_put (sv_set_switch core vs) r s, out)
  | None => (core, [])
  end.

(** The sort and the removal of repetitions at the end of a turn. *)
Fixpoint dedup (l : list nat) : list nat :=
  match l with
  | a :: (b :: _) as rest => if (a =? b)%nat then dedup rest else a :: dedup rest
  | l => l
  end.
Definition take_closed (w : worker) : worker * list nat :=
  ({| wk_core := wk_core w; wk_conns := wk_conns w; wk_unique_token := wk_unique_token w;
      wk_closed := []; wk_released := wk_released w |},
   dedup (merge_sort le (wk_closed w))).
Definition remove_closed (w : worker) (now : Z) : worker :=
  let '(w, closed) := take_closed w in foldl (fun w t => remove_conn w t now) w closed.

(** ** A turn of the loop *)

(** How long the poll may sleep: 250 ms, less when a reorder gap or a cork needs service. *)
Definition poll_timeout (gaps corks : list (option Z)) : Z :=
  foldl (fun acc w => match w with Some w => Z.min acc w | None => acc end) 250 (gaps ++ corks).
Definition conn_gap (core : ServerCore) (now : Z) (c : WorkerConn) : option Z :=
  '(_, s) ← attached_session core c;
  if bool_decide (cs_rx_actor s = None) then next_timeout (cs_reorder_buf s) now else None.

Inductive worker_event := WWake (dirty : list (nat * bool)) | WRead (t : nat) (ev : readable) | WOther (t : nat).
Definition wake_or_read (w : worker) (ev : worker_event) (now : Z) : option (worker * list delivery * list fallback) :=
  match ev with
  | WWake dirty => Some (foldl (fun w d => on_dirty w d.1 d.2) w dirty, [], [])
  | WRead t ev => on_event w t ev now
  | WOther _ => Some (w, [], [])
  end.
Fixpoint run_events (w : worker) (evs : list worker_event) (now : Z) : option (worker * list delivery * list fallback) :=
  match evs with
  | [] => Some (w, [], [])
  | ev :: evs =>
      '(w, out, sent) ← wake_or_read w ev now;
      '(w, out', sent') ← run_events w evs now;
      Some (w, out ++ out', sent ++ sent')
  end.
Fixpoint flush_all_overdue (core : ServerCore) (rs : list nat) (now : Z) : ServerCore * list delivery :=
  match rs with
  | [] => (core, [])
  | r :: rs =>
      let '(core, out) := flush_overdue core r now in
      let '(core, out') := flush_all_overdue core rs now in (core, out ++ out')
  end.

(** The inputs of a turn; [ti_scan] and [ti_order] are the orders in which the table is
    traversed. *)
Record turn_input := {
  ti_now : Z; ti_now_ms : Z; ti_last_reap : Z; ti_won : bool;
  ti_accepted : list accepted_socket;
  ti_scan : list (nat * scan_answer);
  ti_events : list worker_event;
  ti_order : list nat }.
Definition serve_turn (w : worker) (i : turn_input) : option (worker * list delivery * list fallback) :=
  let now := ti_now i in
  let w := foldl (fun w a => admit_conn w a now) w (ti_accepted i) in
  let w := worker_reap w (ti_now_ms i) (ti_last_reap i) now (ti_won i) in
  let w := foldl (fun w s => scan_one w s.1 s.2 now) w (ti_scan i) in
  '(w, out, sent) ← run_events w (ti_events i) now;
  let conns := omap (fun t => wk_conns w !! t) (ti_order i) in
  let '(core, out') := flush_all_overdue (wk_core w) (reorder_sessions (wk_core w) conns) now in
  Some (remove_closed (wk_set_core w core) now, out ++ out', sent).
Fixpoint serve_turns (w : worker) (ins : list turn_input) : option worker :=
  match ins with
  | [] => Some w
  | i :: ins => '(w, _, _) ← serve_turn w i; serve_turns w ins
  end.
End Worker.
