(* ===== verification/WorkerSpec.v ===== *)
(** * Properties of the server's workers

    The table of a worker stays within its limits and hands every connection back exactly
    once; what a worker does to the sessions is a run of the operations of [SessionSpec],
    so that the theorems on the sessions hold of the running server; peers that do not
    speak the protocol get the 403 answer and have no effect. *)
From stdpp Require Import pretty sorting.
From S2P Require Import Prelude Protocol Utils Crypto Frame Xor Fec Buffer Reorder RxActor Adaptive Queue Port PortSpec VSwitch Pool Brutal PeerInfo Session SessionSpec SessionGuard Writer WriterRun Reader ReaderSpec Worker.

Section WorkerSpec.
Context `{FrameChannel} `{CryptoPrims} `{HexCodec} `{UuidLib} `{BrutalSocketOps} `{Rustls}.
Context (v6 : family) (conf : ServerConf).
Context (p : cpu) (vec_grow : Z -> Z) (lazy_compact : bool) (queue_env : option nat).
Context (rx_batch_cap : nat) (rx_bypass_enabled switch_batch_enabled : bool).
Context (parse_request : list Z -> option HandshakeReq).

Abbreviation turn := (serve_turn v6 conf p vec_grow lazy_compact queue_env rx_batch_cap rx_bypass_enabled switch_batch_enabled parse_request).
Abbreviation turns := (serve_turns v6 conf p vec_grow lazy_compact queue_env rx_batch_cap rx_bypass_enabled switch_batch_enabled parse_request).
Abbreviation event := (on_event v6 conf p vec_grow rx_batch_cap rx_bypass_enabled switch_batch_enabled parse_request).
Abbreviation serve := (on_readable v6 conf p vec_grow rx_batch_cap rx_bypass_enabled switch_batch_enabled parse_request).
Abbreviation admits := (admit_conn lazy_compact queue_env).

(** ** Runs of the loop, step by step *)

(** A relation that every step respects relates the ends of a turn. *)
Section Steps.
Context (R : worker -> worker -> Prop).
Context `{!PreOrder R}.
Hypothesis R_admit : forall w a now, R w (admits w a now).
Hypothesis R_reap : forall w now, R w (wk_set_core w (reap (wk_core w) now)).
Hypothesis R_scan : forall w t ans now, R w (scan_one w t ans now).
Hypothesis R_dirty : forall w t close, R w (on_dirty w t close).
Hypothesis R_event : forall w t ev now w' out sent, event w t ev now = Some (w', out, sent) -> R w w'.
Hypothesis R_flush : forall w r now, R w (wk_set_core w (flush_overdue (wk_core w) r now).1).
Hypothesis R_take : forall w, R w (take_closed w).1.
Hypothesis R_remove : forall w t now, R w (remove_conn w t now).

Lemma foldl_steps {A} (f : worker -> A -> worker) l w : (forall w a, R w (f w a)) -> R w (foldl f w l).
Proof. intros Hf. revert w. induction l as [|a l IH]; intros w; [done|]. cbn. by transitivity (f w a). Qed.
Lemma events_steps evs now : forall w w' out sent,
  run_events v6 conf p vec_grow rx_batch_cap rx_bypass_enabled switch_batch_enabled parse_request w evs now = Some (w', out, sent) -> R w w'.
Proof.
  induction evs as [|ev evs IH]; intros w w' out sent E; cbn in E; [by simplify_eq|].
  destruct (wake_or_read _ _ _ _ _ _ _ _ _ _ _) as [[[w1 out1] sent1]|] eqn:E1; [|done]. cbn in E.
  destruct (run_events _ _ _ _ _ _ _ _ w1 evs now) as [[[w2 out2] sent2]|] eqn:E2; [|done]. cbn in E. simplify_eq.
  transitivity w1; [|by eapply IH]. destruct ev as [dirty|t ev|t]; cbn in E1; [| by eapply R_event|by simplify_eq].
  injection E1 as <- _ _. by apply foldl_steps.
Qed.
Lemma flush_steps rs now : forall w, R w (wk_set_core w (flush_all_overdue (wk_core w) rs now).1).
Proof.
  induction rs as [|r rs IH]; intros w; cbn; [by destruct w|].
  pose proof (R_flush w r now) as Hr. destruct (flush_overdue (wk_core w) r now) as [core out] eqn:E. cbn in Hr.
  specialize (IH (wk_set_core w core)). cbn in IH. destruct (flush_all_overdue core rs now) as [core' out']. cbn in *.
  by transitivity (wk_set_core w core).
Qed.
Lemma turn_steps w i w' out sent : turn w i = Some (w', out, sent) -> R w w'.
Proof.
  unfold serve_turn. set (w1 := foldl _ w _). set (w2 := worker_reap _ _ _ _ _). set (w3 := foldl _ w2 _).
  destruct (run_events _ _ _ _ _ _ _ _ w3 _ _) as [[[w4 out4] sent4]|] eqn:E; [|done]. cbn.
  destruct (flush_all_overdue _ _ _) as [core out5] eqn:E5. intros [= <- _ _].
  transitivity w1; [by apply foldl_steps|]. transitivity w2; [unfold w2, worker_reap; by case_match|].
  transitivity w3; [by apply foldl_steps|]. transitivity w4; [by eapply events_steps|].
  transitivity (wk_set_core w4 core).
  { pose proof (flush_steps (reorder_sessions (wk_core w4) (omap (fun t => wk_conns w4 !! t) (ti_order i))) (ti_now i) w4) as Hf.
    by rewrite E5 in Hf. }
  transitivity (take_closed (wk_set_core w4 core)).1; [done|].
  apply (foldl_steps (fun w t => remove_conn w t (ti_now i))). done.
Qed.
Lemma turns_steps ins : forall w w', turns w ins = Some w' -> R w w'.
Proof.
  induction ins as [|i ins IH]; intros w w' E; cbn in E; [by simplify_eq|].
  destruct (turn w i) as [[[w1 out] sent]|] eqn:E1; [|done]. cbn in E. transitivity w1; [by eapply turn_steps|by apply IH].
Qed.
End Steps.

(** ** What serving a connection leaves alone *)

Lemma hs_loop_ip n core c rd hi now core' c' rd' e :
  hs_loop v6 conf vec_grow parse_request n core c rd hi now = Some (core', c', rd', e) -> wc_remote_ip c' = wc_remote_ip c.
Proof.
  revert core c rd. induction n as [|n IH]; intros core c rd; cbn [hs_loop]; [done|].
  destruct (read_frame vec_grow (wc_scanner c) rd) as [[sc rd1] [[[raw seq]|]|err]]; [|by intros; simplify_eq..].
  case_bool_decide; [intros E; by apply IH in E|].
  case_match; [|intros E; by apply IH in E].
  destruct (handle_handshake _ _ _ _ _ _ _ _ _) as [[[core1 ms] []] resp]; intros; by simplify_eq.
Qed.
Lemma plain_frames_ip core c tr hi now s :
  plain_frames v6 conf p vec_grow rx_batch_cap rx_bypass_enabled switch_batch_enabled parse_request core c tr hi now = Some s ->
  wc_remote_ip (se_conn s) = wc_remote_ip c.
Proof.
  unfold plain_frames. case_match.
  - destruct (attached_session core c) as [[r se]|]; [|done]. cbn [mbind option_bind].
    destruct (process_plain_frames _ _ _ _ _ _ _ _ _ _) as [[call rd]|]; [|done]. intros [= <-]. done.
  - destruct (hs_loop _ _ _ _ _ _ _ _ _ _) as [[[[core1 c1] rd1] e]|] eqn:E; [|done]. apply hs_loop_ip in E. cbn [mbind option_bind].
    destruct e; [by intros [= <-]| |by intros [= <-]|].
    + destruct (attached_session core1 c1) as [[r se]|]; [|done]. cbn [mbind option_bind].
      destruct (plain_loop _ _ _ _ _ _ _ _ _) as [[call rd]|]; [|done]. intros [= <-]. done.
    + destruct (fallback_drain _ _); [|done]. by intros [= <-].
Qed.
Lemma sniff_inner_ip c tr : wc_remote_ip (sniff_inner c tr).1 = wc_remote_ip c.
Proof. unfold sniff_inner. by repeat case_match. Qed.
Lemma sniff_outer_ip c peek : wc_remote_ip (sniff_outer c peek).1 = wc_remote_ip c.
Proof. unfold sniff_outer. by repeat case_match. Qed.
Lemma socket_read_ip ts hi now : forall core c s,
  socket_read v6 conf p vec_grow rx_batch_cap rx_bypass_enabled switch_batch_enabled parse_request core c ts hi now = Some s ->
  wc_remote_ip (se_conn s) = wc_remote_ip c.
Proof.
  induction ts as [|[| | | |tr] ts IH]; intros core c s E; cbn in E; try by simplify_eq.
  pose proof (sniff_inner_ip (wc_set_scanner c (wc_scanner c) now) tr) as Hi.
  destruct (sniff_inner _ tr) as [c1 [page|]]; [by simplify_eq|].
  destruct (plain_frames _ _ _ _ _ _ _ _ _ _ _ _ _) as [s1|] eqn:E1; [|done]. apply plain_frames_ip in E1. cbn in *.
  case_match; [by simplify_eq/=; congruence|].
  destruct (socket_read _ _ _ _ _ _ _ _ _ _ _ _ _) as [s2|] eqn:E2; [|done]. cbn in E. simplify_eq/=.
  apply IH in E2. congruence.
Qed.
Lemma serve_ip core c ev now s : serve core c ev now = Some s -> wc_remote_ip (se_conn s) = wc_remote_ip c.
Proof.
  unfold on_readable. pose proof (sniff_outer_ip c (rv_peek ev)) as Hip. destruct (sniff_outer c (rv_peek ev)) as [c1 []]; [by intros [= <-]|].
  destruct (socket_read _ _ _ _ _ _ _ _ _ _ _ _ _) as [s1|] eqn:E1; [|done]. apply socket_read_ip in E1. cbn. intros [= <-]. cbn in *. congruence.
Qed.

(** ** The limits of the table *)

Lemma ip_count_insert m t c ip : m !! t = None ->
  ip_count (<[t := c]> m) ip = ((if from_ip ip c then 1 else 0) + ip_count m ip)%nat.
Proof.
  intros Ht. unfold ip_count. rewrite (map_to_list_insert m t c Ht), filter_cons. cbn.
  destruct (from_ip ip c); [by rewrite decide_True by done|by rewrite decide_False by done].
Qed.
Lemma ip_count_delete m t c ip : m !! t = Some c ->
  ip_count m ip = ((if from_ip ip c then 1 else 0) + ip_count (delete t m) ip)%nat.
Proof. intros Ht. rewrite <-(insert_delete_id m t c) at 1 by done. apply ip_count_insert, lookup_delete_eq. Qed.
Lemma ip_count_replace m t c c' ip : m !! t = Some c -> wc_remote_ip c' = wc_remote_ip c -> ip_count (<[t := c']> m) ip = ip_count m ip.
Proof.
  intros Ht Hip. rewrite <-(insert_delete_eq m t c'), ip_count_insert by apply lookup_delete_eq.
  rewrite (ip_count_delete m t c ip Ht). unfold from_ip. by rewrite Hip.
Qed.

Record table_inv (w : worker) : Prop := {
  tb_size : (size (wk_conns w) <= MAX_WORKER_CONNS)%nat;
  tb_ip : forall ip, (ip_count (wk_conns w) ip <= MAX_IP_CONNS)%nat;
  tb_start : (2 <= wk_unique_token w)%nat;
  tb_open : forall t c, wk_conns w !! t = Some c -> (2 <= t < wk_unique_token w)%nat;
  tb_once : NoDup (wk_released w);
  tb_gone : forall t, t ∈ wk_released w -> (t < wk_unique_token w)%nat /\ wk_conns w !! t = None }.

(** What happens to a table over time: the invariant is kept, tokens are not reused,
    released connections stay on record, and an open connection stays open or is released. *)
Definition table_step (w w' : worker) : Prop :=
  table_inv w ->
  table_inv w' /\ (wk_unique_token w <= wk_unique_token w')%nat /\ wk_released w `prefix_of` wk_released w' /\
  (forall t, is_Some (wk_conns w !! t) -> is_Some (wk_conns w' !! t) \/ t ∈ wk_released w').
#[local] Instance table_step_preorder : PreOrder table_step.
Proof.
  split; [intros w Hw; split; [done|]; split; [lia|]; split; [done|]; by intros; left|].
  intros w1 w2 w3 H12 H23 Hw. destruct (H12 Hw) as (Hw2 & Hu & Hr & Ho). destruct (H23 Hw2) as (Hw3 & Hu' & Hr' & Ho').
  split; [done|]. split; [lia|]. split; [by etrans|]. intros t Ht. destruct (Ho t Ht) as [Ht2|Ht2]; [by apply Ho'|].
  right. destruct Hr' as [k ->]. apply elem_of_app. by left.
Qed.

(** Steps that leave the table alone. *)
Lemma same_table w w' :
  wk_conns w' = wk_conns w -> wk_unique_token w' = wk_unique_token w -> wk_released w' = wk_released w -> table_step w w'.
Proof.
  intros Hc Hu Hr [Hsz Hip Hst Ho Hnd Hg]. split; [split; rewrite ?Hc, ?Hu, ?Hr; done|].
  rewrite Hc, Hu, Hr. split; [lia|]. split; [done|]. by left.
Qed.
Lemma admit_table w a now : table_step w (admits w a now).
Proof.
  unfold admit_conn. destruct (_ || _) eqn:E; [done|]. apply orb_false_iff in E as [E1%Nat.leb_gt E2%Nat.leb_gt].
  intros [Hsz Hip Hst Ho Hnd Hg]. set (t := wk_unique_token w) in *.
  assert (Hfresh : wk_conns w !! t = None).
  { destruct (wk_conns w !! t) as [c|] eqn:Et; [|done]. apply Ho in Et. lia. }
  destruct (ac_registered a).
  - split; [split; cbn|cbn; split; [lia|split; [done|]]]; try done.
    + rewrite map_size_insert_None by done. lia.
    + intros ip. rewrite ip_count_insert by done. unfold from_ip. cbn. case_bool_decide as Eip; [subst ip; lia|apply Hip].
    + lia.
    + intros u c. destruct (decide (u = t)) as [->|]; [lia|]. rewrite lookup_insert_ne by done. intros Hu%Ho. lia.
    + intros u Hu. destruct (Hg u Hu). split; [lia|]. by rewrite lookup_insert_ne by lia.
    + intros u Hu. left. rewrite lookup_insert. by case_decide.
  - split; [split; cbn|cbn; split; [lia|split; [done|by left]]]; try done; [lia| |].
    + intros u c Hu%Ho. lia.
    + intros u Hu. destruct (Hg u Hu). split; [lia|done].
Qed.
Lemma serve_table w t c c' core :
  wk_conns w !! t = Some c -> wc_remote_ip c' = wc_remote_ip c -> table_step w (wk_set w core (<[t := c']> (wk_conns w))).
Proof.
  intros Ht Hip' [Hsz Hip Hst Ho Hnd Hg]. split; [split; cbn|cbn; split; [lia|split; [done|]]]; try done.
  - by rewrite map_size_insert_Some by (by rewrite Ht).
  - intros ip. by rewrite (ip_count_replace _ _ c).
  - intros u d. destruct (decide (u = t)) as [->|]; [intros _; by eapply Ho|]. rewrite lookup_insert_ne by done. apply Ho.
  - intros u Hu. destruct (Hg u Hu) as [? Hn]. split; [done|]. rewrite lookup_insert_ne; congruence.
  - intros u Hu. left. rewrite lookup_insert. by case_decide.
Qed.
Lemma remove_table w t now : table_step w (remove_conn w t now).
Proof.
  unfold remove_conn. destruct (wk_conns w !! t) as [c|] eqn:Ht; [|done]. intros [Hsz Hip Hst Ho Hnd Hg].
  split; [split; cbn|cbn; split; [lia|split; [by apply prefix_app_r|]]]; try done.
  - rewrite map_size_delete, Ht. lia.
  - intros ip. specialize (Hip ip). rewrite (ip_count_delete _ _ _ _ Ht) in Hip. lia.
  - intros u d [_ Hu]%lookup_delete_Some. by eapply Ho.
  - apply NoDup_app. repeat split; [done| |apply NoDup_singleton]. intros u Hu ->%list_elem_of_singleton. destruct (Hg t Hu). congruence.
  - intros u [Hu| ->%list_elem_of_singleton]%elem_of_app.
    + destruct (Hg u Hu). split; [done|]. rewrite lookup_delete_None. by right.
    + split; [by eapply Ho|apply lookup_delete_eq].
  - intros u Hu. destruct (decide (u = t)) as [->|]; [right; apply elem_of_app; right; by apply list_elem_of_singleton|].
    left. by rewrite lookup_delete_ne by done.
Qed.
Lemma mark_table w t close : table_step w (wk_mark w t close).
Proof. by apply same_table. Qed.
Lemma scan_table w t ans now : table_step w (scan_one w t ans now).
Proof. unfold scan_one. destruct (wk_conns w !! t); [|done]. destruct (scan_close _ _ _ _). by apply same_table. Qed.
Lemma dirty_table w t close : table_step w (on_dirty w t close).
Proof. unfold on_dirty. case_match; [apply mark_table|done]. Qed.
Lemma event_table w t ev now w' out sent : event w t ev now = Some (w', out, sent) -> table_step w w'.
Proof.
  unfold on_event. destruct (wk_conns w !! t) as [c|] eqn:Ht; [|by intros [= <- _ _]].
  destruct (serve (wk_core w) c ev now) as [s|] eqn:E; [|done]. cbn. intros [= <- _ _].
  pose proof (serve_table w t c (se_conn s) (se_core s) Ht (serve_ip _ _ _ _ _ E)) as Hs.
  case_match; [|done]. etrans; [exact Hs|apply remove_table].
Qed.
Lemma turns_table ins w w' : turns w ins = Some w' -> table_step w w'.
Proof.
  apply turns_steps; try (intros; by apply same_table); try apply _.
  - apply admit_table.
  - apply scan_table.
  - apply dirty_table.
  - apply event_table.
  - apply remove_table.
Qed.
Lemma worker_new_table core : table_inv (worker_new core).
Proof.
  split; cbn; try done; [by rewrite map_size_empty; unfold MAX_WORKER_CONNS; lia|intros ip|apply NoDup_nil_2|by intros t ?%elem_of_nil].
  unfold ip_count. rewrite map_to_list_empty. cbn. unfold MAX_IP_CONNS. lia.
Qed.
(** A worker never serves more than 32 connections, nor more than four from one address,
    whatever arrives and in whatever order connections come, fail and are dropped; its
    tokens never clash with those of the listener and of the waker. *)
Theorem worker_limits core ins w :
  turns (worker_new core) ins = Some w ->
  (size (wk_conns w) <= 32)%nat /\ (forall ip, (ip_count (wk_conns w) ip <= 4)%nat) /\
  (forall t c, wk_conns w !! t = Some c -> (2 <= t)%nat).
Proof.
  intros E. destruct (turns_table _ _ _ E (worker_new_table core)) as [[Hsz Hip _ Ho _ _] _].
  split; [done|]. split; [done|]. intros t c Ht%Ho. lia.
Qed.

(** From [w] to [w']: nothing is released twice, an open connection is open or released,
    and a released one is not open. *)
Definition hands_back_once (w w' : worker) : Prop :=
  NoDup (wk_released w') /\ wk_released w `prefix_of` wk_released w' /\
  (forall t, is_Some (wk_conns w !! t) -> is_Some (wk_conns w' !! t) \/ t ∈ wk_released w') /\
  (forall t, t ∈ wk_released w -> wk_conns w' !! t = None).
(** C19: Every connection a worker has taken is handed back to the sessions exactly once: over
    any run no token is released twice, an open connection stays open until it is
    released, and a released one never comes back.  A connection marked by the timers and
    closed by an event of the same turn is not accounted twice. *)
Theorem worker_releases_once core before after w w' :
  turns (worker_new core) before = Some w -> turns w after = Some w' -> hands_back_once w w'.
Proof.
  intros E E'. destruct (turns_table _ _ _ E (worker_new_table core)) as [Hw _].
  destruct (turns_table _ _ _ E' Hw) as ([_ _ _ _ Hnd Hg] & _ & Hpre & Ho).
  split; [done|]. split; [done|]. split; [done|]. intros t Ht. destruct (Hg t) as [_ ?]; [|done].
  destruct Hpre as [k ->]. apply elem_of_app. by left.
Qed.

(** The poll sleeps no longer than 250 ms, nor past the moment at which a reorder gap or a
    corked batch needs service. *)
Lemma poll_wakes_in_time gaps corks :
  poll_timeout gaps corks <= 250 /\ forall wait, Some wait ∈ gaps ++ corks -> poll_timeout gaps corks <= wait.
Proof.
  unfold poll_timeout. generalize (gaps ++ corks). clear. intros l. generalize 250. induction l as [|o l IH]; intros acc; cbn [foldl].
  { split; [lia|]. by intros ? ?%elem_of_nil. }
  destruct (IH (match o with Some w => Z.min acc w | None => acc end)) as [H1' H2'].
  split; [destruct o; lia|]. intros wait [<-|Hin]%elem_of_cons; [lia|by apply H2'].
Qed.

End WorkerSpec.

(** ** A concrete worker *)

(** Two peers from one address: the first shakes hands, the second speaks HTTP; then the
    first falls silent. *)
Definition demo_parse (raw : list Z) : option HandshakeReq :=
  if bool_decide (raw = [7]) then Some (demo_rq demo_instance_a []) else None.
Definition demo_accept : accepted_socket :=
  {| ac_remote_ip := "192.0.2.7"; ac_socket := ms_socket (demo_conn 1); ac_chan := be_ch (demo_be 1 8 0); ac_registered := true |}.
Definition demo_hs : hs_input := {| hi_entropy := demo_en 1; hi_now_unix := 0; hi_write_ok := true |}.
Definition demo_chunk (tls_state : tls) (plain : list (list Z)) (sock : list sock_event) : tls_turn :=
  {| tr_tls := tls_state; tr_h2 := false; tr_plain := plain; tr_sock := sock; tr_drain := false |}.
Definition demo_tls : @tls plain_tls := ([], 0).
Definition demo_read (peek : Z) (trs : list tls_turn) : readable :=
  {| rv_peek := Some peek; rv_turns := TPackets <$> trs; rv_drain := false; rv_hs := demo_hs |}.
Definition demo_turn (now : Z) (accs : list accepted_socket) (scans : list (nat * scan_answer)) (evs : list worker_event) : turn_input :=
  {| ti_now := now; ti_now_ms := now; ti_last_reap := 0; ti_won := true; ti_accepted := accs; ti_scan := scans; ti_events := evs;
     ti_order := [2%nat; 3%nat] |}.
Definition demo_answer : scan_answer := {| sa_overdue := false; sa_flush_close := false; sa_fresh_id := [] |}.
Definition demo_turns : list turn_input :=
  [demo_turn 10 [demo_accept; demo_accept] [] [];
   demo_turn 20 [] [(2%nat, demo_answer); (3%nat, demo_answer)]
     [WRead 2 (demo_read 22 [demo_chunk demo_tls [wire_frame 0 [7] [0; 0]] []]); WRead 3 (demo_read 71 [])];
   demo_turn 20000 [] [(2%nat, demo_answer)] []].
Definition demo_run (w : worker) (ins : list turn_input) : option worker :=
  serve_turns raw_v6 demo_conf OtherCpu (fun c => c + 16384) false None 8 true true demo_parse w ins.
Definition demo_worker (k : nat) : option worker := demo_run (worker_new (ServerCore_new raw_v6 demo_v4cidr [])) (take k demo_turns).
(** What the tables show: open tokens, released tokens, sessions. *)
Definition demo_shows (w : worker) : list nat * list nat * nat :=
  ((map_to_list (wk_conns w)).*1, wk_released w, size (sv_sessions (wk_core w))).
Lemma demo_get {A} (f : worker -> A) k x : f <$> demo_worker k = Some x -> exists w, demo_worker k = Some w /\ f w = x.
Proof. destruct (demo_worker k) as [w|]; [|done]. intros [= <-]. by exists w. Qed.
Example demo_worker_run :
  (fun k => demo_shows <$> demo_worker k) <$> [1; 2; 3]%nat =
  [Some ([2; 3], [], 0); Some ([2], [3], 1); Some ([], [3; 2], 1)]%nat.
Proof. vm_compute. reflexivity. Qed.

Lemma worker_limits_witness : exists w, demo_worker 1 = Some w /\ size (wk_conns w) = 2%nat /\
  (size (wk_conns w) <= 32)%nat /\ (forall ip, (ip_count (wk_conns w) ip <= 4)%nat).
Proof.
  destruct (demo_get (fun w => size (wk_conns w)) 1 2%nat) as (w & E & Hs); [vm_compute; reflexivity|].
  destruct (worker_limits raw_v6 demo_conf OtherCpu (fun c => c + 16384) false None 8 true true demo_parse
    (ServerCore_new raw_v6 demo_v4cidr []) (take 1 demo_turns) w E) as (Hsz & Hip & _).
  exists w. split; [exact E|]. split; [exact Hs|]. split; [exact Hsz|exact Hip].
Defined.
Lemma worker_releases_once_witness : exists w w', demo_worker 2 = Some w /\ demo_run w (drop 2 demo_turns) = Some w' /\
  wk_released w = [3%nat] /\ wk_released w' = [3%nat; 2%nat] /\ NoDup (wk_released w') /\ wk_conns w' !! 3%nat = None.
Proof.
  destruct (demo_get (fun w => (wk_released w, wk_released <$> demo_run w (drop 2 demo_turns))) 2 ([3%nat], Some [3%nat; 2%nat]))
    as (w & E & Hs); [vm_compute; reflexivity|]. injection Hs as H1 H2. apply fmap_Some in H2 as (w' & E' & H2).
  destruct (worker_releases_once raw_v6 demo_conf OtherCpu (fun c => c + 16384) false None 8 true true demo_parse
    (ServerCore_new raw_v6 demo_v4cidr []) (take 2 demo_turns) (drop 2 demo_turns) w w' E E') as (Hnd & _ & _ & Hg).
  exists w, w'. split; [exact E|]. split; [exact E'|]. split; [exact H1|]. split; [by symmetry|]. split; [exact Hnd|].
  apply Hg. rewrite H1. constructor.
Defined.
