(* ===== verification/WorkerRefine.v ===== *)
(** * What a worker does to the sessions

    Every step of a worker is a run of the operations of [SessionSpec]: an admission is
    [OConnect], a request [OHandshake], a timer [OSweep], a removal [OClose]; the receive
    loop hands frames to the switch ([OFrame]) and replaces the receive state of one session
    ([OTraffic]).  The other workers keep their connections ([others]) meanwhile. *)
From stdpp Require Import pretty sorting.
From S2P Require Import Prelude Protocol Utils Crypto Frame Xor Fec Buffer Reorder RxActor Adaptive Queue Port PortSpec VSwitch Pool Brutal PeerInfo Session SessionSpec SessionGuard Writer WriterRun Reader ReaderSpec Worker WorkerSpec.

Section Traffic.
Context `{FrameChannel} `{CryptoPrims}.

(** ** The receive state of a session *)

Definition traffic (s s' : ClientSession) : Prop :=
  exists rb dd actor dec, s' = cs_traffic s (cs_port s) rb dd actor dec.
#[local] Instance traffic_preorder : PreOrder traffic.
Proof.
  split.
  - intros s. exists (cs_reorder_buf s), (cs_dedup s), (cs_rx_actor s), (es_fec_dec (cs_epoch_state s)).
    destruct s as [? ? ? ? ? [] ? ? ? ? ? ? [? ? ? ? ? ? ? ? ? []] ? ? ? ? ?]; done.
  - intros s ? ? (rb & dd & a & d & ->) (rb' & dd' & a' & d' & ->).
    exists rb', dd', (match a' with Some x => Some x | None => a end), (match d' with Some x => Some x | None => d end).
    destruct s as [? ? ? ? ? [] ? ? ? ? ? ? [? ? ? ? ? ? ? ? ? []] ? ? ? ? ?]; destruct a', d'; done.
Qed.
Lemma traffic_rx s rb dd : traffic s (cs_set_rx s rb dd (cs_rx_actor s)).
Proof.
  exists rb, dd, None, None. destruct s as [? ? ? ? ? [] ? ? ? ? ? ? [? ? ? ? ? ? ? ? ? []] ? ? ? ? ?]; done.
Qed.
Lemma traffic_actor s a b : cs_rx_actor s = Some b -> traffic s (cs_set_rx s (cs_reorder_buf s) (cs_dedup s) (Some a)).
Proof.
  intros E. exists (cs_reorder_buf s), (cs_dedup s), (Some a), None.
  destruct s as [? ? ? ? ? [] ? ? ? ? ? ? [? ? ? ? ? ? ? ? ? []] ? ? ? ? ?]; done.
Qed.
Lemma traffic_dec s d b : es_fec_dec (cs_epoch_state s) = Some b -> traffic s (cs_set_dec s (Some d)).
Proof.
  intros E. exists (cs_reorder_buf s), (cs_dedup s), None, (Some d).
  destruct s as [? ? ? ? ? [] ? ? ? ? ? ? [? ? ? ? ? ? ? ? ? []] ? ? ? ? ?]; done.
Qed.

(** ** Frames that reach the switch *)

Definition switch_frame : Type := string * option mac * FramePayload.
Definition switch_run (now : Z) (vs : VSwitch) (l : list switch_frame) : VSwitch :=
  foldl (fun vs f => (process_frame_inner vs f.1.1 f.1.2 f.2 now).1) vs l.
Definition switched (now : Z) (vs vs' : VSwitch) : Prop := exists l, vs' = switch_run now vs l.
#[local] Instance switched_preorder now : PreOrder (switched now).
Proof.
  split; [by exists []|]. intros vs ? ? [l ->] [l' ->]. exists (l ++ l'). unfold switch_run. by rewrite foldl_app.
Qed.
Lemma process_all_switched s vs ready now : switched now vs (process_all s vs ready now).1.
Proof.
  revert vs. induction ready as [|f ready IH]; intros vs; cbn [process_all]; [done|].
  destruct (process_ordered s vs f now) as [vs1 o1] eqn:E. specialize (IH vs1). destruct (process_all s vs1 ready now) as [vs2 o2].
  etrans; [|exact IH]. unfold process_ordered, process_session_frame in E.
  case_bool_decide; [exists [(st_client_id (cs_stat s), Some (cs_mac_bin s), Shared f)]|exists [(st_client_id (cs_stat s), None, Shared f)]];
    cbn; by rewrite E.
Qed.
Lemma flood_validate vs src f now : vs_validate_mac (flood vs src f now).1 = vs_validate_mac vs.
Proof.
  unfold flood. case_decide; [done|]. unfold allow_flood.
  destruct (vs_flood_mu vs !! src); [destruct (_ <? TOKEN)|]; done.
Qed.
Lemma forward_validate vs src f now : vs_validate_mac (forward vs src f now).1 = vs_validate_mac vs.
Proof.
  unfold forward. destruct (if is_unicast _ then _ else _); [|apply flood_validate].
  case_decide; [done|]. destruct (me_port _); [done|]. by case_match.
Qed.
Lemma learn_validate vs vs' src m now : learn_src vs src m now = Some vs' -> vs_validate_mac vs' = vs_validate_mac vs.
Proof.
  unfold learn_src. destruct (match vs_mac_table vs !! m with Some e => _ | None => _ end) as [need elsewhere].
  destruct (elsewhere && _); [done|]. destruct (negb need); [by intros [= <-]|]. destruct (negb _); [done|].
  destruct (vs_mac_table vs !! m); [|by intros [= <-]]. destruct (_ && _); [|by intros [= <-]]. case_bool_decide; [by intros [= <-]|done].
Qed.
Lemma inner_validate vs src reg f now : vs_validate_mac (process_frame_inner vs src reg f now).1 = vs_validate_mac vs.
Proof.
  unfold process_frame_inner. case_match; [done|]. destruct (check_src _ _ _ _ _) as [vs1|] eqn:E; [|done].
  rewrite forward_validate. unfold check_src in E. destruct reg as [m|]; [|by eapply learn_validate].
  case_decide; [by eapply learn_validate|]. case_decide; [by injection E as <-|done].
Qed.
Lemma switch_run_validate now l vs : vs_validate_mac (switch_run now vs l) = vs_validate_mac vs.
Proof.
  revert vs. induction l as [|f l IH]; intros vs; [done|]. cbn. unfold switch_run in IH. by rewrite IH, inner_validate.
Qed.
Lemma validate_same vs f : vs_validate_mac vs = Some f -> set_validate_mac vs f = vs.
Proof. destruct vs. cbn. by intros ->. Qed.

(** ** The receive loop *)

Context (p : cpu) (vec_grow : Z -> Z).
Context (rx_batch_cap : nat) (rx_bypass_enabled switch_batch_enabled : bool).
Context (now : Z).
Definition rx_moves (c c' : rx_call) : Prop :=
  traffic (rc_session c) (rc_session c') /\ switched now (rc_switch c) (rc_switch c').
#[local] Instance rx_moves_preorder : PreOrder rx_moves.
Proof. split; [by intros c; split|]. intros a b c [] []. split; by etrans. Qed.
Lemma rx_moves_same c c' : rc_session c' = rc_session c -> rc_switch c' = rc_switch c -> rx_moves c c'.
Proof. intros E1 E2. unfold rx_moves. by rewrite E1, E2. Qed.

Lemma to_switch_switched s vs ready : switched now vs (to_switch switch_batch_enabled s vs ready now).1.
Proof. rewrite to_switch_all. apply process_all_switched. Qed.
Lemma flush_batch_moves s vs fec_data input :
  let '(s', vs', _) := flush_server_rx_batch p rx_bypass_enabled switch_batch_enabled s vs fec_data input now in
  traffic s s' /\ switched now vs vs'.
Proof.
  unfold flush_server_rx_batch.
  set (step1 := match es_fec_dec (cs_epoch_state s) with Some d => _ | None => _ end).
  assert (H1 : traffic s step1.1).
  { unfold step1. destruct (es_fec_dec (cs_epoch_state s)) as [d|] eqn:Ed; [|done]. destruct fec_data; [done|].
    destruct (on_data_batch _ _ _ _) as [d' r]. by eapply traffic_dec. }
  destruct step1 as [s1 recovered]. cbn in H1. destruct (input ++ recovered) as [|x l]; [by split|].
  destruct (match (if static_rx _ _ then _ else _) with Some r => r | None => _ end) as [rb ready].
  pose proof (to_switch_switched (cs_set_reorder s1 rb) vs ready) as Hv. destruct (to_switch _ _ _ _ _) as [vs' out].
  split; [|done]. etrans; [exact H1|apply traffic_rx].
Qed.
Lemma rc_flush_moves c : rx_moves c (rc_flush p rx_bypass_enabled switch_batch_enabled c now).
Proof.
  unfold rc_flush. pose proof (flush_batch_moves (rc_session c) (rc_switch c) (rl_fec_data (rc_link c)) (rl_reorder_input (rc_link c))) as Hf.
  by destruct (flush_server_rx_batch _ _ _ _ _ _ _ _) as [[s vs] out].
Qed.
Lemma rc_actor_moves c b a pr ready :
  cs_rx_actor (rc_session c) = Some b -> rx_moves c (rc_actor switch_batch_enabled c a pr ready now).
Proof.
  intros Hb. unfold rc_actor. set (s := cs_set_rx _ _ _ _). pose proof (to_switch_switched s (rc_switch c) ready) as Hv.
  destruct (to_switch _ _ _ _ _) as [vs out]. split; [|done]. by eapply traffic_actor.
Qed.
Lemma batch_data_moves c seq data : rx_moves c (batch_data p rx_batch_cap rx_bypass_enabled switch_batch_enabled c seq data now).
Proof.
  unfold batch_data. destruct (if static_rx _ _ then _ else _) as [dd dup]. set (c1 := rc_set _ _ _ _ _).
  assert (H1 : rx_moves c c1) by (split; [apply traffic_rx|done]). case_match; [|done]. etrans; [exact H1|apply rc_flush_moves].
Qed.
Lemma plain_frame_moves c raw seq :
  rx_moves c (on_plain_frame p rx_batch_cap rx_bypass_enabled switch_batch_enabled c raw seq now).1.
Proof.
  unfold on_plain_frame. case_bool_decide; [by apply rx_moves_same|]. destruct (open_frame _ _ _) as [data|]; [|by apply rx_moves_same].
  destruct (negb _); [by apply rx_moves_same|]. destruct (rl_producer (rc_link c)) as [pr|].
  - destruct (cs_rx_actor _) as [a|] eqn:Ea; [|by apply rx_moves_same].
    destruct (producer_push _ _ _ _) as [[[a' pr'] ready] ok].
    assert (Hm : rx_moves c (rc_actor switch_batch_enabled (rc_count c (length raw)) a' pr' ready now)).
    { etrans; [|by eapply rc_actor_moves]. by apply rx_moves_same. }
    destruct ok; [done|]. etrans; [exact Hm|by apply rx_moves_same].
  - destruct (seq =? 0).
    + destruct (es_fec_dec _) as [d|] eqn:Ed; [|by apply rx_moves_same].
      destruct (on_control _ _ _) as [d' r] eqn:Ec.
      destruct r; cbn; split; cbn; try done; by eapply traffic_dec.
    + cbn. etrans; [|apply batch_data_moves]. by apply rx_moves_same.
Qed.
Lemma plain_loop_moves n : forall c rd c' rd',
  plain_loop p vec_grow rx_batch_cap rx_bypass_enabled switch_batch_enabled n c rd now = Some (c', rd') -> rx_moves c c'.
Proof.
  induction n as [|n IH]; intros c rd c' rd'; cbn [plain_loop]; [done|].
  destruct (read_frame vec_grow _ _) as [[sc rd1] r]. set (c1 := rc_set_link c _).
  assert (H1 : rx_moves c c1) by (by apply rx_moves_same).
  destruct r as [[[raw seq]|]|err]; [|by intros [= <- _]|intros [= <- _]; etrans; [exact H1|by apply rx_moves_same]].
  pose proof (plain_frame_moves c1 raw seq) as Hm. destruct (on_plain_frame _ _ _ _ _ _ _ _) as [c2 go].
  assert (H2 : rx_moves c c2) by (by etrans). destruct go; [|by intros [= <- _]].
  intros E%IH. by etrans.
Qed.
Lemma plain_finish_moves c : rx_moves c (plain_finish p rx_bypass_enabled switch_batch_enabled c now).
Proof.
  unfold plain_finish. destruct (rl_producer (rc_link c)) as [pr|].
  - destruct (cs_rx_actor (rc_session c)) as [a|] eqn:Ea; [|by apply rx_moves_same].
    destruct (producer_flush _ _ _) as [[[a' pr'] ready] ok]. destruct (take_error pr') as [pr2 err].
    pose proof (rc_actor_moves c a a' pr2 ready Ea) as Hm. case_match; [|done]. etrans; [exact Hm|by apply rx_moves_same].
  - case_match; [apply rc_flush_moves|done].
Qed.
Lemma process_plain_moves l s vs rd call rd' :
  process_plain_frames p vec_grow rx_batch_cap rx_bypass_enabled switch_batch_enabled l s vs rd now = Some (call, rd') ->
  traffic s (rc_session call) /\ switched now vs (rc_switch call).
Proof.
  unfold process_plain_frames. set (c := {| rc_link := l; rc_session := s |}). intros E. change (rx_moves c call).
  assert (Hloop : forall c0 n, rx_moves c c0 ->
    ('(c1, rd) ← plain_loop p vec_grow rx_batch_cap rx_bypass_enabled switch_batch_enabled n c0 rd now;
     Some (plain_finish p rx_bypass_enabled switch_batch_enabled c1 now, rd)) = Some (call, rd') -> rx_moves c call).
  { clear E. intros c0 n Hc0. destruct (plain_loop _ _ _ _ _ _ _ _ _) as [[c1 rd1]|] eqn:El; [|done]. cbn. intros [= <- _].
    etrans; [exact Hc0|]. etrans; [by eapply plain_loop_moves|apply plain_finish_moves]. }
  destruct (rl_producer l) as [pr|]; [|by eapply Hloop].
  destruct (take_error pr) as [pr' err]. case_bool_decide; [injection E as <- _; by apply rx_moves_same|].
  eapply Hloop; [|exact E]. by apply rx_moves_same.
Qed.
End Traffic.

Section Refine.
Context `{FrameChannel} `{CryptoPrims} `{HexCodec} `{UuidLib} `{BrutalSocketOps} `{Rustls}.
Context (v6 : family) (conf : ServerConf).
Context (p : cpu) (vec_grow : Z -> Z) (lazy_compact : bool) (queue_env : option nat).
Context (rx_batch_cap : nat) (rx_bypass_enabled switch_batch_enabled : bool).
Context (parse_request : list Z -> option HandshakeReq).

#[local] Existing Instance traffic_preorder.
#[local] Existing Instance switched_preorder.

(** ** Runs of the session operations *)

(** [st'] is reached from [st] by operations of which at most [k] can begin an epoch. *)
Definition reaches (k : Z) (st st' : server) : Prop := exists ops, epoch_ops ops <= k /\ server_run v6 conf st ops = st'.
Lemma reaches_refl st : reaches 0 st st.
Proof. by exists []. Qed.
Lemma reaches_trans k1 k2 a b c : reaches k1 a b -> reaches k2 b c -> reaches (k1 + k2) a c.
Proof.
  intros (o1 & Hk1 & <-) (o2 & Hk2 & <-). exists (o1 ++ o2). split; [rewrite epoch_ops_app; lia|].
  unfold server_run. by rewrite foldl_app.
Qed.
Lemma reaches_mono k1 k2 a b : k1 <= k2 -> reaches k1 a b -> reaches k2 a b.
Proof. intros Hk (ops & Ho & E). exists ops. split; [lia|done]. Qed.
Lemma reaches_trans' k a b c : reaches 0 a b -> reaches k b c -> reaches k a c.
Proof. apply reaches_trans. Qed.
Lemma reaches_step st st' op : server_step v6 conf st op = st' -> reaches (epoch_op op) st st'.
Proof. intros <-. exists [op]. split; [cbn; lia|done]. Qed.
Lemma reaches_closed k a b n now : reaches k a b -> reaches k a (close_conn b n now).
Proof. intros Hr. rewrite <-(Z.add_0_r k). eapply reaches_trans; [exact Hr|by apply (reaches_step _ _ (OClose n now))]. Qed.

(** Frames on the switch, with a frame too short to be looked at in front: it brings the
    switch's view of the registry up to date. *)
Lemma reaches_frames st vs now :
  switched now (live_switch (sr_core st)) vs -> reaches 0 st {| sr_core := sv_set_switch (sr_core st) vs; sr_conns := sr_conns st |}.
Proof.
  intros [l ->]. exists ((fun f : switch_frame => OFrame f.1.1 f.1.2 f.2 now) <$> (("", None, Shared []) :: l)).
  split; [by induction l|]. cbn. fold (live_switch (sr_core st)). fold (sv_set_switch (sr_core st) (live_switch (sr_core st))).
  generalize (eq_refl : vs_validate_mac (live_switch (sr_core st)) = Some (validate_src (sr_core st))).
  generalize (live_switch (sr_core st)). induction l as [|f l IH]; intros vs Hv; [done|]. cbn.
  change (validate_src _) with (validate_src (sr_core st)). rewrite validate_same by done. apply IH. by rewrite inner_validate.
Qed.
Lemma reaches_traffic st r s s' : sv_heap (sr_core st) !! r = Some s -> traffic s s' ->
  reaches 0 st {| sr_core := sv_put (sr_core st) r s'; sr_conns := sr_conns st |}.
Proof.
  intros Hs (rb & dd & a & d & ->). apply (reaches_step _ _ (OTraffic r (cs_port s) rb dd a d)). cbn. by rewrite Hs.
Qed.
Lemma reaches_data st r s s' vs now :
  sv_heap (sr_core st) !! r = Some s -> traffic s s' -> switched now (live_switch (sr_core st)) vs ->
  reaches 0 st {| sr_core := sv_put (sv_set_switch (sr_core st) vs) r s'; sr_conns := sr_conns st |}.
Proof.
  intros Hs Ht Hv. eapply reaches_trans'; [by apply (reaches_frames st vs now)|].
  by apply (reaches_traffic {| sr_core := sv_set_switch (sr_core st) vs; sr_conns := sr_conns st |} r s).
Qed.

(** ** Serving a connection *)

(** The server after connection [k] was served with result [s]. *)
Definition after_serve (st : server) (k : nat) (s : served) (now : Z) : server :=
  let st := {| sr_core := se_core s; sr_conns := <[k := wc_ms (se_conn s)]> (sr_conns st) |} in
  if se_close s then close_conn st k now else st.
(** A connection may still make a request until its handshake is done; [spent] counts the
    request that serving it has used up. *)
Definition pending (ms : MioSession) : Z := if ms_handshake_done ms then 0 else 1.
Definition spent (c : WorkerConn) (s : served) : Z :=
  pending (wc_ms c) - if se_close s then 0 else pending (wc_ms (se_conn s)).
Definition serves (core : ServerCore) (c : WorkerConn) (s : served) (now : Z) : Prop :=
  forall st k, sr_core st = core -> sr_conns st !! k = Some (wc_ms c) -> reaches (spent c s) st (after_serve st k s now).
Lemma pending_bound ms : 0 <= pending ms <= 1.
Proof. unfold pending. case_match; lia. Qed.
(** Enough to account for the server before a close. *)
Lemma serves_open core c s now k0 :
  0 <= k0 <= pending (wc_ms c) - pending (wc_ms (se_conn s)) ->
  (forall st k, sr_core st = core -> sr_conns st !! k = Some (wc_ms c) ->
     reaches k0 st {| sr_core := se_core s; sr_conns := <[k := wc_ms (se_conn s)]> (sr_conns st) |}) ->
  serves core c s now.
Proof.
  intros Hk0 Hr st k Hst Hk. specialize (Hr st k Hst Hk). pose proof (pending_bound (wc_ms (se_conn s))).
  apply (reaches_mono k0); [unfold spent; case_match; lia|]. unfold after_serve. case_match; [by apply reaches_closed|done].
Qed.
Lemma serves_same core c s now : se_core s = core -> wc_ms (se_conn s) = wc_ms c -> serves core c s now.
Proof.
  intros Hc Hm. apply (serves_open _ _ _ _ 0); [rewrite Hm; lia|]. intros st k Hst Hk.
  replace {| sr_core := _ |} with st; [apply reaches_refl|]. destruct st. cbn in *. by rewrite Hc, Hst, Hm, insert_id.
Qed.
(** Closing afterwards. *)
Lemma serves_close core c s now :
  se_close s = false -> serves core c s now ->
  serves core c {| se_core := se_core s; se_conn := se_conn s; se_out := se_out s; se_sent := se_sent s; se_close := true |} now.
Proof.
  intros Hcl Hs st k Hst Hk. specialize (Hs st k Hst Hk). unfold after_serve, spent in *. rewrite Hcl in Hs. cbn.
  apply reaches_closed. eapply reaches_mono; [|exact Hs]. pose proof (pending_bound (wc_ms (se_conn s))). lia.
Qed.
Lemma serves_trans core c s s' now :
  se_close s = false -> serves core c s now -> serves (se_core s) (se_conn s) s' now -> serves core c s' now.
Proof.
  intros Hcl H1' H2' st k Hst Hk. replace (spent c s') with (spent c s + spent (se_conn s) s') by (unfold spent; rewrite Hcl; lia).
  eapply reaches_trans; [by apply H1'|]. unfold after_serve at 1. rewrite Hcl.
  set (st1 := {| sr_core := se_core s |}). replace (after_serve st k s' now) with (after_serve st1 k s' now).
  - apply H2'; [done|apply lookup_insert_eq].
  - unfold after_serve. cbn. by rewrite insert_insert_eq.
Qed.
Lemma serves_more core c out s now : serves core c s now -> serves core c (served_more out s) now.
Proof. done. Qed.

Lemma serves_data core c r s call now :
  attached_session core c = Some (r, s) -> traffic s (rc_session call) -> switched now (live_switch core) (rc_switch call) ->
  serves core c (served_call core c r call) now.
Proof.
  intros Ha Ht Hv. apply (serves_open _ _ _ _ 0); [cbn; lia|]. intros st k Hst Hk. unfold attached_session in Ha.
  destruct (ms_client_session (wc_ms c)) as [r0|]; [|done]. cbn in Ha. destruct (sv_heap core !! r0) as [s0|] eqn:Hs; [|done].
  injection Ha as -> ->. rewrite <-Hst in Hs, Hv |- *. cbn. rewrite insert_id by done. by apply (reaches_data st r s _ _ now).
Qed.

Lemma serves_conn core c c' s now : wc_ms c' = wc_ms c -> serves core c' s now -> serves core c s now.
Proof. unfold serves, spent. by intros ->. Qed.

(** The request of a connection, if a frame carries one. *)
Lemma hs_loop_cases n hi now : forall core c rd core' c' rd' e,
  hs_loop v6 conf vec_grow parse_request n core c rd hi now = Some (core', c', rd', e) ->
  match e with
  | HsMore | HsScanError => core' = core /\ wc_ms c' = wc_ms c
  | _ => exists req ms o resp,
      handle_handshake v6 conf core (wc_ms c) req (hi_entropy hi) (hi_now_unix hi) now (hi_write_ok hi) = (core', ms, o, resp) /\
      (e = HsAccepted -> o = HOk /\ wc_ms c' = ms_done ms /\ wc_rx_producer c' = ms_rx_producer ms) /\
      (e = HsRefused -> o <> HOk /\ wc_ms c' = ms)
  end.
Proof.
  induction n as [|n IH]; intros core c rd core' c' rd' e; cbn [hs_loop]; [done|].
  destruct (read_frame vec_grow (wc_scanner c) rd) as [[sc rd1] [[[raw seq]|]|err]]; [|by intros [= <- <- _ <-]..].
  case_bool_decide; [intros E; by apply IH in E|].
  destruct (seq =? 0); [|intros E; by apply IH in E]. cbn [wc_ms wc_set_scanner].
  destruct (handle_handshake v6 conf core (wc_ms c) _ _ _ _ _) as [[[core1 ms] o] resp] eqn:E.
  destruct o; intros [= <- <- _ <-]; eexists _, _, _, _; (split; [exact E|]); by split.
Qed.

Abbreviation frames := (plain_frames v6 conf p vec_grow rx_batch_cap rx_bypass_enabled switch_batch_enabled parse_request).
Lemma serves_frames core c tr hi now s : frames core c tr hi now = Some s -> serves core c s now.
Proof.
  unfold plain_frames. destruct (ms_handshake_done (wc_ms c)) eqn:Hd.
  - destruct (attached_session core c) as [[r se]|] eqn:Ha; [|done]. cbn [mbind option_bind].
    destruct (process_plain_frames _ _ _ _ _ _ _ _ _ _) as [[call rd]|] eqn:E; [|done]. intros [= <-].
    apply process_plain_moves in E as [Ht Hv]. by eapply serves_data.
  - destruct (hs_loop _ _ _ _ _ _ _ _ _ _) as [[[[core1 c1] rd1] e]|] eqn:E; [|done]. apply hs_loop_cases in E. cbn [mbind option_bind].
    destruct e; [destruct E; intros [= <-]; by apply serves_same| | |].
    3: { destruct E, (fallback_drain _ _); [|done]. intros [= <-]. by apply serves_same. }
    + destruct E as (req & ms & o & resp & Eh & Hok & _). destruct (Hok eq_refl) as (-> & Hms & _).
      destruct (attached_session core1 c1) as [[r se]|] eqn:Ha; [|done]. cbn [mbind option_bind].
      destruct (plain_loop _ _ _ _ _ _ _ _ _) as [[call rd]|] eqn:El; [|done]. intros [= <-].
      apply plain_loop_moves in El as [Ht Hv]. pose proof (plain_finish_moves p rx_bypass_enabled switch_batch_enabled now call) as [Ht' Hv'].
      pose proof (transitivity Ht Ht'). pose proof (transitivity Hv Hv').
      eapply (serves_trans _ _ (served_idle core1 c1 false)); [done| |by eapply serves_data].
      apply (serves_open _ _ _ _ 1); [cbn; unfold pending; rewrite Hms, Hd; cbn; lia|]. intros st k Hst Hk.
      apply (reaches_step st _ (OHandshake k req (hi_entropy hi) (hi_now_unix hi) now (hi_write_ok hi))).
      cbn. rewrite Hk, Hd, Hst, Eh. by rewrite Hms.
    + destruct E as (req & ms & o & resp & Eh & _ & Hno). destruct (Hno eq_refl) as (Ho & Hms). intros [= <-].
      intros st k Hst Hk. unfold spent, pending. rewrite Hd. cbn.
      apply (reaches_step st _ (OHandshake k req (hi_entropy hi) (hi_now_unix hi) now (hi_write_ok hi))).
      cbn. rewrite Hk, Hd, Hst, Eh. unfold after_serve. cbn. rewrite Hms. by destruct o.
Qed.
Lemma serves_read ts hi now : forall core c s,
  socket_read v6 conf p vec_grow rx_batch_cap rx_bypass_enabled switch_batch_enabled parse_request core c ts hi now = Some s ->
  serves core c s now.
Proof.
  induction ts as [|[| | | |tr] ts IH]; intros core c s E; cbn [socket_read] in E; try (injection E as <-; by apply serves_same).
  set (c0 := wc_set_scanner c (wc_scanner c) now) in *.
  assert (Hms : wc_ms (sniff_inner c0 tr).1 = wc_ms c) by (unfold sniff_inner; by repeat case_match).
  destruct (sniff_inner c0 tr) as [c1 [page|]]; [injection E as <-; by apply serves_same|]. cbn in Hms.
  destruct (frames core c1 tr hi now) as [s1|] eqn:E1; [|done]. cbn [mbind option_bind] in E. apply serves_frames in E1.
  assert (H1' : serves core c s1 now) by (by eapply serves_conn).
  destruct (se_close s1) eqn:Hcl; cbn [orb] in E.
  - injection E as <-. by destruct s1; cbn in *; subst.
  - destruct (tr_drain tr); [injection E as <-; by apply serves_close|].
    destruct (socket_read _ _ _ _ _ _ _ _ _ _ _ _ _) as [s2|] eqn:E2; [|done]. injection E as <-.
    apply IH in E2. apply serves_more. by eapply serves_trans.
Qed.
Lemma serves_readable core c ev now s :
  on_readable v6 conf p vec_grow rx_batch_cap rx_bypass_enabled switch_batch_enabled parse_request core c ev now = Some s -> serves core c s now.
Proof.
  unfold on_readable. assert (Hms : wc_ms (sniff_outer c (rv_peek ev)).1 = wc_ms c) by (unfold sniff_outer; by repeat case_match).
  destruct (sniff_outer c (rv_peek ev)) as [c1 []]; [intros [= <-]; by apply serves_same|]. cbn in Hms.
  destruct (socket_read _ _ _ _ _ _ _ _ _ _ _ _ _) as [s1|] eqn:E; [|done]. cbn [mbind option_bind]. intros [= <-].
  apply serves_read in E. assert (H1' : serves core c s1 now) by (by eapply serves_conn).
  destruct (se_close s1) eqn:Hcl; cbn; [by destruct s1; cbn in *; subst|].
  destruct (rv_drain ev); [by apply serves_close|]. by destruct s1; cbn in *; subst.
Qed.

(** ** A worker among others *)

(** [key] places the tokens of this worker in the table of all connections, [others] are
    the connections of the other workers. *)
Section Placed.
Context (key : nat -> nat) `{!Inj (=) (=) key} (others : gmap nat MioSession).
Hypothesis others_apart : forall t, others !! key t = None.

Definition placed (conns : gmap nat WorkerConn) : gmap nat MioSession := kmap key (wc_ms <$> conns) ∪ others.
Definition view (w : worker) : server := {| sr_core := wk_core w; sr_conns := placed (wk_conns w) |}.
Lemma placed_lookup conns t : placed conns !! key t = wc_ms <$> conns !! t.
Proof.
  unfold placed. rewrite lookup_union_l by apply others_apart. by rewrite (lookup_kmap key), lookup_fmap.
Qed.
Lemma placed_insert conns t c : placed (<[t := c]> conns) = <[key t := wc_ms c]> (placed conns).
Proof. unfold placed. by rewrite fmap_insert, (kmap_insert key), insert_union_l. Qed.
Lemma placed_delete conns t : placed (delete t conns) = delete (key t) (placed conns).
Proof. unfold placed. by rewrite fmap_delete, (kmap_delete key), delete_union, (delete_id others). Qed.

(** ** The steps of a worker *)

Abbreviation admits := (admit_conn lazy_compact queue_env).
Abbreviation event := (on_event v6 conf p vec_grow rx_batch_cap rx_bypass_enabled switch_batch_enabled parse_request).
Inductive worker_step : worker -> worker -> Prop :=
| WkAdmit w a now : worker_step w (admits w a now)
| WkReap w now : worker_step w (wk_set_core w (reap (wk_core w) now))
| WkScan w t ans now : worker_step w (scan_one w t ans now)
| WkDirty w t close : worker_step w (on_dirty w t close)
| WkEvent w t ev now w' out sent : event w t ev now = Some (w', out, sent) -> worker_step w w'
| WkFlush w r now : worker_step w (wk_set_core w (flush_overdue (wk_core w) r now).1)
| WkTake w : worker_step w (take_closed w).1
| WkRemove w t now : worker_step w (remove_conn w t now).
#[local] Hint Constructors worker_step : core.
Lemma turns_are_steps ins w w' :
  serve_turns v6 conf p vec_grow lazy_compact queue_env rx_batch_cap rx_bypass_enabled switch_batch_enabled parse_request w ins = Some w' ->
  rtc worker_step w w'.
Proof. apply turns_steps; try apply _; intros; eauto using rtc_once. Qed.

Lemma admit_refines w a now : table_inv w -> reaches 1 (view w) (view (admits w a now)).
Proof.
  intros [_ _ _ Ho _ _]. apply (reaches_mono 0); [lia|]. unfold admit_conn. case_match; [apply reaches_refl|].
  destruct (ac_registered a); [|apply reaches_refl]. set (t := wk_unique_token w).
  assert (Hk : wk_conns w !! t = None).
  { destruct (wk_conns w !! t) as [c|] eqn:Et; [|done]. apply Ho in Et. unfold t in Et. lia. }
  set (c := new_conn lazy_compact queue_env a t now). apply (reaches_step _ _ (OConnect (key t) (wc_ms c))).
  cbn. rewrite decide_True by (by rewrite placed_lookup, Hk). unfold view. cbn. by rewrite placed_insert.
Qed.
Lemma remove_refines w t now : reaches 0 (view w) (view (remove_conn w t now)).
Proof.
  apply (reaches_step _ _ (OClose (key t) now)).
  cbn. unfold close_conn, remove_conn. cbn. rewrite placed_lookup. destruct (wk_conns w !! t) as [c|]; [|done].
  cbn. unfold view. cbn. by rewrite placed_delete.
Qed.
Lemma scan_refines w t ans now : reaches 1 (view w) (view (scan_one w t ans now)).
Proof.
  assert (Hsame : forall w', view w' = view w -> reaches 1 (view w) (view w')).
  { intros w' ->. apply (reaches_mono 0); [lia|apply reaches_refl]. }
  unfold scan_one. destruct (wk_conns w !! t) as [c|] eqn:Ht; [|by apply Hsame]. unfold scan_close.
  destruct (15 <? _); [by apply Hsame|]. destruct (negb _); [by apply Hsame|].
  destruct (sweep_conn _ _ _) as [core swept] eqn:E.
  apply (reaches_step _ _ (OSweep (key t) (sa_fresh_id ans))). cbn. rewrite placed_lookup, Ht. cbn. by rewrite E.
Qed.
Lemma event_refines w t ev now w' out sent : event w t ev now = Some (w', out, sent) -> reaches 1 (view w) (view w').
Proof.
  unfold on_event. destruct (wk_conns w !! t) as [c|] eqn:Ht; [|intros [= <- _ _]; apply (reaches_mono 0); [lia|apply reaches_refl]].
  destruct (on_readable _ _ _ _ _ _ _ _ _ _ _ _) as [s|] eqn:E; [|done]. cbn [mbind option_bind]. intros [= <- _ _].
  apply serves_readable in E. specialize (E (view w) (key t) eq_refl). cbn in E. rewrite placed_lookup, Ht in E. specialize (E eq_refl).
  pose proof (pending_bound (wc_ms c)). pose proof (pending_bound (wc_ms (se_conn s))).
  apply (reaches_mono (spent c s)); [unfold spent; case_match; lia|].
  refine (eq_ind _ (reaches _ _) E _ _). unfold after_serve. cbn. rewrite <-placed_insert.
  destruct (se_close s); [|done]. unfold close_conn, remove_conn. cbn. rewrite placed_lookup, lookup_insert_eq. cbn.
  unfold view. cbn. by rewrite placed_delete.
Qed.
Lemma flush_refines w r now : reaches 0 (view w) (view (wk_set_core w (flush_overdue (wk_core w) r now).1)).
Proof.
  unfold flush_overdue. destruct (sv_heap (wk_core w) !! r) as [s|] eqn:Hs; [|by apply reaches_refl].
  destruct (flush_timeout_into _ _) as [rb ready]. pose proof (process_all_switched (cs_set_reorder s rb) (live_switch (wk_core w)) ready now) as Hv.
  destruct (process_all _ _ _ _) as [vs out]. apply (reaches_data (view w) r s _ vs now Hs); [apply traffic_rx|exact Hv].
Qed.
Lemma step_refines w w' : worker_step w w' -> table_inv w -> table_inv w' /\ reaches 1 (view w) (view w').
Proof.
  intros Hs Hw.
  assert (H01 : forall st st', reaches 0 st st' -> reaches 1 st st') by (intros ? ?; by apply reaches_mono).
  destruct Hs as [w a now|w now|w t ans now|w t close|w t ev now w' out sent E|w r now|w|w t now].
  - split; [by apply admit_table|by apply admit_refines].
  - split; [by apply (same_table w)|]. by apply H01, (reaches_step _ _ (OReap now)).
  - split; [by apply (scan_table w)|apply scan_refines].
  - split; [by apply (dirty_table w)|]. apply H01. unfold on_dirty. case_match; apply reaches_refl.
  - split; [by eapply event_table|by eapply event_refines].
  - split; [by apply (same_table w)|]. apply H01, flush_refines.
  - split; [by apply (same_table w)|]. apply H01, reaches_refl.
  - split; [by apply remove_table|]. apply H01, remove_refines.
Qed.
End Placed.

(** ** All workers *)

(** The workers share the core; their connections are told apart by worker and token. *)
Record pool := { pl_core : ServerCore; pl_workers : gmap nat worker }.
Definition pool_key (i t : nat) : nat := encode_nat (i, t).
Definition conns_of (i : nat) (w : worker) : gmap nat MioSession := kmap (pool_key i) (wc_ms <$> wk_conns w).
Definition pool_conns (ws : gmap nat worker) : gmap nat MioSession := map_fold (fun i w acc => conns_of i w ∪ acc) ∅ ws.
Definition pool_view (pl : pool) : server := {| sr_core := pl_core pl; sr_conns := pool_conns (pl_workers pl) |}.
Definition pool_new (core : ServerCore) (n : nat) : pool :=
  {| pl_core := core; pl_workers := gset_to_gmap (worker_new core) (set_seq 0 n) |}.

(** A step of a worker, an operator's action, or traffic from the device and from the
    receive actors. *)
Definition outside (op : server_op) : Prop :=
  match op with OControl _ _ | OTraffic _ _ _ _ _ _ | OFrame _ _ _ _ => True | _ => False end.
Inductive pool_step : pool -> pool -> Prop :=
| PlWorker pl i w w' :
    pl_workers pl !! i = Some w -> worker_step (wk_set_core w (pl_core pl)) w' ->
    pool_step pl {| pl_core := wk_core w'; pl_workers := <[i := w']> (pl_workers pl) |}
| PlOutside pl op :
    outside op -> pool_step pl {| pl_core := sr_core (server_step v6 conf (pool_view pl) op); pl_workers := pl_workers pl |}.

#[local] Instance pool_key_inj i : Inj (=) (=) (pool_key i).
Proof. intros a b E. by apply (inj encode_nat) in E as [= ->]. Qed.
Lemma conns_of_apart i j w t : i <> j -> conns_of i w !! pool_key j t = None.
Proof.
  intros Hij. apply lookup_kmap_None; [apply _|]. intros u E. apply (inj encode_nat) in E. by injection E as -> _.
Qed.
Lemma conns_of_disjoint i j v w : i <> j -> conns_of i v ##ₘ conns_of j w.
Proof.
  intros Hij. apply map_disjoint_spec. intros k x y Hx (u & -> & _)%lookup_kmap_Some; [|apply _].
  by rewrite conns_of_apart in Hx.
Qed.
Lemma pool_conns_insert ws i w : ws !! i = None -> pool_conns (<[i := w]> ws) = conns_of i w ∪ pool_conns ws.
Proof.
  intros Hi. unfold pool_conns. rewrite map_fold_insert_L; [done| |done]. intros j1 j2 z1 z2 y Hj _ _.
  rewrite !map_union_assoc. f_equal. apply map_union_comm. by apply conns_of_disjoint.
Qed.
Lemma pool_conns_apart ws i t : ws !! i = None -> pool_conns ws !! pool_key i t = None.
Proof.
  induction ws as [|j w ws Hj IH] using map_ind; [done|]. intros [Hi Hne]%lookup_insert_None.
  rewrite pool_conns_insert by done. apply lookup_union_None. split; [by apply conns_of_apart|by apply IH].
Qed.
Lemma pool_conns_at ws i w : ws !! i = Some w -> pool_conns ws = placed (pool_key i) (pool_conns (delete i ws)) (wk_conns w).
Proof.
  intros Hi. rewrite <-(insert_delete_id ws i w Hi) at 1. apply pool_conns_insert, lookup_delete_eq.
Qed.
Lemma pool_new_conns core n : pool_conns (pl_workers (pool_new core n)) = ∅.
Proof.
  cbn. generalize (set_seq (C := gset nat) 0 n). intros X.
  assert (Hall : forall i w, gset_to_gmap (worker_new core) X !! i = Some w -> conns_of i w = ∅).
  { intros i w [_ <-]%lookup_gset_to_gmap_Some. unfold conns_of. cbn [worker_new wk_conns]. by rewrite fmap_empty, kmap_empty. }
  revert Hall. generalize (gset_to_gmap (worker_new core) X). intros ws. induction ws as [|i w ws Hi IH] using map_ind; [done|].
  intros Hall. rewrite pool_conns_insert by done. rewrite (Hall i w) by apply lookup_insert_eq.
  rewrite IH; [apply map_union_empty|]. intros j u Hj. apply Hall. rewrite lookup_insert_ne; congruence.
Qed.

Definition pool_tables (pl : pool) : Prop := forall i w, pl_workers pl !! i = Some w -> table_inv w.
Lemma pool_new_tables core n : pool_tables (pool_new core n).
Proof. intros i w. cbn. intros [_ <-]%lookup_gset_to_gmap_Some. apply worker_new_table. Qed.
Lemma pool_step_refines pl pl' : pool_step pl pl' -> pool_tables pl -> pool_tables pl' /\ reaches 1 (pool_view pl) (pool_view pl').
Proof.
  intros Hs Hi. destruct Hs as [pl i w w' Hw Hs|pl op Ho].
  - destruct (step_refines (pool_key i) (pool_conns (delete i (pl_workers pl)))
      (fun t => pool_conns_apart _ i t (lookup_delete_eq _ _)) _ _ Hs) as [Hw' Hr].
    { by apply (same_table w); [..|eapply Hi]. }
    split.
    + intros j u. cbn. destruct (decide (j = i)) as [->|]; [rewrite lookup_insert_eq; by intros [= <-]|].
      rewrite lookup_insert_ne by done. apply Hi.
    + unfold pool_view, view in *. cbn in *. rewrite (pool_conns_at _ i w Hw).
      rewrite (pool_conns_at (<[i := w']> (pl_workers pl)) i w') by apply lookup_insert_eq.
      by rewrite delete_insert_eq.
  - split; [exact Hi|]. apply (reaches_mono (epoch_op op)); [apply epoch_op_bound|]. apply reaches_step.
    destruct op; cbn in Ho; try done. cbn. destruct (sv_heap _ !! _); [done|by destruct pl].
Qed.
Lemma pool_steps_refine n pl pl' : nsteps pool_step n pl pl' -> pool_tables pl ->
  pool_tables pl' /\ reaches (Z.of_nat n) (pool_view pl) (pool_view pl').
Proof.
  induction 1 as [pl|n pl1 pl2 pl3 Hs _ IH]; intros Hi; [split; [done|apply reaches_refl]|].
  destruct (pool_step_refines _ _ Hs Hi) as [Hi2 H1']. destruct (IH Hi2) as [Hi3 H2']. split; [done|].
  replace (Z.of_nat (S n)) with (1 + Z.of_nat n) by lia. by eapply reaches_trans.
Qed.
Lemma pool_new_view v4cidr v6cidr n : pool_view (pool_new (ServerCore_new v6 v4cidr v6cidr) n) = server_new v6 v4cidr v6cidr.
Proof. unfold pool_view. by rewrite pool_new_conns. Qed.

(** C17: The workers implement the state machine of the sessions: whatever the interleaving of
    the steps of any number of workers, operator actions and other traffic, the sessions,
    addresses, switch and connections are in a state that some sequence of session
    operations reaches, and each step begins at most one key epoch. *)
Theorem workers_run_sessions v4cidr v6cidr n k pl :
  nsteps pool_step k (pool_new (ServerCore_new v6 v4cidr v6cidr) n) pl ->
  exists ops, server_run v6 conf (server_new v6 v4cidr v6cidr) ops = pool_view pl /\ epoch_ops ops <= Z.of_nat k.
Proof.
  intros Hs. destruct (pool_steps_refine _ _ _ Hs (pool_new_tables _ _)) as (_ & ops & Hk & E).
  exists ops. by rewrite <-(pool_new_view _ _ n).
Qed.

(** The connection counter of a session is the number of connections it has open over all
    workers in its current epoch, and at most sixteen, in every state the workers reach. *)
Theorem workers_count_connections v4cidr v6cidr n k pl id r s :
  nsteps pool_step k (pool_new (ServerCore_new v6 v4cidr v6cidr) n) pl -> Z.of_nat k + 1 < U64_MAX ->
  sv_sessions (pl_core pl) !! id = Some r -> sv_heap (pl_core pl) !! r = Some s ->
  st_client_id (cs_stat s) = id /\ 0 <= st_active_conns (cs_stat s) <= 16 /\
  st_active_conns (cs_stat s) = live_conns (pool_conns (pl_workers pl)) r (es_epoch (cs_epoch_state s)).
Proof.
  intros Hs Hk Hid Hr. destruct (pool_steps_refine _ _ _ Hs (pool_new_tables _ _)) as (_ & ops & Hops & E).
  rewrite pool_new_view in E.
  destruct (server_run_epochs v6 conf ops 0 _ ltac:(lia) ltac:(lia) (server_new_ok v6 v4cidr v6cidr)) as [Hok _].
  rewrite E in Hok. cbn in Hok. destruct (to_table _ _ _ _ _ Hok id r Hid) as (s0 & Hs0 & Hc0).
  destruct (to_count _ _ _ _ _ Hok r s Hr) as (Hc & H16 & _). simplify_eq.
  pose proof (live_nonneg (pool_conns (pl_workers pl)) r (es_epoch (cs_epoch_state s))). split; [done|]. split; [lia|done].
Qed.

End Refine.

(** ** A concrete pool *)

Definition demo_core : ServerCore := ServerCore_new raw_v6 demo_v4cidr [].
Definition demo_pool : pool := pool_new demo_core 2.
Definition demo_admitted : worker := admit_conn false None (worker_new demo_core) demo_accept 10.
Definition demo_event (w : worker) : option (worker * list delivery * list fallback) :=
  on_event raw_v6 demo_conf OtherCpu (fun c => c + 16384) 8 true true demo_parse w 2
    (demo_read 22 [demo_chunk demo_tls [wire_frame 0 [7] [0; 0]] []]) 20.
Definition demo_pool_step : pool -> pool -> Prop :=
  pool_step raw_v6 demo_conf OtherCpu (fun c => c + 16384) false None 8 true true demo_parse.
Lemma demo_pool_steps w out sent : demo_event demo_admitted = Some (w, out, sent) ->
  nsteps demo_pool_step 2 demo_pool {| pl_core := wk_core w; pl_workers := <[1%nat := w]> (<[1%nat := demo_admitted]> (pl_workers demo_pool)) |}.
Proof.
  intros E. set (pl1 := {| pl_core := wk_core demo_admitted; pl_workers := <[1%nat := demo_admitted]> (pl_workers demo_pool) |}).
  assert (S1 : demo_pool_step demo_pool pl1).
  { apply (PlWorker raw_v6 demo_conf OtherCpu (fun c => c + 16384) false None 8 true true demo_parse demo_pool 1 (worker_new demo_core)); [reflexivity|]. apply WkAdmit. }
  assert (S2 : demo_pool_step pl1 {| pl_core := wk_core w; pl_workers := <[1%nat := w]> (pl_workers pl1) |}).
  { apply (PlWorker raw_v6 demo_conf OtherCpu (fun c => c + 16384) false None 8 true true demo_parse pl1 1 demo_admitted); [apply lookup_insert_eq|]. eapply WkEvent. exact E. }
  eapply nsteps_l; [exact S1|]. eapply nsteps_l; [exact S2|apply nsteps_O].
Qed.
Lemma demo_event_session : exists w out sent r s, demo_event demo_admitted = Some (w, out, sent) /\
  sv_sessions (wk_core w) !! demo_client = Some r /\ sv_heap (wk_core w) !! r = Some s /\ st_active_conns (cs_stat s) = 1.
Proof.
  assert (Hs : (fun x : worker * list delivery * list fallback => let w := x.1.1 in
      r ← sv_sessions (wk_core w) !! demo_client; s ← sv_heap (wk_core w) !! r; Some (st_active_conns (cs_stat s))) <$> demo_event demo_admitted
    = Some (Some 1)) by (vm_compute; reflexivity).
  apply fmap_Some in Hs as ([[w out] sent] & E & Hs). symmetry in Hs. cbn [fst] in Hs.
  apply bind_Some in Hs as (r & Hid & Hs). apply bind_Some in Hs as (s & Hr & Hs). injection Hs as Hs.
  exists w, out, sent, r, s. split; [exact E|]. split; [exact Hid|]. split; [exact Hr|exact Hs].
Qed.
Lemma workers_run_sessions_witness : exists w ops, (exists out sent, demo_event demo_admitted = Some (w, out, sent)) /\
  sr_core (server_run raw_v6 demo_conf (server_new raw_v6 demo_v4cidr []) ops) = wk_core w /\ epoch_ops ops <= 2.
Proof.
  destruct demo_event_session as (w & out & sent & r & s & E & _).
  destruct (workers_run_sessions raw_v6 demo_conf OtherCpu (fun c => c + 16384) false None 8 true true demo_parse demo_v4cidr [] 2 2 _ (demo_pool_steps w out sent E)) as (ops & Hops & Hk).
  exists w, ops. split; [by exists out, sent|]. rewrite Hops. split; [reflexivity|exact Hk].
Defined.
Lemma workers_count_connections_witness : exists w r s, sv_heap (wk_core w) !! r = Some s /\ st_active_conns (cs_stat s) = 1 /\
  live_conns (pool_conns (<[1%nat := w]> (<[1%nat := demo_admitted]> (pl_workers demo_pool)))) r (es_epoch (cs_epoch_state s)) = 1.
Proof.
  destruct demo_event_session as (w & out & sent & r & s & E & Hid & Hr & Ha). exists w, r, s. split; [done|]. split; [done|].
  destruct (workers_count_connections raw_v6 demo_conf OtherCpu (fun c => c + 16384) false None 8 true true demo_parse demo_v4cidr [] 2 2 _ demo_client r s (demo_pool_steps w out sent E)) as (_ & _ & Hc);
    [reflexivity|exact Hid|exact Hr|]. cbn [pl_workers] in Hc. rewrite <-Hc. exact Ha.
Defined.
