(* ===== verification/WorkerGuard.v ===== *)
(** * Strangers, idle peers and the end of serving

    A peer that does not speak the protocol gets the 403 answer, reaches nothing and is
    dropped; serving a connection ends, unless the answer to a stranger meets a socket
    that fails; a silent connection is dropped. *)
From stdpp Require Import pretty sorting.
From S2P Require Import Prelude Protocol Utils Crypto Frame Xor Fec Buffer Reorder RxActor Adaptive Queue Port PortSpec VSwitch Pool Brutal PeerInfo Session SessionSpec SessionGuard Writer WriterSpec WriterRun Reader ReaderSpec Worker WorkerSpec WorkerRefine.

(** ** The scanner on a foreign stream *)

(** A stream that starts with a byte no length of the protocol starts with. *)
Definition foreign_start (l : list Z) : Prop := match l with b :: _ => 32 <= b | [] => True end.
Lemma foreign_length a b c d : 32 <= a -> is_byte b -> is_byte c -> is_byte d -> MAX_DATA_LENGTH < be_decode [a; b; c; d].
Proof. unfold is_byte, MAX_DATA_LENGTH. cbn. lia. Qed.
Lemma foreign_prefix l1 l2 : foreign_start (l1 ++ l2) -> foreign_start l1.
Proof. by destruct l1. Qed.

Lemma take_foreign st :
  fs_max_data_len st <= MAX_DATA_LENGTH -> bytes_ok (avail st) -> foreign_start (avail st) ->
  take_buffered_frame st =
  if (length (avail st) <? HEADER_SIZE)%nat then (st, Ok None) else (fs_set st [] 0, Err InvalidData).
Proof.
  intros Hm Hb Hf. unfold take_buffered_frame. rewrite <-length_avail. destruct (Nat.ltb_spec (length (avail st)) HEADER_SIZE) as [|Hl]; [done|].
  rewrite <-(Nat.add_0_r (fs_offset st)) at 1. rewrite slice_shift. fold (avail st).
  destruct (avail st) as [|a [|b [|c [|d rest]]]]; cbn in Hl; unfold HEADER_SIZE in Hl; try lia.
  do 4 (apply Forall_cons in Hb as [? Hb]). cbn in Hf. change (slice 0 4 _) with [a; b; c; d].
  assert (MAX_DATA_LENGTH < be_decode [a; b; c; d]) by (by apply foreign_length). by destruct (Z.ltb_spec (fs_max_data_len st) (be_decode [a; b; c; d])); [|lia].
Qed.

Definition data_event (e : read_event) : Prop := match e with RData c => c <> [] | _ => False end.
Lemma data_live e : data_event e -> event_live e.
Proof. by destruct e. Qed.
Lemma read_data rd space : Forall data_event rd -> 0 < space ->
  rd = [] /\ reader_read rd space = ([], ReadBlock) \/
  exists rd' bs, reader_read rd space = (rd', ReadOk bs) /\ bs <> [] /\ zlen bs <= space /\ Forall data_event rd' /\
    bs ++ reader_bytes rd' = reader_bytes rd /\ (weight rd' < weight rd)%nat.
Proof.
  intros Hd Hsp. destruct rd as [|e rd]; [by left|]. right.
  destruct (reader_read_live (e :: rd) space (Forall_impl _ _ _ Hd data_live) Hsp) as [(rd' & E & _)|(rd' & bs & E & Hbs & Hl & _ & Hb & Hw)].
  { destruct e as [c| |]; cbn in E; [by case_match|by apply Forall_cons in Hd as [? _]..]. }
  exists rd', bs. split_and!; try done. apply Forall_cons in Hd as [Hc Hd]. destruct e as [c| |]; [|done..].
  cbn in E. case_match; simplify_eq; [done|]. constructor; [|done]. intros En. apply (f_equal length) in En. rewrite length_drop in En.
  cbn in En. lia.
Qed.
Section Foreign.
Context (vec_grow : Z -> Z) (grow_more : forall c, c < vec_grow c).
Lemma read_foreign fuel st rd :
  (weight rd < fuel)%nat -> fs_ok st -> Forall data_event rd -> fs_max_data_len st <= MAX_DATA_LENGTH ->
  bytes_ok (avail st ++ reader_bytes rd) -> foreign_start (avail st ++ reader_bytes rd) ->
  exists st' rd' r, read_loop vec_grow fuel st rd = (st', rd', r) /\
    match r with
    | Ok (Some _) => False
    | Ok None => fs_ok st' /\ fs_max_data_len st' = fs_max_data_len st /\ avail st' = avail st ++ reader_bytes rd /\
        (length (avail st') < HEADER_SIZE)%nat
    | Err e => e = InvalidData
    end.
Proof using grow_more.
  revert st rd. induction fuel as [|fuel IH]; intros st rd Hw Hok Hd Hm Hb Hf; [lia|]. cbn [read_loop].
  pose proof Hb as [Hb1 Hb2]%Forall_app. rewrite (take_foreign st Hm Hb1 (foreign_prefix _ _ Hf)).
  destruct (Nat.ltb_spec (length (avail st)) HEADER_SIZE) as [Hl|]; [|by eexists _, _, _].
  destruct (compact_ok st true Hok) as (Hok1 & Ha1 & Hm1). set (st1 := compact_consumed st true) in *.
  destruct (reserve_ok vec_grow grow_more st1 Hok1) as (Hok2 & Ha2 & Hc2 & Hm2). set (st2 := reserve_capacity vec_grow st1) in *.
  set (spare := Z.min _ _). assert (Hsp : 0 < spare) by (unfold spare; lia).
  destruct (read_data rd spare Hd Hsp) as [[-> E]|(rd' & bs & E & Hbs & Hl' & Hd' & Hbytes & Hw')]; rewrite E.
  - eexists _, _, _. split; [done|]. change (reader_bytes []) with (@nil Z). rewrite app_nil_r, Ha2, Ha1. split_and!; done || congruence.
  - destruct bs as [|b bs]; [done|]. set (st3 := fs_set st2 _ _).
    destruct (append_ok st2 (b :: bs) Hok2) as [Hok3 Ha3]; [unfold spare in Hl'; lia|]. fold st3 in Hok3, Ha3.
    assert (Htot : avail st3 ++ reader_bytes rd' = avail st ++ reader_bytes rd).
    { by rewrite Ha3, Ha2, Ha1, <-app_assoc, Hbytes. }
    destruct (IH st3 rd') as (st' & rd'' & r & Er & Hr); try done; try lia; [change (fs_max_data_len st3) with (fs_max_data_len st2); lia|by rewrite Htot..|].
    eexists _, _, _. split; [exact Er|]. destruct r as [[|]|]; [done| |done]. rewrite Htot in Hr.
    destruct Hr as (? & Hmm & ? & ?). split_and!; try done. rewrite Hmm. change (fs_max_data_len st3) with (fs_max_data_len st2). lia.
Qed.

(** What the scanner hands out is a stretch of the bytes it was given, and what it
    keeps is the end of them. *)
Definition infix (raw l : list Z) : Prop := exists l1 l2, l = l1 ++ raw ++ l2.
Lemma infix_suffix raw l l' : infix raw l -> l `suffix_of` l' -> infix raw l'.
Proof. intros (l1 & l2 & ->) [l0 ->]. exists (l0 ++ l1), l2. by rewrite <-app_assoc. Qed.
Lemma infix_app raw l l' : infix raw l -> infix raw (l ++ l').
Proof. intros (l1 & l2 & ->). exists l1, (l2 ++ l'). by rewrite <-!app_assoc. Qed.

Lemma take_infix st st' raw seq :
  fs_ok st -> take_buffered_frame st = (st', Ok (Some (raw, seq))) ->
  fs_ok st' /\ avail st' `suffix_of` avail st /\ infix raw (avail st).
Proof.
  intros Hok. pose proof Hok as [Ho Hc]. unfold take_buffered_frame. cbv zeta.
  destruct (Nat.ltb_spec (length (fs_buffer st) - fs_offset st) HEADER_SIZE) as [|Hlen]; [done|].
  destruct (_ <? be_decode _); [done|]. set (total := be_decode _ + be_decode _). destruct (Z.ltb_spec (Z.of_nat (length (fs_buffer st) - fs_offset st)) (Z.of_nat HEADER_SIZE + total)) as [|Hle]; [done|].
  set (st1 := fs_set st _ _).
  assert (Hok1 : fs_ok st1) by (split; [cbn; lia|done]).
  destruct (compact_ok st1 false Hok1) as (Hok2 & Ha2 & _). intros [= <- Hraw]. split; [done|]. split.
  - rewrite Ha2. unfold st1, avail. cbn [fs_set fs_buffer fs_offset]. rewrite <-Nat.add_assoc, <-drop_drop.
    exists (take (HEADER_SIZE + Z.to_nat total) (drop (fs_offset st) (fs_buffer st))). by rewrite take_drop.
  - destruct (_ =? 0); injection Hraw as <- _; [exists (avail st), []; by rewrite app_nil_r|].
    set (n := Z.to_nat _). exists (take HEADER_SIZE (avail st)), (drop n (drop HEADER_SIZE (avail st))).
    replace (slice _ _ _) with (take n (drop HEADER_SIZE (avail st))); [by rewrite !take_drop|].
    unfold slice, avail. rewrite drop_drop. by replace (_ + n - _)%nat with n by lia.
Qed.
Lemma frame_payload_read fuel : forall st rd st' rd' r,
  (weight rd < fuel)%nat -> fs_ok st -> Forall data_event rd -> read_loop vec_grow fuel st rd = (st', rd', r) ->
  fs_ok st' /\ Forall data_event rd' /\ avail st' ++ reader_bytes rd' `suffix_of` avail st ++ reader_bytes rd /\
  match r with
  | Ok (Some (raw, _)) => infix raw (avail st ++ reader_bytes rd)
  | Ok None => rd' = []
  | Err _ => True
  end.
Proof using grow_more.
  induction fuel as [|fuel IH]; intros st rd st' rd' r Hw Hok Hd; [lia|]. cbn [read_loop].
  destruct (take_buffered_frame st) as [st1 [[[raw seq]|]|e]] eqn:Et.
  - intros [= <- <- <-]. destruct (take_infix _ _ _ _ Hok Et) as (Hok1 & [l Hl] & Hin). split_and!; [done|done| |by apply infix_app].
    exists l. by rewrite Hl, <-app_assoc.
  - assert (st1 = st) as -> by (revert Et; unfold take_buffered_frame; cbv zeta; repeat case_match; by intros [= <-]).
    destruct (compact_ok st true Hok) as (Hok1 & Ha1 & _). set (st1 := compact_consumed st true) in *.
    destruct (reserve_ok vec_grow grow_more st1 Hok1) as (Hok2 & Ha2 & Hc2 & _). set (st2 := reserve_capacity vec_grow st1) in *.
    set (spare := Z.min _ _). assert (Hsp : 0 < spare) by (unfold spare; lia).
    destruct (read_data rd spare Hd Hsp) as [[-> E]|(rd1 & bs & E & Hbs & Hl & Hd1 & Hb1 & Hw1)]; rewrite E.
    + intros [= <- <- <-]. split_and!; [done|done| |done]. rewrite Ha2, Ha1. done.
    + destruct bs as [|b bs]; [done|]. destruct (append_ok st2 (b :: bs) Hok2) as [Hok3 Ha3]; [unfold spare in Hl; lia|].
      intros Er. apply IH in Er as (? & ? & Hsuf & Hres); [|lia|done|done].
      assert (Htot : avail (fs_set st2 (fs_buffer st2 ++ b :: bs) (fs_offset st2)) ++ reader_bytes rd1 = avail st ++ reader_bytes rd).
      { by rewrite Ha3, Ha2, Ha1, <-app_assoc, Hb1. }
      rewrite Htot in Hsuf, Hres. done.
  - intros [= <- <- <-]. revert Et. unfold take_buffered_frame. cbv zeta. repeat case_match; try done. intros [= <- _].
    split_and!; [|done| |done].
    + destruct Hok as [_ Hc]. split; cbn; [lia|]. destruct (fs_buffer st); cbn in Hc; lia.
    + exists (avail st). done.
Qed.
End Foreign.

Section WorkerGuard.
Context `{FrameChannel} `{CryptoPrims} `{HexCodec} `{UuidLib} `{BrutalSocketOps} `{Rustls}.
Context (v6 : family) (conf : ServerConf).
Context (p : cpu) (vec_grow : Z -> Z) (lazy_compact : bool) (queue_env : option nat).
Context (rx_batch_cap : nat) (rx_bypass_enabled switch_batch_enabled : bool).
Context (parse_request : list Z -> option HandshakeReq).
Abbreviation requests := (hs_loop v6 conf vec_grow parse_request).
Abbreviation frames := (plain_frames v6 conf p vec_grow rx_batch_cap rx_bypass_enabled switch_batch_enabled parse_request).
Abbreviation read := (socket_read v6 conf p vec_grow rx_batch_cap rx_bypass_enabled switch_batch_enabled parse_request).
Abbreviation serve := (on_readable v6 conf p vec_grow rx_batch_cap rx_bypass_enabled switch_batch_enabled parse_request).

(** ** Serving ends *)

(** The socket takes the answer to a stranger. *)
Definition page_drains (tr : tls_turn) : Prop :=
  is_Some (fallback_drain (default (tr_tls tr) (writer_write_all (tr_tls tr) (serve_fallback_http (tr_h2 tr)))) (tr_sock tr)).
Definition turn_drains (t : read_turn) : Prop := match t with TPackets tr => page_drains tr | _ => True end.
(** A connection whose handshake is done belongs to a session. *)
Definition linked (core : ServerCore) (c : WorkerConn) : Prop :=
  ms_handshake_done (wc_ms c) = true -> is_Some (attached_session core c).

Lemma hs_loop_total n core c rd hi now : (unread (wc_scanner c) rd < n)%nat -> is_Some (requests n core c rd hi now).
Proof.
  revert core c rd. induction n as [|n IH]; intros core c rd Hu; [lia|]. cbn [hs_loop]. unfold read_frame.
  destruct (read_loop vec_grow _ _ _) as [[sc rd'] r] eqn:Er. destruct r as [[[raw seq]|]|e]; [|done|done].
  apply read_loop_unread in Er. case_bool_decide; [apply IH; cbn; lia|]. destruct (seq =? 0); [|apply IH; cbn; lia].
  by destruct (handle_handshake _ _ _ _ _ _ _ _ _) as [[[core1 ms] []] resp].
Qed.
Lemma accepted_attached c ms req en nu now wo c' ms' resp :
  handle_handshake v6 conf c ms req en nu now wo = (c', ms', HOk, resp) -> exists r s, ms_client_session ms' = Some r /\ sv_heap c' !! r = Some s.
Proof.
  intros E. destruct (handshake_cases _ _ _ _ _ _ _ _ _ _ _ _ _ E) as [_ [(_ & _ & Hno & _)|(rq & r & s' & _ & _ & _ & Hr & _ & Ha)]]; [done|].
  exists r. destruct Ha; cbn; rewrite lookup_insert_eq; by eexists.
Qed.

Lemma served_call_linked core c r call : ms_client_session (wc_ms c) = Some r -> linked (se_core (served_call core c r call)) (se_conn (served_call core c r call)).
Proof. intros Hr _. unfold attached_session. cbn. rewrite Hr. cbn. rewrite lookup_insert_eq. by eexists. Qed.
Lemma attached_ref core c r s : attached_session core c = Some (r, s) -> ms_client_session (wc_ms c) = Some r.
Proof.
  unfold attached_session. destruct (ms_client_session (wc_ms c)) as [r'|]; [|done]. cbn. destruct (sv_heap core !! r'); [|done].
  by intros [= -> _].
Qed.
Lemma frames_total core c tr hi now :
  linked core c -> page_drains tr -> exists s, frames core c tr hi now = Some s /\ (se_close s = false -> linked (se_core s) (se_conn s)).
Proof.
  intros Hl Hd. unfold plain_frames. set (rd := RData <$> tr_plain tr). destruct (ms_handshake_done (wc_ms c)) eqn:Hdone.
  - destruct (Hl Hdone) as [[r se] Ha]. rewrite Ha. cbn [mbind option_bind].
    assert (Hp : is_Some (process_plain_frames p vec_grow rx_batch_cap rx_bypass_enabled switch_batch_enabled (wc_link c) se (live_switch core) rd now)).
    { unfold process_plain_frames. set (c0 := {| rc_link := _ |}).
      assert (Hloop : forall c1, rl_scanner (rc_link c1) = wc_scanner c -> is_Some ('(c1, rd) ← plain_loop p vec_grow rx_batch_cap rx_bypass_enabled
        switch_batch_enabled (S (unread (rl_scanner (wc_link c)) rd)) c1 rd now; Some (plain_finish p rx_bypass_enabled switch_batch_enabled c1 now, rd))).
      { intros c1 Hs. destruct (plain_loop_total p vec_grow rx_bypass_enabled switch_batch_enabled rx_batch_cap
          (S (unread (rl_scanner (wc_link c)) rd)) c1 rd now) as [[c2 rd2] E]; [rewrite Hs; cbn; lia|]. rewrite E. by eexists. }
      destruct (rl_producer _) as [pr|]; [|by apply Hloop]. destruct (take_error pr) as [pr' err]. case_bool_decide; [by eexists|by apply Hloop]. }
    destruct Hp as [[call rd'] E]. rewrite E. cbn [mbind option_bind]. eexists. split; [done|]. intros _.
    apply served_call_linked. by eapply attached_ref.
  - destruct (hs_loop_total (S (unread (wc_scanner c) rd)) core c rd hi now) as [[[[core1 c1] rd1] e] E]; [lia|].
    rewrite E. cbn [mbind option_bind]. apply hs_loop_cases in E. destruct e.
    + destruct E as [-> Hms]. eexists. split; [done|]. intros _ Hd1. cbn in Hd1. congruence.
    + destruct E as (req & ms & o & resp & Eh & Hok & _). destruct (Hok eq_refl) as (-> & Hms & _).
      destruct (accepted_attached _ _ _ _ _ _ _ _ _ _ Eh) as (r & se & Hr & Hse).
      assert (Hr' : ms_client_session (wc_ms c1) = Some r) by (by rewrite Hms).
      assert (Ha : attached_session core1 c1 = Some (r, se)).
      { unfold attached_session. rewrite Hr'. cbn. by rewrite Hse. }
      rewrite Ha. cbn [mbind option_bind]. set (call := {| rc_link := _ |}).
      destruct (plain_loop_total p vec_grow rx_bypass_enabled switch_batch_enabled rx_batch_cap (S (unread (wc_scanner c1) rd1)) call rd1 now)
        as [[call' rd'] E']; [cbn; lia|]. rewrite E'. cbn [mbind option_bind]. eexists. split; [done|]. intros _. by apply served_call_linked.
    + eexists. by split.
    + destruct Hd as [t Ht]. rewrite Ht. eexists. by split.
Qed.
Lemma sniff_inner_ms c tr : wc_ms (sniff_inner c tr).1 = wc_ms c.
Proof. unfold sniff_inner. by repeat case_match. Qed.
Lemma sniff_outer_ms c peek : wc_ms (sniff_outer c peek).1 = wc_ms c.
Proof. unfold sniff_outer. by repeat case_match. Qed.
Lemma linked_ms core c c' : wc_ms c' = wc_ms c -> linked core c -> linked core c'.
Proof. unfold linked, attached_session. by intros ->. Qed.
Lemma read_total ts hi now : forall core c, linked core c -> Forall turn_drains ts -> is_Some (read core c ts hi now).
Proof.
  induction ts as [|[| | | |tr] ts IH]; intros core c Hl Hd; cbn [socket_read]; try by eexists.
  apply Forall_cons in Hd as [Ht Hd]. set (c0 := wc_set_scanner c (wc_scanner c) now).
  pose proof (sniff_inner_ms c0 tr) as Hms. destruct (sniff_inner c0 tr) as [c1 [page|]]; [by eexists|]. cbn in Hms.
  destruct (frames_total core c1 tr hi now (linked_ms core c c1 Hms Hl) Ht) as (s & Es & Hs). rewrite Es. cbn [mbind option_bind].
  destruct (se_close s); cbn [orb]; [by eexists|]. case_match; [by eexists|]. apply fmap_is_Some. by apply IH; [apply Hs|].
Qed.

(** C21: A readable connection is served to the end: whatever bytes the peer sent, in
    whatever chunks and with whatever errors, the loops over frames and over the socket
    end, provided that the socket takes the 403 answer where one is due. *)
Theorem readable_is_served core c ev now :
  linked core c -> Forall turn_drains (rv_turns ev) -> is_Some (serve core c ev now).
Proof.
  intros Hl Hd. unfold on_readable. pose proof (sniff_outer_ms c (rv_peek ev)) as Hms.
  destruct (sniff_outer c (rv_peek ev)) as [c1 []]; [by eexists|].
  destruct (read_total (rv_turns ev) (rv_hs ev) now core c1 (linked_ms core c c1 Hms Hl) Hd) as [s ->]. by eexists.
Qed.

(** ** Strangers *)

(** A connection without a handshake that has shown nothing of the protocol. *)
Record stranger (c : WorkerConn) : Prop := {
  sg_pending : ms_handshake_done (wc_ms c) = false;
  sg_unsniffed : wc_sniffed_inner c = false;
  sg_scanner : fs_ok (wc_scanner c);
  sg_limit : fs_max_data_len (wc_scanner c) <= MAX_DATA_LENGTH;
  sg_short : (length (avail (wc_scanner c)) < HEADER_SIZE)%nat }.
Definition plain_ok (tr : tls_turn) : Prop := Forall (fun chunk => chunk <> [] /\ bytes_ok chunk) (tr_plain tr).
Definition plaintext (trs : list tls_turn) : list Z := concat ((fun tr => concat (tr_plain tr)) <$> trs).

Lemma plain_bytes tr : reader_bytes (RData <$> tr_plain tr) = concat (tr_plain tr).
Proof. unfold reader_bytes. rewrite <-list_fmap_compose. f_equal. by rewrite <-(list_fmap_id (tr_plain tr)) at 2. Qed.
Lemma plain_ok_bytes tr : plain_ok tr -> bytes_ok (concat (tr_plain tr)).
Proof. unfold plain_ok. induction 1 as [|chunk l [_ Hc] _ IH]; [by constructor|]. cbn. by apply Forall_app. Qed.
Lemma plain_ok_data tr : plain_ok tr -> Forall data_event (RData <$> tr_plain tr).
Proof. intros Hp. apply Forall_fmap. eapply Forall_impl; [exact Hp|]. by intros chunk [? _]. Qed.

Context (grow_more : forall c, c < vec_grow c).
Lemma peek_avail st : peek_first_byte st = head (avail st).
Proof.
  unfold peek_first_byte, avail. rewrite head_lookup, lookup_drop, Nat.add_0_r.
  destruct (Nat.ltb_spec (fs_offset st) (length (fs_buffer st))); [done|]. symmetry. by apply lookup_ge_None.
Qed.
(** What one turn does to a stranger. *)
Lemma frames_foreign core c tr hi now (seen := avail (wc_scanner c) ++ concat (tr_plain tr)) :
  stranger c -> plain_ok tr -> bytes_ok (avail (wc_scanner c)) -> foreign_start seen -> page_drains tr ->
  exists s, frames core c tr hi now = Some s /\ se_core s = core /\ se_out s = [] /\ wc_ms (se_conn s) = wc_ms c /\
    ((se_close s = true /\ se_sent s = [ToTls (serve_fallback_http (tr_h2 tr))]) \/
     (se_close s = false /\ se_sent s = [] /\ stranger (se_conn s) /\ avail (wc_scanner (se_conn s)) = seen)).
Proof using grow_more.
  intros [Hdone Hun Hok Hlim Hshort] Hp Hb Hf [t Ht]. unfold plain_frames. rewrite Hdone. set (rd := RData <$> tr_plain tr).
  cbn [hs_loop]. unfold read_frame.
  destruct (read_foreign vec_grow grow_more (reader_fuel rd) (wc_scanner c) rd) as (sc & rd' & r & -> & Hr).
  { unfold reader_fuel. lia. }
  { done. } { by apply plain_ok_data. } { done. }
  { unfold rd. rewrite plain_bytes. apply Forall_app. split; [done|by apply plain_ok_bytes]. }
  { unfold rd. by rewrite plain_bytes. }
  destruct r as [[|]|e]; [done| |].
  - destruct Hr as (Hok' & Hmax & Hav & Hlen). unfold rd in Hav. rewrite plain_bytes in Hav. cbn [mbind option_bind].
    eexists. split; [done|]. split_and!; try done. right. split_and!; try done. split; cbn; try done. lia.
  - cbn [mbind option_bind]. rewrite Ht. eexists. split; [done|]. split_and!; try done. by left.
Qed.
Definition gets_page (s : served) : Prop := se_close s = true /\ exists is_h2, se_sent s = [ToTls (serve_fallback_http is_h2)].

(** C20: A TLS peer that does not speak the protocol, its first byte not one a frame can start
    with, whose socket takes the page when it is written ([page_drains]): it gets either
    nothing or the 403 page, never anything else, and the page closes its connection;
    when it has sent ten bytes, in whatever chunks, and no turn's write of pending output
    closed the connection before ([tr_drain]), it has got the page and is dropped.
    Sessions, addresses and the switch are untouched and no frame of it is delivered.
    Without the first proviso the worker does not leave the loop that writes the page
    ([reset_peer_holds_worker] below). *)
Theorem strangers_get_403 core c trs hi now :
  stranger c -> bytes_ok (avail (wc_scanner c)) -> Forall plain_ok trs -> Forall page_drains trs ->
  foreign_start (avail (wc_scanner c) ++ plaintext trs) ->
  exists s, read core c (TPackets <$> trs) hi now = Some s /\ se_core s = core /\ se_out s = [] /\ wc_ms (se_conn s) = wc_ms c /\
    (se_sent s = [] \/ gets_page s) /\
    ((HEADER_SIZE <= length (avail (wc_scanner c) ++ plaintext trs))%nat -> Forall (fun tr => tr_drain tr = false) trs -> gets_page s).
Proof using grow_more.
  revert c. induction trs as [|tr trs IH]; intros c Hc Hb Hp Hd Hf.
  { eexists. split; [done|]. split_and!; try done; [by left|]. unfold plaintext. cbn [fmap list_fmap concat]. rewrite app_nil_r. destruct Hc. cbn. lia. }
  apply Forall_cons in Hp as [Hp Hps]. apply Forall_cons in Hd as [Hd Hds]. cbn [fmap list_fmap socket_read].
  set (c0 := wc_set_scanner c (wc_scanner c) now). unfold sniff_inner. change (wc_sniffed_inner c0) with (wc_sniffed_inner c).
  rewrite (sg_unsniffed c Hc). change (wc_scanner c0) with (wc_scanner c). rewrite peek_avail.
  destruct (avail (wc_scanner c)) as [|b l] eqn:Hav; cbn [head].
  - assert (Hc0 : stranger c0) by (by destruct Hc; split).
    assert (Htot : [] ++ plaintext (tr :: trs) = concat (tr_plain tr) ++ plaintext trs) by done. rewrite Htot in Hf |- *.
    destruct (frames_foreign core c0 tr hi now) as (s & Es & Hcore & Hout & Hms & Hcase); try done;
      [by change (avail (wc_scanner c0)) with (avail (wc_scanner c)); rewrite Hav|
       change (avail (wc_scanner c0)) with (avail (wc_scanner c)); rewrite Hav; by eapply foreign_prefix|].
    rewrite Es. cbn [mbind option_bind]. change (wc_scanner c0) with (wc_scanner c) in Hcase. rewrite Hav in Hcase.
    destruct Hcase as [[Hcl Hsent]|(Hcl & Hsent & Hstr & Hav')]; rewrite Hcl; cbn [orb].
    + assert (Hg : gets_page s) by (split; [done|by exists (tr_h2 tr)]). eexists. split; [done|]. split_and!; try done; [right|intros _ _]; by destruct Hg.
    + destruct (tr_drain tr) eqn:Edr.
      { eexists. split; [done|]. split_and!; try done; [by left|]. intros _ [? _]%Forall_cons. congruence. }
      destruct (IH (se_conn s)) as (s' & Es' & Hcore' & Hout' & Hms' & Hsent' & Hpage); try done; [rewrite Hav'; by apply plain_ok_bytes|by rewrite Hav'|].
      rewrite Hcore. cbn in Hav'. rewrite Hav' in Hpage. rewrite Es'. eexists. split; [done|]. cbn. rewrite Hout, Hout', Hms'. split_and!; try done.
      intros Hlen [_ Hdr]%Forall_cons. by apply Hpage.
  - cbn in Hf. destruct (Z.leb_spec 32 b); [|lia]. eexists. split; [done|].
    assert (Hg : gets_page {| se_core := core; se_conn := c0; se_out := []; se_sent := [ToTls (serve_fallback_http (tr_h2 tr))]; se_close := true |})
      by (split; [done|by eexists]). split_and!; try done; [by right].
Qed.
(** Until the socket takes the page the worker does not leave the loop that writes it:
    with a connection that was reset, every write fails and rustls keeps its output, so
    that no number of turns ends it. *)
Theorem reset_peer_holds_worker core c tr hi now n :
  stranger c -> plain_ok tr -> avail (wc_scanner c) = [] ->
  foreign_start (concat (tr_plain tr)) -> (HEADER_SIZE <= length (concat (tr_plain tr)))%nat ->
  wants_write (default (tr_tls tr) (writer_write_all (tr_tls tr) (serve_fallback_http (tr_h2 tr)))) = true ->
  tr_sock tr = replicate n SFail -> read core c [TPackets tr] hi now = None.
Proof using grow_more.
  intros Hc Hp Hav Hf Hlen Hw Hsock. pose proof (plain_ok_bytes tr Hp) as Hb. cbn [socket_read].
  set (c0 := wc_set_scanner c (wc_scanner c) now). unfold sniff_inner. change (wc_sniffed_inner c0) with (wc_sniffed_inner c).
  rewrite (sg_unsniffed c Hc). change (wc_scanner c0) with (wc_scanner c). rewrite peek_avail, Hav. cbn [head].
  destruct Hc as [Hdone Hun Hok Hlim Hshort]. unfold plain_frames. change (wc_ms c0) with (wc_ms c). rewrite Hdone. set (rd := RData <$> tr_plain tr).
  cbn [hs_loop]. change (wc_scanner c0) with (wc_scanner c). unfold read_frame.
  destruct (read_foreign vec_grow grow_more (reader_fuel rd) (wc_scanner c) rd) as (sc & rd' & r & -> & Hr); try done;
    [unfold reader_fuel; lia|by apply plain_ok_data|by unfold rd; rewrite plain_bytes, Hav..|].
  destruct r as [[|]|e]; [done| |].
  - destruct Hr as (_ & _ & Ha & Hl). rewrite Ha, Hav in Hl. unfold rd in Hl. rewrite plain_bytes in Hl. cbn in Hl. lia.
  - cbn [mbind option_bind]. rewrite Hsock. clear Hsock. revert Hw. generalize (default (tr_tls tr) (writer_write_all (tr_tls tr) (serve_fallback_http (tr_h2 tr)))).
    intros t Hw. replace (fallback_drain t (replicate n SFail)) with (@None tls); [done|].
    induction n as [|n IH]; cbn; rewrite Hw; [done|exact IH].
Qed.

(** ** Peers without a valid request *)

(** Neither the handshake nor a session came to the connection. *)
Definition same_standing (ms ms' : MioSession) : Prop :=
  ms_handshake_done ms' = ms_handshake_done ms /\ ms_client_session ms' = ms_client_session ms.
#[local] Instance same_standing_preorder : PreOrder same_standing.
Proof. split; [by split|]. intros a b c [] []. split; congruence. Qed.
Lemma standing_eq ms ms' : ms' = ms -> same_standing ms ms'.
Proof. by intros ->. Qed.
#[local] Hint Resolve standing_eq : core.

(** The bytes of the peer: what its connection has buffered and the plaintext it sends. *)
Definition turn_plain (t : read_turn) : list Z := match t with TPackets tr => concat (tr_plain tr) | _ => [] end.
Definition peer_bytes (c : WorkerConn) (ts : list read_turn) : list Z := avail (wc_scanner c) ++ concat (turn_plain <$> ts).
(** rustls hands out plaintext in non-empty chunks. *)
Definition turn_chunks (t : read_turn) : Prop := match t with TPackets tr => Forall (fun chunk => chunk <> []) (tr_plain tr) | _ => True end.

(** No stretch of [stream] is a request that passes the checks. *)
Definition no_valid_request (stream : list Z) : Prop :=
  forall raw rq, infix raw stream -> parse_request raw = Some rq -> check_request conf rq <> None.
Lemma no_valid_suffix l l' : l `suffix_of` l' -> no_valid_request l' -> no_valid_request l.
Proof. intros Hs Hno raw rq Hin. apply Hno. by eapply infix_suffix. Qed.
Lemma no_valid_prefix l l' : no_valid_request (l ++ l') -> no_valid_request l.
Proof. intros Hno raw rq Hin. apply Hno. by apply infix_app. Qed.

Lemma refused_unchanged core ms raw stream en nu now wo : no_valid_request stream -> infix raw stream ->
  exists ms' o resp, handle_handshake v6 conf core ms (parse_request raw) en nu now wo = (core, ms', o, resp) /\ o <> HOk /\
    same_standing ms ms'.
Proof.
  intros Hno Hin. unfold handle_handshake. destruct (parse_request raw) as [rq|] eqn:E; [|by eexists _, _, _].
  destruct (check_request conf rq) as [o|] eqn:Ec; [|apply Hno in E; [congruence|done]]. eexists _, _, _. split; [done|]. split; [|done].
  unfold check_request in Ec. destruct (check_credentials conf rq) as [o'|] eqn:E1.
  - injection Ec as <-. unfold check_credentials in E1. by repeat case_match; simplify_eq.
  - destruct (check_format conf rq) as [o'|] eqn:E2; [injection Ec as <-; unfold check_format in E2|]; by repeat case_match; simplify_eq.
Qed.
Lemma hs_unadmitted hi now n : forall core c rd core' c' rd' e,
  fs_ok (wc_scanner c) -> Forall data_event rd -> no_valid_request (avail (wc_scanner c) ++ reader_bytes rd) ->
  requests n core c rd hi now = Some (core', c', rd', e) ->
  core' = core /\ same_standing (wc_ms c) (wc_ms c') /\ e <> HsAccepted /\
  (e = HsMore -> fs_ok (wc_scanner c') /\ avail (wc_scanner c') `suffix_of` avail (wc_scanner c) ++ reader_bytes rd).
Proof using grow_more.
  induction n as [|n IH]; intros core c rd core' c' rd' e Hok Hd Hno; cbn [hs_loop]; [done|].
  destruct (read_frame vec_grow (wc_scanner c) rd) as [[sc rd1] r] eqn:Er.
  assert (Hfuel : (weight rd < reader_fuel rd)%nat) by (unfold reader_fuel; lia).
  destruct (frame_payload_read vec_grow grow_more _ _ _ _ _ _ Hfuel Hok Hd Er) as (Hok1 & Hd1 & Hsuf & Hr).
  destruct r as [[[raw seq]|]|err]; [|intros [= <- <- _ <-]; split_and!; try done|by intros [= <- <- _ <-]].
  - assert (Hrec : forall last, requests n core (wc_set_scanner c sc last) rd1 hi now = Some (core', c', rd', e) ->
      core' = core /\ same_standing (wc_ms c) (wc_ms c') /\ e <> HsAccepted /\
      (e = HsMore -> fs_ok (wc_scanner c') /\ avail (wc_scanner c') `suffix_of` avail (wc_scanner c) ++ reader_bytes rd)).
    { intros last E. apply IH in E as (-> & Hst & He & Hmore); [|done|done|by eapply no_valid_suffix]. split_and!; try done.
      intros Em. destruct (Hmore Em) as [? Hs]. split; [done|]. etrans; [exact Hs|exact Hsuf]. }
    case_bool_decide; [apply Hrec|]. destruct (seq =? 0); [|apply Hrec]. cbn [wc_ms wc_set_scanner].
    destruct (refused_unchanged core (wc_ms c) raw _ (hi_entropy hi) (hi_now_unix hi) now (hi_write_ok hi) Hno Hr) as (ms & o & resp & -> & Ho & Hst).
    destruct o; [done|by intros [= <- <- _ <-]..].
  - intros _. split; [done|]. cbn in Hr. subst rd1. unfold reader_bytes at 1 in Hsuf. cbn in Hsuf. by rewrite app_nil_r in Hsuf.
Qed.
Lemma frames_unadmitted core c tr hi now s :
  fs_ok (wc_scanner c) -> Forall (fun chunk => chunk <> []) (tr_plain tr) ->
  no_valid_request (avail (wc_scanner c) ++ concat (tr_plain tr)) -> ms_handshake_done (wc_ms c) = false -> frames core c tr hi now = Some s ->
  se_core s = core /\ same_standing (wc_ms c) (wc_ms (se_conn s)) /\ se_out s = [] /\
  (se_close s = false -> fs_ok (wc_scanner (se_conn s)) /\ avail (wc_scanner (se_conn s)) `suffix_of` avail (wc_scanner c) ++ concat (tr_plain tr)).
Proof using grow_more.
  intros Hok Hch Hno Hd. unfold plain_frames. rewrite Hd.
  destruct (hs_loop _ _ _ _ _ _ _ _ _ _) as [[[[core1 c1] rd1] e]|] eqn:E; [|done]. cbn [mbind option_bind].
  apply hs_unadmitted in E as (-> & Hms & He & Hmore); [|done|by apply Forall_fmap|by rewrite plain_bytes].
  rewrite plain_bytes in Hmore. destruct e; [|done|by intros [= <-]|].
  - intros [= <-]. split_and!; try done. intros _. by apply Hmore.
  - destruct (fallback_drain _ _); [|done]. by intros [= <-].
Qed.
Lemma sniff_inner_scanner c tr : wc_scanner (sniff_inner c tr).1 = wc_scanner c.
Proof. unfold sniff_inner. by repeat case_match. Qed.
Lemma read_unadmitted ts hi now : forall core c s,
  fs_ok (wc_scanner c) -> Forall turn_chunks ts -> no_valid_request (peer_bytes c ts) -> ms_handshake_done (wc_ms c) = false ->
  read core c ts hi now = Some s ->
  se_core s = core /\ same_standing (wc_ms c) (wc_ms (se_conn s)) /\ se_out s = [].
Proof using grow_more.
  induction ts as [|[| | | |tr] ts IH]; intros core c s Hok Hch Hno Hd E; cbn [socket_read] in E; try by injection E as <-.
  apply Forall_cons in Hch as [Hch Hchs]. unfold peer_bytes in Hno. cbn [fmap list_fmap concat turn_plain] in Hno. rewrite app_assoc in Hno.
  set (c0 := wc_set_scanner c (wc_scanner c) now) in *. pose proof (sniff_inner_ms c0 tr) as Hms. pose proof (sniff_inner_scanner c0 tr) as Hsc.
  destruct (sniff_inner c0 tr) as [c1 [page|]]; [injection E as <-; split_and!; auto|]. cbn in Hms, Hsc.
  destruct (frames core c1 tr hi now) as [s1|] eqn:E1; [|done]. cbn [mbind option_bind] in E.
  apply frames_unadmitted in E1 as (Hc1 & Hms1 & Ho1 & Hmore); [|by rewrite Hsc|done|rewrite Hsc; by eapply no_valid_prefix|by rewrite Hms].
  rewrite Hms in Hms1. change (wc_ms c0) with (wc_ms c) in Hms1. rewrite Hsc in Hmore.
  destruct (se_close s1) eqn:Ecl; cbn [orb] in E; [by injection E as <-|]. destruct (tr_drain tr); [by injection E as <-|].
  destruct (Hmore eq_refl) as [Hok1 [l Hl]].
  destruct (read (se_core s1) (se_conn s1) ts hi now) as [s2|] eqn:E2; [|done]. injection E as <-.
  apply IH in E2 as (Hc2 & Hms2 & Ho2); [|done|done| |by destruct Hms1 as [-> _]].
  - cbn. rewrite Ho1, Ho2, Hc2, Hc1. split_and!; [done| |done]. by etrans.
  - eapply no_valid_suffix; [|exact Hno]. unfold peer_bytes. exists l. change (wc_scanner c0) with (wc_scanner c) in Hl. by rewrite Hl, <-app_assoc.
Qed.
Lemma sniff_outer_scanner c peek : wc_scanner (sniff_outer c peek).1 = wc_scanner c.
Proof. unfold sniff_outer. by repeat case_match. Qed.

(** C18: Without a valid request nothing happens: a peer that sends no handshake payload
    that passes the checks (the hash of the secret among them) - no stretch of the bytes
    its connection has buffered and of the plaintext it sends now parses to such a request
    - changes no session, address, ban, switch entry or counter and gets no frame
    delivered; its connection stays outside every session. *)
Theorem unadmitted_has_no_effect core c ev now s :
  fs_ok (wc_scanner c) -> Forall turn_chunks (rv_turns ev) -> no_valid_request (peer_bytes c (rv_turns ev)) ->
  ms_handshake_done (wc_ms c) = false -> serve core c ev now = Some s ->
  se_core s = core /\ same_standing (wc_ms c) (wc_ms (se_conn s)) /\ se_out s = [].
Proof using grow_more.
  intros Hok Hch Hno Hd. unfold on_readable.
  pose proof (sniff_outer_ms c (rv_peek ev)) as Hms. pose proof (sniff_outer_scanner c (rv_peek ev)) as Hsc.
  destruct (sniff_outer c (rv_peek ev)) as [c1 []]; [intros [= <-]; split_and!; auto|]. cbn in Hms, Hsc.
  destruct (read core c1 (rv_turns ev) (rv_hs ev) now) as [s1|] eqn:E; [|done]. cbn [mbind option_bind]. intros [= <-]. cbn.
  apply read_unadmitted in E as (-> & Hst & ->); [|by rewrite Hsc|done|unfold peer_bytes; by rewrite Hsc|by rewrite Hms].
  by rewrite Hms in Hst.
Qed.
(** ** Silent connections *)

Abbreviation turn := (serve_turn v6 conf p vec_grow lazy_compact queue_env rx_batch_cap rx_bypass_enabled switch_batch_enabled parse_request).
Lemma elem_of_dedup t l : t ∈ dedup l <-> t ∈ l.
Proof.
  induction l as [|a l IH]; [done|]. destruct l as [|b l]; [done|]. cbn [dedup] in *.
  destruct (Nat.eqb_spec a b) as [->|]; rewrite ?elem_of_cons, IH, ?elem_of_cons; tauto.
Qed.
Definition marks (w w' : worker) : Prop := forall t, t ∈ wk_closed w -> t ∈ wk_closed w'.
#[local] Instance marks_preorder : PreOrder marks.
Proof. split; [by intros w t|]. intros a b c Hab Hbc t Ht. by apply Hbc, Hab. Qed.
Lemma mark_marks w t close : marks w (wk_mark w t close).
Proof. intros u Hu. cbn. destruct close; [apply elem_of_app; by left|done]. Qed.
Lemma remove_marks w t now : marks w (remove_conn w t now).
Proof. intros u. unfold remove_conn. by case_match. Qed.
Lemma scan_marks w t ans now : marks w (scan_one w t ans now).
Proof. unfold scan_one. destruct (wk_conns w !! t); [|done]. destruct (scan_close _ _ _ _) as [core close]. by apply (mark_marks (wk_set_core w core)). Qed.
Lemma scan_conns w t ans now : wk_conns (scan_one w t ans now) = wk_conns w.
Proof. unfold scan_one. destruct (wk_conns w !! t); [|done]. by destruct (scan_close _ _ _ _). Qed.
Lemma event_marks w t ev now w' out sent :
  on_event v6 conf p vec_grow rx_batch_cap rx_bypass_enabled switch_batch_enabled parse_request w t ev now = Some (w', out, sent) -> marks w w'.
Proof.
  unfold on_event. destruct (wk_conns w !! t) as [c|]; [|by intros [= <- _ _]]. destruct (serve (wk_core w) c ev now) as [s|]; [|done].
  cbn [mbind option_bind]. intros [= <- _ _]. case_match; [|by intros u].
  etrans; [|apply remove_marks]. by intros u.
Qed.
Lemma remove_all_gone l now : forall w t, t ∈ l \/ wk_conns w !! t = None -> wk_conns (foldl (fun w t => remove_conn w t now) w l) !! t = None.
Proof.
  induction l as [|u l IH]; intros w t Ht; cbn [foldl]; [by destruct Ht as [?%elem_of_nil|]|]. apply IH.
  destruct (decide (t = u)) as [->|Hne].
  - right. unfold remove_conn. destruct (wk_conns w !! u) eqn:E; [apply lookup_delete_eq|done].
  - destruct Ht as [[|Ht]%elem_of_cons|Ht]; [done|by left|]. right. unfold remove_conn. case_match; [|done]. cbn. by rewrite lookup_delete_ne.
Qed.
(** The scan marks what its check closes. *)
Lemma scan_finds scans now t ans c : forall w,
  wk_conns w !! t = Some c -> (t, ans) ∈ scans -> 15 < idle_secs c now ->
  t ∈ wk_closed (foldl (fun w s => scan_one w s.1 s.2 now) w scans).
Proof.
  induction scans as [|[u an] scans IH]; intros w Ht Hin Hidle; cbn [foldl]; [by apply elem_of_nil in Hin|].
  apply elem_of_cons in Hin as [[= <- <-]|Hin]; [|by apply IH; [rewrite scan_conns|..]].
  apply (foldl_steps marks (fun w s => scan_one w s.1 s.2 now)); [intros; apply scan_marks|].
  unfold scan_one. cbn [fst snd]. rewrite Ht. unfold scan_close. destruct (Z.ltb_spec 15 (idle_secs c now)); [|lia].
  cbn. apply elem_of_app. right. by apply list_elem_of_singleton.
Qed.
Lemma admit_keeps accs now t c : forall w, table_inv w -> wk_conns w !! t = Some c ->
  wk_conns (foldl (fun w a => admit_conn lazy_compact queue_env w a now) w accs) !! t = Some c.
Proof.
  induction accs as [|a accs IH]; intros w Hw Ht; cbn [foldl]; [done|]. apply IH; [by apply admit_table|].
  unfold admit_conn. case_match; [done|]. cbn. case_match; [|done]. rewrite lookup_insert_ne; [done|].
  apply (tb_open w Hw) in Ht. lia.
Qed.

Definition handed_back (w : worker) (t : nat) : Prop := wk_conns w !! t = None /\ t ∈ wk_released w.
(** C22: A connection that was silent for more than 15 seconds is gone after the next turn
    and handed back, whatever else the turn brings, bytes of the peer included. *)
Theorem silent_connection_dropped w i w' out sent t c ans :
  table_inv w -> wk_conns w !! t = Some c -> (t, ans) ∈ ti_scan i -> 15 < idle_secs c (ti_now i) ->
  turn w i = Some (w', out, sent) -> handed_back w' t.
Proof.
  intros Hw Ht Hin Hidle E.
  assert (Hgone : wk_conns w' !! t = None).
  { revert E. unfold serve_turn. set (w1 := foldl _ w _). set (w2 := worker_reap _ _ _ _ _). set (w3 := foldl _ w2 _).
    assert (H1' : wk_conns w1 !! t = Some c) by (by apply admit_keeps).
    assert (H2' : wk_conns w2 !! t = Some c) by (unfold w2, worker_reap; by case_match).
    assert (H3' : t ∈ wk_closed w3) by (by eapply scan_finds).
    destruct (run_events _ _ _ _ _ _ _ _ w3 _ _) as [[[w4 out4] sent4]|] eqn:E4; [|done].
    assert (H4' : marks w3 w4).
    { eapply events_steps; [apply _|..|exact E4]; [|apply event_marks]. intros u k close. unfold on_dirty. case_match; [apply mark_marks|done]. }
    cbn [mbind option_bind]. destruct (flush_all_overdue _ _ _) as [core out5]. intros [= <- _ _].
    unfold remove_closed. apply remove_all_gone. left. apply elem_of_dedup. rewrite merge_sort_Permutation. by apply H4'. }
  split; [done|]. destruct (turns_table v6 conf p vec_grow lazy_compact queue_env rx_batch_cap rx_bypass_enabled switch_batch_enabled
    parse_request [i] w w') as (_ & _ & _ & Ho); [by cbn; rewrite E|done|].
  destruct (Ho t) as [[d Hd]|]; [by rewrite Ht|congruence|done].
Qed.
End WorkerGuard.

(** ** Concrete strangers *)

(** A probe sends an HTTP request inside TLS, cut after five bytes. *)
Definition demo_fresh : WorkerConn := new_conn false None demo_accept 2 10.
Definition demo_probe (sock : list sock_event) : list tls_turn :=
  [demo_chunk demo_tls [bytes_of_string "GET /"] sock; demo_chunk demo_tls [bytes_of_string " HTTP/1.1"] sock].
Definition demo_big_socket : list sock_event := [SAccept 4096].
Lemma demo_fresh_stranger : stranger demo_fresh.
Proof.
  split; [reflexivity|reflexivity|split; [cbn; lia|vm_compute; discriminate]|vm_compute; discriminate|vm_compute; lia].
Qed.
Lemma demo_probe_ok sock : Forall plain_ok (demo_probe sock).
Proof. repeat constructor; try discriminate; apply bytes_of_string_ok. Qed.
Lemma demo_probe_drains : Forall page_drains (demo_probe demo_big_socket).
Proof. repeat constructor; vm_compute; by eexists. Qed.
Abbreviation demo_socket_read := (socket_read raw_v6 demo_conf OtherCpu (fun c => c + 16384) 8 true true demo_parse).
Abbreviation demo_serve := (on_readable raw_v6 demo_conf OtherCpu (fun c => c + 16384) 8 true true demo_parse).

Lemma strangers_get_403_witness : exists s,
  demo_socket_read (ServerCore_new raw_v6 demo_v4cidr []) demo_fresh (TPackets <$> demo_probe demo_big_socket) demo_hs 20 = Some s /\
  se_core s = ServerCore_new raw_v6 demo_v4cidr [] /\ gets_page s.
Proof.
  destruct (strangers_get_403 raw_v6 demo_conf OtherCpu (fun c => c + 16384) 8 true true demo_parse ltac:(intros; cbn; lia)
    (ServerCore_new raw_v6 demo_v4cidr []) demo_fresh (demo_probe demo_big_socket) demo_hs 20) as (s & E & Hc & _ & _ & _ & Hp).
  - exact demo_fresh_stranger.
  - constructor.
  - apply demo_probe_ok.
  - exact demo_probe_drains.
  - vm_compute. discriminate.
  - exists s. split; [exact E|]. split; [exact Hc|]. apply Hp; [vm_compute; lia|by repeat constructor].
Defined.

(** The same probe against a socket that was reset. *)
Lemma reset_peer_holds_worker_witness n :
  demo_socket_read (ServerCore_new raw_v6 demo_v4cidr []) demo_fresh
    [TPackets (demo_chunk demo_tls [bytes_of_string "GET / HTTP/1.1"] (replicate n SFail))] demo_hs 20 = None.
Proof.
  apply (reset_peer_holds_worker raw_v6 demo_conf OtherCpu (fun c => c + 16384) 8 true true demo_parse ltac:(intros; cbn; lia) _ _ _ _ _ n).
  - exact demo_fresh_stranger.
  - constructor; [split; [discriminate|apply bytes_of_string_ok]|constructor].
  - reflexivity.
  - vm_compute. discriminate.
  - vm_compute. lia.
  - vm_compute. reflexivity.
  - reflexivity.
Qed.

(** A payload that is no request. *)
Definition demo_nonsense : readable := demo_read 22 [demo_chunk demo_tls [wire_frame 0 [9; 9] []] demo_big_socket].
Lemma readable_is_served_witness :
  is_Some (demo_serve (ServerCore_new raw_v6 demo_v4cidr []) demo_fresh demo_nonsense 20).
Proof.
  apply (readable_is_served raw_v6 demo_conf OtherCpu (fun c => c + 16384) 8 true true demo_parse); [by intros ?|].
  repeat constructor. unfold demo_nonsense. vm_compute. by eexists.
Defined.

(** A server with another key: the request of the demo client is refused. *)
Definition demo_other_conf : ServerConf :=
  {| sc_psk := [8; 8]; sc_psk_hash := [9; 9; 9]; sc_encrypt := true; sc_enc_algo := ENC_ALGO_XCHACHA20; sc_min_enc := 0;
     sc_brutal := true; sc_brutal_up := 100; sc_brutal_down := 50; sc_max_sessions := 4; sc_fec_group_min := 2;
     sc_fec_group_max := 64; sc_gw_v4 := bytes_of_string "10.0.0.1"; sc_gw_v6 := []; sc_v4_mask_bits := 29;
     sc_v6_mask_bits := 64; sc_port_dispatch := true; sc_rx_batch := 32 |}.
Definition demo_request : readable := demo_read 22 [demo_chunk demo_tls [wire_frame 0 [7] [0; 0]] demo_big_socket].
Definition demo_refusal : option served :=
  on_readable raw_v6 demo_other_conf OtherCpu (fun c => c + 16384) 8 true true demo_parse (ServerCore_new raw_v6 demo_v4cidr []) demo_fresh demo_request 20.
(** A peer with a wrong key is dropped at once, without a page and without delay. *)
Example wrong_key_gets_no_answer : (fun s => (se_close s, se_sent s, se_out s)) <$> demo_refusal = Some (true, [], []).
Proof. vm_compute. reflexivity. Qed.
(** The server whose parser does accept the demo client's request ([7]): a peer that
    never sends that byte is refused without effect. *)
Definition demo_stranger_read : option served :=
  demo_serve (ServerCore_new raw_v6 demo_v4cidr []) demo_fresh demo_nonsense 20.
Lemma demo_nonsense_invalid : no_valid_request demo_conf demo_parse (peer_bytes demo_fresh (rv_turns demo_nonsense)).
Proof.
  intros raw rq (l1 & l2 & Hs) E. unfold demo_parse in E. case_bool_decide as Hraw; [|done]. subst raw. exfalso.
  assert (H7 : 7 ∈ peer_bytes demo_fresh (rv_turns demo_nonsense)).
  { rewrite Hs. apply elem_of_app. right. apply elem_of_app. left. by left. }
  revert H7. apply (bool_decide_unpack _). vm_compute. done.
Qed.
Lemma unadmitted_has_no_effect_witness : exists s, demo_stranger_read = Some s /\ se_close s = true /\
  se_core s = ServerCore_new raw_v6 demo_v4cidr [] /\ ms_client_session (wc_ms (se_conn s)) = None.
Proof.
  assert (Hs : se_close <$> demo_stranger_read = Some true) by (vm_compute; reflexivity).
  apply fmap_Some in Hs as (s & E & Hcl). exists s. split; [exact E|]. split; [by symmetry|].
  destruct (unadmitted_has_no_effect raw_v6 demo_conf OtherCpu (fun c => c + 16384) 8 true true demo_parse ltac:(intros; cbn; lia)
    (ServerCore_new raw_v6 demo_v4cidr []) demo_fresh demo_nonsense 20 s) as (Hc & [_ Hm] & _);
    [exact (sg_scanner _ demo_fresh_stranger)|repeat constructor; discriminate|exact demo_nonsense_invalid|reflexivity|exact E|].
  split; [exact Hc|]. rewrite Hm. reflexivity.
Defined.

Definition demo_last_turn (w : worker) : option (worker * list delivery * list fallback) :=
  serve_turn raw_v6 demo_conf OtherCpu (fun c => c + 16384) false None 8 true true demo_parse w (demo_turn 20000 [] [(2%nat, demo_answer)] []).
Lemma silent_connection_dropped_witness : exists w w' out sent, demo_worker 2 = Some w /\ is_Some (wk_conns w !! 2%nat) /\
  demo_last_turn w = Some (w', out, sent) /\ handed_back w' 2.
Proof.
  destruct (demo_get (fun w => ((fun c => 15 <? idle_secs c 20000) <$> wk_conns w !! 2%nat, (fun _ => true) <$> demo_last_turn w)) 2
    (Some true, Some true)) as (w & E & Hs); [vm_compute; reflexivity|]. injection Hs as H1 H2.
  apply fmap_Some in H1 as (c & Hc & Hidle). apply fmap_Some in H2 as ([[w' out] sent] & E' & _).
  assert (Hw : table_inv w).
  { destruct (turns_table raw_v6 demo_conf OtherCpu (fun c => c + 16384) false None 8 true true demo_parse (take 2 demo_turns)
      (worker_new (ServerCore_new raw_v6 demo_v4cidr [])) w E (worker_new_table _)) as [Hw _]. exact Hw. }
  exists w, w', out, sent. split; [exact E|]. split; [by exists c|]. split; [exact E'|].
  apply (silent_connection_dropped raw_v6 demo_conf OtherCpu (fun c => c + 16384) false None 8 true true demo_parse
    w (demo_turn 20000 [] [(2%nat, demo_answer)] []) w' out sent 2 c demo_answer); [exact Hw|exact Hc|constructor| |exact E'].
  apply Z.ltb_lt. by symmetry.
Defined.
