(* ===== verification/StreamSpec.v ===== *)
(** * Reading a connection's stream, for both directions

    [stream_at] relates the state of a scanner and what rustls holds to the frames that
    are still to be read; [in_step] a reorder buffer to a run of consecutive sequence
    numbers.  The receive loops of client and server are proved with them. *)
From S2P Require Import Prelude Protocol Utils Crypto Frame Buffer Reorder ReorderSpec Adaptive Queue Fec Port Writer WriterSpec WriterRun.

(** ** Consecutive numbers pass at once *)

Lemma advance_consecutive x k :
  1 <= x -> x + Z.of_nat k <= U32_MAX -> advance_loop x true (seqZ x (Z.of_nat k)) = Some (x + Z.of_nat k, true).
Proof.
  revert x. induction k as [|k IH]; intros x Hx Hk; [simpl; by rewrite Z.add_0_r|].
  rewrite seqZ_cons by lia. cbn [advance_loop]. cbn [negb andb]. rewrite Z.eqb_refl. destruct (Z.eqb_spec x 0); [lia|]. cbn [negb orb].
  replace (u32_wrap (x + 1)) with (Z.succ x) by (unfold u32_wrap; rewrite Z.mod_small; unfold_ints; lia).
  replace (Z.pred (Z.of_nat (S k))) with (Z.of_nat k) by lia. rewrite IH by lia. do 2 f_equal. lia.
Qed.

(** The buffer has no gap and [pend] runs from what it expects up to [nxt]. *)
Record in_step (rb : ReorderBuffer) (pend : list Z) (nxt : Z) : Prop := {
  is_gap : rb_gap_since rb = None;
  is_first : 1 <= nxt - zlen pend;
  is_run : pend = seqZ (nxt - zlen pend) (zlen pend);
  is_expected : rb_expected_seq rb = nxt - zlen pend \/ rb_expected_seq rb = 0;
  is_bound : nxt <= U32_MAX }.

Lemma in_step_advance rb pend nxt :
  in_step rb pend nxt -> pend <> [] -> exists rb', try_advance_sequences rb pend = Some rb' /\ in_step rb' [] nxt.
Proof.
  intros [Hg Hfst Hr He Hb] Hne. unfold try_advance_sequences. rewrite Hg.
  assert (Ha : advance_loop (rb_expected_seq rb) false pend = Some (nxt, true)).
  { destruct pend as [|y pend]; [done|]. set (x := nxt - zlen (y :: pend)) in *. rewrite Hr. rewrite seqZ_cons by (simpl; lia).
    cbn [advance_loop]. cbn [negb andb].
    assert ((if rb_expected_seq rb =? 0 then x else rb_expected_seq rb) = x) as ->
      by (destruct He as [->| ->]; [by destruct (x =? 0) eqn:Ex|done]).
    rewrite Z.eqb_refl. destruct (Z.eqb_spec x 0); [lia|]. cbn [negb orb].
    replace (u32_wrap (x + 1)) with (Z.succ x) by (unfold u32_wrap; rewrite Z.mod_small; unfold_ints; subst x; simpl in *; lia).
    replace (Z.pred (zlen (y :: pend))) with (zlen pend) by (simpl; lia).
    rewrite advance_consecutive by (subst x; simpl in *; lia). do 2 f_equal. subst x. simpl. lia. }
  rewrite Ha. eexists. split; [done|]. split; cbn; [done|lia| |left; lia|done]. done.
Qed.
Lemma in_step_push rb pend nxt : in_step rb pend nxt -> nxt + 1 <= U32_MAX -> in_step rb (pend ++ [nxt]) (nxt + 1).
Proof.
  intros [Hg Hfst Hr He Hb] Hn. assert (E : nxt + 1 - zlen (pend ++ [nxt]) = nxt - zlen pend) by (rewrite length_app; simpl; lia).
  split; rewrite ?E; try done. rewrite length_app. cbn [length].
  rewrite Nat2Z.inj_add, seqZ_app by lia. rewrite <-Hr. f_equal. replace (nxt - zlen pend + zlen pend) with nxt by lia. done.
Qed.
Lemma deliverable_all (input : list (Z * frame)) :
  Forall (fun x => x.2 <> []) input -> concat ((fun q : Z * frame => deliverable q.2) <$> input) = input.*2.
Proof. induction 1 as [|[s [|b d]] input Hx _ IH]; [done|done|]. rewrite !fmap_cons. cbn [concat snd deliverable app]. by rewrite IH. Qed.

(** The fast path of both flushes takes a run that is in step. *)
Lemma in_step_direct rb input nxt :
  in_step rb input.*1 nxt -> input <> [] -> Forall (fun x : Z * frame => x.2 <> []) input ->
  exists rb', try_direct_batch rb input = Some (rb', input.*2) /\ in_step rb' [] nxt.
Proof.
  intros Hs Hne Hp. destruct (in_step_advance _ _ _ Hs) as (rb' & Ha & Hs'); [by destruct input|].
  exists rb'. split; [|done]. unfold try_direct_batch. rewrite Ha. do 2 f_equal. by apply deliverable_all.
Qed.


(** ** The frames of a stream *)

#[export] Existing Instance has_payload_dec.
Definition payloads (l : list VPNFrame) : list (list Z) := (fun f => as_slice (vf_data f)) <$> filter has_payload l.
(** The frames with a payload are numbered from [nxt]. *)
Definition seqs_from (nxt : Z) (l : list VPNFrame) : Prop :=
  vf_seq <$> filter has_payload l = seqZ nxt (zlen (filter has_payload l)) /\ nxt + zlen (filter has_payload l) <= U32_MAX.
Lemma seqs_from_payload f l nxt : has_payload f -> seqs_from nxt (f :: l) -> vf_seq f = nxt /\ seqs_from (nxt + 1) l /\ nxt + 1 <= U32_MAX.
Proof.
  intros Hf [Hs Hb]. unfold seqs_from. rewrite (filter_cons_True _ f) in Hs, Hb by done. rewrite fmap_cons in Hs. rewrite seqZ_cons in Hs by (simpl; lia).
  cbn [length] in *. injection Hs as -> Hs. split_and!; [done| |lia|lia]. rewrite Hs. f_equal; lia.
Qed.
Lemma seqs_from_skip f l nxt : ~ has_payload f -> seqs_from nxt (f :: l) -> seqs_from nxt l.
Proof. intros Hf. unfold seqs_from. by rewrite (filter_cons_False _ f). Qed.
Lemma payloads_app l k : payloads (l ++ k) = payloads l ++ payloads k.
Proof. unfold payloads. by rewrite filter_app, fmap_app. Qed.
Lemma seqs_from_same nxt l k : filter has_payload l = filter has_payload k -> seqs_from nxt k -> seqs_from nxt l.
Proof. unfold seqs_from. by intros ->. Qed.
Lemma seqs_from_prefix nxt l k : seqs_from nxt (l ++ k) -> seqs_from nxt l.
Proof.
  unfold seqs_from. rewrite filter_app, fmap_app, length_app. intros [Hs Hb]. split; [|lia].
  rewrite Nat2Z.inj_add, seqZ_app in Hs by lia. apply app_inj_1 in Hs as [? _]; [done|]. rewrite length_fmap, length_seqZ. lia.
Qed.
Lemma payloads_one f : payloads [f] = if decide (has_payload f) then [as_slice (vf_data f)] else [].
Proof. unfold payloads. destruct (decide (has_payload f)); [by rewrite filter_cons_True, filter_nil|by rewrite filter_cons_False, filter_nil]. Qed.
Lemma reader_bytes_app r1 r2 : reader_bytes (r1 ++ r2) = reader_bytes r1 ++ reader_bytes r2.
Proof. unfold reader_bytes. by rewrite fmap_app, concat_app. Qed.

(** ** The scanner on a stream *)

(** What rustls makes readable after a read of the socket. *)
Definition data_only (rd : list read_event) : Prop := Forall (fun e => match e with RData c => c <> [] | _ => False end) rd.
Lemma data_only_live rd : data_only rd -> Forall event_live rd.
Proof. intros Hd. eapply Forall_impl; [exact Hd|]. by intros [c| |]. Qed.

Lemma reader_read_data rd space :
  data_only rd -> 0 < space ->
  (rd = [] /\ reader_read rd space = ([], ReadBlock)) \/
  exists rd' bs, reader_read rd space = (rd', ReadOk bs) /\ bs <> [] /\ zlen bs <= space /\ data_only rd' /\ (weight rd' < weight rd)%nat.
Proof.
  intros Hd Hsp. destruct rd as [|e rd]; [by left|right]. apply Forall_cons in Hd as [He Hd]. destruct e as [c| |]; [|done..].
  cbn [reader_read]. destruct (Z.leb_spec (zlen c) space) as [Hle|Hgt].
  - exists rd, c. split_and!; [done..|]. cbn [sum_list_with event_weight]. lia.
  - assert (Hdl : length (drop (Z.to_nat space) c) = (length c - Z.to_nat space)%nat) by apply length_drop.
    assert (Htl : length (take (Z.to_nat space) c) = Z.to_nat space) by (rewrite length_take; lia).
    eexists _, _. split_and!; [done| | | |].
    + intros E. rewrite E in Htl. simpl in Htl. lia.
    + lia.
    + constructor; [|done]. intros E. rewrite E in Hdl. simpl in Hdl. lia.
    + cbn [sum_list_with event_weight]. lia.
Qed.
Lemma take_frame_none st st' : take_buffered_frame st = (st', Ok None) -> st' = st.
Proof. unfold take_buffered_frame. cbv zeta. repeat case_match; by intros [= <-]. Qed.

Section Stream.
Context `{CryptoLaws}.
Context (vec_grow : Z -> Z) (grow_more : forall c, c < vec_grow c).

(** The scanner reports that it needs more only after it has read everything. *)
Lemma read_loop_data fuel st rd st' rd' r :
  (weight rd < fuel)%nat -> fs_ok st -> data_only rd -> read_loop vec_grow fuel st rd = (st', rd', Ok r) ->
  data_only rd' /\ (r = None -> rd' = []).
Proof.
  revert st rd. induction fuel as [|fuel IH]; intros st rd Hf Hok Hd; [lia|]. cbn [read_loop].
  destruct (take_buffered_frame st) as [st1 [[f|]|e]] eqn:Et; [by intros [= _ <- <-]| |done]. apply take_frame_none in Et as ->.
  destruct (compact_ok st true Hok) as (Hok1 & _ & _). destruct (reserve_ok _ grow_more _ Hok1) as (Hok2 & _ & Hsp & _).
  cbv zeta. set (st2 := reserve_capacity _ _) in *.
  destruct (reader_read_data rd (Z.min (fs_capacity st2 - zlen (fs_buffer st2)) 16384) Hd) as [[-> ->]|(rd1 & bs & -> & Hne & Hl & Hd1 & Hw)];
    [lia|by intros [= _ <- <-]|].
  destruct bs as [|b bs]; [done|]. apply IH; [lia| |done]. apply append_ok; [done|lia].
Qed.

(** [todo] is still to be read, [more] of it has not arrived. *)
Record stream_at (ic : option InnerCipher) (sc : FrameScanner) (rd : list read_event) (todo : list VPNFrame) (more : list Z) : Prop := {
  sa_ok : fs_ok sc;
  sa_max : fs_max_data_len sc = MAX_DATA_LENGTH;
  sa_data : data_only rd;
  sa_stream : stream_of ic todo (avail sc ++ reader_bytes rd ++ more) }.

(** Reading the next frame of the stream, if it is complete. *)
Lemma read_stream ic sc rd todo more :
  stream_at ic sc rd todo more ->
  exists sc' rd' r, read_frame vec_grow sc rd = (sc', rd', Ok r) /\
    match r with
    | Some (raw, seq) => exists f todo', todo = f :: todo' /\ seq = vf_seq f /\ raw = wire_payload seq (as_slice (vf_data f)) ic /\
        zlen raw <= MAX_DATA_LENGTH /\ stream_at ic sc' rd' todo' more
    | None => stream_at ic sc' rd' todo more /\ rd' = [] /\ (more = [] -> todo = [])
    end.
Proof.
  intros [Hok Hm Hd (ws & Hws & Es)].
  set (head := match ws with w :: _ => w | [] => (0, [], []) end).
  set (rest := match ws with _ :: ws' => concat (wire_triple <$> ws') ++ wire_triple (0, [], []) | [] => [] end).
  assert (Hf : frame_ok MAX_DATA_LENGTH head.1.1 head.1.2 head.2).
  { subst head. destruct ws as [|w ws]; [by split|]. destruct todo; [by apply Forall2_nil_cons_inv in Hws|]. by apply Forall2_cons in Hws as [[? _] _]. }
  assert (E : avail sc ++ reader_bytes rd ++ (more ++ wire_triple (0, [], [])) = wire_frame head.1.1 head.1.2 head.2 ++ rest).
  { rewrite !app_assoc, <-(app_assoc (avail _)), Es. subst head rest. destruct ws as [|w ws]; [by rewrite app_nil_r|]. cbn [fmap list_fmap concat]. by rewrite <-app_assoc. }
  assert (Hfuel : (weight rd < reader_fuel rd)%nat) by (unfold reader_fuel; lia).
  destruct (read_loop_spec vec_grow grow_more (reader_fuel rd) sc rd _ _ _ _ _ Hfuel
    Hok (data_only_live _ Hd) ltac:(rewrite Hm; exact Hf) E) as (sc' & rd' & r & Hl & Hok' & _ & Hm' & Hres).
  exists sc', rd', r. split; [done|]. rewrite Hm in Hm'.
  destruct (read_loop_data _ _ _ _ _ _ Hfuel Hok Hd Hl) as [Hd' Hnone]. destruct r as [[raw seq]|].
  - destruct Hres as ([= -> ->] & Hrest & _ & Hlen). subst head rest. destruct ws as [|w ws].
    { exfalso. apply (f_equal length) in Es. rewrite !length_app in Es. rewrite length_app, length_wire_frame in Hlen.
      cbn [fmap list_fmap concat length fst snd] in *. lia. }
    destruct todo as [|f todo]; [by apply Forall2_nil_cons_inv in Hws|]. apply Forall2_cons in Hws as [(Hw & Hseq & Hpay) Hws].
    cbn [item fst snd] in Hseq, Hpay. exists f, todo. split_and!; try done; [by rewrite Hseq|apply Hw|]. split; try done.
    exists ws. split; [done|]. rewrite !app_assoc in Hrest. apply app_inv_tail in Hrest. by rewrite <-app_assoc in Hrest.
  - destruct Hres as (Hsame & Hlt & _). specialize (Hnone eq_refl). subst rd'.
    split_and!; [|done|].
    + split; try done. exists ws. split; [done|]. by rewrite app_assoc, Hsame, <-app_assoc.
    + intros ->. destruct todo as [|f todo]; [done|]. exfalso. destruct ws as [|w ws]; [by apply Forall2_cons_nil_inv in Hws|].
      rewrite app_nil_r in Es. unfold reader_bytes at 1 in Hsame. cbn [fmap list_fmap concat] in Hsame. rewrite app_nil_r, Es in Hsame.
      rewrite Hsame in Hlt. cbn [fmap list_fmap concat] in Hlt. rewrite length_app in Hlt. subst head. unfold wire_triple at 1 in Hlt. lia.
Qed.
Lemma stream_at_arrives ic sc rd plain todo more :
  data_only plain -> stream_at ic sc rd todo (reader_bytes plain ++ more) -> stream_at ic sc (rd ++ plain) todo more.
Proof. intros Hp [? ? Hd Hs]. split; try done; [by apply Forall_app|]. by rewrite reader_bytes_app, <-app_assoc. Qed.
(** An empty stream carries nothing. *)
Lemma stream_of_nil ic log : stream_of ic log [] -> log = [].
Proof.
  intros (ws & Hws & Ew). destruct ws as [|x ws].
  - apply Forall2_length in Hws. rewrite length_fmap in Hws. by destruct log.
  - apply (f_equal length) in Ew. cbn [fmap list_fmap concat] in Ew. rewrite length_app in Ew. unfold wire_triple at 1 in Ew.
    rewrite length_wire_frame in Ew. simpl in Ew. lia.
Qed.

(** What the reader opens is what the writer sealed; a frame without a payload is empty
    on the wire. *)
Lemma wire_opens ic seq data :
  seq <> 0 -> data <> [] -> zlen (wire_payload seq data ic) <= U32_MAX ->
  match ic with
  | Some c => open_in_place c (wire_payload seq data ic) seq (u32_wrap (zlen (wire_payload seq data ic)))
  | None => Some (wire_payload seq data ic)
  end = Some data.
Proof.
  intros Hs Hd Hl. pose proof (open_wire_payload seq data ic) as Ho. pose proof (length_wire_payload seq data ic) as Hw.
  unfold open_payload in Ho. cbn [fst snd] in Ho. destruct (Z.eqb_spec seq 0); [done|]. cbn [negb andb] in *.
  destruct ic as [c|]; [|done].
  destruct (Nat.ltb_spec 0 (length (wire_payload seq data (Some c)))); [|destruct data; [done|simpl in *; lia]].
  unfold u32_wrap. rewrite Z.mod_small by (unfold_ints; lia). destruct (open_in_place _ _ _ _) as [pt|]; [|done]. by injection Ho as ->.
Qed.
Lemma wire_payload_empty ic seq f : ~ has_payload f -> wire_payload seq (as_slice (vf_data f)) ic = [].
Proof. intros Hf. apply dec_stable in Hf. rewrite Hf. by destruct ic; cbn; rewrite ?andb_false_r. Qed.
Lemma wire_payload_nonempty ic seq data : data <> [] -> wire_payload seq data ic <> [].
Proof. intros Hd E. pose proof (length_wire_payload seq data ic) as Hw. rewrite E in Hw. destruct data; [done|simpl in Hw; lia]. Qed.
End Stream.
