(* ===== verification/ClientRx.v ===== *)
(** * The data loop of a client connection: [dial_and_serve] of [src/src/client.rs]

    One turn checks whether the connection has to go (an error of the receive actor,
    exhausted sequence numbers, a forced reconnect), waits for the poller, drains the
    socket to [WouldBlock] and hands the frames to the receive actor or, with a single
    connection, through batches to the reorder buffer and the TAP delivery queue, and
    then runs the sending half ([Writer.client_tx_turn]).  [ClientShared] is what all
    connections share; [ClientRx] and [ClientTx] are the local variables.  What the
    poller, the socket, the kernel and the random source answer is the input of a turn.
    Times are microseconds; the reorder buffer keeps milliseconds. *)
From S2P Require Import Prelude Protocol Utils Crypto Frame Xor Fec Buffer Reorder RxActor Adaptive Queue Port Cork Pool Brutal PeerInfo Session Hooks TapDelivery Client Writer.

(** ** State *)

Record ClientShared `{FrameChannel} := {
  sh_client : Client;
  sh_delivery : TapDelivery;
  sh_force_generation : Z;
  sh_instance_id : text;
  sh_rx_bytes : Z;
  sh_rx_packets : Z;
  sh_live_conns : Z }.

Record ClientRx := {
  lr_scanner : FrameScanner;
  (** the plaintext rustls holds *)
  lr_reader : list read_event;
  lr_producer : option RxProducer;
  lr_fec_data : list (Z * frame);
  lr_reorder_input : list (Z * frame);
  lr_owned_input : list (Z * FrameVec) }.

(** What is fixed when the loop starts. *)
Record RxMode := {
  md_ic_rx : option InnerCipher;
  md_use_xor_fec : bool;
  md_conns_count : Z;
  md_rx_bypass : bool;
  md_static_rx : bool;
  md_owned_rx : bool;
  md_rx_batch_cap : nat;
  md_reconnect_generation : Z;
  md_proxied : bool }.

(** [rx_batch_size]: the variable's value if it is one of four, else the default. *)
Definition rx_batch_size (env : option Z) : nat :=
  match env with
  | Some n => if (n =? 16) || (n =? 32) || (n =? 64) || (n =? 128) then Z.to_nat n else RX_ACTOR_BATCH_CAP
  | None => RX_ACTOR_BATCH_CAP
  end.

(** [owned_env] is [TLSVPN_RX_OWNED != "0"]. *)
Definition rx_mode `{FrameChannel} (conf : ClientConf) (cl : Client) (keys : link_keys) (rx_bypass owned_env : bool) (batch_env : option Z)
    (generation : Z) : RxMode :=
  let fec := use_xor_fec conf cl in
  let static_rx := bool_decide (ct_rx_actor cl = None) && (cc_conns_count conf =? 1) && negb fec && rx_bypass in
  {| md_ic_rx := lk_ic_rx keys; md_use_xor_fec := fec; md_conns_count := cc_conns_count conf; md_rx_bypass := rx_bypass;
     md_static_rx := static_rx; md_owned_rx := static_rx && owned_env; md_rx_batch_cap := rx_batch_size batch_env;
     md_reconnect_generation := generation; md_proxied := cc_socks5 conf |}.
Definition ClientRx_new `{FrameChannel} (cl : Client) (lazy : bool) (batch_env : option Z) : ClientRx :=
  {| lr_scanner := FrameScanner_new lazy; lr_reader := [];
     lr_producer := (fun a => producer a (rx_batch_size batch_env)) <$> ct_rx_actor cl;
     lr_fec_data := []; lr_reorder_input := []; lr_owned_input := [] |}.

Inductive rx_close :=
| ActorError (e : rx_error) | SequenceExhausted | GenerationChanged | PollFailed
| ReadEof | BadPackets | ReadFailed | ActorQueueClosed | ControlWithoutNegotiation
| ControlRejected (e : fec_error) | ScannerFailed (e : io_error) | SendingHalf (r : tx_close).

Section ClientRx.
Context `{FrameChannel} `{CryptoPrims} `{Rustls}.
Context (p : cpu) (vec_grow : Z -> Z) (vec : frame -> FrameVec).
Context (PADDING_CACHE : list Z) (mode : pad_mode).

(** An answer of [read_tls] with the [process_new_packets] that follows it: the
    plaintext that becomes readable and what the packets do to the sending half of
    rustls (an alert or a key update may be queued). *)
Inductive tls_read :=
| TData (process : tls -> tls) (plain : list read_event) | TEof | TBadPackets (process : tls -> tls) | TBlock | TTimedOut | TFail.

(** The state of one turn; [rt_reason] is [close_reason] with [conn_closed]. *)
Record rx_turn := {
  rt_shared : ClientShared;
  rt_link : ClientRx;
  rt_tls : tls;
  rt_last_rx : Z;
  rt_bytes : Z;
  rt_packets : Z;
  rt_reason : option rx_close }.

Definition sh_set (sh : ClientShared) (cl : Client) (td : TapDelivery) : ClientShared :=
  {| sh_client := cl; sh_delivery := td; sh_force_generation := sh_force_generation sh; sh_instance_id := sh_instance_id sh;
     sh_rx_bytes := sh_rx_bytes sh; sh_rx_packets := sh_rx_packets sh; sh_live_conns := sh_live_conns sh |}.
Definition lr_set_batches (l : ClientRx) (fec_data reorder_input : list (Z * frame)) (owned : list (Z * FrameVec)) : ClientRx :=
  {| lr_scanner := lr_scanner l; lr_reader := lr_reader l; lr_producer := lr_producer l; lr_fec_data := fec_data;
     lr_reorder_input := reorder_input; lr_owned_input := owned |}.
Definition lr_set_io (l : ClientRx) (sc : FrameScanner) (rd : list read_event) (pr : option RxProducer) : ClientRx :=
  {| lr_scanner := sc; lr_reader := rd; lr_producer := pr; lr_fec_data := lr_fec_data l;
     lr_reorder_input := lr_reorder_input l; lr_owned_input := lr_owned_input l |}.
Definition rt_set (c : rx_turn) (sh : ClientShared) (l : ClientRx) : rx_turn :=
  {| rt_shared := sh; rt_link := l; rt_tls := rt_tls c; rt_last_rx := rt_last_rx c; rt_bytes := rt_bytes c;
     rt_packets := rt_packets c; rt_reason := rt_reason c |}.
Definition rt_set_link (c : rx_turn) (l : ClientRx) : rx_turn := rt_set c (rt_shared c) l.
Definition rt_count (c : rx_turn) (n : nat) : rx_turn :=
  {| rt_shared := rt_shared c; rt_link := rt_link c; rt_tls := rt_tls c; rt_last_rx := rt_last_rx c;
     rt_bytes := u64_sat_add (rt_bytes c) (Z.of_nat n + 10); rt_packets := u64_sat_add (rt_packets c) 1; rt_reason := rt_reason c |}.
Definition rt_close (c : rx_turn) (r : rx_close) : rx_turn :=
  {| rt_shared := rt_shared c; rt_link := rt_link c; rt_tls := rt_tls c; rt_last_rx := rt_last_rx c; rt_bytes := rt_bytes c;
     rt_packets := rt_packets c; rt_reason := Some r |}.
(** Ciphertext arrived. *)
Definition rt_received (c : rx_turn) (process : tls -> tls) (plain : list read_event) (now : Z) : rx_turn :=
  let l := rt_link c in
  {| rt_shared := rt_shared c; rt_link := lr_set_io l (lr_scanner l) (lr_reader l ++ plain) (lr_producer l);
     rt_tls := process (rt_tls c); rt_last_rx := now; rt_bytes := rt_bytes c; rt_packets := rt_packets c;
     rt_reason := rt_reason c |}.

Definition ct_set_dec (cl : Client) (d : option FecDecoder) : Client := ct_set cl (ct_session cl) (ct_tx_port cl) d.
Definition ct_set_rekey (cl : Client) (rekeying : bool) : Client :=
  {| ct_session := ct_session cl; ct_tx_port := ct_tx_port cl; ct_rx_actor := ct_rx_actor cl; ct_fec_dec := ct_fec_dec cl;
     ct_reorder_buf := ct_reorder_buf cl; ct_dedup := ct_dedup cl; ct_identity := ct_identity cl; ct_files := ct_files cl;
     ct_fec_recovered_lifetime := ct_fec_recovered_lifetime cl; ct_fec_lost_lifetime := ct_fec_lost_lifetime cl;
     ct_assigned_v4 := ct_assigned_v4 cl; ct_assigned_v6 := ct_assigned_v6 cl; ct_fec_status := ct_fec_status cl;
     ct_enc_algo_display := ct_enc_algo_display cl; ct_sequence_rekeying := rekeying |}.

Definition reorder_now (now : Z) : Z := now / 1000.

(** [fec_dec] of a turn: the decoder is shared with the client, so it is read there. *)
Definition turn_dec (md : RxMode) (sh : ClientShared) (l : ClientRx) : option FecDecoder :=
  match lr_producer l with
  | None => if md_use_xor_fec md then ct_fec_dec (sh_client sh) else None
  | Some _ => None
  end.

(** ** Batches *)

Definition rt_flush (md : RxMode) (c : rx_turn) (now : Z) : rx_turn :=
  let sh := rt_shared c in
  let cl := sh_client sh in
  let l := rt_link c in
  let dec := turn_dec md sh l in
  let '(dec', rb, td, _) := flush_client_rx_batch p vec (md_conns_count md) (md_rx_bypass md) dec (ct_reorder_buf cl)
                              (sh_delivery sh) (reorder_now now) (lr_fec_data l) (lr_reorder_input l) in
  let cl := match dec' with Some _ => ct_set_dec cl dec' | None => cl end in
  rt_set c (sh_set sh (ct_set_rx cl (ct_rx_actor cl) rb (ct_dedup cl)) td)
    (lr_set_batches l [] [] (lr_owned_input l)).
Definition rt_flush_owned (c : rx_turn) (now : Z) : rx_turn :=
  let sh := rt_shared c in
  let cl := sh_client sh in
  let l := rt_link c in
  let '(rb, td, _) := flush_owned_client_rx_batch vec (ct_reorder_buf cl) (sh_delivery sh) (reorder_now now) (lr_owned_input l) in
  rt_set c (sh_set sh (ct_set_rx cl (ct_rx_actor cl) rb (ct_dedup cl)) td)
    (lr_set_batches l (lr_fec_data l) (lr_reorder_input l) []).

(** The actor's sink: [enqueue], then [acquire] of the next vector. *)
Definition deliver_reusing (td : TapDelivery) (ready : list frame) : TapDelivery :=
  match ready with [] => td | _ => (acquire (enqueue td (vec <$> ready)).1).1 end.
Definition rt_actor (c : rx_turn) (a : RxActorState) (pr : RxProducer) (ready : list frame) : rx_turn :=
  let sh := rt_shared c in
  let cl := sh_client sh in
  let l := rt_link c in
  rt_set c (sh_set sh (ct_set_rx cl (Some a) (ct_reorder_buf cl) (ct_dedup cl)) (deliver_reusing (sh_delivery sh) ready))
    (lr_set_io l (lr_scanner l) (lr_reader l) (Some pr)).

(** ** One frame *)

Definition open_rx (ic : option InnerCipher) (raw : list Z) (seq : Z) : option (list Z) :=
  if negb (seq =? 0) then
    match ic with
    | Some ic => open_in_place ic raw seq (u32_wrap (zlen raw))
    | None => Some raw
    end
  else Some raw.

Definition on_owned (md : RxMode) (c : rx_turn) (seq : Z) (data : list Z) (now : Z) : rx_turn :=
  let l := rt_link c in
  let owned := lr_owned_input l ++ [(seq, vec data)] in
  let c := rt_set_link c (lr_set_batches l (lr_fec_data l) (lr_reorder_input l) owned) in
  if (md_rx_batch_cap md <=? length owned)%nat then rt_flush_owned c now else c.

Definition on_shared (md : RxMode) (c : rx_turn) (seq : Z) (data : list Z) (now : Z) : rx_turn :=
  let sh := rt_shared c in
  let cl := sh_client sh in
  let l := rt_link c in
  let fec_data := match turn_dec md sh l with Some _ => lr_fec_data l ++ [(seq, data)] | None => lr_fec_data l end in
  let '(dd, duplicate) := if md_static_rx md then (ct_dedup cl, false) else is_duplicate (ct_dedup cl) seq in
  let reorder_input := if duplicate then lr_reorder_input l else lr_reorder_input l ++ [(seq, data)] in
  let c := rt_set c (sh_set sh (ct_set_rx cl (ct_rx_actor cl) (ct_reorder_buf cl) dd) (sh_delivery sh))
             (lr_set_batches l fec_data reorder_input (lr_owned_input l)) in
  if (md_rx_batch_cap md <=? length fec_data)%nat || (md_rx_batch_cap md <=? length reorder_input)%nat then rt_flush md c now else c.

(** A control without the actor. *)
Definition on_control_frame (md : RxMode) (c : rx_turn) (data : list Z) : rx_turn * bool :=
  let sh := rt_shared c in
  let cl := sh_client sh in
  let l := rt_link c in
  match turn_dec md sh l with
  | None => (rt_close c ControlWithoutNegotiation, false)
  | Some d =>
      match on_control p d (Some (rb_expected_seq (ct_reorder_buf cl))) data with
      | (d, Ok r) =>
          (rt_set c (sh_set sh (ct_set_dec cl (Some d)) (sh_delivery sh))
             (lr_set_batches l (lr_fec_data l) (lr_reorder_input l ++ option_list r) (lr_owned_input l)), true)
      | (d, Err e) => (rt_close (rt_set c (sh_set sh (ct_set_dec cl (Some d)) (sh_delivery sh)) l) (ControlRejected e), false)
      end
  end.

(** [false] in the result leaves ['socket_read]. *)
Definition on_rx_frame (md : RxMode) (c : rx_turn) (raw : list Z) (seq now : Z) : rx_turn * bool :=
  if bool_decide (raw = []) then (c, true)
  else
    let c := rt_count c (length raw) in
    match open_rx (md_ic_rx md) raw seq with
    | None => (c, true)
    | Some data =>
        if md_owned_rx md && negb (seq =? 0) then (on_owned md c seq data now, true)
        else
          match lr_producer (rt_link c), ct_rx_actor (sh_client (rt_shared c)) with
          | Some pr, Some a =>
              let '(a, pr, ready, ok) :=
                producer_push p a pr {| rf_seq := seq; rf_data := data; rf_now := reorder_now now |} in
              let c := rt_actor c a pr ready in
              if ok then (c, true) else (rt_close c ActorQueueClosed, false)
          | Some _, None => (rt_close c ActorQueueClosed, false)
          | None, _ => if seq =? 0 then on_control_frame md c data else (on_shared md c seq data now, true)
          end
    end.

(** ** Draining the socket *)

(** The inner [loop]; [None] is a loop that was cut off. *)
Fixpoint frame_loop (turns : nat) (md : RxMode) (c : rx_turn) (now : Z) : option (rx_turn * bool) :=
  match turns with
  | O => None
  | S turns =>
      let l := rt_link c in
      let '(sc, rd, r) := read_frame vec_grow (lr_scanner l) (lr_reader l) in
      let c := rt_set_link c (lr_set_io l sc rd (lr_producer l)) in
      match r with
      | Ok (Some (raw, seq)) =>
          let '(c, go) := on_rx_frame md c raw seq now in
          if go then frame_loop turns md c now else Some (c, false)
      | Ok None => Some (c, true)
      | Err e => Some (rt_close c (ScannerFailed e), false)
      end
  end.
(** Bytes that can still become frames; a frame takes at least ten. *)
Definition rx_unread (l : ClientRx) : nat :=
  (length (fs_buffer (lr_scanner l)) - fs_offset (lr_scanner l) + length (reader_bytes (lr_reader l)))%nat.
Definition drain_frames (md : RxMode) (c : rx_turn) (now : Z) : option (rx_turn * bool) :=
  frame_loop (S (rx_unread (rt_link c))) md c now.

(** ['socket_read]: the socket's answers; an exhausted list is a socket that blocks. *)
Fixpoint client_socket_read (md : RxMode) (c : rx_turn) (reads : list tls_read) (now : Z) : option rx_turn :=
  match reads with
  | [] | TBlock :: _ | TTimedOut :: _ => Some c
  | TEof :: _ => Some (rt_close c ReadEof)
  | TFail :: _ => Some (rt_close c ReadFailed)
  | TBadPackets process :: _ => Some (rt_close (rt_received c process [] now) BadPackets)
  | TData process plain :: reads =>
      match drain_frames md (rt_received c process plain now) now with
      | Some (c, true) => client_socket_read md c reads now
      | Some (c, false) => Some c
      | None => None
      end
  end.

(** After the socket: the actor is flushed and asked for its error, or the batches are
    flushed, the owned one first. *)
Definition rx_finish (md : RxMode) (c : rx_turn) (now : Z) : rx_turn :=
  match lr_producer (rt_link c) with
  | Some pr =>
      match ct_rx_actor (sh_client (rt_shared c)) with
      | None => rt_close c ActorQueueClosed
      | Some a =>
          let '(a, pr, ready, ok) := producer_flush p a pr in
          let '(pr, err) := take_error pr in
          let c := rt_actor c a pr ready in
          let c := if ok then c else rt_close c ActorQueueClosed in
          match err with Some e => rt_close c (ActorError e) | None => c end
      end
  | None => rt_flush md (rt_flush_owned c now) now
  end.
(** The shared counters. *)
Definition rx_account (c : rx_turn) : ClientShared :=
  let sh := rt_shared c in
  if negb (rt_packets c =? 0) then
    {| sh_client := sh_client sh; sh_delivery := sh_delivery sh; sh_force_generation := sh_force_generation sh;
       sh_instance_id := sh_instance_id sh; sh_rx_bytes := u64_wrap (sh_rx_bytes sh + rt_bytes c);
       sh_rx_packets := u64_wrap (sh_rx_packets sh + rt_packets c); sh_live_conns := sh_live_conns sh |}
  else sh.

(** ** A turn of the loop *)

Record ClientLoop := {
  dl_shared : ClientShared;
  dl_rx : ClientRx;
  dl_tx : ClientTx;
  dl_next_rtt_refresh : Z;
  (** [ci.rx_bytes], the connection's own counter *)
  dl_conn_rx_bytes : Z }.
(** What the outside answers during a turn: the clock, the poller (woken and readable,
    or an error), the socket's reads and writes, the kernel's round-trip time if it has
    one, a fresh instance id and the outcomes of the socket options. *)
Record turn_input := {
  tn_now : Z;
  tn_poll : option (bool * bool);
  tn_reads : list tls_read;
  tn_writes : list sock_event;
  tn_rtt : option Z;
  tn_random_id : text;
  tn_cork_ok : bool; tn_reg_ok : bool; tn_restore_ok : bool }.

(** The checks at the top. *)
Definition take_producer_error (l : ClientRx) : ClientRx * option rx_error :=
  match lr_producer l with
  | Some pr => let '(pr, e) := take_error pr in (lr_set_io l (lr_scanner l) (lr_reader l) (Some pr), e)
  | None => (l, None)
  end.
(** The first connection to notice the end of the sequence space rotates the instance
    and makes all of them reconnect. *)
Definition rotate_instance (sh : ClientShared) (random_id : text) : ClientShared :=
  if ct_sequence_rekeying (sh_client sh) then sh
  else
    {| sh_client := ct_set_rekey (sh_client sh) true; sh_delivery := sh_delivery sh;
       sh_force_generation := u64_wrap (sh_force_generation sh + 1); sh_instance_id := random_id;
       sh_rx_bytes := sh_rx_bytes sh; sh_rx_packets := sh_rx_packets sh; sh_live_conns := sh_live_conns sh |}.
Definition loop_guard (md : RxMode) (sh : ClientShared) (l : ClientRx) (random_id : text)
  : ClientShared * ClientRx * option rx_close :=
  let '(l, err) := take_producer_error l in
  match err with
  | Some e => (sh, l, Some (ActorError e))
  | None =>
      if po_sequence_exhausted (ct_tx_port (sh_client sh)) then (rotate_instance sh random_id, l, Some SequenceExhausted)
      else if negb (sh_force_generation sh =? md_reconnect_generation md) then (sh, l, Some GenerationChanged)
      else (sh, l, None)
  end.

(** How long the poller may sleep. *)
Definition reorder_wait (sh : ClientShared) (l : ClientRx) (now : Z) : option Z :=
  match lr_producer l with None => next_timeout (ct_reorder_buf (sh_client sh)) (reorder_now now) | Some _ => None end.
Definition client_poll_timeout (md : RxMode) (d : ClientLoop) (now : Z) : Z :=
  let t := SECOND in
  let t := if md_proxied md then t else Z.min t (Z.max 0 (dl_next_rtt_refresh d - now)) in
  let t := match reorder_wait (dl_shared d) (dl_rx d) now with Some w => Z.min t (1000 * w) | None => t end in
  let t := match cork_next_timeout (cx_batch_cork (dl_tx d)) now with Some w => Z.min t w | None => t end in
  clamp_poll_for_tx_backlog t (negb (backend_tx_is_empty (cx_backend (dl_tx d)) (cx_rx (dl_tx d)))) (wants_write (cx_tls (dl_tx d))).

Definition refresh_rtt (md : RxMode) (tx : ClientTx) (next now : Z) (rtt : option Z) : ClientTx * Z :=
  if negb (md_proxied md) && (next <=? now) then
    (match rtt with
     | Some r => if 0 <? r then cx_set_settled tx (be_set_rtt (cx_backend tx) r) (cx_queued_payload_pending tx) else tx
     | None => tx
     end, now + 200000)
  else (tx, next).

(** A gap that was open before the poll is looked at again after it. *)
Definition flush_gap (sh : ClientShared) (l : ClientRx) (now : Z) : ClientShared :=
  match lr_producer l, rb_gap_since (ct_reorder_buf (sh_client sh)) with
  | None, Some _ =>
      let cl := sh_client sh in
      let '(rb, td, _) := flush_reorder_to_tap vec (ct_reorder_buf cl) (sh_delivery sh) (reorder_now now) in
      sh_set sh (ct_set_rx cl (ct_rx_actor cl) rb (ct_dedup cl)) td
  | _, _ => sh
  end.

(** The receiving half of a turn. *)
Definition client_rx_turn (md : RxMode) (sh : ClientShared) (l : ClientRx) (t : tls) (last_rx : Z) (readable : bool)
    (reads : list tls_read) (now : Z) : option rx_turn :=
  let c := {| rt_shared := flush_gap sh l now; rt_link := l; rt_tls := t; rt_last_rx := last_rx; rt_bytes := 0;
              rt_packets := 0; rt_reason := None |} in
  (fun c => rx_finish md c now) <$> (if readable then client_socket_read md c reads now else Some c).

(** The sending half runs on the same TLS session. *)
Definition cx_enter (tx : ClientTx) (t : tls) (sock : list sock_event) (last_rx : Z) : ClientTx :=
  {| cx_tls := t; cx_socket := sock; cx_backend := cx_backend tx; cx_rx := cx_rx tx; cx_rand := cx_rand tx;
     cx_queued_payload_pending := cx_queued_payload_pending tx; cx_batch_cork := cx_batch_cork tx;
     cx_write_blocked := cx_write_blocked tx; cx_last_keepalive := cx_last_keepalive tx;
     cx_last_write_progress := cx_last_write_progress tx; cx_last_rx := last_rx;
     cx_conn_tx_bytes := cx_conn_tx_bytes tx; cx_stats := cx_stats tx |}.

(** One turn; the reason ends the loop. *)
Definition client_turn (md : RxMode) (ic_tx : option InnerCipher) (pad_record_limit : Z) (d : ClientLoop) (i : turn_input)
  : option (ClientLoop * option rx_close) :=
  let '(sh, l, stop) := loop_guard md (dl_shared d) (dl_rx d) (tn_random_id i) in
  let d := {| dl_shared := sh; dl_rx := l; dl_tx := dl_tx d; dl_next_rtt_refresh := dl_next_rtt_refresh d;
              dl_conn_rx_bytes := dl_conn_rx_bytes d |} in
  match stop, tn_poll i with
  | Some r, _ => Some (d, Some r)
  | None, None => Some (d, Some PollFailed)
  | None, Some (woken, readable) =>
      let now := tn_now i in
      let tx := cx_set_cork (dl_tx d) (maybe_flush (cx_batch_cork (dl_tx d)) now (tn_cork_ok i)) in
      let '(tx, next) := refresh_rtt md tx (dl_next_rtt_refresh d) now (tn_rtt i) in
      c ← client_rx_turn md sh l (cx_tls tx) (cx_last_rx tx) readable (tn_reads i) now;
      '(tx, tx_reason) ← client_tx_turn PADDING_CACHE mode ic_tx (cx_enter tx (rt_tls c) (tn_writes i) (rt_last_rx c)) woken
                           (bool_decide (is_Some (rt_reason c))) pad_record_limit now (tn_cork_ok i) (tn_reg_ok i) (tn_restore_ok i);
      Some ({| dl_shared := rx_account c; dl_rx := rt_link c; dl_tx := tx; dl_next_rtt_refresh := next;
               dl_conn_rx_bytes := if negb (rt_packets c =? 0) then u64_wrap (dl_conn_rx_bytes d + rt_bytes c) else dl_conn_rx_bytes d |},
            match tx_reason with Some r => Some (SendingHalf r) | None => rt_reason c end)
  end.

(** [while !conn_closed]; the list ends when the process exits. *)
Fixpoint client_loop (md : RxMode) (ic_tx : option InnerCipher) (pad_record_limit : Z) (d : ClientLoop) (inputs : list turn_input)
  : option (ClientLoop * option rx_close) :=
  match inputs with
  | [] => Some (d, None)
  | i :: inputs =>
      match client_turn md ic_tx pad_record_limit d i with
      | Some (d, None) => client_loop md ic_tx pad_record_limit d inputs
      | r => r
      end
  end.

(** After the loop: TLS is closed and the connection leaves the port. *)
Definition client_end (d : ClientLoop) (sock : list sock_event) (cork_ok : bool) : ClientLoop :=
  let tx := cx_set_cork (dl_tx d) (cork_close (cx_batch_cork (dl_tx d)) cork_ok) in
  let tx := cx_set_io tx (close_drain (send_close_notify (cx_tls tx)) sock) sock (cx_last_write_progress tx) (cx_write_blocked tx) in
  let sh := dl_shared d in
  let cl := sh_client sh in
  let cl := ct_set cl (ct_session cl) (unregister_backend (ct_tx_port cl) (be_ch (cx_backend tx))) (ct_fec_dec cl) in
  {| dl_shared := {| sh_client := cl; sh_delivery := sh_delivery sh; sh_force_generation := sh_force_generation sh;
                     sh_instance_id := sh_instance_id sh; sh_rx_bytes := sh_rx_bytes sh; sh_rx_packets := sh_rx_packets sh;
                     sh_live_conns := sh_live_conns sh - 1 |};
     dl_rx := dl_rx d; dl_tx := tx; dl_next_rtt_refresh := dl_next_rtt_refresh d; dl_conn_rx_bytes := dl_conn_rx_bytes d |}.
End ClientRx.
