(* ===== verification/ClientRxSpec.v ===== *)
(** * What the client's data loop guarantees

    Every turn ends; on a single connection without FEC the TAP device gets exactly the
    payloads the server queued, in order, however the transport cuts the stream. *)
From S2P Require Import Prelude Protocol Utils Crypto Frame Xor Fec Buffer Reorder ReorderSpec RxActor Adaptive Queue Port Cork Pool Brutal PeerInfo Session Hooks TapDelivery Client Reader ReaderSpec Writer WriterSpec WriterRun StreamSpec ClientRx.

Lemma sublist_full {A} (l k : list A) : l `sublist_of` k -> (length k <= length l)%nat -> l = k.
Proof.
  induction 1 as [|x l k _ IH|x l k Hs _]; cbn [length]; intros Hl; [done|f_equal; apply IH; lia|].
  apply sublist_length in Hs. lia.
Qed.

Section ClientRxSpec.
Context `{FrameChannel} `{CryptoLaws} `{Rustls}.
Context (p : cpu) (vec_grow : Z -> Z) (vec : frame -> FrameVec) (PADDING_CACHE : list Z) (mode : pad_mode).

Abbreviation turn_on md c raw seq now := (on_rx_frame p vec md c raw seq now).

(** ** The turns end *)

(** A frame does not touch what is still to be read, nor the sending half of TLS. *)
Record same_io (c c' : rx_turn) : Prop := {
  si_scanner : lr_scanner (rt_link c') = lr_scanner (rt_link c);
  si_reader : lr_reader (rt_link c') = lr_reader (rt_link c);
  si_tls : rt_tls c' = rt_tls c }.
Lemma same_io_trans c1 c2 c3 : same_io c1 c2 -> same_io c2 c3 -> same_io c1 c3.
Proof. intros [E1 E2 E3] [E4 E5 E6]. split; congruence. Qed.
Lemma rt_flush_io md c now : same_io c (rt_flush p vec md c now).
Proof. unfold rt_flush. by destruct (flush_client_rx_batch _ _ _ _ _ _ _ _ _ _) as [[[d rb] td] rel]. Qed.
Lemma rt_flush_owned_io c now : same_io c (rt_flush_owned vec c now).
Proof. unfold rt_flush_owned. by destruct (flush_owned_client_rx_batch _ _ _ _ _) as [[rb td] rel]. Qed.
Lemma on_shared_io md c seq data now : same_io c (on_shared p vec md c seq data now).
Proof.
  unfold on_shared. destruct (if md_static_rx md then _ else _) as [dd dup]. cbv zeta.
  destruct (_ || _); [|done]. eapply same_io_trans; [|apply rt_flush_io]. done.
Qed.
Lemma on_owned_io md c seq data now : same_io c (on_owned vec md c seq data now).
Proof. unfold on_owned. cbv zeta. destruct (_ <=? _)%nat; [|done]. eapply same_io_trans; [|apply rt_flush_owned_io]. done. Qed.
Lemma on_control_io md c data : same_io c (on_control_frame p md c data).1.
Proof. unfold on_control_frame. cbv zeta. destruct (turn_dec _ _ _) as [d|]; [|done]. by destruct (on_control _ _ _ _) as [d' [r|e]]. Qed.
Lemma on_rx_frame_io md c raw seq now : same_io c (turn_on md c raw seq now).1.
Proof.
  unfold on_rx_frame. destruct (bool_decide _); [done|]. cbv zeta. destruct (open_rx _ _ _) as [data|]; [|done].
  assert (Hc : same_io c (rt_count c (length raw))) by done.
  destruct (_ && _); [eapply same_io_trans; [exact Hc|apply on_owned_io]|].
  destruct (lr_producer _) as [pr|]; [destruct (ct_rx_actor _) as [a|]|].
  - destruct (producer_push _ _ _ _) as [[[a' pr'] ready] ok]. by destruct ok.
  - done.
  - destruct (seq =? 0); (eapply same_io_trans; [exact Hc|]); [apply on_control_io|apply on_shared_io].
Qed.

Lemma frame_loop_total turns md c now :
  (rx_unread (rt_link c) < turns)%nat -> is_Some (frame_loop p vec_grow vec turns md c now).
Proof.
  revert c. induction turns as [|turns IH]; intros c Hu; [lia|]. cbn [frame_loop]. cbv zeta. unfold read_frame.
  destruct (read_loop _ _ _ _) as [[sc rd'] r] eqn:Er. destruct r as [[[raw seq]|]|e]; [|done|done].
  apply read_loop_unread in Er. set (c1 := rt_set_link c _).
  pose proof (on_rx_frame_io md c1 raw seq now) as Hs. destruct (on_rx_frame _ _ _ _ _ _ _) as [c2 go]. destruct go; [|done].
  destruct Hs as [E1 E2 _]. cbn [fst] in *. apply IH. unfold rx_unread, unread in *. rewrite E1, E2. subst c1. cbn [rt_set_link rt_set rt_link lr_set_io lr_scanner lr_reader] in *. lia.
Qed.
Lemma socket_read_total md c reads now : is_Some (client_socket_read p vec_grow vec md c reads now).
Proof.
  revert c. induction reads as [|[process plain| |process| | |] reads IH]; intros c; cbn [client_socket_read]; try done.
  unfold drain_frames. destruct (frame_loop_total (S (rx_unread (rt_link (rt_received c process plain now)))) md
    (rt_received c process plain now) now) as [[c' go] ->]; [lia|]. by destruct go.
Qed.

(** The client's data loop never hangs: every turn returns, whatever the socket, the
    poller, the actor and the queues hold, and so does any number of turns. *)
Lemma client_turn_total md ic_tx limit d i : is_Some (client_turn p vec_grow vec PADDING_CACHE mode md ic_tx limit d i).
Proof.
  unfold client_turn. destruct (loop_guard _ _ _ _) as [[sh l] [r|]]; [done|]. cbv zeta.
  destruct (tn_poll i) as [[woken readable]|]; [|done]. destruct (refresh_rtt _ _ _ _ _) as [tx next].
  unfold client_rx_turn. cbv zeta.
  match goal with |- context [client_socket_read p vec_grow vec md ?c ?reads ?now] =>
    destruct (socket_read_total md c reads now) as [c1 Hc1]; assert (Hx : is_Some (if readable then client_socket_read p vec_grow vec md c reads now else Some c))
      by (rewrite Hc1; by destruct readable) end.
  destruct Hx as [c2 ->]. cbn [fmap option_fmap option_map mbind option_bind].
  match goal with |- context [client_tx_turn ?a ?b ?c ?d ?e ?f ?g ?h ?i ?j ?k] =>
    destruct (client_tx_turn_total a b c d e f g h i j k) as [[tx' reason] ->] end. done.
Qed.
Theorem client_loop_terminates md ic_tx limit d inputs :
  is_Some (client_loop p vec_grow vec PADDING_CACHE mode md ic_tx limit d inputs).
Proof.
  revert d. induction inputs as [|i inputs IH]; intros d; [done|]. cbn [client_loop].
  destruct (client_turn_total md ic_tx limit d i) as [[d' [r|]] ->]; [done|apply IH].
Qed.

(** ** Deadlines and rotation *)

(** The poller never sleeps past a deadline: at most a second, not past the refresh of
    the round-trip time, the moment an open gap may be skipped (unless the actor owns
    the gap) or the flush of the cork, and not at all while frames are queued that TLS
    could take. *)
Theorem poll_respects_deadlines md d now :
  let t := client_poll_timeout md d now in
  t <= SECOND /\ (md_proxied md = false -> t <= Z.max 0 (dl_next_rtt_refresh d - now)) /\
  (forall since, lr_producer (dl_rx d) = None -> rb_gap_since (ct_reorder_buf (sh_client (dl_shared d))) = Some since ->
     t <= 1000 * Z.max 0 (REORDER_SKIP_DELAY - (reorder_now now - since))) /\
  (forall w, cork_next_timeout (cx_batch_cork (dl_tx d)) now = Some w -> t <= w \/ t = 0) /\
  (backend_tx_is_empty (cx_backend (dl_tx d)) (cx_rx (dl_tx d)) = false -> wants_write (cx_tls (dl_tx d)) = false -> t = 0).
Proof.
  intros t. subst t. unfold client_poll_timeout, clamp_poll_for_tx_backlog, reorder_wait, next_timeout, SECOND, sat_sub.
  set (r := cork_next_timeout _ _). set (b := backend_tx_is_empty _ _). set (ww := wants_write _).
  split_and!.
  - destruct (negb b && negb ww); [lia|]. repeat case_match; lia.
  - intros ->. destruct (negb b && negb ww); [lia|]. repeat case_match; lia.
  - intros since -> ->. cbn [fmap option_fmap option_map]. destruct (negb b && negb ww); [lia|]. repeat case_match; lia.
  - intros w ->. destruct (negb b && negb ww); [by right|left; lia].
  - by intros -> ->.
Qed.

(** The connections of a client, one after the other, at the top of their loops. *)
Fixpoint all_guards (sh : ClientShared) (conns : list (RxMode * ClientRx * text)) : ClientShared * list (option rx_close) :=
  match conns with
  | [] => (sh, [])
  | (md, l, id) :: conns =>
      let '(sh, _, stop) := loop_guard md sh l id in
      let '(sh, stops) := all_guards sh conns in (sh, stop :: stops)
  end.
Lemma guards_rotated sh conns :
  ct_sequence_rekeying (sh_client sh) = true -> po_sequence_exhausted (ct_tx_port (sh_client sh)) = true ->
  (all_guards sh conns).1 = sh /\ Forall is_Some (all_guards sh conns).2.
Proof.
  intros Hr He. induction conns as [|[[md l] id] conns IH]; [by split; [|constructor]|]. cbn [all_guards]. unfold loop_guard.
  destruct (take_producer_error l) as [l' [e|]].
  - destruct (all_guards sh conns) as [sh' stops]. cbn [fst snd] in *. destruct IH as [-> IH]. split; [done|]. by constructor.
  - rewrite He. unfold rotate_instance. rewrite Hr. destruct (all_guards sh conns) as [sh' stops]. cbn [fst snd] in *. destruct IH as [-> IH].
    split; [done|]. by constructor.
Qed.
(** When the sequence numbers are used up every connection stops, and however many of
    them notice it, the instance id is replaced once and the reconnect generation moves
    by one. *)
Theorem exhaustion_rotates_once sh md l id conns :
  ct_sequence_rekeying (sh_client sh) = false -> po_sequence_exhausted (ct_tx_port (sh_client sh)) = true ->
  (take_producer_error l).2 = None ->
  let '(sh', stops) := all_guards sh ((md, l, id) :: conns) in
  Forall is_Some stops /\ length stops = S (length conns) /\ sh_force_generation sh' = u64_wrap (sh_force_generation sh + 1) /\
  sh_instance_id sh' = id /\ ct_sequence_rekeying (sh_client sh') = true.
Proof.
  intros Hr He Hl. assert (Hlen : forall sh cs, length (all_guards sh cs).2 = length cs).
  { clear. intros sh cs. revert sh. induction cs as [|[[md l] id] cs IH]; intros sh; [done|]. cbn [all_guards].
    destruct (loop_guard md sh l id) as [[sh1 l1] stop]. specialize (IH sh1). destruct (all_guards sh1 cs). cbn in *. by rewrite IH. }
  cbn [all_guards]. unfold loop_guard. destruct (take_producer_error l) as [l' [e|]]; [done|]. rewrite He.
  assert (Hrot : ct_sequence_rekeying (sh_client (rotate_instance sh id)) = true /\ po_sequence_exhausted (ct_tx_port (sh_client (rotate_instance sh id))) = true)
    by (unfold rotate_instance; by rewrite Hr).
  destruct Hrot as [H1' H2']. destruct (guards_rotated _ conns H1' H2') as [E F]. specialize (Hlen (rotate_instance sh id) conns).
  destruct (all_guards (rotate_instance sh id) conns) as [sh' stops]. cbn [fst snd] in *. subst sh'.
  split_and!; [by constructor|by cbn; rewrite Hlen| | |done]; unfold rotate_instance; by rewrite Hr.
Qed.

(** ** The delivery queue as a log

    Of the payloads [P] offered so far, [sent] reached the device and the rest is queued
    or was refused by a full queue, which the counter records. *)
Definition tap_holds (sent P : list (list Z)) (td : TapDelivery) : Prop :=
  (sent ++ tap_queued td) `sublist_of` P /\ td_dropped td = u64_wrap (zlen P - zlen (sent ++ tap_queued td)).

Lemma tap_holds_offer sent P td Q td' :
  tap_holds sent P td -> TapDelivery.offered td Q td' -> tap_holds sent (P ++ Q) td'.
Proof.
  intros [Hs Hd] [Eq Ed]. unfold tap_holds. rewrite Eq. destruct (tap_full td).
  - rewrite app_nil_r. split; [by apply sublist_inserts_r|]. rewrite Ed, Hd, (length_app P Q). unfold u64_wrap.
    destruct Q as [|q Q]; [simpl; f_equal; lia|]. rewrite Zplus_mod_idemp_l. f_equal. lia.
  - rewrite app_assoc. split; [by apply sublist_app|].
    assert (Ed' : td_dropped td' = td_dropped td) by (by destruct Q). rewrite Ed', Hd, (length_app P Q), (length_app _ Q). f_equal. lia.
Qed.
Lemma tap_holds_worker sent P recycle td td' out rel :
  tap_holds sent P td -> worker_turn recycle td = Some (td', out, rel) -> tap_holds (sent ++ out) P td'.
Proof.
  intros Hh. unfold worker_turn. destruct (td_tx td) as [|w rest] eqn:Et; [done|].
  destruct (worker_send recycle (work_batch w)) as [[sent' kept] released] eqn:Ew.
  apply worker_send_spec in Ew as (-> & _). intros [= <- <- <-].
  assert (Eq : tap_queued td = (fv_data <$> work_batch w) ++ concat ((fun w => fv_data <$> work_batch w) <$> rest))
    by (unfold tap_queued; by rewrite Et).
  unfold tap_holds in *. rewrite Eq, app_assoc in Hh. by destruct w.
Qed.
Lemma tap_holds_exact sent P td :
  tap_holds sent P td -> zlen P <= U64_MAX -> td_dropped td = 0 -> sent ++ tap_queued td = P.
Proof.
  intros [Hs Hd] HP E. pose proof (sublist_length _ _ Hs). rewrite E in Hd. unfold u64_wrap in Hd. rewrite Z.mod_small in Hd by (unfold_ints; lia).
  apply sublist_full; [done|lia].
Qed.


(** ** A single connection without FEC *)

Section Single.
Context (md : RxMode) (vec_data : forall f, fv_data (vec f) = f).

Record single_mode : Prop := {
  sg_fec : md_use_xor_fec md = false;
  sg_conns : md_conns_count md = 1;
  sg_bypass : md_rx_bypass md = true;
  sg_static : md_static_rx md = true }.
Context (single : single_mode).

(** The frames of the batch in use, on the owned or on the shared path. *)
Definition pending (l : ClientRx) : list (Z * frame) :=
  if md_owned_rx md then prod_map id fv_data <$> lr_owned_input l else lr_reorder_input l.

(** The payloads [P] were received: some wait in the batch, the others were offered. *)
Record rx_ready (sh : ClientShared) (l : ClientRx) (sent P : list (list Z)) (nxt : Z) : Prop := {
  ry_producer : lr_producer l = None;
  ry_fec : lr_fec_data l = [];
  ry_idle : if md_owned_rx md then lr_reorder_input l = [] else lr_owned_input l = [];
  ry_payload : Forall (fun x : Z * frame => x.2 <> []) (pending l);
  ry_step : in_step (ct_reorder_buf (sh_client sh)) (pending l).*1 nxt;
  ry_tap : exists Q, P = Q ++ (pending l).*2 /\ tap_holds sent Q (sh_delivery sh) }.
Abbreviation ready_at c := (rx_ready (rt_shared c) (rt_link c)).


Lemma owned_ready c now sent P nxt :
  ready_at c sent P nxt ->
  let c' := rt_flush_owned vec c now in
  ready_at c' sent P nxt /\ lr_owned_input (rt_link c') = [] /\ lr_reorder_input (rt_link c') = lr_reorder_input (rt_link c) /\
  rt_reason c' = rt_reason c.
Proof.
  intros [Hp Hf Hi Hpl Hs (Q & EQ & Ht)] c'. subst c'. unfold rt_flush_owned, flush_owned_client_rx_batch.
  destruct (decide (lr_owned_input (rt_link c) = [])) as [E|Hne].
  { rewrite E. cbn. split_and!; [|done..]. split; cbn; [done..| | | |].
    all: unfold pending in *; cbn in *; rewrite ?E in *; try done. by exists Q. }
  assert (Ho : md_owned_rx md = true) by (by destruct (md_owned_rx md)).
  unfold pending in Hpl, Hs, EQ. rewrite Ho in Hi, Hpl, Hs, EQ.
  destruct (owned_offers vec (ct_reorder_buf (sh_client (rt_shared c))) (sh_delivery (rt_shared c)) (reorder_now now) _ vec_data Hne)
    as (rb1 & r1 & E1 & F1 & O1).
  destruct (in_step_direct _ _ _ Hs) as (rb' & Hd & Hs'); [by destruct (lr_owned_input (rt_link c))|done|].
  rewrite Hd in E1. injection E1 as -> ->. destruct (flush_owned_frames _ _ _ _ _) as [[rb2 td2] rel]. cbn [fst snd] in F1, O1. subst rb2.
  cbn. split_and!; [|done..]. split; unfold pending; cbn; rewrite ?Ho; cbn; try done.
  exists P. rewrite app_nil_r. split; [done|]. subst P. by eapply tap_holds_offer.
Qed.

Lemma shared_ready c now sent P nxt :
  ready_at c sent P nxt ->
  let c' := rt_flush p vec md c now in
  ready_at c' sent P nxt /\ lr_reorder_input (rt_link c') = [] /\ lr_owned_input (rt_link c') = lr_owned_input (rt_link c) /\
  rt_reason c' = rt_reason c.
Proof.
  intros [Hp Hf Hi Hpl Hs (Q & EQ & Ht)] c'. subst c'. destruct single as [Sf Sc Sb Ss]. unfold rt_flush, turn_dec. rewrite Hp, Sf, Hf.
  destruct (decide (lr_reorder_input (rt_link c) = [])) as [E|Hne].
  { rewrite E. cbn. split_and!; [|done..]. split; cbn; [done..| | | |].
    all: unfold pending in *; cbn in *; rewrite ?E in *; try done. by exists Q. }
  assert (Ho : md_owned_rx md = false) by (by destruct (md_owned_rx md)).
  unfold pending in Hpl, Hs, EQ. rewrite Ho in Hi, Hpl, Hs, EQ.
  destruct (shared_offers p vec 1 true (ct_reorder_buf (sh_client (rt_shared c))) (sh_delivery (rt_shared c)) (reorder_now now) _ vec_data Hne)
    as (rb1 & r1 & E1 & F1 & O1).
  destruct (in_step_direct _ _ _ Hs) as (rb' & Hd & Hs'); [done|done|].
  cbn [Z.eqb Pos.eqb andb] in E1. rewrite Hd in E1. injection E1 as -> ->. rewrite Sc, Sb.
  destruct (flush_client_rx_batch _ _ _ _ _ _ _ _ _ _) as [[[d2 rb2] td2] rel] eqn:Ef. cbn [fst snd] in F1, O1. subst rb2.
  assert (d2 = None) as ->.
  { revert Ef. unfold flush_client_rx_batch. rewrite app_nil_r. destruct (lr_reorder_input (rt_link c)); [done|].
    repeat case_match; by intros [= <- _ _ _]. }
  split_and!; [|done..]. split; unfold pending; cbn; rewrite ?Ho; cbn; try done.
  exists P. rewrite app_nil_r. split; [done|]. subst P. by eapply tap_holds_offer.
Qed.

Lemma open_rx_wire ic seq data :
  seq <> 0 -> data <> [] -> zlen (wire_payload seq data ic) <= U32_MAX -> open_rx ic (wire_payload seq data ic) seq = Some data.
Proof. intros Hs Hd Hl. unfold open_rx. rewrite (proj2 (Z.eqb_neq _ _) Hs). by apply wire_opens. Qed.

Lemma frame_ready c data now sent P nxt :
  ready_at c sent P nxt -> data <> [] -> nxt + 1 <= U32_MAX -> zlen (wire_payload nxt data (md_ic_rx md)) <= U32_MAX ->
  exists c', turn_on md c (wire_payload nxt data (md_ic_rx md)) nxt now = (c', true) /\
    ready_at c' sent (P ++ [data]) (nxt + 1) /\ rt_reason c' = rt_reason c /\ same_io c c'.
Proof.
  intros Hr Hd Hn Hl. pose proof (is_first _ _ _ (ry_step _ _ _ _ _ Hr)) as Hfst.
  pose proof (on_rx_frame_io md c (wire_payload nxt data (md_ic_rx md)) nxt now) as Hio. revert Hio. unfold on_rx_frame.
  rewrite bool_decide_false by (by apply wire_payload_nonempty).
  rewrite open_rx_wire by (done || lia). cbv zeta. destruct Hr as [Hp Hf Hi Hpl Hs (Q & EQ & Ht)].
  destruct (Z.eqb_spec nxt 0); [lia|]. cbn [negb]. rewrite andb_true_r.
  destruct (md_owned_rx md) eqn:Ho.
  - intros Hio. eexists. split; [done|]. unfold on_owned in *. cbv zeta in *.
    set (c0 := rt_set_link _ _) in *.
    assert (Hr0 : ready_at c0 sent (P ++ [data]) (nxt + 1)).
    { unfold pending in *. split; unfold pending; rewrite ?Ho in *; cbn; try done; rewrite ?fmap_app; cbn; rewrite ?vec_data.
      - by apply Forall_app_2; [|constructor].
      - by apply in_step_push.
      - exists Q. by rewrite EQ, app_assoc. }
    destruct (_ <=? _)%nat; [|split_and!; done]. destruct (owned_ready c0 now _ _ _ Hr0) as (? & _ & _ & ?). split_and!; done.
  - cbn [rt_count rt_link lr_producer]. rewrite Hp. intros Hio. eexists. split; [done|]. unfold on_shared in *.
    destruct single as [Sf Sc Sb Ss]. rewrite Ss in *. unfold turn_dec in *. cbn [rt_count rt_link lr_producer] in *. rewrite Hp, Sf in *. cbv zeta in *.
    set (c0 := rt_set _ _ _) in *.
    assert (Hr0 : ready_at c0 sent (P ++ [data]) (nxt + 1)).
    { unfold pending in *. split; unfold pending; rewrite ?Ho in *; cbn; try done; rewrite ?fmap_app; cbn.
      - by apply Forall_app_2; [|constructor].
      - by apply in_step_push.
      - exists Q. by rewrite EQ, app_assoc. }
    destruct (_ || _); [|split_and!; done]. destruct (shared_ready c0 now _ _ _ Hr0) as (? & _ & _ & ?). split_and!; done.
Qed.

(** ** The stream *)

Context (grow_more : forall c, c < vec_grow c).



Record rx_at (sh : ClientShared) (l : ClientRx) (todo : list VPNFrame) (more : list Z) (sent P : list (list Z)) (nxt : Z) : Prop := {
  at_ready : rx_ready sh l sent P nxt;
  at_seqs : seqs_from nxt todo;
  at_stream : stream_at (md_ic_rx md) (lr_scanner l) (lr_reader l) todo more }.
Abbreviation turn_at c := (rx_at (rt_shared c) (rt_link c)).

Lemma ready_io sh l sc rd sent P nxt : rx_ready sh l sent P nxt -> rx_ready sh (lr_set_io l sc rd (lr_producer l)) sent P nxt.
Proof. intros [? ? ? ? ? ?]. by split. Qed.

(** One frame of the stream; keep-alives leave no trace. *)
Lemma frame_step c f todo more sent P nxt now :
  let raw := wire_payload (vf_seq f) (as_slice (vf_data f)) (md_ic_rx md) in
  rx_ready (rt_shared c) (rt_link c) sent P nxt -> seqs_from nxt (f :: todo) -> zlen raw <= MAX_DATA_LENGTH ->
  stream_at (md_ic_rx md) (lr_scanner (rt_link c)) (lr_reader (rt_link c)) todo more ->
  exists c' nxt', turn_on md c raw (vf_seq f) now = (c', true) /\ turn_at c' todo more sent (P ++ payloads [f]) nxt' /\
    rt_reason c' = rt_reason c /\ same_io c c'.
Proof.
  intros raw Hr Hs Hl Hst. rewrite payloads_one. destruct (decide (has_payload f)) as [Hf|Hf].
  - apply seqs_from_payload in Hs as (E & Hs & Hb); [|done]. subst raw. rewrite E in *.
    destruct (frame_ready c (as_slice (vf_data f)) now sent P nxt Hr Hf Hb) as (c' & Ht & Hr' & Hre & Hio); [unfold_ints; unfold MAX_DATA_LENGTH in *; lia|].
    exists c', (nxt + 1). split_and!; try done. destruct Hio as [E1 E2 _]. by split; rewrite ?E1, ?E2.
  - subst raw. rewrite wire_payload_empty by done. apply seqs_from_skip in Hs; [|done]. exists c, nxt. rewrite app_nil_r. split_and!; try done.
Qed.

(** What a step of the loop achieves: [got] of [todo] was received, everything that
    arrived was read, and nothing is left when the whole stream has arrived. *)
Definition received (c c' : rx_turn) (todo : list VPNFrame) (more : list Z) (sent P : list (list Z)) : Prop :=
  exists got todo' nxt', todo = got ++ todo' /\ turn_at c' todo' more sent (P ++ payloads got) nxt' /\
    rt_reason c' = rt_reason c /\ lr_reader (rt_link c') = [] /\ (more = [] -> todo' = []).

Lemma frame_loop_delivers turns c now todo more sent P nxt :
  (rx_unread (rt_link c) < turns)%nat -> turn_at c todo more sent P nxt ->
  exists c', frame_loop p vec_grow vec turns md c now = Some (c', true) /\ received c c' todo more sent P.
Proof.
  revert c todo P nxt. induction turns as [|turns IH]; intros c todo P nxt Hu [Hr Hs Hst]; [lia|]. cbn [frame_loop].
  destruct (read_stream vec_grow grow_more _ _ _ _ _ Hst) as (sc & rd & r & Hread & Hres). rewrite Hread. cbv zeta.
  set (c1 := rt_set_link c _) in *. assert (Hr1 : ready_at c1 sent P nxt) by (by apply ready_io). destruct r as [[raw seq]|].
  - destruct Hres as (f & todo' & -> & -> & -> & Hl & Hst').
    destruct (frame_step c1 f todo' more sent P nxt now) as (c2 & nxt2 & -> & Hat2 & Hre & [E1 E2 _]); try done.
    apply read_loop_unread in Hread.
    destruct (IH c2 todo' (P ++ payloads [f]) nxt2) as (c3 & -> & got & todo3 & nxt3 & -> & Hat3 & Hre3 & Hrd & Hend); [|done|].
    { unfold rx_unread, unread in *. rewrite E1, E2. subst c1. cbn [rt_set_link rt_set rt_link lr_set_io lr_scanner lr_reader] in *. lia. }
    exists c3. split; [done|]. exists (f :: got), todo3, nxt3. split_and!; try done; [|by rewrite Hre3].
    change (f :: got) with ([f] ++ got). by rewrite payloads_app, app_assoc.
  - destruct Hres as (Hst1 & -> & Hend). exists c1. split; [done|]. exists [], todo, nxt. rewrite app_nil_r. by split_and!.
Qed.

(** Everything the socket gives before it blocks or ends. *)
Fixpoint reads_bytes (reads : list tls_read) : list Z :=
  match reads with TData _ plain :: reads => reader_bytes plain ++ reads_bytes reads | _ => [] end.
Definition reads_data (reads : list tls_read) : Prop :=
  Forall (fun r => match r with TData _ plain => data_only plain | _ => True end) reads.
Lemma socket_read_delivers c reads now todo more sent P nxt :
  reads_data reads -> lr_reader (rt_link c) = [] -> turn_at c todo (reads_bytes reads ++ more) sent P nxt ->
  (reads_bytes reads ++ more = [] -> todo = []) ->
  exists c' got todo' nxt', client_socket_read p vec_grow vec md c reads now = Some c' /\ todo = got ++ todo' /\
    turn_at c' todo' more sent (P ++ payloads got) nxt' /\ lr_reader (rt_link c') = [] /\ (more = [] -> todo' = []).
Proof.
  intros Hrd. revert c todo P nxt. induction Hrd as [|r reads Hr Hrd IH]; intros c todo P nxt Hrr Hat Hend.
  { exists c, [], todo, nxt. rewrite app_nil_r. split_and!; done. }
  destruct r as [process plain| |process| | |]; cbn [reads_bytes client_socket_read app] in *.
  2-6: eexists _, [], todo, nxt; rewrite app_nil_r; split_and!; [done|done| | |done];
    cbn [rt_close rt_received rt_link lr_set_io lr_reader]; rewrite ?app_nil_r; try done.
  2: { destruct Hat as [Ha1 Ha2 Ha3]. split; cbn [rt_close rt_received rt_shared rt_link lr_set_io lr_scanner lr_reader]; rewrite ?app_nil_r; try done. by apply ready_io. }
  unfold drain_frames. set (c0 := rt_received c process plain now).
  destruct (frame_loop_delivers (S (rx_unread (rt_link c0))) c0 now todo (reads_bytes reads ++ more) sent P nxt)
    as (c1 & -> & got & todo1 & nxt1 & -> & Hat1 & _ & Hrd1 & Hend1); [lia| |].
  { destruct Hat as [Ha1 Ha2 Ha3]. subst c0. split; cbn [rt_received rt_shared rt_link lr_set_io lr_scanner lr_reader]; [by apply ready_io|done|].
    apply stream_at_arrives; [done|]. by rewrite <-app_assoc in Ha3. }
  destruct (IH c1 todo1 _ nxt1 Hrd1 Hat1 Hend1) as (c' & got' & todo' & nxt' & -> & -> & Hat' & Hrd' & Hend').
  exists c', (got ++ got'), todo', nxt'. split_and!; try done; [by rewrite app_assoc|]. by rewrite payloads_app, app_assoc.
Qed.

(** ** Turns *)

(** Between two turns nothing waits in a batch or in rustls. *)
Record loop_at (d : ClientLoop) (todo : list VPNFrame) (more : list Z) (sent P : list (list Z)) (nxt : Z) : Prop := {
  la_at : rx_at (dl_shared d) (dl_rx d) todo more sent P nxt;
  la_reader : lr_reader (dl_rx d) = [];
  la_pending : pending (dl_rx d) = [] }.
Definition input_bytes (i : turn_input) : list Z :=
  match tn_poll i with Some (_, true) => reads_bytes (tn_reads i) | _ => [] end.

Lemma finish_delivers c now todo more sent P nxt :
  turn_at c todo more sent P nxt ->
  turn_at (rx_finish p vec md c now) todo more sent P nxt /\ pending (rt_link (rx_finish p vec md c now)) = [] /\
  same_io c (rx_finish p vec md c now).
Proof.
  intros [Hr Hs Hst]. unfold rx_finish. rewrite (ry_producer _ _ _ _ _ Hr).
  destruct (owned_ready c now _ _ _ Hr) as (Hr1 & Eo & _ & _). destruct (shared_ready _ now _ _ _ Hr1) as (Hr2 & Er & Eo2 & _).
  assert (Hio : same_io c (rt_flush p vec md (rt_flush_owned vec c now) now)) by (eapply same_io_trans; [apply rt_flush_owned_io|apply rt_flush_io]).
  pose proof Hio as [E1 E2 _]. split_and!; [split; rewrite ?E1, ?E2; done| |done].
  unfold pending. rewrite Eo2, Eo, Er. by destruct (md_owned_rx md).
Qed.

Lemma rx_turn_delivers sh l t last_rx (readable : bool) reads now todo more sent P nxt :
  let bytes := if readable then reads_bytes reads else [] in
  reads_data reads -> lr_reader l = [] -> rx_at sh l todo (bytes ++ more) sent P nxt -> (bytes ++ more = [] -> todo = []) ->
  exists c got todo' nxt', client_rx_turn p vec_grow vec md sh l t last_rx readable reads now = Some c /\ todo = got ++ todo' /\
    turn_at c todo' more sent (P ++ payloads got) nxt' /\ lr_reader (rt_link c) = [] /\ pending (rt_link c) = [] /\ (more = [] -> todo' = []).
Proof.
  intros bytes Hrd Hrr Hat Hend. unfold client_rx_turn.
  assert (flush_gap vec sh l now = sh) as ->.
  { unfold flush_gap. destruct Hat as [[-> _ _ _ [-> _ _ _ _] _] _ _]. done. }
  cbv zeta. match goal with |- context [if readable then _ else Some ?c] => set (c0 := c) end. assert (Hx : exists c1 got todo' nxt',
    (if readable then client_socket_read p vec_grow vec md c0 reads now else Some c0) = Some c1 /\ todo = got ++ todo' /\
    turn_at c1 todo' more sent (P ++ payloads got) nxt' /\ lr_reader (rt_link c1) = [] /\ (more = [] -> todo' = [])).
  { destruct readable; [by apply (socket_read_delivers c0 reads now todo more sent P nxt)|].
    exists c0, [], todo, nxt. rewrite app_nil_r. split_and!; done. }
  destruct Hx as (c1 & got & todo' & nxt' & -> & -> & Hat1 & Hrd1 & Hend1).
  destruct (finish_delivers c1 now _ _ _ _ _ Hat1) as (Hat2 & Hpe & [_ E2 _]).
  eexists _, got, todo', nxt'. split; [done|]. split_and!; try done. by rewrite E2.
Qed.

Lemma guard_delivers d i :
  lr_producer (dl_rx d) = None ->
  exists sh stop, loop_guard md (dl_shared d) (dl_rx d) (tn_random_id i) = (sh, dl_rx d, stop) /\
    ct_reorder_buf (sh_client sh) = ct_reorder_buf (sh_client (dl_shared d)) /\ sh_delivery sh = sh_delivery (dl_shared d).
Proof.
  intros Hp. unfold loop_guard, take_producer_error. rewrite Hp.
  destruct (po_sequence_exhausted _); [unfold rotate_instance; destruct (ct_sequence_rekeying _); by eexists _, _|].
  destruct (negb _); by eexists _, _.
Qed.
(** The receiving side of the client is the reorder buffer and the delivery queue. *)
Lemma rx_at_buffers sh sh' l todo more sent P nxt :
  ct_reorder_buf (sh_client sh') = ct_reorder_buf (sh_client sh) -> sh_delivery sh' = sh_delivery sh ->
  rx_at sh l todo more sent P nxt -> rx_at sh' l todo more sent P nxt.
Proof. intros E1 E2 [[? ? ? ? ? ?] ? ?]. by split; [split; rewrite ?E1, ?E2|..]. Qed.

Lemma client_turn_delivers ic_tx limit d i todo more sent P nxt :
  reads_data (tn_reads i) -> loop_at d todo (input_bytes i ++ more) sent P nxt -> (input_bytes i ++ more = [] -> todo = []) ->
  exists d' r got todo' more' nxt', client_turn p vec_grow vec PADDING_CACHE mode md ic_tx limit d i = Some (d', r) /\ todo = got ++ todo' /\
    loop_at d' todo' more' sent (P ++ payloads got) nxt' /\ (r = None -> more' = more /\ (more = [] -> todo' = [])).
Proof.
  intros Hrd [Hat Hrr Hpe] Hend. unfold client_turn.
  destruct (guard_delivers d i (ry_producer _ _ _ _ _ (at_ready _ _ _ _ _ _ _ Hat))) as (sh & stop & -> & Eb & Ed).
  apply (rx_at_buffers _ sh) in Hat; [|done..].
  assert (Hstop : forall r : rx_close, exists d' r' got todo' more' nxt',
    Some ({| dl_shared := sh; dl_rx := dl_rx d; dl_tx := dl_tx d; dl_next_rtt_refresh := dl_next_rtt_refresh d;
       dl_conn_rx_bytes := dl_conn_rx_bytes d |}, Some r) = Some (d', r') /\
    todo = got ++ todo' /\ loop_at d' todo' more' sent (P ++ payloads got) nxt' /\ (r' = None -> more' = more /\ (more = [] -> todo' = []))).
  { intros r. eexists _, _, [], todo, _, nxt. rewrite app_nil_r. split_and!; [done|done|by split|done]. }
  destruct stop as [r|]; [apply Hstop|]. cbv zeta. destruct (tn_poll i) as [[woken readable]|] eqn:Ep; [|apply Hstop]. clear Hstop.
  destruct (refresh_rtt _ _ _ _ _) as [tx next].
  assert (Eb' : input_bytes i = if readable then reads_bytes (tn_reads i) else []) by (unfold input_bytes; rewrite Ep; by destruct readable).
  rewrite Eb' in *.
  destruct (rx_turn_delivers sh (dl_rx d) (cx_tls tx) (cx_last_rx tx) readable (tn_reads i) (tn_now i) todo more sent P nxt Hrd Hrr Hat Hend)
    as (c & got & todo' & nxt' & -> & -> & Hat' & Hrd' & Hpe' & Hend'). cbn [mbind option_bind].
  match goal with |- context [client_tx_turn ?a ?b ?c ?d ?e ?f ?g ?h ?i ?j ?k] =>
    destruct (client_tx_turn_total a b c d e f g h i j k) as [[tx' reason] ->] end.
  eexists _, _, got, todo', more, nxt'. split; [done|]. split_and!; try done.
  split; cbn [dl_shared dl_rx]; try done. eapply rx_at_buffers; [..|done]; unfold rx_account; by destruct (negb _).
Qed.

(** ** Runs

    Turns of the connection's thread and of the TAP worker, in any order. *)
Inductive downlink_op := DTurn (i : turn_input) | DTap (recycle : bool).
Record downlink := { dk_loop : ClientLoop; dk_sent : list (list Z); dk_reason : option rx_close }.
Definition dl_set_delivery (d : ClientLoop) (td : TapDelivery) : ClientLoop :=
  {| dl_shared := sh_set (dl_shared d) (sh_client (dl_shared d)) td; dl_rx := dl_rx d; dl_tx := dl_tx d;
     dl_next_rtt_refresh := dl_next_rtt_refresh d; dl_conn_rx_bytes := dl_conn_rx_bytes d |}.
Definition dk_delivery (r : downlink) : TapDelivery := sh_delivery (dl_shared (dk_loop r)).
Definition downlink_step (ic_tx : option InnerCipher) (limit : Z) (r : downlink) (op : downlink_op) : option downlink :=
  match op with
  | DTap recycle =>
      match worker_turn recycle (dk_delivery r) with
      | Some (td, out, _) => Some {| dk_loop := dl_set_delivery (dk_loop r) td; dk_sent := dk_sent r ++ out; dk_reason := dk_reason r |}
      | None => Some r
      end
  | DTurn i =>
      match dk_reason r with
      | Some _ => Some r
      | None =>
          (fun o : ClientLoop * option rx_close => {| dk_loop := o.1; dk_sent := dk_sent r; dk_reason := o.2 |}) <$>
          client_turn p vec_grow vec PADDING_CACHE mode md ic_tx limit (dk_loop r) i
      end
  end.
Fixpoint downlink_run (ic_tx : option InnerCipher) (limit : Z) (r : downlink) (ops : list downlink_op) : option downlink :=
  match ops with
  | [] => Some r
  | op :: ops => match downlink_step ic_tx limit r op with Some r => downlink_run ic_tx limit r ops | None => None end
  end.
Definition op_bytes (op : downlink_op) : list Z := match op with DTurn i => input_bytes i | DTap _ => [] end.
Definition op_data (op : downlink_op) : Prop := match op with DTurn i => reads_data (tn_reads i) | DTap _ => True end.

(** While the connection is open, [more] is what the rest of the run will bring and
    what has not arrived at its end. *)
Lemma downlink_step_delivers ic_tx limit r op ops todo more more0 P nxt :
  op_data op -> loop_at (dk_loop r) todo more0 (dk_sent r) P nxt ->
  (dk_reason r = None -> more0 = op_bytes op ++ concat (op_bytes <$> ops) ++ more /\ (more0 = [] -> todo = [])) ->
  exists r' got todo' more' nxt', downlink_step ic_tx limit r op = Some r' /\ todo = got ++ todo' /\
    loop_at (dk_loop r') todo' more' (dk_sent r') (P ++ payloads got) nxt' /\
    (dk_reason r' = None -> more' = concat (op_bytes <$> ops) ++ more /\ (more' = [] -> todo' = [])).
Proof.
  intros Hop Hat Hm. destruct op as [i|recycle]; cbn [downlink_step op_bytes] in *.
  - destruct (dk_reason r) as [x|] eqn:Er.
    { exists r, [], todo, more0, nxt. rewrite app_nil_r. split_and!; try done. by rewrite Er. }
    destruct (Hm eq_refl) as [-> Hend].
    destruct (client_turn_delivers ic_tx limit _ i _ _ _ _ _ Hop Hat Hend) as (d' & x & got & todo' & more' & nxt' & -> & -> & Hat' & Hx).
    cbn [fmap option_fmap option_map fst snd]. eexists _, got, todo', more', nxt'. split_and!; try done. cbn [dk_reason]. intros ->.
    destruct (Hx eq_refl) as [-> ?]. done.
  - destruct (worker_turn recycle (dk_delivery r)) as [[[td out] rel]|] eqn:Ew.
    2: { exists r, [], todo, more0, nxt. rewrite app_nil_r. split_and!; done. }
    eexists _, [], todo, more0, nxt. rewrite app_nil_r. split_and!; [done|done| |done].
    destruct Hat as [[[? ? ? ? ? (Q & EQ & Ht)] ? ?] ? ?]. split; cbn [dk_loop dl_set_delivery dl_rx]; try done.
    split; cbn [dl_shared]; try done. split; try done. exists Q. split; [done|]. by eapply tap_holds_worker.
Qed.
Lemma downlink_delivers ic_tx limit r ops todo more more0 P nxt :
  Forall op_data ops -> loop_at (dk_loop r) todo more0 (dk_sent r) P nxt ->
  (dk_reason r = None -> more0 = concat (op_bytes <$> ops) ++ more /\ (more0 = [] -> todo = [])) ->
  exists r' got todo' more' nxt', downlink_run ic_tx limit r ops = Some r' /\ todo = got ++ todo' /\
    loop_at (dk_loop r') todo' more' (dk_sent r') (P ++ payloads got) nxt' /\ (dk_reason r' = None -> more = [] -> todo' = []).
Proof.
  intros Hops. revert r todo more0 P nxt. induction Hops as [|op ops Hop _ IH]; intros r todo more0 P nxt Hat Hm.
  { exists r, [], todo, more0, nxt. rewrite app_nil_r. split_and!; try done. intros Hn Em. destruct (Hm Hn) as [-> He]. by apply He. }
  rewrite fmap_cons in Hm. cbn [concat downlink_run] in *. rewrite <-app_assoc in Hm.
  destruct (downlink_step_delivers ic_tx limit r op ops todo more more0 P nxt Hop Hat Hm) as (r1 & got & todo1 & more1 & nxt1 & -> & -> & Hat1 & Hm1).
  destruct (IH r1 todo1 more1 _ nxt1 Hat1 Hm1) as (r2 & got2 & todo2 & more2 & nxt2 & -> & -> & Hat2 & Hm2).
  exists r2, (got ++ got2), todo2, more2, nxt2. split_and!; try done; [by rewrite app_assoc|]. by rewrite payloads_app, app_assoc.
Qed.
End Single.
End ClientRxSpec.
