(* ===== verification/Downlink.v ===== *)
(** * From the server's queue to the client's TAP device

    The writer of a server connection ([Writer], [WriterRun]) against the data loop of
    the client ([ClientRx]): framing, sealing, padding, TLS records and their cutting by
    the transport, scanning, opening, batching, reordering and the delivery queue. *)
From S2P Require Import Prelude Protocol Utils Crypto Frame Xor Fec Buffer Reorder ReorderSpec RxActor Adaptive Queue Port PortSpec Cork Pool Brutal PeerInfo Session Hooks TapDelivery Client Reader ReaderSpec Writer WriterSpec WriterRun StreamSpec ClientRx ClientRxSpec.

Section Downlink.
Context `{FrameChannel} `{CryptoLaws} `{RustlsLaws}.
Context (PADDING_CACHE : list Z) (mode : pad_mode) (cache_big : 4096 <= zlen PADDING_CACHE).
Context (epoch : Z) (ic : option InnerCipher) (prelude : list Z).
Context (p : cpu) (vec_grow : Z -> Z) (vec : frame -> FrameVec).
Context (grow_more : forall c, c < vec_grow c) (vec_data : forall f, fv_data (vec f) = f).

(** A client with one connection and no FEC enters its data loop: the reorder buffer
    has no gap and expects frame [start], or any first frame. *)
Record link_start (conf : ClientConf) (keys : link_keys) (lazy : bool) (batch_env : option Z) (start : Z) (d : ClientLoop) : Prop := {
  ls_conns : cc_conns_count conf = 1;
  ls_actor : ct_rx_actor (sh_client (dl_shared d)) = None;
  ls_fec : use_xor_fec conf (sh_client (dl_shared d)) = false;
  ls_key : lk_ic_rx keys = ic;
  ls_rx : dl_rx d = ClientRx_new (sh_client (dl_shared d)) lazy batch_env;
  ls_delivery : sh_delivery (dl_shared d) = TapDelivery_new;
  ls_gap : rb_gap_since (ct_reorder_buf (sh_client (dl_shared d))) = None;
  ls_expected : rb_expected_seq (ct_reorder_buf (sh_client (dl_shared d))) = start \/
                rb_expected_seq (ct_reorder_buf (sh_client (dl_shared d))) = 0;
  ls_start : 1 <= start }.

Lemma link_start_at conf keys lazy owned_env batch_env generation start d log s :
  let md := rx_mode conf (sh_client (dl_shared d)) keys true owned_env batch_env generation in
  link_start conf keys lazy batch_env start d -> seqs_from start log -> stream_of ic log s ->
  single_mode md /\ loop_at md d log s [] [] start.
Proof.
  intros md [Hc Ha Hf Hk Hr Hd Hg He H1'] Hs Hst. subst md.
  assert (Hst' : bool_decide (ct_rx_actor (sh_client (dl_shared d)) = None) && (cc_conns_count conf =? 1) && negb false && true = true)
    by (rewrite Ha, Hc; done).
  split; [split; cbn; rewrite ?Hf; done|].
  assert (Hp : forall md, pending md (ClientRx_new (sh_client (dl_shared d)) lazy batch_env) = []) by (intros md; unfold pending; by destruct (md_owned_rx md)).
  split; rewrite ?Hr; [|done|apply Hp]. pose proof (proj2 Hs).
  split; rewrite ?Hr; [|done|split; [by split|done|constructor|cbn; by rewrite Hk]].
  split; rewrite ?Hp; cbn [ClientRx_new lr_producer lr_fec_data lr_reorder_input lr_owned_input]; rewrite ?Ha; try done.
  - by destruct (md_owned_rx _).
  - split; cbn [length fmap list_fmap]; rewrite ?Z.sub_0_r; try done. lia.
  - exists []. split; [done|]. rewrite Hd. split; [done|]. done.
Qed.

End Downlink.

(** ** A concrete downlink *)

Definition demo_client_conf : ClientConf :=
  {| cc_client_id := []; cc_psk := []; cc_mac := []; cc_req_v4 := []; cc_req_v6 := []; cc_brutal := false; cc_brutal_up := 0;
     cc_brutal_down := 0; cc_conns_count := 1; cc_fec_mode := false; cc_fec_group_req := 0; cc_encrypt := true;
     cc_enc_algo := ENC_ALGO_CHACHA20; cc_min_enc := 0; cc_state_path := []; cc_socks5 := false |}.
Definition demo_link_keys : link_keys :=
  {| lk_algo := ENC_ALGO_CHACHA20; lk_ic_tx := demo_cipher; lk_ic_rx := demo_cipher; lk_fec_tx := None; lk_fec_rx := None |}.
Definition demo_loop : ClientLoop :=
  let cl := Client_new demo_client_conf ClientState_default ∅ in
  {| dl_shared := {| sh_client := cl; sh_delivery := TapDelivery_new; sh_force_generation := 0; sh_instance_id := [];
                     sh_rx_bytes := 0; sh_rx_packets := 0; sh_live_conns := 1 |};
     dl_rx := ClientRx_new cl false None;
     dl_tx := {| cx_tls := ([], 0); cx_socket := []; cx_backend := demo_be 1 64 0; cx_rx := []; cx_rand := {| fr_state := 5 |};
                 cx_queued_payload_pending := 0; cx_batch_cork := cork_disabled; cx_write_blocked := false; cx_last_keepalive := 0;
                 cx_last_write_progress := 0; cx_last_rx := 0; cx_conn_tx_bytes := 0;
                 cx_stats := {| ts_packets := 0; ts_bytes := 0; ts_written := TxFrameTotals_default; ts_padding := (0, 0) |} |};
     dl_next_rtt_refresh := 0; dl_conn_rx_bytes := 0 |}.
(** The server sends three frames over a socket that blocks, and a keep-alive. *)
Definition demo_server_ops : list writer_op :=
  [WPush 1 (Owned [1; 2; 3]); WPush 2 (Owned [4]); WFlush [SAccept 20; SBlock] 100 true; WPush 3 (Owned (replicate 40 7));
   WFlush [SBlock] 200 true; WFlush [SAccept 1000; SAccept 1000] 300 true; WScan [SAccept 1000] 5000000 120 true].
Definition demo_stream : list Z :=
  drop 2 (sx_tls (wr_tx (run_from demo_cache PAD_BUCKET 1 demo_cipher (demo_writer [8; 8]) demo_server_ops))).1.
Definition demo_turn (now : Z) (chunk : list Z) : turn_input :=
  {| tn_now := now; tn_poll := Some (false, true); tn_reads := [TData id [RData (take 5 chunk); RData (drop 5 chunk)]; TBlock];
     tn_writes := []; tn_rtt := Some 30; tn_random_id := []; tn_cork_ok := true; tn_reg_ok := true; tn_restore_ok := true |}.
(** The transport cuts in the middle of a frame; the TAP worker runs in between. *)
Definition demo_downlink_ops : list downlink_op :=
  [DTurn (demo_turn 1000 (take 33 demo_stream)); DTap true; DTurn (demo_turn 2000 (drop 33 demo_stream)); DTap true].

Definition demo_mode : RxMode := rx_mode demo_client_conf (sh_client (dl_shared demo_loop)) demo_link_keys true true None 0.
Example demo_downlink_run :
  (fun r => (dk_sent r, dk_reason r)) <$>
  downlink_run OtherCpu (fun c => c + 1) demo_vec demo_cache PAD_BUCKET demo_mode demo_cipher 1408
    {| dk_loop := demo_loop; dk_sent := []; dk_reason := None |} demo_downlink_ops
  = Some ([[1; 2; 3]; [4]; replicate 40 7], None).
Proof. vm_compute. reflexivity. Qed.

