(* ===== verification/Uplink.v ===== *)
(** * From the client's queue to the server's switch

    The client's data loop ([ClientRx], with the sending half of [Writer]) against the
    server's receive loop ([Reader]): what the TAP thread queued reaches the switch as
    if it had been handed over frame by frame. *)
From S2P Require Import Prelude Protocol Utils Crypto Frame Xor Fec Buffer Reorder ReorderSpec RxActor Adaptive Queue Port PortSpec VSwitch Cork Pool Brutal PeerInfo Session Hooks TapDelivery Client Reader ReaderSpec Writer WriterSpec WriterRun StreamSpec ClientRx ClientRxSpec Downlink.

(** ** The client's writer over its whole life *)

Section ClientWriter.
Context `{FrameChannel} `{CryptoLaws} `{RustlsLaws}.
Context (PADDING_CACHE : list Z) (mode : pad_mode) (cache_big : 4096 <= zlen PADDING_CACHE).
(** [prelude] is what the connection sent before, the handshake's request. *)
Context (ic : option InnerCipher) (prelude : list Z).

(** [sent] left the queue; the stream carries the same frames and keep-alives. *)
Record cx_inv (c : ClientTx) (accepted sent log : list VPNFrame) (q : OwnedBatchQueue) : Prop := {
  cn_queue : be_owned_batches (cx_backend c) = Some q;
  cn_queue_ok : queue_ok q;
  cn_fifo : accepted = sent ++ contents q;
  cn_seq : Forall (fun f => is_u32 (vf_seq f)) accepted;
  cn_rand : rand_ok (cx_rand c);
  cn_stream : carries ic prelude log (cx_tls c);
  cn_log : filter has_payload log = filter has_payload sent;
  cn_pending : 0 <= cx_queued_payload_pending c <= U64_MAX }.
Definition cx_live (c : ClientTx) (accepted : list VPNFrame) : Prop := exists sent log q, cx_inv c accepted sent log q.

(** What the invariant looks at. *)
Record same_cx (c c' : ClientTx) : Prop := {
  sc_queue : be_owned_batches (cx_backend c') = be_owned_batches (cx_backend c);
  sc_rand : cx_rand c' = cx_rand c;
  sc_plain : tls_plaintext (cx_tls c') = tls_plaintext (cx_tls c);
  sc_pending : 0 <= cx_queued_payload_pending c' <= U64_MAX }.
Lemma cx_live_same c c' accepted : same_cx c c' -> cx_live c accepted -> cx_live c' accepted.
Proof.
  intros [Eq Er Ep Hp] (sent & log & q & [? ? ? ? ? Hs ? ?]). exists sent, log, q. split; try congruence; try done.
  by eapply carries_same.
Qed.
Lemma cx_cork_same c k : 0 <= cx_queued_payload_pending c <= U64_MAX -> same_cx c (cx_set_cork c k).
Proof. intros Hp. split; try done. cbn. unfold share_carry. by destruct (ck_carry_state k). Qed.

Lemma client_drain_plain t sock progress blocked reg_ok now :
  tls_plaintext (client_drain t sock progress blocked reg_ok now).1.1.1.1 = tls_plaintext t.
Proof.
  revert t progress. induction sock as [|e sock IH]; intros t progress; cbn [client_drain]; destruct (wants_write t); try done.
  { by destruct blocked, reg_ok. }
  destruct e as [space| | |]; try done; [|by destruct blocked, reg_ok..].
  pose proof (write_tls_plaintext t space) as Hw. destruct (write_tls t space) as [t' n].
  cbn [fst] in Hw. destruct (n =? 0); [done|]. by rewrite IH.
Qed.

(** The batch taken from the queue: [buf] carries [fs]. *)
Lemma collect_takes c woken limit accepted sent log q :
  cx_inv c accepted sent log q ->
  exists c' st buf n q' fs, client_collect PADDING_CACHE mode ic c woken limit = Some (c', st, buf, n) /\
    cx_tls c' = cx_tls c /\ be_owned_batches (cx_backend c') = Some q' /\ queue_ok q' /\ contents q = fs ++ contents q' /\
    rand_ok (cx_rand c') /\ 0 <= cx_queued_payload_pending c' <= U64_MAX /\ stream_of ic fs buf /\
    (fs = [] -> buf = []) /\ (fs <> [] -> wants_write (cx_tls c) = false /\ zlen buf <= MAX_TLS_PLAINTEXT_RECORD).
Proof.
  intros [Hq Hqo Hf Hs Hr _ _ Hp]. unfold client_collect. destruct (wants_write (cx_tls c)) eqn:Ew; cbn [negb andb].
  { exists c, (tf_start (cx_backend c) (cx_rx c) (cx_rand c) (cx_queued_payload_pending c)), [], 0, q, []. split_and!; try done; [lia..|by exists []]. }
  destruct (_ || _).
  2: { exists c, (tf_start (cx_backend c) (cx_rx c) (cx_rand c) (cx_queued_payload_pending c)), [], 0, q, []. split_and!; try done; [lia..|by exists []]. }
  assert (Hq' : be_owned_batches (be_consume_wake (cx_backend c)) = Some q) by done.
  destruct (fill_spec PADDING_CACHE mode cache_big ic _ q (cx_rx c) (cx_rand c) (cx_queued_payload_pending c) Hq' Hqo Hr Hp)
    as (st & q' & fs & -> & _ & Hok & _). cbn [mbind option_bind].
  assert (Hu : Forall (fun f => is_u32 (vf_seq f)) fs).
  { rewrite Hf, (fo_prefix _ _ _ _ _ _ _ _ Hok) in Hs. by apply Forall_app in Hs as [_ [Hs _]%Forall_app]. }
  destruct (pad_fill_spec PADDING_CACHE mode ic _ _ _ _ _ _ _ limit Hok Hu) as (r & buf & n & -> & Hr' & Hst & Hlen & Hnil).
  eexists _, st, buf, n, q', fs. destruct Hok as [Hbk _ Hqo' Hpre _ _ _ _ _ Hpay _ _].
  split; [done|]. cbn [cx_set_fill cx_tls cx_backend cx_rand cx_queued_payload_pending]. rewrite Hbk, Hpay.
  pose proof (bytes_of_nonneg fs). split_and!; try done; [lia..|]. by intros ->; apply Hnil.
Qed.

(** The keep-alive carries nothing. *)
Lemma keepalive_carries c buf limit now :
  rand_ok (cx_rand c) ->
  exists c' buf' ka, client_keepalive PADDING_CACHE mode c buf limit now = (c', buf') /\
    cx_tls c' = cx_tls c /\ be_owned_batches (cx_backend c') = be_owned_batches (cx_backend c) /\ rand_ok (cx_rand c') /\
    cx_queued_payload_pending c' = cx_queued_payload_pending c /\ Forall (fun f => ~ has_payload f) ka /\
    (buf' = buf /\ ka = [] \/ buf = [] /\ stream_of ic ka buf').
Proof.
  intros Hr. unfold client_keepalive. destruct (_ && _ && _) eqn:E.
  2: { exists c, buf, []. split_and!; try done. by left. }
  apply andb_true_iff in E as [[Eb%bool_decide_eq_true _]%andb_true_iff _]. subst buf.
  destruct (append_frame_spec PADDING_CACHE cache_big mode (cx_rand c) [] 0 [] None limit Hr) as (r & pad & -> & Hr' & Hpad & _); [done|].
  eexists _, _, [{| vf_seq := 0; vf_data := Owned [] |}]. split; [done|]. cbn [app]. split_and!; try done.
  - constructor; [by intros []|constructor].
  - right. split; [done|]. assert (wire_payload 0 [] None = wire_payload 0 [] ic) as -> by (unfold wire_payload; by destruct ic).
    apply (stream_of_frame ic {| vf_seq := 0; vf_data := Owned [] |}); [by unfold_ints|done|unfold_ints; lia].
Qed.

Lemma client_finish_same c rx_closed reason now restore_ok :
  0 <= cx_queued_payload_pending c <= U64_MAX -> same_cx c (client_finish c rx_closed reason now restore_ok).1.
Proof.
  intros Hp. unfold client_finish. cbv zeta.
  set (c1 := if _ && negb (cx_queued_payload_pending c =? 0) then _ else c).
  assert (H1' : same_cx c c1) by (subst c1; destruct (_ && _); [split; cbn; done || (unfold_ints; lia)|by split]).
  destruct H1' as [E1 E2 E3 E4]. destruct (_ && _ && _ && _); [destruct restore_ok|]; split; cbn; done || congruence.
Qed.

(** One sending turn: what leaves the queue enters the stream. *)
Lemma client_tx_turn_live c woken rx_closed limit now cork_ok reg_ok restore_ok accepted c' reason :
  cx_live c accepted -> client_tx_turn PADDING_CACHE mode ic c woken rx_closed limit now cork_ok reg_ok restore_ok = Some (c', reason) ->
  cx_live c' accepted.
Proof.
  intros (sent & log & q & Hi) Ht. unfold client_tx_turn in Ht.
  destruct (collect_takes c woken limit accepted sent log q Hi) as (c1 & st & buf & n & q1 & fs & Hc & Et1 & Eq1 & Hqo1 & Hfs & Hr1 & Hp1 & Hst & Hnil & Hroom).
  rewrite Hc in Ht. cbn [mbind option_bind] in Ht. destruct Hi as [_ _ Hf Hs _ Hcar Hlog _].
  destruct (keepalive_carries c1 buf limit now Hr1) as (c2 & buf2 & ka & Hk & Et2 & Eq2 & Hr2 & Hp2 & Hka & Hbuf). rewrite Hk in Ht.
  assert (Hst2 : stream_of ic (fs ++ ka) buf2).
  { destruct Hbuf as [[-> ->]|[-> Hka2]]; [by rewrite app_nil_r|]. destruct Hst as (ws & Hws & Ew).
    pose proof (stream_of_nil ic fs) as Hn. rewrite Hn by (by exists ws). done. }
  assert (Hfilter : forall l, filter has_payload (l ++ ka) = filter has_payload l).
  { intros l. rewrite filter_app. assert (filter has_payload ka = []) as ->; [|apply app_nil_r].
    clear -Hka. induction Hka as [|f ka Hf _ IH]; [done|]. by rewrite filter_cons_False. }
  assert (Hgo : exists c3 log3, client_write c2 st buf2 n now cork_ok = (c3, match buf2 with [] => true | _ => bool_decide (is_Some (writer_write_all (cx_tls c) buf2)) end) /\
    cx_inv c3 accepted (sent ++ fs) log3 q1).
  { unfold client_write. destruct buf2 as [|b buf2]; cbn [bool_decide].
    - exists c2, log. split; [done|]. assert (fs = []) as -> by (apply stream_of_nil in Hst2; by apply app_nil in Hst2 as [-> _]).
      cbn [app] in Hfs. split; try done; rewrite ?Eq2, ?Et2, ?Et1, ?Hp2, ?app_nil_r; try done. by rewrite <-Hfs.
    - rewrite bool_decide_false by done. set (c2' := if negb (tf_frames st =? 0) then _ else c2).
      assert (Hc2' : same_cx c2 c2' /\ cx_tls c2' = cx_tls c).
      { subst c2'. destruct (negb _); [split; [apply cx_cork_same; rewrite Hp2; lia|cbn; congruence]|]. split; [split; try done; rewrite Hp2; lia|congruence]. }
      destruct Hc2' as [[S1 S2 S3 S4] Etls]. rewrite Etls. destruct (writer_write_all (cx_tls c) (b :: buf2)) as [t|] eqn:Ewr.
      + eexists _, (log ++ (fs ++ ka)). split; [done|]. split; cbn [cx_set_written cx_backend cx_rand cx_tls cx_queued_payload_pending]; try done.
        * by rewrite S1, Eq2.
        * by rewrite Hf, Hfs, app_assoc.
        * by rewrite S2.
        * by eapply carries_write.
        * by rewrite app_assoc, Hfilter, !filter_app, Hlog.
      + assert (fs = []) as ->.
        { destruct fs as [|f fs]; [done|]. destruct (Hroom ltac:(done)) as [Hww Hlen]. destruct Hbuf as [[Eb ->]|[Eb _]].
          - subst buf. destruct (write_all_room (cx_tls c) (b :: buf2) Hww Hlen). congruence.
          - subst buf. apply stream_of_nil in Hst. done. }
        eexists _, log. split; [done|]. cbn [app] in Hfs. split; rewrite ?S1, ?Eq2, ?S2, ?Etls, ?app_nil_r; try done. by rewrite <-Hfs. }
  destruct Hgo as (c3 & log3 & Hw & Hi3). rewrite Hw in Ht. destruct (negb _).
  { injection Ht as <- _. by exists (sent ++ fs), log3, q1. }
  pose proof (client_drain_plain (cx_tls c3) (cx_socket c3) (cx_last_write_progress c3) (cx_write_blocked c3) reg_ok now) as Hd.
  destruct (client_drain _ _ _ _ _ _) as [[[[t sock] progress] blocked] r4]. cbn [fst] in Hd. injection Ht as Ht.
  pose proof (client_finish_same (cx_set_io c3 t sock progress blocked) rx_closed r4 now restore_ok (cn_pending _ _ _ _ _ Hi3)) as Hfin.
  rewrite Ht in Hfin. cbn [fst] in Hfin. eapply cx_live_same; [exact Hfin|]. apply (cx_live_same c3); [|by exists (sent ++ fs), log3, q1].
  split; try done. apply (cn_pending _ _ _ _ _ Hi3).
Qed.

(** ** Turns of the loop *)

Context (p : cpu) (vec_grow : Z -> Z) (vec : frame -> FrameVec).

(** Packets of the peer do not change what was written. *)
Definition reads_plain (reads : list tls_read) : Prop :=
  Forall (fun r => match r with
                   | TData process _ | TBadPackets process => forall t, tls_plaintext (process t) = tls_plaintext t
                   | _ => True
                   end) reads.

Lemma frame_loop_tls turns md c now c' go :
  frame_loop p vec_grow vec turns md c now = Some (c', go) -> rt_tls c' = rt_tls c.
Proof.
  revert c. induction turns as [|turns IH]; intros c; [done|]. cbn [frame_loop]. cbv zeta. destruct (read_frame _ _ _) as [[sc rd] r].
  set (c1 := rt_set_link c _). destruct r as [[[raw seq]|]|e]; [|by intros [= <- _]..].
  pose proof (on_rx_frame_io p vec md c1 raw seq now) as [_ _ Ht]. destruct (on_rx_frame _ _ _ _ _ _ _) as [c2 [|]]; cbn [fst] in Ht.
  - intros Hl%IH. by rewrite Hl, Ht.
  - by intros [= <- _].
Qed.
Lemma socket_read_plain md c reads now c' :
  reads_plain reads -> client_socket_read p vec_grow vec md c reads now = Some c' -> tls_plaintext (rt_tls c') = tls_plaintext (rt_tls c).
Proof.
  intros Hp. revert c. induction Hp as [|r reads Hr Hp IH]; intros c; cbn [client_socket_read]; [by intros [= <-]|].
  destruct r as [process plain| |process| | |]; try (by intros [= <-]); [|intros [= <-]; apply Hr].
  destruct (drain_frames _ _ _ _ _ _) as [[c1 go]|] eqn:Ed; [|done]. apply frame_loop_tls in Ed. cbn [rt_received rt_tls] in Ed.
  destruct go; [intros Hs%IH; by rewrite Hs, Ed, Hr|intros [= <-]; by rewrite Ed, Hr].
Qed.
Lemma rx_finish_tls md c now : rt_tls (rx_finish p vec md c now) = rt_tls c.
Proof.
  unfold rx_finish. destruct (lr_producer _) as [pr|].
  - destruct (ct_rx_actor _) as [a|]; [|done]. destruct (producer_flush _ _ _) as [[[a' pr'] ready] ok]. destruct (take_error pr') as [pr2 [e|]]; by destruct ok.
  - rewrite (si_tls _ _ (rt_flush_io p vec md (rt_flush_owned vec c now) now)). apply (si_tls _ _ (rt_flush_owned_io vec c now)).
Qed.
Lemma client_rx_turn_plain md sh l t last_rx readable reads now c :
  reads_plain reads -> client_rx_turn p vec_grow vec md sh l t last_rx readable reads now = Some c ->
  tls_plaintext (rt_tls c) = tls_plaintext t.
Proof.
  intros Hp. unfold client_rx_turn. cbv zeta. match goal with |- context [if readable then _ else Some ?c] => set (c0 := c) end.
  destruct (if readable then _ else _) as [c1|] eqn:Er; [|done]. cbn [fmap option_fmap option_map]. intros [= <-].
  rewrite rx_finish_tls. destruct readable; [|by injection Er as <-]. by apply socket_read_plain in Er.
Qed.

Lemma refresh_same md tx next now rtt :
  0 <= cx_queued_payload_pending tx <= U64_MAX -> same_cx tx (refresh_rtt md tx next now rtt).1.
Proof. intros Hp. unfold refresh_rtt. destruct (_ && _); [destruct rtt as [r|]; [destruct (0 <? r)|]|]; by split. Qed.
Lemma cx_live_pending c accepted : cx_live c accepted -> 0 <= cx_queued_payload_pending c <= U64_MAX.
Proof. intros (? & ? & ? & Hi). apply Hi. Qed.

Lemma client_turn_live md limit d i accepted d' r :
  reads_plain (tn_reads i) -> cx_live (dl_tx d) accepted ->
  client_turn p vec_grow vec PADDING_CACHE mode md ic limit d i = Some (d', r) -> cx_live (dl_tx d') accepted.
Proof.
  intros Hrd Hlive. unfold client_turn. destruct (loop_guard _ _ _ _) as [[sh l] stop]. destruct stop as [x|]; [by intros [= <- _]|].
  destruct (tn_poll i) as [[woken readable]|]; [|by intros [= <- _]]. cbv zeta. cbn [dl_tx].
  set (tx1 := cx_set_cork _ _). assert (H1' : cx_live tx1 accepted) by (apply (cx_live_same (dl_tx d)); [apply cx_cork_same; exact (cx_live_pending _ _ Hlive)|done]).
  pose proof (refresh_same md tx1 (dl_next_rtt_refresh d) (tn_now i) (tn_rtt i) (cx_live_pending _ _ H1')) as Hs.
  destruct (refresh_rtt _ _ _ _ _) as [tx2 next]. cbn [fst] in Hs. eapply cx_live_same in H1'; [|exact Hs].
  destruct (client_rx_turn _ _ _ _ _ _ _ _ _ _ _) as [c|] eqn:Erx; [|done]. cbn [mbind option_bind].
  apply client_rx_turn_plain in Erx; [|done].
  destruct (client_tx_turn _ _ _ _ _ _ _ _ _ _ _) as [[tx3 reason]|] eqn:Etx; [|done]. cbn [mbind option_bind]. intros [= <- _]. cbn [dl_tx].
  eapply client_tx_turn_live; [|exact Etx]. eapply cx_live_same; [|exact H1']. split; try done. exact (cx_live_pending _ _ H1').
Qed.

(** The TAP thread queues a frame for the connection. *)
Lemma client_push_live c seq data accepted b res :
  is_u32 seq -> cx_live c accepted -> try_send_payload_to (cx_backend c) seq data = (b, res) ->
  cx_live (cx_set_settled c b (cx_queued_payload_pending c))
    (match res with Ok _ => accepted ++ [{| vf_seq := seq; vf_data := data |}] | Err _ => accepted end).
Proof.
  intros Hseq (sent & log & q & [Hq Hqo Hf Hs Hr Hst Hl Hp]) Hsend.
  unfold try_send_payload_to in Hsend. cbv zeta in Hsend. cbn [be_set_sched be_owned_batches be_scheduler] in Hsend. rewrite Hq in Hsend.
  destruct (try_push q _ _) as [q'|g] eqn:Ep; injection Hsend as <- <-.
  - destruct (try_push_ok q _ q' Hqo Ep) as (Hqo' & Hc & _). exists sent, log, q'.
    split; cbn [cx_set_settled cx_backend cx_rand cx_tls cx_queued_payload_pending]; try done.
    + by rewrite Hf, Hc, app_assoc.
    + apply Forall_app. split; [done|]. by apply Forall_singleton.
  - exists sent, log, q. by split.
Qed.

(** ** Runs: the TAP thread and the connection's thread *)

Inductive uplink_op := UPush (seq : Z) (data : FramePayload) | UTurn (i : turn_input).
Record uplink := { up_loop : ClientLoop; up_accepted : list VPNFrame; up_reason : option rx_close }.
Definition dl_set_tx (d : ClientLoop) (tx : ClientTx) : ClientLoop :=
  {| dl_shared := dl_shared d; dl_rx := dl_rx d; dl_tx := tx; dl_next_rtt_refresh := dl_next_rtt_refresh d;
     dl_conn_rx_bytes := dl_conn_rx_bytes d |}.
Definition uplink_step (md : RxMode) (limit : Z) (u : uplink) (op : uplink_op) : option uplink :=
  match op with
  | UPush seq data =>
      let tx := dl_tx (up_loop u) in
      let '(b, res) := try_send_payload_to (cx_backend tx) seq data in
      Some {| up_loop := dl_set_tx (up_loop u) (cx_set_settled tx b (cx_queued_payload_pending tx));
              up_accepted := match res with Ok _ => up_accepted u ++ [{| vf_seq := seq; vf_data := data |}] | Err _ => up_accepted u end;
              up_reason := up_reason u |}
  | UTurn i =>
      match up_reason u with
      | Some _ => Some u
      | None =>
          (fun o : ClientLoop * option rx_close => {| up_loop := o.1; up_accepted := up_accepted u; up_reason := o.2 |}) <$>
          client_turn p vec_grow vec PADDING_CACHE mode md ic limit (up_loop u) i
      end
  end.
Fixpoint uplink_run (md : RxMode) (limit : Z) (u : uplink) (ops : list uplink_op) : option uplink :=
  match ops with
  | [] => Some u
  | op :: ops => match uplink_step md limit u op with Some u => uplink_run md limit u ops | None => None end
  end.
Definition uop_ok (op : uplink_op) : Prop := match op with UPush seq _ => is_u32 seq | UTurn i => reads_plain (tn_reads i) end.

Lemma uplink_run_live md limit u ops :
  Forall uop_ok ops -> cx_live (dl_tx (up_loop u)) (up_accepted u) ->
  exists u', uplink_run md limit u ops = Some u' /\ cx_live (dl_tx (up_loop u')) (up_accepted u').
Proof.
  intros Hops. revert u. induction Hops as [|op ops Hop _ IH]; intros u Hlive; [by exists u|]. cbn [uplink_run].
  destruct op as [seq data|i]; cbn [uplink_step].
  - destruct (try_send_payload_to _ _ _) as [b res] eqn:Es. apply IH. by apply (client_push_live _ _ _ _ _ _ Hop Hlive) in Es.
  - destruct (up_reason u); [by apply IH|].
    destruct (client_turn_total p vec_grow vec PADDING_CACHE mode md ic limit (up_loop u) i) as [[d' r] Ht]. rewrite Ht.
    cbn [fmap option_fmap option_map]. apply IH. by eapply client_turn_live.
Qed.
End ClientWriter.

(** ** The server's receive loop on a stream *)

Section ServerReader.
Context `{FrameChannel} `{CryptoLaws}.
Context (p : cpu) (vec_grow : Z -> Z) (grow_more : forall c, c < vec_grow c).
Context (rx_batch_cap : nat) (switch_batch_enabled : bool).
Abbreviation on_plain := (on_plain_frame p rx_batch_cap true switch_batch_enabled).

(** A session of one connection without FEC. *)
Record static_session (l : RxLink) (s : ClientSession) : Prop := {
  ss_producer : rl_producer l = None;
  ss_dec : es_fec_dec (cs_epoch_state s) = None;
  ss_static : static_rx true s = true;
  ss_epoch : rl_session_epoch l = es_epoch (cs_epoch_state s) }.

(** During a call that began with session [s0] and switch [vs0], the payloads [P] were
    received: some wait in the batch, the switch has processed the others. *)
Record call_ready (s0 : ClientSession) (vs0 : VSwitch) (now : Z) (c : rx_call) (P : list (list Z)) (nxt : Z) : Prop := {
  cr_static : static_session (rc_link c) (rc_session c);
  cr_mac : cs_mac_bin (rc_session c) = cs_mac_bin s0;
  cr_id : st_client_id (cs_stat (rc_session c)) = st_client_id (cs_stat s0);
  cr_fec : rl_fec_data (rc_link c) = [];
  cr_payload : Forall (fun x : Z * frame => x.2 <> []) (rl_reorder_input (rc_link c));
  cr_step : in_step (cs_reorder_buf (rc_session c)) (rl_reorder_input (rc_link c)).*1 nxt;
  cr_batch : rl_reorder_input (rc_link c) <> [] -> rc_batch_session c = true;
  cr_open : rc_close c = false;
  cr_switch : exists Q, P = Q ++ (rl_reorder_input (rc_link c)).*2 /\ process_all s0 vs0 Q now = (rc_switch c, rc_out c) }.

Lemma flush_ready s0 vs0 now c P nxt :
  call_ready s0 vs0 now c P nxt ->
  let c' := rc_flush p true switch_batch_enabled c now in
  call_ready s0 vs0 now c' P nxt /\ rl_reorder_input (rc_link c') = [] /\ same_scanner c c'.
Proof.
  intros [[Hp Hd Hst He] Hm Hid Hf Hpl Hs Hb Ho (Q & EQ & Hq)] c'.
  assert (Hsc : same_scanner c c') by apply rc_flush_scanner. revert Hsc. subst c'. unfold rc_flush, flush_server_rx_batch. rewrite Hd, app_nil_r.
  destruct (rl_reorder_input (rc_link c)) as [|x input] eqn:Ei.
  { intros Hsc. split_and!; [|done..]. split; cbn; rewrite ?app_nil_r; try done. by exists Q. }
  destruct (in_step_direct _ _ _ Hs) as (rb' & Hdir & Hs'); [done|done|]. rewrite Hst, Hdir. cbv zeta. rewrite to_switch_all.
  rewrite (process_all_same s0) by done. destruct (process_all s0 (rc_switch c) _ now) as [vs1 o1] eqn:Ep.
  intros Hsc. split_and!; [|done..]. split; cbn [rc_set rc_link rc_session rc_switch rc_out rc_close rl_set_batches rl_reorder_input rl_fec_data fmap list_fmap]; try done.
  exists P. rewrite app_nil_r. split; [done|]. subst P. by rewrite process_all_app, Hq, Ep.
Qed.

Lemma ready_scanner s0 vs0 now c sc P nxt :
  call_ready s0 vs0 now c P nxt ->
  call_ready s0 vs0 now (rc_set_link c (rl_set_io (rc_link c) sc (rl_producer (rc_link c)) (rl_last_rx (rc_link c)))) P nxt.
Proof. intros [[? ? ? ?] ? ? ? ? ? ? ? ?]. by split; [split|..]. Qed.

(** One frame of the stream. *)
Lemma plain_step s0 vs0 now c f todo P nxt :
  let raw := wire_payload (vf_seq f) (as_slice (vf_data f)) (rl_ic_rx (rc_link c)) in
  call_ready s0 vs0 now c P nxt -> seqs_from nxt (f :: todo) -> zlen raw <= MAX_DATA_LENGTH ->
  exists c' nxt', on_plain c raw (vf_seq f) now = (c', true) /\ call_ready s0 vs0 now c' (P ++ payloads [f]) nxt' /\
    seqs_from nxt' todo /\ same_scanner c c' /\ rl_ic_rx (rc_link c') = rl_ic_rx (rc_link c).
Proof.
  intros raw Hr Hs Hl. subst raw. rewrite payloads_one. destruct (decide (has_payload f)) as [Hf|Hf].
  2: { rewrite wire_payload_empty by done. apply seqs_from_skip in Hs; [|done]. eexists _, nxt. split; [done|]. rewrite app_nil_r.
       split_and!; try done. destruct Hr as [[? ? ? ?] ? ? ? ? ? ? ? ?]. by split; [split|..]. }
  apply seqs_from_payload in Hs as (E & Hs & Hb); [|done]. rewrite E in *.
  pose proof (is_first _ _ _ (cr_step _ _ _ _ _ _ Hr)) as Hfst. set (data := as_slice (vf_data f)) in *.
  pose proof (on_plain_scanner p true switch_batch_enabled rx_batch_cap c (wire_payload nxt data (rl_ic_rx (rc_link c))) nxt now) as Hsc. revert Hsc.
  unfold on_plain_frame. rewrite bool_decide_false by (by apply wire_payload_nonempty). cbv zeta.
  assert (open_frame (rc_link c) (wire_payload nxt data (rl_ic_rx (rc_link c))) nxt = Some data) as ->.
  { unfold open_frame. rewrite (proj2 (Z.eqb_neq nxt 0)) by lia. apply wire_opens; [lia|done|]. unfold_ints. unfold MAX_DATA_LENGTH in *. lia. }
  destruct Hr as [[Hp Hd Hst He] Hm Hid Hfd Hpl Hstep Hbs Ho (Q & EQ & Hq)]. cbn [rc_count rc_session]. rewrite He, Z.eqb_refl, Hp. cbn [negb].
  rewrite (proj2 (Z.eqb_neq nxt 0)) by lia. cbn [fst]. intros Hsc. eexists _, (nxt + 1). split; [done|]. split_and!; [|done|exact Hsc|].
  all: unfold batch_data in *; cbn [rc_flags rc_count rc_session rc_link rc_close] in *; rewrite Hst in *; rewrite Hd in *; rewrite Hfd in *.
  all: rewrite (bool_decide_false (is_Some None)) in * by (by intros []).
  all: set (c0 := rc_set _ _ _ _ _) in *.
  - assert (Hr0 : call_ready s0 vs0 now c0 (P ++ [data]) (nxt + 1)).
    { subst c0. split; cbn; try done; rewrite ?fmap_app; cbn.
      - by apply Forall_app_2; [|constructor].
      - by apply in_step_push.
      - exists Q. by rewrite EQ, app_assoc. }
    destruct (_ || _); [|done]. apply (flush_ready _ _ _ _ _ _ Hr0).
  - destruct (_ || _); [|done]. unfold rc_flush. by destruct (flush_server_rx_batch _ _ _ _ _ _ _ _) as [[s1 vs1] o1].
Qed.

Lemma plain_loop_delivers turns s0 vs0 now c rd todo more P nxt :
  (unread (rl_scanner (rc_link c)) rd < turns)%nat -> call_ready s0 vs0 now c P nxt -> seqs_from nxt todo ->
  stream_at (rl_ic_rx (rc_link c)) (rl_scanner (rc_link c)) rd todo more ->
  exists c' got todo' nxt', plain_loop p vec_grow rx_batch_cap true switch_batch_enabled turns c rd now = Some (c', []) /\
    todo = got ++ todo' /\ call_ready s0 vs0 now c' (P ++ payloads got) nxt' /\ seqs_from nxt' todo' /\
    rl_ic_rx (rc_link c') = rl_ic_rx (rc_link c) /\
    stream_at (rl_ic_rx (rc_link c)) (rl_scanner (rc_link c')) [] todo' more /\ (more = [] -> todo' = []).
Proof.
  revert c rd todo P nxt. induction turns as [|turns IH]; intros c rd todo P nxt Hu Hr Hs Hst; [lia|]. cbn [plain_loop].
  destruct (read_stream vec_grow grow_more _ _ _ _ _ Hst) as (sc & rd' & r & Hread & Hres). rewrite Hread. cbv zeta.
  set (c1 := rc_set_link c _). assert (Hr1 : call_ready s0 vs0 now c1 P nxt) by (by apply ready_scanner). destruct r as [[raw seq]|].
  - destruct Hres as (f & todo' & -> & -> & -> & Hl & Hst').
    destruct (plain_step s0 vs0 now c1 f todo' P nxt Hr1 Hs Hl) as (c2 & nxt2 & Hon & Hr2 & Hs2 & Hsc & Hic).
    change (rl_ic_rx (rc_link c)) with (rl_ic_rx (rc_link c1)) in *. rewrite Hon. apply read_loop_unread in Hread.
    destruct (IH c2 rd' todo' (P ++ payloads [f]) nxt2) as (c3 & got & todo3 & nxt3 & -> & -> & Hr3 & Hs3 & Hic3 & Hst3 & Hend); [|done|done|..].
    { rewrite Hsc. subst c1. cbn in *. lia. }
    { rewrite Hsc, Hic. exact Hst'. }
    exists c3, (f :: got), todo3, nxt3. split_and!; try done; [|by rewrite Hic3|by rewrite <-Hic].
    change (f :: got) with ([f] ++ got). by rewrite payloads_app, app_assoc.
  - destruct Hres as (Hst1 & -> & Hend). exists c1, [], todo, nxt. rewrite app_nil_r. by split_and!.
Qed.

(** Between calls the batch is empty. *)
Record server_at (l : RxLink) (s : ClientSession) (todo : list VPNFrame) (more : list Z) (nxt : Z) : Prop := {
  va_static : static_session l s;
  va_fec : rl_fec_data l = [];
  va_input : rl_reorder_input l = [];
  va_step : in_step (cs_reorder_buf s) [] nxt;
  va_seqs : seqs_from nxt todo;
  va_stream : stream_at (rl_ic_rx l) (rl_scanner l) [] todo more }.

(** One call on whatever arrived: the switch sees the payloads one by one. *)
Lemma receive_delivers l s vs rd now todo more nxt :
  data_only rd -> server_at l s todo (reader_bytes rd ++ more) nxt ->
  exists c got todo' nxt', process_plain_frames p vec_grow rx_batch_cap true switch_batch_enabled l s vs rd now = Some (c, []) /\
    todo = got ++ todo' /\ process_all s vs (payloads got) now = (rc_switch c, rc_out c) /\ rc_close c = false /\
    cs_mac_bin (rc_session c) = cs_mac_bin s /\ st_client_id (cs_stat (rc_session c)) = st_client_id (cs_stat s) /\
    server_at (rc_link c) (rc_session c) todo' more nxt' /\ (more = [] -> todo' = []).
Proof.
  intros Hd [Hss Hf Hi Hstep Hs Hst]. unfold process_plain_frames. rewrite (ss_producer _ _ Hss). cbv zeta. set (c0 := Build_rx_call _ _ _ _ _ _ _ _).
  assert (Hr0 : call_ready s vs now c0 [] nxt).
  { subst c0. split; cbn; rewrite ?Hi; try done. by exists []. }
  apply (stream_at_arrives _ _ [] rd) in Hst; [|done]. cbn [app] in Hst.
  destruct (plain_loop_delivers (S (unread (rl_scanner l) rd)) s vs now c0 rd todo more [] nxt) as (c1 & got & todo' & nxt' & -> & -> & Hr1 & Hs1 & Hic & Hst1 & Hend);
    [cbn; lia|done..|]. cbn [mbind option_bind].
  unfold plain_finish. rewrite (ss_producer _ _ (cr_static _ _ _ _ _ _ Hr1)).
  assert (Hfin : exists c2, (if rc_batch_session c1 then rc_flush p true switch_batch_enabled c1 now else c1) = c2 /\
    call_ready s vs now c2 (payloads got) nxt' /\ rl_reorder_input (rc_link c2) = [] /\ same_scanner c1 c2 /\ rl_ic_rx (rc_link c2) = rl_ic_rx (rc_link c1)).
  { eexists. split; [done|]. destruct (rc_batch_session c1) eqn:Eb.
    - destruct (flush_ready _ _ _ _ _ _ Hr1) as (? & ? & ?). split_and!; try done. unfold rc_flush. by destruct (flush_server_rx_batch _ _ _ _ _ _ _ _) as [[s1 vs1] o1].
    - split_and!; try done. destruct (rl_reorder_input (rc_link c1)) eqn:Ei; [done|].
      pose proof (cr_batch _ _ _ _ _ _ Hr1) as Hb. rewrite Ei, Eb in Hb. by specialize (Hb ltac:(done)). }
  destruct Hfin as (c2 & -> & [Hst2 Hm Hid Hfd _ Hstep2 _ Ho (Q & EQ & Hq)] & Ei & Hsc & Hic2).
  rewrite Ei, app_nil_r in EQ. subst Q. exists c2, got, todo', nxt'. split_and!; try done.
  rewrite Ei in Hstep2. split; try done. rewrite Hsc, Hic2, Hic. exact Hst1.
Qed.

(** The calls of a connection, each with the switch as other sessions left it. *)
Fixpoint receive_calls (l : RxLink) (s : ClientSession) (calls : list (list read_event * Z * VSwitch)) : option (list rx_call) :=
  match calls with
  | [] => Some []
  | (rd, now, vs) :: calls =>
      match process_plain_frames p vec_grow rx_batch_cap true switch_batch_enabled l s vs rd now with
      | Some (c, _) => (fun cs => c :: cs) <$> receive_calls (rc_link c) (rc_session c) calls
      | None => None
      end
  end.
(** The switch after a call is the one that was given these payloads, and the call
    keeps the connection open. *)
Definition fed (s : ClientSession) (call : list read_event * Z * VSwitch) (group : list (list Z)) (c : rx_call) : Prop :=
  process_all s call.2 group call.1.2 = (rc_switch c, rc_out c) /\ rc_close c = false.

Lemma receive_calls_deliver l s calls todo more nxt :
  Forall (fun call : list read_event * Z * VSwitch => data_only call.1.1) calls ->
  server_at l s todo (concat ((fun call : list read_event * Z * VSwitch => reader_bytes call.1.1) <$> calls) ++ more) nxt ->
  (calls = [] -> more = [] -> todo = []) ->
  exists results groups rest, receive_calls l s calls = Some results /\ Forall3 (fed s) calls groups results /\
    payloads todo = concat groups ++ rest /\ (more = [] -> rest = []).
Proof.
  intros Hd. revert l s todo nxt. induction Hd as [|[[rd now] vs] calls Hrd Hd IH]; intros l s todo nxt Hat Hnil.
  { exists [], [], (payloads todo). split_and!; try done; [constructor|]. intros Hm. by rewrite Hnil. }
  rewrite fmap_cons in Hat. cbn [concat fst snd receive_calls] in *. rewrite <-app_assoc in Hat.
  destruct (receive_delivers l s vs rd now todo _ nxt Hrd Hat) as (c & got & todo' & nxt' & -> & -> & Hpa & Hcl & Em & Eid & Hat' & Hend).
  destruct (IH _ _ _ _ Hat') as (results & groups & rest & -> & Hfed & Hpay & Hrest).
  { intros -> Hm. apply Hend. by rewrite Hm. }
  eexists (c :: results), (payloads got :: groups), rest. split_and!; [done| |by rewrite payloads_app, Hpay; cbn [concat]; rewrite app_assoc|done].
  constructor; [done|]. eapply Forall3_impl; [exact Hfed|]. intros call g r [E1 E2]. split; [|done]. by rewrite <-(process_all_same s (rc_session c)).
Qed.
End ServerReader.

(** ** Both together *)

Section Uplink.
Context `{FrameChannel} `{CryptoLaws} `{RustlsLaws}.
Context (PADDING_CACHE : list Z) (mode : pad_mode) (cache_big : 4096 <= zlen PADDING_CACHE).
Context (ic : option InnerCipher) (prelude : list Z).
Context (p : cpu) (vec_grow : Z -> Z) (vec : frame -> FrameVec) (grow_more : forall c, c < vec_grow c).
Context (rx_batch_cap : nat) (switch_batch_enabled : bool).

(** A client connection after its handshake. *)
Record fresh_sender (env : option nat) (cap : nat) (tx : ClientTx) : Prop := {
  fx_queue : be_owned_batches (cx_backend tx) = Some (OwnedBatchQueue_new env cap);
  fx_rand : rand_ok (cx_rand tx);
  fx_plain : tls_plaintext (cx_tls tx) = prelude;
  fx_pending : cx_queued_payload_pending tx = 0 }.
(** The server's side of it: a session of one connection without FEC whose reorder
    buffer has no gap and expects frame [start], or any first frame. *)
Record fresh_receiver (lazy : bool) (start : Z) (l : RxLink) (s : ClientSession) : Prop := {
  fv_static : static_session l s;
  fv_scanner : rl_scanner l = FrameScanner_new lazy;
  fv_key : rl_ic_rx l = ic;
  fv_fec : rl_fec_data l = [];
  fv_input : rl_reorder_input l = [];
  fv_gap : rb_gap_since (cs_reorder_buf s) = None;
  fv_expected : rb_expected_seq (cs_reorder_buf s) = start \/ rb_expected_seq (cs_reorder_buf s) = 0;
  fv_start : 1 <= start }.

Lemma fresh_sender_live env cap tx : fresh_sender env cap tx -> cx_live ic prelude tx [].
Proof.
  intros [Hq Hr Hp Hpd]. exists [], [], (OwnedBatchQueue_new env cap). pose proof (OwnedBatchQueue_new_ok env cap).
  split; rewrite ?Hpd; try done. exists []. rewrite app_nil_r. split; [done|by exists []].
Qed.

(** C2: over one connection of a session that the server runs without receive actor and
    FEC, its receive bypass on ([static_session]: one connection was negotiated), what the
    client queues for the connection reaches the server's switch.  The numbers of the
    frames follow one another ([seqs_from]), as a port with a single connection gives
    them; sessions with several connections or FEC are the subject of [RxSpec].  For any
    interleaving of the TAP thread and turns of the data loop with a socket that blocks
    or takes partial writes, and however the transport cuts the stream and the server's
    receive calls divide it, the loops never hang and each receive call leaves the
    switch (whatever other sessions did to it before) exactly as if the next payloads in
    order had been handed to it one by one, with the same deliveries; over the calls
    these are the frames that left the queue, none lost, doubled or out of order, and
    all of them when everything has arrived. *)
Theorem uplink_end_to_end env cap md limit d uops :
  fresh_sender env cap (dl_tx d) -> Forall uop_ok uops ->
  exists u, uplink_run PADDING_CACHE mode ic p vec_grow vec md limit {| up_loop := d; up_accepted := []; up_reason := None |} uops = Some u /\
  forall lazy start l s calls more,
    fresh_receiver lazy start l s -> seqs_from start (up_accepted u) ->
    Forall (fun call : list read_event * Z * VSwitch => data_only call.1.1) calls ->
    tls_plaintext (cx_tls (dl_tx (up_loop u))) =
      prelude ++ concat ((fun call : list read_event * Z * VSwitch => reader_bytes call.1.1) <$> calls) ++ more ->
    exists sent queue results groups rest,
      be_owned_batches (cx_backend (dl_tx (up_loop u))) = Some queue /\ up_accepted u = sent ++ contents queue /\
      receive_calls p vec_grow rx_batch_cap switch_batch_enabled l s calls = Some results /\
      Forall3 (fed s) calls groups results /\ payloads sent = concat groups ++ rest /\ (more = [] -> rest = []).
Proof.
  intros Hfresh Hops. apply fresh_sender_live in Hfresh.
  destruct (uplink_run_live PADDING_CACHE mode cache_big ic prelude p vec_grow vec md limit
    {| up_loop := d; up_accepted := []; up_reason := None |} uops Hops Hfresh) as (u & Hrun & Hlive).
  exists u. split; [done|]. intros lazy start l s calls more [Hss Hsc Hk Hf Hi Hg He Hst] Hseq Hd Hplain.
  destruct Hlive as (sent & log & q & [Hq _ Hacc _ _ (x & Hx & Hstream) Hlog _]).
  rewrite Hx in Hplain. apply app_inv_head in Hplain. subst x.
  rewrite Hacc in Hseq. apply seqs_from_prefix in Hseq. apply (seqs_from_same _ log) in Hseq; [|done].
  destruct (receive_calls_deliver p vec_grow grow_more rx_batch_cap switch_batch_enabled l s calls log more start Hd) as (results & groups & rest & Hrc & Hfed & Hpay & Hrest).
  - split; try done.
    + split; cbn [length fmap list_fmap]; rewrite ?Z.sub_0_r; try done. pose proof (proj2 Hseq). lia.
    + rewrite Hk, Hsc. split; try done. constructor.
  - intros -> ->. cbn in Hstream. by apply stream_of_nil in Hstream.
  - exists sent, q, results, groups, rest. split_and!; try done. unfold payloads in *. by rewrite <-Hlog.
Qed.
End Uplink.

(** ** A concrete uplink *)

Definition demo_quiet (now : Z) (sock : list sock_event) : turn_input :=
  {| tn_now := now; tn_poll := Some (true, false); tn_reads := []; tn_writes := sock; tn_rtt := None; tn_random_id := [];
     tn_cork_ok := true; tn_reg_ok := true; tn_restore_ok := true |}.
(** Two frames, a blocked socket, a third frame and a keep-alive. *)
Definition demo_uplink_ops : list uplink_op :=
  [UPush 1 (Owned [1; 2; 3]); UPush 2 (Owned [4]); UTurn (demo_quiet 100 [SAccept 20; SBlock]); UPush 3 (Owned (replicate 40 7));
   UTurn (demo_quiet 200 [SBlock]); UTurn (demo_quiet 300 [SAccept 1000; SAccept 1000]); UTurn (demo_quiet 400 [SAccept 1000]);
   UTurn (demo_quiet 4500000 [SAccept 1000])].
Definition demo_uplink : option uplink :=
  uplink_run demo_cache PAD_BUCKET demo_cipher OtherCpu (fun c => c + 1) demo_vec demo_mode 1408
    {| up_loop := demo_loop; up_accepted := []; up_reason := None |} demo_uplink_ops.
Definition demo_up_stream : list Z :=
  match demo_uplink with Some u => (cx_tls (dl_tx (up_loop u))).1 | None => [] end.
Definition demo_up_session : ClientSession :=
  cs_set_stat (cs_set_rx demo_rx_session ReorderBuffer_new DeDuplicator_new None) (st_set_active (ClientStat_new "a") 1) None.
Definition demo_up_link : RxLink :=
  {| rl_scanner := FrameScanner_new false; rl_ic_rx := demo_cipher; rl_session_epoch := 1; rl_producer := None;
     rl_fec_data := []; rl_reorder_input := []; rl_last_rx := 0 |}.
Definition demo_up_calls : list (list read_event * Z * VSwitch) :=
  [([RData (take 40 demo_up_stream)], 5, VSwitch_new); ([RData (drop 40 demo_up_stream)], 6, VSwitch_new)].
Lemma demo_uplink_field {A} (f : uplink -> A) (o : option uplink) u x : f <$> o = Some x -> o = Some u -> f u = x.
Proof. intros Hx ->. by injection Hx. Qed.

Lemma uplink_end_to_end_witness :
  exists u sent queue results groups, demo_uplink = Some u /\
    up_accepted u = sent ++ contents queue /\
    receive_calls OtherCpu (fun c => c + 1) 16 true demo_up_link demo_up_session demo_up_calls = Some results /\
    Forall3 (fed demo_up_session) demo_up_calls groups results /\ payloads sent = concat groups /\
    up_accepted u = [{| vf_seq := 1; vf_data := Owned [1; 2; 3] |}; {| vf_seq := 2; vf_data := Owned [4] |};
                     {| vf_seq := 3; vf_data := Owned (replicate 40 7) |}].
Proof.
  destruct (uplink_end_to_end demo_cache PAD_BUCKET ltac:(vm_compute; discriminate) demo_cipher [] OtherCpu (fun c => c + 1) demo_vec
    ltac:(intros c; cbv beta; lia) 16 true None 64 demo_mode 1408 demo_loop demo_uplink_ops) as (u & Hu & Hall).
  - split; vm_compute; done || (split; discriminate).
  - repeat constructor; vm_compute; done.
  - assert (Ha : up_accepted u = [{| vf_seq := 1; vf_data := Owned [1; 2; 3] |}; {| vf_seq := 2; vf_data := Owned [4] |};
                     {| vf_seq := 3; vf_data := Owned (replicate 40 7) |}])
      by (apply (demo_uplink_field up_accepted demo_uplink); [vm_compute; reflexivity|exact Hu]).
    destruct (Hall false 1 demo_up_link demo_up_session demo_up_calls []) as (sent & queue & results & groups & rest & _ & Hacc & Hrc & Hfed & Hpay & Hrest).
    + split; [split; vm_compute; reflexivity|reflexivity..|by right|lia].
    + rewrite Ha. split; [vm_compute; reflexivity|vm_compute; discriminate].
    + repeat constructor; vm_compute; done.
    + apply (demo_uplink_field (fun u => tls_plaintext (cx_tls (dl_tx (up_loop u)))) demo_uplink); [vm_compute; reflexivity|exact Hu].
    + exists u, sent, queue, results, groups. rewrite Hrest, app_nil_r in Hpay by reflexivity. split_and!; [exact Hu|exact Hacc|exact Hrc|exact Hfed|exact Hpay|exact Ha].
Defined.
