(* ===== verification/Lifecycle.v ===== *)
(** * From the server's answer to a usable tunnel, and back

    What [dial_and_serve] of [src/src/client.rs] does between the answer and the data
    loop (interface addresses, policy routing, the up script; all under one lock), and the
    end of [start_client] (cleanup, the down script, the status of the process).  Also the
    thread that reads the TAP device.  The commands of the interface are those of
    [src/src/utils.rs].  The [ip] tool is the class of [Policy.v], the scripts are the
    processes of [Hooks.v]. *)
From S2P Require Import Prelude Protocol Utils Crypto Buffer Fec Adaptive Queue Port Pool PeerInfo Session Policy Hooks.

(** ** Commands of the interface *)

Definition addr_set (cidr : text) : bool := negb (bool_decide (cidr = [SLASH])) && negb (is_nil cidr).
Definition tap_addr_cmds (tap v4cidr v6cidr : text) : list (list text) :=
  [[word "link"; word "set"; word "dev"; tap; word "up"]] ++
  (if addr_set v4cidr then [[word "addr"; word "replace"; v4cidr; word "dev"; tap]] else []) ++
  (if addr_set v6cidr then [[word "-6"; word "addr"; word "replace"; word "nodad"; v6cidr; word "dev"; tap]] else []).

(** What never changes while the client runs. *)
Record LifecycleConf := {
  lf_tap_name : text; lf_fwmark : Z; lf_fwmark_priority : Z; lf_extra_routes : list text; lf_source_rules : list SourceRule; lf_config_path : text }.
(** The reasons a tunnel is not usable. *)
Inductive setup_error := InterfaceFailed (errors : list text) | RoutingFailed (e : routing_error + list text).
Inductive fatal := NotReady (e : setup_error) | UpFailed (e : hook_error).
(** What the process ends with: the first fatal error, with the down script's if both. *)
Inductive exit_error := ExitFatal (e : fatal) | ExitBoth (e : fatal) (cleanup : hook_error) | ExitDown (e : hook_error).

Section Network.
Context (v6 : family) `{IpTool}.

Definition apply_ip_cmds (k : kernel) (cmds : list (list text)) : kernel * result unit (list text) :=
  let '(k, errors) := run_all k cmds in (k, match errors with [] => Ok tt | _ => Err errors end).
Definition setup_interface (k : kernel) (tap v4cidr v6cidr : text) : kernel * result unit (list text) :=
  apply_ip_cmds k (tap_addr_cmds tap v4cidr v6cidr).

(** Kernel, shown state of the policy routing, what the cleanup will use, the hooks, the
    fatal error and the exit flag. *)
Record Lifecycle := {
  lc_kernel : kernel; lc_pr_ok : bool; lc_pr_err : option (routing_error + list text); lc_cleanup : option PolicyRoutingSpec;
  lc_hooks : LifecycleHooks; lc_fatal : option fatal; lc_exit : bool }.
Definition Lifecycle_new (k : kernel) (up down : text) : Lifecycle :=
  {| lc_kernel := k; lc_pr_ok := false; lc_pr_err := None; lc_cleanup := None; lc_hooks := LifecycleHooks_new up down; lc_fatal := None; lc_exit := false |}.

Definition pr_spec (conf : LifecycleConf) (resp : HandshakeResp) : PolicyRoutingSpec :=
  {| pr_mark := lf_fwmark conf; pr_priority := lf_fwmark_priority conf; pr_tap_name := lf_tap_name conf; pr_gw_v4 := rs_gw_v4 resp;
     pr_gw_v6 := rs_gw_v6 resp; pr_extra_routes := lf_extra_routes conf; pr_source_rules := lf_source_rules conf |}.
Definition hook_env (conf : LifecycleConf) (resp : HandshakeResp) : HookEnv :=
  {| he_mode := word "client"; he_dev := lf_tap_name conf; he_config := lf_config_path conf; he_ipv4 := rs_ipv4 resp; he_ipv6 := rs_ipv6 resp;
     he_gateway_v4 := rs_gw_v4 resp; he_gateway_v6 := rs_gw_v6 resp |}.

(** The device of the tests has no interface. *)
Definition is_mem (conf : LifecycleConf) : bool := bool_decide (lf_tap_name conf = word "mem").
(** Interface, then policy routing even if the interface failed; the first error is the
    reason.  The specification for the cleanup is stored once. *)
Definition setup_network (conf : LifecycleConf) (l : Lifecycle) (resp : HandshakeResp) : Lifecycle * option setup_error :=
  if is_mem conf then (l, None)
  else
    let '(k, ri) := setup_interface (lc_kernel l) (lf_tap_name conf) (rs_ipv4 resp) (rs_ipv6 resp) in
    let spec := pr_spec conf resp in
    let '(k, rp) := setup_policy_routing v6 k spec in
    ({| lc_kernel := k; lc_pr_ok := match rp with Ok _ => true | Err _ => false end;
        lc_pr_err := match rp with Ok _ => None | Err e => Some e end;
        lc_cleanup := Some (default spec (lc_cleanup l)); lc_hooks := lc_hooks l; lc_fatal := lc_fatal l; lc_exit := lc_exit l |},
     match ri, rp with
     | Err es, _ => Some (InterfaceFailed es)
     | Ok _, Err e => Some (RoutingFailed e)
     | Ok _, Ok _ => None
     end).

Definition lc_set_hooks (l : Lifecycle) (h : LifecycleHooks) : Lifecycle :=
  {| lc_kernel := lc_kernel l; lc_pr_ok := lc_pr_ok l; lc_pr_err := lc_pr_err l; lc_cleanup := lc_cleanup l; lc_hooks := h;
     lc_fatal := lc_fatal l; lc_exit := lc_exit l |}.
(** The first fatal error stays. *)
Definition lc_fail (l : Lifecycle) (e : fatal) : Lifecycle :=
  {| lc_kernel := lc_kernel l; lc_pr_ok := lc_pr_ok l; lc_pr_err := lc_pr_err l; lc_cleanup := lc_cleanup l; lc_hooks := lc_hooks l;
     lc_fatal := Some (default e (lc_fatal l)); lc_exit := true |}.

(** Step 6 of [dial_and_serve]: [None] goes on to the data loop.  [p] is the process the
    up script would be; also the scripts started. *)
Definition connect_network (conf : LifecycleConf) (l : Lifecycle) (resp : HandshakeResp) (p : hook_process)
  : Lifecycle * option fatal * list started :=
  let '(l, readiness_error) := setup_network conf l resp in
  if negb (configured (lc_hooks l)) then (l, None, [])
  else
    let env := hook_env conf resp in
    match readiness_error with
    | Some e => (lc_fail (lc_set_hooks l (hook_activate (lc_hooks l) env)) (NotReady e), Some (NotReady e), [])
    | None =>
        let '(h, r, log) := hook_up (lc_hooks l) env p in
        let l := lc_set_hooks l h in
        match r with
        | Ok _ => (l, None, log)
        | Err e => (lc_fail l (UpFailed e), Some (UpFailed e), log)
        end
    end.

Definition on_exit_cleanup (l : Lifecycle) : Lifecycle :=
  match lc_cleanup l with
  | Some spec =>
      {| lc_kernel := (clean_policy_routing v6 (lc_kernel l) spec).1; lc_pr_ok := lc_pr_ok l; lc_pr_err := lc_pr_err l; lc_cleanup := lc_cleanup l;
         lc_hooks := lc_hooks l; lc_fatal := lc_fatal l; lc_exit := lc_exit l |}
  | None => l
  end.
(** The end of [start_client], after the connections have ended. *)
Definition finish_client (l : Lifecycle) (p : hook_process) : Lifecycle * result unit exit_error * list started :=
  let l := on_exit_cleanup l in
  let '(h, down_result, log) := hook_down (lc_hooks l) p in
  let l := lc_set_hooks l h in
  match lc_fatal l with
  | Some f => (l, Err (match down_result with Ok _ => ExitFatal f | Err e => ExitBoth f e end), log)
  | None => (l, match down_result with Ok _ => Ok tt | Err e => Err (ExitDown e) end, log)
  end.

(** Connections one after the other, as the lock orders them. *)
Fixpoint connect_all (conf : LifecycleConf) (l : Lifecycle) (steps : list (HandshakeResp * hook_process)) : Lifecycle * list (option fatal) * list started :=
  match steps with
  | [] => (l, [], [])
  | (resp, p) :: steps =>
      let '(l, r, log) := connect_network conf l resp p in
      let '(l, rs, logs) := connect_all conf l steps in
      (l, r :: rs, log ++ logs)
  end.

(** ** Scripts *)

(** The network of a connection is ready: the device of the tests, or every command of
    the interface and of the policy routing went through. *)
Definition network_ready (conf : LifecycleConf) (k : kernel) (resp : HandshakeResp) : Prop :=
  is_mem conf = true \/
  exists k', setup_interface k (lf_tap_name conf) (rs_ipv4 resp) (rs_ipv6 resp) = (k', Ok tt) /\
    (setup_policy_routing v6 k' (pr_spec conf resp)).2 = Ok tt.
Lemma setup_ready conf l resp : (setup_network conf l resp).2 = None <-> network_ready conf (lc_kernel l) resp.
Proof.
  unfold setup_network, network_ready. destruct (is_mem conf); [by split; [left|]|].
  destruct (setup_interface _ _ _ _) as [k' [[]|es]] eqn:Ei; destruct (setup_policy_routing _ _ _) as [k'' [[]|e]] eqn:Er; cbn; split; try done;
    try (by intros [?|(k1 & [= ?] & ?)]); try (intros [?|(k1 & E1 & E2)]; simplify_eq; rewrite Er in E2; done).
  intros _. right. exists k'. split; [done|]. by rewrite Er.
Qed.
(** The calls of the hooks a connection makes. *)
Definition connect_calls (conf : LifecycleConf) (l : Lifecycle) (resp : HandshakeResp) (p : hook_process) : list hook_call :=
  if negb (configured (lc_hooks l)) then []
  else match (setup_network conf l resp).2 with Some _ => [CallActivate (hook_env conf resp)] | None => [CallUp (hook_env conf resp) p] end.
Lemma setup_hooks conf l resp : lc_hooks (setup_network conf l resp).1 = lc_hooks l /\ lc_fatal (setup_network conf l resp).1 = lc_fatal l /\
  lc_exit (setup_network conf l resp).1 = lc_exit l.
Proof. unfold setup_network. destruct (is_mem conf); [done|]. destruct (setup_interface _ _ _ _), (setup_policy_routing _ _ _). done. Qed.
Lemma connect_refines conf l resp p us ds lg :
  let '(l', r, log) := connect_network conf l resp p in
  exists us', hook_calls {| hr_hooks := lc_hooks l; hr_ups := us; hr_downs := ds; hr_log := lg |} (connect_calls conf l resp p) =
    {| hr_hooks := lc_hooks l'; hr_ups := us'; hr_downs := ds; hr_log := lg ++ log |}.
Proof.
  unfold connect_network, connect_calls. destruct (setup_hooks conf l resp) as (Eh & _ & _). destruct (setup_network conf l resp) as [l1 re]. cbn [fst snd] in *. rewrite Eh.
  destruct (configured (lc_hooks l)); cbn [negb]; [|exists us; by rewrite app_nil_r, Eh]. destruct re as [e|]; [exists us; cbn; by rewrite app_nil_r|].
  destruct (hook_up (lc_hooks l) _ p) as [[h r] log] eqn:Eu. unfold hook_calls. cbn [foldl hook_step hr_hooks]. rewrite Eu. cbn [hr_ups hr_downs hr_log].
  destruct r; by eexists.
Qed.
Lemma connect_all_refines conf steps : forall l us ds lg,
  let '(l', rs, log) := connect_all conf l steps in
  exists cs us', hook_calls {| hr_hooks := lc_hooks l; hr_ups := us; hr_downs := ds; hr_log := lg |} cs =
    {| hr_hooks := lc_hooks l'; hr_ups := us'; hr_downs := ds; hr_log := lg ++ log |}.
Proof.
  induction steps as [|[resp p] steps IH]; intros l us ds lg; cbn; [exists [], us; by rewrite app_nil_r|].
  pose proof (connect_refines conf l resp p us ds lg) as Hc. destruct (connect_network conf l resp p) as [[l1 r] log]. destruct Hc as (us1 & Hc).
  specialize (IH l1 us1 ds (lg ++ log)). destruct (connect_all conf l1 steps) as [[l2 rs] logs]. destruct IH as (cs & us2 & IH).
  exists (connect_calls conf l resp p ++ cs), us2. unfold hook_calls in *. rewrite foldl_app, Hc, IH. by rewrite app_assoc.
Qed.

Lemma connect_reports conf l resp p :
  let '(l', r, log) := connect_network conf l resp p in
  lc_fatal l' = match lc_fatal l with Some f => Some f | None => r end /\
  lc_exit l' = lc_exit l || bool_decide (is_Some r) /\
  (forall env, StartUp env ∈ log -> network_ready conf (lc_kernel l) resp /\ env = hook_env conf resp) /\ (forall env, StartDown env ∉ log) /\
  (r = None -> configured (lc_hooks l) = true -> network_ready conf (lc_kernel l) resp).
Proof.
  unfold connect_network. pose proof (setup_ready conf l resp) as Hr. destruct (setup_hooks conf l resp) as (Eh & Ef & Ex).
  destruct (setup_network conf l resp) as [l1 re]. cbn in *. rewrite Eh.
  destruct (configured (lc_hooks l)); cbn.
  2: { rewrite Ef, Ex, orb_false_r. split_and!; try done; try (by destruct (lc_fatal l)); set_solver. }
  destruct re as [e|]; cbn.
  { rewrite Ef, ?orb_true_r. split_and!; try done; try (by destruct (lc_fatal l)); set_solver. }
  destruct Hr as [Hr _]. specialize (Hr eq_refl). unfold hook_up. destruct (hk_up_result _) as [x|].
  - destruct x as [[]|e]; cbn; rewrite Ef, ?Ex, ?orb_true_r, ?orb_false_r; split_and!; try done; try (by destruct (lc_fatal l)); set_solver.
  - destruct (lh_up_path _); cbn; [|destruct (run_hook p) as [[]|e]; cbn]; rewrite Ef, ?Ex, ?orb_true_r, ?orb_false_r; split_and!; try done;
      try (by destruct (lc_fatal l)); set_solver.
Qed.

Definition first_fatal (rs : list (option fatal)) : option fatal := head (omap id rs).
Lemma connect_all_reports conf steps : forall l,
  let '(l', rs, log) := connect_all conf l steps in
  lc_fatal l' = match lc_fatal l with Some f => Some f | None => first_fatal rs end /\
  lc_exit l' = lc_exit l || bool_decide (is_Some (first_fatal rs)) /\
  (forall env, StartUp env ∈ log -> exists before resp p after, steps = before ++ (resp, p) :: after /\
     network_ready conf (lc_kernel (connect_all conf l before).1.1) resp /\ env = hook_env conf resp) /\
  (forall env, StartDown env ∉ log).
Proof.
  induction steps as [|[resp p] steps IH]; intros l; cbn [connect_all].
  { rewrite orb_false_r. split_and!; [by destruct (lc_fatal l)|done|set_solver|set_solver]. }
  pose proof (connect_reports conf l resp p) as Hc. destruct (connect_network conf l resp p) as [[l1 r] log] eqn:Ec. destruct Hc as (Hf & Hx & Hu & Hd & _).
  specialize (IH l1). destruct (connect_all conf l1 steps) as [[l2 rs] logs]. destruct IH as (IHf & IHx & IHu & IHd).
  split_and!.
  - rewrite IHf, Hf. destruct (lc_fatal l); [done|]. by destruct r.
  - rewrite IHx, Hx. destruct r; cbn; [by rewrite orb_true_r|by rewrite orb_false_r].
  - intros env [He|He]%elem_of_app.
    + exists [], resp, p, steps. by destruct (Hu env He).
    + destruct (IHu env He) as (before & resp' & p' & after & -> & Hn & ->). exists ((resp, p) :: before), resp', p', after.
      split_and!; [done| |done]. cbn. rewrite Ec. by destruct (connect_all conf l1 before) as [[? ?] ?].
  - intros env [He|He]%elem_of_app; [by apply (Hd env)|by apply (IHd env)].
Qed.

Lemma connect_all_down conf steps : forall l, hk_down_result (lh_state (lc_hooks (connect_all conf l steps).1.1)) = hk_down_result (lh_state (lc_hooks l)).
Proof.
  induction steps as [|[resp p] steps IH]; intros l; cbn [connect_all]; [done|].
  assert (Hc : hk_down_result (lh_state (lc_hooks (connect_network conf l resp p).1.1)) = hk_down_result (lh_state (lc_hooks l))).
  { unfold connect_network. destruct (setup_hooks conf l resp) as (Eh & _ & _). destruct (setup_network conf l resp) as [l1 re]. cbn [fst snd] in *.
    rewrite Eh. destruct (negb _); [cbn; by rewrite Eh|]. destruct re; [done|]. unfold hook_up. destruct (hk_up_result _) as [[]|]; [done..|].
    destruct (lh_up_path _); [done|]. by destruct (run_hook p). }
  destruct (connect_network conf l resp p) as [[l1 r] log]. specialize (IH l1). destruct (connect_all conf l1 steps) as [[l2 rs] logs]. cbn in *. congruence.
Qed.

(** From the start of the client to its end, in whatever order its connections come up:
    the up script runs at most once, after the commands of its connection have all
    succeeded, with that connection's addresses; the down script runs at most once, at the
    end, and only if a connection came as far as the scripts; the process succeeds only if
    no connection failed at this stage, and otherwise reports the first failure, which
    also makes every connection end. *)
Theorem lifecycle_sound conf k up down steps p :
  let '(l, rs, log) := connect_all conf (Lifecycle_new k up down) steps in
  let '(l', r, log') := finish_client l p in
  (ups (log ++ log') <= 1)%nat /\ (downs (log ++ log') <= 1)%nat /\ downs log = 0%nat /\ ups log' = 0%nat /\
  (forall env, StartUp env ∈ log -> exists before resp q after, steps = before ++ (resp, q) :: after /\
     network_ready conf (lc_kernel (connect_all conf (Lifecycle_new k up down) before).1.1) resp /\ env = hook_env conf resp) /\
  (log' <> [] -> hk_active (lh_state (lc_hooks l)) = true) /\
  lc_exit l = bool_decide (is_Some (first_fatal rs)) /\
  match first_fatal rs with
  | Some f => r = Err (ExitFatal f) \/ exists e, r = Err (ExitBoth f e)
  | None => r = Ok tt \/ exists e, r = Err (ExitDown e) /\ log' <> []
  end.
Proof.
  pose proof (connect_all_reports conf steps (Lifecycle_new k up down)) as Hr.
  pose proof (connect_all_refines conf steps (Lifecycle_new k up down) [] [] []) as Hc.
  pose proof (connect_all_down conf steps (Lifecycle_new k up down)) as Hdown.
  destruct (connect_all conf (Lifecycle_new k up down) steps) as [[l rs] log]. cbn [fst] in Hdown. destruct Hr as (Hf & Hx & Hu & Hd). destruct Hc as (cs & us & Hc).
  cbn [lc_fatal lc_exit Lifecycle_new orb app lc_hooks] in *.
  unfold finish_client. assert (Eh : lc_hooks (on_exit_cleanup l) = lc_hooks l) by (unfold on_exit_cleanup; by destruct (lc_cleanup l)).
  assert (Ef : lc_fatal (on_exit_cleanup l) = lc_fatal l) by (unfold on_exit_cleanup; by destruct (lc_cleanup l)). rewrite Eh.
  pose proof (hooks_run_once up down (cs ++ [CallDown p])) as Ho. unfold hook_calls in *. rewrite foldl_app, Hc in Ho. cbn [foldl hook_step hr_hooks] in Ho.
  destruct (hook_down (lc_hooks l) p) as [[h dr] log'] eqn:Ed. cbn [hr_log hr_hooks] in Ho. destruct Ho as (Ho1 & Ho2 & _).
  assert (Hdl : downs log = 0%nat).
  { unfold downs. destruct (List.filter _ log) as [|x f] eqn:E; [done|]. assert (Hin : In x (List.filter (fun s => negb (is_up s)) log)) by (rewrite E; by left).
    apply List.filter_In in Hin as [Hin Hnu]. destruct x as [env|env]; [done|]. exfalso. apply (Hd env). by apply list_elem_of_In. }
  assert (Hlog' : ups log' = 0%nat /\ (log' <> [] -> hk_active (lh_state (lc_hooks l)) = true) /\ match dr with Ok _ => True | Err _ => log' <> [] end).
  { change (hk_down_result _) with (@None (result unit hook_error)) in Hdown at 2. unfold hook_down in Ed. rewrite Hdown in Ed.
    destruct (hk_active _), (bool_decide (lh_down_path _ = _)); cbn in Ed; simplify_eq; split_and!; try (done || congruence). by destruct (run_hook p). }
  destruct Hlog' as (Hl1 & Hl2 & Hlast). cbn [lc_fatal lc_set_hooks]. rewrite Ef, Hf.
  destruct (first_fatal rs) as [f|]; (split_and!; [done..|]); destruct dr as [[]|e]; eauto.
Qed.
End Network.

(** A run with a tool that refuses one command: the second connection fails, the process
    says why, and both scripts have run once. *)
Section Demo.
#[local] Instance demo_ip : IpTool := {| kernel := list (list text); run_ip k c := (k ++ [c], if (3 <=? length k)%nat then Some (word "busy") else None) |}.
Definition demo_lf : LifecycleConf :=
  {| lf_tap_name := word "tap0"; lf_fwmark := 0; lf_fwmark_priority := 0; lf_extra_routes := []; lf_source_rules := []; lf_config_path := [] |}.
Definition demo_answer (ip : string) : HandshakeResp :=
  {| rs_protocol_version := PROTOCOL_VERSION; rs_session_epoch := 1; rs_success := true; rs_session_id := []; rs_client_id := EmptyString;
     rs_ipv4 := word ip; rs_ipv6 := [SLASH]; rs_gw_v4 := word "10.0.0.1"; rs_gw_v6 := []; rs_brutal_groups := false; rs_brutal_total_tx := 0;
     rs_brutal_total_rx := 0; rs_fec := false; rs_fec_group := 0; rs_encrypt := false; rs_enc_algo := 0; rs_enc_salt := []; rs_enc_salt2 := [];
     rs_session_token := [] |}.
Example lifecycle_run :
  let good := Finished (Some true) false None None in
  let '(l, rs, log) := connect_all raw_v6 demo_lf (Lifecycle_new [] (word "/up") (word "/down")) [(demo_answer "10.0.0.2/24", good); (demo_answer "10.0.0.3/24", good)] in
  let '(l', r, log') := finish_client raw_v6 l good in
  rs = [None; Some (NotReady (InterfaceFailed [word "busy"]))] /\ r = Err (ExitFatal (NotReady (InterfaceFailed [word "busy"]))) /\
  log = [StartUp (hook_env demo_lf (demo_answer "10.0.0.2/24"))] /\ log' = [StartDown (hook_env demo_lf (demo_answer "10.0.0.3/24"))].
Proof. vm_compute. repeat split. Qed.
End Demo.
