(* ===== verification/TapReader.v ===== *)
(** * The thread that reads the TAP device of the client ([start_client] of
      [src/src/client.rs], [tap_read_buffer_size] of [src/src/tap.rs])

    The device is a script: what each read and each test for more returns.  Buffers come
    from the pools of the thread. *)
From S2P Require Import Prelude Utils Crypto Xor Buffer Fec Adaptive Queue Port PortSpec.

Definition tap_read_buffer_size (mtu : Z) : Z := Z.max (Z.max mtu 576 + 64) 2048.

(** A read returns bytes, at most as many as the buffer holds, or an error. *)
Inductive recv_result := Received (data : list Z) | RecvError.
(** One round of the loop: the exit flag before it, the first read, the tests and reads
    that may follow, and the exit flag after a failed read. *)
Record tap_input := { tu_exit : bool; tu_first : recv_result; tu_more : list (bool * recv_result); tu_exit_after : bool; tu_now : Z }.

Section Reader.
Context `{FrameChannel} `{CryptoPrims}.
(** The processor, the size of the buffers, batching on, frames of a batch. *)
Context (cpu_kind : cpu) (size : Z) (batch_tx : bool) (limit : nat).

(** [recv] into a buffer and [truncate]. *)
Definition recv_into (buf : FrameVec) (data : list Z) : FrameVec := {| fv_data := data; fv_capacity := fv_capacity buf |}.
(** Further frames as long as the device has some at once. *)
Fixpoint tap_drain (more : list (bool * recv_result)) (pools : FramePools) (frames : list FramePayload) : FramePools * list FramePayload :=
  match more with
  | [] => (pools, frames)
  | (ready, r) :: more =>
      if (length frames <? limit)%nat && ready then
        let '(pools, next) := acquire_frame_vec_overwrite pools size in
        match r with
        | Received (b :: data) => tap_drain more pools (frames ++ [Owned (fv_data (recv_into next (b :: data)))])
        | _ => (release_frame_vec pools next, frames)
        end
      else (pools, frames)
  end.
(** Port, pools, and whether the thread ends. *)
Definition tap_turn (st : AsyncPort * FramePools) (i : tap_input) : AsyncPort * FramePools * bool :=
  let '(port, pools) := st in
  if tu_exit i then (port, pools, true)
  else
    let '(pools, frame) := acquire_frame_vec_overwrite pools size in
    match tu_first i with
    | Received (b :: data) =>
        let frame := Owned (fv_data (recv_into frame (b :: data))) in
        if batch_tx then
          let '(pools, frames) := tap_drain (tu_more i) pools [frame] in
          (write_payload_batch cpu_kind port frames (tu_now i), pools, false)
        else (write_owned_payload cpu_kind port frame (tu_now i), pools, false)
    | Received [] => (port, release_frame_vec pools frame, false)
    | RecvError => (port, release_frame_vec pools frame, tu_exit_after i)
    end.
Fixpoint tap_loop (st : AsyncPort * FramePools) (ins : list tap_input) : AsyncPort * FramePools :=
  match ins with
  | [] => st
  | i :: ins => let '(port, pools, stop) := tap_turn st i in if stop then (port, pools) else tap_loop (port, pools) ins
  end.

(** ** What the port is given *)

(** What the device handed out in a round, and in a run. *)
Fixpoint more_reads (room : nat) (more : list (bool * recv_result)) : list (list Z) :=
  match room, more with
  | S room, (true, Received (b :: data)) :: more => (b :: data) :: more_reads room more
  | _, _ => []
  end.
Definition turn_reads (i : tap_input) : list (list Z) :=
  if tu_exit i then []
  else match tu_first i with
       | Received (b :: data) => (b :: data) :: (if batch_tx then more_reads (limit - 1) (tu_more i) else [])
       | _ => []
       end.
Definition turn_stops (i : tap_input) : bool := tu_exit i || match tu_first i with RecvError => tu_exit_after i | _ => false end.
Fixpoint read_batches (ins : list tap_input) : list (list (list Z) * Z) :=
  match ins with
  | [] => []
  | i :: ins => (turn_reads i, tu_now i) :: (if turn_stops i then [] else read_batches ins)
  end.
(** The batch as it reaches the port. *)
Definition hand_over (port : AsyncPort) (b : list (list Z) * Z) : AsyncPort :=
  match b.1 with
  | [] => port
  | data :: _ => if batch_tx then write_payload_batch cpu_kind port (Owned <$> b.1) b.2 else write_owned_payload cpu_kind port (Owned data) b.2
  end.

Lemma drain_reads more : forall pools frames,
  (tap_drain more pools frames).2 = frames ++ (Owned <$> more_reads (limit - length frames) more).
Proof.
  induction more as [|[ready r] more IH]; intros pools frames; cbn [tap_drain].
  { cbn [snd]. destruct (limit - length frames)%nat; cbn; by rewrite app_nil_r. }
  destruct (Nat.ltb_spec (length frames) limit) as [Hl|Hl]; cbn [andb].
  - destruct ready; [|cbn [snd]; destruct (limit - length frames)%nat; cbn; by rewrite app_nil_r].
    destruct (acquire_frame_vec_overwrite pools size) as [pools' next]. destruct (limit - length frames)%nat as [|room] eqn:Er; [lia|].
    destruct r as [[|b data]|]; cbn [snd]; [by rewrite app_nil_r| |by rewrite app_nil_r].
    rewrite IH, length_app. cbn [length]. replace (limit - (length frames + 1))%nat with room by lia. cbn. by rewrite <-app_assoc.
  - cbn [snd]. replace (limit - length frames)%nat with 0%nat by lia. cbn. by rewrite app_nil_r.
Qed.
Lemma more_reads_bound room more : (length (more_reads room more) <= room)%nat /\ Forall (fun d => d <> []) (more_reads room more).
Proof.
  revert more. induction room as [|room IH]; intros [|[[] [[|b d]|]] more]; cbn; try (split; [lia|constructor]).
  destruct (IH more). split; [lia|by constructor].
Qed.
Lemma tap_turn_reads port pools i :
  exists pools', tap_turn (port, pools) i = (hand_over port (turn_reads i, tu_now i), pools', turn_stops i).
Proof.
  unfold tap_turn, turn_reads, turn_stops, hand_over. destruct (tu_exit i); [by eexists|].
  destruct (acquire_frame_vec_overwrite pools size) as [pools1 frame]. destruct (tu_first i) as [[|b data]|]; [by eexists| |by eexists].
  cbn [orb fst snd]. destruct batch_tx; [|by eexists].
  pose proof (drain_reads (tu_more i) pools1 [Owned (b :: data)]) as Hd. cbn [recv_into fv_data]. destruct (tap_drain _ _ _) as [pools2 frames]. cbn in Hd.
  eexists. rewrite Hd. done.
Qed.

(** Every frame the device hands out reaches the port, once and in order, in batches of
    at most the configured size, and nothing else does; neither the buffers of the thread
    nor errors and empty reads in between play a role. *)
Theorem tap_frames_reach_port port pools ins :
  (0 < limit)%nat ->
  (tap_loop (port, pools) ins).1 = foldl hand_over port (read_batches ins) /\
  Forall (fun b : list (list Z) * Z => (length b.1 <= limit)%nat /\ Forall (fun d => d <> []) b.1) (read_batches ins).
Proof.
  intros Hl. split.
  - revert port pools. induction ins as [|i ins IH]; intros port pools; cbn [tap_loop read_batches]; [done|].
    destruct (tap_turn_reads port pools i) as [pools' ->]. destruct (turn_stops i); [done|]. cbn [foldl]. apply IH.
  - induction ins as [|i ins IH]; cbn [read_batches]; [constructor|]. constructor; [|destruct (turn_stops i); [constructor|done]].
    unfold turn_reads. cbn [fst]. destruct (tu_exit i); [split; [cbn; lia|constructor]|]. destruct (tu_first i) as [[|b d]|]; try (split; [cbn; lia|constructor]).
    destruct batch_tx; [|split; [cbn; lia|by constructor]]. destruct (more_reads_bound (limit - 1) (tu_more i)). split; [cbn; lia|by constructor].
Qed.
End Reader.
