(* ===== verification/Tls.v ===== *)
(** * What is done around TLS: the certificate check of the client ([CertHashVerifier],
      [build_tls_config] of [src/src/client.rs]) and the observation of a client's
      greeting by the server ([ObservingCertResolver], [observed_tls_handshake] of
      [src/src/server.rs], the normal forms of [src/src/api.rs])

    rustls itself is outside: the greeting, the negotiated parameters and the verdict of
    the built-in certificate check are inputs.  Texts are UTF-8 byte lists. *)
From S2P Require Import Prelude Utils Crypto Pool PeerInfo Client.

(** ** Certificate verification *)

Inductive verifier := WebPki | DummyVerifier | CertHashVerifier (expected_hash : text).
(** [build_tls_config]: [insecure] wins over a pinned hash. *)
Definition build_tls_config (insecure : bool) (cert_sha256 : text) : verifier :=
  if insecure then DummyVerifier
  else match cert_sha256 with [] => WebPki | _ => CertHashVerifier cert_sha256 end.

Definition replace_colons (s : text) : text := List.filter (fun c => negb (c =? 58)) s.

Section Verify.
Context `{CryptoPrims} `{HexCodec}.

(** [to_lowercase] on text: a letter outside ASCII never becomes a hexadecimal digit, so
    for the comparison the ASCII letters are all that matters. *)
Definition cert_hash_matches (expected_hash cert : text) : bool :=
  let got := hex_encode (sha256 cert) in
  let want := to_ascii_lowercase (replace_colons expected_hash) in
  bool_decide (got = want).
(** [webpki] is the verdict of the built-in check (chain, name, validity). *)
Definition verify_server_cert (v : verifier) (cert : text) (webpki : bool) : bool :=
  match v with
  | WebPki => webpki
  | DummyVerifier => true
  | CertHashVerifier expected => cert_hash_matches expected cert
  end.
(** The handshake signature: [sig_ok] says that it verifies under the certificate. *)
Definition verify_signature (v : verifier) (sig_ok : bool) : bool :=
  match v with DummyVerifier => true | _ => sig_ok end.
(** A handshake goes through when both checks pass. *)
Definition server_accepted (v : verifier) (cert : text) (webpki sig_ok : bool) : bool :=
  verify_server_cert v cert webpki && verify_signature v sig_ok.
End Verify.

(** ** The greeting *)

Definition TLS_CLIENT_HELLO_FINGERPRINT_KIND : text := bytes_of_string "tls-clienthello-v1".

(** Reserved values that clients insert at random (RFC 8701). *)
Definition is_tls_grease (v : Z) : bool :=
  (Z.shiftr v 8 mod 256 =? v mod 256) && (Z.land (v mod 256) 15 =? 10).
Definition normalize_tls_u16 (values : list Z) : list Z := List.filter (fun v => negb (is_tls_grease v)) values.

(** [write_u16_list] *)
Definition write_u16_list (values : list Z) : list Z :=
  let normalized := normalize_tls_u16 values in
  let count := Z.min (zlen normalized) U16_MAX in
  be_encode 2 count ++ concat (be_encode 2 <$> take (Z.to_nat count) normalized).
Definition write_alpn (alpn : list text) : list Z :=
  let count := Z.min (zlen alpn) U16_MAX in
  be_encode 2 count ++
  concat ((fun bytes : text => let len := Z.min (zlen bytes) U16_MAX in be_encode 2 len ++ take (Z.to_nat len) bytes) <$> take (Z.to_nat count) alpn).
Definition canonical_hello (ciphers signatures groups : list Z) (alpn : list text) : list Z :=
  TLS_CLIENT_HELLO_FINGERPRINT_KIND ++ [0] ++ write_u16_list ciphers ++ write_u16_list signatures ++ write_u16_list groups ++ write_alpn alpn.

(** [trim_end_matches('.')] *)
Definition trim_end_dots (s : text) : text := rev (skip_char 46 (rev s)).
Definition normalize_tls_sni (value : text) : text := to_ascii_lowercase (trim_end_dots (utf8_trim value)).

(** [format!("0x{:04x}")] *)
Definition hex_u16 (v : Z) : text :=
  bytes_of_string "0x" ++ (hex_digit <$> [v / 4096 mod 16; v / 256 mod 16; v / 16 mod 16; v mod 16]).
Definition tls_version_name (version : Z) : text :=
  if version =? 771 then bytes_of_string "TLS 1.2"
  else if version =? 772 then bytes_of_string "TLS 1.3"
  else if version =? 0 then []
  else hex_u16 version.
Definition TLS_SUITES : list (Z * string) :=
  [(4865, "TLS_AES_128_GCM_SHA256"); (4866, "TLS_AES_256_GCM_SHA384"); (4867, "TLS_CHACHA20_POLY1305_SHA256");
   (49195, "TLS_ECDHE_ECDSA_WITH_AES_128_GCM_SHA256"); (49196, "TLS_ECDHE_ECDSA_WITH_AES_256_GCM_SHA384");
   (49199, "TLS_ECDHE_RSA_WITH_AES_128_GCM_SHA256"); (49200, "TLS_ECDHE_RSA_WITH_AES_256_GCM_SHA384");
   (52392, "TLS_ECDHE_RSA_WITH_CHACHA20_POLY1305_SHA256"); (52393, "TLS_ECDHE_ECDSA_WITH_CHACHA20_POLY1305_SHA256")]%string.
Definition tls_cipher_suite_name (suite : Z) : text :=
  match find (fun x : Z * string => x.1 =? suite) TLS_SUITES with
  | Some (_, name) => bytes_of_string name
  | None => if suite =? 0 then [] else hex_u16 suite
  end.

Record TLSHandshakeInfo := {
  ti_fingerprint_kind : text; ti_fingerprint_sha256 : text; ti_version_id : Z; ti_version : text; ti_cipher_suite_id : Z;
  ti_cipher_suite : text; ti_alpn : text; ti_sni : text; ti_offered_cipher_suites : list Z;
  ti_offered_signature_schemes : list Z; ti_offered_groups : list Z; ti_offered_alpn : list text }.
Definition TLSHandshakeInfo_default : TLSHandshakeInfo :=
  {| ti_fingerprint_kind := []; ti_fingerprint_sha256 := []; ti_version_id := 0; ti_version := []; ti_cipher_suite_id := 0;
     ti_cipher_suite := []; ti_alpn := []; ti_sni := []; ti_offered_cipher_suites := []; ti_offered_signature_schemes := [];
     ti_offered_groups := []; ti_offered_alpn := [] |}.

(** The greeting as rustls shows it to the resolver. *)
Record ClientHello := {
  ch_server_name : option text; ch_cipher_suites : list Z; ch_signature_schemes : list Z; ch_named_groups : option (list Z);
  ch_alpn : option (list text) }.
(** What rustls has negotiated. *)
Record TlsNegotiated := { tn_version : option Z; tn_suite : option Z; tn_alpn : option text; tn_server_name : option text }.

(** [str::from_utf8] *)
Fixpoint is_utf8 (fuel : nat) (s : text) : bool :=
  match fuel, s with
  | _, [] => true
  | O, _ => false
  | S fuel, _ => match utf8_head s with Some n => is_utf8 fuel (drop n s) | None => false end
  end.
(** Bytes that [String::from_utf8_lossy] replaces by one replacement character: the
    longest beginning of a character, at least one byte. *)
Definition broken_len (s : text) : nat :=
  match s with
  | b0 :: b1 :: r =>
      if (224 <=? b0) && (b0 <=? 239) && ((if b0 =? 224 then 160 else 128) <=? b1) && (b1 <=? (if b0 =? 237 then 159 else 191)) then 2%nat
      else if (240 <=? b0) && (b0 <=? 244) && ((if b0 =? 240 then 144 else 128) <=? b1) && (b1 <=? (if b0 =? 244 then 143 else 191)) then
        match r with b2 :: _ => if is_cont b2 then 3%nat else 2%nat | [] => 2%nat end
      else 1%nat
  | _ => 1%nat
  end.
Fixpoint from_utf8_lossy (fuel : nat) (s : text) : text :=
  match fuel, s with
  | _, [] | O, _ => []
  | S fuel, _ =>
      match utf8_head s with
      | Some n => take n s ++ from_utf8_lossy fuel (drop n s)
      | None => [239; 191; 189] ++ from_utf8_lossy fuel (drop (broken_len s) s)
      end
  end.

Section Observe.
Context `{CryptoPrims} `{HexCodec}.

Definition tls_client_hello_fingerprint_bytes (ciphers signatures groups : list Z) (alpn : list text) : text :=
  hex_encode (sha256 (canonical_hello ciphers signatures groups alpn)).
Definition alpn_text (p : text) : text := if is_utf8 (length p) p then p else bytes_of_string "hex:" ++ hex_encode p.
(** [ObservingCertResolver::resolve]: what is recorded before the certificate is chosen. *)
Definition observe_hello (hello : ClientHello) : TLSHandshakeInfo :=
  let suites := normalize_tls_u16 (ch_cipher_suites hello) in
  let schemes := normalize_tls_u16 (ch_signature_schemes hello) in
  let groups := normalize_tls_u16 (default [] (ch_named_groups hello)) in
  let alpn := default [] (ch_alpn hello) in
  {| ti_fingerprint_kind := TLS_CLIENT_HELLO_FINGERPRINT_KIND;
     ti_fingerprint_sha256 := tls_client_hello_fingerprint_bytes suites schemes groups alpn;
     ti_version_id := 0; ti_version := []; ti_cipher_suite_id := 0; ti_cipher_suite := []; ti_alpn := [];
     ti_sni := normalize_tls_sni (default [] (ch_server_name hello)); ti_offered_cipher_suites := suites;
     ti_offered_signature_schemes := schemes; ti_offered_groups := groups; ti_offered_alpn := alpn_text <$> alpn |}.

Definition observed_tls_handshake (observed : option TLSHandshakeInfo) (n : TlsNegotiated) : option TLSHandshakeInfo :=
  let info := default TLSHandshakeInfo_default observed in
  let version := default 0 (tn_version n) in
  let suite := default 0 (tn_suite n) in
  if (version =? 0) && (suite =? 0) && bool_decide (ti_fingerprint_sha256 info = []) then None
  else Some
    {| ti_fingerprint_kind := ti_fingerprint_kind info; ti_fingerprint_sha256 := ti_fingerprint_sha256 info;
       ti_version_id := version; ti_version := tls_version_name version; ti_cipher_suite_id := suite;
       ti_cipher_suite := tls_cipher_suite_name suite;
       ti_alpn := match tn_alpn n with Some v => from_utf8_lossy (length v) v | None => [] end;
       ti_sni := match ti_sni info with [] => normalize_tls_sni (default [] (tn_server_name n)) | s => s end;
       ti_offered_cipher_suites := ti_offered_cipher_suites info;
       ti_offered_signature_schemes := ti_offered_signature_schemes info; ti_offered_groups := ti_offered_groups info;
       ti_offered_alpn := ti_offered_alpn info |}.
End Observe.

(** ** The pin *)

Section PinFacts.
Context `{CryptoLaws} `{HexLaws}.

Lemma hex_encode_inj a b : bytes_ok a -> bytes_ok b -> hex_encode a = hex_encode b -> a = b.
Proof. intros Ha Hb E. pose proof (hex_roundtrip a Ha) as H1'. rewrite E, hex_roundtrip in H1' by done. by injection H1'. Qed.

(** A text spells a digest: its hexadecimal digits in either case, colons anywhere. *)
Definition spells (pin digest : text) : Prop := to_ascii_lowercase (replace_colons pin) = hex_encode digest.

(** A pinned client talks to exactly one certificate: whatever chain, name or
    validity period it shows, a server is accepted if and only if the SHA-256 of its
    certificate is the pinned one, in whatever case and with whatever colons the pin is
    written, and it holds the certificate's key. *)
Theorem certificate_pin_exact pin digest cert webpki sig_ok :
  bytes_ok digest -> pin <> [] -> spells pin digest ->
  server_accepted (build_tls_config false pin) cert webpki sig_ok = true <-> sha256 cert = digest /\ sig_ok = true.
Proof.
  intros Hd Hne Hs. destruct pin as [|c pin]; [done|]. unfold server_accepted. cbn [build_tls_config verify_server_cert verify_signature].
  rewrite andb_true_iff. unfold cert_hash_matches. rewrite bool_decide_eq_true. rewrite Hs.
  split; intros [E ->]; (split; [|done]); [|by rewrite E]. apply hex_encode_inj in E; [done|apply sha256_bytes|done].
Qed.

(** The fingerprint as certificate tools print it: pairs of capitals between colons. *)
Definition upper_digit (v : Z) : Z := if v <? 10 then v + 48 else v + 55.
Fixpoint colon_form (digest : list Z) : text :=
  match digest with
  | [] => []
  | [b] => [upper_digit (b / 16); upper_digit (b mod 16)]
  | b :: rest => [upper_digit (b / 16); upper_digit (b mod 16); 58] ++ colon_form rest
  end.
Lemma upper_lower v : 0 <= v < 16 -> to_ascii_lowercase (replace_colons [upper_digit v]) = [hex_digit v].
Proof.
  intros Hv. unfold upper_digit, hex_digit, replace_colons, to_ascii_lowercase. destruct (Z.ltb_spec v 10); cbn.
  - destruct (Z.eqb_spec (v + 48) 58); [lia|]. cbn. destruct (Z.leb_spec 65 (v + 48)); [lia|done].
  - destruct (Z.eqb_spec (v + 55) 58); [lia|]. cbn. destruct (Z.leb_spec 65 (v + 55)); [|lia]. destruct (Z.leb_spec (v + 55) 90); [|lia].
    cbn. f_equal. lia.
Qed.
Lemma lower_app a b : to_ascii_lowercase (replace_colons (a ++ b)) = to_ascii_lowercase (replace_colons a) ++ to_ascii_lowercase (replace_colons b).
Proof. unfold replace_colons, to_ascii_lowercase. by rewrite List.filter_app, fmap_app. Qed.
Lemma pair_lower b : is_byte b -> to_ascii_lowercase (replace_colons [upper_digit (b / 16); upper_digit (b mod 16)]) = [hex_digit (b / 16); hex_digit (b mod 16)].
Proof.
  intros Hb. assert (0 <= b / 16 < 16) by (div_mod b 16; unfold is_byte in *; lia). assert (0 <= b mod 16 < 16) by (apply Z.mod_pos_bound; lia).
  change [upper_digit (b / 16); upper_digit (b mod 16)] with ([upper_digit (b / 16)] ++ [upper_digit (b mod 16)]).
  by rewrite lower_app, !upper_lower.
Qed.
Lemma colon_form_spells digest : bytes_ok digest -> spells (colon_form digest) digest.
Proof.
  intros Hb. unfold spells. rewrite hex_encode_spec by done. induction Hb as [|b rest Hb Hr IH]; [done|].
  rewrite fmap_cons. cbn [concat]. rewrite <-(pair_lower b Hb). destruct rest as [|b' rest].
  - cbn [fmap list_fmap concat colon_form]. by rewrite app_nil_r.
  - rewrite <-IH. change (colon_form (b :: b' :: rest)) with ([upper_digit (b / 16); upper_digit (b mod 16)] ++ [58] ++ colon_form (b' :: rest)).
    by rewrite lower_app.
Qed.
End PinFacts.

(** ** The fingerprint *)

Definition u16s (l : list Z) : Prop := Forall (fun v => 0 <= v < 65536) l.

Lemma concat_u16_inj a b ra rb :
  length a = length b -> u16s a -> u16s b -> concat (be_encode 2 <$> a) ++ ra = concat (be_encode 2 <$> b) ++ rb -> a = b /\ ra = rb.
Proof.
  intros Hl Ha. revert b Hl. induction Ha as [|x a Hx _ IH]; intros [|y b] Hl Hb; [done|done|done|].
  apply Forall_cons in Hb as [Hy Hb]. rewrite !fmap_cons. cbn [concat]. rewrite <-!app_assoc. intros E.
  apply app_inj_1 in E as [Exy E]; [|by rewrite !length_be_encode]. apply be_encode_inj in Exy as ->; [|done..].
  destruct (IH b ltac:(simpl in Hl; lia) Hb E) as [-> ->]. done.
Qed.
Lemma normalize_u16s l : u16s l -> u16s (normalize_tls_u16 l).
Proof. intros Hl. unfold u16s, normalize_tls_u16. induction Hl as [|v l Hv _ IH]; cbn; [constructor|]. destruct (negb _); [by constructor|done]. Qed.
(** A list that fits its count is written whole. *)
Lemma take_count {A} (l : list A) : zlen l <= U16_MAX -> Z.min (zlen l) U16_MAX = zlen l /\ take (Z.to_nat (zlen l)) l = l.
Proof. intros Hl. split; [lia|]. apply take_ge. lia. Qed.
Lemma count_inj {A B} (a : list A) (b : list B) ra rb :
  zlen a <= U16_MAX -> zlen b <= U16_MAX -> be_encode 2 (zlen a) ++ ra = be_encode 2 (zlen b) ++ rb -> length a = length b /\ ra = rb.
Proof.
  intros La Lb E. apply app_inj_1 in E as [El E]; [|by rewrite !length_be_encode].
  apply be_encode_inj in El; [|change (256 ^ Z.of_nat 2) with 65536; unfold U16_MAX in *; lia..]. split; [lia|done].
Qed.
Lemma write_u16_inj a b ra rb :
  u16s a -> u16s b -> zlen (normalize_tls_u16 a) <= U16_MAX -> zlen (normalize_tls_u16 b) <= U16_MAX ->
  write_u16_list a ++ ra = write_u16_list b ++ rb -> normalize_tls_u16 a = normalize_tls_u16 b /\ ra = rb.
Proof.
  intros Ha Hb La Lb. unfold write_u16_list. cbv zeta. destruct (take_count _ La) as [-> ->], (take_count _ Lb) as [-> ->]. rewrite <-!app_assoc.
  intros [El E]%count_inj; [|done..]. apply concat_u16_inj in E; [done|done|by apply normalize_u16s..].
Qed.
Definition alpn_ok (alpn : list text) : Prop := zlen alpn <= U16_MAX /\ Forall (fun x : text => zlen x <= U16_MAX) alpn.
Lemma write_alpn_inj a b : alpn_ok a -> alpn_ok b -> write_alpn a = write_alpn b -> a = b.
Proof.
  intros [La Ha] [Lb Hb]. unfold write_alpn. cbv zeta. destruct (take_count _ La) as [-> ->], (take_count _ Lb) as [-> ->].
  intros [El E]%count_inj; [|done..]. clear La Lb.
  revert b Hb El E. induction Ha as [|x a Hx _ IH]; intros [|y b] Hb Hl; [done|done|done|].
  apply Forall_cons in Hb as [Hy Hb]. rewrite !fmap_cons. cbn [concat]. destruct (take_count _ Hx) as [-> ->], (take_count _ Hy) as [-> ->].
  rewrite <-!app_assoc. intros [El E]%count_inj; [|done..]. apply app_inj_1 in E as [-> E]; [|done]. f_equal. apply IH; [done|simpl in Hl; lia|done].
Qed.

(** The fingerprint tells apart all greetings that differ in anything but the reserved
    random values and the server name: the hashed encoding determines the lists, in
    order, and the protocols byte for byte, so equal fingerprints mean equal offers up
    to a collision of SHA-256. *)
Theorem fingerprint_determines_offer c s g a c' s' g' a' :
  u16s c -> u16s s -> u16s g -> u16s c' -> u16s s' -> u16s g' ->
  zlen c <= U16_MAX -> zlen s <= U16_MAX -> zlen g <= U16_MAX ->
  zlen c' <= U16_MAX -> zlen s' <= U16_MAX -> zlen g' <= U16_MAX -> alpn_ok a -> alpn_ok a' ->
  canonical_hello c s g a = canonical_hello c' s' g' a' <->
  normalize_tls_u16 c = normalize_tls_u16 c' /\ normalize_tls_u16 s = normalize_tls_u16 s' /\
  normalize_tls_u16 g = normalize_tls_u16 g' /\ a = a'.
Proof.
  intros. assert (Hn : forall l, zlen l <= U16_MAX -> zlen (normalize_tls_u16 l) <= U16_MAX).
  { intros l Hl. unfold normalize_tls_u16. pose proof (List.filter_length_le (fun v => negb (is_tls_grease v)) l). lia. }
  split.
  - unfold canonical_hello. intros E. apply app_inv_head in E. apply app_inv_head in E.
    apply write_u16_inj in E as [-> E]; [|by auto..]. apply write_u16_inj in E as [-> E]; [|by auto..].
    apply write_u16_inj in E as [-> E]; [|by auto..]. apply write_alpn_inj in E as ->; done.
  - intros (E1 & E2 & E3 & ->). unfold canonical_hello, write_u16_list. by rewrite E1, E2, E3.
Qed.

(** The reserved values are exactly the sixteen of RFC 8701. *)
Lemma grease_values v : 0 <= v < 65536 -> is_tls_grease v = true <-> exists k, 0 <= k < 16 /\ v = 4112 * k + 2570.
Proof.
  intros Hv. unfold is_tls_grease. rewrite andb_true_iff, !Z.eqb_eq, Z.shiftr_div_pow2 by lia.
  change 15 with (Z.ones 4). rewrite Z.land_ones by lia. change (2 ^ 8) with 256. change (2 ^ 4) with 16.
  split.
  - intros [E1 E2]. exists (v mod 256 / 16). div_mod v 256. rewrite (Z.mod_small (v / 256)) in E1 by lia. div_mod (v mod 256) 16. lia.
  - intros (k & Hk & ->). assert (E1 : (4112 * k + 2570) / 256 = 16 * k + 10) by (symmetry; apply (Z.div_unique _ _ _ (16 * k + 10)); lia).
    assert (E2 : (4112 * k + 2570) mod 256 = 16 * k + 10) by (symmetry; apply (Z.mod_unique _ _ (16 * k + 10)); lia).
    rewrite E1, E2, Z.mod_small by lia. split; [done|]. symmetry. apply (Z.mod_unique _ _ k); lia.
Qed.

(** A client that sprinkles reserved values anywhere into its greeting is shown with the
    same offer and the same fingerprint. *)
Lemma normalize_idemp l : normalize_tls_u16 (normalize_tls_u16 l) = normalize_tls_u16 l.
Proof.
  unfold normalize_tls_u16. induction l as [|v l IH]; [done|]. cbn. destruct (negb (is_tls_grease v)) eqn:E; [|done]. cbn. by rewrite E, IH.
Qed.
Lemma observation_ignores_grease `{CryptoPrims} `{HexCodec} hello hello' :
  ch_server_name hello = ch_server_name hello' -> ch_alpn hello = ch_alpn hello' ->
  normalize_tls_u16 (ch_cipher_suites hello) = normalize_tls_u16 (ch_cipher_suites hello') ->
  normalize_tls_u16 (ch_signature_schemes hello) = normalize_tls_u16 (ch_signature_schemes hello') ->
  normalize_tls_u16 (default [] (ch_named_groups hello)) = normalize_tls_u16 (default [] (ch_named_groups hello')) ->
  observe_hello hello = observe_hello hello'.
Proof. intros E1 E2 E3 E4 E5. unfold observe_hello. by rewrite E1, E2, E3, E4, E5. Qed.
(** Normalising before hashing changes nothing, so both ends of the wire agree on the
    fingerprint whether or not they filter first. *)
Lemma fingerprint_of_raw `{CryptoPrims} `{HexCodec} hello :
  ti_fingerprint_sha256 (observe_hello hello) =
  tls_client_hello_fingerprint_bytes (ch_cipher_suites hello) (ch_signature_schemes hello) (default [] (ch_named_groups hello)) (default [] (ch_alpn hello)).
Proof. cbn. unfold tls_client_hello_fingerprint_bytes, canonical_hello, write_u16_list. by rewrite !normalize_idemp. Qed.

(** Replacement ends: the fuel of the text functions is enough for every input, and text
    that is UTF-8 already is left alone. *)
Lemma lossy_of_utf8 fuel s : is_utf8 fuel s = true -> from_utf8_lossy fuel s = s.
Proof.
  revert s. induction fuel as [|fuel IH]; intros [|b s]; cbn [is_utf8 from_utf8_lossy]; [done..|].
  destruct (utf8_head (b :: s)) as [n|]; [|done]. intros E. rewrite IH by done. apply take_drop.
Qed.

Lemma certificate_pin_exact_witness :
  server_accepted (build_tls_config false (colon_form (sha256 [7; 8]))) [7; 8] false true = true.
Proof.
  apply (certificate_pin_exact (colon_form (sha256 [7; 8])) (sha256 [7; 8]) [7; 8] false true).
  - apply sha256_bytes.
  - vm_compute. discriminate.
  - apply colon_form_spells, sha256_bytes.
  - done.
Defined.
