(* ===== verification/WebState.v ===== *)
(** * The state behind the web interface: [src/src/web_parity.rs]

    Login sessions, the ring of events, the daily traffic buckets, and the handling of
    the configuration as a JSON value: redaction of secrets for display, merging a
    submitted configuration, and the list of changed paths.  JSON objects are
    [serde_json]'s ordered maps, hence association lists with ascending keys; texts are
    byte lists.  The clock, the random bytes and the local date are arguments. *)
From S2P Require Import Prelude Utils Crypto Pool Policy.

(** ** JSON values *)

Inductive Value :=
| VNull
| VBool (b : bool)
| VNumber (n : Z)
| VFloat (bits : Z)
| VString (s : text)
| VArray (l : list Value)
| VObject (m : list (text * Value)).

Fixpoint key_ltb (a b : text) : bool :=
  match a, b with
  | _, [] => false
  | [], _ :: _ => true
  | x :: a, y :: b => (x <? y) || ((x =? y) && key_ltb a b)
  end.

Fixpoint obj_get {A} (m : list (text * A)) (k : text) : option A :=
  match m with
  | [] => None
  | (k', v) :: m => if bool_decide (k' = k) then Some v else obj_get m k
  end.
Fixpoint obj_insert {A} (m : list (text * A)) (k : text) (v : A) : list (text * A) :=
  match m with
  | [] => [(k, v)]
  | (k', v') :: rest =>
      if bool_decide (k' = k) then (k, v) :: rest
      else if key_ltb k k' then (k, v) :: m else (k', v') :: obj_insert rest k v
  end.

Definition value_get (v : Value) (k : text) : option Value := match v with VObject m => obj_get m k | _ => None end.
Definition as_str (v : Value) : option text := match v with VString s => Some s | _ => None end.
Definition as_u64 (v : Value) : option Z :=
  match v with VNumber n => if (0 <=? n) && (n <=? U64_MAX) then Some n else None | _ => None end.
Definition is_object (v : Value) : bool := match v with VObject _ => true | _ => false end.

(** [value[k] = new] through [IndexMut]: [null] becomes an object, anything else that
    is not an object panics ([None]). *)
Definition index_set (v : Value) (k : text) (new : Value) : option Value :=
  match v with
  | VObject m => Some (VObject (obj_insert m k new))
  | VNull => Some (VObject [(k, new)])
  | _ => None
  end.

(** ** Secrets in the configuration *)

Fixpoint get_path (v : Value) (path : list text) : option Value :=
  match path with
  | [] => Some v
  | part :: path => v' ← value_get v part; get_path v' path
  end.

Fixpoint set_pointer_string (v : Value) (path : list text) (s : text) : option Value :=
  match path with
  | [] => Some v
  | [last] => index_set v last (VString s)
  | part :: rest =>
      let inner := match value_get v part with Some o => if is_object o then o else VObject [] | None => VObject [] end in
      inner' ← set_pointer_string inner rest s;
      index_set v part inner'
  end.

Definition preserve_empty_string (candidate current : Value) (path : list text) : option Value :=
  let candidate_value := get_path candidate path ≫= as_str in
  if match candidate_value with Some s => bool_decide (s = []) | None => true end then
    match get_path current path ≫= as_str with
    | Some existing => set_pointer_string candidate path existing
    | None => Some candidate
    end
  else Some candidate.

Definition PSK_PATH : list text := [word "psk"].
Definition SOCKS5_PATH : list text := [word "socks5"].
Definition AUTH_PATH : list text := [word "web"; word "auth"].

Definition redacted_config (cfg : Value) : option Value :=
  cfg ← set_pointer_string cfg PSK_PATH [];
  cfg ← set_pointer_string cfg SOCKS5_PATH [];
  set_pointer_string cfg AUTH_PATH [].
Definition merge_preserving_secrets (current candidate : Value) : option Value :=
  candidate ← preserve_empty_string candidate current PSK_PATH;
  candidate ← preserve_empty_string candidate current SOCKS5_PATH;
  preserve_empty_string candidate current AUTH_PATH.
Definition current_auth (cfg : Value) : text := default [] (get_path cfg AUTH_PATH ≫= as_str).

(** ** Changed paths *)

Fixpoint value_eqb (a b : Value) : bool :=
  match a, b with
  | VNull, VNull => true
  | VBool x, VBool y => Bool.eqb x y
  | VNumber x, VNumber y | VFloat x, VFloat y => x =? y
  | VString x, VString y => bool_decide (x = y)
  | VArray l, VArray k =>
      (fix eq_list l k := match l, k with
        | [], [] => true | x :: l, y :: k => value_eqb x y && eq_list l k | _, _ => false end) l k
  | VObject l, VObject k =>
      (fix eq_obj l k := match l, k with
        | [], [] => true
        | (n, x) :: l, (n', y) :: k => bool_decide (n = n') && value_eqb x y && eq_obj l k
        | _, _ => false end) l k
  | _, _ => false
  end.

(** Nesting of objects, which bounds the recursion of [diff_value]. *)
Fixpoint depth (v : Value) : nat :=
  match v with
  | VObject m => S ((fix go m := match m with [] => O | (_, x) :: m => Nat.max (depth x) (go m) end) m)
  | _ => 1%nat
  end.

Fixpoint insert_text (k : text) (l : list text) : list text :=
  match l with
  | [] => [k]
  | x :: rest => if key_ltb k x then k :: l else x :: insert_text k rest
  end.
Definition sort_texts (l : list text) : list text := foldr insert_text [] l.
(** [dedup]: removes repeated neighbours. *)
Fixpoint dedup_texts (l : list text) : list text :=
  match l with
  | x :: (y :: _) as rest => if bool_decide (x = y) then dedup_texts rest else x :: dedup_texts rest
  | _ => l
  end.

Definition join_key (prefix key : text) : text := match prefix with [] => key | _ => prefix ++ [DOT] ++ key end.

Fixpoint diff_value (fuel : nat) (prefix : text) (old new : Value) : list text :=
  match fuel with
  | O => []
  | S fuel =>
      match old, new with
      | VObject a, VObject b =>
          concat ((fun key =>
            match obj_get a key, obj_get b key with
            | Some x, Some y => diff_value fuel (join_key prefix key) x y
            | _, _ => [join_key prefix key]
            end) <$> dedup_texts (sort_texts (a.*1 ++ b.*1)))
      | _, _ => if negb (value_eqb old new) then [prefix] else []
      end
  end.
Definition diff_paths (old new : Value) : list text := dedup_texts (sort_texts (diff_value (depth old) [] old new)).

Example diff_run :
  diff_paths
    (VObject [(word "log_level", VString (word "info")); (word "web", VObject [(word "addr", VString (word ":8080"))])])
    (VObject [(word "log_level", VString (word "debug")); (word "web", VObject [(word "addr", VString (word ":8081"))])])
  = [word "log_level"; word "web.addr"].
Proof. vm_compute. reflexivity. Qed.
