(* ===== verification/WebSpec.v ===== *)
(** * Properties of the web interface's state *)
From S2P Require Import Prelude Utils Crypto Pool Policy WebState.

(** ** Ordered objects *)

Lemma key_ltb_irrefl a : key_ltb a a = false.
Proof. induction a as [|x a IH]; [done|]. cbn. by rewrite Z.ltb_irrefl, Z.eqb_refl, IH. Qed.
Lemma key_ltb_trans a b c : key_ltb a b = true -> key_ltb b c = true -> key_ltb a c = true.
Proof.
  revert b c. induction a as [|x a IH]; intros [|y b] [|z c]; try done. cbn. rewrite !orb_true_iff, !andb_true_iff, !Z.ltb_lt, !Z.eqb_eq.
  intros [|[-> Hab]] [|[-> Hbc]]; try (left; lia). right. split; [done|]. by eapply IH.
Qed.
Lemma key_ltb_total a b : a <> b -> key_ltb a b = true \/ key_ltb b a = true.
Proof.
  revert b. induction a as [|x a IH]; intros [|y b] Hne; cbn; [done|by left|by right|].
  destruct (Z.lt_trichotomy x y) as [Hl|[->|Hl]].
  - left. apply Z.ltb_lt in Hl. by rewrite Hl.
  - rewrite Z.ltb_irrefl, Z.eqb_refl. cbn. apply IH. congruence.
  - right. apply Z.ltb_lt in Hl. by rewrite Hl.
Qed.
Lemma key_ltb_asym a b : key_ltb a b = true -> key_ltb b a = false.
Proof.
  intros Hab. destruct (key_ltb b a) eqn:E; [|done]. pose proof (key_ltb_trans a b a Hab E) as Hc. by rewrite key_ltb_irrefl in Hc.
Qed.

(** Ascending keys; [below k m]: all keys of [m] are above [k]. *)
Definition below {A} (k : text) (m : list (text * A)) : Prop := Forall (fun p => key_ltb k p.1 = true) m.
Fixpoint ascending {A} (m : list (text * A)) : Prop :=
  match m with [] => True | (k, _) :: m => below k m /\ ascending m end.

Lemma below_get {A} k (m : list (text * A)) : below k m -> obj_get m k = None.
Proof.
  induction 1 as [|[k' v] m Hk _ IH]; [done|]. cbn in *. rewrite bool_decide_eq_false_2; [done|]. intros ->. by rewrite key_ltb_irrefl in Hk.
Qed.
Lemma below_trans {A} k k' (m : list (text * A)) : key_ltb k k' = true -> below k' m -> below k m.
Proof. intros Hk Hb. eapply Forall_impl; [exact Hb|]. intros [k2 v] H2. by eapply key_ltb_trans. Qed.
Lemma get_in {A} (m : list (text * A)) k v : obj_get m k = Some v -> (k, v) ∈ m.
Proof.
  induction m as [|[k' v'] m IH]; [done|]. cbn. case_bool_decide as E; [intros [= ->]; subst; by left|]. intros Hg. right. by apply IH.
Qed.
Lemma below_get_some {A} k (m : list (text * A)) k' v : below k m -> obj_get m k' = Some v -> key_ltb k k' = true.
Proof. intros Hb Hg%get_in. unfold below in Hb. rewrite Forall_forall in Hb. exact (Hb _ Hg). Qed.

(** Objects with the same members are equal. *)
Lemma obj_ext {A} (m m' : list (text * A)) : ascending m -> ascending m' -> (forall k, obj_get m k = obj_get m' k) -> m = m'.
Proof.
  revert m'. induction m as [|[k v] m IH]; intros [|[k' v'] m']; cbn [ascending]; intros Hm Hm' Hg.
  - done.
  - specialize (Hg k'). cbn in Hg. by rewrite bool_decide_eq_true_2 in Hg.
  - specialize (Hg k). cbn in Hg. by rewrite bool_decide_eq_true_2 in Hg.
  - destruct Hm as [Hb Hm], Hm' as [Hb' Hm'].
    assert (k = k') as <-.
    { destruct (decide (k = k')) as [|Hne]; [done|]. exfalso.
      pose proof (Hg k) as H1. pose proof (Hg k') as H2. cbn in H1, H2.
      rewrite bool_decide_eq_true_2, (bool_decide_eq_false_2 (k' = k)) in H1 by congruence.
      rewrite (bool_decide_eq_false_2 (k = k')), bool_decide_eq_true_2 in H2 by congruence.
      symmetry in H1. apply (below_get_some _ _ _ _ Hb') in H1. apply (below_get_some _ _ _ _ Hb) in H2.
      rewrite (key_ltb_asym _ _ H1) in H2. done. }
    pose proof (Hg k) as H1. cbn in H1. rewrite !bool_decide_eq_true_2 in H1 by done. injection H1 as <-. f_equal.
    apply IH; [done|done|]. intros k2. specialize (Hg k2). cbn in Hg. case_bool_decide as E; [|done].
    subst k2. by rewrite (below_get _ _ Hb), (below_get _ _ Hb').
Qed.

Lemma get_insert {A} (m : list (text * A)) k v k' : obj_get (obj_insert m k v) k' = if bool_decide (k = k') then Some v else obj_get m k'.
Proof.
  induction m as [|[k1 v1] m IH]; cbn; [done|]. destruct (decide (k1 = k)) as [->|E1].
  { rewrite bool_decide_eq_true_2 by done. cbn. repeat case_bool_decide; congruence. }
  rewrite (bool_decide_eq_false_2 (k1 = k)) by done. destruct (key_ltb k k1); cbn; [repeat case_bool_decide; congruence|].
  rewrite IH. repeat case_bool_decide; congruence.
Qed.
Lemma insert_below {A} k0 (m : list (text * A)) k v : key_ltb k0 k = true -> below k0 m -> below k0 (obj_insert m k v).
Proof.
  intros Hk. induction 1 as [|[k1 v1] m H1 Hm IH]; cbn; [by repeat constructor|].
  case_bool_decide as E; [subst; by constructor|]. destruct (key_ltb k k1); [by repeat constructor|by constructor].
Qed.
Lemma insert_ascending {A} (m : list (text * A)) k v : ascending m -> ascending (obj_insert m k v).
Proof.
  induction m as [|[k1 v1] m IH]; cbn [ascending obj_insert]; [by intros _; repeat constructor|]. intros [Hb Hm].
  case_bool_decide as E; [by subst|]. destruct (key_ltb k k1) eqn:El.
  - split; [|done]. constructor; [done|]. by eapply below_trans.
  - split; [|by apply IH]. apply insert_below; [|done]. destruct (key_ltb_total k1 k E) as [|C]; [done|congruence].
Qed.

Lemma insert_insert {A} (m : list (text * A)) k v w : ascending m -> obj_insert (obj_insert m k v) k w = obj_insert m k w.
Proof.
  intros Hm. apply obj_ext; [by do 2 apply insert_ascending|by apply insert_ascending|]. intros k'. rewrite !get_insert. by case_bool_decide.
Qed.
Lemma insert_commute {A} (m : list (text * A)) k v k' w : ascending m -> k <> k' -> obj_insert (obj_insert m k v) k' w = obj_insert (obj_insert m k' w) k v.
Proof.
  intros Hm Hne. apply obj_ext; [by do 2 apply insert_ascending..|]. intros k2. rewrite !get_insert.
  case_bool_decide; case_bool_decide; congruence.
Qed.
Lemma insert_get {A} (m : list (text * A)) k v : ascending m -> obj_get m k = Some v -> obj_insert m k v = m.
Proof.
  intros Hm Hg. apply obj_ext; [by apply insert_ascending|done|]. intros k'. rewrite get_insert. case_bool_decide; congruence.
Qed.

(** ** Secrets *)

Definition web_of (m : list (text * Value)) : list (text * Value) :=
  match obj_get m (word "web") with Some (VObject w) => w | _ => [] end.
(** A configuration object with ordered members. *)
Definition config_ok (m : list (text * Value)) : Prop := ascending m /\ ascending (web_of m).

Lemma secret_keys : word "psk" <> word "socks5" /\ word "psk" <> word "web" /\ word "socks5" <> word "web".
Proof. by vm_compute. Qed.

Definition put (m : list (text * Value)) (k s : text) : list (text * Value) := obj_insert m k (VString s).
Definition put_auth (m : list (text * Value)) (s : text) : list (text * Value) :=
  obj_insert m (word "web") (VObject (put (web_of m) (word "auth") s)).

Lemma set_psk m s : set_pointer_string (VObject m) PSK_PATH s = Some (VObject (put m (word "psk") s)).
Proof. done. Qed.
Lemma set_socks5 m s : set_pointer_string (VObject m) SOCKS5_PATH s = Some (VObject (put m (word "socks5") s)).
Proof. done. Qed.
Lemma set_auth m s : set_pointer_string (VObject m) AUTH_PATH s = Some (VObject (put_auth m s)).
Proof.
  unfold AUTH_PATH. cbn [set_pointer_string value_get]. unfold put_auth, web_of. by destruct (obj_get m (word "web")) as [[]|].
Qed.

Lemma web_of_put m k s : k <> word "web" -> web_of (put m k s) = web_of m.
Proof. intros Hk. unfold web_of, put. rewrite get_insert. by rewrite bool_decide_eq_false_2. Qed.
Lemma web_of_put_auth m s : web_of (put_auth m s) = put (web_of m) (word "auth") s.
Proof. unfold web_of at 1, put_auth. rewrite get_insert. by rewrite bool_decide_eq_true_2. Qed.
Lemma put_ok m k s : k <> word "web" -> config_ok m -> config_ok (put m k s).
Proof. intros Hk [Hm Hw]. split; [by apply insert_ascending|]. by rewrite web_of_put. Qed.
Lemma put_auth_ok m s : config_ok m -> config_ok (put_auth m s).
Proof. intros [Hm Hw]. split; [by apply insert_ascending|]. rewrite web_of_put_auth. by apply insert_ascending. Qed.

Lemma put_put m k s t : config_ok m -> put (put m k s) k t = put m k t.
Proof. intros [Hm _]. by apply insert_insert. Qed.
Lemma put_comm m k s k' t : config_ok m -> k <> k' -> put (put m k s) k' t = put (put m k' t) k s.
Proof. intros [Hm _] Hne. by apply insert_commute. Qed.
Lemma put_auth_put m k s t : config_ok m -> k <> word "web" -> put_auth (put m k s) t = put (put_auth m t) k s.
Proof. intros [Hm _] Hne. unfold put_auth. rewrite web_of_put by done. by apply insert_commute. Qed.
Lemma put_auth_put_auth m s t : config_ok m -> put_auth (put_auth m s) t = put_auth m t.
Proof.
  intros [Hm Hw]. unfold put_auth at 1. rewrite web_of_put_auth.
  assert (put (put (web_of m) (word "auth") s) (word "auth") t = put (web_of m) (word "auth") t) as -> by (by apply insert_insert).
  by apply insert_insert.
Qed.

(** The redacted configuration. *)
Definition redacted (m : list (text * Value)) : list (text * Value) := put_auth (put (put m (word "psk") []) (word "socks5") []) [].
Lemma redacted_config_eq m : redacted_config (VObject m) = Some (VObject (redacted m)).
Proof. unfold redacted_config. rewrite set_psk. cbn [mbind option_bind]. rewrite set_socks5. cbn [mbind option_bind]. apply set_auth. Qed.

(** What the interface shows of the configuration does not depend on the secrets:
    whatever key, proxy or login text is put into the configuration, the redacted
    configuration is the same, and its three secrets are empty. *)
Theorem redaction_hides_secrets m path s :
  config_ok m -> path ∈ [PSK_PATH; SOCKS5_PATH; AUTH_PATH] ->
  exists cfg', set_pointer_string (VObject m) path s = Some cfg' /\ redacted_config cfg' = redacted_config (VObject m) /\
  exists r, redacted_config (VObject m) = Some r /\
    Forall (fun q => get_path r q = Some (VString [])) [PSK_PATH; SOCKS5_PATH; AUTH_PATH].
Proof.
  intros Hok Hp. destruct secret_keys as (H12 & H13 & H23).
  assert (Hr : exists r, redacted_config (VObject m) = Some r /\
    Forall (fun q => get_path r q = Some (VString [])) [PSK_PATH; SOCKS5_PATH; AUTH_PATH]).
  { exists (VObject (redacted m)). split; [apply redacted_config_eq|]. unfold redacted, put_auth, put.
    repeat constructor; unfold PSK_PATH, SOCKS5_PATH, AUTH_PATH; cbn [get_path value_get mbind option_bind];
      rewrite !get_insert, ?bool_decide_eq_true_2, ?bool_decide_eq_false_2 by done; cbn [mbind option_bind get_path value_get]; try done.
    rewrite get_insert. by rewrite bool_decide_eq_true_2. }
  assert (H1 : put (put m (word "psk") s) (word "psk") [] = put m (word "psk") []) by (by apply put_put).
  rewrite !elem_of_cons in Hp. destruct Hp as [->|[->|[->|Hp]]]; [| | |by apply not_elem_of_nil in Hp].
  - eexists. split; [apply set_psk|]. split; [|done]. rewrite !redacted_config_eq. unfold redacted. by rewrite H1.
  - eexists. split; [apply set_socks5|]. split; [|done]. rewrite !redacted_config_eq. unfold redacted.
    rewrite (put_comm m (word "socks5") s (word "psk") []) by done. rewrite put_put by (by apply put_ok). done.
  - eexists. split; [apply set_auth|]. split; [|done]. rewrite !redacted_config_eq. unfold redacted.
    rewrite <-(put_auth_put m (word "psk") [] s) by done. rewrite <-(put_auth_put (put m _ _) (word "socks5") [] s) by (done || by apply put_ok).
    by rewrite put_auth_put_auth by (repeat (apply put_ok; [done|]); done).
Qed.

Lemma get_psk m : get_path (VObject m) PSK_PATH = obj_get m (word "psk").
Proof. unfold PSK_PATH. cbn [get_path value_get]. by destruct (obj_get m (word "psk")). Qed.
Lemma get_socks5 m : get_path (VObject m) SOCKS5_PATH = obj_get m (word "socks5").
Proof. unfold SOCKS5_PATH. cbn [get_path value_get]. by destruct (obj_get m (word "socks5")). Qed.
Lemma get_auth m : get_path (VObject m) AUTH_PATH = obj_get (web_of m) (word "auth").
Proof.
  unfold AUTH_PATH, web_of. cbn [get_path value_get]. destruct (obj_get m (word "web")) as [[| | | | | |w]|]; try done.
  cbn [mbind option_bind value_get]. by destruct (obj_get w (word "auth")).
Qed.

(** A present secret comes back, an absent one stays empty. *)
Definition kept (o : option Value) : text := default [] (o ≫= as_str).

Lemma preserve_psk m c : obj_get c (word "psk") = Some (VString []) -> ascending c ->
  preserve_empty_string (VObject c) (VObject m) PSK_PATH = Some (VObject (put c (word "psk") (kept (obj_get m (word "psk"))))).
Proof.
  intros Hc Ha. unfold preserve_empty_string. rewrite !get_psk, Hc. cbn [mbind option_bind as_str]. rewrite bool_decide_eq_true_2 by done. unfold kept.
  destruct (obj_get m (word "psk") ≫= as_str); [apply set_psk|]. unfold put. by rewrite insert_get.
Qed.
Lemma preserve_socks5 m c : obj_get c (word "socks5") = Some (VString []) -> ascending c ->
  preserve_empty_string (VObject c) (VObject m) SOCKS5_PATH = Some (VObject (put c (word "socks5") (kept (obj_get m (word "socks5"))))).
Proof.
  intros Hc Ha. unfold preserve_empty_string. rewrite !get_socks5, Hc. cbn [mbind option_bind as_str]. rewrite bool_decide_eq_true_2 by done. unfold kept.
  destruct (obj_get m (word "socks5") ≫= as_str); [apply set_socks5|]. unfold put. by rewrite insert_get.
Qed.
Lemma preserve_auth m c : obj_get (web_of c) (word "auth") = Some (VString []) -> config_ok c ->
  (exists w, obj_get c (word "web") = Some (VObject w)) ->
  preserve_empty_string (VObject c) (VObject m) AUTH_PATH = Some (VObject (put_auth c (kept (obj_get (web_of m) (word "auth"))))).
Proof.
  intros Hc [Ha Hw] [w Hweb]. unfold preserve_empty_string. rewrite !get_auth, Hc. cbn [mbind option_bind as_str]. rewrite bool_decide_eq_true_2 by done. unfold kept.
  destruct (obj_get (web_of m) (word "auth") ≫= as_str); [apply set_auth|]. unfold put_auth, put.
  rewrite (insert_get (web_of c)) by done. unfold web_of at 1. rewrite Hweb. by rewrite insert_get.
Qed.

(** The configuration with its own secrets written out. *)
Definition explicit (m : list (text * Value)) : list (text * Value) :=
  put_auth (put (put m (word "psk") (kept (obj_get m (word "psk")))) (word "socks5") (kept (obj_get m (word "socks5"))))
    (kept (obj_get (web_of m) (word "auth"))).

Lemma merge_redacted m : config_ok m -> merge_preserving_secrets (VObject m) (VObject (redacted m)) = Some (VObject (explicit m)).
Proof.
  intros Hok. destruct secret_keys as (H12 & H13 & H23). unfold merge_preserving_secrets, redacted.
  set (a := kept (obj_get m (word "psk"))). set (b := kept (obj_get m (word "socks5"))).
  set (m1 := put m (word "psk") []). assert (Hok1 : config_ok m1) by (by apply put_ok).
  set (m2 := put m1 (word "socks5") []). assert (Hok2 : config_ok m2) by (by apply put_ok).
  assert (Hok3 : config_ok (put_auth m2 [])) by (by apply put_auth_ok).
  rewrite preserve_psk; [|by unfold put_auth, m2, m1, put; rewrite !get_insert, ?bool_decide_eq_true_2, ?bool_decide_eq_false_2 by done|apply Hok3].
  fold a. cbn [mbind option_bind].
  assert (E1 : put (put_auth m2 []) (word "psk") a = put_auth (put (put m (word "psk") a) (word "socks5") []) []).
  { rewrite <-put_auth_put by done. f_equal. unfold m2. rewrite <-(put_comm m1 (word "psk") a) by done. unfold m1. by rewrite put_put. }
  rewrite E1. clear E1. set (n1 := put m (word "psk") a). assert (Hn1 : config_ok n1) by (by apply put_ok).
  set (n2 := put n1 (word "socks5") []). assert (Hn2 : config_ok n2) by (by apply put_ok).
  rewrite preserve_socks5; [|by unfold put_auth, n2, put; rewrite !get_insert, ?bool_decide_eq_true_2, ?bool_decide_eq_false_2 by done|apply put_auth_ok, Hn2].
  fold b. cbn [mbind option_bind].
  assert (E2 : put (put_auth n2 []) (word "socks5") b = put_auth (put n1 (word "socks5") b) []).
  { rewrite <-put_auth_put by done. f_equal. unfold n2. by rewrite put_put. }
  rewrite E2. clear E2. set (n3 := put n1 (word "socks5") b). assert (Hn3 : config_ok n3) by (by apply put_ok).
  rewrite preserve_auth; [|rewrite web_of_put_auth; unfold put; by rewrite get_insert, bool_decide_eq_true_2|by apply put_auth_ok|].
  - by rewrite put_auth_put_auth.
  - unfold put_auth. rewrite get_insert, bool_decide_eq_true_2 by done. by eexists.
Qed.

(** Saving the form that was shown loses nothing.  Submitting the redacted
    configuration back gives a configuration with the secrets of the stored one (empty
    where it has none) and every other member unchanged; when the stored one has all
    three secrets as texts it is exactly the stored one. *)
Theorem redacted_form_keeps_secrets m :
  config_ok m ->
  exists r m', redacted_config (VObject m) = Some r /\ merge_preserving_secrets (VObject m) r = Some (VObject m') /\
    Forall (fun q => get_path (VObject m') q ≫= as_str = Some (kept (get_path (VObject m) q))) [PSK_PATH; SOCKS5_PATH; AUTH_PATH] /\
    (forall k, k ∉ [word "psk"; word "socks5"; word "web"] -> obj_get m' k = obj_get m k) /\
    (forall k, k <> word "auth" -> obj_get (web_of m') k = obj_get (web_of m) k) /\
    (Forall (fun q => is_Some (get_path (VObject m) q ≫= as_str)) [PSK_PATH; SOCKS5_PATH; AUTH_PATH] -> m' = m).
Proof.
  intros Hok. destruct secret_keys as (H12 & H13 & H23). exists (VObject (redacted m)), (explicit m).
  split; [apply redacted_config_eq|]. split; [by apply merge_redacted|].
  assert (Hweb : web_of (explicit m) = put (web_of m) (word "auth") (kept (obj_get (web_of m) (word "auth")))).
  { unfold explicit. rewrite web_of_put_auth. by rewrite !web_of_put. }
  split_and!.
  - repeat constructor; rewrite ?get_psk, ?get_socks5, ?get_auth, ?Hweb; unfold explicit, put_auth, put;
      by rewrite !get_insert, ?bool_decide_eq_true_2, ?bool_decide_eq_false_2 by done.
  - intros k Hk. rewrite !not_elem_of_cons in Hk. destruct Hk as (K1 & K2 & K3 & _). unfold explicit, put_auth, put.
    by rewrite !get_insert, !bool_decide_eq_false_2 by congruence.
  - intros k Hk. rewrite Hweb. unfold put. by rewrite get_insert, bool_decide_eq_false_2 by congruence.
  - rewrite !Forall_cons. intros (P1 & P2 & P3 & _). rewrite get_psk in P1. rewrite get_socks5 in P2. rewrite get_auth in P3.
    assert (Hk : forall o, is_Some (o ≫= as_str) -> o = Some (VString (kept o))) by (intros [[]|] [? E]; by inversion E).
    destruct Hok as [Hm Hw]. unfold explicit, put. rewrite (insert_get m (word "psk")) by (done || by apply Hk).
    rewrite (insert_get m (word "socks5")) by (done || by apply Hk). unfold put_auth, put.
    rewrite (insert_get (web_of m)) by (done || by apply Hk). apply insert_get; [done|]. unfold web_of in *.
    destruct (obj_get m (word "web")) as [[]|]; try done; by destruct P3 as [? ?].
Qed.

(** ** Changed paths *)

Lemma value_nested_ind (P : Value -> Prop) :
  P VNull -> (forall b, P (VBool b)) -> (forall n, P (VNumber n)) -> (forall n, P (VFloat n)) -> (forall s, P (VString s)) ->
  (forall l, Forall P l -> P (VArray l)) -> (forall m, Forall (fun p => P p.2) m -> P (VObject m)) -> forall v, P v.
Proof.
  intros H1 H2 H3 H4 H5 H6 H7. fix IH 1. intros [|b|n|n|s|l|m]; [done|done|done|done|done| |].
  - apply H6. induction l as [|x l IHl]; constructor; [apply IH|exact IHl].
  - apply H7. induction m as [|[k x] m IHm]; constructor; [apply IH|exact IHm].
Qed.

Lemma value_eqb_eq a b : value_eqb a b = true <-> a = b.
Proof.
  revert b. induction a as [|x|n|n|s|l IH|m IH] using value_nested_ind; intros []; cbn [value_eqb]; try (split; congruence).
  - rewrite eqb_true_iff. split; congruence.
  - rewrite Z.eqb_eq. split; congruence.
  - rewrite Z.eqb_eq. split; congruence.
  - rewrite bool_decide_eq_true. split; congruence.
  - rename l0 into k. assert (E : forall k, (fix eq_list l k := match l, k with
        | [], [] => true | x :: l, y :: k => value_eqb x y && eq_list l k | _, _ => false end) l k = true <-> l = k).
    { clear k. induction IH as [|x l Hx _ IHl]; intros [|y k]; try (split; congruence). rewrite andb_true_iff, Hx, IHl. split; [intros [-> ->]; done|by intros [= -> ->]]. }
    rewrite E. split; congruence.
  - rename m0 into k. assert (E : forall k, (fix eq_obj l k := match l, k with
        | [], [] => true | (n, x) :: l, (n', y) :: k => bool_decide (n = n') && value_eqb x y && eq_obj l k | _, _ => false end) m k = true <-> m = k).
    { clear k. induction IH as [|[n x] l Hx _ IHl]; intros [|[n' y] k]; try (split; congruence). cbn [snd] in Hx.
      rewrite !andb_true_iff, bool_decide_eq_true, Hx, IHl. split; [intros [[-> ->] ->]; done|by intros [= -> -> ->]]. }
    rewrite E. split; congruence.
Qed.

(** Ordered members at every level of nested objects. *)
Fixpoint value_ok (v : Value) : Prop :=
  match v with
  | VObject m => ascending m /\ (fix go m := match m with [] => True | (_, x) :: m => value_ok x /\ go m end) m
  | _ => True
  end.

Lemma value_ok_member m k v : value_ok (VObject m) -> obj_get m k = Some v -> value_ok v.
Proof.
  intros [_ Hm]. induction m as [|[k' x] m IH]; [done|]. destruct Hm as [Hx Hm]. cbn. case_bool_decide; [by intros [= <-]|auto].
Qed.
Lemma depth_member m k v : obj_get m k = Some v -> (depth v < depth (VObject m))%nat.
Proof.
  cbn [depth]. induction m as [|[k' x] m IH]; [done|]. cbn [obj_get]. case_bool_decide; [intros [= <-]; lia|intros Hg%IH; lia].
Qed.

Lemma insert_text_elem k l x : x ∈ insert_text k l <-> x = k \/ x ∈ l.
Proof.
  induction l as [|y l IH]; cbn [insert_text]; [set_solver|].
  destruct (key_ltb k y); rewrite !elem_of_cons, ?IH; tauto.
Qed.
Lemma sort_texts_elem l x : x ∈ sort_texts l <-> x ∈ l.
Proof. induction l as [|y l IH]; [done|]. cbn [sort_texts foldr]. fold (sort_texts l). rewrite insert_text_elem, elem_of_cons, IH. tauto. Qed.
Lemma dedup_texts_elem l x : x ∈ dedup_texts l <-> x ∈ l.
Proof.
  induction l as [|y [|z l] IH]; [done|done|]. change (dedup_texts (y :: z :: l)) with (if bool_decide (y = z) then dedup_texts (z :: l) else y :: dedup_texts (z :: l)).
  case_bool_decide as E; [|rewrite !elem_of_cons, IH, !elem_of_cons; tauto]. rewrite IH. subst. rewrite !elem_of_cons. tauto.
Qed.
Lemma texts_nil l : dedup_texts (sort_texts l) = [] <-> l = [].
Proof.
  split; [|by intros ->]. intros E. destruct l as [|x l]; [done|]. exfalso.
  assert (Hx : x ∈ dedup_texts (sort_texts (x :: l))) by (apply dedup_texts_elem, sort_texts_elem; by left). rewrite E in Hx. by apply elem_of_nil in Hx.
Qed.
Lemma get_key {A} (m : list (text * A)) k : is_Some (obj_get m k) <-> k ∈ m.*1.
Proof.
  induction m as [|[k' x] m IH]; [rewrite elem_of_nil; split; [by intros []|done]|]. rewrite fmap_cons, elem_of_cons. cbn [obj_get fst].
  case_bool_decide as E; [split; [auto|by eexists]|]. rewrite IH. split; [tauto|by intros [->|]].
Qed.

Lemma concat_nil {A B} (f : A -> list B) l : concat (f <$> l) = [] <-> forall x, x ∈ l -> f x = [].
Proof.
  induction l as [|y l IH]; [split; [|done]; intros _ x Hx; by apply elem_of_nil in Hx|]. rewrite fmap_cons. cbn [concat]. split.
  - intros [E1 E2]%app_eq_nil x [->|Hx]%elem_of_cons; [done|]. by apply IH.
  - intros Hx. rewrite (Hx y) by left. apply IH. intros x Hl. apply Hx. by right.
Qed.

Lemma diff_value_nil fuel prefix old new :
  (depth old <= fuel)%nat -> value_ok old -> value_ok new -> (diff_value fuel prefix old new = [] <-> old = new).
Proof.
  revert prefix old new. induction fuel as [|fuel IH]; intros prefix old new Hd Ho Hn; [destruct old; simpl in Hd; lia|].
  assert (Hleaf : (if negb (value_eqb old new) then [prefix] else []) = [] <-> old = new).
  { rewrite <-value_eqb_eq. destruct (value_eqb old new); split; done. }
  cbn [diff_value]. destruct old as [| | | | | |a]; try exact Hleaf. destruct new as [| | | | | |b]; try exact Hleaf. clear Hleaf.
  rewrite concat_nil. split.
  - intros Hk. f_equal. apply obj_ext; [apply Ho|apply Hn|]. intros k.
    destruct (decide (k ∈ a.*1 ++ b.*1)) as [Hin|Hout].
    + specialize (Hk k). rewrite dedup_texts_elem, sort_texts_elem in Hk. specialize (Hk Hin).
      destruct (obj_get a k) as [x|] eqn:Ea, (obj_get b k) as [y|] eqn:Eb; try done.
      f_equal. eapply IH; [|exact (value_ok_member _ _ _ Ho Ea)|exact (value_ok_member _ _ _ Hn Eb)|exact Hk]. apply depth_member in Ea. lia.
    + rewrite elem_of_app, <-!get_key in Hout. destruct (obj_get a k), (obj_get b k); try done; exfalso; apply Hout; [left|left|right]; by eexists.
  - intros [= <-] k Hin. destruct (obj_get a k) as [x|] eqn:Ea.
    + apply IH; [apply depth_member in Ea; lia|exact (value_ok_member _ _ _ Ho Ea)..|done].
    + exfalso. rewrite dedup_texts_elem, sort_texts_elem, elem_of_app, <-!get_key, Ea in Hin. by destruct Hin as [[]|[]].
Qed.

(** The list of changed paths is empty exactly when nothing changed: two
    configurations with the same list of members are equal, and every difference, at any
    depth and also in a value that is not an object, yields a path. *)
Theorem diff_paths_exact old new :
  value_ok old -> value_ok new -> (diff_paths old new = [] <-> old = new).
Proof. intros Ho Hn. unfold diff_paths. rewrite texts_nil. by apply diff_value_nil. Qed.
Lemma redacted_form_keeps_secrets_witness :
  let m := [(word "psk", VString (word "secret")); (word "socks5", VString (word "u:p@127.0.0.1:1080"));
            (word "web", VObject [(word "auth", VString (word "admin:pw"))])] in
  exists r, redacted_config (VObject m) = Some r /\ merge_preserving_secrets (VObject m) r = Some (VObject m).
Proof.
  intros m. destruct (redacted_form_keeps_secrets m) as (r & m' & Hr & Hm & _ & _ & _ & Heq).
  - vm_compute. repeat constructor.
  - exists r. split; [exact Hr|]. rewrite Hm, Heq; [reflexivity|]. repeat constructor; vm_compute; eexists; reflexivity.
Defined.
