(* ===== verification/WebStore.v ===== *)
(** * The stores behind the web interface: [src/src/web_parity.rs]

    Login sessions, the ring of events with its subscribers and the byte stream a
    browser reads, the daily traffic buckets, and the calendar day.  SHA-256
    and hex texts are the classes [CryptoPrims] and [HexCodec]; the clock, the random bytes and the JSON text of an event are
    arguments. *)
From S2P Require Import Prelude Utils Crypto Pool Policy WebState.

Definition EVENT_CAP : nat := 500.
Definition STREAM_CAP : nat := 256.
Definition DEFAULT_TRAFFIC_DAYS : Z := 30.
Definition MAX_TRAFFIC_DAYS : Z := 3650.
(** Durations in nanoseconds. *)
Definition SESSION_TTL : Z := 24 * 60 * 60 * 1000000000.
Definition TRAFFIC_FLUSH_INTERVAL : Z := 60 * 1000000000.

(** ** Login sessions *)

Record WebSession := { ws_expires : Z; ws_auth_hash : list Z }.
Abbreviation SessionStore := (gmap text WebSession).

Definition constant_time_32 (a b : list Z) : bool := ct_diff 0 (take 32 a) (take 32 b) =? 0.

Section sessions.
Context `{CryptoPrims} `{HexCodec}.

Definition auth_hash (auth : text) : list Z := sha256 auth.

(** [raw] is what the random source gave, [None] its failure. *)
Definition session_create (raw : option (list Z)) (now : Z) (auth : text) (sessions : SessionStore) : option text * SessionStore :=
  match raw with
  | None => (None, sessions)
  | Some raw =>
      let token := hex_encode raw in
      let sessions := filter (fun p => now < ws_expires p.2) sessions in
      (Some token, <[token := {| ws_expires := now + SESSION_TTL; ws_auth_hash := auth_hash auth |}]> sessions)
  end.

Definition session_valid (now : Z) (token auth : text) (sessions : SessionStore) : bool * SessionStore :=
  if bool_decide (token = []) || bool_decide (auth = []) then (false, sessions)
  else
    let wanted := auth_hash auth in
    match sessions !! token with
    | None => (false, sessions)
    | Some session =>
        if (ws_expires session <=? now) || negb (constant_time_32 (ws_auth_hash session) wanted) then (false, delete token sessions)
        else (true, <[token := {| ws_expires := now + SESSION_TTL; ws_auth_hash := ws_auth_hash session |}]> sessions)
    end.

Definition session_revoke (token : text) (sessions : SessionStore) : SessionStore :=
  if bool_decide (token = []) then sessions else delete token sessions.

(** A history of calls, each with its time. *)
Inductive session_call := SCreate (raw : option (list Z)) (auth : text) | SValid (token auth : text) | SRevoke (token : text).

Definition session_step (call : Z * session_call) (st : SessionStore) : option bool * SessionStore :=
  match call with
  | (now, SCreate raw auth) => (None, (session_create raw now auth st).2)
  | (now, SValid token auth) => let '(b, st) := session_valid now token auth st in (Some b, st)
  | (_, SRevoke token) => (None, session_revoke token st)
  end.
Fixpoint session_run (calls : list (Z * session_call)) (st : SessionStore) : list (option bool) * SessionStore :=
  match calls with
  | [] => ([], st)
  | call :: calls => let '(a, st) := session_step call st in let '(l, st) := session_run calls st in (a :: l, st)
  end.
End sessions.

(** ** The event hub *)

Record DashboardEvent := { ev_seq : Z; ev_time : text; ev_kind : text; ev_level : text; ev_client : text; ev_msg : text }.

(** A bounded channel: what is queued and whether its receiver still exists. *)
Record Channel := { ch_queue : list DashboardEvent; ch_open : bool }.
Record EventInner := { ei_seq : Z; ei_ring : list DashboardEvent; ei_subscribers : list Channel }.
Definition hub_new : EventInner := {| ei_seq := 0; ei_ring := []; ei_subscribers := [] |}.

(** [try_send]: [None] for a disconnected receiver, a full channel is left as it is. *)
Definition try_send (e : DashboardEvent) (c : Channel) : option Channel :=
  if negb (ch_open c) then None
  else if (STREAM_CAP <=? length (ch_queue c))%nat then Some c
  else Some {| ch_queue := ch_queue c ++ [e]; ch_open := true |}.

(** [while ring.len() > EVENT_CAP { pop_front }]. *)
Definition trim_ring (ring : list DashboardEvent) : list DashboardEvent := drop (length ring - EVENT_CAP) ring.

(** [inner.seq += 1] wraps only after 2^64 events; overflow checks are off in release. *)
Definition emit (time kind level client msg : text) (inner : EventInner) : EventInner :=
  let seq := u64_wrap (ei_seq inner + 1) in
  let event := {| ev_seq := seq; ev_time := time; ev_kind := kind; ev_level := level; ev_client := client; ev_msg := msg |} in
  {| ei_seq := seq; ei_ring := trim_ring (ei_ring inner ++ [event]);
     ei_subscribers := omap (try_send event) (ei_subscribers inner) |}.

Definition newer (after : Z) (ring : list DashboardEvent) : list DashboardEvent := filter (fun e => after < ev_seq e) ring.
Definition hub_snapshot (after : Z) (inner : EventInner) : list DashboardEvent := newer after (ei_ring inner).

(** The stream of a subscriber; its receiver is the last channel of the hub. *)
Record EventStream := { es_backlog : list DashboardEvent; es_pending : list Z; es_offset : nat }.
Definition stream (after : Z) (inner : EventInner) : EventStream * EventInner :=
  ({| es_backlog := newer after (ei_ring inner); es_pending := []; es_offset := 0 |},
   {| ei_seq := ei_seq inner; ei_ring := ei_ring inner;
      ei_subscribers := ei_subscribers inner ++ [{| ch_queue := []; ch_open := true |}] |}).

(** ** Reading the stream *)

(** What [recv_timeout] answers. *)
Inductive Received := RxEvent (e : DashboardEvent) | RxTimeout | RxDisconnected.

Definition PING : list Z := bytes_of_string ": ping" ++ [10; 10].

Section reading.
Context (to_json : DashboardEvent -> list Z).

Definition sse_frame (e : DashboardEvent) : list Z := bytes_of_string "data: " ++ to_json e ++ [10; 10].

(** One [refill]: the answers of the receiver that it may consume come as a list; a
    list that is exhausted blocks ([None]). *)
Definition refill (s : EventStream) (rx : list Received) : option (EventStream * list Received) :=
  match es_backlog s with
  | e :: backlog => Some ({| es_backlog := backlog; es_pending := sse_frame e; es_offset := 0 |}, rx)
  | [] =>
      match rx with
      | [] => None
      | RxEvent e :: rx => Some ({| es_backlog := []; es_pending := sse_frame e; es_offset := 0 |}, rx)
      | RxTimeout :: rx => Some ({| es_backlog := []; es_pending := PING; es_offset := 0 |}, rx)
      | RxDisconnected :: rx => Some ({| es_backlog := []; es_pending := []; es_offset := 0 |}, rx)
      end
  end.

(** [Read::read] with a buffer of [cap] bytes: the bytes copied into it.  The loop
    ends after one round, since a refill leaves either bytes or nothing. *)
Definition read (cap : nat) (s : EventStream) (rx : list Received) : option (list Z * EventStream * list Received) :=
  if (cap =? 0)%nat then Some ([], s, rx)
  else
    '(s, rx) ← (if (length (es_pending s) <=? es_offset s)%nat then refill s rx else Some (s, rx));
    if bool_decide (es_pending s = []) then Some ([], s, rx)
    else
      let n := Nat.min (length (es_pending s) - es_offset s) cap in
      Some (slice (es_offset s) (es_offset s + n) (es_pending s),
            {| es_backlog := es_backlog s; es_pending := es_pending s; es_offset := es_offset s + n |}, rx).
Fixpoint reads (caps : list nat) (s : EventStream) (rx : list Received) : option (list Z * EventStream * list Received) :=
  match caps with
  | [] => Some ([], s, rx)
  | cap :: caps =>
      '(out, s, rx) ← read cap s rx;
      '(out', s, rx) ← reads caps s rx;
      Some (out ++ out', s, rx)
  end.
End reading.

(** ** Daily traffic *)

Record TrafficDay := { td_up : Z; td_down : Z }.
Definition day_zero : TrafficDay := {| td_up := 0; td_down := 0 |}.
Record TrafficState := {
  tf_days : Z; tf_file : text; tf_client_file : text; tf_today : text;
  tf_buckets : list (text * TrafficDay);
  tf_client_buckets : list (text * list (text * TrafficDay));
  tf_last_up : Z; tf_last_down : Z;
  tf_client_last : gmap text (Z * Z);
  tf_last_flush : Z }.

Definition obj_remove {A} (m : list (text * A)) (k : text) : list (text * A) := filter (fun p => p.1 <> k) m.

(** The loops of [traffic_trim]: one turn per excess day, as many as there are days. *)
Fixpoint trim_buckets (fuel : nat) (days : Z) (b : list (text * TrafficDay)) (c : list (text * list (text * TrafficDay))) :=
  match fuel, b with
  | S fuel, (first, _) :: rest =>
      if days <? zlen b then trim_buckets fuel days rest (obj_remove c first) else (b, c)
  | _, _ => (b, c)
  end.
Fixpoint trim_clients (fuel : nat) (days : Z) (c : list (text * list (text * TrafficDay))) :=
  match fuel, c with
  | S fuel, _ :: rest => if days <? zlen c then trim_clients fuel days rest else c
  | _, _ => c
  end.
Definition with_buckets (s : TrafficState) b c : TrafficState :=
  {| tf_days := tf_days s; tf_file := tf_file s; tf_client_file := tf_client_file s; tf_today := tf_today s;
     tf_buckets := b; tf_client_buckets := c; tf_last_up := tf_last_up s; tf_last_down := tf_last_down s;
     tf_client_last := tf_client_last s; tf_last_flush := tf_last_flush s |}.
Definition traffic_trim (s : TrafficState) : TrafficState :=
  let '(b, c) := trim_buckets (length (tf_buckets s)) (tf_days s) (tf_buckets s) (tf_client_buckets s) in
  with_buckets s b (trim_clients (length c) (tf_days s) c).

Definition clamp (lo hi z : Z) : Z := Z.max lo (Z.min hi z).
(** The paths and what the two files held are given. *)
Definition traffic_new (cfg : Value) (file client_file today : text) (now : Z) b c : TrafficState :=
  let days := clamp 1 MAX_TRAFFIC_DAYS (default DEFAULT_TRAFFIC_DAYS (value_get cfg (word "traffic_days") ≫= as_u64)) in
  traffic_trim {| tf_days := days; tf_file := file; tf_client_file := client_file; tf_today := today;
          tf_buckets := b; tf_client_buckets := c; tf_last_up := 0; tf_last_down := 0;
          tf_client_last := ∅; tf_last_flush := now |}.

(** [client_file] is the path derived from [file]. *)
Definition apply_config (days : Z) (file client_file : text) (s : TrafficState) : TrafficState :=
  let keep := bool_decide (file = []) in
  traffic_trim {| tf_days := clamp 1 MAX_TRAFFIC_DAYS days;
          tf_file := if keep then tf_file s else file; tf_client_file := if keep then tf_client_file s else client_file;
          tf_today := tf_today s; tf_buckets := tf_buckets s; tf_client_buckets := tf_client_buckets s;
          tf_last_up := tf_last_up s; tf_last_down := tf_last_down s;
          tf_client_last := tf_client_last s; tf_last_flush := tf_last_flush s |}.

Definition u64_field (v : Value) (k : text) : Z := default 0 (value_get v k ≫= as_u64).
Definition is_server (stats : Value) : bool := bool_decide (value_get stats (word "mode") ≫= as_str = Some (word "server")).
Definition aggregate_bytes (stats : Value) : Z * Z :=
  let tx := u64_field stats (word "global_tx_bytes") in
  let rx := u64_field stats (word "global_rx_bytes") in
  if is_server stats then (rx, tx) else (tx, rx).
Definition clients_of (stats : Value) : list (text * Value) :=
  match value_get stats (word "clients") with Some (VObject m) => m | _ => [] end.

Definition add_day (d : TrafficDay) (up down : Z) : TrafficDay :=
  {| td_up := u64_sat_add (td_up d) up; td_down := u64_sat_add (td_down d) down |}.

(** One round of the loop over the clients of the server. *)
Definition observe_client (today : text) (st : list (text * list (text * TrafficDay)) * gmap text (Z * Z)) (p : text * Value) :=
  let '(c, last) := st in
  let '(id, client) := p in
  let rx := u64_field client (word "rx_bytes") in
  let tx := u64_field client (word "tx_bytes") in
  let prev := default (0, 0) (last !! id) in
  let day := default [] (obj_get c today) in
  let entry := default day_zero (obj_get day id) in
  (obj_insert c today (obj_insert day id (add_day entry (sat_sub rx prev.1) (sat_sub tx prev.2))),
   <[id := (rx, tx)]> last).

(** What [persist] writes: the files and their values, nothing without a file name. *)
Definition day_json (d : TrafficDay) : Value := VObject [(word "down", VNumber (td_down d)); (word "up", VNumber (td_up d))].
Definition days_json {A} (f : A -> Value) (m : list (text * A)) : Value := VObject ((fun p => (p.1, f p.2)) <$> m).
Definition persist (s : TrafficState) : list (text * Value) :=
  if bool_decide (tf_file s = []) then []
  else
    let body v := VObject [(word "days", v); (word "today", VString (tf_today s))] in
    [(tf_file s, body (days_json day_json (tf_buckets s)));
     (tf_client_file s, body (days_json (days_json day_json) (tf_client_buckets s)))].

(** [observe] at the local day [today] and the time [now]; also what it writes. *)
Definition observe (today : text) (now : Z) (stats : Value) (s : TrafficState) : TrafficState * list (text * Value) :=
  let '(up, down) := aggregate_bytes stats in
  let bucket := default day_zero (obj_get (tf_buckets s) today) in
  let buckets := obj_insert (tf_buckets s) today (add_day bucket (sat_sub up (tf_last_up s)) (sat_sub down (tf_last_down s))) in
  let '(c, last) :=
    if is_server stats then foldl (observe_client today) (tf_client_buckets s, tf_client_last s) (clients_of stats)
    else (tf_client_buckets s, tf_client_last s) in
  let s := traffic_trim {| tf_days := tf_days s; tf_file := tf_file s; tf_client_file := tf_client_file s; tf_today := today;
                   tf_buckets := buckets; tf_client_buckets := c; tf_last_up := up; tf_last_down := down;
                   tf_client_last := last; tf_last_flush := tf_last_flush s |} in
  if TRAFFIC_FLUSH_INTERVAL <=? now - tf_last_flush s then
    ({| tf_days := tf_days s; tf_file := tf_file s; tf_client_file := tf_client_file s; tf_today := tf_today s;
        tf_buckets := tf_buckets s; tf_client_buckets := tf_client_buckets s; tf_last_up := tf_last_up s; tf_last_down := tf_last_down s;
        tf_client_last := tf_client_last s; tf_last_flush := now |}, persist s)
  else (s, []).

Definition date_json (p : text * TrafficDay) : Value :=
  VObject [(word "date", VString p.1); (word "down", VNumber (td_down p.2)); (word "up", VNumber (td_up p.2))].
Definition traffic_snapshot (s : TrafficState) : Value :=
  let today := default day_zero (obj_get (tf_buckets s) (tf_today s)) in
  VObject [(word "daily", VArray (date_json <$> tf_buckets s)); (word "days", VNumber (tf_days s));
           (word "down", VNumber (td_down today)); (word "today", VString (tf_today s)); (word "up", VNumber (td_up today))].

(** Transposition: by client, the days in order. *)
Definition push_daily (m : list (text * list Value)) (date id : text) (d : TrafficDay) : list (text * list Value) :=
  obj_insert m id (default [] (obj_get m id) ++ [date_json (date, d)]).
Definition by_client (c : list (text * list (text * TrafficDay))) : list (text * list Value) :=
  foldl (fun m day => foldl (fun m p => push_daily m day.1 p.1 p.2) m day.2) [] c.
Definition client_snapshot (s : TrafficState) : Value :=
  VArray ((fun p => VObject [(word "daily", VArray p.2); (word "id", VString p.1)]) <$> by_client (tf_client_buckets s)).

(** ** The calendar day *)

(** [{:04}] and [{:02}] of a non-negative number. *)
Definition digit (n : Z) : Z := 48 + n mod 10.
Definition pad2 (n : Z) : text := if n <? 100 then [digit (n / 10); digit n] else num n.
Definition pad4 (n : Z) : text :=
  if n <? 10000 then [digit (n / 1000); digit (n / 100); digit (n / 10); digit n] else num n.
Definition DASH : Z := 45.

(** Year, month and day; [i64] division truncates, [div_euclid] is [Z.div] here. *)
Definition utc_date (unix : Z) : Z * Z * Z :=
  let z := unix / 86400 + 719468 in
  let era := (if 0 <=? z then z else z - 146096) / 146097 in
  let doe := z - era * 146097 in
  let yoe := (doe - Z.quot doe 1460 + Z.quot doe 36524 - Z.quot doe 146096) / 365 in
  let year := yoe + era * 400 in
  let doy := doe - (365 * yoe + Z.quot yoe 4 - Z.quot yoe 100) in
  let mp := (5 * doy + 2) / 153 in
  let day := doy - (153 * mp + 2) / 5 + 1 in
  let month := mp + (if mp <? 10 then 3 else -9) in
  (year + (if month <=? 2 then 1 else 0), month, day).
Definition utc_day (unix : Z) : text :=
  let '(year, month, day) := utc_date unix in pad4 year ++ [DASH] ++ pad2 month ++ [DASH] ++ pad2 day.

Example utc_day_run : utc_day 0 = word "1970-01-01" /\ utc_day 951782400 = word "2000-02-29" /\ utc_day 1735689599 = word "2024-12-31".
Proof. vm_compute. done. Qed.

(** ** Connection events *)

(** [observe_client_events]: [ord] lists the elements of a hash set in its own order,
    [clock] is the wall clock as each event reads it. *)
Definition emit_all (clock : Z -> text) (kind level msg : text) (ids : list text) (hub : EventInner) : EventInner :=
  foldl (fun hub id => emit (clock (ei_seq hub)) kind level id msg hub) hub ids.
Definition observe_client_events (ord : gset text -> list text) (clock : Z -> text) (stats : Value) (st : gset text * EventInner) :=
  let current : gset text := list_to_set (clients_of stats).*1 in
  let '(previous, hub) := st in
  let hub := emit_all clock (word "connect") (word "info") (word "Client connected") (ord (current ∖ previous)) hub in
  let hub := emit_all clock (word "disconnect") (word "warn") (word "Client disconnected") (ord (previous ∖ current)) hub in
  (current, hub).
