(* ===== verification/Trend.v ===== *)
(** * The rate rings of the dashboard and one observation of the statistics
      ([TrendState], [TrendPoint] and [observe_stats] of [src/src/web_parity.rs])

    Rates are binary floating-point numbers: their operations are the class [FloatOps], and
    nothing below depends on how they round.  Times are in nanoseconds; the wall clock in
    seconds is read when a point is stored. *)
From S2P Require Import Prelude Utils Pool Policy WebState WebStore.

Class FloatOps := {
  F : Type;
  (** [n as f64], [as_secs_f64] of a duration, sum, quotient, and the JSON number *)
  f_of_u64 : Z -> F; f_secs : Z -> F; f_zero : F; f_add : F -> F -> F; f_div : F -> F -> F; f_json : F -> Value }.

Definition TREND_RECENT_CAP : nat := 120.
Definition TREND_MINUTE_CAP : nat := 1440.

Section Trend.
Context `{FloatOps}.

Record TrendPoint := { tp_unix : Z; tp_up_bps : F; tp_down_bps : F }.
Record TrendState := {
  tr_last_at : option Z; tr_last_up : Z; tr_last_down : Z; tr_minute_at : option Z; tr_minute_up : Z; tr_minute_down : Z;
  tr_recent : list TrendPoint; tr_minutes : list TrendPoint }.
Definition TrendState_default : TrendState :=
  {| tr_last_at := None; tr_last_up := 0; tr_last_down := 0; tr_minute_at := None; tr_minute_up := 0; tr_minute_down := 0; tr_recent := []; tr_minutes := [] |}.

(** [push_back], then [pop_front] while the ring is too long. *)
Definition push_ring {A} (cap : nat) (ring : list A) (x : A) : list A :=
  let ring := ring ++ [x] in drop (length ring - cap) ring.
Definition point (unix up down elapsed : Z) : TrendPoint :=
  {| tp_unix := unix; tp_up_bps := f_div (f_of_u64 up) (f_secs elapsed); tp_down_bps := f_div (f_of_u64 down) (f_secs elapsed) |}.

Definition trend_observe (t : TrendState) (now unix up down : Z) : TrendState :=
  match tr_last_at t with
  | None =>
      {| tr_last_at := Some now; tr_last_up := up; tr_last_down := down; tr_minute_at := Some now; tr_minute_up := up; tr_minute_down := down;
         tr_recent := tr_recent t; tr_minutes := tr_minutes t |}
  | Some last_at =>
      let elapsed := sat_sub now last_at in
      if elapsed <? 500000000 then t
      else
        let recent := push_ring TREND_RECENT_CAP (tr_recent t) (point unix (sat_sub up (tr_last_up t)) (sat_sub down (tr_last_down t)) elapsed) in
        let minute_at := default now (tr_minute_at t) in
        let minute_elapsed := sat_sub now minute_at in
        if 60000000000 <=? minute_elapsed then
          {| tr_last_at := Some now; tr_last_up := up; tr_last_down := down; tr_minute_at := Some now; tr_minute_up := up; tr_minute_down := down;
             tr_recent := recent;
             tr_minutes := push_ring TREND_MINUTE_CAP (tr_minutes t)
                             (point (Z.quot unix 60 * 60) (sat_sub up (tr_minute_up t)) (sat_sub down (tr_minute_down t)) minute_elapsed) |}
        else
          {| tr_last_at := Some now; tr_last_up := up; tr_last_down := down; tr_minute_at := tr_minute_at t; tr_minute_up := tr_minute_up t;
             tr_minute_down := tr_minute_down t; tr_recent := recent; tr_minutes := tr_minutes t |}
  end.

(** [chunks(n)] *)
Fixpoint chunks {A} (fuel n : nat) (l : list A) : list (list A) :=
  match fuel, l with
  | _, [] | O, _ => []
  | S fuel, _ => take n l :: chunks fuel n (drop n l)
  end.
Definition f_sum (l : list F) : F := foldl f_add f_zero l.
Definition mean_point (chunk : list TrendPoint) : TrendPoint :=
  let n := f_of_u64 (zlen chunk) in
  {| tp_unix := default 0 (tp_unix <$> last chunk); tp_up_bps := f_div (f_sum (tp_up_bps <$> chunk)) n; tp_down_bps := f_div (f_sum (tp_down_bps <$> chunk)) n |}.
(** Step in seconds and points. *)
Definition trend_range (t : TrendState) (range : text) : Z * list TrendPoint :=
  if bool_decide (range = word "1h") then (60, drop (length (tr_minutes t) - 60) (tr_minutes t))
  else if bool_decide (range = word "24h") then (300, mean_point <$> chunks (length (tr_minutes t)) 5 (tr_minutes t))
  else (1, tr_recent t).
Definition point_json (p : TrendPoint) : Value := VObject [(word "down", f_json (tp_down_bps p)); (word "t", VNumber (tp_unix p)); (word "up", f_json (tp_up_bps p))].
Definition trend_snapshot (t : TrendState) (range : text) : Value :=
  let '(step, points) := trend_range t range in VObject [(word "points", VArray (point_json <$> points)); (word "step_sec", VNumber step)].

(** [observe_stats]: rates, traffic and connection events of one reading; also what the
    traffic record writes. *)
Record Observed := { ob_trend : TrendState; ob_traffic : TrafficState; ob_clients : gset text * EventInner }.
Definition observe_stats (ord : gset text -> list text) (clock : Z -> text) (today : text) (now now_traffic unix : Z) (stats : Value) (o : Observed)
  : Observed * list (text * Value) :=
  let '(up, down) := aggregate_bytes stats in
  let '(traffic, writes) := observe today now_traffic stats (ob_traffic o) in
  ({| ob_trend := trend_observe (ob_trend o) now unix up down; ob_traffic := traffic;
      ob_clients := observe_client_events ord clock stats (ob_clients o) |}, writes).

(** ** The rings *)

Record trend_ok (t : TrendState) : Prop := {
  tk_recent : (length (tr_recent t) <= TREND_RECENT_CAP)%nat;
  tk_minutes : (length (tr_minutes t) <= TREND_MINUTE_CAP)%nat;
  tk_started : tr_last_at t = None -> tr_recent t = [] /\ tr_minutes t = [] }.
Lemma push_ring_length {A} cap (ring : list A) x : (length (push_ring cap ring x) <= cap)%nat.
Proof. unfold push_ring. rewrite length_drop. lia. Qed.
Lemma trend_observe_ok t now unix up down : trend_ok t -> trend_ok (trend_observe t now unix up down).
Proof.
  intros Ht. pose proof Ht as [Hr Hm Hs]. unfold trend_observe. destruct (tr_last_at t) as [at_|]; [|by split]. destruct (_ <? _); [done|].
  destruct (_ <=? _); (split; [apply push_ring_length| |done]); [apply push_ring_length|done].
Qed.

(** An observation: the time, the wall clock and both counters. *)
Definition reading : Type := Z * Z * Z * Z.
Definition trend_run (rs : list reading) (t : TrendState) : TrendState := foldl (fun t '(now, unix, up, down) => trend_observe t now unix up down) t rs.
(** The spans between stored points, with the bytes each stands for. *)
Definition span (t : TrendState) (r : reading) : list (Z * Z * Z) :=
  let '(now, _, up, down) := r in
  match tr_last_at t with
  | None => []
  | Some last_at => if sat_sub now last_at <? 500000000 then [] else [(sat_sub now last_at, sat_sub up (tr_last_up t), sat_sub down (tr_last_down t))]
  end.
Fixpoint spans (rs : list reading) (t : TrendState) : list (Z * Z * Z) :=
  match rs with
  | [] => []
  | r :: rs => span t r ++ spans rs (let '(now, unix, up, down) := r in trend_observe t now unix up down)
  end.
(** Time and counters do not go back. *)
Fixpoint goes_forward (now up down : Z) (rs : list reading) : Prop :=
  match rs with
  | [] => True
  | (now', _, up', down') :: rs => now <= now' /\ up <= up' /\ down <= down' /\ goes_forward now' up' down' rs
  end.
Definition sum3 (l : list (Z * Z * Z)) : Z * Z * Z := foldr (fun '(a, b, c) '(x, y, z) => (a + x, b + y, c + z)) (0, 0, 0) l.
Lemma sum3_app l k : sum3 (l ++ k) = let '(a, b, c) := sum3 l in let '(x, y, z) := sum3 k in (a + x, b + y, c + z).
Proof.
  induction l as [|[[a b] c] l IH]; cbn [app]; [change (sum3 []) with (0, 0, 0); by destruct (sum3 k) as [[? ?] ?]|].
  change (sum3 ((a, b, c) :: l ++ k)) with (let '(x, y, z) := sum3 (l ++ k) in (a + x, b + y, c + z)).
  change (sum3 ((a, b, c) :: l)) with (let '(x, y, z) := sum3 l in (a + x, b + y, c + z)). rewrite IH.
  destruct (sum3 l) as [[? ?] ?], (sum3 k) as [[? ?] ?]. f_equal; [f_equal|]; lia.
Qed.

Lemma spans_total rs : forall t at0,
  tr_last_at t = Some at0 -> (exists now up down, at0 <= now /\ tr_last_up t <= up /\ tr_last_down t <= down /\ goes_forward now up down rs) ->
  let t' := trend_run rs t in
  exists at1, tr_last_at t' = Some at1 /\ sum3 (spans rs t) = (at1 - at0, tr_last_up t' - tr_last_up t, tr_last_down t' - tr_last_down t).
Proof.
  induction rs as [|[[[now unix] up] down] rs IH]; intros t at0 Ht (now0 & up0 & down0 & Hn & Hu & Hd & Hf); cbn [spans trend_run foldl].
  { exists at0. split; [done|]. cbn. by rewrite !Z.sub_diag. }
  destruct Hf as (Hn' & Hu' & Hd' & Hf). set (t1 := trend_observe t now unix up down). fold (trend_run rs t1).
  assert (Hcase : (t1 = t /\ span t (now, unix, up, down) = []) \/
    (tr_last_at t1 = Some now /\ tr_last_up t1 = up /\ tr_last_down t1 = down /\
     span t (now, unix, up, down) = [(now - at0, up - tr_last_up t, down - tr_last_down t)])).
  { assert (Es : forall a b, a <= b -> sat_sub b a = b - a) by (intros; unfold sat_sub; lia).
    unfold t1, trend_observe, span. rewrite Ht. rewrite !(Es at0 now), (Es (tr_last_up t) up), (Es (tr_last_down t) down) by lia.
    destruct (_ <? _); [by left|]. right. by destruct (_ <=? _). }
  destruct Hcase as [[-> ->]|(E1 & E2 & E3 & ->)].
  - apply (IH t at0 Ht). exists now, up, down. split_and!; try lia; done.
  - destruct (IH t1 now E1) as (at1 & Ea & Es); [exists now, up, down; rewrite E2, E3; split_and!; (lia || done)|]. exists at1. split; [done|].
    rewrite sum3_app, Es. cbn. rewrite E2, E3. f_equal; [f_equal|]; lia.
Qed.

(** The rings are bounded whatever is observed, and while time and counters go forward
    the stored points account for every byte and every moment between the first reading
    and the last stored one: readings that come too soon are merged into the next. *)
Theorem trend_accounts rs now unix up down :
  goes_forward now up down rs ->
  let t := trend_run ((now, unix, up, down) :: rs) TrendState_default in
  trend_ok t /\
  exists at1, tr_last_at t = Some at1 /\
    sum3 (spans ((now, unix, up, down) :: rs) TrendState_default) = (at1 - now, tr_last_up t - up, tr_last_down t - down).
Proof.
  intros Hf t. assert (Hok : forall rs t, trend_ok t -> trend_ok (trend_run rs t)).
  { intros l. induction l as [|[[[a b] c] d] l IH]; intros t0 H0'; [done|]. apply IH. by apply trend_observe_ok. }
  split; [apply Hok; split; cbn; [unfold TREND_RECENT_CAP|unfold TREND_MINUTE_CAP|]; (lia || done)|].
  set (t0 := trend_observe TrendState_default now unix up down).
  destruct (spans_total rs t0 now eq_refl) as (at1 & Ea & Es); [exists now, up, down; cbn; split_and!; (lia || done)|].
  exists at1. split; [exact Ea|]. cbn [spans span app tr_last_at TrendState_default]. exact Es.
Qed.
Lemma chunks_concat {A} n (l : list A) : (0 < n)%nat -> forall fuel, (length l <= fuel)%nat ->
  concat (chunks fuel n l) = l /\ Forall (fun c => (0 < length c <= n)%nat) (chunks fuel n l).
Proof.
  intros Hn fuel. revert l. induction fuel as [|fuel IH]; intros [|x l] Hl; cbn [chunks concat]; try (by split; [|constructor]); [cbn in Hl; lia|].
  assert (Hd : (length (drop n (x :: l)) <= fuel)%nat) by (rewrite length_drop; cbn in *; lia). destruct (IH _ Hd) as [E Hf].
  rewrite E, take_drop. split; [done|]. constructor; [|done]. rewrite length_take. cbn. lia.
Qed.
(** The day is shown in at most 288 points of at most five minutes, each minute in one. *)
Theorem trend_day_covers t :
  trend_ok t ->
  let cs := chunks (length (tr_minutes t)) 5 (tr_minutes t) in
  (trend_range t (word "24h")).2 = mean_point <$> cs /\ concat cs = tr_minutes t /\ Forall (fun c => (0 < length c <= 5)%nat) cs /\ (length cs <= 288)%nat.
Proof.
  intros Ht cs. destruct (chunks_concat 5 (tr_minutes t) ltac:(lia) (length (tr_minutes t)) ltac:(lia)) as [E Hf]. fold cs in E, Hf.
  split_and!; [done|done|done|].
  assert (Hc : forall fuel (l : list TrendPoint), (5 * length (chunks fuel 5 l) <= length l + 4)%nat).
  { induction fuel as [|fuel IH]; intros [|x l]; cbn [chunks length]; try lia. specialize (IH (drop 5 (x :: l))). rewrite length_drop in IH. cbn [length] in IH.
    destruct (Nat.le_gt_cases 5 (S (length l))); [lia|]. rewrite drop_ge in * by (cbn; lia). destruct fuel; cbn; lia. }
  specialize (Hc (length (tr_minutes t)) (tr_minutes t)). fold cs in Hc. pose proof (tk_minutes t Ht). unfold TREND_MINUTE_CAP in *. lia.
Qed.
End Trend.
