(* ===== verification/Status.v ===== *)
(** * What the server reports: the statistics of the dashboard and the text of the
      metrics ([stats_json] and [metrics_text] of [src/src/server.rs])

    Counters that other components keep (the bytes a connection has written, the clock,
    the memory of the process, the congestion control of the kernel) are inputs, the
    record [SessionReadings] for a session and [ProcessReadings] for the rest.  A hash
    table lists its entries in an order of its own, so the order of the sessions is an
    argument.  Texts are UTF-8 byte lists. *)
From S2P Require Import Prelude Protocol Utils Crypto Xor Fec Buffer Reorder RxActor Adaptive Queue Port VSwitch Pool Brutal PeerInfo Session Policy Writer WebState.

#[local] Open Scope string_scope.
#[local] Open Scope list_scope.
#[local] Open Scope Z_scope.

(** [json!]: members are inserted one after the other. *)
Definition json (members : list (string * Value)) : Value :=
  VObject (foldl (fun m p => obj_insert m (word p.1) p.2) [] members).

(** The loads of one session that the session model does not hold. *)
Record SessionReadings := {
  sg_tx_bytes : Z; sg_rx_bytes : Z; sg_tx_packets : Z; sg_rx_packets : Z; sg_written : TxFrameTotals; sg_fec_mode : text;
  sg_enc_algo : Z; sg_age : Z; sg_peer : Value; sg_brutal_error : text;
  (** of the backends by position: identifier, assigned bytes and scheduler snapshot *)
  sg_path : nat -> text * (Z * Value) }.
Record ProcessReadings := {
  pg_version : text; pg_uptime : Z; pg_threads : Z; pg_rss_bytes : Z; pg_rss_mb : Value; pg_log_level : text; pg_pad_mode : text;
  pg_padding : Z * Z; pg_overhead_pct : Value; pg_now : Z; pg_now_unix : Z;
  (** the two files of the kernel, trimmed, empty when they cannot be read *)
  pg_congestion_control : text; pg_available_congestion_control : text }.

(** [brutal_system_status]: whether the kernel lists the controller, the current one, the
    list, and the reason when it does not. *)
Record BrutalStatus := { bs_supported : bool; bs_kernel_current : text; bs_kernel_available : list text; bs_error : text }.
Definition or_dash (s : text) : text := if is_nil s then word "-" else s.
Definition brutal_system_status (p : ProcessReadings) : BrutalStatus :=
  let current := pg_congestion_control p in
  let avail_raw := pg_available_congestion_control p in
  let available := List.filter (fun s => negb (is_nil s)) (utf8_trim <$> split_whitespace avail_raw) in
  let supported := bool_decide (word "brutal" ∈ available) in
  {| bs_supported := supported; bs_kernel_current := current; bs_kernel_available := available;
     bs_error :=
       if is_nil current && is_nil avail_raw then word "not Linux: TCP Brutal needs a Linux kernel with tcp pacing"
       else if negb supported then
         word "kernel exposes no 'brutal' congestion controller (current=" ++ or_dash current ++ word ", available=" ++ or_dash avail_raw ++ word ")"
       else [] |}.
Definition kernel_json (b : BrutalStatus) : list (string * Value) :=
  [("kernel_supported", VBool (bs_supported b)); ("kernel_current", VString (bs_kernel_current b));
   ("kernel_available", VArray (VString <$> bs_kernel_available b))].

Definition min_enc_label (rank : Z) : text := if 0 <? rank then word "gcm" else [].

(** [mac_snapshot]: text, port and age in seconds; times are in nanoseconds. *)
Definition mac_age (e : MacEntry) (now : Z) : Z := if me_static e then 0 else sat_sub now (me_updated_at e) / secs 1.
Definition mac_snapshot (table : list (mac * MacEntry)) (now : Z) : list (text * string * Z) :=
  (fun p : mac * MacEntry => (format_mac p.1, me_port_id p.2, mac_age p.2 now)) <$> table.

(** [errors.contains] and [push], [join("; ")] *)
Definition push_error (errors : list text) (e : text) : list text :=
  if bool_decide (e = []) || bool_decide (e ∈ errors) then errors else errors ++ [e].
Fixpoint join_errors (errors : list text) : text :=
  match errors with
  | [] => []
  | [e] => e
  | e :: rest => e ++ word "; " ++ join_errors rest
  end.

Section Status.
Context `{FrameChannel} `{CryptoPrims} `{HexCodec} `{UuidLib} `{BrutalSocketOps}.
Context (conf : ServerConf).

(** ** The totals of the statistics *)

Record Totals := {
  to_rec : Z; to_lost : Z; to_parity : Z; to_data_tx : Z; to_control_tx : Z; to_data_wire : Z; to_parity_wire : Z;
  to_enabled_sessions : Z; to_tx_active_sessions : Z; to_rx_bypass_sessions : Z; to_dropped : Z; to_reorder_gap : Z;
  to_reorder_flushes : Z; to_reorder_skipped : Z }.
Definition Totals_new (rec lost : Z) : Totals :=
  {| to_rec := rec; to_lost := lost; to_parity := 0; to_data_tx := 0; to_control_tx := 0; to_data_wire := 0; to_parity_wire := 0;
     to_enabled_sessions := 0; to_tx_active_sessions := 0; to_rx_bypass_sessions := 0; to_dropped := 0; to_reorder_gap := 0;
     to_reorder_flushes := 0; to_reorder_skipped := 0 |}.

Definition bump (b : bool) (n : Z) : Z := if b then n + 1 else n.
(** One round of the loop; additions that do not saturate wrap. *)
Definition visit_session (t : Totals) (s : ClientSession) (g : SessionReadings) : Totals :=
  let w := sg_written g in
  let enabled := 0 <? cs_fec_enc_k s in
  let '(session_rec, session_lost, reorder, rx_bypass) := rx_runtime_snapshot s in
  {| to_rec := u64_sat_add (to_rec t) session_rec; to_lost := u64_sat_add (to_lost t) session_lost;
     to_parity := u64_sat_add (to_parity t) (tt_parity_frames w); to_data_tx := u64_sat_add (to_data_tx t) (tt_data_frames w);
     to_control_tx := u64_sat_add (to_control_tx t) (tt_control_frames w);
     to_data_wire := u64_sat_add (to_data_wire t) (tt_data_wire_bytes w);
     to_parity_wire := u64_sat_add (to_parity_wire t) (tt_parity_wire_bytes w);
     to_enabled_sessions := bump enabled (to_enabled_sessions t);
     to_tx_active_sessions := bump (enabled && fec_tx_armed (cs_port s)) (to_tx_active_sessions t);
     to_rx_bypass_sessions := bump rx_bypass (to_rx_bypass_sessions t);
     to_dropped := u64_wrap (to_dropped t + po_dropped (cs_port s));
     to_reorder_gap := u64_wrap (to_reorder_gap t + rs_gap_events reorder);
     to_reorder_flushes := u64_wrap (to_reorder_flushes t + rs_timeout_flushes reorder);
     to_reorder_skipped := u64_wrap (to_reorder_skipped t + rs_skipped_frames reorder) |}.

(** The sessions a table lists, with their readings. *)
Definition listed (c : ServerCore) (k : nat -> SessionReadings) (order : list (string * nat)) : list (string * (ClientSession * SessionReadings)) :=
  omap (fun e : string * nat => (fun s => (e.1, (s, k e.2))) <$> sv_heap c !! e.2) order.
Definition server_totals (c : ServerCore) (k : nat -> SessionReadings) (order : list (string * nat)) : Totals :=
  foldl (fun t x => visit_session t x.2.1 x.2.2) (Totals_new (sv_fec_recovered_retired c) (sv_fec_lost_retired c)) (listed c k order).

(** [sum()] over the values of the table *)
Definition sum_of (f : ClientSession * SessionReadings -> Z) (l : list (string * (ClientSession * SessionReadings))) : Z :=
  foldl (fun n x => u64_wrap (n + f x.2)) 0 l.

(** The rates of single connections, lowest and highest over the sessions. *)
Definition conn_count (s : ClientSession) : Z := Z.max (st_active_conns (cs_stat s)) 1.
Definition rate_min (rate : ClientSession -> Z) (s : ClientSession) : Z := split_legacy_brutal_rate (rate s) (conn_count s) (conn_count s - 1).
Definition rate_max (rate : ClientSession -> Z) (s : ClientSession) : Z := split_legacy_brutal_rate (rate s) (conn_count s) 0.
Definition rate_range (rate : ClientSession -> Z) (sessions : list ClientSession) : Z * Z :=
  let lo := foldl (fun m s => Z.min m (rate_min rate s)) U64_MAX sessions in
  let hi := foldl (fun m s => Z.max m (rate_max rate s)) 0 sessions in
  (if is_nil sessions then 0 else lo, hi).

Definition brutal_errors (l : list (string * (ClientSession * SessionReadings))) : list text :=
  foldl (fun es x => push_error es (sg_brutal_error x.2.2)) [] l.
Definition brutal_error_text (p : ProcessReadings) (errors : list text) : text :=
  if is_nil errors then bs_error (brutal_system_status p) else join_errors errors.

(** ** The statistics *)

Definition reorder_json (gap flushes skipped : Z) : Value :=
  json [("gap_events", VNumber gap); ("timeout_flushes", VNumber flushes); ("skipped_frames", VNumber skipped)].
Definition client_json (s : ClientSession) (g : SessionReadings) : Value :=
  let e := cs_epoch_state s in
  let reorder := (rx_runtime_snapshot s).1.2 in
  json
    [("ipv4", VString (cs_ipv4 s)); ("ipv6", VString (cs_ipv6 s)); ("mac", VString (cs_mac s)); ("session_id", VString (cs_session_id s));
     ("session_epoch", VNumber (es_epoch e)); ("session_encrypt", VBool (is_inner_aead_algo (es_enc_algo e)));
     ("active_conns", VNumber (st_active_conns (cs_stat s))); ("tx_bytes", VNumber (sg_tx_bytes g)); ("rx_bytes", VNumber (sg_rx_bytes g));
     ("tx_packets", VNumber (sg_tx_packets g)); ("rx_packets", VNumber (sg_rx_packets g)); ("fec", VString (sg_fec_mode g));
     ("fec_group", VNumber (cs_fec_enc_k s)); ("enc_algo", VNumber (sg_enc_algo g)); ("brutal_tx", VNumber (cs_brutal_tx s));
     ("brutal_rx", VNumber (cs_brutal_rx s)); ("brutal_applied", VBool (0 <? cs_brutal_applied_conns s));
     ("brutal_applied_conns", VNumber (cs_brutal_applied_conns s)); ("brutal_error", VString (sg_brutal_error g));
     ("reorder", reorder_json (rs_gap_events reorder) (rs_timeout_flushes reorder) (rs_skipped_frames reorder));
     ("online_sec", VNumber (sg_age g)); ("uptime_sec", VNumber (sg_age g)); ("peer_info", sg_peer g)].
(** The backends of a session, numbered from one. *)
Definition diagnostic_paths (g : SessionReadings) (p : AsyncPort) : list (text * Z * (Z * Value)) :=
  imap (fun i b => ((sg_path g i).1, be_rtt_cache b, (sg_path g i).2)) (po_backends p).
Definition path_json (id : string) (idx : nat) (path : text * Z * (Z * Value)) : Value :=
  let '(conn_id, rtt, (assigned, scheduler)) := path in
  json
    [("client_id", VString (bytes_of_string id)); ("conn_id", VString conn_id); ("remote", VString (word "path #" ++ num (Z.of_nat idx + 1)));
     ("state", VString (word "up")); ("rtt_ms", VNumber (rtt / 1000)); ("tx_bytes", VNumber assigned); ("rx_bytes", VNumber 0);
     ("age_sec", VNumber 0); ("scheduler", scheduler)].
Definition session_paths (x : string * (ClientSession * SessionReadings)) : list Value :=
  imap (path_json (st_client_id (cs_stat x.2.1))) (diagnostic_paths x.2.2 (cs_port x.2.1)).

Definition brutal_json (p : ProcessReadings) (l : list (string * (ClientSession * SessionReadings))) : Value :=
  let sessions := (fun x => x.2.1) <$> l in
  let '(min_up, max_up) := rate_range cs_brutal_rx sessions in
  let '(min_down, max_down) := rate_range cs_brutal_tx sessions in
  json ([("enabled", VBool (sc_brutal conf)); ("up_mbps", VNumber (sc_brutal_up conf)); ("down_mbps", VNumber (sc_brutal_down conf))] ++
  kernel_json (brutal_system_status p) ++
    [("applied_conns", VNumber (sum_of (fun x => cs_brutal_applied_conns x.1) l));
     ("total_conns", VNumber (sum_of (fun x => Z.max (st_active_conns (cs_stat x.1)) 0) l)); ("min_up_mbps", VNumber min_up);
     ("max_up_mbps", VNumber max_up); ("min_down_mbps", VNumber min_down); ("max_down_mbps", VNumber max_down);
     ("error", VString (brutal_error_text p (brutal_errors l)))]).
Definition negotiate_json (p : ProcessReadings) (l : list (string * (ClientSession * SessionReadings))) : Value :=
  json
    [("protocol_version", VNumber PROTOCOL_VERSION); ("fec", VBool true); ("fec_group", VNumber 4);
     ("enc_algo", VNumber (if sc_encrypt conf then sc_enc_algo conf else ENC_ALGO_NONE)); ("pad_mode", VString (pg_pad_mode p));
     ("min_enc", VString (min_enc_label (sc_min_enc conf))); ("session_token", VBool true);
     ("max_sessions", VNumber (sc_max_sessions conf)); ("brutal", brutal_json p l)].
Definition fec_json (t : Totals) : Value :=
  json
    [("enabled", VBool (0 <? to_enabled_sessions t)); ("parity_tx", VNumber (to_parity t)); ("data_tx", VNumber (to_data_tx t));
     ("control_tx", VNumber (to_control_tx t)); ("data_wire_bytes", VNumber (to_data_wire t)); ("parity_wire_bytes", VNumber (to_parity_wire t));
     ("counter_domain", VString (word "written")); ("enabled_sessions", VNumber (to_enabled_sessions t));
     ("tx_active_sessions", VNumber (to_tx_active_sessions t)); ("rx_bypass_sessions", VNumber (to_rx_bypass_sessions t));
     ("recovered", VNumber (to_rec t)); ("lost", VNumber (to_lost t))].
Definition clients_json (l : list (string * (ClientSession * SessionReadings))) : Value :=
  VObject (foldl (fun m x => obj_insert m (bytes_of_string x.1) (client_json x.2.1 x.2.2)) [] l).
Definition banned_json (b : gmap string Z) : Value :=
  VObject (foldl (fun m x => obj_insert m (bytes_of_string x.1) (VNumber x.2)) [] (map_to_list b)).

(** [stats_json]; the ban list loses its expired entries on the way.  [macs] lists the
    table of the switch. *)
Definition server_stats (c : ServerCore) (k : nat -> SessionReadings) (order : list (string * nat)) (macs : list (mac * MacEntry))
    (p : ProcessReadings) : ServerCore * Value :=
  let l := listed c k order in
  let t := server_totals c k order in
  let '(v4_used, v4_total, v6_used) := pool_status (sv_pool c) in
  let '(bans, banned) := ban_snapshot (sv_banned c) (pg_now_unix p) in
  (sv_set_banned c bans,
   json
    [("mode", VString (word "server")); ("version", VString (pg_version p)); ("uptime_sec", VNumber (pg_uptime p));
     ("active_clients", VNumber (Z.of_nat (size (sv_sessions c)))); ("clients", clients_json l);
     ("global_tx_bytes", VNumber (sum_of (fun x => sg_tx_bytes x.2) l)); ("global_rx_bytes", VNumber (sum_of (fun x => sg_rx_bytes x.2) l));
     ("log_level", VString (pg_log_level p)); ("pad_mode", VString (pg_pad_mode p)); ("dropped_frames", VNumber (to_dropped t));
     ("fec", fec_json t);
     ("padding", json [("wire_bytes", VNumber (pg_padding p).1); ("pad_bytes", VNumber (pg_padding p).2); ("overhead_pct", pg_overhead_pct p)]);
     ("reorder", reorder_json (to_reorder_gap t) (to_reorder_flushes t) (to_reorder_skipped t));
     ("mem", json [("heap_alloc_mb", pg_rss_mb p); ("sys_mb", pg_rss_mb p); ("num_goroutine", VNumber (pg_threads p))]);
     ("ip_pool", json [("v4_used", VNumber v4_used); ("v4_total", VNumber v4_total); ("v6_used", VNumber v6_used)]);
     ("banned", banned_json banned);
     ("mac_table", VArray ((fun x : text * string * Z => json [("mac", VString x.1.1); ("port", VString (bytes_of_string x.1.2)); ("age_sec", VNumber x.2)])
                             <$> mac_snapshot macs (pg_now p)));
     ("server_conns", VArray (l ≫= session_paths)); ("negotiate", negotiate_json p l)]).

(** ** The metrics *)

Record Metrics := {
  mt_tx : Z; mt_rx : Z; mt_pk : Z; mt_rec : Z; mt_lost : Z; mt_dropped : Z; mt_gap : Z; mt_flushes : Z; mt_skipped : Z }.
Definition Metrics_new : Metrics :=
  {| mt_tx := 0; mt_rx := 0; mt_pk := 0; mt_rec := 0; mt_lost := 0; mt_dropped := 0; mt_gap := 0; mt_flushes := 0; mt_skipped := 0 |}.
Definition visit_metrics (m : Metrics) (s : ClientSession) (g : SessionReadings) : Metrics :=
  let '(session_rec, session_lost, reorder, _) := rx_runtime_snapshot s in
  {| mt_tx := u64_wrap (mt_tx m + sg_tx_bytes g); mt_rx := u64_wrap (mt_rx m + sg_rx_bytes g);
     mt_pk := u64_wrap (mt_pk m + u64_wrap (sg_tx_packets g + sg_rx_packets g));
     mt_rec := u64_sat_add (mt_rec m) session_rec; mt_lost := u64_sat_add (mt_lost m) session_lost;
     mt_dropped := u64_wrap (mt_dropped m + po_dropped (cs_port s)); mt_gap := u64_wrap (mt_gap m + rs_gap_events reorder);
     mt_flushes := u64_wrap (mt_flushes m + rs_timeout_flushes reorder); mt_skipped := u64_wrap (mt_skipped m + rs_skipped_frames reorder) |}.
Definition server_metrics (c : ServerCore) (k : nat -> SessionReadings) (order : list (string * nat)) : Metrics :=
  foldl (fun m x => visit_metrics m x.2.1 x.2.2) Metrics_new (listed c k order).

(** Name, help, type and value of a metric. *)
Definition metric : Type := string * string * string * Z.
Definition emit_metric (m : metric) : text :=
  let '(name, help, typ, val) := m in
  word "# HELP " ++ word name ++ word " " ++ word help ++ [10] ++ word "# TYPE " ++ word name ++ word " " ++ word typ ++ [10] ++
  word name ++ word " " ++ num val ++ [10].
Definition metric_list (c : ServerCore) (k : nat -> SessionReadings) (order : list (string * nat)) (p : ProcessReadings) : list metric :=
  let m := server_metrics c k order in
  let '(v4_used, v4_total, v6_used) := pool_status (sv_pool c) in
  [("tlsvpn_uptime_seconds", "Process uptime in seconds", "gauge", pg_uptime p);
   ("tlsvpn_go_goroutines", "Number of goroutines", "gauge", pg_threads p);
   ("tlsvpn_heap_alloc_bytes", "Heap bytes allocated and still in use", "gauge", pg_rss_bytes p);
   ("tlsvpn_active_clients", "Number of active client sessions", "gauge", Z.of_nat (size (sv_sessions c)));
   ("tlsvpn_tx_bytes_total", "Total bytes sent to clients", "counter", mt_tx m);
   ("tlsvpn_rx_bytes_total", "Total bytes received from clients", "counter", mt_rx m);
   ("tlsvpn_packets_total", "Total frames relayed (tx+rx)", "counter", mt_pk m);
   ("tlsvpn_ip_pool_v4_used", "Allocated IPv4 addresses", "gauge", v4_used);
   ("tlsvpn_ip_pool_v4_total", "IPv4 pool capacity", "gauge", v4_total);
   ("tlsvpn_ip_pool_v6_used", "Allocated IPv6 addresses", "gauge", v6_used);
   ("tlsvpn_fec_recovered_frames_total", "Frames recovered by XOR FEC", "counter", mt_rec m);
   ("tlsvpn_fec_lost_frames_total", "Frames confirmed lost despite FEC", "counter", mt_lost m);
   ("tlsvpn_port_dropped_frames_total", "Frames dropped due to backpressure", "counter", mt_dropped m);
   ("tlsvpn_reorder_gap_events_total", "Observed sequence gaps", "counter", mt_gap m);
   ("tlsvpn_reorder_timeout_flushes_total", "Gap timeouts that resumed delivery", "counter", mt_flushes m);
   ("tlsvpn_reorder_skipped_frames_total", "Missing sequence slots skipped after timeout", "counter", mt_skipped m);
   ("tlsvpn_banned_clients", "Currently banned clients", "gauge", Z.of_nat (size (sv_banned c : gmap string Z)));
   ("tlsvpn_spoofed_src_dropped_frames_total", "Frames dropped for declaring another session's src MAC", "counter", vs_spoof_drops (sv_vswitch c));
   ("tlsvpn_broadcast_dropped_frames_total", "Broadcast frames dropped over the per-port flood budget", "counter", vs_flood_drops (sv_vswitch c))].
Definition metrics_text (c : ServerCore) (k : nat -> SessionReadings) (order : list (string * nat)) (p : ProcessReadings) : text :=
  concat (emit_metric <$> metric_list c k order p).
End Status.
