(* ===== verification/StatusSpec.v ===== *)
(** * What the reported numbers mean

    The totals do not depend on the order in which the table lists its sessions; the FEC
    counts of the statistics are conserved by every operation on sessions, less what is
    decoded for a session that already left the table; the rates lie in their range; a reader of the metrics gets every value back.  The FEC counters of
    the metrics are not conserved. *)
From stdpp Require Import pretty.
From S2P Require Import Prelude Protocol Utils Crypto Xor Fec Buffer Reorder RxActor Adaptive Queue Port PortSpec VSwitch Pool Brutal PeerInfo Session SessionSpec Policy Writer WebState WebStore Status.

(** ** Sums over a table *)

Definition Zsum_list (l : list Z) : Z := foldr Z.add 0 l.
Lemma Zsum_list_app l k : Zsum_list (l ++ k) = Zsum_list l + Zsum_list k.
Proof. induction l as [|x l IH]; cbn; [done|]. fold (Zsum_list l) (Zsum_list (l ++ k)). lia. Qed.
#[export] Instance Zsum_list_perm : Proper ((≡ₚ) ==> (=)) Zsum_list.
Proof. induction 1; cbn in *; unfold Zsum_list in *; cbn; lia. Qed.
Lemma Zsum_list_nonneg l : Forall (fun x => 0 <= x) l -> 0 <= Zsum_list l.
Proof. unfold Zsum_list. induction 1; cbn; lia. Qed.
(** Saturating and wrapping sums in terms of the exact one. *)
Lemma sat_fold l n : 0 <= n -> Forall (fun x => 0 <= x) l -> foldl u64_sat_add n l = if is_nil l then n else Z.min U64_MAX (n + Zsum_list l).
Proof.
  intros Hn Hl. revert n Hn. induction Hl as [|x l Hx Hl IH]; intros n Hn; [done|]. cbn [foldl]. unfold u64_sat_add at 2.
  rewrite IH by (unfold U64_MAX; lia). pose proof (Zsum_list_nonneg l Hl). unfold Zsum_list in *. cbn.
  destruct l; cbn in *; unfold U64_MAX in *; lia.
Qed.
Lemma wrap_fold l n : is_u64 n -> foldl (fun a x => u64_wrap (a + x)) n l = u64_wrap (n + Zsum_list l).
Proof.
  intros Hn. rewrite <-(Z.mod_small n 18446744073709551616) at 1 by (unfold is_u64, U64_MAX in Hn; lia). fold (u64_wrap n).
  clear Hn. revert n. induction l as [|x l IH]; intros n; [by rewrite Z.add_0_r|]. cbn [foldl Zsum_list foldr]. fold (Zsum_list l).
  rewrite Z.add_assoc, <-(IH (n + x)). f_equal. unfold u64_wrap. by rewrite Zplus_mod_idemp_l.
Qed.

Section Sums.
Context `{FrameChannel} `{CryptoPrims} `{HexCodec} `{UuidLib} `{BrutalSocketOps}.
Context (f : ClientSession -> Z).

Definition table_sum (heap : gmap nat ClientSession) (order : list (string * nat)) : Z :=
  Zsum_list (omap (fun e : string * nat => f <$> heap !! e.2) order).

Lemma table_sum_perm heap o o' : o ≡ₚ o' -> table_sum heap o = table_sum heap o'.
Proof. intros E. unfold table_sum. by rewrite E. Qed.
Lemma table_sum_ext heap heap' order :
  (forall id r, (id, r) ∈ order -> f <$> heap' !! r = f <$> heap !! r) -> table_sum heap' order = table_sum heap order.
Proof.
  intros E. unfold table_sum. f_equal. apply list_omap_ext, Forall_Forall2_diag, Forall_forall. intros [id r] He. cbn. by eapply E.
Qed.
(** A session that counts as much as before. *)
Lemma table_sum_put heap order r s s' : heap !! r = Some s -> f s' = f s -> table_sum (<[r := s']> heap) order = table_sum heap order.
Proof.
  intros Hr E. apply table_sum_ext. intros id r' _. destruct (decide (r' = r)) as [->|]; [|by rewrite lookup_insert_ne].
  rewrite lookup_insert_eq, Hr. cbn. by rewrite E.
Qed.
Lemma table_sum_out heap order r s : r ∉ order.*2 -> table_sum (<[r := s]> heap) order = table_sum heap order.
Proof.
  intros Hr. apply table_sum_ext. intros id r' He. rewrite lookup_insert_ne; [done|]. intros <-. apply Hr.
  apply list_elem_of_fmap. by exists (id, r).
Qed.
Lemma table_sum_take heap (table : gmap string nat) id r s :
  table !! id = Some r -> heap !! r = Some s ->
  table_sum heap (map_to_list table) = f s + table_sum heap (map_to_list (delete id table)).
Proof.
  intros Ht Hs. rewrite (table_sum_perm _ _ _ (Permutation_sym (map_to_list_delete table id r Ht))). unfold table_sum. cbn. by rewrite Hs.
Qed.
Lemma table_sum_new heap (table : gmap string nat) id r s :
  table !! id = None -> r ∉ (map_to_list table).*2 -> table_sum (<[r := s]> heap) (map_to_list (<[id := r]> table)) = f s + table_sum heap (map_to_list table).
Proof.
  intros Ht Hr. rewrite (table_sum_take _ _ id r s) by apply lookup_insert_eq. rewrite delete_insert_eq, delete_id by done.
  by rewrite table_sum_out.
Qed.
(** The count of one listed session changes. *)
Lemma table_sum_change heap (table : gmap string nat) id r s s' :
  table !! id = Some r -> (forall id', table !! id' = Some r -> id' = id) -> heap !! r = Some s ->
  table_sum (<[r := s']> heap) (map_to_list table) = table_sum heap (map_to_list table) + (f s' - f s).
Proof.
  intros Ht Hu Hs. rewrite (table_sum_take _ _ id r s') by (done || apply lookup_insert_eq). rewrite (table_sum_take heap _ id r s) by done.
  rewrite table_sum_out; [lia|]. intros ([id' r'] & -> & [Hne Hin]%elem_of_map_to_list%lookup_delete_Some)%list_elem_of_fmap.
  apply Hne. symmetry. by apply Hu.
Qed.
Lemma table_sum_nonneg heap order :
  (forall id r s, (id, r) ∈ order -> heap !! r = Some s -> 0 <= f s) -> 0 <= table_sum heap order.
Proof.
  intros Hp. apply Zsum_list_nonneg, Forall_forall. intros x ([id r] & He & Hx)%list_elem_of_omap. cbn in Hx.
  destruct (heap !! r) as [s|] eqn:Hs; [|done]. injection Hx as <-. by eapply Hp.
Qed.
End Sums.

(** ** The FEC counts are conserved *)

Section Conserved.
Context `{FrameChannel} `{CryptoPrims} `{HexCodec} `{UuidLib} `{BrutalSocketOps}.
Context (v6 : family) (conf : ServerConf).
(** Which of the two counts: the lost frames or the recovered ones. *)
Context (lost : bool).

Definition dec_count (d : FecDecoder) : Z := if lost then fi_lost (fd_inner d) else fi_recovered (fd_inner d).
Definition opt_count (d : option FecDecoder) : Z := match d with Some d => dec_count d | None => 0 end.
Definition actor_base (a : RxActorState) : Z := if lost then ra_lost_base a else ra_recovered_base a.
Definition lifetime (s : ClientSession) : Z := if lost then st_fec_lost_lifetime (cs_stat s) else st_fec_recovered_lifetime (cs_stat s).
(** All that the decoders a session has had have counted. *)
Definition fec_life (s : ClientSession) : Z :=
  lifetime s + match cs_rx_actor s with Some a => actor_base a + opt_count (ra_fec a) | None => opt_count (es_fec_dec (cs_epoch_state s)) end.
Definition counts_ok (s : ClientSession) : Prop :=
  0 <= lifetime s /\
  match cs_rx_actor s with Some a => 0 <= actor_base a /\ 0 <= opt_count (ra_fec a) | None => 0 <= opt_count (es_fec_dec (cs_epoch_state s)) end.
Definition retired_count (c : ServerCore) : Z := if lost then sv_fec_lost_retired c else sv_fec_recovered_retired c.
(** What the sessions of the table and the destroyed ones have counted. *)
Definition fec_total (c : ServerCore) : Z := retired_count c + table_sum fec_life (sv_heap c) (map_to_list (sv_sessions c)).
(** What the statistics show. *)
Definition shown (t : Totals) : Z := if lost then to_lost t else to_rec t.
Definition session_shown (s : ClientSession) : Z := let '(r, l, _, _) := rx_runtime_snapshot s in if lost then l else r.

Lemma counts_life s : counts_ok s -> 0 <= fec_life s.
Proof. unfold counts_ok, fec_life. destruct (cs_rx_actor s); lia. Qed.
Lemma session_shown_life s : counts_ok s -> session_shown s = Z.min U64_MAX (fec_life s).
Proof.
  unfold counts_ok, session_shown, fec_life, rx_runtime_snapshot, snapshot, lifetime, actor_base, opt_count, dec_count, u64_sat_add.
  destruct (cs_rx_actor s) as [a|]; [destruct (ra_fec a)|destruct (es_fec_dec (cs_epoch_state s))]; destruct lost; cbn; unfold U64_MAX; lia.
Qed.
(** Two sessions that have counted the same, sane if the first is. *)
Definition same_life (s s' : ClientSession) : Prop :=
  st_client_id (cs_stat s') = st_client_id (cs_stat s) /\ fec_life s' = fec_life s /\ (counts_ok s -> counts_ok s').
Lemma same_life_refl s : same_life s s.
Proof. done. Qed.
Lemma same_life_trans a b c : same_life a b -> same_life b c -> same_life a c.
Proof. intros (? & ? & ?) (? & ? & ?). split; [congruence|]. split; [congruence|auto]. Qed.
(** Operations that leave counters, actor and decoder alone. *)
Lemma same_life_kept s s' :
  st_client_id (cs_stat s') = st_client_id (cs_stat s) -> lifetime s' = lifetime s -> cs_rx_actor s' = cs_rx_actor s ->
  es_fec_dec (cs_epoch_state s') = es_fec_dec (cs_epoch_state s) -> same_life s s'.
Proof. intros E0 E1 E2 E3. unfold same_life, fec_life, counts_ok. by rewrite E0, E1, E2, E3. Qed.

Lemma reset_rx_life s fec e :
  counts_ok s -> fec_life s <= U64_MAX -> (cs_rx_actor s = None -> opt_count (es_fec_dec e) = 0) ->
  same_life s (cs_set_epoch (reset_rx s fec) e).
Proof.
  unfold same_life, counts_ok, fec_life, reset_rx. intros Hc Hm He.
  split; [destruct (cs_rx_actor s); [done|]; cbn; by destruct (es_fec_dec (cs_epoch_state s))|].
  destruct (cs_rx_actor s) as [a|] eqn:Ea; cbn.
  - assert (Hnew : forall k ic, opt_count (FecDecoder_reset_actor <$> (if 0 <? k then Some (FecDecoder_new k ic) else None)) = 0)
      by (intros k ic; destruct (0 <? k); unfold opt_count, dec_count; destruct lost; done).
    unfold reconfigure, opt_count, dec_count, lifetime, actor_base, u64_sat_add in *. cbn in *.
    destruct (ra_fec a) as [d|]; cbn; specialize (Hnew (cs_fec_enc_k s) fec); destruct lost; cbn; rewrite Hnew; lia.
  - rewrite (He eq_refl). unfold opt_count, dec_count, lifetime in *. destruct (es_fec_dec (cs_epoch_state s)) as [d|]; cbn in *.
    + destruct lost; cbn; rewrite u64_wrap_id by (unfold is_u64, U64_MAX in *; lia); lia.
    + destruct lost; cbn; lia.
Qed.

Lemma rotate_life s inst sa sb s' :
  rotate_session_epoch conf s inst sa sb = Ok s' -> counts_ok s -> fec_life s <= U64_MAX -> same_life s s'.
Proof.
  unfold rotate_session_epoch. destruct (make_ciphers _ _ _ _) as [ec|]; [|done]. cbn. intros [= <-] Hc Hm.
  eapply same_life_trans; [eapply (reset_rx_life s (ec_fec_rx ec) (es_set_fec_dec (cs_epoch_state s) (match cs_rx_actor s with
      None => if 0 <? cs_fec_enc_k s then Some (FecDecoder_new (cs_fec_enc_k s) (ec_fec_rx ec)) else None | Some _ => None end))); [done..|]|].
  - intros ->. cbn. destruct (0 <? _); [|done]. unfold opt_count, dec_count. by destruct lost.
  - apply same_life_kept; try done; unfold lifetime; by destruct lost.
Qed.
Lemma epoch_life s e : es_fec_dec e = es_fec_dec (cs_epoch_state s) -> same_life s (cs_set_epoch s e).
Proof. intros E. by apply same_life_kept. Qed.
Lemma stat_life s st d :
  st_client_id st = st_client_id (cs_stat s) -> st_fec_recovered_lifetime st = st_fec_recovered_lifetime (cs_stat s) ->
  st_fec_lost_lifetime st = st_fec_lost_lifetime (cs_stat s) -> same_life s (cs_set_stat s st d).
Proof. intros ? ? ?. apply same_life_kept; try done. unfold lifetime. by destruct lost. Qed.

Lemma revive_life s rq en s' o :
  revive_session conf s rq en = (s', o) -> counts_ok s -> fec_life s <= U64_MAX -> same_life s s'.
Proof.
  intros E Hc Hm. unfold revive_session in E. case_match; [by simplify_eq|]. case_match; [by simplify_eq|].
  destruct (resume_epoch conf s rq en) as [s1 o1] eqn:Er.
  assert (H1' : same_life s s1).
  { unfold resume_epoch in Er. destruct (negb (bool_decide _)).
    - destruct (accept_session_resume_token _ _) as [e v] eqn:Et.
      assert (He : same_life s (cs_set_epoch s e)).
      { apply epoch_life. unfold accept_session_resume_token in Et. repeat (case_match; simplify_eq); done. }
      destruct v; cbn [negb] in Er; [|by injection Er as <- <-].
      destruct (rotate_session_epoch _ _ _ _ _) as [s2|] eqn:Eo; [|by injection Er as <- <-].
      assert (H2' : same_life s s2).
      { eapply same_life_trans; [exact He|]. destruct He as (_ & El & Hk). eapply rotate_life; [exact Eo|by apply Hk|by rewrite El]. }
      destruct (ensure_pending_resume_token _ _) as [e'|] eqn:Ep; injection Er as <- <-; [|done].
      eapply same_life_trans; [exact H2'|]. apply epoch_life. unfold ensure_pending_resume_token in Ep. repeat (case_match; simplify_eq); done.
    - destruct (pending_matches _ _); injection Er as <- <-; [by apply epoch_life|apply same_life_refl]. }
  destruct o1; [by simplify_eq|]. destruct (_ <=? _); simplify_eq; (eapply same_life_trans; [exact H1'|]);
    apply same_life_kept; try done; unfold lifetime; by destruct lost.
Qed.
Lemma attach_life c ms r s rq wo c' ms' o resp :
  attach conf c ms r s rq wo = (c', ms', o, resp) -> exists s', c' = sv_put c r s' /\ same_life s s'.
Proof.
  unfold attach. destruct (negotiate_brutal conf rq) as [[stx ctx] leg].
  assert (Hs : forall stx ctx, same_life s (attach_session s rq (be_set_rtt (ms_tx_backend ms) 50000) stx ctx)).
  { intros ? ?. unfold attach_session. destruct (cs_rx_actor s) as [a|] eqn:Ea.
    { cbn. rewrite Ea. by apply same_life_kept. }
    cbn. rewrite Ea. destruct (es_fec_dec (cs_epoch_state s)) as [d|] eqn:Ed; [|by apply same_life_kept; rewrite ?Ed].
    unfold same_life, fec_life, counts_ok, lifetime. cbn. rewrite Ea, Ed. cbn. unfold dec_count. by destruct (fd_static_single d). }
  destruct wo; cbn [negb]; [|intros [= <- _ _ _]; eexists; split; [reflexivity|apply Hs]].
  destruct (if _ && _ then _ else _) as [sock res]. intros [= <- _ _ _]. eexists. split; [reflexivity|].
  eapply same_life_trans; [apply (Hs stx ctx)|by apply same_life_kept].
Qed.

(** *** The server *)

Record fec_inv (c : ServerCore) : Prop := {
  fv_known : forall id r, sv_sessions c !! id = Some r -> exists s, sv_heap c !! r = Some s /\ st_client_id (cs_stat s) = id;
  fv_fresh : forall r s, sv_heap c !! r = Some s -> (r < sv_next c)%nat;
  fv_counts : forall r s, sv_heap c !! r = Some s -> counts_ok s;
  fv_retired : 0 <= retired_count c;
  fv_bound : fec_total c <= U64_MAX }.
Definition keeps (c c' : ServerCore) : Prop := fec_inv c -> fec_inv c' /\ fec_total c' = fec_total c.
Lemma keeps_refl c : keeps c c.
Proof. done. Qed.
Lemma keeps_trans a b c : keeps a b -> keeps b c -> keeps a c.
Proof. intros Hab Hbc Ha. destruct (Hab Ha) as [Hb <-]. by apply Hbc. Qed.
Lemma keeps_fold {A} (g : ServerCore -> A -> ServerCore) l c : (forall c x, keeps c (g c x)) -> keeps c (fold_left g l c).
Proof. intros Hg. revert c. induction l as [|x l IH]; intros c; [apply keeps_refl|]. eapply keeps_trans; [apply Hg|apply IH]. Qed.
(** What does not touch heap, table, fresh reference or retired_count counts. *)
Lemma keeps_same c c' :
  sv_heap c' = sv_heap c -> sv_next c' = sv_next c -> sv_sessions c' = sv_sessions c -> retired_count c' = retired_count c -> keeps c c'.
Proof. intros E1 E2 E3 E4 [Hk Hf Hc Hr Hb]. unfold fec_total in *. split; [split|]; unfold fec_total; rewrite ?E1, ?E2, ?E3, ?E4; done. Qed.
Lemma retired_same c c' :
  sv_fec_recovered_retired c' = sv_fec_recovered_retired c -> sv_fec_lost_retired c' = sv_fec_lost_retired c -> retired_count c' = retired_count c.
Proof. unfold retired_count. by destruct lost. Qed.

Lemma life_bound c id r s : fec_inv c -> sv_sessions c !! id = Some r -> sv_heap c !! r = Some s -> 0 <= fec_life s <= U64_MAX.
Proof.
  intros [Hk Hf Hc Hr Hb] Ht Hs. pose proof (counts_life s (Hc r s Hs)). unfold fec_total in Hb. rewrite (table_sum_take _ _ _ _ _ _ Ht Hs) in Hb.
  assert (0 <= table_sum fec_life (sv_heap c) (map_to_list (delete id (sv_sessions c)))); [|lia].
  apply table_sum_nonneg. intros _ r' s' _ Hs'. by eapply counts_life, Hc.
Qed.
Lemma keeps_put c r s s' : sv_heap c !! r = Some s -> same_life s s' -> keeps c (sv_put c r s').
Proof.
  intros Hs (Eid & El & Hc') [Hk Hf Hc Hr Hb].
  assert (Et : fec_total (sv_put c r s') = fec_total c) by (unfold fec_total; cbn; by rewrite (table_sum_put _ _ _ _ s)).
  split; [|done]. split; cbn.
  - intros id r' Ht. destruct (Hk id r' Ht) as (s1 & Hs1 & Hid). destruct (decide (r' = r)) as [->|].
    + rewrite lookup_insert_eq. exists s'. simplify_eq. by rewrite Eid.
    + rewrite lookup_insert_ne by done. by exists s1.
  - intros r' s1. destruct (decide (r' = r)) as [->|]; [intros _; by eapply Hf|]. rewrite lookup_insert_ne by done. apply Hf.
  - intros r' s1. destruct (decide (r' = r)) as [->|]; [|rewrite lookup_insert_ne by done; apply Hc].
    rewrite lookup_insert_eq. intros [= <-]. by eapply Hc', Hc.
  - done.
  - by rewrite Et.
Qed.
Lemma keeps_destroy c r : keeps c (destroy_session c r).
Proof.
  intros Hi. unfold destroy_session, destroy_unlink. destruct (sv_heap c !! r) as [s|] eqn:Hs; [|done].
  destruct (sv_sessions c !! st_client_id (cs_stat s)) as [cur|] eqn:Ec; [|done].
  destruct (Nat.eqb_spec cur r) as [->|]; cbn [negb]; [|done].
  pose proof (life_bound c _ r s Hi Ec Hs) as Hl. destruct Hi as [Hk Hf Hc Hr Hb].
  pose proof (session_shown_life s (Hc r s Hs)) as Hsh. unfold session_shown in Hsh.
  destruct (rx_runtime_snapshot s) as [[[rec lo] ?] ?]. unfold destroy_cleanup. cbn. rewrite Hs.
  rewrite Z.min_r in Hsh by lia.
  assert (Hsum : 0 <= table_sum fec_life (sv_heap c) (map_to_list (delete (st_client_id (cs_stat s)) (sv_sessions c)))).
  { apply table_sum_nonneg. intros _ r' s' _ Hs'. by eapply counts_life, Hc. }
  unfold fec_total in Hb. rewrite (table_sum_take _ _ _ _ _ _ Ec Hs) in Hb.
  match goal with |- fec_inv ?c' /\ _ => set (c1 := c') end.
  assert (Hret : retired_count c1 = retired_count c + fec_life s).
  { unfold c1, retired_count in *. cbn. destruct lost; subst; apply u64_wrap_id; unfold is_u64; lia. }
  assert (Et : fec_total c1 = fec_total c).
  { unfold fec_total. rewrite Hret, (table_sum_take _ _ _ _ _ _ Ec Hs). cbn. lia. }
  split; [|done]. split; [|done|done|lia|].
  - intros id r'. cbn. intros [_ Ht]%lookup_delete_Some. by apply Hk.
  - rewrite Et. unfold fec_total. by rewrite (table_sum_take _ _ _ _ _ _ Ec Hs).
Qed.

Lemma keeps_banned c b : keeps c (sv_set_banned c b).
Proof. by apply keeps_same. Qed.
Lemma keeps_pool c p : keeps c (sv_set_pool c p).
Proof. by apply keeps_same. Qed.
(** A new session has counted nothing. *)
Lemma build_life rq en ips token (s := build_session conf rq en ips token) : fec_life s = 0 /\ counts_ok s /\ st_client_id (cs_stat s) = rq_client_id rq.
Proof.
  unfold s, build_session. destruct (if is_inner_aead_algo _ then _ else _) as [ftx frx].
  unfold fec_life, counts_ok, lifetime, actor_base, opt_count, dec_count. cbn.
  destruct (1 <? _), (0 <? _), lost; cbn; repeat split; lia.
Qed.
Lemma keeps_publish c s p now :
  sv_sessions c !! st_client_id (cs_stat s) = None -> fec_life s = 0 -> counts_ok s -> keeps c (publish_session c s p now).1.
Proof.
  intros Hn Hl Hs [Hk Hf Hc Hr Hb]. unfold publish_session. cbn.
  match goal with |- fec_inv ?c' /\ _ => set (c1 := c') end.
  assert (Hret : retired_count c1 = retired_count c) by (by apply retired_same).
  assert (Et : fec_total c1 = fec_total c).
  { unfold fec_total. rewrite Hret. cbn. rewrite table_sum_new, Hl; [done|done|].
    intros ([id r] & Hr' & (s1 & Hs1 & _)%elem_of_map_to_list%Hk)%list_elem_of_fmap. cbn in Hr'. subst r. apply Hf in Hs1. lia. }
  split; [|done]. split; cbn.
  - intros id r. destruct (decide (id = st_client_id (cs_stat s))) as [->|].
    + rewrite lookup_insert_eq. intros [= <-]. rewrite lookup_insert_eq. by exists s.
    + rewrite lookup_insert_ne by done. intros (s1 & Hs1 & Hid)%Hk. exists s1. split; [|done].
      rewrite lookup_insert_ne; [done|]. apply Hf in Hs1. lia.
  - intros r s1. destruct (decide (r = sv_next c)) as [->|]; [lia|]. rewrite lookup_insert_ne by done. intros ?%Hf. lia.
  - intros r s1. destruct (decide (r = sv_next c)) as [->|]; [rewrite lookup_insert_eq; by intros [= <-]|].
    rewrite lookup_insert_ne by done. apply Hc.
  - by rewrite Hret.
  - by rewrite Et.
Qed.
Lemma keeps_attach c ms r s rq wo c' ms' o resp :
  sv_heap c !! r = Some s -> attach conf c ms r s rq wo = (c', ms', o, resp) -> keeps c c'.
Proof. intros Hs (s' & -> & Hl)%attach_life. by eapply keeps_put. Qed.

Lemma keeps_handshake c ms req en nu now wo c' ms' o resp :
  handle_handshake v6 conf c ms req en nu now wo = (c', ms', o, resp) -> keeps c c'.
Proof.
  unfold handle_handshake. destruct req as [rq|]; [|by intros [= <- _ _ _]].
  destruct (check_request conf rq); [by intros [= <- _ _ _]|]. destruct (is_banned _ _ _) as [b hit].
  intros E. eapply keeps_trans; [apply (keeps_banned c b)|]. set (c0 := sv_set_banned c b) in *.
  destruct hit; [by injection E as <- _ _ _|]. destruct (sv_sessions c0 !! rq_client_id rq) as [r|] eqn:Es.
  - destruct (sv_heap c0 !! r) as [s|] eqn:Eh; [|by injection E as <- _ _ _].
    destruct (revive_session conf s rq en) as [s1 o1] eqn:Er.
    assert (Hput : keeps c0 (sv_put c0 r s1)).
    { intros Hi. refine (keeps_put c0 r s s1 Eh _ Hi). apply (revive_life _ _ _ _ _ Er); [by eapply fv_counts|].
      by apply (life_bound c0 _ r s Hi Es Eh). }
    destruct o1; [by injection E as <- _ _ _|]. eapply keeps_trans; [exact Hput|]. eapply keeps_attach; [|exact E]. apply lookup_insert_eq.
  - unfold create_session in E. destruct (_ && _); [by injection E as <- _ _ _|].
    destruct (bound_request _ _ _ _) as [q4 q6]. destruct (assign_addresses _ _ _ _) as [p [ips|]]; [|injection E as <- _ _ _; apply keeps_pool].
    destruct (if valid_session_token_format _ then _ else _) as [token|]; [|injection E as <- _ _ _; apply keeps_pool].
    destruct (build_life rq en ips token) as (Hl & Hc & Hid). set (s := build_session conf rq en ips token) in *.
    pose proof (keeps_publish c0 s (bind_mac p (request_mac rq) ips) now) as Hp. rewrite Hid in Hp. specialize (Hp Es Hl Hc).
    destruct (publish_session c0 s _ now) as [c1 r1] eqn:Ep. cbn in Hp. eapply keeps_trans; [exact Hp|].
    destruct (sv_heap c1 !! r1) as [s1|] eqn:Es1; [|by injection E as <- _ _ _]. by eapply keeps_attach.
Qed.
Lemma close_life s b ce ba now : same_life s (close_session s b ce ba now).
Proof.
  unfold close_session. destruct ba; cbn; (destruct (negb _); [by apply same_life_kept|]); (destruct (_ <=? 1));
    apply same_life_kept; try done; unfold lifetime; by destruct lost.
Qed.
Lemma keeps_close c ms now : keeps c (on_conn_closed c ms now).
Proof.
  unfold on_conn_closed. destruct (ms_client_session ms) as [r|]; [|apply keeps_refl].
  destruct (sv_heap c !! r) as [s|] eqn:Hs; [|apply keeps_refl]. eapply keeps_put; [exact Hs|apply close_life].
Qed.
Lemma keeps_close_conn st k now : keeps (sr_core st) (sr_core (close_conn st k now)).
Proof. unfold close_conn. destruct (sr_conns st !! k); [apply keeps_close|apply keeps_refl]. Qed.
Lemma keeps_kick_ref c r : keeps c (kick_ref c r).
Proof.
  unfold kick_ref. destruct (sv_heap c !! r) as [s|] eqn:Hs; [|apply keeps_refl].
  eapply keeps_trans; [|apply keeps_destroy]. eapply keeps_put; [exact Hs|]. by apply stat_life.
Qed.
Lemma keeps_kick c id : keeps c (kick c id).
Proof. unfold kick. destruct (sv_sessions c !! id); [apply keeps_kick_ref|apply keeps_refl]. Qed.
Lemma keeps_control c nu a : keeps c (control c nu a).
Proof.
  destruct a as [id|id ttl|id|]; cbn; [apply keeps_kick| |apply keeps_banned|apply keeps_fold, keeps_kick_ref].
  destruct (ban _ _ _ _) as [b ok]. eapply keeps_trans; [apply (keeps_banned c b)|]. destruct ok; [apply keeps_kick|apply keeps_refl].
Qed.
Lemma keeps_sweep c ms fresh : keeps c (sweep_conn c ms fresh).1.
Proof.
  unfold sweep_conn. destruct (ms_client_session ms) as [r|]; [|apply keeps_refl]. destruct (sv_heap c !! r) as [s|] eqn:Hs; [|apply keeps_refl].
  destruct (po_sequence_exhausted _); [|apply keeps_refl]. eapply keeps_put; [exact Hs|]. unfold retire_epoch. destruct (is_prefix _ _); [done|].
  apply same_life_kept; try done; unfold lifetime; by destruct lost.
Qed.

(** *** Runs *)

(** What the decoder of a session counts while traffic passes, whether or not the
    session is still in the table. *)
Definition growth (st : server) (op : server_op) : Z :=
  match op with
  | OTraffic r port rb dd actor dec =>
      match sv_heap (sr_core st) !! r with Some s => fec_life (cs_traffic s port rb dd actor dec) - fec_life s | None => 0 end
  | _ => 0
  end.
(** Traffic of a session that was destroyed or kicked: its connections stay with their
    workers until these drop them and go on decoding. *)
Definition late (st : server) (op : server_op) : bool :=
  match op with
  | OTraffic r _ _ _ _ _ =>
      match sv_heap (sr_core st) !! r with Some s => negb (bool_decide (sv_sessions (sr_core st) !! st_client_id (cs_stat s) = Some r)) | None => false end
  | _ => false
  end.
Definition late_growth (st : server) (op : server_op) : Z := if late st op then growth st op else 0.
(** Counters only go up. *)
Definition counting (st : server) (op : server_op) : Prop :=
  match op with
  | OTraffic r port rb dd actor dec =>
      forall s, sv_heap (sr_core st) !! r = Some s ->
        counts_ok (cs_traffic s port rb dd actor dec) /\ fec_life s <= fec_life (cs_traffic s port rb dd actor dec)
  | _ => True
  end.
Fixpoint run_growth (st : server) (ops : list server_op) : Z :=
  match ops with [] => 0 | op :: ops => growth st op + run_growth (server_step v6 conf st op) ops end.
Fixpoint run_late (st : server) (ops : list server_op) : Z :=
  match ops with [] => 0 | op :: ops => late_growth st op + run_late (server_step v6 conf st op) ops end.
Fixpoint run_counting (st : server) (ops : list server_op) : Prop :=
  match ops with [] => True | op :: ops => counting st op /\ run_counting (server_step v6 conf st op) ops end.

Lemma growth_nonneg st op : counting st op -> 0 <= late_growth st op <= growth st op.
Proof.
  intros Hc. assert (0 <= growth st op); [|unfold late_growth; destruct (late st op); lia].
  destruct op; cbn in *; try lia. destruct (sv_heap _ !! r) as [s|]; [|done]. destruct (Hc s eq_refl). lia.
Qed.
Lemma run_growth_nonneg st ops : run_counting st ops -> 0 <= run_late st ops <= run_growth st ops.
Proof.
  revert st. induction ops as [|op ops IH]; intros st; cbn; [lia|]. intros [H1' H2']. pose proof (growth_nonneg _ _ H1'). specialize (IH _ H2'). lia.
Qed.
Lemma step_total st op :
  fec_inv (sr_core st) -> counting st op -> fec_total (sr_core st) + (growth st op - late_growth st op) <= U64_MAX ->
  fec_inv (sr_core (server_step v6 conf st op)) /\ fec_total (sr_core (server_step v6 conf st op)) = fec_total (sr_core st) + (growth st op - late_growth st op).
Proof.
  intros Hi Hc Hb.
  assert (Hkeep : forall c', keeps (sr_core st) c' -> growth st op - late_growth st op = 0 -> fec_inv c' /\ fec_total c' = fec_total (sr_core st) + (growth st op - late_growth st op)).
  { intros c' Hk Hg. destruct (Hk Hi) as [? ->]. split; [done|lia]. }
  destruct op as [k ms|k req en nu now wo|k fresh|k now|now|nu a|r port rb dd actor dec|src reg frame now]; cbn [server_step].
  - case_decide; apply Hkeep; done.
  - destruct (sr_conns st !! k) as [ms|]; [|by apply Hkeep]. destruct (ms_handshake_done ms); [by apply Hkeep|].
    destruct (handle_handshake _ _ _ _ _ _ _ _ _) as [[[c' ms'] o] resp] eqn:E. apply keeps_handshake in E.
    destruct o; (apply Hkeep; [|done]); cbn; try exact E; eapply keeps_trans; (exact E || apply (keeps_close_conn {| sr_core := c'; sr_conns := _ |})).
  - destruct (sr_conns st !! k) as [ms|]; apply Hkeep; try done. apply keeps_sweep.
  - apply Hkeep; [apply keeps_close_conn|done].
  - apply Hkeep; [|done]. apply keeps_fold, keeps_destroy.
  - apply Hkeep; [apply keeps_control|done].
  - unfold late_growth in *. cbn [growth late counting] in *. destruct (sv_heap (sr_core st) !! r) as [s|] eqn:Hs; [|split; [done|lia]].
    destruct (Hc s eq_refl) as [Hok Hle]. set (s' := cs_traffic s port rb dd actor dec) in *.
    assert (Et : fec_total (sv_put (sr_core st) r s') = fec_total (sr_core st) + (fec_life s' - fec_life s - (if negb (bool_decide (sv_sessions (sr_core st) !! st_client_id (cs_stat s) = Some r)) then fec_life s' - fec_life s else 0))).
    { unfold fec_total. cbn. case_bool_decide as Ht; cbn [negb].
      - rewrite (table_sum_change _ _ _ (st_client_id (cs_stat s)) r s); [unfold retired_count; destruct lost; cbn; lia|done| |done].
        intros id' (s1 & Hs1 & Hid)%(fv_known _ Hi). simplify_eq. done.
      - rewrite table_sum_out; [unfold retired_count; destruct lost; cbn; lia|].
        intros ([id r'] & Hr' & Hin%elem_of_map_to_list)%list_elem_of_fmap. cbn in Hr'. subst r'.
        destruct (fv_known _ Hi id r Hin) as (s1 & Hs1 & Hid). simplify_eq. }
    split; [|exact Et]. destruct Hi as [Hk Hf Hcs Hr Hb']. split; cbn [sr_core].
    + intros id r'. cbn. intros (s1 & Hs1 & Hid)%Hk. destruct (decide (r' = r)) as [->|].
      * rewrite lookup_insert_eq. exists s'. simplify_eq. done.
      * rewrite lookup_insert_ne by done. by exists s1.
    + intros r' s1. cbn. destruct (decide (r' = r)) as [->|]; [intros _; by eapply Hf|]. rewrite lookup_insert_ne by done. apply Hf.
    + intros r' s1. cbn. destruct (decide (r' = r)) as [->|]; [rewrite lookup_insert_eq; by intros [= <-]|]. rewrite lookup_insert_ne by done. apply Hcs.
    + rewrite (retired_same (sr_core st)) by done. done.
    + by rewrite Et.
  - apply Hkeep; [|done]. by apply keeps_same.
Qed.
Lemma run_total ops : forall st,
  fec_inv (sr_core st) -> run_counting st ops -> fec_total (sr_core st) + (run_growth st ops - run_late st ops) <= U64_MAX ->
  fec_inv (sr_core (server_run v6 conf st ops)) /\ fec_total (sr_core (server_run v6 conf st ops)) = fec_total (sr_core st) + (run_growth st ops - run_late st ops).
Proof.
  induction ops as [|op ops IH]; intros st Hi Hc Hb; cbn [run_growth run_late run_counting server_run foldl] in *; [split; [done|lia]|].
  destruct Hc as [Hc Hcs]. pose proof (run_growth_nonneg _ _ Hcs). pose proof (growth_nonneg _ _ Hc). destruct (step_total st op Hi Hc ltac:(lia)) as [Hi' Et].
  destruct (IH _ Hi' Hcs ltac:(lia)) as [? Er]. split; [done|]. unfold server_run in Er. rewrite Er, Et. lia.
Qed.
Lemma server_new_fec v4cidr v6cidr : fec_inv (ServerCore_new v6 v4cidr v6cidr) /\ fec_total (ServerCore_new v6 v4cidr v6cidr) = 0.
Proof.
  assert (E : fec_total (ServerCore_new v6 v4cidr v6cidr) = 0).
  { unfold fec_total, retired_count. cbn. rewrite map_to_list_empty. by destruct lost. }
  split; [|done]. split; cbn; [by intros ? ? ?..|unfold retired_count; destruct lost; done|rewrite E; unfold U64_MAX; lia].
Qed.

(** What the loop of the statistics adds up. *)
Lemma shown_fold l t :
  shown (foldl (fun t x => visit_session t x.2.1 x.2.2) t l) = foldl u64_sat_add (shown t) ((fun x : string * (ClientSession * SessionReadings) => session_shown x.2.1) <$> l).
Proof.
  revert t. induction l as [|x l IH]; intros t; [done|]. cbn [foldl fmap list_fmap]. rewrite IH. f_equal.
  unfold visit_session, session_shown, shown. destruct (rx_runtime_snapshot x.2.1) as [[[rec lo] ?] ?]. by destruct lost.
Qed.
Lemma shown_total c k order :
  fec_inv c -> order ≡ₚ map_to_list (sv_sessions c) -> shown (server_totals c k order) = fec_total c.
Proof.
  intros Hi Ho. unfold server_totals. rewrite shown_fold.
  assert (Hsum : forall l, Zsum_list ((fun x : string * (ClientSession * SessionReadings) => session_shown x.2.1) <$> listed c k l) =
    table_sum session_shown (sv_heap c) l).
  { intros l. unfold listed, table_sum. induction l as [|[id r] l IH]; [done|]. cbn. destruct (sv_heap c !! r); cbn; [by f_equal|done]. }
  assert (Hlife : table_sum session_shown (sv_heap c) order = table_sum fec_life (sv_heap c) order).
  { unfold table_sum. f_equal. apply list_omap_ext, Forall_Forall2_diag, Forall_forall. intros [id r] He. cbn.
    rewrite Ho, elem_of_map_to_list in He. destruct (sv_heap c !! r) as [s|] eqn:Hs; [|done]. cbn. f_equal.
    rewrite session_shown_life by (by eapply fv_counts). pose proof (life_bound c id r s Hi He Hs). lia. }
  assert (Hnn : Forall (fun x => 0 <= x) ((fun x : string * (ClientSession * SessionReadings) => session_shown x.2.1) <$> listed c k order)).
  { apply Forall_fmap, Forall_forall. intros [id [s g]] ([id' r] & _ & Hx)%list_elem_of_omap. cbn in *.
    destruct (sv_heap c !! r) as [s1|] eqn:Hs; [|done]. injection Hx as _ <- _. pose proof (fv_counts c Hi r s1 Hs) as Hc.
    rewrite session_shown_life by done. pose proof (counts_life _ Hc). unfold U64_MAX. lia. }
  assert (Hret : shown (Totals_new (sv_fec_recovered_retired c) (sv_fec_lost_retired c)) = retired_count c) by (unfold shown, retired_count; by destruct lost).
  rewrite Hret, sat_fold, Hsum, Hlife by (done || apply Hi). rewrite (table_sum_perm _ _ _ _ Ho). fold (fec_total c).
  pose proof (fv_bound c Hi). destruct (is_nil _) eqn:En; [|lia].
  unfold fec_total. rewrite <-(table_sum_perm _ _ _ _ Ho), <-Hlife, <-(Hsum order). destruct (_ <$> listed c k order); [|done]. cbn. lia.
Qed.
End Conserved.

Section Counts.
Context `{FrameChannel} `{CryptoPrims} `{HexCodec} `{UuidLib} `{BrutalSocketOps}.
Context (v6 : family) (conf : ServerConf).

(** C32: The statistics show, for recovered and for lost frames, exactly what the decoders of
    all sessions have counted since the start, less what they counted for a session that
    was already out of the table: over any run of handshakes with new and resumed
    sessions, key epochs with fresh decoders, closed connections, sweeps, reaping and
    operator actions nothing that was counted in time is forgotten and nothing counted
    twice, in whatever order the table lists its sessions.  What the connections of a
    kicked or destroyed session still decode is not shown ([late_counts_forgotten]). *)
Theorem fec_counts_conserved (lost : bool) v4cidr v6cidr ops k order :
  let st := server_run v6 conf (server_new v6 v4cidr v6cidr) ops in
  run_counting v6 conf lost (server_new v6 v4cidr v6cidr) ops ->
  run_growth v6 conf lost (server_new v6 v4cidr v6cidr) ops <= U64_MAX ->
  order ≡ₚ map_to_list (sv_sessions (sr_core st)) ->
  shown lost (server_totals (sr_core st) k order) =
    run_growth v6 conf lost (server_new v6 v4cidr v6cidr) ops - run_late v6 conf lost (server_new v6 v4cidr v6cidr) ops.
Proof.
  intros st Hc Hb Ho. destruct (server_new_fec v6 lost v4cidr v6cidr) as [Hi E0].
  pose proof (run_growth_nonneg v6 conf lost _ _ Hc).
  destruct (run_total v6 conf lost ops (server_new v6 v4cidr v6cidr) Hi Hc) as [Hi' Et]; [cbn; lia|].
  rewrite shown_total by done. unfold st. rewrite Et. cbn. lia.
Qed.
End Counts.

(** ** A run *)

(** A decoder that has repaired five frames and given up one. *)
Definition demo_counted : RxActorState :=
  RxActorState_new (Some (with_inner (FecDecoder_new 4 None) {| fi_groups := ∅; fi_done := []; fi_recovered := 5; fi_lost := 1 |})).
(** Process A counts, process B takes the session over under new keys, the operator
    kicks the client. *)
Definition demo_fec_ops : list server_op :=
  take 5 demo_ops ++
  [OTraffic 0 AsyncPort_new ReorderBuffer_new DeDuplicator_new (Some demo_counted) None; OConnect 3 (demo_conn 3);
   OHandshake 3 (Some (demo_rq demo_instance_b (demo_token 1))) (demo_en 3) 0 40 true; OControl 0 (CKick demo_client)].
Definition demo_fec_server (n : nat) : server := server_run raw_v6 demo_conf (server_new raw_v6 demo_v4cidr []) (take n demo_fec_ops).
Definition demo_readings (n : nat) : SessionReadings :=
  {| sg_tx_bytes := 1000; sg_rx_bytes := 300; sg_tx_packets := 10; sg_rx_packets := 3; sg_written := TxFrameTotals_default; sg_fec_mode := [];
     sg_enc_algo := 4; sg_age := 60; sg_peer := VNull; sg_brutal_error := []; sg_path := fun _ => ([], (0, VNull)) |}.

Lemma fec_counts_conserved_witness :
  sv_sessions (sr_core (demo_fec_server 9)) = ∅ /\ shown false (server_totals (sr_core (demo_fec_server 9)) demo_readings []) = 5.
Proof.
  split; [vm_compute; reflexivity|].
  etrans; [apply (fec_counts_conserved raw_v6 demo_conf false demo_v4cidr [] (take 9 demo_fec_ops) demo_readings [])|vm_compute; reflexivity].
  - vm_compute. do 5 (split; [exact I|]). split; [|done]. intros s [= <-]. repeat match goal with |- _ /\ _ => split end; discriminate.
  - vm_compute. congruence.
  - vm_compute. constructor.
Defined.

(** A kick takes the counts of the session over and drops it from the table; its
    connection is still with its worker and decodes two more frames.  The decoders have
    counted seven frames, the statistics show five for ever. *)
Definition demo_late : RxActorState :=
  ra_set (reconfigure demo_counted None)
    (Some (with_inner (FecDecoder_new 4 None) {| fi_groups := ∅; fi_done := []; fi_recovered := 2; fi_lost := 0 |})) ReorderBuffer_new DeDuplicator_new.
Definition demo_late_ops : list server_op := demo_fec_ops ++ [OTraffic 0 AsyncPort_new ReorderBuffer_new DeDuplicator_new (Some demo_late) None].
Theorem late_counts_forgotten :
  let st := server_run raw_v6 demo_conf (server_new raw_v6 demo_v4cidr []) demo_late_ops in
  run_growth raw_v6 demo_conf false (server_new raw_v6 demo_v4cidr []) demo_late_ops = 7 /\
  run_late raw_v6 demo_conf false (server_new raw_v6 demo_v4cidr []) demo_late_ops = 2 /\
  ms_client_session <$> sr_conns st !! 3%nat = Some (Some 0%nat) /\
  sv_sessions (sr_core st) = ∅ /\ shown false (server_totals (sr_core st) demo_readings []) = 5.
Proof. vm_compute. repeat split. Qed.

(** The metrics start from zero instead of the counts of the destroyed sessions: the
    same kick that leaves the statistics alone takes the FEC counters back, and the
    counters of bytes with them, although the text declares them as counters. *)
Theorem metrics_counters_fall :
  let before := sr_core (demo_fec_server 8) in
  let after := sr_core (demo_fec_server 9) in
  let m c := server_metrics c demo_readings (map_to_list (sv_sessions c)) in
  let t c := server_totals c demo_readings (map_to_list (sv_sessions c)) in
  (to_rec (t before), to_lost (t before)) = (5, 1) /\ (to_rec (t after), to_lost (t after)) = (5, 1) /\
  (mt_rec (m before), mt_lost (m before), mt_tx (m before)) = (5, 1, 1000) /\ (mt_rec (m after), mt_lost (m after), mt_tx (m after)) = (0, 0, 0).
Proof. vm_compute. repeat split. Qed.

(** ** Rates *)

Section Rates.
Context `{FrameChannel} `{CryptoPrims} `{HexCodec} `{UuidLib} `{BrutalSocketOps}.

Lemma fold_min_le {A} (f : A -> Z) l n : foldl (fun m x => Z.min m (f x)) n l <= n /\ forall x, x ∈ l -> foldl (fun m x => Z.min m (f x)) n l <= f x.
Proof.
  revert n. induction l as [|y l IH]; intros n; cbn; [split; [lia|by intros x ?%not_elem_of_nil]|].
  destruct (IH (Z.min n (f y))) as [H1' H2']. split; [lia|]. intros x [->|Hx]%elem_of_cons; [lia|by apply H2'].
Qed.
Lemma fold_max_ge {A} (f : A -> Z) l n : n <= foldl (fun m x => Z.max m (f x)) n l /\ forall x, x ∈ l -> f x <= foldl (fun m x => Z.max m (f x)) n l.
Proof.
  revert n. induction l as [|y l IH]; intros n; cbn; [split; [lia|by intros x ?%not_elem_of_nil]|].
  destruct (IH (Z.max n (f y))) as [H1' H2']. split; [lia|]. intros x [->|Hx]%elem_of_cons; [lia|by apply H2'].
Qed.
(** Shares fall with the index of the connection. *)
Lemma split_antitone total conns i j : 0 <= total -> 0 <= i <= j -> j < conns ->
  split_legacy_brutal_rate total conns j <= split_legacy_brutal_rate total conns i.
Proof. intros. unfold split_legacy_brutal_rate, share. case_bools. Qed.

(** The range shown covers the share of every connection of every session. *)
Theorem shown_rates_cover rate sessions s i :
  s ∈ sessions -> 0 <= rate s -> 0 <= i < conn_count s ->
  (rate_range rate sessions).1 <= split_legacy_brutal_rate (rate s) (conn_count s) i <= (rate_range rate sessions).2.
Proof.
  intros Hs Hr Hi. unfold rate_range. cbn [fst snd]. destruct (is_nil sessions) eqn:En; [destruct sessions; [by apply not_elem_of_nil in Hs|done]|].
  destruct (fold_min_le (rate_min rate) sessions U64_MAX) as [_ Hmin]. destruct (fold_max_ge (rate_max rate) sessions 0) as [_ Hmax].
  specialize (Hmin s Hs). specialize (Hmax s Hs). unfold rate_min at 2 in Hmin. unfold rate_max at 1 in Hmax.
  split; (etrans; [eassumption|] || (etrans; [|eassumption])); apply split_antitone; lia.
Qed.
End Rates.

(** ** Reading the metrics *)

(** What a collector of this text format does: lines, comments left out, name and value
    at the first blank. *)
Definition read_metrics (s : text) : list (text * text) :=
  omap (fun line => match line with
                    | [] | 35 :: _ => None
                    | _ => match split_once 32 line with (a, Some b) => Some (a, b) | _ => None end
                    end) (split_on 10 s).
Definition plain_line (s : string) : bool := forallb (fun c => negb (c =? 10)) (word s).
Definition plain_name (s : string) : bool := plain_line s && forallb (fun c => negb (c =? 32)) (word s) && match word s with [] | 35 :: _ => false | _ => true end.
Definition metric_ok (m : metric) : bool := let '(name, help, typ, _) := m in plain_name name && plain_line help && plain_line typ.

Lemma plain_line_ok s : plain_line s = true -> Forall (fun c => c <> 10) (word s).
Proof. unfold plain_line. rewrite forallb_forall. intros Hf. apply Forall_forall. intros c Hc%list_elem_of_In ->. by specialize (Hf 10 Hc). Qed.
Definition digit_code (c : Z) : Prop := 48 <= c <= 57 \/ c = 45.
Lemma pretty_digits x s : Forall digit_code (bytes_of_string s) -> Forall digit_code (bytes_of_string (pretty_N_go x s)).
Proof.
  revert s. induction (N.lt_wf_0 x) as [x _ IH]; intros s Hs. destruct (decide (x = 0)%N) as [->|Hx]; [done|].
  rewrite pretty_N_go_step by lia. apply IH; [by apply N.div_lt; lia|]. cbn. constructor; [|done].
  unfold pretty_N_char, digit_code. left. repeat case_match; vm_compute; (split; discriminate).
Qed.
Lemma num_digits n : Forall digit_code (num n).
Proof.
  assert (HN : forall x : N, Forall digit_code (bytes_of_string (pretty x))).
  { intros x. unfold pretty, pretty_N. case_decide; [constructor; [left; vm_compute; split; discriminate|constructor]|]. apply pretty_digits. constructor. }
  unfold num. destruct n as [|p|p]; [apply (HN 0%N)|apply (HN (N.pos p))|]. cbn. constructor; [by right|]. apply (HN (N.pos p)).
Qed.
Definition read_line (line : text) : option (text * text) :=
  match line with
  | [] | 35 :: _ => None
  | _ => match split_once 32 line with (a, Some b) => Some (a, b) | _ => None end
  end.
Lemma read_step l rest : Forall (fun c => c <> 10) l ->
  read_metrics (l ++ 10 :: rest) = match read_line l with Some x => [x] | None => [] end ++ read_metrics rest.
Proof.
  intros Hl. unfold read_metrics at 1. destruct (split_on_app 10 l rest Hl) as [-> _]. cbn [omap list_omap]. fold (read_line l).
  destruct (read_line l); done.
Qed.
Lemma split_once_at sep a b : sep ∉ a -> split_once sep (a ++ sep :: b) = (a, Some b).
Proof.
  induction a as [|c a IH]; cbn; [by rewrite Z.eqb_refl|]. intros [Hc Ha]%not_elem_of_cons. destruct (Z.eqb_spec c sep); [congruence|].
  by rewrite IH.
Qed.
Lemma read_emit m rest : metric_ok m = true -> read_metrics (emit_metric m ++ rest) = (word m.1.1.1, num m.2) :: read_metrics rest.
Proof.
  destruct m as [[[name help] typ] val]. cbn [metric_ok emit_metric fst snd]. unfold plain_name. rewrite !andb_true_iff.
  intros [[[[Hn Hb] Hf] Hh%plain_line_ok] Ht%plain_line_ok]. apply plain_line_ok in Hn.
  assert (Hlit : forall s, plain_line s = true -> Forall (fun c => c <> 10) (word s)) by apply plain_line_ok.
  assert (Hv : Forall (fun c => c <> 10) (num val)) by (eapply Forall_impl; [apply num_digits|]; unfold digit_code; lia).
  rewrite <-!app_assoc. cbn [app].
  replace (word "# HELP " ++ word name ++ word " " ++ word help ++ 10 :: word "# TYPE " ++ word name ++ word " " ++ word typ ++ 10 :: word name ++ word " " ++ num val ++ 10 :: rest)
    with ((word "# HELP " ++ word name ++ word " " ++ word help) ++ 10 :: (word "# TYPE " ++ word name ++ word " " ++ word typ) ++ 10 :: (word name ++ 32 :: num val) ++ 10 :: rest)
    by (by rewrite <-!app_assoc).
  rewrite read_step by (repeat apply Forall_app_2; try done; by apply Hlit).
  rewrite read_step by (repeat apply Forall_app_2; try done; by apply Hlit).
  rewrite read_step by (apply Forall_app_2; [done|by constructor]). cbn [read_line app word].
  assert (Hs : split_once 32 (word name ++ 32 :: num val) = (word name, Some (num val))).
  { apply split_once_at. intros Hin. rewrite forallb_forall in Hb. specialize (Hb 32 ltac:(by apply list_elem_of_In)). done. }
  change (read_line (word "# HELP " ++ word name ++ word " " ++ word help)) with (@None (text * text)).
  change (read_line (word "# TYPE " ++ word name ++ word " " ++ word typ)) with (@None (text * text)). cbn [app].
  assert (Hr : read_line (word name ++ 32 :: num val) = Some (word name, num val)); [|by rewrite Hr].
  unfold read_line. rewrite Hs. destruct (word name) as [|c w]; [done|]. cbn [app]. repeat case_match; simplify_eq; done.
Qed.

Lemma read_all l : Forall (fun m => metric_ok m = true) l -> read_metrics (concat (emit_metric <$> l)) = (fun m : metric => (word m.1.1.1, num m.2)) <$> l.
Proof. induction 1 as [|m l Hm _ IH]; [done|]. rewrite !fmap_cons. cbn [concat]. by rewrite read_emit, IH. Qed.

(** A collector reads every metric of the server once, under a name of its own, with the
    value the server computed. *)
Theorem metrics_readable `{FrameChannel} `{CryptoPrims} `{HexCodec} `{UuidLib} `{BrutalSocketOps} (c : ServerCore) k order p :
  read_metrics (metrics_text c k order p) = (fun m : metric => (word m.1.1.1, num m.2)) <$> metric_list c k order p /\
  NoDup ((read_metrics (metrics_text c k order p)).*1).
Proof.
  assert (Hok : Forall (fun m => metric_ok m = true) (metric_list c k order p)).
  { unfold metric_list. destruct (pool_status (sv_pool c)) as [[? ?] ?]. repeat (constructor; [reflexivity|]). constructor. }
  assert (E : read_metrics (metrics_text c k order p) = (fun m : metric => (word m.1.1.1, num m.2)) <$> metric_list c k order p).
  { by apply read_all. }
  split; [exact E|]. rewrite E, <-list_fmap_compose. unfold metric_list. destruct (pool_status (sv_pool c)) as [[? ?] ?].
  apply (bool_decide_unpack _). vm_compute. exact I.
Qed.

(** ** The statistics as the traffic record reads them *)

Section Traffic.
Context `{FrameChannel} `{CryptoPrims} `{HexCodec} `{UuidLib} `{BrutalSocketOps}.
Context (conf : ServerConf).

Lemma sum_of_range f l : is_u64 (sum_of f l).
Proof.
  unfold sum_of. assert (H0' : is_u64 0) by (unfold is_u64, U64_MAX; lia). revert H0'. generalize 0.
  induction l as [|x l IH]; intros n Hn; [done|]. cbn. apply IH. unfold is_u64, u64_wrap, U64_MAX. pose proof (Z.mod_pos_bound (n + f x.2) 18446744073709551616). lia.
Qed.
(** The record of the traffic sees the sums over the sessions of the table, received
    bytes as uploads, and one entry per session. *)
Theorem traffic_reads_sessions c k order macs p :
  let stats := (server_stats conf c k order macs p).2 in
  is_server stats = true /\
  aggregate_bytes stats = (sum_of (fun x => sg_rx_bytes x.2) (listed c k order), sum_of (fun x => sg_tx_bytes x.2) (listed c k order)) /\
  value_get stats (word "clients") = Some (clients_json (listed c k order)).
Proof.
  intros stats. unfold stats, server_stats. destruct (pool_status (sv_pool c)) as [[u4 t4] u6]. destruct (ban_snapshot _ _) as [bans banned]. cbn [snd].
  pose proof (sum_of_range (fun x => sg_rx_bytes x.2) (listed c k order)) as Hr. pose proof (sum_of_range (fun x => sg_tx_bytes x.2) (listed c k order)) as Ht.
  set (rx := sum_of (fun x => sg_rx_bytes x.2) _) in *. set (tx := sum_of (fun x => sg_tx_bytes x.2) _) in *. clearbody rx tx.
  match goal with |- is_server ?w = true /\ _ => set (v := w) end.
  assert (E1 : value_get v (word "global_rx_bytes") = Some (VNumber rx)) by reflexivity.
  assert (E2 : value_get v (word "global_tx_bytes") = Some (VNumber tx)) by reflexivity.
  assert (E3 : is_server v = true) by reflexivity. split; [exact E3|]. split; [|reflexivity].
  unfold aggregate_bytes, u64_field. rewrite E3, E1, E2. cbn. unfold is_u64 in *.
  destruct (Z.leb_spec 0 rx), (Z.leb_spec rx U64_MAX), (Z.leb_spec 0 tx), (Z.leb_spec tx U64_MAX); cbn; (lia || done).
Qed.
End Traffic.

(** The client whose session was destroyed comes back with a new one before the next
    observation. *)
Definition demo_back : server :=
  server_run raw_v6 demo_conf (demo_fec_server 9) [OConnect 4 (demo_conn 4); OHandshake 4 (Some (demo_rq demo_instance_b [])) (demo_en 4) 0 60 true].
Definition demo_process : ProcessReadings :=
  {| pg_version := []; pg_uptime := 0; pg_threads := 1; pg_rss_bytes := 0; pg_rss_mb := VNumber 0; pg_log_level := []; pg_pad_mode := [];
     pg_padding := (0, 0); pg_overhead_pct := VNumber 0; pg_now := 0; pg_now_unix := 0; pg_congestion_control := word "cubic";
     pg_available_congestion_control := word "reno cubic" |}.
Definition demo_moved (r : nat) : SessionReadings :=
  let n := if (r =? 0)%nat then 1000 else 600 in
  {| sg_tx_bytes := n; sg_rx_bytes := n; sg_tx_packets := 10; sg_rx_packets := 3; sg_written := TxFrameTotals_default; sg_fec_mode := [];
     sg_enc_algo := 4; sg_age := 60; sg_peer := VNull; sg_brutal_error := []; sg_path := fun _ => ([], (0, VNull)) |}.
Definition demo_stats (c : ServerCore) : Value := (server_stats demo_conf c demo_moved (map_to_list (sv_sessions c)) [] demo_process).2.

(** The sums fall when a session is destroyed, and the record takes a fall for no
    traffic: of 1600 bytes in each direction 1000 are recorded, in the total as well as
    for the client. *)
Theorem destroyed_session_hides_traffic :
  let s0 := traffic_new (VObject []) [] [] [] 0 [] [] in
  let s1 := (observe (word "2026-01-01") 0 (demo_stats (sr_core (demo_fec_server 8))) s0).1 in
  let s2 := (observe (word "2026-01-01") 0 (demo_stats (sr_core demo_back)) s1).1 in
  map_to_list (sv_sessions (sr_core (demo_fec_server 8))) = [(demo_client, 0%nat)] /\
  map_to_list (sv_sessions (sr_core demo_back)) = [(demo_client, 1%nat)] /\
  tf_buckets s2 = [(word "2026-01-01", {| td_up := 1000; td_down := 1000 |})] /\
  tf_client_buckets s2 = [(word "2026-01-01", [(bytes_of_string demo_client, {| td_up := 1000; td_down := 1000 |})])].
Proof. vm_compute. repeat split. Qed.
