(* ===== verification/ClientStatus.v ===== *)
(** * What the client reports: the statistics of the dashboard, the text of the metrics
      and the addresses the dashboard listens on ([stats_json], [metrics_text],
      [tunnel_addrs] and [ConnInfo::snapshot] of [src/src/client.rs])

    Readings of the clock, the memory, the kernel and the counters of other components
    are inputs, as for the server in [Status.v].  The values keep their meaning over a
    change of keys: what the decoders have counted is never lost. *)
From S2P Require Import Prelude Protocol Utils Crypto Xor Fec Buffer Reorder RxActor Adaptive Queue Port VSwitch Pool Brutal PeerInfo Session SessionSpec Policy Socks Hooks Client Writer WebState WebStore Status StatusSpec.

#[local] Open Scope string_scope.
#[local] Open Scope list_scope.
#[local] Open Scope Z_scope.

(** [ConnInfo]: one entry per configured connection. *)
Record ConnInfo := {
  ci_target : text; ci_conn_id : text; ci_remote : text; ci_state : text; ci_last_error : text; ci_rtt_cache : Z; ci_tx_bytes : Z;
  ci_rx_bytes : Z; ci_retries : Z; ci_linked_at : Z; ci_brutal : BrutalApplyResult; ci_brutal_error : text; ci_scheduler : Value }.
(** Seconds since the link came up; the clock is signed and saturates. *)
Definition conn_age (linked_at now_secs : Z) : Z := if 0 <? linked_at then u64_wrap (now_secs - linked_at) else 0.
Definition conn_json (now_secs : Z) (index : nat) (ci : ConnInfo) : Value :=
  let b := ci_brutal ci in
  json
    [("index", VNumber (Z.of_nat index)); ("conn_id", VString (ci_conn_id ci)); ("target", VString (ci_target ci));
     ("remote", VString (ci_remote ci)); ("state", VString (ci_state ci)); ("last_error", VString (ci_last_error ci));
     ("rtt_ms", VNumber (ci_rtt_cache ci / 1000)); ("tx_bytes", VNumber (ci_tx_bytes ci)); ("rx_bytes", VNumber (ci_rx_bytes ci));
     ("retries", VNumber (ci_retries ci)); ("brutal_applied", VBool (br_applied b)); ("brutal_error", VString (ci_brutal_error ci));
     ("brutal_rate_bps", VNumber (br_rate_bps b)); ("brutal_rate_mbps", VNumber (br_rate_mbps b)); ("brutal_version", VNumber (br_version b));
     ("brutal_group_id", VNumber (br_group_id b)); ("brutal_rule_managed", VBool (br_rule_managed b)); ("scheduler", ci_scheduler ci);
     ("age_sec", VNumber (conn_age (ci_linked_at ci) now_secs))].

(** Counters and texts of the client that the session model does not hold. *)
Record ClientReadings := {
  cg_tx_bytes : Z; cg_rx_bytes : Z; cg_tx_packets : Z; cg_rx_packets : Z; cg_written : TxFrameTotals; cg_live_conns : Z; cg_reconnects : Z;
  cg_tls : Value; cg_peer : Value; cg_fwmark : Z; cg_pr_ok : bool; cg_pr_err : text; cg_now_secs : Z }.

(** The addresses inside the tunnel. *)
Definition host_port (ip : text) (port : Z) : text :=
  if bool_decide (58 ∈ ip) then [91] ++ ip ++ word "]:" ++ num port else ip ++ word ":" ++ num port.
Definition client_tunnel_addrs (v4 v6 : text) (port : Z) : list text :=
  omap (fun ip => if is_nil ip then None else Some (host_port ip port)) [v4; trim_brackets v6].
(** On the server: [v4_ok] and [v6_ok] say that a text is an address. *)
Definition server_tunnel_addrs (v4_ok v6_ok : text -> bool) (gw_v4 gw_v6 : text) (port : Z) : list text :=
  (if v4_ok gw_v4 then [gw_v4 ++ word ":" ++ num port] else []) ++
  (let v6 := trim_brackets gw_v6 in if v6_ok v6 then [word "[" ++ v6 ++ word "]:" ++ num port] else []).

Section Status.
Context `{FrameChannel} `{CryptoPrims} `{HexCodec} `{UuidLib} `{BrutalSocketOps} `{StateCodec}.
Context (conf : ClientConf).

(** The connections as a number for the shares, at least one. *)
Definition share_conns : Z := if cc_conns_count conf =? 0 then 1 else cc_conns_count conf.
Definition applied_conns (infos : list ConnInfo) : Z := Z.of_nat (length (List.filter (fun ci => br_applied (ci_brutal ci)) infos)).
Definition conn_errors (infos : list ConnInfo) : list text := foldl (fun es ci => push_error es (ci_brutal_error ci)) [] infos.

Definition local_json (cl : Client) (g : ClientReadings) : Value :=
  let s := ct_session cl in
  json
    [("client_id", VString (cc_client_id conf)); ("ipv4", VString (ct_assigned_v4 cl)); ("ipv6", VString (ct_assigned_v6 cl));
     ("mac", VString (cc_mac conf)); ("session_id", VString (ss_server_session_id s)); ("session_epoch", VNumber (ss_session_epoch s));
     ("session_token", VBool (negb (is_nil (ss_session_token s)))); ("session_encrypt", VBool (is_inner_aead_algo (ct_enc_algo_display cl)));
     ("active_conns", VNumber (cg_live_conns g)); ("tx_bytes", VNumber (cg_tx_bytes g)); ("rx_bytes", VNumber (cg_rx_bytes g));
     ("tx_packets", VNumber (cg_tx_packets g)); ("rx_packets", VNumber (cg_rx_packets g)); ("fec", VString (ct_fec_status cl));
     ("fec_group", VNumber (cc_fec_group_req conf)); ("enc_algo", VNumber (ct_enc_algo_display cl))].
Definition client_brutal_json (infos : list ConnInfo) (p : ProcessReadings) : Value :=
  let n := share_conns in
  json ([("enabled", VBool (cc_brutal conf)); ("up_mbps", VNumber (cc_brutal_up conf)); ("down_mbps", VNumber (cc_brutal_down conf))] ++
  kernel_json (brutal_system_status p) ++
    [("applied_conns", VNumber (applied_conns infos)); ("total_conns", VNumber (cc_conns_count conf));
     ("min_up_mbps", VNumber (split_legacy_brutal_rate (cc_brutal_up conf) n (sat_sub n 1)));
     ("max_up_mbps", VNumber (split_legacy_brutal_rate (cc_brutal_up conf) n 0));
     ("min_down_mbps", VNumber (split_legacy_brutal_rate (cc_brutal_down conf) n (sat_sub n 1)));
     ("max_down_mbps", VNumber (split_legacy_brutal_rate (cc_brutal_down conf) n 0));
     ("error", VString (brutal_error_text p (conn_errors infos)))]).
Definition client_negotiate_json (cl : Client) (infos : list ConnInfo) (g : ClientReadings) (p : ProcessReadings) : Value :=
  let s := ct_session cl in
  json
    [("protocol_version", VNumber PROTOCOL_VERSION); ("fec", VBool (cc_fec_mode conf)); ("fec_group", VNumber (cc_fec_group_req conf));
     ("enc_algo", VNumber (ct_enc_algo_display cl)); ("pad_mode", VString (pg_pad_mode p)); ("min_enc", VString (min_enc_label (cc_min_enc conf)));
     ("session_token", VBool (negb (is_nil (ss_session_token s)))); ("session_epoch", VNumber (ss_session_epoch s));
     ("tx_rate_mbps", VNumber (ss_brutal_tx s)); ("rx_rate_mbps", VNumber (ss_brutal_rx s)); ("tls", cg_tls g); ("socks5", VBool (cc_socks5 conf));
     ("policy_routing", VBool ((0 <? cg_fwmark g) && cg_pr_ok g)); ("policy_routing_error", VString (cg_pr_err g));
     ("brutal", client_brutal_json infos p)].
Definition flag (b : bool) : Z := if b then 1 else 0.
Definition client_fec_json (cl : Client) (g : ClientReadings) : Value :=
  let '(rec, lost, _, rx_bypass) := client_rx_snapshot cl in
  let w := cg_written g in
  json
    [("enabled", VBool (cc_fec_mode conf)); ("parity_tx", VNumber (tt_parity_frames w)); ("data_tx", VNumber (tt_data_frames w));
     ("control_tx", VNumber (tt_control_frames w)); ("data_wire_bytes", VNumber (tt_data_wire_bytes w));
     ("parity_wire_bytes", VNumber (tt_parity_wire_bytes w)); ("counter_domain", VString (word "written"));
     ("enabled_sessions", VNumber (flag (cc_fec_mode conf))); ("tx_active_sessions", VNumber (flag (fec_tx_armed (ct_tx_port cl))));
     ("rx_bypass_sessions", VNumber (flag rx_bypass)); ("recovered", VNumber rec); ("lost", VNumber lost)].
Definition client_stats (cl : Client) (infos : list ConnInfo) (g : ClientReadings) (p : ProcessReadings) : Value :=
  let reorder := (client_rx_snapshot cl).1.2 in
  json
    [("mode", VString (word "client")); ("version", VString (pg_version p)); ("uptime_sec", VNumber (pg_uptime p)); ("active_clients", VNumber 1);
     ("clients", json [("local", local_json cl g)]); ("global_tx_bytes", VNumber (cg_tx_bytes g)); ("global_rx_bytes", VNumber (cg_rx_bytes g));
     ("log_level", VString (pg_log_level p)); ("pad_mode", VString (pg_pad_mode p)); ("dropped_frames", VNumber (po_dropped (ct_tx_port cl)));
     ("fec", client_fec_json cl g);
     ("padding", json [("wire_bytes", VNumber (pg_padding p).1); ("pad_bytes", VNumber (pg_padding p).2); ("overhead_pct", pg_overhead_pct p)]);
     ("reorder", reorder_json (rs_gap_events reorder) (rs_timeout_flushes reorder) (rs_skipped_frames reorder));
     ("mem", json [("heap_alloc_mb", pg_rss_mb p); ("sys_mb", pg_rss_mb p); ("num_goroutine", VNumber (pg_threads p))]);
     ("conns", VArray (imap (conn_json (cg_now_secs g)) infos)); ("fec_mode", VString (ct_fec_status cl));
     ("enc_algo", VNumber (ct_enc_algo_display cl)); ("negotiate", client_negotiate_json cl infos g p); ("peer", cg_peer g)].

Definition client_metric_list (cl : Client) (g : ClientReadings) (p : ProcessReadings) : list metric :=
  let '(rec, lost, reorder, _) := client_rx_snapshot cl in
  [("tlsvpn_uptime_seconds", "Process uptime in seconds", "gauge", pg_uptime p);
   ("tlsvpn_go_goroutines", "Number of goroutines", "gauge", pg_threads p);
   ("tlsvpn_tx_bytes_total", "Total bytes sent", "counter", cg_tx_bytes g);
   ("tlsvpn_rx_bytes_total", "Total bytes received", "counter", cg_rx_bytes g);
   ("tlsvpn_live_connections", "Live physical connections", "gauge", cg_live_conns g);
   ("tlsvpn_reconnect_attempts_total", "Reconnect attempts", "counter", cg_reconnects g);
   ("tlsvpn_port_dropped_frames_total", "Frames dropped due to backpressure", "counter", po_dropped (ct_tx_port cl));
   ("tlsvpn_fec_recovered_frames_total", "Frames recovered by XOR FEC", "counter", rec);
   ("tlsvpn_fec_lost_frames_total", "Frames confirmed lost despite FEC", "counter", lost);
   ("tlsvpn_reorder_gap_events_total", "Observed sequence gaps", "counter", rs_gap_events reorder);
   ("tlsvpn_reorder_timeout_flushes_total", "Gap timeouts that resumed delivery", "counter", rs_timeout_flushes reorder);
   ("tlsvpn_reorder_skipped_frames_total", "Missing sequence slots skipped after timeout", "counter", rs_skipped_frames reorder)].
Definition client_metrics_text (cl : Client) (g : ClientReadings) (p : ProcessReadings) : text :=
  concat (emit_metric <$> client_metric_list cl g p).
End Status.

(** ** What the numbers mean *)

Section Counts.
Context `{FrameChannel} `{CryptoPrims} `{HexCodec} `{UuidLib} `{BrutalSocketOps} `{StateCodec}.
Context (conf : ClientConf) (lost : bool).

Definition client_lifetime (cl : Client) : Z := if lost then ct_fec_lost_lifetime cl else ct_fec_recovered_lifetime cl.
Definition client_active (cl : Client) : Z :=
  match ct_rx_actor cl with Some a => actor_base lost a + opt_count lost (ra_fec a) | None => opt_count lost (ct_fec_dec cl) end.
(** All that the decoders of the client have counted. *)
Definition client_life (cl : Client) : Z := client_lifetime cl + client_active cl.
Definition client_counts_ok (cl : Client) : Prop :=
  0 <= client_lifetime cl /\
  match ct_rx_actor cl with Some a => 0 <= actor_base lost a /\ 0 <= opt_count lost (ra_fec a) | None => 0 <= opt_count lost (ct_fec_dec cl) end.
Definition client_shown (cl : Client) : Z := let '(r, l, _, _) := client_rx_snapshot cl in if lost then l else r.

Lemma client_shown_life cl : client_counts_ok cl -> client_life cl <= U64_MAX -> client_shown cl = client_life cl.
Proof.
  unfold client_counts_ok, client_shown, client_life, client_lifetime, client_active, client_rx_snapshot, snapshot, actor_base, opt_count, dec_count, u64_sat_add.
  destruct (ct_rx_actor cl) as [a|]; [destruct (ra_fec a)|destruct (ct_fec_dec cl)]; destruct lost; cbn; unfold U64_MAX; lia.
Qed.
Definition same_client_life (cl cl' : Client) : Prop :=
  client_counts_ok cl -> client_life cl <= U64_MAX -> client_counts_ok cl' /\ client_life cl' = client_life cl.
Lemma same_client_life_trans a b c : same_client_life a b -> same_client_life b c -> same_client_life a c.
Proof. intros Hab Hbc Ha Hm. destruct (Hab Ha Hm) as [Hb E]. rewrite <-E. apply Hbc; [done|lia]. Qed.
Lemma single_path_count d : opt_count lost ((fun d => set_static_single_path d true) <$> d) = opt_count lost d.
Proof. destruct d as [d|]; [|done]. unfold set_static_single_path. cbn. unfold dec_count. by destruct (fd_static_single d). Qed.

Lemma negotiate_life cl resp : same_client_life cl (negotiate_fec conf cl resp).
Proof. unfold negotiate_fec. destruct (_ && _); [|done]. unfold same_client_life, client_counts_ok, client_life, client_lifetime, client_active. destruct lost; done. Qed.
Lemma rebuild_life cl keys salt : same_client_life cl (rebuild_fec cl keys salt).
Proof.
  unfold same_client_life, rebuild_fec, client_counts_ok, client_life, client_lifetime, client_active. destruct (ct_rx_actor cl) as [a|] eqn:Ea.
  - cbn. rewrite Ea. by destruct lost.
  - destruct (ct_fec_dec cl) as [d|]; cbn; rewrite Ea; unfold dec_count; cbn; destruct lost; cbn; intros Hc Hm;
      rewrite u64_wrap_id by (unfold is_u64, U64_MAX in *; lia); split; lia.
Qed.
Lemma reconfigure_count a fec :
  match fec with Some d => dec_count lost d = 0 | None => True end ->
  0 <= actor_base lost a -> 0 <= opt_count lost (ra_fec a) -> actor_base lost a + opt_count lost (ra_fec a) <= U64_MAX ->
  actor_base lost (reconfigure a fec) = actor_base lost a + opt_count lost (ra_fec a) /\ opt_count lost (ra_fec (reconfigure a fec)) = 0.
Proof.
  unfold reconfigure, actor_base, opt_count, dec_count, u64_sat_add. destruct (ra_fec a) as [d|], fec as [e|], lost; cbn; intros; split; lia.
Qed.

(** The client's FEC counts survive every answer of the server: new sessions, new keys,
    new decoders and reconfigured actors, with one connection or several. *)
Theorem client_rekey_keeps_counts cl resp w rename_ok cl' r :
  handle_response conf cl resp w rename_ok = (cl', r) -> client_counts_ok cl -> client_life cl <= U64_MAX ->
  client_counts_ok cl' /\ client_shown cl' = client_shown cl.
Proof.
  intros E Hc Hm. unfold handle_response in E. destruct (check_response conf resp) as [keys|e]; [|by injection E as <- _]. injection E as <- _.
  assert (Hnew : forall (b : bool) k ic, match (if b then Some (FecDecoder_new k ic) else None) with Some d => dec_count lost d = 0 | None => True end)
    by (intros [] k ic; [unfold dec_count; by destruct lost|done]).
  assert (Hs : same_client_life cl (apply_session conf cl keys resp w rename_ok)).
  { unfold apply_session. eapply same_client_life_trans; [apply (negotiate_life cl resp)|]. set (cl1 := negotiate_fec conf cl resp).
    set (fec := use_xor_fec conf cl1). set (rebuild := fec && _).
    eapply (same_client_life_trans _ (if rebuild then rebuild_fec cl1 keys (rs_enc_salt resp) else cl1)); [destruct rebuild; [apply rebuild_life|done]|].
    set (cl2 := if rebuild then _ else cl1). cbv zeta. destruct (persist_session_state _ _ _ _ _ _ _ _) as [identity fs].
    unfold same_client_life, client_counts_ok, client_life, client_lifetime, client_active. cbn [ct_rx_actor]. destruct (ct_rx_actor cl2) as [a|] eqn:Ea.
    - intros Hc2 Hm2. destruct (rebuild || _); cbn [ct_set_rx ct_rx_actor ct_fec_dec ct_fec_lost_lifetime ct_fec_recovered_lifetime]; [|rewrite ?Ea; destruct lost; done].
      match goal with |- context [reconfigure a ?f] => destruct (reconfigure_count a f) as [E1 E2]; [apply Hnew|lia..|] end.
      rewrite E1, E2. destruct lost; lia.
    - intros Hc2 Hm2. destruct (is_new_session _ _); cbn [ct_set_rx ct_rx_actor ct_fec_dec ct_fec_lost_lifetime ct_fec_recovered_lifetime];
        rewrite single_path_count; destruct lost; done. }
  destruct (Hs Hc Hm) as [Hc' El]. split; [done|]. rewrite !client_shown_life by (done || lia). done.
Qed.
End Counts.

(** A collector reads every metric of the client once, under a name of its own. *)
Theorem client_metrics_readable `{FrameChannel} `{CryptoPrims} `{HexCodec} `{UuidLib} `{BrutalSocketOps} `{StateCodec} (cl : Client) g p :
  read_metrics (client_metrics_text cl g p) = (fun m : metric => (word m.1.1.1, num m.2)) <$> client_metric_list cl g p /\
  NoDup ((read_metrics (client_metrics_text cl g p)).*1).
Proof.
  assert (E : read_metrics (client_metrics_text cl g p) = (fun m : metric => (word m.1.1.1, num m.2)) <$> client_metric_list cl g p).
  { apply read_all. unfold client_metric_list. destruct (client_rx_snapshot cl) as [[[? ?] ?] ?]. repeat (constructor; [reflexivity|]). constructor. }
  split; [exact E|]. rewrite E, <-list_fmap_compose. unfold client_metric_list. destruct (client_rx_snapshot cl) as [[[? ?] ?] ?].
  apply (bool_decide_unpack _). vm_compute. exact I.
Qed.
