(* ===== verification/Calendar.v ===== *)
(** * The calendar behind the traffic buckets

    [utc_date] computes with day counts; the reference is the Gregorian calendar as its
    rules say it: the lengths of the months, the leap years and the day after a day. *)
From S2P Require Import Prelude Utils Crypto Pool Policy WebState WebStore.

Definition leap (y : Z) : bool := (y mod 4 =? 0) && negb ((y mod 100 =? 0) && negb (y mod 400 =? 0)).
Definition month_days (feb m : Z) : Z :=
  if m =? 2 then feb else if (m =? 4) || (m =? 6) || (m =? 9) || (m =? 11) then 30 else 31.
Definition february (y : Z) : Z := if leap y then 29 else 28.
Definition next_day (t : Z * Z * Z) : Z * Z * Z :=
  let '(y, m, d) := t in
  if d <? month_days (february y) m then (y, m, d + 1) else if m <? 12 then (y, m + 1, 1) else (y + 1, 1, 1).

(** ** A computed check over an interval *)

Fixpoint check_from (P : Z -> bool) (n : nat) (z : Z) : bool :=
  match n with O => true | S n => P z && check_from P n (z + 1) end.
Lemma check_from_spec P n z : check_from P n z = true -> forall x, z <= x < z + Z.of_nat n -> P x = true.
Proof.
  revert z. induction n as [|n IH]; intros z; cbn [check_from]; [lia|]. intros [Hz Hn]%andb_true_iff x Hx.
  destruct (decide (x = z)) as [->|]; [done|]. apply (IH (z + 1)); [done|lia].
Qed.

(** ** Years that begin in March *)

Definition start (y : Z) : Z := 365 * y + y / 4 - y / 100.
Definition yearly (d : Z) : Z := d - d / 1460 + d / 36524 - d / 146096.
Definition year_len (y : Z) : Z := 337 + february (y + 1).

Lemma weight_mono a b : 0 <= a <= b -> yearly a <= yearly b.
Proof.
  intros H. assert (Hstep : forall n, 0 <= n -> yearly n <= yearly (n + 1)).
  { intros n Hn. unfold yearly. Z.div_mod_to_equations. lia. }
  replace b with (a + Z.of_nat (Z.to_nat (b - a))) by lia. induction (Z.to_nat (b - a)) as [|k IH]; [by rewrite Z.add_0_r|].
  etrans; [exact IH|]. replace (a + Z.of_nat (S k)) with (a + Z.of_nat k + 1) by lia. apply Hstep. lia.
Qed.

Lemma years_checked y : 0 <= y < 400 ->
  y <= yearly (start y) / 365 /\ yearly (start y + year_len y - 1) / 365 < y + 1 /\
  (y < 399 -> start (y + 1) = start y + year_len y) /\ 0 <= start y.
Proof.
  intros Hy. assert (Hc : check_from (fun y => (y <=? yearly (start y) / 365) && (yearly (start y + year_len y - 1) / 365 <? y + 1)
    && ((y =? 399) || (start (y + 1) =? start y + year_len y)) && (0 <=? start y)) 400 0 = true) by (vm_compute; reflexivity).
  pose proof (check_from_spec _ _ _ Hc y ltac:(lia)) as H. rewrite !andb_true_iff, orb_true_iff, Z.leb_le, Z.ltb_lt, !Z.eqb_eq, Z.leb_le in H. lia.
Qed.

Lemma year_of y doy : 0 <= y < 400 -> 0 <= doy < year_len y -> yearly (start y + doy) / 365 = y.
Proof.
  intros Hy Hd. destruct (years_checked y Hy) as (H1 & H2 & _ & H4).
  pose proof (weight_mono (start y) (start y + doy) ltac:(lia)). pose proof (weight_mono (start y + doy) (start y + year_len y - 1) ltac:(lia)).
  pose proof (Z.div_le_mono (yearly (start y)) (yearly (start y + doy)) 365 ltac:(lia) ltac:(lia)).
  pose proof (Z.div_le_mono (yearly (start y + doy)) (yearly (start y + year_len y - 1)) 365 ltac:(lia) ltac:(lia)). lia.
Qed.

(** Every day of an era lies in one of its years. *)
Lemma era_day doe : 0 <= doe < 146097 -> exists y doy, 0 <= y < 400 /\ 0 <= doy < year_len y /\ doe = start y + doy.
Proof.
  intros H. assert (Hn : forall n : nat, (n < 400)%nat -> doe < start (Z.of_nat n) + year_len (Z.of_nat n) ->
    exists y doy, 0 <= y < 400 /\ 0 <= doy < year_len y /\ doe = start y + doy).
  { induction n as [|n IH]; intros Hl Hd; [exists 0, doe; split_and!; try lia; [exact Hd|done]|].
    destruct (years_checked (Z.of_nat n) ltac:(lia)) as (_ & _ & Hs & _).
    replace (Z.of_nat (S n)) with (Z.of_nat n + 1) in * by lia. specialize (Hs ltac:(lia)).
    destruct (Z.lt_ge_cases doe (start (Z.of_nat n + 1))); [apply IH; lia|].
    exists (Z.of_nat n + 1), (doe - start (Z.of_nat n + 1)). lia. }
  apply (Hn 399%nat); [lia|]. change (start (Z.of_nat 399) + year_len (Z.of_nat 399)) with 146097. lia.
Qed.

(** ** Months and days of a year that begins in March *)

Definition month_of (doy : Z) : Z := let mp := (5 * doy + 2) / 153 in mp + (if mp <? 10 then 3 else -9).
Definition day_of (doy : Z) : Z := doy - (153 * ((5 * doy + 2) / 153) + 2) / 5 + 1.
Definition date_in (era y doy : Z) : Z * Z * Z :=
  (y + era * 400 + (if month_of doy <=? 2 then 1 else 0), month_of doy, day_of doy).

Lemma utc_date_in unix era y doy :
  0 <= era -> 0 <= y < 400 -> 0 <= doy < year_len y -> unix / 86400 + 719468 = era * 146097 + start y + doy -> utc_date unix = date_in era y doy.
Proof.
  intros He Hy Hd Hz. destruct (years_checked y Hy) as (_ & _ & Hs & H4).
  assert (Hdoe : 0 <= start y + doy < 146097).
  { split; [lia|]. clear -Hy Hd.
    assert (Hc : check_from (fun y => start y + year_len y <=? 146097) 400 0 = true) by (vm_compute; reflexivity).
    pose proof (check_from_spec _ _ _ Hc y ltac:(lia)) as H. apply Z.leb_le in H. lia. }
  unfold utc_date. rewrite Hz. rewrite (proj2 (Z.leb_le _ _)) by lia.
  assert (E : (era * 146097 + start y + doy) / 146097 = era) by (symmetry; apply (Z.div_unique_pos _ _ _ (start y + doy)); lia).
  rewrite E. replace (era * 146097 + start y + doy - era * 146097) with (start y + doy) by lia.
  rewrite !Z.quot_div_nonneg by lia. fold (yearly (start y + doy)). rewrite year_of by done.
  rewrite !Z.quot_div_nonneg by lia. fold (start y). replace (start y + doy - start y) with doy by lia. done.
Qed.

Lemma months_checked feb doy : feb = 28 \/ feb = 29 -> 0 <= doy < 337 + feb - 1 ->
  if day_of doy <? month_days feb (month_of doy) then month_of (doy + 1) = month_of doy /\ day_of (doy + 1) = day_of doy + 1
  else day_of (doy + 1) = 1 /\
    if month_of doy <? 12 then month_of (doy + 1) = month_of doy + 1 /\ month_of doy <> 2 else month_of (doy + 1) = 1 /\ month_of doy = 12.
Proof.
  intros Hf Hd. assert (Hc : check_from (fun f => check_from (fun doy =>
    if day_of doy <? month_days f (month_of doy) then (month_of (doy + 1) =? month_of doy) && (day_of (doy + 1) =? day_of doy + 1)
    else (day_of (doy + 1) =? 1) &&
      if month_of doy <? 12 then (month_of (doy + 1) =? month_of doy + 1) && negb (month_of doy =? 2)
      else (month_of (doy + 1) =? 1) && (month_of doy =? 12)) (Z.to_nat (337 + f - 1)) 0) 2 28 = true) by (vm_compute; reflexivity).
  pose proof (check_from_spec _ _ _ Hc feb ltac:(lia)) as H. cbv beta in H.
  pose proof (check_from_spec _ _ _ H doy ltac:(lia)) as H'. cbv beta in H'. clear -H'.
  destruct (day_of doy <? _); [|destruct (month_of doy <? 12)]; rewrite ?andb_true_iff, ?negb_true_iff, ?Z.eqb_eq, ?Z.eqb_neq in H'; tauto.
Qed.
Lemma last_day feb : feb = 28 \/ feb = 29 -> month_of (337 + feb - 1) = 2 /\ day_of (337 + feb - 1) = feb.
Proof. by intros [->| ->]. Qed.
Lemma february_cases y : february y = 28 \/ february y = 29.
Proof. unfold february. destruct (leap y); auto. Qed.
Lemma february_era y era : february (y + era * 400) = february y.
Proof.
  unfold february, leap. replace (era * 400) with (era * 100 * 4) at 1 by lia. rewrite Z.mod_add by lia.
  replace (era * 400) with (era * 4 * 100) at 1 by lia. rewrite Z.mod_add by lia. by rewrite Z.mod_add.
Qed.

(** The day after, inside a year and at its end. *)
Lemma next_in era y doy : 0 <= doy < year_len y - 1 -> next_day (date_in era y doy) = date_in era y (doy + 1).
Proof.
  intros Hd. unfold year_len in Hd. pose proof (months_checked _ doy (february_cases (y + 1)) Hd) as H. unfold next_day, date_in.
  assert (Hf : month_days (february (y + era * 400 + (if month_of doy <=? 2 then 1 else 0))) (month_of doy) = month_days (february (y + 1)) (month_of doy)).
  { unfold month_days. destruct (Z.eqb_spec (month_of doy) 2) as [E|]; [|done]. rewrite E. cbn. rewrite <-(february_era (y + 1) era). f_equal. lia. }
  rewrite Hf. destruct (day_of doy <? _); [by destruct H as [-> ->]|]. destruct H as [-> H].
  destruct (Z.ltb_spec (month_of doy) 12); destruct H as [-> H]; [|rewrite H; cbn; f_equal; f_equal; lia].
  f_equal. f_equal. case_bools.
Qed.
Lemma next_year era y : next_day (date_in era y (year_len y - 1)) = date_in era (y + 1) 0.
Proof.
  unfold next_day, date_in, year_len. destruct (last_day _ (february_cases (y + 1))) as [-> ->]. change (2 <=? 2) with true.
  change (2 <? 12) with true. change (month_of 0) with 3. change (day_of 0) with 1. change (3 <=? 2) with false. cbv iota.
  replace (y + era * 400 + 1) with (y + 1 + era * 400) by lia. rewrite february_era. change (month_days (february (y + 1)) 2) with (february (y + 1)).
  rewrite Z.ltb_irrefl, Z.add_0_r. done.
Qed.

Lemma utc_date_next unix : 0 <= unix -> utc_date (unix + 86400) = next_day (utc_date unix).
Proof.
  intros Hu. pose proof (Z.div_pos unix 86400 Hu ltac:(lia)) as Hq. set (z := unix / 86400 + 719468).
  div_mod z 146097. destruct (era_day (z mod 146097) ltac:(lia)) as (y & doy & Hy & Hd & E).
  assert (Hera : 0 <= z / 146097) by (apply Z.div_pos; lia).
  assert (Hz : unix / 86400 + 719468 = z / 146097 * 146097 + start y + doy) by (fold z; lia).
  assert (Hn : (unix + 86400) / 86400 = unix / 86400 + 1) by (change 86400 with (1 * 86400) at 1; by rewrite Z.div_add).
  assert (0 < year_len y) by lia.
  rewrite (utc_date_in unix _ y doy Hera Hy Hd Hz). destruct (Z.lt_ge_cases doy (year_len y - 1)).
  { rewrite next_in by lia. apply utc_date_in; lia. }
  assert (doy = year_len y - 1) as -> by lia. rewrite next_year. destruct (years_checked y Hy) as (_ & _ & Hs & _).
  assert (Hlen : forall y, 0 < year_len y) by (intros y'; unfold year_len; destruct (february_cases (y' + 1)); lia).
  destruct (Z.lt_ge_cases y 399); [apply utc_date_in; specialize (Hlen (y + 1)); lia|].
  assert (y = 399) as -> by lia. assert (Hd0 : date_in (z / 146097) (399 + 1) 0 = date_in (z / 146097 + 1) 0 0) by (unfold date_in; f_equal; f_equal; lia).
  rewrite Hd0. apply utc_date_in; [lia|lia|specialize (Hlen 0); lia|].
  change (start 399) with 145731 in *. change (year_len 399) with 366 in *. change (start 0) with 0. lia.
Qed.

(** The day computed from a time is the calendar's.  Time 0 is 1 January 1970, the
    date does not change within a day of 86400 seconds, and 86400 seconds later it is
    the next date by the lengths of months and the leap years, for every later time. *)
Theorem utc_date_is_gregorian unix :
  0 <= unix ->
  utc_date 0 = (1970, 1, 1) /\ utc_date unix = utc_date (unix / 86400 * 86400) /\ utc_date (unix + 86400) = next_day (utc_date unix).
Proof.
  intros Hu. split_and!; [done| |by apply utc_date_next]. unfold utc_date. by rewrite Z.div_mul.
Qed.
Lemma utc_date_is_gregorian_witness : utc_date 951868799 = (2000, 2, 29) /\ utc_date (951868799 + 86400) = (2000, 3, 1).
Proof.
  destruct (utc_date_is_gregorian 951868799 ltac:(lia)) as (_ & _ & H). split; [reflexivity|]. rewrite H. reflexivity.
Defined.

(** ** The order of the texts *)

Definition date_lt (a b : Z * Z * Z) : Prop :=
  let '(y, m, d) := a in let '(y', m', d') := b in y < y' \/ y = y' /\ (m < m' \/ m = m' /\ d < d').
Definition date_ok (t : Z * Z * Z) : Prop := let '(y, m, d) := t in 1970 <= y /\ 1 <= m <= 12 /\ 1 <= d <= 31.

Lemma date_lt_trans a b c : date_lt a b -> date_lt b c -> date_lt a c.
Proof. destruct a as [[]], b as [[]], c as [[]]. unfold date_lt. lia. Qed.
Lemma next_day_ok t : date_ok t -> date_ok (next_day t) /\ date_lt t (next_day t).
Proof.
  destruct t as [[y m] d]. unfold next_day, date_ok, date_lt. intros H.
  assert (month_days (february y) m <= 31) by (unfold month_days; destruct (february_cases y); case_bools).
  destruct (Z.ltb_spec d (month_days (february y) m)); [lia|]. destruct (Z.ltb_spec m 12); lia.
Qed.

Lemma utc_date_day unix : utc_date unix = utc_date (unix / 86400 * 86400).
Proof. unfold utc_date. by rewrite Z.div_mul. Qed.
Lemma utc_date_day_ok n : date_ok (utc_date (Z.of_nat n * 86400)).
Proof.
  induction n as [|n IH]; [vm_compute; repeat split; discriminate|]. replace (Z.of_nat (S n) * 86400) with (Z.of_nat n * 86400 + 86400) by lia.
  rewrite utc_date_next by lia. by apply next_day_ok.
Qed.
Lemma utc_date_ok unix : 0 <= unix -> date_ok (utc_date unix).
Proof.
  intros H. rewrite utc_date_day. pose proof (Z.div_pos unix 86400 H ltac:(lia)).
  replace (unix / 86400) with (Z.of_nat (Z.to_nat (unix / 86400))) by lia. apply utc_date_day_ok.
Qed.
Lemma utc_date_increases a b : 0 <= a -> a / 86400 < b / 86400 -> date_lt (utc_date a) (utc_date b).
Proof.
  intros Ha Hab. rewrite (utc_date_day a), (utc_date_day b). pose proof (Z.div_pos a 86400 Ha ltac:(lia)) as Hq.
  assert (Hn : forall n : nat, date_lt (utc_date (a / 86400 * 86400)) (utc_date ((a / 86400 + 1 + Z.of_nat n) * 86400))).
  { intros n. induction n as [|n IH].
    - replace ((a / 86400 + 1 + Z.of_nat 0) * 86400) with (a / 86400 * 86400 + 86400) by lia. rewrite utc_date_next by lia.
      apply next_day_ok, utc_date_ok. lia.
    - eapply date_lt_trans; [exact IH|]. replace ((a / 86400 + 1 + Z.of_nat (S n)) * 86400) with ((a / 86400 + 1 + Z.of_nat n) * 86400 + 86400) by lia.
      rewrite utc_date_next by lia. apply next_day_ok, utc_date_ok. lia. }
  specialize (Hn (Z.to_nat (b / 86400 - (a / 86400 + 1)))). replace (a / 86400 + 1 + Z.of_nat (Z.to_nat (b / 86400 - (a / 86400 + 1)))) with (b / 86400) in Hn by lia. done.
Qed.

Lemma key_ltb_app u v x y : length u = length v -> key_ltb (u ++ x) (v ++ y) = key_ltb u v || (bool_decide (u = v) && key_ltb x y).
Proof.
  revert v. induction u as [|a u IH]; intros [|b v] Hl; try done. cbn [app key_ltb]. rewrite IH by (simpl in Hl; lia).
  destruct (Z.ltb_spec a b); [done|]. cbn [orb]. destruct (Z.eqb_spec a b) as [->|Hne]; cbn [andb].
  - f_equal. f_equal. apply bool_decide_ext. split; congruence.
  - by rewrite bool_decide_eq_false_2 by congruence.
Qed.
Lemma pad2_ltb a b : 0 <= a < 100 -> 0 <= b < 100 -> key_ltb (pad2 a) (pad2 b) = (a <? b) /\ length (pad2 a) = 2%nat.
Proof.
  intros Ha Hb. unfold pad2, digit. rewrite !(proj2 (Z.ltb_lt _ 100)) by lia. split; [|done]. cbn [key_ltb].
  Z.div_mod_to_equations. case_bools.
Qed.
Lemma pad4_ltb a b : 0 <= a < 10000 -> 0 <= b < 10000 -> key_ltb (pad4 a) (pad4 b) = (a <? b) /\ length (pad4 a) = 4%nat.
Proof.
  intros Ha Hb. unfold pad4, digit. rewrite !(proj2 (Z.ltb_lt _ 10000)) by lia. split; [|done]. cbn [key_ltb].
  Z.div_mod_to_equations. case_bools.
Qed.

Definition day_text (t : Z * Z * Z) : text := let '(y, m, d) := t in pad4 y ++ [DASH] ++ pad2 m ++ [DASH] ++ pad2 d.
Lemma day_text_ltb a b : date_ok a -> date_ok b -> a.1.1 < 10000 -> b.1.1 < 10000 -> date_lt a b -> key_ltb (day_text a) (day_text b) = true.
Proof.
  destruct a as [[y m] d], b as [[y' m'] d']. unfold date_ok, date_lt, day_text. cbn [fst]. intros Ha Hb Hy Hy' Hlt.
  destruct (pad4_ltb y y') as [E4 L4], (pad4_ltb y' y) as [_ L4']; [lia..|].
  destruct (pad2_ltb m m') as [E2 L2], (pad2_ltb m' m) as [_ L2']; [lia..|].
  destruct (pad2_ltb d d') as [E1 _]; [lia..|].
  rewrite key_ltb_app, E4 by congruence. destruct (Z.ltb_spec y y'); [done|]. assert (y = y') as <- by lia.
  rewrite bool_decide_eq_true_2 by done. cbn [orb andb app key_ltb]. rewrite Z.ltb_irrefl, Z.eqb_refl. cbn [orb andb].
  rewrite key_ltb_app, E2 by congruence. destruct (Z.ltb_spec m m'); [done|]. assert (m = m') as <- by lia.
  rewrite bool_decide_eq_true_2 by done. cbn [orb andb app key_ltb]. rewrite Z.ltb_irrefl, Z.eqb_refl. cbn [orb andb].
  rewrite E1. apply Z.ltb_lt. lia.
Qed.

(** The last second of the year 9999. *)
Definition YEAR_9999_END : Z := 253402300799.
Lemma utc_year unix : 0 <= unix <= YEAR_9999_END -> (utc_date unix).1.1 < 10000.
Proof.
  intros Hu. destruct (Z.eq_dec (unix / 86400) (YEAR_9999_END / 86400)) as [E|Hne].
  - rewrite utc_date_day, E. vm_compute. reflexivity.
  - pose proof (Z.div_le_mono unix YEAR_9999_END 86400 ltac:(lia) ltac:(lia)).
    pose proof (utc_date_increases unix YEAR_9999_END ltac:(lia) ltac:(lia)) as H'.
    change (utc_date YEAR_9999_END) with (9999, 12, 31) in H'. destruct (utc_date unix) as [[y m] d]. unfold date_lt in H'. cbn [fst]. lia.
Qed.

(** The names of the buckets sort as their days do, so that the first key of the ordered
    map is the oldest day: a later day (up to the year 9999) has a greater text. *)
Theorem day_names_sort_by_time a b :
  0 <= a -> a / 86400 < b / 86400 -> b <= YEAR_9999_END -> key_ltb (utc_day a) (utc_day b) = true.
Proof.
  intros Ha Hab Hb. assert (a <= b) by (Z.div_mod_to_equations; lia).
  assert (E : forall u, utc_day u = day_text (utc_date u)) by (intros u; unfold utc_day, day_text; by destruct (utc_date u) as [[]]).
  rewrite !E. apply day_text_ltb; [apply utc_date_ok; lia..|apply utc_year; lia|apply utc_year; lia|by apply utc_date_increases].
Qed.
Lemma day_names_sort_by_time_witness : key_ltb (utc_day 1735689599) (utc_day 1735689600) = true.
Proof. apply day_names_sort_by_time; vm_compute; congruence. Defined.
