(* ===== verification/WebStoreSpec.v ===== *)
(** * Properties of the stores behind the web interface *)
From S2P Require Import Prelude Utils Crypto Pool Policy WebState WebSpec WebStore.

(** ** Login sessions

    What the store promises about one token, without the other tokens and without the
    removal of expired entries: the entry it has after a history of calls. *)
Section sessions.
Context `{CryptoLaws} `{HexCodec}.

Definition accepts (now : Z) (token auth : text) (s : option WebSession) : bool :=
  match s with
  | Some s => bool_decide (token <> [] /\ auth <> [] /\ now < ws_expires s /\ ws_auth_hash s = auth_hash auth)
  | None => false
  end.
Definition login (now : Z) (auth : text) : WebSession := {| ws_expires := now + SESSION_TTL; ws_auth_hash := auth_hash auth |}.

Definition token_step (token : text) (s : option WebSession) (call : Z * session_call) : option WebSession :=
  match call with
  | (now, SCreate (Some raw) auth) => if bool_decide (hex_encode raw = token) then Some (login now auth) else s
  | (now, SCreate None _) => s
  | (now, SValid t auth) =>
      if bool_decide (t = token /\ t <> [] /\ auth <> []) then if accepts now t auth s then Some (login now auth) else None else s
  | (now, SRevoke t) => if bool_decide (t = token /\ t <> []) then None else s
  end.
Definition token_view (token : text) (calls : list (Z * session_call)) : option WebSession := foldl (token_step token) None calls.

Lemma constant_time_32_hash a auth : (exists a', a = auth_hash a') -> constant_time_32 a (auth_hash auth) = bool_decide (a = auth_hash auth).
Proof.
  intros [a' ->]. unfold constant_time_32, auth_hash. rewrite !take_ge by (by rewrite sha256_length).
  pose proof (ct_diff_zero (sha256 a') (sha256 auth) 0 ltac:(by rewrite !sha256_length) ltac:(lia) (sha256_bytes _) (sha256_bytes _)) as E.
  case_bool_decide as Hd; [apply Z.eqb_eq, E; done|]. apply Z.eqb_neq. intros C%E. by destruct C.
Qed.

(** At time [t] the store has the entry of the view, or has dropped an expired one. *)
Definition tracks (t : Z) (v s : option WebSession) : Prop :=
  (s = v \/ s = None /\ (forall w, v = Some w -> ws_expires w <= t)) /\ (forall w, v = Some w -> exists a, ws_auth_hash w = auth_hash a).
Definition sim (t : Z) (calls : list (Z * session_call)) (st : SessionStore) : Prop := forall token, tracks t (token_view token calls) (st !! token).

Lemma tracks_later t t' v s : t <= t' -> tracks t v s -> tracks t' v s.
Proof. intros Hl [[->|[-> He]] Hh]; split; auto. right. split; [done|]. intros w Hw%He. lia. Qed.
Lemma tracks_login t now auth : tracks t (Some (login now auth)) (Some (login now auth)).
Proof. split; [by left|]. intros w [= <-]. by exists auth. Qed.
Lemma tracks_none t : tracks t None None.
Proof. split; [by left|done]. Qed.

Lemma filter_tracks (now : Z) (v : option WebSession) (st : SessionStore) (token : text) :
  tracks now v (st !! token) -> tracks now v (filter (fun p => now < ws_expires p.2) st !! token).
Proof.
  intros [Hs Hh]. split; [|done]. destruct (filter _ st !! token) as [w|] eqn:E.
  - apply map_lookup_filter_Some in E as [E _]. left. destruct Hs as [Hs|[Hs _]]; congruence.
  - right. split; [done|]. intros w Hw. rewrite map_lookup_filter_None in E. destruct Hs as [Hs|[_ Hs]]; [|auto].
    destruct E as [E|E]; [congruence|]. specialize (E w ltac:(congruence)). cbn in E. lia.
Qed.

(** One check of a token against a store that tracks the view. *)
Lemma valid_tracks (now : Z) (token auth : text) (v : option WebSession) (st : SessionStore) :
  tracks now v (st !! token) ->
  (session_valid now token auth st).1 = accepts now token auth v /\
  tracks now (token_step token v (now, SValid token auth)) ((session_valid now token auth st).2 !! token).
Proof.
  intros Ht. unfold session_valid. cbn [token_step].
  destruct (decide (token = [] \/ auth = [])) as [E|E].
  { assert (Hb : bool_decide (token = []) || bool_decide (auth = []) = true) by (rewrite orb_true_iff, !bool_decide_eq_true; done).
    rewrite Hb, (bool_decide_eq_false_2 (_ /\ _)) by tauto. cbn [fst snd]. split; [|done]. destruct v; [|done]. symmetry. apply bool_decide_eq_false. tauto. }
  assert (Hb : bool_decide (token = []) || bool_decide (auth = []) = false) by (rewrite orb_false_iff, !bool_decide_eq_false; tauto).
  rewrite Hb, (bool_decide_eq_true_2 (_ /\ _)) by tauto. destruct Ht as [[Hs|[Hs He]] Hh]; rewrite Hs.
  - destruct v as [w|]; cbn [accepts fst snd]; [|rewrite Hs; split; [done|apply tracks_none]].
    rewrite constant_time_32_hash by auto. destruct (Z.leb_spec (ws_expires w) now) as [Hx|Hx]; cbn [orb].
    + rewrite (bool_decide_eq_false_2 (_ /\ _)) by lia. cbn [fst snd]. rewrite lookup_delete_eq. split; [done|apply tracks_none].
    + destruct (decide (ws_auth_hash w = auth_hash auth)) as [Eh|Eh].
      * rewrite (bool_decide_eq_true_2 (_ = _)), (bool_decide_eq_true_2 (_ /\ _)) by (done || tauto). cbn [negb fst snd]. rewrite lookup_insert_eq, Eh.
        split; [done|apply tracks_login].
      * rewrite (bool_decide_eq_false_2 (_ = _)), (bool_decide_eq_false_2 (_ /\ _)) by (done || tauto). cbn [negb fst snd]. rewrite lookup_delete_eq.
        split; [done|apply tracks_none].
  - assert (Hf : accepts now token auth v = false). { destruct v as [w|]; [|done]. apply bool_decide_eq_false. specialize (He w eq_refl). lia. }
    rewrite Hf. cbn [fst snd]. rewrite Hs. split; [done|apply tracks_none].
Qed.

Lemma valid_other (now : Z) (token token' auth : text) (st : SessionStore) : token <> token' -> (session_valid now token auth st).2 !! token' = st !! token'.
Proof.
  intros Hne. unfold session_valid. repeat case_match; simplify_eq/=; try done; by rewrite ?lookup_delete_ne, ?lookup_insert_ne by congruence.
Qed.

Lemma sim_step t now call calls st : t <= now -> sim t calls st -> sim now (calls ++ [(now, call)]) (session_step (now, call) st).2.
Proof.
  intros Hl Hsim token. specialize (Hsim token). apply (tracks_later _ now) in Hsim; [|done].
  unfold token_view in *. rewrite foldl_app. cbn [foldl]. set (v := foldl _ _ _) in *. destruct call as [[raw|] auth|tok auth|tok]; cbn [session_step].
  - cbn [session_create snd token_step]. case_bool_decide as E; [subst; rewrite lookup_insert_eq; apply tracks_login|].
    rewrite lookup_insert_ne by done. by apply filter_tracks.
  - done.
  - destruct (session_valid now tok auth st) as [b st'] eqn:Ev. cbn [snd]. assert (Es : st' = (session_valid now tok auth st).2) by (by rewrite Ev). rewrite Es.
    destruct (decide (tok = token)) as [->|Hne]; [by apply valid_tracks|]. rewrite valid_other by done. cbn [token_step]. by rewrite bool_decide_eq_false_2 by tauto.
  - cbn [snd token_step]. unfold session_revoke. destruct (decide (tok = [])) as [->|Hn].
    { rewrite (bool_decide_eq_false_2 (_ /\ _)), bool_decide_eq_true_2; [done|done|]. by intros [_ C]. }
    rewrite (bool_decide_eq_false_2 (tok = [])) by done. case_bool_decide as E.
    + destruct E as [-> _]. rewrite lookup_delete_eq. apply tracks_none.
    + by rewrite lookup_delete_ne by tauto.
Qed.

Fixpoint ascending_times (t : Z) (calls : list (Z * session_call)) : Prop :=
  match calls with [] => True | (now, _) :: calls => t <= now /\ ascending_times now calls end.

Lemma sim_run t pre calls st : sim t pre st -> ascending_times t calls ->
  exists t', sim t' (pre ++ calls) (session_run calls st).2 /\ (forall u c, ascending_times t (calls ++ [(u, c)]) -> t' <= u).
Proof.
  revert t pre st. induction calls as [|[now call] calls IH]; intros t pre st Hs Ha.
  { exists t. rewrite app_nil_r. split; [done|]. cbn. tauto. }
  destruct Ha as [Hl Ha]. apply (sim_step _ now call) in Hs; [|done].
  destruct (IH now (pre ++ [(now, call)]) (session_step (now, call) st).2 Hs Ha) as (t' & Ht & Hu).
  exists t'. cbn [session_run]. destruct (session_step (now, call) st) as [a st']. cbn [snd] in Ht. destruct (session_run calls st'). cbn [snd] in *.
  rewrite <-app_assoc in Ht. split; [done|]. intros u c [_ Hc]. by eapply Hu.
Qed.

(** C31: A check of a login token answers by that token's own history.  After any calls
    at non-decreasing times, a token is accepted exactly when it was handed out for the
    same credentials, has not been revoked nor presented with other credentials since,
    and less than 24 hours have passed since it was handed out or last accepted: the
    calls for other tokens and the removal of expired entries do not matter. *)
Theorem session_check_by_history calls now token auth :
  ascending_times 0 (calls ++ [(now, SValid token auth)]) ->
  (session_valid now token auth (session_run calls ∅).2).1 = accepts now token auth (token_view token calls).
Proof.
  intros Ha. assert (Hpre : ascending_times 0 calls).
  { generalize dependent 0. clear. induction calls as [|[u c] calls IH]; intros t; [done|]. cbn. intros []. split; [done|]. by apply IH. }
  assert (Hempty : sim 0 [] ∅) by (intros tok; rewrite lookup_empty; apply tracks_none).
  destruct (sim_run 0 [] calls ∅ Hempty Hpre) as (t' & Hs & Hu). specialize (Hu _ _ Ha).
  apply valid_tracks. eapply tracks_later; [exact Hu|]. apply Hs.
Qed.
End sessions.

Lemma session_check_by_history_witness :
  let raw := replicate 32 171 in
  let calls := [(5, SCreate (Some raw) (word "admin:pw")); (7, SValid (hex_encode raw) (word "admin:pw"))] in
  (session_valid 8 (hex_encode raw) (word "admin:pw") (session_run calls ∅).2).1 = true /\
  (session_valid 8 (hex_encode raw) (word "x") (session_run calls ∅).2).1 = false.
Proof.
  intros raw calls. split; rewrite session_check_by_history by (vm_compute; intuition congruence); vm_compute; reflexivity.
Defined.

(** ** The event hub *)

(** What a caller of [emit] says: time, kind, level, client and message. *)
Record Notice := { no_time : text; no_kind : text; no_level : text; no_client : text; no_msg : text }.
Definition emit_notice (hub : EventInner) (x : Notice) : EventInner := emit (no_time x) (no_kind x) (no_level x) (no_client x) (no_msg x) hub.

(** All events ever emitted, numbered from 1. *)
Definition event_of (seq : Z) (x : Notice) : DashboardEvent :=
  {| ev_seq := seq; ev_time := no_time x; ev_kind := no_kind x; ev_level := no_level x; ev_client := no_client x; ev_msg := no_msg x |}.
Definition history (xs : list Notice) : list DashboardEvent := imap (fun i x => event_of (Z.of_nat i + 1) x) xs.

Lemma history_snoc xs x : history (xs ++ [x]) = history xs ++ [event_of (zlen xs + 1) x].
Proof. unfold history. rewrite imap_app. cbn. by rewrite Nat.add_0_r. Qed.
Lemma length_history xs : length (history xs) = length xs.
Proof. apply length_imap. Qed.

Lemma drop_drop_snoc {A} (l : list A) x k :
  drop (length (drop (length l - k) l ++ [x]) - k) (drop (length l - k) l ++ [x]) = drop (length (l ++ [x]) - k) (l ++ [x]).
Proof.
  rewrite !length_app, length_drop. cbn [length]. rewrite <-(drop_app_le l [x]) by lia. rewrite drop_drop. f_equal. lia.
Qed.

Definition ring_of (xs : list Notice) : list DashboardEvent := drop (length xs - EVENT_CAP) (history xs).
Lemma emit_state xs x hub : zlen xs < U64_MAX -> ei_seq hub = zlen xs -> ei_ring hub = ring_of xs ->
  ei_seq (emit_notice hub x) = zlen (xs ++ [x]) /\ ei_ring (emit_notice hub x) = ring_of (xs ++ [x]) /\
  ei_subscribers (emit_notice hub x) = omap (try_send (event_of (zlen (xs ++ [x])) x)) (ei_subscribers hub).
Proof.
  intros Hl Hs Hr. unfold emit_notice, emit. cbn. rewrite Hs, Hr. assert (E : u64_wrap (zlen xs + 1) = zlen (xs ++ [x])).
  { rewrite length_app. cbn. unfold u64_wrap, U64_MAX in *. rewrite Z.mod_small; lia. }
  rewrite E. split_and!; [done| |done]. unfold trim_ring, ring_of. rewrite history_snoc. replace (zlen xs + 1) with (zlen (xs ++ [x])) by (rewrite length_app; cbn; lia).
  fold (event_of (zlen (xs ++ [x])) x). rewrite <-(length_history xs) at 1 2. rewrite drop_drop_snoc. f_equal.
  by rewrite !length_app, length_history.
Qed.

Lemma hub_state xs : zlen xs <= U64_MAX -> ei_seq (foldl emit_notice hub_new xs) = zlen xs /\ ei_ring (foldl emit_notice hub_new xs) = ring_of xs.
Proof.
  induction xs as [|x xs IH] using rev_ind; intros Hl; [done|]. rewrite foldl_app. cbn [foldl]. rewrite length_app in Hl. cbn [length] in Hl.
  destruct IH as [Hs Hr]; [lia|]. by destruct (emit_state xs x _ ltac:(lia) Hs Hr) as (? & ? & _).
Qed.

Lemma newer_history xs k after :
  0 <= after -> newer after (drop k (history xs)) = drop (Nat.max k (Z.to_nat after)) (history xs).
Proof.
  intros Ha. unfold newer. induction xs as [|x xs IH] using rev_ind; [change (history []) with (@nil DashboardEvent); by rewrite !drop_nil|].
  rewrite history_snoc. destruct (decide (k <= length xs)%nat) as [Hk|Hk].
  - rewrite drop_app_le by (by rewrite length_history). rewrite filter_app, IH, filter_cons, filter_nil. cbn [ev_seq event_of].
    case_decide as Hd.
    + by rewrite drop_app_le by (rewrite length_history; lia).
    + rewrite app_nil_r, !drop_ge; [done| |]; rewrite ?length_app, length_history; cbn; lia.
  - rewrite !drop_ge; [done| |]; rewrite ?length_app, length_history; cbn; lia.
Qed.

(** A browser that polls with the number of the last event it saw gets exactly the
    later events, in order and without a gap, as far as the last 500 go back: the ring
    holds the end of the numbered history and the query cuts it at the given number. *)
Theorem event_poll_exact xs after :
  zlen xs <= U64_MAX -> 0 <= after ->
  let hub := foldl emit_notice hub_new xs in
  ei_seq hub = zlen xs /\ (length (ei_ring hub) <= EVENT_CAP)%nat /\
  hub_snapshot after hub = drop (Nat.max (length xs - EVENT_CAP) (Z.to_nat after)) (history xs).
Proof.
  intros Hl Ha. destruct (hub_state xs Hl) as [Hs Hr]. cbv zeta. split_and!; [done| |].
  - rewrite Hr. unfold ring_of. rewrite length_drop, length_history. lia.
  - unfold hub_snapshot. rewrite Hr. by apply newer_history.
Qed.
Lemma event_poll_exact_witness :
  let x := {| no_time := []; no_kind := word "connect"; no_level := word "info"; no_client := word "a"; no_msg := [] |} in
  hub_snapshot 1 (foldl emit_notice hub_new [x; x]) = [event_of 2 x].
Proof. intros x. destruct (event_poll_exact [x; x] 1 ltac:(done) ltac:(lia)) as (_ & _ & ->). reflexivity. Defined.

(** ** A subscriber

    The stream takes its backlog first and then its channel, which is the last one of
    the hub while nobody else subscribes. *)

Inductive hub_op := OpEmit (x : Notice) | OpTake.
Record Sub := { su_hub : EventInner; su_backlog : list DashboardEvent; su_taken : list DashboardEvent }.

Definition last_channel (hub : EventInner) : Channel := default {| ch_queue := []; ch_open := false |} (last (ei_subscribers hub)).
Definition pop_last (hub : EventInner) : EventInner :=
  {| ei_seq := ei_seq hub; ei_ring := ei_ring hub;
     ei_subscribers := take (length (ei_subscribers hub) - 1) (ei_subscribers hub) ++
       [{| ch_queue := tail (ch_queue (last_channel hub)); ch_open := ch_open (last_channel hub) |}] |}.
Definition sub_step (s : Sub) (op : hub_op) : Sub :=
  match op with
  | OpEmit x => {| su_hub := emit_notice (su_hub s) x; su_backlog := su_backlog s; su_taken := su_taken s |}
  | OpTake =>
      match su_backlog s with
      | e :: backlog => {| su_hub := su_hub s; su_backlog := backlog; su_taken := su_taken s ++ [e] |}
      | [] =>
          match ch_queue (last_channel (su_hub s)) with
          | e :: _ => {| su_hub := pop_last (su_hub s); su_backlog := []; su_taken := su_taken s ++ [e] |}
          | [] => s
          end
      end
  end.
Definition subscribe (after : Z) (hub : EventInner) : Sub :=
  let '(s, hub) := stream after hub in {| su_hub := hub; su_backlog := es_backlog s; su_taken := [] |}.
Definition emitted (ops : list hub_op) : list Notice := omap (fun op => match op with OpEmit x => Some x | OpTake => None end) ops.

(** The channel never held its 256 events when one was emitted. *)
Fixpoint never_full (s : Sub) (ops : list hub_op) : Prop :=
  match ops with
  | [] => True
  | op :: ops => (match op with OpEmit _ => (length (ch_queue (last_channel (su_hub s))) < STREAM_CAP)%nat | OpTake => True end) /\ never_full (sub_step s op) ops
  end.

Definition sub_inv (k : nat) (xs : list Notice) (s : Sub) : Prop :=
  ei_seq (su_hub s) = zlen xs /\ ei_ring (su_hub s) = ring_of xs /\
  exists l c, ei_subscribers (su_hub s) = l ++ [c] /\ ch_open c = true /\
    su_taken s ++ su_backlog s ++ ch_queue c = drop k (history xs).

Lemma last_snoc_channel hub l c : ei_subscribers hub = l ++ [c] -> last_channel hub = c.
Proof. intros E. unfold last_channel. by rewrite E, last_snoc. Qed.

Lemma try_send_open e c : ch_open c = true -> (length (ch_queue c) < STREAM_CAP)%nat -> try_send e c = Some {| ch_queue := ch_queue c ++ [e]; ch_open := true |}.
Proof. intros Ho Hf. unfold try_send. by rewrite Ho, (proj2 (Nat.leb_gt _ _) Hf). Qed.

Lemma sub_inv_step k xs s op :
  sub_inv k xs s -> (k <= length xs)%nat -> zlen xs < U64_MAX ->
  (match op with OpEmit _ => (length (ch_queue (last_channel (su_hub s))) < STREAM_CAP)%nat | OpTake => True end) ->
  sub_inv k (xs ++ emitted [op]) (sub_step s op).
Proof.
  intros (Hs & Hr & l & c & El & Ho & Ed) Hk Hl Hf. destruct op as [x|]; cbn [emitted omap list_omap].
  - destruct (emit_state xs x (su_hub s) Hl Hs Hr) as (Hs' & Hr' & Hc'). split_and!; [done..|]. cbn [sub_step su_hub su_taken su_backlog].
    rewrite (last_snoc_channel _ _ _ El) in Hf. rewrite El, omap_app in Hc'. cbn [omap list_omap] in Hc'.
    rewrite try_send_open in Hc' by done. eexists _, _. split; [exact Hc'|]. split; [done|]. cbn [ch_queue].
    rewrite history_snoc, drop_app_le by (by rewrite length_history). rewrite <-Ed, !app_assoc. do 3 f_equal. rewrite length_app. cbn. lia.
  - rewrite app_nil_r. cbn [sub_step]. destruct (su_backlog s) as [|e b] eqn:Eb.
    + rewrite (last_snoc_channel _ _ _ El). destruct (ch_queue c) as [|e q] eqn:Eq.
      { split_and!; [done..|]. exists l, c. by rewrite Eb, Eq. }
      split_and!; [done..|]. cbn [su_hub pop_last ei_subscribers su_taken su_backlog]. rewrite (last_snoc_channel _ _ _ El), El.
      eexists _, _. split; [done|]. split; [done|]. cbn [ch_queue]. rewrite Eq. cbn [tail app]. rewrite <-Ed. by rewrite <-app_assoc.
    + split_and!; [done..|]. exists l, c. split_and!; [done..|]. cbn [su_taken su_backlog]. rewrite <-Ed. by rewrite <-app_assoc.
Qed.

Lemma sub_inv_run k xs s ops :
  sub_inv k xs s -> (k <= length xs)%nat -> zlen xs + zlen ops <= U64_MAX -> never_full s ops ->
  sub_inv k (xs ++ emitted ops) (foldl sub_step s ops).
Proof.
  revert xs s. induction ops as [|op ops IH]; intros xs s Hi Hk Hl Hf; [by rewrite app_nil_r|]. destruct Hf as [Hf1 Hf]. cbn [length] in Hl.
  apply (sub_inv_step k xs s op) in Hi; [|done|lia|done]. cbn [foldl].
  assert (E : emitted (op :: ops) = emitted [op] ++ emitted ops) by (by destruct op). rewrite E, app_assoc.
  assert (length (emitted [op]) <= 1)%nat by (destruct op; simpl; lia). apply IH; [done|rewrite length_app; lia|rewrite length_app; lia|done].
Qed.

(** A subscriber misses nothing between the backlog and the live events.  Whatever
    was emitted before it subscribed and whatever is emitted and taken afterwards, what
    it has taken followed by what waits for it is exactly the numbered history after its
    cursor (as far back as the ring goes), once each and in order, as long as its
    channel is never full when an event is emitted. *)
Theorem event_stream_has_no_gap xs after ops :
  0 <= after <= zlen xs -> zlen xs + zlen ops <= U64_MAX ->
  let s := subscribe after (foldl emit_notice hub_new xs) in
  never_full s ops ->
  let s' := foldl sub_step s ops in
  su_taken s' ++ su_backlog s' ++ ch_queue (last_channel (su_hub s')) =
  drop (Nat.max (length xs - EVENT_CAP) (Z.to_nat after)) (history (xs ++ emitted ops)).
Proof.
  intros Ha Hl s Hf s'. set (k := Nat.max (length xs - EVENT_CAP) (Z.to_nat after)).
  destruct (hub_state xs ltac:(lia)) as [Hs Hr]. assert (Hi : sub_inv k xs s).
  { split_and!; [done..|]. eexists _, _. split; [done|]. split; [done|]. cbn. rewrite app_nil_r, Hr. apply newer_history. lia. }
  apply (sub_inv_run k xs s ops) in Hi; [|lia|done|done]. destruct Hi as (_ & _ & l & c & El & _ & Ed).
  fold s' in El, Ed. by rewrite (last_snoc_channel _ _ _ El).
Qed.

Lemma event_stream_has_no_gap_witness :
  let x := {| no_time := []; no_kind := word "connect"; no_level := word "info"; no_client := word "a"; no_msg := [] |} in
  let s' := foldl sub_step (subscribe 1 (foldl emit_notice hub_new [x; x])) [OpTake; OpEmit x; OpTake; OpEmit x] in
  su_taken s' = [event_of 2 x; event_of 3 x] /\
  su_taken s' ++ su_backlog s' ++ ch_queue (last_channel (su_hub s')) = [event_of 2 x; event_of 3 x; event_of 4 x].
Proof.
  intros x s'. split; [reflexivity|].
  pose proof (event_stream_has_no_gap [x; x] 1 [OpTake; OpEmit x; OpTake; OpEmit x] ltac:(done) ltac:(done)) as H.
  cbv zeta in H. unfold s'. rewrite H; [reflexivity|]. repeat split; apply Nat.ltb_lt; reflexivity.
Defined.

(** ** The bytes of the stream *)

Section bytes.
Context (to_json : DashboardEvent -> list Z).

Definition rx_bytes (r : Received) : list Z :=
  match r with RxEvent e => sse_frame to_json e | RxTimeout => PING | RxDisconnected => [] end.
(** Everything still to be read: the rest of the current frame, the backlog, the channel. *)
Definition payload (s : EventStream) (rx : list Received) : list Z :=
  drop (es_offset s) (es_pending s) ++ concat (sse_frame to_json <$> es_backlog s) ++ concat (rx_bytes <$> rx).

Lemma refill_payload s rx s' rx' : (length (es_pending s) <= es_offset s)%nat -> refill to_json s rx = Some (s', rx') ->
  payload s rx = payload s' rx' /\ es_offset s' = 0%nat.
Proof.
  intros Hp. unfold refill, payload. rewrite drop_ge by done. destruct (es_backlog s) as [|e b].
  - destruct rx as [|[e| |] rx]; intros [= <- <-]; cbn [es_offset es_pending es_backlog]; by rewrite drop_0.
  - intros [= <- <-]. cbn [es_offset es_pending es_backlog]. rewrite drop_0. split; [|done]. cbn. by rewrite <-!app_assoc.
Qed.

Lemma slice_drop {A} (l : list A) a n : slice a (a + n) l ++ drop (a + n) l = drop a l.
Proof. unfold slice. replace (a + n - a)%nat with n by lia. rewrite <-drop_drop. apply take_drop. Qed.

Lemma read_payload cap s rx out s' rx' : read to_json cap s rx = Some (out, s', rx') ->
  payload s rx = out ++ payload s' rx' /\ (length out <= cap)%nat.
Proof.
  unfold read. destruct (Nat.eqb_spec cap 0); [intros [= <- <- <-]; split; [done|simpl; lia]|].
  assert (Hk : forall s1 rx1, (if bool_decide (es_pending s1 = []) then Some ([], s1, rx1) else
      let n := Nat.min (length (es_pending s1) - es_offset s1) cap in
      Some (slice (es_offset s1) (es_offset s1 + n) (es_pending s1),
            {| es_backlog := es_backlog s1; es_pending := es_pending s1; es_offset := es_offset s1 + n |}, rx1)) = Some (out, s', rx') ->
      payload s1 rx1 = out ++ payload s' rx' /\ (length out <= cap)%nat).
  { intros s1 rx1. case_bool_decide; [intros [= <- <- <-]; split; [done|simpl; lia]|]. intros [= <- <- <-]. unfold payload. cbn [es_offset es_pending es_backlog]. split.
    - by rewrite (app_assoc (slice _ _ _)), slice_drop.
    - unfold slice. rewrite length_take. lia. }
  destruct (Nat.leb_spec (length (es_pending s)) (es_offset s)) as [Hp|Hp]; cbn [mbind option_bind]; [|apply Hk].
  destruct (refill to_json s rx) as [[s1 rx1]|] eqn:Er; [|done]. cbn [mbind option_bind]. intros E%Hk.
  destruct (refill_payload _ _ _ _ Hp Er) as [-> _]. done.
Qed.

Lemma reads_payload caps s rx out s' rx' : reads to_json caps s rx = Some (out, s', rx') -> payload s rx = out ++ payload s' rx'.
Proof.
  revert s rx out. induction caps as [|cap caps IH]; intros s rx out; cbn [reads]; [by intros [= <- <- <-]|].
  destruct (read to_json cap s rx) as [[[o1 s1] rx1]|] eqn:E1; [|done]. cbn [mbind option_bind].
  destruct (reads to_json caps s1 rx1) as [[[o2 s2] rx2]|] eqn:E2; [|done]. cbn [mbind option_bind]. intros [= <- <- <-].
  apply read_payload in E1 as [-> _]. rewrite (IH _ _ _ E2). apply app_assoc.
Qed.

(** A read with room never blocks while something is to be read, and it is empty only
    at the end of the channel. *)
Lemma read_progress cap s rx : (0 < cap)%nat -> (drop (es_offset s) (es_pending s) <> [] \/ es_backlog s <> [] \/ rx <> []) ->
  exists out s' rx', read to_json cap s rx = Some (out, s', rx') /\
    (out = [] -> (length (es_pending s) <= es_offset s)%nat /\ es_backlog s = [] /\ exists l, rx = RxDisconnected :: l).
Proof.
  intros Hc Hne. unfold read. rewrite (proj2 (Nat.eqb_neq _ _)) by lia.
  destruct (Nat.leb_spec (length (es_pending s)) (es_offset s)) as [Hp|Hp].
  - assert (Hr : exists s1 rx1, refill to_json s rx = Some (s1, rx1) /\ es_offset s1 = 0%nat /\
      (es_pending s1 = [] -> es_backlog s = [] /\ exists l, rx = RxDisconnected :: l)).
    { unfold refill. destruct (es_backlog s) as [|e b]; [|by eexists _, _; split_and!].
      destruct rx as [|[e| |] rx]; [|eexists _, _; split_and!; try done; eauto..]. exfalso. rewrite drop_ge in Hne by done. by destruct Hne as [|[]]. }
    destruct Hr as (s1 & rx1 & -> & Ho & Hd). cbn [mbind option_bind]. case_bool_decide as Ep.
    + eexists _, _, _. split; [done|]. intros _. split; [done|]. by apply Hd.
    + eexists _, _, _. split; [done|]. rewrite Ho. unfold slice. rewrite drop_0. intros E%(f_equal length). rewrite length_take in E. cbn [length] in E.
      assert (length (es_pending s1) <> 0)%nat by (by destruct (es_pending s1)). lia.
  - cbn [mbind option_bind]. rewrite bool_decide_eq_false_2 by (intros E; rewrite E in Hp; simpl in Hp; lia).
    eexists _, _, _. split; [done|]. unfold slice. intros E%(f_equal length). rewrite length_take, length_drop in E. cbn [length] in E. lia.
Qed.

(** The bytes a browser reads are the frames of the events, whatever the sizes of its
    buffers: the reads give in order, with nothing lost or repeated at a boundary, the
    rest of the current frame, the frames of the backlog and those of the channel (a
    ping for each timeout), and no read exceeds its buffer; a read with room returns
    bytes as long as there is anything before the end of the channel. *)
Theorem event_bytes_exact caps s rx :
  (forall out s' rx', reads to_json caps s rx = Some (out, s', rx') -> payload s rx = out ++ payload s' rx') /\
  (forall cap, (0 < cap)%nat -> payload s rx <> [] -> RxDisconnected ∉ rx ->
    exists out s' rx', read to_json cap s rx = Some (out, s', rx') /\ (0 < length out <= cap)%nat).
Proof.
  split; [intros out s' rx'; apply reads_payload|]. intros cap Hc Hp Hd.
  destruct (read_progress cap s rx Hc) as (out & s' & rx' & Hr & Ho).
  { unfold payload in Hp. destruct (drop _ _); [|by left]. right. destruct (es_backlog s); [|by left]. right. by destruct rx. }
  eexists _, _, _. split; [exact Hr|]. apply read_payload in Hr as [_ Hl]. split; [|done].
  destruct out; [|simpl; lia]. destruct Ho as (_ & _ & l & ->); [done|]. exfalso. apply Hd. by left.
Qed.
End bytes.
Lemma event_bytes_exact_witness :
  let e := event_of 7 {| no_time := []; no_kind := []; no_level := []; no_client := []; no_msg := [] |} in
  let s := {| es_backlog := [e]; es_pending := []; es_offset := 0 |} in
  exists out s' rx', read (fun _ => [123; 125]) 4 s [] = Some (out, s', rx') /\ (0 < length out <= 4)%nat.
Proof.
  intros e s. destruct (event_bytes_exact (fun _ => [123; 125]) [] s []) as [_ H]. apply H; [lia|vm_compute; discriminate|apply not_elem_of_nil].
Defined.

(** ** Connection events *)

(** What a reader concludes from an event about who is connected. *)
Definition replay (clients : gset text) (x : Notice) : gset text :=
  if bool_decide (no_kind x = word "connect") then {[no_client x]} ∪ clients
  else if bool_decide (no_kind x = word "disconnect") then clients ∖ {[no_client x]} else clients.
Definition notice (time kind level msg id : text) : Notice := {| no_time := time; no_kind := kind; no_level := level; no_client := id; no_msg := msg |}.

Lemma emit_all_notices clock kind level msg ids hub :
  exists xs, emit_all clock kind level msg ids hub = foldl emit_notice hub xs /\ no_client <$> xs = ids /\ Forall (fun x => no_kind x = kind) xs.
Proof.
  revert hub. induction ids as [|id ids IH]; intros hub; [by exists []|]. unfold emit_all. cbn [foldl].
  destruct (IH (emit (clock (ei_seq hub)) kind level id msg hub)) as (xs & E & Ei & Ek).
  exists (notice (clock (ei_seq hub)) kind level msg id :: xs). split; [exact E|]. split; [cbn; by rewrite Ei|by constructor].
Qed.
Lemma replay_connects xs clients : Forall (fun x => no_kind x = word "connect") xs -> foldl replay clients xs = list_to_set (no_client <$> xs) ∪ clients.
Proof.
  intros H. revert clients. induction H as [|x xs Hx _ IH]; intros clients; cbn [foldl]; [set_solver|]. rewrite IH. unfold replay.
  rewrite bool_decide_eq_true_2 by done. cbn [fmap list_fmap list_to_set]. set_solver.
Qed.
Lemma replay_disconnects xs clients : Forall (fun x => no_kind x = word "disconnect") xs -> foldl replay clients xs = clients ∖ list_to_set (no_client <$> xs).
Proof.
  intros H. revert clients. induction H as [|x xs Hx _ IH]; intros clients; cbn [foldl]; [set_solver|]. rewrite IH. unfold replay.
  rewrite Hx, bool_decide_eq_false_2, bool_decide_eq_true_2 by done. cbn [fmap list_fmap list_to_set]. set_solver.
Qed.

(** The connection events tell who is connected: replaying the events that one
    observation emits, from the clients of the previous observation, gives the clients
    of this one, and each client that changed has exactly one event. *)
Theorem client_events_replay ord clock stats previous hub :
  (forall s : gset text, ord s ≡ₚ elements s) ->
  exists xs, (observe_client_events ord clock stats (previous, hub)).2 = foldl emit_notice hub xs /\
    foldl replay previous xs = (observe_client_events ord clock stats (previous, hub)).1 /\
    NoDup (no_client <$> xs) /\
    (forall id, id ∈ no_client <$> xs <-> (id ∈ previous <-> id ∉ (observe_client_events ord clock stats (previous, hub)).1)).
Proof.
  intros Hord. unfold observe_client_events. cbn [fst snd]. set (current := list_to_set _).
  destruct (emit_all_notices clock (word "connect") (word "info") (word "Client connected") (ord (current ∖ previous)) hub) as (xs & -> & Ei & Ek).
  destruct (emit_all_notices clock (word "disconnect") (word "warn") (word "Client disconnected") (ord (previous ∖ current)) (foldl emit_notice hub xs))
    as (ys & -> & Fi & Fk).
  exists (xs ++ ys). rewrite !foldl_app. rewrite (replay_connects _ _ Ek), (replay_disconnects _ _ Fk), fmap_app, Ei, Fi.
  assert (Hin : forall s id, id ∈ ord s <-> id ∈ s) by (intros s id; rewrite (Hord s); apply elem_of_elements).
  assert (Hset : forall s : gset text, list_to_set (ord s) = s) by (intros s; apply set_eq; intros id; rewrite elem_of_list_to_set; apply Hin).
  split_and!; [done| | |].
  - rewrite !Hset. apply set_eq. intros id. destruct (decide (id ∈ current)), (decide (id ∈ previous)); set_solver.
  - apply NoDup_app. split_and!; [rewrite (Hord _); apply NoDup_elements|intros id; rewrite !Hin; set_solver|rewrite (Hord _); apply NoDup_elements].
  - intros id. rewrite elem_of_app, !Hin. destruct (decide (id ∈ current)), (decide (id ∈ previous)); set_solver.
Qed.
