(* ===== verification/TrafficSpec.v ===== *)
(** * Properties of the daily traffic buckets *)
From S2P Require Import Prelude Utils Crypto Pool Policy WebState WebSpec WebStore.

(** ** Trimming keeps the newest days *)

Lemma trim_buckets_eq fuel days b c : 0 <= days -> (length b <= fuel)%nat ->
  (trim_buckets fuel days b c).1 = drop (length b - Z.to_nat days) b.
Proof.
  intros Hd. revert b c. induction fuel as [|fuel IH]; intros [|[k d] b] c Hf; cbn [length] in Hf; try lia; cbn [trim_buckets fst]; try by rewrite drop_nil.
  destruct (Z.ltb_spec days (zlen ((k, d) :: b))) as [Hl|Hl]; cbn [length] in *.
  - rewrite IH by lia. replace (S (length b) - Z.to_nat days)%nat with (S (length b - Z.to_nat days)) by lia. done.
  - cbn [fst]. by replace (S (length b) - Z.to_nat days)%nat with 0%nat by lia.
Qed.
Lemma trim_clients_eq fuel days c : 0 <= days -> (length c <= fuel)%nat -> trim_clients fuel days c = drop (length c - Z.to_nat days) c.
Proof.
  intros Hd. revert c. induction fuel as [|fuel IH]; intros [|p c] Hf; cbn [length] in Hf; try lia; cbn [trim_clients]; try by rewrite drop_nil.
  destruct (Z.ltb_spec days (zlen (p :: c))) as [Hl|Hl]; cbn [length] in *.
  - rewrite IH by lia. by replace (S (length c) - Z.to_nat days)%nat with (S (length c - Z.to_nat days)) by lia.
  - by replace (S (length c) - Z.to_nat days)%nat with 0%nat by lia.
Qed.

Lemma below_sub {A} k (m m' : list (text * A)) : below k m -> m' ⊆ m -> below k m'.
Proof. unfold below. rewrite !Forall_forall. intros Hb Hs p Hp. apply Hb, Hs, Hp. Qed.
Lemma drop_ascending {A} n (m : list (text * A)) : ascending m -> ascending (drop n m).
Proof. revert m. induction n as [|n IH]; intros [|[k v] m]; try done. intros [_ Hm]. by apply IH. Qed.
Lemma filter_ascending {A} (P : text * A -> Prop) `{forall x, Decision (P x)} (m : list (text * A)) : ascending m -> ascending (filter P m).
Proof.
  induction m as [|[k v] m IH]; [done|]. intros [Hb Hm]. rewrite filter_cons. case_decide; [|auto]. split; [|auto].
  eapply below_sub; [exact Hb|]. intros p Hp%list_elem_of_filter. tauto.
Qed.
Lemma obj_get_in {A} (m : list (text * A)) k v : ascending m -> (obj_get m k = Some v <-> (k, v) ∈ m).
Proof.
  intros Hm. split; [apply get_in|]. induction m as [|[k' v'] m IH]; [by intros ?%elem_of_nil|]. destruct Hm as [Hb Hm]. cbn [obj_get].
  intros [[= -> ->]|Hin]%elem_of_cons; [by rewrite bool_decide_eq_true_2|]. rewrite bool_decide_eq_false_2; [auto|].
  intros ->. unfold below in Hb. rewrite Forall_forall in Hb. specialize (Hb _ Hin). cbn in Hb. by rewrite key_ltb_irrefl in Hb.
Qed.

Lemma ascending_app {A} (l1 l2 : list (text * A)) p q : ascending (l1 ++ l2) -> p ∈ l1 -> q ∈ l2 -> key_ltb p.1 q.1 = true.
Proof.
  induction l1 as [|[k v] l1 IH]; [by intros _ ?%elem_of_nil|]. intros [Hb Hm] [->|Hp]%elem_of_cons Hq; [|by apply IH].
  unfold below in Hb. rewrite Forall_forall in Hb. apply (Hb q). apply elem_of_app. by right.
Qed.

(** The keys of an object in which [k] is the last one. *)
Definition latest {A} (k : text) (m : list (text * A)) : Prop := Forall (fun p => p.1 = k \/ key_ltb p.1 k = true) m.
Lemma insert_latest {A} k v (m : list (text * A)) : ascending m -> latest k m -> exists l, obj_insert m k v = l ++ [(k, v)] /\ l ⊆ m.
Proof.
  intros Hm Hl. induction m as [|[k' v'] m IH]; [exists []; split; [done|apply list_subseteq_nil]|].
  destruct Hm as [Hb Hm]. apply Forall_cons in Hl as [Hk Hl]. cbn in Hk |- *. case_bool_decide as E.
  - subst k'. destruct m as [|[k2 v2] m]; [exists []; split; [done|apply list_subseteq_nil]|]. exfalso.
    apply Forall_cons in Hl as [Hk2 _]. apply Forall_cons in Hb as [Hb _]. cbn in *. destruct Hk2 as [->|Hk2]; [by rewrite key_ltb_irrefl in Hb|].
    by rewrite (key_ltb_asym _ _ Hb) in Hk2.
  - destruct Hk as [|Hk]; [done|]. rewrite (key_ltb_asym _ _ Hk). destruct (IH Hm Hl) as (l & -> & Hs). exists ((k', v') :: l). split; [done|].
    intros p [->|Hp]%elem_of_cons; [by left|]. right. by apply Hs.
Qed.

(** ** The invariant *)

Definition clients_ok (c : list (text * list (text * TrafficDay))) : Prop := ascending c /\ Forall (fun p => ascending p.2) c.
(** What the ordered maps of the files and of the state satisfy. *)
Definition maps_ok (s : TrafficState) : Prop := ascending (tf_buckets s) /\ clients_ok (tf_client_buckets s).
Definition traffic_ok (s : TrafficState) : Prop :=
  1 <= tf_days s <= MAX_TRAFFIC_DAYS /\ maps_ok s /\ zlen (tf_buckets s) <= tf_days s /\ zlen (tf_client_buckets s) <= tf_days s.

Lemma trim_buckets_clients fuel days b c : clients_ok c -> clients_ok (trim_buckets fuel days b c).2.
Proof.
  revert b c. induction fuel as [|fuel IH]; intros b c Hc; [done|]. destruct b as [|[k d] b]; [done|]. cbn [trim_buckets].
  destruct (days <? _); [|done]. apply IH. destruct Hc as [Ha Hf]. split; [by apply filter_ascending|]. rewrite Forall_forall in *. intros p Hp%list_elem_of_filter. apply Hf, Hp.
Qed.
Lemma trim_ok s : 1 <= tf_days s <= MAX_TRAFFIC_DAYS -> maps_ok s -> traffic_ok (traffic_trim s).
Proof.
  intros Hd [Hb Hc]. unfold traffic_trim. destruct (trim_buckets _ _ _ _) as [b c] eqn:E.
  pose proof (trim_buckets_eq (length (tf_buckets s)) (tf_days s) (tf_buckets s) (tf_client_buckets s) ltac:(lia) ltac:(lia)) as Eb.
  pose proof (trim_buckets_clients (length (tf_buckets s)) (tf_days s) (tf_buckets s) (tf_client_buckets s) Hc) as Ec.
  rewrite E in Eb, Ec. cbn [fst snd] in Eb, Ec. subst b. destruct Ec as [Ec1 Ec2].
  unfold traffic_ok, maps_ok, clients_ok. cbn [with_buckets tf_days tf_buckets tf_client_buckets]. rewrite trim_clients_eq by lia. rewrite !length_drop.
  split_and!; [lia..|by apply drop_ascending|by apply drop_ascending|by apply Forall_drop|lia|lia].
Qed.

Lemma insert_forall {A} (P : A -> Prop) (m : list (text * A)) k v : Forall (fun p => P p.2) m -> P v -> Forall (fun p => P p.2) (obj_insert m k v).
Proof.
  intros Hm Hv. induction Hm as [|[k' v'] m Hx Hm IH]; cbn; [by repeat constructor|]. case_bool_decide; [by constructor|]. case_match; by repeat constructor.
Qed.
Lemma get_forall {A} (P : A -> Prop) (m : list (text * A)) k v : Forall (fun p => P p.2) m -> obj_get m k = Some v -> P v.
Proof. intros Hm Hg%get_in. rewrite Forall_forall in Hm. exact (Hm _ Hg). Qed.
Lemma observe_client_ok today st p : clients_ok st.1 -> clients_ok (observe_client today st p).1.
Proof.
  destruct st as [c last], p as [id client]. intros [Ha Hf]. cbn. split; [by apply insert_ascending|]. apply (insert_forall ascending); [done|].
  apply insert_ascending. destruct (obj_get c today) as [day|] eqn:E; [|done]. by apply (get_forall ascending) in E.
Qed.
Lemma observe_clients_ok today l st : clients_ok st.1 -> clients_ok (foldl (observe_client today) st l).1.
Proof. revert st. induction l as [|p l IH]; intros st Hs; [done|]. apply IH. by apply observe_client_ok. Qed.

(** The state after the counters have been added and before trimming. *)
Definition observed (today : text) (stats : Value) (s : TrafficState) : TrafficState :=
  let '(up, down) := aggregate_bytes stats in
  let bucket := default day_zero (obj_get (tf_buckets s) today) in
  let cl := if is_server stats then foldl (observe_client today) (tf_client_buckets s, tf_client_last s) (clients_of stats)
            else (tf_client_buckets s, tf_client_last s) in
  {| tf_days := tf_days s; tf_file := tf_file s; tf_client_file := tf_client_file s; tf_today := today;
     tf_buckets := obj_insert (tf_buckets s) today (add_day bucket (sat_sub up (tf_last_up s)) (sat_sub down (tf_last_down s)));
     tf_client_buckets := cl.1; tf_last_up := up; tf_last_down := down; tf_client_last := cl.2; tf_last_flush := tf_last_flush s |}.

Lemma observe_fields today now stats s : let s' := (observe today now stats s).1 in let t := traffic_trim (observed today stats s) in
  tf_days s' = tf_days t /\ tf_buckets s' = tf_buckets t /\ tf_client_buckets s' = tf_client_buckets t /\
  tf_last_up s' = tf_last_up t /\ tf_last_down s' = tf_last_down t /\ tf_today s' = tf_today t.
Proof.
  unfold observe, observed. destruct (aggregate_bytes stats) as [up down].
  destruct (if is_server stats then _ else _) as [c last]. cbn [fst snd]. by destruct (TRAFFIC_FLUSH_INTERVAL <=? _).
Qed.
Lemma observed_maps_ok today stats s : maps_ok s -> maps_ok (observed today stats s).
Proof.
  intros [Hb Hc]. unfold observed. destruct (aggregate_bytes stats) as [up down]. split; cbn [tf_buckets tf_client_buckets]; [by apply insert_ascending|].
  destruct (is_server stats); [|done]. by apply observe_clients_ok.
Qed.
Lemma observed_days today stats s : tf_days (observed today stats s) = tf_days s.
Proof. unfold observed. by destruct (aggregate_bytes stats). Qed.

Lemma observe_ok today now stats s : traffic_ok s -> traffic_ok (observe today now stats s).1.
Proof.
  intros (Hd & Hm & _ & _). destruct (observe_fields today now stats s) as (E1 & E2 & E3 & _).
  assert (Ht : traffic_ok (traffic_trim (observed today stats s))) by (apply trim_ok; [by rewrite observed_days|by apply observed_maps_ok]).
  unfold traffic_ok, maps_ok in *. by rewrite E1, E2, E3.
Qed.

Lemma clamp_range lo hi z : lo <= hi -> lo <= clamp lo hi z <= hi.
Proof. unfold clamp. lia. Qed.

(** The window of days is bounded in every state: between 1 and 3650 days, no more
    buckets of either kind than days, and the maps ordered, from whatever the files
    held, through changes of the configuration and observations of any statistics. *)
Theorem traffic_window_bounded :
  (forall cfg file client_file today now b c, ascending b -> clients_ok c -> traffic_ok (traffic_new cfg file client_file today now b c)) /\
  (forall days file client_file s, traffic_ok s -> traffic_ok (apply_config days file client_file s)) /\
  (forall today now stats s, traffic_ok s -> traffic_ok (observe today now stats s).1).
Proof.
  split_and!.
  - intros cfg file client_file today now b c Hb Hc. unfold traffic_new. apply trim_ok; [|done]. cbn [tf_days]. by apply clamp_range.
  - intros days file client_file s (_ & Hm & _). unfold apply_config. apply trim_ok; [|exact Hm]. cbn [tf_days]. by apply clamp_range.
  - apply observe_ok.
Qed.

Lemma trim_buckets_of s : 0 <= tf_days s -> tf_buckets (traffic_trim s) = drop (length (tf_buckets s) - Z.to_nat (tf_days s)) (tf_buckets s).
Proof.
  intros Hd. unfold traffic_trim. destruct (trim_buckets _ _ _ _) as [b c] eqn:E. cbn [with_buckets tf_buckets].
  pose proof (trim_buckets_eq (length (tf_buckets s)) (tf_days s) (tf_buckets s) (tf_client_buckets s) Hd ltac:(lia)) as Eb. by rewrite E in Eb.
Qed.
Lemma observe_buckets today now stats s : 1 <= tf_days s ->
  let '(up, down) := aggregate_bytes stats in
  let day := add_day (default day_zero (obj_get (tf_buckets s) today)) (sat_sub up (tf_last_up s)) (sat_sub down (tf_last_down s)) in
  let all := obj_insert (tf_buckets s) today day in
  tf_buckets (observe today now stats s).1 = drop (length all - Z.to_nat (tf_days s)) all.
Proof.
  intros Hd. destruct (aggregate_bytes stats) as [up down] eqn:Eu. destruct (observe_fields today now stats s) as (_ & -> & _).
  rewrite trim_buckets_of by (rewrite observed_days; lia). unfold observed. by rewrite Eu.
Qed.

(** An observation counts exactly what has passed since the previous one, on its day,
    and costs at most the oldest days.  When no bucket is later than today, today's
    bucket grows by the differences of the two counters, every other bucket left is as
    it was, and the buckets left are the newest [days] of them. *)
Theorem traffic_counted_on_its_day today now stats s :
  traffic_ok s -> latest today (tf_buckets s) ->
  let '(up, down) := aggregate_bytes stats in
  let day := add_day (default day_zero (obj_get (tf_buckets s) today)) (sat_sub up (tf_last_up s)) (sat_sub down (tf_last_down s)) in
  let b' := tf_buckets (observe today now stats s).1 in
  obj_get b' today = Some day /\
  (forall k d, k <> today -> obj_get b' k = Some d -> obj_get (tf_buckets s) k = Some d) /\
  (forall k d, obj_get (tf_buckets s) k = Some d -> obj_get b' k = None -> forall k' d', obj_get b' k' = Some d' -> key_ltb k k' = true) /\
  (zlen (obj_insert (tf_buckets s) today day) <= tf_days s -> b' = obj_insert (tf_buckets s) today day).
Proof.
  intros (Hd & [Hb _] & _ & _) Hl. pose proof (observe_buckets today now stats s ltac:(lia)) as E.
  destruct (aggregate_bytes stats) as [up down]. cbv zeta in *. set (day := add_day _ _ _) in *. rewrite E. clear E.
  set (all := obj_insert (tf_buckets s) today day). assert (Ha : ascending all) by (by apply insert_ascending).
  set (n := (length all - Z.to_nat (tf_days s))%nat). pose proof (drop_ascending n all Ha) as Hda.
  destruct (insert_latest today day (tf_buckets s) Hb Hl) as (l & El & Hs). fold all in El.
  split_and!.
  - apply obj_get_in; [done|]. rewrite El, drop_app_le; [apply elem_of_app; right; by left|]. unfold n. rewrite El, length_app. cbn [length]. lia.
  - intros k d Hk Hg. apply (obj_get_in _ _ _ Hda) in Hg. apply (obj_get_in _ _ _ Hb).
    assert (Hin : (k, d) ∈ all) by (rewrite <-(take_drop n all); apply elem_of_app; by right).
    rewrite El in Hin. apply elem_of_app in Hin as [Hin|Hin]; [by apply Hs|]. apply list_elem_of_singleton in Hin. congruence.
  - intros k d Hg Hn k' d' Hg'. apply (obj_get_in _ _ _ Hda) in Hg'. assert (Hk : k <> today).
    { intros ->. assert (obj_get (drop n all) today = Some day) as C; [|congruence]. apply obj_get_in; [done|].
      rewrite El, drop_app_le; [apply elem_of_app; right; by left|]. unfold n. rewrite El, length_app. cbn [length]. lia. }
    assert (Hin : (k, d) ∈ all). { apply (obj_get_in _ _ _ Ha). unfold all. rewrite get_insert. by rewrite bool_decide_eq_false_2 by congruence. }
    rewrite <-(take_drop n all) in Hin, Ha. apply elem_of_app in Hin as [Hin|Hin]; [exact (ascending_app _ _ _ _ Ha Hin Hg')|].
    apply (obj_get_in _ _ _ Hda) in Hin. congruence.
  - intros Hle. unfold n. by replace (length all - Z.to_nat (tf_days s))%nat with 0%nat by lia.
Qed.
Lemma traffic_counted_on_its_day_witness :
  let s := traffic_new (VObject []) [] [] [] 0 [(word "2026-01-01", {| td_up := 5; td_down := 6 |})] [] in
  let stats := VObject [(word "global_rx_bytes", VNumber 4); (word "global_tx_bytes", VNumber 9)] in
  obj_get (tf_buckets (observe (word "2026-01-02") 0 stats s).1) (word "2026-01-02") = Some {| td_up := 9; td_down := 4 |}.
Proof.
  intros s stats. destruct (traffic_counted_on_its_day (word "2026-01-02") 0 stats s) as [H _]; [| |exact H].
  - vm_compute. intuition (congruence || constructor).
  - vm_compute. constructor; [right; reflexivity|constructor].
Defined.

(** ** Nothing is lost or counted twice *)

Definition total (f : TrafficDay -> Z) (b : list (text * TrafficDay)) : Z := foldr Z.add 0 ((fun p => f p.2) <$> b).

Lemma total_insert f b k v : ascending b -> f day_zero = 0 ->
  total f (obj_insert b k v) = total f b - f (default day_zero (obj_get b k)) + f v.
Proof.
  intros Hb H0. unfold total. induction b as [|[k' v'] b IH]; cbn; [lia|]. destruct Hb as [Hl Hb]. case_bool_decide as E; [cbn; lia|].
  destruct (key_ltb k k') eqn:Ek; cbn; [|rewrite IH by done; lia]. rewrite (below_get k b) by (eapply below_trans; done). cbn. lia.
Qed.
Lemma total_get f b k : (forall p, p ∈ b -> 0 <= f p.2) -> f day_zero = 0 -> f (default day_zero (obj_get b k)) <= total f b.
Proof.
  intros Hp H0. assert (Hn : forall l, (forall p, p ∈ l -> 0 <= f p.2) -> 0 <= total f l).
  { clear. intros l. unfold total. induction l as [|p l IH]; intros Hl; cbn; [lia|]. specialize (Hl p) as Hx.
    assert (0 <= f p.2) by (apply Hx; by left). assert (0 <= foldr Z.add 0 ((fun p => f p.2) <$> l)) by (apply IH; intros q Hq; apply Hl; by right). lia. }
  induction b as [|[k' v'] b IH]; cbn; [rewrite H0; done|]. unfold total in *. cbn.
  assert (0 <= f v') by (apply (Hp (k', v')); by left).
  assert (0 <= foldr Z.add 0 ((fun p => f p.2) <$> b)) by (apply Hn; intros q Hq; apply Hp; by right).
  case_bool_decide; cbn; [lia|]. assert (f (default day_zero (obj_get b k)) <= foldr Z.add 0 ((fun p => f p.2) <$> b)) by (apply IH; intros q Hq; apply Hp; by right). lia.
Qed.

(** Buckets hold what the counters say. *)
Definition accounted (s : TrafficState) : Prop :=
  total td_up (tf_buckets s) = tf_last_up s /\ total td_down (tf_buckets s) = tf_last_down s /\
  Forall (fun p => 0 <= td_up p.2 /\ 0 <= td_down p.2) (tf_buckets s).

Lemma aggregate_u64 stats : is_u64 (aggregate_bytes stats).1 /\ is_u64 (aggregate_bytes stats).2.
Proof.
  assert (Hf : forall k, is_u64 (u64_field stats k)).
  { intros k. unfold u64_field. destruct (value_get stats k) as [[| |n| | | |]|]; try done. cbn [mbind option_bind as_u64].
    destruct ((0 <=? n) && (n <=? U64_MAX)) eqn:E; [|done]. apply andb_true_iff in E as [E1%Z.leb_le E2%Z.leb_le]. by unfold is_u64. }
  unfold aggregate_bytes. destruct (is_server stats); split; apply Hf.
Qed.

Lemma observe_accounted today now stats s :
  traffic_ok s -> accounted s -> tf_last_up s <= (aggregate_bytes stats).1 -> tf_last_down s <= (aggregate_bytes stats).2 ->
  zlen (obj_insert (tf_buckets s) today day_zero) <= tf_days s -> accounted (observe today now stats s).1.
Proof.
  intros (Hd & [Hb _] & _) (Hu & Hdn & Hf) Lu Ld Hz. pose proof (observe_buckets today now stats s ltac:(lia)) as E.
  pose proof (aggregate_u64 stats) as [Bu Bd]. destruct (observe_fields today now stats s) as (_ & _ & _ & Eu & Ed & _).
  assert (El : tf_last_up (traffic_trim (observed today stats s)) = (aggregate_bytes stats).1 /\ tf_last_down (traffic_trim (observed today stats s)) = (aggregate_bytes stats).2).
  { unfold traffic_trim. destruct (trim_buckets _ _ _ _). cbn. unfold observed. by destruct (aggregate_bytes stats). }
  destruct El as [El1 El2]. rewrite El1 in Eu. rewrite El2 in Ed. destruct (aggregate_bytes stats) as [up down]. cbn [fst snd] in *.
  set (old := default day_zero (obj_get (tf_buckets s) today)) in *. set (day := add_day _ _ _) in *.
  assert (Hlen : forall v w, length (obj_insert (tf_buckets s) today v) = length (obj_insert (tf_buckets s) today w)).
  { intros v w. clear. induction (tf_buckets s) as [|[k x] l IH]; [done|]. cbn. case_bool_decide; [done|]. destruct (key_ltb today k); [done|]. cbn. by rewrite IH. }
  rewrite (Hlen _ day_zero) in E. replace (length (obj_insert (tf_buckets s) today day_zero) - Z.to_nat (tf_days s))%nat with 0%nat in E by lia. rewrite drop_0 in E.
  assert (Hold : td_up old <= tf_last_up s /\ td_down old <= tf_last_down s /\ 0 <= td_up old /\ 0 <= td_down old).
  { rewrite <-Hu, <-Hdn. split_and!.
    - apply total_get; [|done]. intros p Hp. rewrite Forall_forall in Hf. apply Hf, Hp.
    - apply total_get; [|done]. intros p Hp. rewrite Forall_forall in Hf. apply Hf, Hp.
    - unfold old. destruct (obj_get _ _) as [d|] eqn:Eg; [|done]. by apply (get_forall (fun d => 0 <= td_up d /\ 0 <= td_down d)) in Eg as [].
    - unfold old. destruct (obj_get _ _) as [d|] eqn:Eg; [|done]. by apply (get_forall (fun d => 0 <= td_up d /\ 0 <= td_down d)) in Eg as []. }
  assert (Hday : td_up day = td_up old + (up - tf_last_up s) /\ td_down day = td_down old + (down - tf_last_down s)).
  { unfold day, add_day. cbn [td_up td_down]. clear -Hold Lu Ld Bu Bd. unfold is_u64, u64_sat_add, sat_sub in *. lia. }
  unfold accounted. rewrite E, Eu, Ed, !total_insert by done. fold old. split_and!; [lia|lia|].
  apply (insert_forall (fun d => 0 <= td_up d /\ 0 <= td_down d)); [done|lia].
Qed.

Fixpoint steady (s : TrafficState) (obs : list (text * Z * Value)) : Prop :=
  match obs with
  | [] => True
  | (today, now, stats) :: obs =>
      tf_last_up s <= (aggregate_bytes stats).1 /\ tf_last_down s <= (aggregate_bytes stats).2 /\
      zlen (obj_insert (tf_buckets s) today day_zero) <= tf_days s /\ steady (observe today now stats s).1 obs
  end.
Definition observe_all (obs : list (text * Z * Value)) (s : TrafficState) : TrafficState :=
  foldl (fun s o => (observe o.1.1 o.1.2 o.2 s).1) s obs.

(** Over any run of observations the buckets add up to the counters.  Starting with
    nothing, while the counters do not decrease and the days seen fit the window, the
    sum of the daily bytes in each direction is the last counter read: no byte is lost
    or counted twice, across days, restarts of the flush timer and both modes, and the
    64-bit additions never saturate. *)
Theorem traffic_total_exact obs cfg file client_file today now :
  let s := traffic_new cfg file client_file today now [] [] in
  steady s obs ->
  total td_up (tf_buckets (observe_all obs s)) = tf_last_up (observe_all obs s) /\
  total td_down (tf_buckets (observe_all obs s)) = tf_last_down (observe_all obs s).
Proof.
  intros s Hst. assert (Hok : traffic_ok s) by (apply trim_ok; [by apply clamp_range|by repeat split]).
  assert (Hac : accounted s) by (by repeat split).
  assert (Hall : accounted (observe_all obs s)); [|by destruct Hall as (? & ? & _)].
  generalize dependent s. induction obs as [|[[day t] stats] obs IH]; intros s Hst Hok Hac; [done|]. destruct Hst as (H1 & H2 & H3 & H4).
  unfold observe_all. cbn [foldl]. apply IH; [done| |by apply observe_accounted]. by apply observe_ok.
Qed.
Lemma traffic_total_exact_witness :
  let s := traffic_new (VObject []) [] [] [] 0 [] [] in
  let stats n := VObject [(word "global_rx_bytes", VNumber (n + 1)); (word "global_tx_bytes", VNumber n)] in
  let obs := [(word "2026-01-01", 0, stats 10); (word "2026-01-02", 5, stats 25)] in
  tf_buckets (observe_all obs s) = [(word "2026-01-01", {| td_up := 10; td_down := 11 |}); (word "2026-01-02", {| td_up := 15; td_down := 15 |})] /\
  total td_up (tf_buckets (observe_all obs s)) = 25.
Proof.
  intros s stats obs. split; [reflexivity|].
  destruct (traffic_total_exact obs (VObject []) [] [] [] 0) as [H _]; [|exact H]. vm_compute. intuition congruence.
Defined.
