(* ===== verification/Config.v ===== *)
(** * The configuration: [src/src/main.rs]

    Decoding of the JSON value into [ConfigFile] as the derived deserializer does it
    (unknown keys refused, missing ones defaulted, an array taken by position), the
    defaults of [load_config_file], and [validate_args].  The text of the file is parsed
    elsewhere: the model starts at the JSON value.  The file system answers what
    [metadata] would, IPv6 texts are the parameter [v6] of the address pool. *)
From S2P Require Import Prelude Protocol Utils Crypto Fec Pool Brutal PeerInfo Policy Client WebState.

(** ** The structures of the file *)

Record WebConfigFile := { wc_addr : text; wc_auth : text; wc_bind : text; wc_cert : text; wc_key : text }.
Record ServerConfigFile := {
  sc_v4_cidr : text; sc_v6_cidr : text; sc_cert : text; sc_key : text;
  sc_max_sessions : Z; sc_fec_group_min : Z; sc_fec_group_max : Z }.
Record ClientConfigFile := {
  cc_interface_manager : text; cc_req_v4 : text; cc_req_v6 : text; cc_sni : text; cc_insecure : bool;
  cc_cert_sha256 : text; cc_fwmark : Z; cc_fwmark_priority : Z; cc_extra_routes : list text;
  cc_source_rules : list SourceRule; cc_conns : Z; cc_fec : bool; cc_fec_group : Z }.
Record ConfigFile := {
  cf_mode : text; cf_psk : text; cf_tap : text; cf_mac : text; cf_addr : text; cf_log_level : text;
  cf_up : text; cf_down : text; cf_encrypt : bool; cf_enc_algo : text; cf_min_enc : text; cf_pad_mode : text;
  cf_socks5 : text; cf_brutal : bool; cf_brutal_up : Z; cf_brutal_down : Z; cf_traffic_days : Z;
  cf_traffic_file : text; cf_workers : Z; cf_mtu : Z;
  cf_web : WebConfigFile; cf_server : ServerConfigFile; cf_client : ClientConfigFile }.

Record Args := {
  ar_mode : text; ar_psk : text; ar_tap : text; ar_mac : text; ar_addr : text; ar_loglevel : text;
  ar_up : text; ar_down : text; ar_v4cidr : text; ar_v6cidr : text; ar_cert : text; ar_key : text;
  ar_req_v4 : text; ar_req_v6 : text; ar_sni : text; ar_insecure : bool; ar_cert_sha256 : text;
  ar_interface_manager : text; ar_fwmark : Z; ar_fwmark_priority : Z; ar_extra_routes : list text;
  ar_source_rules : list SourceRule; ar_brutal : bool; ar_brutal_up : Z; ar_brutal_down : Z;
  ar_traffic_days : Z; ar_traffic_file : text; ar_conns : Z; ar_fec : bool; ar_fec_group : Z;
  ar_web : text; ar_web_auth : text; ar_web_bind : text; ar_web_cert : text; ar_web_key : text;
  ar_encrypt : bool; ar_enc_algo : text; ar_encrypt_present : bool; ar_socks5 : text; ar_workers : Z;
  ar_mtu : Z; ar_pad_mode : text; ar_min_enc : text; ar_max_sessions : Z;
  ar_fec_group_min : Z; ar_fec_group_max : Z }.

(** ** Decoding *)

(** The members of a structure: by name with unknown names refused, or by position. *)
Fixpoint position (k : text) (names : list text) : option nat :=
  match names with
  | [] => None
  | n :: names => if bool_decide (n = k) then Some 0%nat else S <$> position k names
  end.
Definition struct_get (deny : bool) (names : list text) (v : Value) : option (text -> option Value) :=
  match v with
  | VObject m => if deny && negb (forallb (fun p => bool_decide (p.1 ∈ names)) m) then None else Some (obj_get m)
  | VArray l => if (length l <=? length names)%nat then Some (fun k => i ← position k names; l !! i) else None
  | _ => None
  end.

Definition de_string (v : Value) : option text := as_str v.
Definition de_bool (v : Value) : option bool := match v with VBool b => Some b | _ => None end.
Definition de_int (lo hi : Z) (v : Value) : option Z :=
  match v with VNumber n => if (lo <=? n) && (n <=? hi) then Some n else None | _ => None end.
Definition I32_MIN : Z := -2147483648.
Definition I32_MAX : Z := 2147483647.
Definition I64_MIN : Z := -9223372036854775808.
Definition de_i32 := de_int I32_MIN I32_MAX.
Definition de_i64 := de_int I64_MIN I64_MAX.
Definition de_u64 := de_int 0 U64_MAX.
Definition de_u32 := de_int 0 U32_MAX.
Definition de_u16 := de_int 0 U16_MAX.
Definition de_list {A} (de : Value -> option A) (v : Value) : option (list A) :=
  match v with VArray l => mapM de l | _ => None end.
(** [#[serde(default)]] *)
Definition or_default {A} (de : Value -> option A) (d : A) (o : option Value) : option A :=
  match o with None => Some d | Some v => de v end.

Definition str_field := or_default de_string [].
Definition bool_field := or_default de_bool false.

Definition SOURCE_RULE_FIELDS : list text := word <$> ["from"; "table"; "priority"; "routes"]%string.
Definition de_source_rule (v : Value) : option SourceRule :=
  g ← struct_get false SOURCE_RULE_FIELDS v;
  from ← g (word "from") ≫= de_string;
  table ← g (word "table") ≫= de_u16;
  priority ← or_default de_u32 0 (g (word "priority"));
  routes ← or_default (de_list de_string) [] (g (word "routes"));
  Some {| sr_from := from; sr_table := table; sr_priority := priority; sr_routes := routes |}.

Definition WEB_FIELDS : list text := word <$> ["addr"; "auth"; "bind"; "cert"; "key"]%string.
Definition de_web (v : Value) : option WebConfigFile :=
  g ← struct_get true WEB_FIELDS v;
  addr ← str_field (g (word "addr")); auth ← str_field (g (word "auth")); bind ← str_field (g (word "bind"));
  cert ← str_field (g (word "cert")); key ← str_field (g (word "key"));
  Some {| wc_addr := addr; wc_auth := auth; wc_bind := bind; wc_cert := cert; wc_key := key |}.
Definition web_default : WebConfigFile := {| wc_addr := []; wc_auth := []; wc_bind := []; wc_cert := []; wc_key := [] |}.

Definition SERVER_FIELDS : list text :=
  word <$> ["v4_cidr"; "v6_cidr"; "cert"; "key"; "max_sessions"; "fec_group_min"; "fec_group_max"]%string.
Definition de_server (v : Value) : option ServerConfigFile :=
  g ← struct_get true SERVER_FIELDS v;
  v4 ← str_field (g (word "v4_cidr")); v6 ← str_field (g (word "v6_cidr"));
  cert ← str_field (g (word "cert")); key ← str_field (g (word "key"));
  max_sessions ← or_default de_i32 0 (g (word "max_sessions"));
  fec_min ← or_default de_i64 0 (g (word "fec_group_min")); fec_max ← or_default de_i64 0 (g (word "fec_group_max"));
  Some {| sc_v4_cidr := v4; sc_v6_cidr := v6; sc_cert := cert; sc_key := key; sc_max_sessions := max_sessions;
          sc_fec_group_min := fec_min; sc_fec_group_max := fec_max |}.
Definition server_default : ServerConfigFile :=
  {| sc_v4_cidr := []; sc_v6_cidr := []; sc_cert := []; sc_key := []; sc_max_sessions := 0; sc_fec_group_min := 0; sc_fec_group_max := 0 |}.

Definition CLIENT_FIELDS : list text :=
  word <$> ["interface_manager"; "req_v4"; "req_v6"; "sni"; "insecure"; "cert_sha256"; "fwmark"; "fwmark_priority";
            "extra_routes"; "source_rules"; "conns"; "fec"; "fec_group"]%string.
Definition de_client (v : Value) : option ClientConfigFile :=
  g ← struct_get true CLIENT_FIELDS v;
  manager ← str_field (g (word "interface_manager"));
  req_v4 ← str_field (g (word "req_v4")); req_v6 ← str_field (g (word "req_v6")); sni ← str_field (g (word "sni"));
  insecure ← bool_field (g (word "insecure")); cert_sha256 ← str_field (g (word "cert_sha256"));
  fwmark ← or_default de_i32 0 (g (word "fwmark")); priority ← or_default de_i64 0 (g (word "fwmark_priority"));
  extra ← or_default (de_list de_string) [] (g (word "extra_routes"));
  rules ← or_default (de_list de_source_rule) [] (g (word "source_rules"));
  conns ← or_default de_i32 0 (g (word "conns")); fec ← bool_field (g (word "fec"));
  fec_group ← or_default de_i64 0 (g (word "fec_group"));
  Some {| cc_interface_manager := manager; cc_req_v4 := req_v4; cc_req_v6 := req_v6; cc_sni := sni; cc_insecure := insecure;
          cc_cert_sha256 := cert_sha256; cc_fwmark := fwmark; cc_fwmark_priority := priority; cc_extra_routes := extra;
          cc_source_rules := rules; cc_conns := conns; cc_fec := fec; cc_fec_group := fec_group |}.
Definition client_default : ClientConfigFile :=
  {| cc_interface_manager := []; cc_req_v4 := []; cc_req_v6 := []; cc_sni := []; cc_insecure := false; cc_cert_sha256 := [];
     cc_fwmark := 0; cc_fwmark_priority := 0; cc_extra_routes := []; cc_source_rules := []; cc_conns := 0; cc_fec := false; cc_fec_group := 0 |}.

Definition CONFIG_FIELDS : list text :=
  word <$> ["mode"; "psk"; "tap"; "mac"; "addr"; "log_level"; "up"; "down"; "encrypt"; "enc_algo"; "min_enc"; "pad_mode";
            "socks5"; "brutal"; "brutal_up"; "brutal_down"; "traffic_days"; "traffic_file"; "workers"; "mtu";
            "web"; "server"; "client"]%string.
Definition de_config (v : Value) : option ConfigFile :=
  g ← struct_get true CONFIG_FIELDS v;
  mode ← str_field (g (word "mode")); psk ← str_field (g (word "psk")); tap ← str_field (g (word "tap"));
  mac ← str_field (g (word "mac")); addr ← str_field (g (word "addr")); log_level ← str_field (g (word "log_level"));
  up ← str_field (g (word "up")); down ← str_field (g (word "down")); encrypt ← bool_field (g (word "encrypt"));
  enc_algo ← str_field (g (word "enc_algo")); min_enc ← str_field (g (word "min_enc")); pad_mode ← str_field (g (word "pad_mode"));
  socks5 ← str_field (g (word "socks5")); brutal ← bool_field (g (word "brutal"));
  brutal_up ← or_default de_u64 0 (g (word "brutal_up")); brutal_down ← or_default de_u64 0 (g (word "brutal_down"));
  days ← or_default de_i64 0 (g (word "traffic_days")); file ← str_field (g (word "traffic_file"));
  workers ← or_default de_i32 0 (g (word "workers")); mtu ← or_default de_u16 0 (g (word "mtu"));
  web ← or_default de_web web_default (g (word "web")); server ← or_default de_server server_default (g (word "server"));
  client ← or_default de_client client_default (g (word "client"));
  Some {| cf_mode := mode; cf_psk := psk; cf_tap := tap; cf_mac := mac; cf_addr := addr; cf_log_level := log_level;
          cf_up := up; cf_down := down; cf_encrypt := encrypt; cf_enc_algo := enc_algo; cf_min_enc := min_enc;
          cf_pad_mode := pad_mode; cf_socks5 := socks5; cf_brutal := brutal; cf_brutal_up := brutal_up; cf_brutal_down := brutal_down;
          cf_traffic_days := days; cf_traffic_file := file; cf_workers := workers; cf_mtu := mtu;
          cf_web := web; cf_server := server; cf_client := client |}.

(** ** Paths, as [std::path] takes them apart on Unix *)

(** Trailing separators and [.] components do not count. *)
Fixpoint trim_sep (r : text) : text :=
  match r with
  | 47 :: ((_ :: _) as r') => trim_sep r'
  | 46 :: ((47 :: _) as r') => trim_sep r'
  | _ => r
  end.
Fixpoint drop_name (r : text) : text :=
  match r with [] => [] | c :: r' => if c =? SLASH then r else drop_name r' end.
(** [Path::parent]; the path is reversed to look at its end. *)
Definition path_parent (path : text) : option text :=
  match trim_sep (rev path) with
  | [] | [47] => None
  | r => Some (rev (trim_sep (drop_name r)))
  end.
(** [Path::join] with a relative name. *)
Definition path_join (dir name : text) : text :=
  match dir with
  | [] => name
  | _ => if bool_decide (last dir = Some SLASH) then dir ++ name else dir ++ [SLASH] ++ name
  end.
Definition TRAFFIC_FILE_NAME : text := word "tlsvpn-traffic.json".
Definition default_traffic_file (path : text) : text := path_join (default [46] (path_parent path)) TRAFFIC_FILE_NAME.

Example paths :
  default_traffic_file (word "config.json") = word "tlsvpn-traffic.json" /\
  default_traffic_file (word "/etc/tlsvpn/config.json") = word "/etc/tlsvpn/tlsvpn-traffic.json" /\
  default_traffic_file (word "./a//c.json") = word "./a/tlsvpn-traffic.json" /\
  path_parent (word "/.") = None /\ path_parent (word "/c.json") = Some (word "/").
Proof. vm_compute. done. Qed.

(** ** Errors *)

Inductive config_error :=
| CannotRead | BadJson | BadShape | Routing (e : routing_error)
| HookControlChars (up : bool) | HookNotAbsolute (up : bool)
| BrutalTooHigh | ConnsTooMany | TrafficDaysRange | ModeMissing | ModeUnknown | AddrMissing
| PskMissing | PskPlaceholder | BadLogLevel | BadMac | BadWebBind | BadWebAuth | WebAuthPlaceholder | WebAuthMissing
| WebKeyMissing | WebCertMissing | NotAFile (path : text) | Unreadable (path : text) | WebTlsMissing
| BadV4Cidr | BadV6Cidr | ServerCertMissing | ServerKeyMissing | BadPadMode | BadEncAlgo | EncAlgoNeedsEncrypt
| BadMinEnc | MinEncNeedsEncrypt | InterfaceManager | ConnsTooFew | FecGroupRange | FwmarkNegative | FwmarkPriorityRange
| CertSha256 | MaxSessionsRange | FecMinRange | FecMaxRange | FecMinAboveMax.

(** ** Loading *)

Definition or_word (s : text) (d : string) : text := match s with [] => word d | _ => s end.
Definition or_num (n d : Z) : Z := if n =? 0 then d else n.
Definition is_mode (s : text) (m : string) : bool := bool_decide (s = word m).

Section loading.
Context (v6 : family).

(** [Args] from the structures; [encrypt_present] is whether the file sets [encrypt]. *)
Definition build_args (path : text) (encrypt_present : bool) (cfg : ConfigFile) : Args :=
  let web := cf_web cfg in let server := cf_server cfg in let client := cf_client cfg in
  let fec_group := normalize_fec_group_bounds (sc_fec_group_min server) (sc_fec_group_max server) in
  let encrypt := if encrypt_present then cf_encrypt cfg else true in
  {| ar_mode := cf_mode cfg; ar_psk := cf_psk cfg; ar_tap := or_word (cf_tap cfg) "tap0"; ar_mac := cf_mac cfg;
     ar_addr := if is_mode (cf_mode cfg) "server" then or_word (cf_addr cfg) "0.0.0.0:4000" else cf_addr cfg;
     ar_loglevel := or_word (cf_log_level cfg) "info"; ar_up := cf_up cfg; ar_down := cf_down cfg;
     ar_encrypt := encrypt;
     ar_enc_algo := if encrypt then or_word (cf_enc_algo cfg) "gcm256" else cf_enc_algo cfg;
     ar_encrypt_present := encrypt_present; ar_pad_mode := cf_pad_mode cfg;
     ar_min_enc := if encrypt then or_word (cf_min_enc cfg) "gcm" else cf_min_enc cfg;
     ar_socks5 := cf_socks5 cfg; ar_workers := cf_workers cfg; ar_mtu := or_num (cf_mtu cfg) 1500;
     ar_brutal := cf_brutal cfg; ar_brutal_up := or_num (cf_brutal_up cfg) 100; ar_brutal_down := or_num (cf_brutal_down cfg) 500;
     ar_traffic_days := or_num (cf_traffic_days cfg) 30;
     ar_traffic_file := match cf_traffic_file cfg with [] => default_traffic_file path | f => f end;
     ar_web := wc_addr web; ar_web_auth := wc_auth web; ar_web_bind := or_word (wc_bind web) "all";
     ar_web_cert := wc_cert web; ar_web_key := wc_key web;
     ar_v4cidr := or_word (sc_v4_cidr server) "10.0.0.0/24"; ar_v6cidr := or_word (sc_v6_cidr server) "fd00::/64";
     ar_cert := sc_cert server; ar_key := sc_key server; ar_max_sessions := or_num (sc_max_sessions server) 1024;
     ar_fec_group_min := fec_group.1; ar_fec_group_max := fec_group.2;
     ar_req_v4 := cc_req_v4 client; ar_req_v6 := cc_req_v6 client; ar_sni := or_word (cc_sni client) "www.cloudflare.com";
     ar_insecure := cc_insecure client; ar_cert_sha256 := cc_cert_sha256 client;
     ar_interface_manager := or_word (cc_interface_manager client) "self";
     ar_fwmark := cc_fwmark client; ar_fwmark_priority := cc_fwmark_priority client; ar_extra_routes := cc_extra_routes client;
     ar_source_rules := cc_source_rules client; ar_conns := or_num (cc_conns client) 1; ar_fec := cc_fec client;
     ar_fec_group := or_num (cc_fec_group client) 4 |}.

Definition with_source_rules (cfg : ConfigFile) (rules : list SourceRule) : ConfigFile :=
  let c := cf_client cfg in
  {| cf_mode := cf_mode cfg; cf_psk := cf_psk cfg; cf_tap := cf_tap cfg; cf_mac := cf_mac cfg; cf_addr := cf_addr cfg;
     cf_log_level := cf_log_level cfg; cf_up := cf_up cfg; cf_down := cf_down cfg; cf_encrypt := cf_encrypt cfg;
     cf_enc_algo := cf_enc_algo cfg; cf_min_enc := cf_min_enc cfg; cf_pad_mode := cf_pad_mode cfg; cf_socks5 := cf_socks5 cfg;
     cf_brutal := cf_brutal cfg; cf_brutal_up := cf_brutal_up cfg; cf_brutal_down := cf_brutal_down cfg;
     cf_traffic_days := cf_traffic_days cfg; cf_traffic_file := cf_traffic_file cfg; cf_workers := cf_workers cfg; cf_mtu := cf_mtu cfg;
     cf_web := cf_web cfg; cf_server := cf_server cfg;
     cf_client := {| cc_interface_manager := cc_interface_manager c; cc_req_v4 := cc_req_v4 c; cc_req_v6 := cc_req_v6 c; cc_sni := cc_sni c;
       cc_insecure := cc_insecure c; cc_cert_sha256 := cc_cert_sha256 c; cc_fwmark := cc_fwmark c; cc_fwmark_priority := cc_fwmark_priority c;
       cc_extra_routes := cc_extra_routes c; cc_source_rules := rules; cc_conns := cc_conns c; cc_fec := cc_fec c; cc_fec_group := cc_fec_group c |} |}.

Definition encrypt_present (raw : Value) : bool := bool_decide (is_Some (value_get raw (word "encrypt") ≫= de_bool)).

(** From the JSON value on. *)
Definition load_config_value (path : text) (raw_value : Value) : result Args config_error :=
  match de_config raw_value with
  | None => Err BadShape
  | Some cfg =>
      if is_mode (cf_mode cfg) "client" then
        match validate_source_rules v6 (cc_source_rules (cf_client cfg)) with
        | (_, Err e) => Err (Routing e)
        | (rules, Ok _) => Ok (build_args path (encrypt_present raw_value) (with_source_rules cfg rules))
        end
      else Ok (build_args path (encrypt_present raw_value) cfg)
  end.
(** [raw] is what reading the file gave, [parse] the JSON parser. *)
Definition load_config_file (parse : list Z -> option Value) (path : text) (raw : option (list Z)) : result Args config_error :=
  match raw with
  | None => Err CannotRead
  | Some raw => match parse raw with None => Err BadJson | Some v => load_config_value path v end
  end.
End loading.

(** ** Validation *)

(** [SocketAddr::from_str]: the address of a literal [ip:port]. *)
Definition parse_port (s : text) : bool := negb (bool_decide (s = [])) && forallb is_digit s && (digits_value s <=? U16_MAX).
Definition socket_ip (v6 : family) (addr : text) : option ip_addr :=
  match addr with
  | 91 :: rest =>
      match split_once 93 rest with
      | (inner, Some (58 :: port)) =>
          let '(ip, scope) := split_once 37 inner in
          let scope_ok := match scope with None => true | Some s => negb (bool_decide (s = [])) && forallb is_digit s && (digits_value s <=? U32_MAX) end in
          if scope_ok && parse_port port then V6 <$> fam_parse v6 ip else None
      | _ => None
      end
  | _ =>
      match split_once 58 addr with
      | (ip, Some port) => if parse_port port then V4 <$> ipv4_parse ip else None
      | (_, None) => None
      end
  end.
Definition is_localhost (a : ip_addr) : bool := match a with V4 a => a =? 2130706433 | V6 a => a =? 1 end.
Definition web_addr_is_public (v6 : family) (addr : text) : bool :=
  match socket_ip v6 addr with Some a => negb (is_localhost a) | None => false end.

(** What [metadata] answers: [None] an error, [Some b] whether it is a regular file. *)
Definition config_file_readable (fs : text -> option bool) (path : text) : result unit config_error :=
  match fs path with Some true => Ok tt | Some false => Err (NotAFile path) | None => Err (Unreadable path) end.

Definition check (ok : bool) (e : config_error) : result unit config_error := if ok then Ok tt else Err e.
#[local] Notation "'require' ok 'else' e ; k" := (_ <-? check ok e; k) (at level 200, ok at level 99, e at level 99, right associativity).

Definition validate_hook_path (up : bool) (value : text) : result unit config_error :=
  match value with
  | [] => Ok tt
  | c :: _ =>
      require negb (existsb (fun c => (c =? 0) || (c =? 13) || (c =? 10)) value) else HookControlChars up;
      check (c =? SLASH) (HookNotAbsolute up)
  end.

Definition one_of (s : text) (l : list string) : bool := existsb (fun w => bool_decide (s = word w)) l.
Definition PSK_PLACEHOLDERS : list string := ["quic_secret"; "change-me"; "change-me-please"; "replace-with-a-random-secret"]%string.
Definition LOG_LEVELS : list string := ["trace"; "debug"; "info"; "warn"; "error"]%string.
Definition is_empty (s : text) : bool := bool_decide (s = []).
(** [eq_ignore_ascii_case] with a lower-case word. *)
Definition is_word_nocase (s : text) (w : string) : bool := bool_decide (to_ascii_lowercase s = word w).
Definition is_hex (c : Z) : bool := bool_decide (is_Some (hex_val c)).
Definition pad_mode_valid (mode : text) : bool := one_of mode [""; "off"; "bucket"]%string.
Definition in_range (lo hi n : Z) : bool := (lo <=? n) && (n <=? hi).

Section validation.
Context (v6 : family) (fs : text -> option bool).

Definition validate_common (args : Args) : result unit config_error :=
  _ <-? validate_hook_path true (ar_up args);
  _ <-? validate_hook_path false (ar_down args);
  require (ar_brutal_up args <=? MAX_BRUTAL_RATE_MBPS) && (ar_brutal_down args <=? MAX_BRUTAL_RATE_MBPS) else BrutalTooHigh;
  require negb (is_mode (ar_mode args) "client" && (65536 <? ar_conns args)) else ConnsTooMany;
  require (ar_traffic_days args =? 0) || in_range 1 3650 (ar_traffic_days args) else TrafficDaysRange;
  require negb (is_empty (ar_mode args)) else ModeMissing;
  require one_of (ar_mode args) ["server"; "client"]%string else ModeUnknown;
  require negb (is_empty (ar_addr args)) else AddrMissing;
  let psk := to_ascii_lowercase (utf8_trim (ar_psk args)) in
  require negb (is_empty psk) else PskMissing;
  require negb (one_of psk PSK_PLACEHOLDERS) else PskPlaceholder;
  require one_of (to_ascii_lowercase (ar_loglevel args)) LOG_LEVELS else BadLogLevel;
  check (is_empty (ar_mac args) || is_valid_session_mac (ar_mac args)) BadMac.

Definition validate_web (args : Args) : result unit config_error :=
  let auth := ar_web_auth args in
  require one_of (ar_web_bind args) [""; "all"; "tunnel"]%string else BadWebBind;
  require is_empty auth || bool_decide (COLON ∈ auth) else BadWebAuth;
  require negb (is_word_nocase auth "admin:change-me" || is_word_nocase auth "admin:replace-with-a-random-password") else WebAuthPlaceholder;
  require is_empty (ar_web args) || negb (is_empty auth) else WebAuthMissing;
  let has_cert := negb (is_empty (ar_web_cert args)) in
  let has_key := negb (is_empty (ar_web_key args)) in
  require negb (has_cert && negb has_key) else WebKeyMissing;
  require negb (negb has_cert && has_key) else WebCertMissing;
  _ <-? (if has_cert then _ <-? config_file_readable fs (ar_web_cert args); config_file_readable fs (ar_web_key args) else Ok tt);
  check (negb (negb (is_empty (ar_web args)) && is_mode (ar_web_bind args) "all" && web_addr_is_public v6 (ar_web args)
               && (negb has_cert || negb has_key))) WebTlsMissing.

Definition validate_server_net (args : Args) : result unit config_error :=
  if is_mode (ar_mode args) "server" then
    require is_valid_cidr v4_family (ar_v4cidr args) else BadV4Cidr;
    require is_valid_cidr v6 (ar_v6cidr args) else BadV6Cidr;
    require negb (is_empty (ar_cert args) && negb (is_empty (ar_key args))) else ServerCertMissing;
    check (negb (negb (is_empty (ar_cert args)) && is_empty (ar_key args))) ServerKeyMissing
  else Ok tt.

Definition validate_crypto (args : Args) : result unit config_error :=
  require pad_mode_valid (ar_pad_mode args) else BadPadMode;
  require one_of (ar_enc_algo args) [""; "gcm256"; "gcm128"; "chacha20"; "xchacha20"]%string else BadEncAlgo;
  require is_empty (ar_enc_algo args) || ar_encrypt args else EncAlgoNeedsEncrypt;
  require one_of (ar_min_enc args) [""; "any"; "gcm"]%string else BadMinEnc;
  check (is_empty (ar_min_enc args) || ar_encrypt args) MinEncNeedsEncrypt.

Definition validate_client (args : Args) : result unit config_error :=
  if is_mode (ar_mode args) "client" then
    require one_of (ar_interface_manager args) [""; "self"]%string else InterfaceManager;
    require 1 <=? ar_conns args else ConnsTooFew;
    require in_range 2 64 (ar_fec_group args) else FecGroupRange;
    require 0 <=? ar_fwmark args else FwmarkNegative;
    require in_range 0 U32_MAX (ar_fwmark_priority args) else FwmarkPriorityRange;
    _ <-? (match validate_extra_routes v6 (ar_extra_routes args) with Ok _ => Ok tt | Err e => Err (Routing e) end);
    let cleaned := to_ascii_lowercase (filter (fun c => c <> COLON) (ar_cert_sha256 args)) in
    check (is_empty (ar_cert_sha256 args) || ((length cleaned =? 64)%nat && forallb is_hex cleaned)) CertSha256
  else Ok tt.

Definition validate_server_limits (args : Args) : result unit config_error :=
  if is_mode (ar_mode args) "server" then
    require in_range 0 1048576 (ar_max_sessions args) else MaxSessionsRange;
    let '(lo, hi) := normalize_fec_group_bounds (ar_fec_group_min args) (ar_fec_group_max args) in
    require in_range FEC_MIN_GROUP FEC_MAX_GROUP lo else FecMinRange;
    require in_range FEC_MIN_GROUP FEC_MAX_GROUP hi else FecMaxRange;
    check (lo <=? hi) FecMinAboveMax
  else Ok tt.

Definition validate_args (args : Args) : result unit config_error :=
  _ <-? validate_common args;
  _ <-? validate_web args;
  _ <-? validate_server_net args;
  _ <-? validate_crypto args;
  _ <-? validate_client args;
  validate_server_limits args.

(** The document edited in the browser: written beside the configuration, loaded and
    validated like it.  [tmp] is the temporary path; the JSON text reads back as the
    value ([serde_json] prints what it parses). *)
Definition validate_config_value (tmp : text) (value : Value) : result Args config_error :=
  args <-? load_config_value v6 tmp value;
  _ <-? validate_args args;
  Ok args.
End validation.

(** ** Command line *)

Fixpoint parse_config_arg (argv : list text) : option text :=
  match argv with
  | [] => None
  | a :: rest =>
      match strip_prefix (word "--config=") a with
      | Some p => Some p
      | None => if one_of a ["-c"; "--config"]%string then head rest else parse_config_arg rest
      end
  end.

(** The options that have no effect in the chosen mode. *)
Definition ignored_options (args : Args) : list text :=
  let note (b : bool) (s : string) := if b then [word s] else [] in
  if is_mode (ar_mode args) "server" then
    note (negb (is_empty (ar_req_v4 args))) "client.req_v4" ++ note (negb (is_empty (ar_req_v6 args))) "client.req_v6" ++
    note (negb (is_mode (ar_sni args) "www.cloudflare.com")) "client.sni" ++ note (ar_insecure args) "client.insecure" ++
    note (negb (is_empty (ar_cert_sha256 args))) "client.cert_sha256" ++ note (negb (ar_fwmark args =? 0)) "client.fwmark" ++
    note (negb (ar_fwmark_priority args =? 0)) "client.fwmark_priority" ++
    note (negb (bool_decide (ar_extra_routes args = []))) "client.extra_routes" ++
    note (negb (bool_decide (length (ar_source_rules args) = 0%nat))) "client.source_rules" ++
    note (negb (ar_conns args =? 1)) "client.conns" ++ note (ar_fec args) "client.fec" ++ note (negb (ar_fec_group args =? 4)) "client.fec_group"
  else if is_mode (ar_mode args) "client" then
    note (negb (is_mode (ar_v4cidr args) "10.0.0.0/24")) "server.v4_cidr" ++ note (negb (is_mode (ar_v6cidr args) "fd00::/64")) "server.v6_cidr" ++
    note (negb (is_empty (ar_cert args))) "server.cert" ++ note (negb (is_empty (ar_key args))) "server.key" ++
    note (negb (ar_max_sessions args =? 1024)) "server.max_sessions" ++
    note (negb (ar_fec_group_min args =? FEC_MIN_GROUP)) "server.fec_group_min" ++ note (negb (ar_fec_group_max args =? FEC_MAX_GROUP)) "server.fec_group_max"
  else [].
