(* ===== verification/ConfigSpec.v ===== *)
(** * Properties of the configuration *)
From S2P Require Import Prelude Protocol Utils Crypto Fec Pool Brutal PeerInfo Policy Client WebState Config.

(** ** Inversion of a chain of checks *)

Lemma chain_ok {A B E} (r : result A E) (k : A -> result B E) b : result_bind r k = Ok b -> exists a, r = Ok a /\ k a = Ok b.
Proof. destruct r as [a|e]; [|done]. eauto. Qed.
Lemma check_ok b e u : check b e = Ok u -> b = true.
Proof. unfold check. by destruct b. Qed.

Ltac checks H :=
  lazymatch type of H with
  | result_bind (check _ _) _ = Ok _ =>
      let C := fresh "C" in let u := fresh "u" in
      apply chain_ok in H as (u & C & H); apply check_ok in C; cbv beta in H; checks H
  | result_bind _ _ = Ok _ =>
      let C := fresh "C" in let u := fresh "u" in
      apply chain_ok in H as (u & C & H); cbv beta in H; checks H
  | check _ _ = Ok _ => apply check_ok in H
  | _ => idtac
  end.

Lemma one_of_spec s l : one_of s l = true <-> exists w, In w l /\ s = word w.
Proof.
  unfold one_of. rewrite existsb_exists. split; intros (w & Hw & E); exists w; split; try done; by apply bool_decide_eq_true in E || apply bool_decide_eq_true.
Qed.
Lemma is_mode_spec s m : is_mode s m = true <-> s = word m.
Proof. apply bool_decide_eq_true. Qed.
Lemma is_empty_spec s : is_empty s = true <-> s = [].
Proof. apply bool_decide_eq_true. Qed.
Lemma is_empty_false s : is_empty s = false <-> s <> [].
Proof. apply bool_decide_eq_false. Qed.
Lemma in_range_spec lo hi n : in_range lo hi n = true <-> lo <= n <= hi.
Proof. unfold in_range. by rewrite andb_true_iff, !Z.leb_le. Qed.

Section accepted.
Context (v6 : family) (fs : text -> option bool).

(** What an accepted configuration guarantees to the rest of the program. *)
Record common_ok (args : Args) : Prop := {
  co_mode : ar_mode args = word "server" \/ ar_mode args = word "client";
  co_addr : ar_addr args <> [];
  co_psk : utf8_trim (ar_psk args) <> [] /\ ~ exists w, In w PSK_PLACEHOLDERS /\ to_ascii_lowercase (utf8_trim (ar_psk args)) = word w;
  co_mac : ar_mac args = [] \/ is_valid_session_mac (ar_mac args) = true;
  co_hooks : forall h, h = ar_up args \/ h = ar_down args -> h = [] \/ head h = Some SLASH /\ 0 ∉ h /\ 10 ∉ h /\ 13 ∉ h;
  co_brutal : ar_brutal_up args <= MAX_BRUTAL_RATE_MBPS /\ ar_brutal_down args <= MAX_BRUTAL_RATE_MBPS;
  co_days : ar_traffic_days args = 0 \/ 1 <= ar_traffic_days args <= 3650;
  co_level : exists w, In w LOG_LEVELS /\ to_ascii_lowercase (ar_loglevel args) = word w }.

(** The dashboard never listens on a public literal address without credentials and TLS. *)
Record web_ok (args : Args) : Prop := {
  wo_auth : ar_web args <> [] -> exists user pass, ar_web_auth args = user ++ COLON :: pass;
  wo_pair : ar_web_cert args = [] <-> ar_web_key args = [];
  wo_files : ar_web_cert args <> [] -> fs (ar_web_cert args) = Some true /\ fs (ar_web_key args) = Some true;
  wo_public : ar_web args <> [] -> ar_web_bind args = word "all" -> web_addr_is_public v6 (ar_web args) = true ->
    ar_web_cert args <> [] /\ ar_web_key args <> [] }.

(** Inner encryption: off means that no algorithm and no floor is asked for. *)
Record crypto_ok (args : Args) : Prop := {
  ko_pad : ar_pad_mode args = [] \/ ar_pad_mode args = word "off" \/ ar_pad_mode args = word "bucket";
  ko_algo : ar_enc_algo args = [] \/ exists w, In w ["gcm256"; "gcm128"; "chacha20"; "xchacha20"]%string /\ ar_enc_algo args = word w;
  ko_off : ar_encrypt args = false -> ar_enc_algo args = [] /\ ar_min_enc args = [] }.

(** The pool takes the written address and prefix length, not its default. *)
Definition network_used (fam : family) (dflt dbits : Z) (s : text) : Prop :=
  forallb (fun c => negb (is_space c)) s = true ->
  exists a n, fam_parse fam (split_once SLASH s).1 = Some a /\
    match (split_once SLASH s).2 with Some b => parse_u32 b = Some n /\ n <= fam_bits fam | None => n = dbits end /\
    parse_cidr fam dflt dbits s = (Z.land a (net_mask fam n), Z.min n (fam_bits fam)).
Record server_args_ok (args : Args) : Prop := {
  so_v4 : is_valid_cidr v4_family (ar_v4cidr args) = true;
  so_v6 : is_valid_cidr v6 (ar_v6cidr args) = true;
  so_used : forall dflt dbits, network_used v4_family dflt dbits (ar_v4cidr args) /\ network_used v6 dflt dbits (ar_v6cidr args);
  so_pair : ar_cert args = [] <-> ar_key args = [];
  so_sessions : 0 <= ar_max_sessions args <= 1048576;
  so_fec : let '(lo, hi) := normalize_fec_group_bounds (ar_fec_group_min args) (ar_fec_group_max args) in FEC_MIN_GROUP <= lo <= hi /\ hi <= FEC_MAX_GROUP }.
Record client_args_ok (args : Args) : Prop := {
  lo_conns : 1 <= ar_conns args <= 65536;
  lo_fec : 2 <= ar_fec_group args <= 64;
  lo_mark : 0 <= ar_fwmark args /\ 0 <= ar_fwmark_priority args <= U32_MAX;
  lo_routes : validate_extra_routes v6 (ar_extra_routes args) = Ok tt;
  lo_pin : ar_cert_sha256 args = [] \/ length (filter (fun c => c <> COLON) (ar_cert_sha256 args)) = 64%nat }.

Lemma hook_ok up h u : validate_hook_path up h = Ok u -> h = [] \/ head h = Some SLASH /\ 0 ∉ h /\ 10 ∉ h /\ 13 ∉ h.
Proof.
  destruct h as [|c h]; [by left|]. unfold validate_hook_path. intros H. checks H. apply Z.eqb_eq in H as ->. right. split; [done|].
  apply negb_true_iff in C. assert (Hn : forall x, x ∈ SLASH :: h -> x <> 0 /\ x <> 10 /\ x <> 13).
  { intros x Hx. destruct (decide (x = 0 \/ x = 10 \/ x = 13)) as [Hb|]; [|lia]. exfalso.
    assert (existsb (fun c => (c =? 0) || (c =? 13) || (c =? 10)) (SLASH :: h) = true) as Ht; [|congruence].
    apply existsb_exists. exists x. split; [by apply list_elem_of_In|]. rewrite !orb_true_iff, !Z.eqb_eq. lia. }
  split_and!; intros Hx%Hn; lia.
Qed.

Lemma validate_common_ok args u : validate_common args = Ok u -> common_ok args /\ (ar_mode args = word "client" -> ar_conns args <= 65536).
Proof.
  intros H. unfold validate_common in H. checks H. rename C into Hup, C0 into Hdn.
  apply hook_ok in Hup, Hdn. apply andb_true_iff in C1 as [B1%Z.leb_le B2%Z.leb_le]. apply negb_true_iff in C2.
  split; [split|].
  - apply one_of_spec in C5 as (w & [<-|[<-|[]]] & E); auto.
  - by apply negb_true_iff, is_empty_false in C6.
  - apply negb_true_iff, is_empty_false in C7. split; [intros E; by rewrite E in C7|]. intros Hw%one_of_spec. by rewrite Hw in C8.
  - apply orb_true_iff in H as [H%is_empty_spec|H]; auto.
  - intros h [->| ->]; done.
  - done.
  - apply orb_true_iff in C3 as [E%Z.eqb_eq|E%in_range_spec]; auto.
  - by apply one_of_spec in C9.
  - intros Hm%is_mode_spec. rewrite Hm in C2. by apply Z.ltb_ge in C2.
Qed.

Lemma validate_web_ok args u : validate_web v6 fs args = Ok u -> web_ok args.
Proof.
  intros H. unfold validate_web in H. checks H. rename C5 into Hfiles.
  assert (Hpair : ar_web_cert args = [] <-> ar_web_key args = []).
  { rewrite <-!is_empty_spec. destruct (is_empty (ar_web_cert args)), (is_empty (ar_web_key args)); done. }
  split.
  - intros Hw%is_empty_false. rewrite Hw in C2. apply negb_true_iff in C2. rewrite C2 in C0. apply bool_decide_eq_true in C0.
    apply list_elem_of_split in C0 as (l1 & l2 & E). by exists l1, l2.
  - done.
  - intros Hc%is_empty_false. rewrite Hc in Hfiles. cbn [negb] in Hfiles. checks Hfiles.
    unfold config_file_readable in *. repeat case_match; done.
  - intros Hw%is_empty_false Hb%is_mode_spec Hp. rewrite Hw, Hb, Hp in H. cbn in H. apply negb_true_iff, orb_false_iff in H as [H1%negb_false_iff H2%negb_false_iff].
    apply negb_true_iff in H1, H2. by rewrite <-!is_empty_false.
Qed.

Lemma validate_crypto_ok args u : validate_crypto args = Ok u -> crypto_ok args.
Proof.
  intros H. unfold validate_crypto in H. checks H. split.
  - apply one_of_spec in C as (w & [<-|[<-|[<-|[]]]] & E); auto.
  - apply one_of_spec in C0 as (w & [<-|Hw] & E); [by left|]. right. by exists w.
  - intros He. rewrite He, orb_false_r, is_empty_spec in *. done.
Qed.
Lemma validate_server_ok args u u' : ar_mode args = word "server" -> validate_server_net v6 args = Ok u -> validate_server_limits args = Ok u' -> server_args_ok args.
Proof.
  intros Hm%is_mode_spec H1 H2. unfold validate_server_net, validate_server_limits in *. rewrite Hm in H1, H2. checks H1.
  apply chain_ok in H2 as (? & C3%check_ok & H2). apply in_range_spec in C3.
  split; [done|done| | |done|].
  - intros dflt dbits. split; intros Hs; by apply valid_cidr_parsed.
  - rewrite <-!is_empty_spec. destruct (is_empty (ar_cert args)), (is_empty (ar_key args)); done.
  - destruct (normalize_fec_group_bounds _ _) as [lo hi]. checks H2. apply in_range_spec in C2, C4. apply Z.leb_le in H2. lia.
Qed.
Lemma length_lower s : length (to_ascii_lowercase s) = length s.
Proof. apply length_fmap. Qed.
Lemma validate_client_ok args u : ar_mode args = word "client" -> ar_conns args <= 65536 -> validate_client v6 args = Ok u -> client_args_ok args.
Proof.
  intros Hm%is_mode_spec Hc H. unfold validate_client in H. rewrite Hm in H. checks H.
  apply Z.leb_le in C0. apply in_range_spec in C1, C3. apply Z.leb_le in C2. split; [lia|done|lia| |].
  - unfold validate_extra_routes in *. by destruct (validate_routes _ _ _) as [[]|].
  - apply orb_true_iff in H as [H%is_empty_spec|H]; [by left|]. apply andb_true_iff in H as [H%Nat.eqb_eq _]. rewrite length_lower in H. by right.
Qed.

Ltac opt_binds H := repeat (let x := fresh "x" in let Hx := fresh "Hx" in apply bind_Some in H as (x & Hx & H)).

Lemma de_int_range lo hi v n : de_int lo hi v = Some n -> lo <= n <= hi.
Proof. destruct v; try done. cbn. destruct (lo <=? n0) eqn:E1, (n0 <=? hi) eqn:E2; try done. intros [= <-]. lia. Qed.

(** The members an accepted value has. *)
Lemma de_config_facts raw cfg : de_config raw = Some cfg ->
  0 <= cf_mtu cfg <= U16_MAX /\ (forall b, value_get raw (word "encrypt") ≫= de_bool = Some b -> cf_encrypt cfg = b).
Proof.
  unfold de_config. intros H. opt_binds H. injection H as <-. cbn [cf_mtu cf_encrypt]. split.
  - destruct (x (word "mtu")) as [v|]; cbn in Hx19; [by apply de_int_range in Hx19|]. injection Hx19 as <-. unfold U16_MAX. lia.
  - intros b Hb. destruct raw as [| | | | | |m]; try done. unfold struct_get in Hx. destruct (true && _); [done|]. injection Hx as <-.
    cbn [value_get] in Hb. destruct (obj_get m (word "encrypt")) as [v|]; [|discriminate Hb]. change (de_bool v = Some b) in Hb. change (de_bool v = Some x8) in Hx8. congruence.
Qed.

Lemma load_facts tmp raw args : load_config_value v6 tmp raw = Ok args ->
  exists cfg, de_config raw = Some cfg /\
    (ar_mode args = word "client" -> exists rules, validate_source_rules v6 rules = (ar_source_rules args, Ok tt)) /\
    ar_mtu args = or_num (cf_mtu cfg) 1500 /\
    ar_encrypt args = (if encrypt_present raw then cf_encrypt cfg else true) /\
    (ar_encrypt args = true -> ar_enc_algo args <> [] /\ ar_min_enc args <> []) /\
    ar_max_sessions args <> 0 /\ ar_traffic_days args <> 0.
Proof.
  unfold load_config_value. destruct (de_config raw) as [cfg|] eqn:E; [|done]. intros H. exists cfg. split; [done|].
  assert (Hw : forall s w, w <> EmptyString -> or_word s w <> []) by (intros [] [] Hne; done).
  assert (Hn : forall n d, d <> 0 -> or_num n d <> 0) by (intros n d Hd; unfold or_num; by destruct (Z.eqb_spec n 0)).
  destruct (is_mode (cf_mode cfg) "client") eqn:Em.
  - destruct (validate_source_rules v6 _) as [rules [[]|]] eqn:Er; [|done]. injection H as <-. unfold build_args.
    cbn [ar_mode ar_source_rules ar_mtu ar_encrypt ar_enc_algo ar_min_enc ar_max_sessions ar_traffic_days with_source_rules cf_client cf_mode cf_mtu cf_encrypt cc_source_rules]. split; [intros _; by eexists|]. split_and!; try done; [|by apply Hn..].
    intros ->. split; by apply Hw.
  - injection H as <-. unfold build_args. cbn [ar_mode ar_source_rules ar_mtu ar_encrypt ar_enc_algo ar_min_enc ar_max_sessions ar_traffic_days with_source_rules cf_client cf_mode cf_mtu cf_encrypt cc_source_rules]. split_and!; try done; [|..|by apply Hn|by apply Hn].
    + intros Hc%is_mode_spec. congruence.
    + intros ->. split; by apply Hw.
Qed.

(** C30: An accepted configuration is safe to run.  Every document the loader and the
    validator accept, at start-up or from the browser, has a known mode, an address and
    a key that is no placeholder; hooks are absolute paths; a dashboard has credentials,
    and TLS files when it binds all interfaces at an address written as an IP literal
    other than 127.0.0.1 and ::1 (a host name asks for none, [host_name_needs_no_tls]
    below); inner encryption is off
    only if the document says [encrypt: false], and then no algorithm is asked for; a
    server has networks that [is_valid_cidr] accepts and that are, written without white
    space, the ones the address pool uses (with white space the default may take their
    place, [valid_cidr_is_honoured]), FEC bounds inside the protocol's and a positive
    session limit; a client has 1 to 65536 connections and routes and rules that parse. *)
Theorem accepted_config_sound tmp raw args :
  validate_config_value v6 fs tmp raw = Ok args ->
  common_ok args /\ web_ok args /\ crypto_ok args /\
  1 <= ar_mtu args <= 65535 /\ 1 <= ar_traffic_days args <= 3650 /\
  (ar_encrypt args = false -> value_get raw (word "encrypt") = Some (VBool false)) /\
  (ar_encrypt args = true -> ar_enc_algo args <> []) /\
  (ar_mode args = word "server" -> server_args_ok args /\ 1 <= ar_max_sessions args) /\
  (ar_mode args = word "client" -> client_args_ok args /\ exists rules, validate_source_rules v6 rules = (ar_source_rules args, Ok tt)).
Proof.
  unfold validate_config_value. intros H. apply chain_ok in H as (a & Hload & H). apply chain_ok in H as (u & Hv & [= ->]).
  destruct (load_facts _ _ _ Hload) as (cfg & Hde & Hrules & Hmtu & Henc & Halgo & Hmax & Hdays).
  destruct (de_config_facts _ _ Hde) as [Hr Hb]. unfold validate_args in Hv. checks Hv.
  destruct (validate_common_ok _ _ C) as [Hco Hcl].
  split; [done|]. split; [by eapply validate_web_ok|]. split; [by eapply validate_crypto_ok|]. split_and!.
  - rewrite Hmtu. unfold or_num. unfold U16_MAX in Hr. destruct (Z.eqb_spec (cf_mtu cfg) 0); lia.
  - rewrite Hmtu. unfold or_num. unfold U16_MAX in Hr. destruct (Z.eqb_spec (cf_mtu cfg) 0); lia.
  - destruct (co_days _ Hco) as [|]; lia.
  - destruct (co_days _ Hco) as [|]; lia.
  - intros Hf. rewrite Hf in Henc. unfold encrypt_present in Henc. case_bool_decide as Hs; [|done]. destruct Hs as [b Hs].
    rewrite (Hb b Hs) in Henc. subst b. destruct (value_get raw (word "encrypt")) as [[]|]; try done. cbn in Hs. congruence.
  - intros Ht. by apply Halgo.
  - intros Hm. assert (Hs : server_args_ok args) by (by eapply validate_server_ok). split; [done|]. pose proof (so_sessions _ Hs). lia.
  - intros Hm. split; [|by apply Hrules]. eapply validate_client_ok; eauto.
Qed.

(** A misspelt option is an error, not a silent default: a document with a key
    outside the known ones, at the top or in one of its sections, is refused. *)
Theorem unknown_option_refused tmp m k v :
  k ∉ CONFIG_FIELDS -> (k, v) ∈ m -> validate_config_value v6 fs tmp (VObject m) = Err BadShape.
Proof.
  intros Hk Hin. unfold validate_config_value, load_config_value. assert (E : de_config (VObject m) = None); [|by rewrite E].
  unfold de_config, struct_get. assert (Hf : forallb (fun p => bool_decide (p.1 ∈ CONFIG_FIELDS)) m = false); [|by rewrite Hf].
  apply not_true_iff_false. intros Ht. rewrite forallb_forall in Ht. apply list_elem_of_In, Ht, bool_decide_eq_true in Hin. done.
Qed.
End accepted.

(** ** Defaults *)

(** A configuration with the defaults of its mode written out. *)
Definition spelled_out (path : text) (cfg : ConfigFile) : ConfigFile :=
  let a := build_args path true cfg in
  {| cf_mode := ar_mode a; cf_psk := ar_psk a; cf_tap := ar_tap a; cf_mac := ar_mac a; cf_addr := ar_addr a; cf_log_level := ar_loglevel a;
     cf_up := ar_up a; cf_down := ar_down a; cf_encrypt := ar_encrypt a; cf_enc_algo := ar_enc_algo a; cf_min_enc := ar_min_enc a;
     cf_pad_mode := ar_pad_mode a; cf_socks5 := ar_socks5 a; cf_brutal := ar_brutal a; cf_brutal_up := ar_brutal_up a;
     cf_brutal_down := ar_brutal_down a; cf_traffic_days := ar_traffic_days a; cf_traffic_file := ar_traffic_file a;
     cf_workers := ar_workers a; cf_mtu := ar_mtu a;
     cf_web := {| wc_addr := ar_web a; wc_auth := ar_web_auth a; wc_bind := ar_web_bind a; wc_cert := ar_web_cert a; wc_key := ar_web_key a |};
     cf_server := {| sc_v4_cidr := ar_v4cidr a; sc_v6_cidr := ar_v6cidr a; sc_cert := ar_cert a; sc_key := ar_key a;
       sc_max_sessions := ar_max_sessions a; sc_fec_group_min := ar_fec_group_min a; sc_fec_group_max := ar_fec_group_max a |};
     cf_client := {| cc_interface_manager := ar_interface_manager a; cc_req_v4 := ar_req_v4 a; cc_req_v6 := ar_req_v6 a; cc_sni := ar_sni a;
       cc_insecure := ar_insecure a; cc_cert_sha256 := ar_cert_sha256 a; cc_fwmark := ar_fwmark a; cc_fwmark_priority := ar_fwmark_priority a;
       cc_extra_routes := ar_extra_routes a; cc_source_rules := ar_source_rules a; cc_conns := ar_conns a; cc_fec := ar_fec a;
       cc_fec_group := ar_fec_group a |} |}.

Lemma or_word_twice s w : or_word (or_word s w) w = or_word s w.
Proof. unfold or_word. destruct s; [|done]. by destruct (word w) eqn:E. Qed.
Lemma or_num_twice n d : or_num (or_num n d) d = or_num n d.
Proof. unfold or_num. destruct (Z.eqb_spec n 0) as [->|Hn]; [by destruct (Z.eqb_spec d 0)|]. by rewrite (proj2 (Z.eqb_neq _ _) Hn). Qed.

(** Writing out the defaults changes nothing: the arguments built from a configuration
    in which every default is spelled out are those of the original. *)
Theorem defaults_are_transparent path cfg : build_args path true (spelled_out path cfg) = build_args path true cfg.
Proof.
  unfold build_args, spelled_out, build_args.
  assert (Ht : forall f, match match f with [] => default_traffic_file path | c :: f' => c :: f' end with
      [] => default_traffic_file path | c :: f' => c :: f' end = match f with [] => default_traffic_file path | c :: f' => c :: f' end).
  { intros []; [|done]. by destruct (default_traffic_file path). }
  assert (Hf : forall lo hi, normalize_fec_group_bounds (normalize_fec_group_bounds lo hi).1 (normalize_fec_group_bounds lo hi).2 = normalize_fec_group_bounds lo hi).
  { intros lo hi. unfold normalize_fec_group_bounds. destruct (Z.eqb_spec lo 0), (Z.eqb_spec hi 0); cbn [fst snd]; case_bools; done. }
  cbn [ar_mode ar_psk ar_tap ar_mac ar_addr ar_loglevel ar_up ar_down ar_v4cidr ar_v6cidr ar_cert ar_key ar_req_v4 ar_req_v6 ar_sni ar_insecure
    ar_cert_sha256 ar_interface_manager ar_fwmark ar_fwmark_priority ar_extra_routes ar_source_rules ar_brutal ar_brutal_up ar_brutal_down
    ar_traffic_days ar_traffic_file ar_conns ar_fec ar_fec_group ar_web ar_web_auth ar_web_bind ar_web_cert ar_web_key ar_encrypt ar_enc_algo
    ar_encrypt_present ar_socks5 ar_workers ar_mtu ar_pad_mode ar_min_enc ar_max_sessions ar_fec_group_min ar_fec_group_max
    cf_mode cf_psk cf_tap cf_mac cf_addr cf_log_level cf_up cf_down cf_encrypt cf_enc_algo cf_min_enc cf_pad_mode cf_socks5 cf_brutal
    cf_brutal_up cf_brutal_down cf_traffic_days cf_traffic_file cf_workers cf_mtu cf_web cf_server cf_client
    wc_addr wc_auth wc_bind wc_cert wc_key sc_v4_cidr sc_v6_cidr sc_cert sc_key sc_max_sessions sc_fec_group_min sc_fec_group_max
    cc_interface_manager cc_req_v4 cc_req_v6 cc_sni cc_insecure cc_cert_sha256 cc_fwmark cc_fwmark_priority cc_extra_routes cc_source_rules
    cc_conns cc_fec cc_fec_group].
  rewrite Hf, !or_word_twice, !or_num_twice, Ht.
  destruct (is_mode (cf_mode cfg) "server"), (cf_encrypt cfg); rewrite ?or_word_twice; done.
Qed.

(** ** Examples *)

Definition demo_fs (p : text) : option bool := if one_of p ["/c.pem"; "/k.pem"]%string then Some true else None.
Definition server_doc : Value := VObject
  [(word "mode", VString (word "server")); (word "psk", VString (word "a long random secret"));
   (word "server", VObject [(word "max_sessions", VNumber 16); (word "v6_cidr", VString (word "x/64"))]);
   (word "web", VObject [(word "addr", VString (word "0.0.0.0:8080")); (word "auth", VString (word "admin:s3cret"));
                         (word "cert", VString (word "/c.pem")); (word "key", VString (word "/k.pem"))])].
Definition demo_v6 : family := {| fam_bits := 128; fam_print _ := word "x"; fam_parse s := if bool_decide (s = word "x") then Some 5 else None |}.

Lemma accepted_config_sound_witness :
  exists args, validate_config_value demo_v6 demo_fs (word "/etc/c.json") server_doc = Ok args /\ web_ok demo_v6 demo_fs args /\ ar_web_cert args = word "/c.pem".
Proof.
  assert (H : exists args, validate_config_value demo_v6 demo_fs (word "/etc/c.json") server_doc = Ok args) by (eexists; vm_compute; reflexivity).
  destruct H as [args H]. exists args. split; [exact H|]. destruct (accepted_config_sound _ _ _ _ _ H) as (_ & Hw & _). split; [exact Hw|].
  assert (E : match validate_config_value demo_v6 demo_fs (word "/etc/c.json") server_doc with Ok a => ar_web_cert a | Err _ => [] end = word "/c.pem") by (vm_compute; reflexivity).
  rewrite H in E. exact E.
Defined.
Lemma unknown_option_refused_witness :
  validate_config_value demo_v6 demo_fs (word "c.json") (VObject [(word "encypt", VBool true); (word "mode", VString (word "server"))]) = Err BadShape.
Proof. apply (unknown_option_refused _ _ _ _ (word "encypt") (VBool true)); [vm_compute; set_solver|by left]. Defined.

(** A floor of "any" is not the same as no floor: without encryption it is refused
    where the empty one is accepted, and with encryption the missing one becomes the
    floor "gcm". *)
Definition client_doc (encrypt : bool) (min_enc : option string) : Value := VObject
  ([(word "addr", VString (word "vpn.example:443")); (word "encrypt", VBool encrypt)] ++
   match min_enc with Some s => [(word "min_enc", VString (word s))] | None => [] end ++
   [(word "mode", VString (word "client")); (word "psk", VString (word "a long random secret"))]).
Example any_is_not_empty :
  validate_config_value demo_v6 demo_fs [] (client_doc false (Some "any"%string)) = Err MinEncNeedsEncrypt /\
  (exists args, validate_config_value demo_v6 demo_fs [] (client_doc false None) = Ok args) /\
  (exists args, validate_config_value demo_v6 demo_fs [] (client_doc true None) = Ok args /\ ar_min_enc args = word "gcm") /\
  (exists args, validate_config_value demo_v6 demo_fs [] (client_doc true (Some "any"%string)) = Ok args /\ ar_min_enc args = word "any").
Proof. split_and!; [reflexivity|..]; eexists; vm_compute; split || idtac; reflexivity. Qed.

(** The validator takes a dashboard for public only when its address is an IP literal:
    with a host name it accepts the document without TLS files. *)
Definition web_doc (addr : string) : Value := VObject
  [(word "mode", VString (word "server")); (word "psk", VString (word "a long random secret"));
   (word "server", VObject [(word "v6_cidr", VString (word "x/64"))]);
   (word "web", VObject [(word "addr", VString (word addr)); (word "auth", VString (word "admin:s3cret"))])].
Example host_name_needs_no_tls :
  validate_config_value demo_v6 demo_fs [] (web_doc "203.0.113.5:8080") = Err WebTlsMissing /\
  (exists args, validate_config_value demo_v6 demo_fs [] (web_doc "vpn.example:8080") = Ok args /\
     ar_web_bind args = word "all" /\ ar_web_cert args = []).
Proof. split; [reflexivity|]. eexists. vm_compute. repeat split. Qed.

(** The MTU is not checked against the range of the documentation. *)
Example mtu_range_unchecked :
  exists args, validate_config_value demo_v6 demo_fs [] (VObject
    [(word "mode", VString (word "server")); (word "mtu", VNumber 65535); (word "psk", VString (word "a long random secret"));
     (word "server", VObject [(word "v6_cidr", VString (word "x/64"))])]) = Ok args /\ ar_mtu args = 65535.
Proof. eexists. vm_compute. repeat split. Qed.
