(* ===== verification/Api.v ===== *)
(** * The HTTP interface: [src/src/api.rs]

    The handler of one request of [serve_listener], with authentication, the CSRF guard,
    the bounds on bodies, and the saving of configurations; the provider of statistics
    and control actions is a class with the server and the client as instances.  A
    request and the answers of the environment (clock, random bytes, file system, JSON
    parser, Base64) are arguments; a panic is [None], since the release profile aborts. *)
From S2P Require Import Prelude Protocol Utils Crypto Fec Pool Brutal PeerInfo Session Policy Client WebState WebStore Config.

(** ** Requests and replies *)

Inductive Method := Get | Post | OtherMethod.
#[export] Instance Method_eq_dec : EqDecision Method.
Proof. solve_decision. Defined.

(** [rq_body] is the body read to its end, [None] when reading fails or it is not UTF-8. *)
Record Request := {
  rq_method : Method; rq_url : text; rq_headers : list (text * text); rq_body_length : option Z; rq_body : option text }.

Inductive Body :=
| BJson (v : Value)
| BText (s : text)
| BAsset (path content_type : text)
| BDashboard (interval_ms : Z) (range : text) (log_after event_after : Z)
| BEvents (s : EventStream).
Record Reply := { rp_status : Z; rp_cookie : option text; rp_location : option text; rp_body : Body }.
Definition respond_json (v : Value) (status : Z) : Reply :=
  {| rp_status := status; rp_cookie := None; rp_location := None; rp_body := BJson v |}.
Definition error_json (msg : string) : Value := VObject [(word "error", VString (word msg))].
Definition status_ok : Value := VObject [(word "status", VString (word "ok"))].

(** ** Authentication *)

(** [HeaderField::equiv]: header names do not depend on case. *)
Definition header (req : Request) (name : string) : option text :=
  snd <$> head (filter (fun h => to_ascii_lowercase h.1 = word name) (rq_headers req)).

Fixpoint utf8_valid (s : list Z) : bool :=
  let cont c := in_range 128 191 c in
  match s with
  | [] => true
  | a :: s1 =>
      if a <? 128 then utf8_valid s1
      else match s1 with
      | [] => false
      | b :: s2 =>
          if in_range 194 223 a && cont b then utf8_valid s2
          else match s2 with
          | [] => false
          | c :: s3 =>
              if in_range 224 239 a && in_range (if a =? 224 then 160 else 128) (if a =? 237 then 159 else 191) b && cont c then utf8_valid s3
              else match s3 with
              | [] => false
              | d :: s4 =>
                  in_range 240 244 a && in_range (if a =? 240 then 144 else 128) (if a =? 244 then 143 else 191) b && cont c && cont d && utf8_valid s4
              end
          end
      end
  end.

(** [split_once] that answers only when the separator occurs. *)
Definition split_at (sep : Z) (s : text) : option (text * text) :=
  match split_once sep s with (a, Some b) => Some (a, b) | (_, None) => None end.

Fixpoint find_map {A B} (f : A -> option B) (l : list A) : option B :=
  match l with [] => None | x :: l => match f x with Some y => Some y | None => find_map f l end end.

Definition COOKIE_NAME : text := word "tlsvpn_session".
Definition cookie_pair (name part : text) : option text :=
  '(k, v) ← split_at 61 (utf8_trim part); if bool_decide (k = name) then Some v else None.
Definition cookie_value (req : Request) (name : text) : text :=
  match header req "cookie" with
  | None => []
  | Some raw => default [] (find_map (cookie_pair name) (split_on 59 raw))
  end.
Definition dashboard_cookie (token : text) (secure clear : bool) : text :=
  (if clear then word "tlsvpn_session=; Path=/; Max-Age=0; HttpOnly; SameSite=Lax"
   else word "tlsvpn_session=" ++ token ++ word "; Path=/; Max-Age=86400; HttpOnly; SameSite=Lax") ++
  (if secure then word "; Secure" else []).

(** What the environment answers while one request is handled: the clock of the login
    sessions, the wall clock of bans, random bytes, whether the configuration file was
    replaced, the text of the time of an event, the path of the validation file, and the
    state of the kernel's TCP Brutal module. *)
Record Env := {
  en_now : Z; en_unix : Z; en_random : option (list Z); en_write : result unit text; en_clock : text; en_tmp : text;
  en_brutal_status : Value }.

Record ControlReq := { cq_action : text; cq_client_id : text; cq_level : text; cq_ttl_minutes : Z; cq_config : option Value }.

(** The libraries: JSON texts of the three request types and Base64. *)
Class Decoders := {
  parse_value : text -> option Value;
  parse_login : text -> option (text * text);
  parse_control : text -> option ControlReq;
  base64_decode : text -> option (list Z) }.

(** [WebStatsProvider]; the padding mode is process-wide state that actions change. *)
Class Provider (P : Type) := {
  pv_stats_json : P -> Value;
  pv_metrics_text : P -> text;
  pv_pad_mode_name : P -> text;
  pv_control : text -> text -> text -> Z -> Env -> P -> result unit text * P }.

(** [RuntimeCtx] with the parts of [WebParityState], and the configuration file. *)
Record RuntimeCtx := {
  rx_cfg : Value; rx_system : Value; rx_source_config : Value; rx_needs_restart : list text;
  rx_sessions : SessionStore; rx_events : EventInner; rx_traffic : TrafficState; rx_file : option Value; rx_trend : text -> Value;
  rx_logs : Z -> Value }.

Section auth.
Context `{CryptoPrims} `{Decoders}.

Definition ct_eq (a b : text) : bool := ct_diff 0 (sha256 a) (sha256 b) =? 0.

Definition basic_auth_credential (req : Request) : option text :=
  h ← header req "authorization";
  encoded ← strip_prefix (word "Basic ") h;
  decoded ← base64_decode (utf8_trim encoded);
  if utf8_valid decoded then Some decoded else None.

Definition dashboard_authenticated (now : Z) (sessions : SessionStore) (req : Request) (auth : text) : bool * SessionStore :=
  match auth with
  | [] => (true, sessions)
  | _ =>
      let '(ok, sessions) := session_valid now (cookie_value req COOKIE_NAME) auth sessions in
      if ok then (true, sessions)
      else (match basic_auth_credential req with Some got => ct_eq got auth | None => false end, sessions)
  end.
End auth.

(** ** Queries *)

Definition parse_u64 (s : text) : option Z :=
  let s := match s with c :: s' => if c =? 43 then s' else s | [] => s end in
  match s with
  | [] => None
  | _ => if forallb is_digit s && (digits_value s <=? U64_MAX) then Some (digits_value s) else None
  end.
Definition query_parts (url : text) : option (list text) := '(_, q) ← split_at 63 url; Some (split_on 38 q).
Definition query_u64 (url name : text) : Z :=
  default 0 (parts ← query_parts url;
             find_map (fun kv => '(k, v) ← split_at 61 kv; if bool_decide (k = name) then parse_u64 v else None) parts).
Definition query_range (url : text) : option text := parts ← query_parts url; find_map (strip_prefix (word "range=")) parts.

(** ** Embedded files *)

Definition JS : text := word "application/javascript; charset=utf-8".
Definition SVG : text := word "image/svg+xml".
Definition ICONS : list string :=
  ["arch-arm"; "arch-arm64"; "arch-generic"; "arch-loong64"; "arch-mips"; "arch-riscv64"; "arch-x86"; "arch-x86_64";
   "os-android"; "os-bsd"; "os-generic"; "os-linux"; "os-macos"; "os-windows"]%string.
(** The name of the embedded file and its type. *)
Definition asset (path : text) : option (text * text) :=
  if one_of path ["/i18n.js"; "/app.js"; "/metrics.js"; "/stream.js"; "/tcp.js"; "/diagnostics.js"; "/frameviz.js"]%string then Some (path, JS)
  else if bool_decide (path = word "/favicon.ico") then Some (path, word "image/x-icon")
  else if existsb (fun i => bool_decide (path = word "/icons/" ++ word i ++ word ".svg")) ICONS then Some (path, SVG)
  else if one_of path ["/"; "/index.html"]%string then Some (word "/index.html", word "text/html; charset=utf-8")
  else if one_of path ["/login"; "/login.html"]%string then Some (word "/login.html", word "text/html; charset=utf-8")
  else if bool_decide (path = word "/style.css") then Some (path, word "text/css; charset=utf-8")
  else None.

(** ** Control actions *)

(** [set_runtime_log_level]: the new name of the level. *)
Definition set_runtime_log_level (level : text) : result text text :=
  let level := utf8_trim level in
  if one_of (to_ascii_lowercase level) LOG_LEVELS then Ok (to_ascii_lowercase level) else Err (word "invalid log level").

Definition string_of_text (s : text) : string := String.string_of_list_ascii ((fun c => Ascii.ascii_of_nat (Z.to_nat c)) <$> s).

(** Process-wide settings. *)
Record Globals := { gl_log_level : text; gl_pad : pad_mode }.
Definition pad_mode_name (p : pad_mode) : text := match p with PAD_OFF => word "off" | PAD_BUCKET => word "bucket" end.
(** The actions both programs have. *)
Definition common_control (action level : text) (g : Globals) : option (result unit text * Globals) :=
  if is_mode action "loglevel" then
    Some match set_runtime_log_level level with
         | Ok name => (Ok tt, {| gl_log_level := name; gl_pad := gl_pad g |})
         | Err e => (Err e, g)
         end
  else if is_mode action "pad_mode" then Some (Ok tt, {| gl_log_level := gl_log_level g; gl_pad := set_pad_mode level |})
  else if is_mode action "gc" then Some (Ok tt, g)
  else None.
Definition UNKNOWN_ACTION : text := word "Unknown action".

Section controls.
Context `{Port.FrameChannel}.

Definition server_control (action client_id level : text) (ttl_minutes : Z) (env : Env) (st : ServerCore * Globals) :
    result unit text * (ServerCore * Globals) :=
  let '(c, g) := st in
  let id := string_of_text client_id in
  if is_mode action "kick" then (Ok tt, (control c (en_unix env) (CKick id), g))
  else if is_mode action "ban" then (Ok tt, (control c (en_unix env) (CBan id ttl_minutes), g))
  else if is_mode action "unban" then (Ok tt, (control c (en_unix env) (CUnban id), g))
  else if is_mode action "kickall" then (Ok tt, (control c (en_unix env) CKickAll, g))
  else match common_control action level g with Some (r, g) => (r, (c, g)) | None => (Err UNKNOWN_ACTION, (c, g)) end.
End controls.

(** The client: its state here is the generation that forces a reconnect. *)
Definition client_control (action level : text) (st : Z * Globals) : result unit text * (Z * Globals) :=
  let '(generation, g) := st in
  if is_mode action "reconnect" then (Ok tt, (u64_wrap (generation + 1), g))
  else match common_control action level g with Some (r, g) => (r, (generation, g)) | None => (Err UNKNOWN_ACTION, (generation, g)) end.
Definition client_provider (stats : Value) (metrics : text) : Provider (Z * Globals) := {|
  pv_stats_json _ := stats; pv_metrics_text _ := metrics; pv_pad_mode_name st := pad_mode_name (gl_pad st.2);
  pv_control action _ level _ _ st := client_control action level st |}.

(** ** The path of the clients' traffic file *)

Fixpoint take_name (r : text) : text := match r with [] => [] | c :: r' => if c =? SLASH then [] else c :: take_name r' end.
(** [Path::file_name] *)
Definition file_name (path : text) : option text :=
  match rev (take_name (trim_sep (rev path))) with
  | [] | [46] | [46; 46] => None
  | n => Some n
  end.
(** [rsplit] at the last dot: the parts after and before it, the name reversed. *)
Definition stem_ext (name : text) : text * option text :=
  match split_once DOT (rev name) with
  | (e, Some ((_ :: _) as s)) => (rev s, Some (rev e))
  | _ => (name, None)
  end.
Definition client_traffic_file (file : text) : text :=
  match file with
  | [] => []
  | _ =>
      let stem := match file_name file with Some n => (stem_ext n).1 | None => word "tlsvpn-traffic" end in
      let ext := default (word "json") (file_name file ≫= fun n => (stem_ext n).2) in
      path_join (default [46] (path_parent file)) (stem ++ word "-clients." ++ ext)
  end.
Example client_files :
  client_traffic_file (word "/var/tlsvpn-traffic.json") = word "/var/tlsvpn-traffic-clients.json" /\
  client_traffic_file (word "t") = word "t-clients.json" /\ client_traffic_file (word ".hidden") = word ".hidden-clients.json".
Proof. vm_compute. done. Qed.

(** ** One request *)

Section serve.
Context `{CryptoPrims} `{HexCodec} `{Decoders} {P} `{Provider P} (v6 : family) (fs : text -> option bool) (debug_list : list text -> text).

Definition MAX_LOGIN : nat := 8 * 1024.
Definition MAX_CONFIG_BODY : nat := 1024 * 1024.
Definition MAX_CONTROL_BODY : nat := 64 * 1024.

(** Reading at most one byte more than the bound. *)
Definition read_body (max : nat) (req : Request) : option text :=
  body ← rq_body req; if (length body <=? max)%nat then Some body else None.

Definition with_sessions (ctx : RuntimeCtx) (s : SessionStore) : RuntimeCtx :=
  {| rx_cfg := rx_cfg ctx; rx_system := rx_system ctx; rx_source_config := rx_source_config ctx; rx_needs_restart := rx_needs_restart ctx;
     rx_sessions := s; rx_events := rx_events ctx; rx_traffic := rx_traffic ctx; rx_file := rx_file ctx; rx_trend := rx_trend ctx; rx_logs := rx_logs ctx |}.
Definition with_events (ctx : RuntimeCtx) (e : EventInner) : RuntimeCtx :=
  {| rx_cfg := rx_cfg ctx; rx_system := rx_system ctx; rx_source_config := rx_source_config ctx; rx_needs_restart := rx_needs_restart ctx;
     rx_sessions := rx_sessions ctx; rx_events := e; rx_traffic := rx_traffic ctx; rx_file := rx_file ctx; rx_trend := rx_trend ctx; rx_logs := rx_logs ctx |}.
(** A new configuration in the file and in memory. *)
Definition with_config (ctx : RuntimeCtx) (v : Value) : RuntimeCtx :=
  {| rx_cfg := rx_cfg ctx; rx_system := rx_system ctx; rx_source_config := v; rx_needs_restart := rx_needs_restart ctx;
     rx_sessions := rx_sessions ctx; rx_events := rx_events ctx; rx_traffic := rx_traffic ctx; rx_file := Some v; rx_trend := rx_trend ctx; rx_logs := rx_logs ctx |}.
Definition with_applied (ctx : RuntimeCtx) (cfg : Value) (needs : list text) (t : TrafficState) : RuntimeCtx :=
  {| rx_cfg := cfg; rx_system := rx_system ctx; rx_source_config := rx_source_config ctx; rx_needs_restart := needs;
     rx_sessions := rx_sessions ctx; rx_events := rx_events ctx; rx_traffic := t; rx_file := rx_file ctx; rx_trend := rx_trend ctx; rx_logs := rx_logs ctx |}.

Definition expected_auth (startup_auth : text) (ctx : RuntimeCtx) : text :=
  match current_auth (rx_source_config ctx) with [] => startup_auth | a => a end.

Definition handle_login (env : Env) (tls : bool) (auth : text) (req : Request) (ctx : RuntimeCtx) : Reply * RuntimeCtx :=
  if negb (bool_decide (rq_method req = Post)) then (respond_json (error_json "method not allowed") 405, ctx)
  else if match rq_body_length req with Some n => Z.of_nat MAX_LOGIN <? n | None => false end then (respond_json (error_json "invalid request") 400, ctx)
  else match read_body MAX_LOGIN req ≫= parse_login with
  | None => (respond_json (error_json "invalid request") 400, ctx)
  | Some (username, password) =>
      if negb (ct_eq (username ++ [COLON] ++ password) auth) then (respond_json (error_json "invalid username or password") 401, ctx)
      else
        match session_create (en_random env) (en_now env) auth (rx_sessions ctx) with
        | (Some token, sessions) =>
            ({| rp_status := 200; rp_cookie := Some (dashboard_cookie token tls false); rp_location := None; rp_body := BJson status_ok |},
             with_sessions ctx sessions)
        | (None, sessions) => (respond_json (error_json "session random") 500, with_sessions ctx sessions)
        end
  end.
Definition handle_logout (tls : bool) (req : Request) (ctx : RuntimeCtx) : Reply * RuntimeCtx :=
  if negb (bool_decide (rq_method req = Post)) then (respond_json (error_json "method not allowed") 405, ctx)
  else ({| rp_status := 200; rp_cookie := Some (dashboard_cookie [] tls true); rp_location := None; rp_body := BJson status_ok |},
        with_sessions ctx (session_revoke (cookie_value req COOKIE_NAME) (rx_sessions ctx))).
Definition handle_auth_status (env : Env) (auth : text) (req : Request) (ctx : RuntimeCtx) : Reply * RuntimeCtx :=
  let '(ok, sessions) := dashboard_authenticated (en_now env) (rx_sessions ctx) req auth in
  (respond_json (VObject [(word "authenticated", VBool ok)]) 200, with_sessions ctx sessions).

(** The guard: an answer of its own, or the request goes on. *)
Definition url_path (req : Request) : text := (split_once 63 (rq_url req)).1.
Definition login_asset (path : text) : bool := one_of path ["/login"; "/login.html"; "/login.css"; "/login.js"]%string.
Definition starts_with (p : string) (s : text) : bool := bool_decide (is_Some (strip_prefix (word p) s)).
Definition auth_guard (env : Env) (tls : bool) (auth : text) (req : Request) (ctx : RuntimeCtx) : option Reply * RuntimeCtx :=
  let path := url_path req in
  match auth with
  | [] => (None, ctx)
  | _ =>
      if is_mode path "/api/login" then let '(r, ctx) := handle_login env tls auth req ctx in (Some r, ctx)
      else if is_mode path "/api/logout" then let '(r, ctx) := handle_logout tls req ctx in (Some r, ctx)
      else if is_mode path "/api/auth/status" then let '(r, ctx) := handle_auth_status env auth req ctx in (Some r, ctx)
      else if login_asset path then (None, ctx)
      else
        let '(ok, sessions) := dashboard_authenticated (en_now env) (rx_sessions ctx) req auth in
        let ctx := with_sessions ctx sessions in
        if ok then (None, ctx)
        else if starts_with "/api/" path || is_mode path "/metrics" then (Some (respond_json (error_json "unauthorized") 401), ctx)
        else (Some {| rp_status := 303; rp_cookie := None; rp_location := Some (word "/login"); rp_body := BText [] |}, ctx)
  end.

(** ** Reading *)

Definition texts_json (l : list text) : Value := VArray (VString <$> l).
Definition dashboard_stats_json (env : Env) (p : P) (ctx : RuntimeCtx) : Value :=
  match pv_stats_json p with
  | VObject obj =>
      let system := match rx_system ctx with VObject sys => VObject (obj_insert sys (word "needs_restart") (texts_json (rx_needs_restart ctx))) | v => v end in
      let obj := obj_insert (obj_insert obj (word "cfg") (rx_cfg ctx)) (word "system") system in
      let obj := obj_insert (obj_insert obj (word "brutal_system") (en_brutal_status env)) (word "traffic") (traffic_snapshot (rx_traffic ctx)) in
      match client_snapshot (rx_traffic ctx) with
      | VArray (_ :: _) as v => VObject (obj_insert obj (word "client_traffic") v)
      | _ => VObject obj
      end
  | v => v
  end.
Definition event_json (e : DashboardEvent) : Value :=
  VObject ((if is_empty (ev_client e) then [] else [(word "client", VString (ev_client e))]) ++
           [(word "level", VString (ev_level e)); (word "msg", VString (ev_msg e)); (word "seq", VNumber (ev_seq e));
            (word "time", VString (ev_time e)); (word "type", VString (ev_kind e))]).

(** ** Saving a configuration *)

(** [POST /api/config]; [None] is a panic. *)
Definition post_config (env : Env) (req : Request) (ctx : RuntimeCtx) : option (Reply * RuntimeCtx) :=
  match read_body MAX_CONFIG_BODY req with
  | None => Some (respond_json (error_json "invalid config body") 400, ctx)
  | Some content =>
      match parse_value content with
      | None => Some (respond_json (error_json "bad json") 400, ctx)
      | Some value =>
          merged ← merge_preserving_secrets (rx_source_config ctx) value;
          match validate_config_value v6 fs (en_tmp env) merged with
          | Err _ => Some (respond_json (error_json "invalid configuration") 400, ctx)
          | Ok _ =>
              match en_write env with
              | Err _ => Some (respond_json (error_json "write failed") 400, ctx)
              | Ok _ => Some (respond_json status_ok 200, with_config ctx merged)
              end
          end
      end
  end.

(** The loop over the changed paths of [save_apply]: actions taken at once, the rest
    needs a restart. *)
Definition apply_field (env : Env) (validated : Args) (st : P * list text) (field : text) : P * list text :=
  let '(p, needs) := st in
  if is_mode field "log_level" then ((pv_control (word "loglevel") [] (ar_loglevel validated) 0 env p).2, needs)
  else if is_mode field "pad_mode" then ((pv_control (word "pad_mode") [] (ar_pad_mode validated) 0 env p).2, needs)
  else if one_of field ["traffic_days"; "traffic_file"]%string then (p, needs)
  else (p, needs ++ [field]).
Definition apply_config_values (validated : Args) (p : P) (cfg : Value) : Value :=
  match cfg with
  | VObject m =>
      VObject (obj_insert (obj_insert (obj_insert (obj_insert m (word "log_level") (VString (ar_loglevel validated)))
        (word "pad_mode") (VString (pv_pad_mode_name p))) (word "traffic_days") (VNumber (ar_traffic_days validated)))
        (word "traffic_file") (VString (ar_traffic_file validated)))
  | v => v
  end.

Definition save_config (env : Env) (apply : bool) (action : text) (candidate : Value) (ctx : RuntimeCtx) (p : P) :
    option (Reply * RuntimeCtx * P) :=
  let old := rx_source_config ctx in
  merged ← merge_preserving_secrets old candidate;
  match validate_config_value v6 fs (en_tmp env) merged with
  | Err _ => Some (respond_json (error_json "invalid configuration") 400, ctx, p)
  | Ok validated =>
      match en_write env with
      | Err _ => Some (respond_json (error_json "write failed") 400, ctx, p)
      | Ok _ =>
          let changed := diff_paths old merged in
          let '(p, needs_restart) := if apply then foldl (apply_field env validated) (p, []) changed else (p, []) in
          let ctx := if apply
            then with_applied ctx (apply_config_values validated p (rx_cfg ctx)) needs_restart
                   (apply_config (ar_traffic_days validated) (ar_traffic_file validated) (client_traffic_file (ar_traffic_file validated)) (rx_traffic ctx))
            else with_applied ctx (rx_cfg ctx) needs_restart (rx_traffic ctx) in
          let ctx := with_config ctx merged in
          let msg := action ++ word " (needs_restart: " ++ debug_list needs_restart ++ word ")" in
          let ctx := with_events ctx (emit (en_clock env) (word "config") (word "info") [] msg (rx_events ctx)) in
          Some (respond_json (VObject [(word "needs_restart", texts_json needs_restart); (word "status", VString (word "ok"))]) 200, ctx, p)
      end
  end.

(** [POST /api/control] *)
Definition has_csrf (req : Request) : bool :=
  existsb (fun h => bool_decide (to_ascii_lowercase h.1 = word "x-requested-with") && bool_decide (h.2 = word "tlsvpn")) (rq_headers req).
Definition post_control (env : Env) (req : Request) (ctx : RuntimeCtx) (p : P) : option (Reply * RuntimeCtx * P) :=
  if negb (has_csrf req) then
    Some ({| rp_status := 403; rp_cookie := None; rp_location := None; rp_body := BText (word "Missing X-Requested-With header (CSRF protection)") |}, ctx, p)
  else if match rq_body_length req with Some n => Z.of_nat MAX_CONTROL_BODY <? n | None => true end then
    Some (respond_json (error_json "body length required and must not exceed 65536 bytes") 413, ctx, p)
  else match read_body MAX_CONTROL_BODY req with
  | None => Some (respond_json (error_json "invalid body") 400, ctx, p)
  | Some content =>
      match parse_control content with
      | None => Some (respond_json (error_json "bad json") 400, ctx, p)
      | Some creq =>
          if one_of (cq_action creq) ["save"; "save_apply"]%string then
            match cq_config creq with
            | None => Some (respond_json (error_json "config is required") 400, ctx, p)
            | Some candidate => save_config env (is_mode (cq_action creq) "save_apply") (cq_action creq) candidate ctx p
            end
          else
            match pv_control (cq_action creq) (cq_client_id creq) (cq_level creq) (cq_ttl_minutes creq) env p with
            | (Ok _, p) =>
                Some (respond_json status_ok 200,
                      with_events ctx (emit (en_clock env) (word "control") (word "info") (cq_client_id creq) (cq_action creq) (rx_events ctx)), p)
            | (Err e, p) => Some (respond_json (VObject [(word "error", VString e)]) 400, ctx, p)
            end
      end
  end.

(** ** Routing *)

Definition query_has (url part : text) : bool := match query_parts url with Some l => bool_decide (part ∈ l) | None => false end.
Definition route_get (env : Env) (path : text) (req : Request) (ctx : RuntimeCtx) (p : P) : option (Reply * RuntimeCtx) :=
  let url := rq_url req in
  let json v := Some (respond_json v 200, ctx) in
  let plain b := Some ({| rp_status := 200; rp_cookie := None; rp_location := None; rp_body := b |}, ctx) in
  if is_mode path "/api/stats" then json (dashboard_stats_json env p ctx)
  else if is_mode path "/api/stream" then
    let range := match query_range url with Some v => if one_of v ["2m"; "1h"; "24h"]%string then v else word "2m" | None => word "2m" end in
    plain (BDashboard (clamp 250 10000 (query_u64 url (word "interval_ms"))) range (query_u64 url (word "log_after")) (query_u64 url (word "event_after")))
  else if is_mode path "/api/logs" then
    json (rx_logs ctx (default 0 (parts ← query_parts url; find_map (fun kv => v ← strip_prefix (word "after=") kv; parse_u64 v) parts)))
  else if is_mode path "/api/trend" then json (rx_trend ctx (default (word "2m") (query_range url)))
  else if is_mode path "/api/events" then
    let after := query_u64 url (word "after") in
    if query_has url (word "stream=0") then json (VArray (event_json <$> hub_snapshot after (rx_events ctx)))
    else let '(s, hub) := stream after (rx_events ctx) in
         Some ({| rp_status := 200; rp_cookie := None; rp_location := None; rp_body := BEvents s |}, with_events ctx hub)
  else if is_mode path "/api/config" then v ← redacted_config (rx_source_config ctx); json v
  else if is_mode path "/metrics" then plain (BText (pv_metrics_text p))
  else Some ({| rp_status := 404; rp_cookie := None; rp_location := None; rp_body := BText (word "Not Found") |}, ctx).

Definition route (env : Env) (req : Request) (ctx : RuntimeCtx) (p : P) : option (Reply * RuntimeCtx * P) :=
  let path := url_path req in
  match rq_method req with
  | Get =>
      match asset path with
      | Some (file, ty) => Some ({| rp_status := 200; rp_cookie := None; rp_location := None; rp_body := BAsset file ty |}, ctx, p)
      | None => '(r, ctx) ← route_get env path req ctx p; Some (r, ctx, p)
      end
  | Post =>
      if is_mode path "/api/config" then '(r, ctx) ← post_config env req ctx; Some (r, ctx, p)
      else if is_mode path "/api/control" then post_control env req ctx p
      else Some ({| rp_status := 404; rp_cookie := None; rp_location := None; rp_body := BText (word "Not Found") |}, ctx, p)
  | OtherMethod => Some ({| rp_status := 404; rp_cookie := None; rp_location := None; rp_body := BText (word "Not Found") |}, ctx, p)
  end.

(** The body of the accept loop for one request. *)
Definition serve_request (env : Env) (tls : bool) (startup_auth : text) (req : Request) (ctx : RuntimeCtx) (p : P) :
    option (Reply * RuntimeCtx * P) :=
  match auth_guard env tls (expected_auth startup_auth ctx) req ctx with
  | (Some r, ctx) => Some (r, ctx, p)
  | (None, ctx) => route env req ctx p
  end.
End serve.
