(* ===== verification/ApiSpec.v ===== *)
(** * Properties of the HTTP interface *)
From S2P Require Import Prelude Protocol Utils Crypto Fec Pool Brutal PeerInfo Session Policy Client WebState WebSpec WebStore WebStoreSpec Config ConfigSpec Api.

(** ** Without credentials *)

Section guard.
Context `{CryptoPrims} `{HexCodec} `{Decoders} {P} `{Provider P} (v6 : family) (fs : text -> option bool) (debug_list : list text -> text).

(** The request carries neither a live session nor the credentials. *)
Definition no_credentials (env : Env) (auth : text) (req : Request) (sessions : SessionStore) : Prop :=
  (dashboard_authenticated (en_now env) sessions req auth).1 = false /\
  forall u pw, read_body MAX_LOGIN req ≫= parse_login = Some (u, pw) -> ct_eq (u ++ [COLON] ++ pw) auth = false.

(** Checks and revocations only remove sessions. *)
Lemma session_valid_shrinks (now : Z) (token auth : text) (st : SessionStore) : (session_valid now token auth st).1 = false -> (session_valid now token auth st).2 ⊆ st.
Proof. unfold session_valid. repeat case_match; cbn [fst snd]; try done; intros _; apply delete_subseteq. Qed.
Lemma authenticated_shrinks (now : Z) (auth : text) (req : Request) (st : SessionStore) :
  (dashboard_authenticated now st req auth).1 = false -> (dashboard_authenticated now st req auth).2 ⊆ st.
Proof.
  unfold dashboard_authenticated. destruct auth as [|c auth]; [done|]. pose proof (session_valid_shrinks now (cookie_value req COOKIE_NAME) (c :: auth) st) as Hs.
  destruct (session_valid _ _ _ _) as [[] st']; [done|]. cbn [fst snd] in *. intros _. by apply Hs.
Qed.
Lemma revoke_shrinks (token : text) (st : SessionStore) : session_revoke token st ⊆ st.
Proof. unfold session_revoke. case_bool_decide; [done|]. apply delete_subseteq. Qed.

(** What such a request may be answered: errors, the login page, nothing else. *)
Definition harmless (r : Reply) : Prop :=
  match rp_body r with
  | BJson v => v = status_ok \/ v = VObject [(word "authenticated", VBool false)] \/ exists msg, v = error_json msg
  | BText s => s = [] \/ s = word "Not Found"
  | BAsset path _ => path = word "/login.html"
  | _ => False
  end.

Lemma with_sessions_same ctx : with_sessions ctx (rx_sessions ctx) = ctx.
Proof. by destruct ctx. Qed.

Lemma login_refused env tls auth req : (forall u pw, read_body MAX_LOGIN req ≫= parse_login = Some (u, pw) -> ct_eq (u ++ [COLON] ++ pw) auth = false) ->
  exists reply, harmless reply /\ forall ctx, handle_login env tls auth req ctx = (reply, ctx).
Proof.
  intros Hl. unfold handle_login. destruct (negb _); [eexists; split; [|done]; cbn; eauto|].
  destruct (match rq_body_length req with Some n => _ | None => _ end); [eexists; split; [|done]; cbn; eauto|].
  destruct (read_body MAX_LOGIN req ≫= parse_login) as [[u pw]|]; [|eexists; split; [|done]; cbn; eauto].
  rewrite (Hl u pw eq_refl). eexists. split; [|done]. cbn. eauto.
Qed.

Lemma login_asset_reply env req : login_asset (url_path req) = true ->
  exists reply, harmless reply /\ forall ctx (p : P), route v6 fs debug_list env req ctx p = Some (reply, ctx, p).
Proof.
  intros Hl. apply one_of_spec in Hl as (w & Hw & E). unfold route. rewrite E.
  destruct (rq_method req); [|destruct Hw as [<-|[<-|[<-|[<-|[]]]]]; eexists; (split; [|done]); by right|eexists; split; [|done]; by right].
  destruct Hw as [<-|[<-|[<-|[<-|[]]]]].
  - eexists. split; [|done]. done.
  - eexists. split; [|done]. done.
  - eexists. split; [|done]. by right.
  - eexists. split; [|done]. by right.
Qed.

(** The guard for a request that is not authenticated. *)
Lemma auth_guard_refuses (env : Env) (tls : bool) (auth : text) (req : Request) (st : SessionStore) (ctx : RuntimeCtx) :
  auth <> [] -> (dashboard_authenticated (en_now env) st req auth).1 = false -> rx_sessions ctx = st -> auth_guard env tls auth req ctx =
    if is_mode (url_path req) "/api/login" then let '(r, ctx) := handle_login env tls auth req ctx in (Some r, ctx)
    else if is_mode (url_path req) "/api/logout" then let '(r, ctx) := handle_logout tls req ctx in (Some r, ctx)
    else if is_mode (url_path req) "/api/auth/status" then let '(r, ctx) := handle_auth_status env auth req ctx in (Some r, ctx)
    else if login_asset (url_path req) then (None, ctx)
    else
      let ctx := with_sessions ctx (dashboard_authenticated (en_now env) st req auth).2 in
      if starts_with "/api/" (url_path req) || is_mode (url_path req) "/metrics" then (Some (respond_json (error_json "unauthorized") 401), ctx)
      else (Some {| rp_status := 303; rp_cookie := None; rp_location := Some (word "/login"); rp_body := BText [] |}, ctx).
Proof.
  intros Ha Hd <-. unfold auth_guard. destruct auth as [|c auth]; [done|]. by destruct (dashboard_authenticated _ _ _ _) as [[] st].
Qed.

(** C23: Nobody gets past the dashboard's guard without credentials, and nothing leaks.
    When the dashboard has credentials, a request that carries neither a live session
    nor the credentials, and is no successful login, ends without a panic, changes
    nothing but possibly the removal of sessions, and is answered by an error, the login
    page or a redirect that is the same whatever the configuration, the events, the
    traffic and the state of the VPN are. *)
Theorem unauthenticated_has_no_effect env tls startup_auth req ctx :
  expected_auth startup_auth ctx <> [] ->
  no_credentials env (expected_auth startup_auth ctx) req (rx_sessions ctx) ->
  exists reply s, harmless reply /\ s ⊆ rx_sessions ctx /\
    forall ctx' (p : P), rx_sessions ctx' = rx_sessions ctx -> expected_auth startup_auth ctx' = expected_auth startup_auth ctx ->
      serve_request v6 fs debug_list env tls startup_auth req ctx' p = Some (reply, with_sessions ctx' s, p).
Proof.
  intros Ha [Hd Hl]. unfold serve_request. set (auth := expected_auth startup_auth ctx) in *.
  destruct auth as [|c auth0] eqn:Eauth; [done|]. rewrite <-Eauth in *. clear Ha.
  pose proof (fun ctx' => auth_guard_refuses env tls auth req (rx_sessions ctx) ctx' ltac:(by rewrite Eauth) Hd) as Hguard.
  destruct (is_mode (url_path req) "/api/login").
  { destruct (login_refused env tls auth req Hl) as (reply & Hr & E). exists reply, (rx_sessions ctx). split_and!; [done|done|].
    intros ctx' p Es Ee. rewrite Ee, Hguard, E by done. by rewrite <-Es, with_sessions_same. }
  destruct (is_mode (url_path req) "/api/logout").
  { destruct (bool_decide (rq_method req = Post)) eqn:Em.
    - eexists _, (session_revoke (cookie_value req COOKIE_NAME) (rx_sessions ctx)). split_and!; [|apply revoke_shrinks|].
      2: { intros ctx' p Es Ee. rewrite Ee, Hguard by done. unfold handle_logout. rewrite Em, Es. cbn [negb]. reflexivity. } by left.
    - eexists _, (rx_sessions ctx). split_and!; [|done|].
      2: { intros ctx' p Es Ee. rewrite Ee, Hguard by done. unfold handle_logout. rewrite Em. cbn [negb]. by rewrite <-Es, with_sessions_same. } cbn. eauto. }
  destruct (is_mode (url_path req) "/api/auth/status").
  { eexists _, (dashboard_authenticated (en_now env) (rx_sessions ctx) req auth).2. split_and!; [|by apply authenticated_shrinks|].
    2: { intros ctx' p Es Ee. rewrite Ee, Hguard by done. unfold handle_auth_status. rewrite Es.
         destruct (dashboard_authenticated _ _ _ _) as [ok st]. cbn [fst] in Hd. rewrite Hd. reflexivity. } cbn. eauto. }
  destruct (login_asset (url_path req)) eqn:El.
  { destruct (login_asset_reply env req El) as (reply & Hr & E). exists reply, (rx_sessions ctx). split_and!; [done|done|].
    intros ctx' p Es Ee. rewrite Ee, Hguard by done. rewrite E. by rewrite <-Es, with_sessions_same. }
  destruct (starts_with _ _ || _).
  - eexists _, _. split_and!; [|by apply authenticated_shrinks|intros ctx' p Es Ee; rewrite Ee, Hguard by done; reflexivity]. cbn. eauto.
  - eexists _, _. split_and!; [|by apply authenticated_shrinks|intros ctx' p Es Ee; rewrite Ee, Hguard by done; reflexivity]. by left.
Qed.
End guard.

(** ** Logging in *)

(** Printable characters other than the separators of a cookie header. *)
Definition plain (c : Z) : Prop := 33 <= c <= 126 /\ c <> 59.

Lemma ws_char_plain l : Forall plain l -> ws_char l = false.
Proof.
  unfold plain. intros Hl. destruct l as [|a [|b [|c [|d l]]]]; try done; cbn [ws_char]; rewrite ?Forall_cons in Hl; case_bools; cbn; done || lia.
Qed.
Lemma utf8_trim_plain s : Forall plain s -> utf8_trim s = s.
Proof.
  intros Hs. unfold utf8_trim. assert (Hst : forall n, utf8_trim_start n s = s).
  { intros [|n]; [done|]. cbn. unfold ws_head. by rewrite !ws_char_plain by (by apply Forall_take). }
  assert (Hen : forall n, utf8_trim_end n s = s).
  { intros [|n]; [done|]. cbn. unfold ws_last, take_last. rewrite !ws_char_plain by (by apply Forall_drop). by rewrite !andb_false_r. }
  by rewrite Hst, Hen.
Qed.
Lemma hex_encode_plain `{HexLaws} raw : bytes_ok raw -> Forall plain (hex_encode raw).
Proof.
  intros Hr. rewrite hex_encode_spec by done. induction Hr as [|x raw Hx Hr IH]; [done|]. cbn [fmap list_fmap concat]. apply Forall_app. split; [|done].
  unfold is_byte in Hx. assert (Hd : forall v, 0 <= v < 16 -> plain (hex_digit v)) by (intros v Hv; unfold plain, hex_digit; case_bools; lia).
  constructor; [apply Hd; split; [apply Z.div_pos; lia|apply Z.div_lt_upper_bound; lia]|]. constructor; [apply Hd, Z.mod_pos_bound; lia|constructor].
Qed.
Lemma hex_encode_nonempty `{HexLaws} raw : bytes_ok raw -> raw <> [] -> hex_encode raw <> [].
Proof. intros Hr Hn. rewrite hex_encode_spec by done. by destruct raw. Qed.

(** The value a browser sends back for the cookie it was given. *)
Lemma cookie_roundtrip req token : Forall plain token -> header req "cookie" = Some (word "tlsvpn_session=" ++ token) -> cookie_value req COOKIE_NAME = token.
Proof.
  intros Ht Hc. unfold cookie_value. rewrite Hc.
  assert (Hp : Forall plain (word "tlsvpn_session=" ++ token)).
  { apply Forall_app. split; [|done]. apply Forall_forall. intros c Hin. assert (E : forallb (fun c => (33 <=? c) && (c <=? 126) && negb (c =? 59)) (word "tlsvpn_session=") = true) by reflexivity.
    rewrite forallb_forall in E. specialize (E c ltac:(by apply list_elem_of_In)). unfold plain. lia. }
  assert (Hn : Forall (fun c => c <> 59) (word "tlsvpn_session=" ++ token)) by (eapply Forall_impl; [exact Hp|]; by intros c []).
  rewrite (proj2 (split_on_app 59 _ [] Hn)). cbn [find_map]. unfold cookie_pair. rewrite utf8_trim_plain by done. unfold split_at.
  change (word "tlsvpn_session=" ++ token) with (COOKIE_NAME ++ 61 :: token). rewrite split_once_app; [|vm_compute; set_solver].
  cbn [mbind option_bind]. by rewrite bool_decide_eq_true_2.
Qed.

Section login.
Context `{CryptoLaws} `{HexLaws} `{Decoders}.

(** Logging in works and logging out ends it.  After a successful login the cookie
    in the answer, sent back by the browser within 24 hours while the credentials are
    the same, is accepted, and accepted again within 24 hours of that; after a logout
    with it, it is not. *)
Theorem login_opens_dashboard env tls auth req ctx reply ctx' raw :
  auth <> [] -> en_random env = Some raw -> bytes_ok raw -> raw <> [] ->
  handle_login env tls auth req ctx = (reply, ctx') -> rp_status reply = 200 ->
  exists token, rp_cookie reply = Some (dashboard_cookie token tls false) /\
    forall req' now, header req' "cookie" = Some (word "tlsvpn_session=" ++ token) ->
      (now < en_now env + SESSION_TTL ->
       (dashboard_authenticated now (rx_sessions ctx') req' auth).1 = true /\
       forall later, later < now + SESSION_TTL ->
         (dashboard_authenticated later (dashboard_authenticated now (rx_sessions ctx') req' auth).2 req' auth).1 = true) /\
      (rq_method req' = Post -> forall later auth',
         (session_valid later token auth' (rx_sessions (handle_logout tls req' ctx').2)).1 = false).
Proof.
  intros Ha Hr Hb Hne Hl Hs. unfold handle_login in Hl. destruct (negb _); [by simplify_eq|].
  destruct (match rq_body_length req with Some n => _ | None => _ end); [by simplify_eq|].
  destruct (read_body MAX_LOGIN req ≫= parse_login) as [[u pw]|]; [|by simplify_eq]. destruct (negb _); [by simplify_eq|].
  unfold session_create in Hl. rewrite Hr in Hl. cbn in Hl. injection Hl as <- <-. exists (hex_encode raw). split; [done|].
  intros req' now Hc. apply cookie_roundtrip in Hc; [|by apply hex_encode_plain].
  pose proof (hex_encode_nonempty raw Hb Hne) as Hn. cbn [with_sessions rx_sessions]. set (st := <[_ := _]> _).
  assert (Hv : forall t e (m : SessionStore), m !! hex_encode raw = Some {| ws_expires := e; ws_auth_hash := auth_hash auth |} -> t < e ->
    dashboard_authenticated t m req' auth = (true, <[hex_encode raw := {| ws_expires := t + SESSION_TTL; ws_auth_hash := auth_hash auth |}]> m)).
  { intros t e m Hm Ht. unfold dashboard_authenticated. destruct auth as [|c auth0] eqn:Ea; [done|]. rewrite <-Ea in *. rewrite Hc.
    unfold session_valid. rewrite (bool_decide_eq_false_2 (hex_encode raw = [])) by done. rewrite (bool_decide_eq_false_2 (auth = [])) by (by rewrite Ea).
    cbn [orb]. rewrite Hm. cbn [ws_expires ws_auth_hash]. rewrite (proj2 (Z.leb_gt _ _) Ht). rewrite constant_time_32_hash by (by exists auth).
    rewrite bool_decide_eq_true_2 by done. done. }
  split.
  - intros Ht. rewrite (Hv now (en_now env + SESSION_TTL) st) by (done || apply lookup_insert_eq). cbn [fst snd]. split; [done|].
    intros later Hlt. by rewrite (Hv later (now + SESSION_TTL)) by (done || apply lookup_insert_eq).
  - intros Hp later auth'. unfold handle_logout. rewrite bool_decide_eq_true_2 by done. cbn [negb snd with_sessions rx_sessions]. rewrite Hc.
    unfold session_revoke. rewrite bool_decide_eq_false_2 by done. unfold session_valid. destruct (_ || _); [done|]. by rewrite lookup_delete_eq.
Qed.
End login.

(** ** Saved configurations *)

Section saving.
Context `{CryptoPrims} `{HexCodec} `{Decoders} {P} `{Provider P} (v6 : family) (fs : text -> option bool) (debug_list : list text -> text).

Definition accepted (v : Value) : Prop := exists args, validate_config_value v6 fs [] v = Ok args.

Lemma validate_args_path present path path' cfg :
  validate_args v6 fs (build_args path present cfg) = validate_args v6 fs (build_args path' present cfg).
Proof. reflexivity. Qed.
(** Where the document lies does not matter for its acceptance. *)
Lemma accepted_anywhere tmp v args : validate_config_value v6 fs tmp v = Ok args -> accepted v.
Proof.
  unfold accepted, validate_config_value, load_config_value. destruct (de_config v) as [cfg|]; [|done].
  destruct (is_mode (cf_mode cfg) "client"); [destruct (validate_source_rules v6 _) as [rules [u|e]]; [|done]|]; cbn [result_bind];
    rewrite (validate_args_path _ tmp []); intros Hv; apply chain_ok in Hv as (u' & -> & _); by eexists.
Qed.

(** Merging into an object gives an object. *)
Lemma preserve_object cur m path : path ∈ [PSK_PATH; SOCKS5_PATH; AUTH_PATH] -> exists m', preserve_empty_string (VObject m) cur path = Some (VObject m').
Proof.
  intros Hp. unfold preserve_empty_string. destruct (match _ ≫= as_str with Some s => _ | None => true end); [|by eexists].
  destruct (get_path cur path ≫= as_str) as [s|]; [|by eexists].
  rewrite !elem_of_cons in Hp. destruct Hp as [->|[->|[->|Hp]]]; [rewrite set_psk|rewrite set_socks5|rewrite set_auth|by apply not_elem_of_nil in Hp]; by eexists.
Qed.
Lemma merge_object cur v : is_object v = true -> exists m, merge_preserving_secrets cur v = Some (VObject m).
Proof.
  destruct v as [| | | | | |m]; try done. intros _. unfold merge_preserving_secrets.
  destruct (preserve_object cur m PSK_PATH) as [m1 ->]; [set_solver|]. cbn [mbind option_bind].
  destruct (preserve_object cur m1 SOCKS5_PATH) as [m2 ->]; [set_solver|]. cbn [mbind option_bind]. apply preserve_object. set_solver.
Qed.

(** The stored configuration is an object the next start accepts, and the file holds it
    if it was written at all. *)
Definition config_sound (ctx : RuntimeCtx) : Prop :=
  is_object (rx_source_config ctx) = true /\ accepted (rx_source_config ctx) /\ (rx_file ctx = None \/ rx_file ctx = Some (rx_source_config ctx)).
Lemma sound_sessions ctx s : config_sound ctx -> config_sound (with_sessions ctx s).
Proof. by destruct ctx. Qed.
Lemma sound_events ctx e : config_sound ctx -> config_sound (with_events ctx e).
Proof. by destruct ctx. Qed.

(** The documents a request submits are objects. *)
Definition submits_objects (req : Request) : Prop := forall body, rq_body req = Some body ->
  (forall v, parse_value body = Some v -> is_object v = true) /\
  (forall c v, parse_control body = Some c -> cq_config c = Some v -> is_object v = true).

Lemma guard_sessions_only env tls auth req ctx : exists s, (auth_guard env tls auth req ctx).2 = with_sessions ctx s.
Proof.
  assert (E : forall c, exists s, c = with_sessions c s) by (intros c; exists (rx_sessions c); by rewrite with_sessions_same).
  unfold auth_guard, handle_login, handle_logout, handle_auth_status. destruct auth; [apply E|].
  repeat case_match; simplify_eq; cbn [snd]; try apply E; by eexists.
Qed.

Lemma read_body_some max req body : read_body max req = Some body -> rq_body req = Some body.
Proof. unfold read_body. destruct (rq_body req); [|done]. cbn. by case_match; intros; simplify_eq. Qed.

Lemma save_sound env apply action v ctx (p : P) : config_sound ctx -> is_object v = true ->
  exists r ctx' p', save_config v6 fs debug_list env apply action v ctx p = Some (r, ctx', p') /\ config_sound ctx'.
Proof.
  intros Hc Hv. unfold save_config. destruct (merge_object (rx_source_config ctx) v Hv) as [m ->]. cbn [mbind option_bind].
  destruct (validate_config_value v6 fs (en_tmp env) (VObject m)) as [args|e] eqn:Ev; [|by eexists _, _, _].
  destruct (en_write env); [|by eexists _, _, _]. destruct (if apply then _ else _) as [p' needs]. eexists _, _, _. split; [done|].
  destruct apply; (split; [done|]; split; [by eapply accepted_anywhere|by right]).
Qed.
Lemma post_config_sound env req ctx : config_sound ctx -> submits_objects req ->
  exists r ctx', post_config v6 fs env req ctx = Some (r, ctx') /\ config_sound ctx'.
Proof.
  intros Hc Hs. unfold post_config. destruct (read_body MAX_CONFIG_BODY req) as [body|] eqn:Eb; [|by eexists _, _].
  apply read_body_some in Eb. destruct (parse_value body) as [v|] eqn:Ep; [|by eexists _, _].
  destruct (merge_object (rx_source_config ctx) v) as [m ->]; [by apply (Hs body Eb)|]. cbn [mbind option_bind].
  destruct (validate_config_value v6 fs (en_tmp env) (VObject m)) as [args|e] eqn:Ev; [|by eexists _, _].
  destruct (en_write env); [|by eexists _, _]. eexists _, _. split; [done|]. split; [done|]. split; [by eapply accepted_anywhere|by right].
Qed.
Lemma post_control_sound env req ctx (p : P) : config_sound ctx -> submits_objects req ->
  exists r ctx' p', post_control v6 fs debug_list env req ctx p = Some (r, ctx', p') /\ config_sound ctx'.
Proof.
  intros Hc Hs. unfold post_control. destruct (negb _); [by eexists _, _, _|].
  destruct (match rq_body_length req with Some n => _ | None => _ end); [by eexists _, _, _|].
  destruct (read_body MAX_CONTROL_BODY req) as [body|] eqn:Eb; [|by eexists _, _, _]. apply read_body_some in Eb.
  destruct (parse_control body) as [c|] eqn:Ep; [|by eexists _, _, _]. destruct (one_of _ _).
  - destruct (cq_config c) as [v|] eqn:Ec; [|by eexists _, _, _]. apply save_sound; [done|]. by eapply (Hs body Eb).
  - destruct (pv_control _ _ _ _ _ _) as [[u|e] p']; eexists _, _, _; (split; [done|]); [by apply sound_events|done].
Qed.
Lemma redacted_total v : is_object v = true -> exists r, redacted_config v = Some r.
Proof.
  destruct v as [| | | | | |m]; try done. intros _. unfold redacted_config. rewrite set_psk. cbn [mbind option_bind]. rewrite set_socks5. cbn [mbind option_bind].
  rewrite set_auth. by eexists.
Qed.
Lemma route_get_sound env path req ctx (p : P) : config_sound ctx -> exists r ctx', route_get env path req ctx p = Some (r, ctx') /\ config_sound ctx'.
Proof.
  intros Hc. unfold route_get. destruct (is_mode path "/api/stats"); [by eexists _, _|]. destruct (is_mode path "/api/stream"); [by eexists _, _|].
  destruct (is_mode path "/api/logs"); [by eexists _, _|]. destruct (is_mode path "/api/trend"); [by eexists _, _|].
  destruct (is_mode path "/api/events"); [destruct (query_has _ _); [by eexists _, _|]; eexists _, _; split; [done|]; by apply sound_events|].
  destruct (is_mode path "/api/config"); [|destruct (is_mode path "/metrics"); by eexists _, _].
  destruct (redacted_total (rx_source_config ctx)) as [r ->]; [apply Hc|]. by eexists _, _.
Qed.

Lemma serve_sound env tls startup_auth req ctx (p : P) : config_sound ctx -> submits_objects req ->
  exists r ctx' p', serve_request v6 fs debug_list env tls startup_auth req ctx p = Some (r, ctx', p') /\ config_sound ctx'.
Proof.
  intros Hc Hs. unfold serve_request. destruct (guard_sessions_only env tls (expected_auth startup_auth ctx) req ctx) as [s Eg].
  destruct (auth_guard _ _ _ _ _) as [[r|] ctx1]; cbn [snd] in Eg; subst ctx1; apply (sound_sessions ctx s) in Hc; [by eexists _, _, _|].
  unfold route. destruct (rq_method req).
  - destruct (asset _) as [[]|]; [by eexists _, _, _|]. destruct (route_get_sound env (url_path req) req _ p Hc) as (r & c & -> & Hr). by eexists _, _, _.
  - destruct (is_mode _ _); [destruct (post_config_sound env req _ Hc Hs) as (r & c & -> & Hr); by eexists _, _, _|].
    destruct (is_mode _ _); [by apply post_control_sound|by eexists _, _, _].
  - by eexists _, _, _.
Qed.

(** A sequence of requests, each with what the environment answers. *)
Fixpoint serve_all (tls : bool) (startup_auth : text) (reqs : list (Env * Request)) (ctx : RuntimeCtx) (p : P) : option (RuntimeCtx * P) :=
  match reqs with
  | [] => Some (ctx, p)
  | (env, req) :: reqs => '(_, ctx, p) ← serve_request v6 fs debug_list env tls startup_auth req ctx p; serve_all tls startup_auth reqs ctx p
  end.

(** C24: The interface never leaves a configuration behind that the next start refuses.
    From an accepted configuration, whatever requests arrive in whatever order, with
    documents that are objects, every one is answered without a panic, and the
    configuration in memory and the file last written are accepted by the loader and the
    validator. *)
Theorem served_config_stays_valid tls startup_auth reqs ctx (p : P) :
  config_sound ctx -> Forall (fun r => submits_objects r.2) reqs ->
  exists ctx' p', serve_all tls startup_auth reqs ctx p = Some (ctx', p') /\
    accepted (rx_source_config ctx') /\ (forall v, rx_file ctx' = Some v -> accepted v).
Proof.
  intros Hc Hr. assert (Hall : exists ctx' p', serve_all tls startup_auth reqs ctx p = Some (ctx', p') /\ config_sound ctx').
  { revert ctx p Hc. induction Hr as [|[env req] reqs Hq _ IH]; intros ctx p Hc; [by eexists _, _|]. cbn [serve_all].
    destruct (serve_sound env tls startup_auth req ctx p Hc Hq) as (r & c & p' & -> & Hc'). cbn [mbind option_bind]. by apply IH. }
  destruct Hall as (ctx' & p' & E & (_ & Ha & Hf)). exists ctx', p'. split_and!; [done|done|]. intros v Hv. destruct Hf as [Hf|Hf]; [congruence|].
  rewrite Hf in Hv. by injection Hv as <-.
Qed.

(** The changed paths that take effect at once. *)
Definition live_fields : list text := word <$> ["log_level"; "pad_mode"; "traffic_days"; "traffic_file"]%string.
Lemma apply_fields_needs env args fields (p : P) needs :
  (foldl (apply_field env args) (p, needs) fields).2 = needs ++ filter (fun f => f ∉ live_fields) fields.
Proof.
  revert p needs. induction fields as [|f fields IH]; intros p needs; [by rewrite app_nil_r|]. cbn [foldl]. rewrite filter_cons.
  assert (Hl : f ∈ live_fields <-> f = word "log_level" \/ f = word "pad_mode" \/ f = word "traffic_days" \/ f = word "traffic_file").
  { unfold live_fields. cbn [fmap list_fmap]. rewrite !elem_of_cons. split; [|tauto]. intros [|[|[|[|E]]]]; try tauto. by apply not_elem_of_nil in E. }
  unfold apply_field. destruct (is_mode f "log_level") eqn:E1.
  { apply is_mode_spec in E1. rewrite decide_False by (rewrite Hl; tauto). apply IH. }
  destruct (is_mode f "pad_mode") eqn:E2.
  { apply is_mode_spec in E2. rewrite decide_False by (rewrite Hl; tauto). apply IH. }
  destruct (one_of f _) eqn:E3.
  { apply one_of_spec in E3 as (w & [<-|[<-|[]]] & E3); rewrite decide_False by (rewrite Hl; tauto); apply IH. }
  apply bool_decide_eq_false in E1, E2. rewrite decide_True; [rewrite IH; by rewrite <-app_assoc|]. rewrite Hl. intros [|[|[|]]]; try done;
    subst f; vm_compute in E3; discriminate.
Qed.

(** Applying a configuration reports what a restart is needed for: the changed paths
    other than log level, padding mode and the traffic window, which take effect at
    once. *)
Theorem apply_reports_restart env action v ctx (p : P) r ctx' p' :
  save_config v6 fs debug_list env true action v ctx p = Some (r, ctx', p') -> rp_status r = 200 ->
  rx_needs_restart ctx' = filter (fun f => f ∉ live_fields) (diff_paths (rx_source_config ctx) (rx_source_config ctx')) /\
  rp_body r = BJson (VObject [(word "needs_restart", texts_json (rx_needs_restart ctx')); (word "status", VString (word "ok"))]).
Proof.
  unfold save_config. destruct (merge_preserving_secrets _ _) as [merged|]; [|done]. cbn [mbind option_bind].
  destruct (validate_config_value _ _ _ _) as [args|e]; [|by intros [= <- _ _]]. destruct (en_write env); [|by intros [= <- _ _]].
  pose proof (apply_fields_needs env args (diff_paths (rx_source_config ctx) merged) p []) as E. destruct (foldl _ _ _) as [p1 needs]. cbn [snd app] in E.
  intros [= <- <- <-] _. cbn [with_events with_config with_applied rx_needs_restart rx_source_config]. by rewrite E.
Qed.
End saving.

(** ** Examples *)

Definition toy_decoders : Decoders := {|
  parse_value s := if is_mode s "array" then Some (VArray []) else if is_mode s "config" then Some (client_doc true None) else None;
  parse_login s := if is_mode s "login" then Some (word "admin", word "pw") else None;
  parse_control s :=
    let save a c := Some {| cq_action := word a; cq_client_id := []; cq_level := []; cq_ttl_minutes := 0; cq_config := Some c |} in
    if is_mode s "apply" then save "save_apply"%string (client_doc true (Some "any"%string))
    else if is_mode s "save" then save "save"%string (client_doc true (Some "any"%string)) else None;
  base64_decode s := None |}.
#[local] Existing Instance toy_decoders.
Definition toy_provider : Provider (Z * Globals) := client_provider (VObject []) [].
#[local] Existing Instance toy_provider.
Definition toy_globals : Z * Globals := (0, {| gl_log_level := word "info"; gl_pad := PAD_BUCKET |}).
Definition toy_env : Env := {|
  en_now := 0; en_unix := 0; en_random := Some (replicate 32 7); en_write := Ok tt; en_clock := []; en_tmp := word "/etc/x.json"; en_brutal_status := VNull |}.
Definition toy_ctx : RuntimeCtx := {|
  rx_cfg := VObject []; rx_system := VObject []; rx_source_config := client_doc true None; rx_needs_restart := []; rx_sessions := ∅;
  rx_events := hub_new; rx_traffic := traffic_new (VObject []) [] [] [] 0 [] []; rx_file := None; rx_trend _ := VNull; rx_logs _ := VNull |}.
Definition toy_request (method : Method) (url body : string) (headers : list (text * text)) : Request := {|
  rq_method := method; rq_url := word url; rq_headers := headers; rq_body_length := Some 5; rq_body := Some (word body) |}.
Definition CSRF : list (text * text) := [(word "X-Requested-With", word "tlsvpn")].
Definition toy_serve (auth : string) (req : Request) (ctx : RuntimeCtx) :=
  serve_request demo_v6 demo_fs (fun _ => []) toy_env true (word auth) req ctx toy_globals.

(** A document that is not an object panics while the secrets are merged, which ends the
    process in a release build. *)
Example array_config_panics : toy_serve "" (toy_request Post "/api/config" "array" []) toy_ctx = None.
Proof. vm_compute. reflexivity. Qed.
(** Saving a configuration through its own address needs no CSRF header. *)
Example config_post_needs_no_csrf :
  ((fun r => rp_status r.1.1) <$> toy_serve "" (toy_request Post "/api/config" "config" []) toy_ctx) = Some 200 /\
  ((fun r => rp_status r.1.1) <$> toy_serve "" (toy_request Post "/api/control" "save" []) toy_ctx) = Some 403.
Proof. vm_compute. done. Qed.
(** Saving again forgets which changes still need a restart. *)
Example second_save_forgets_restart :
  exists r1 ctx1 p1, toy_serve "" (toy_request Post "/api/control" "apply" CSRF) toy_ctx = Some (r1, ctx1, p1) /\
    rx_needs_restart ctx1 = [word "min_enc"] /\
    exists r2 ctx2 p2, toy_serve "" (toy_request Post "/api/control" "save" CSRF) ctx1 = Some (r2, ctx2, p2) /\ rx_needs_restart ctx2 = [].
Proof. eexists _, _, _. split; [vm_compute; reflexivity|]. split; [reflexivity|]. eexists _, _, _. split; [vm_compute; reflexivity|reflexivity]. Qed.

Lemma unauthenticated_has_no_effect_witness :
  exists reply s, harmless reply /\ toy_serve "admin:pw" (toy_request Get "/api/stats" "" []) toy_ctx = Some (reply, with_sessions toy_ctx s, toy_globals).
Proof.
  destruct (unauthenticated_has_no_effect demo_v6 demo_fs (fun _ => []) toy_env true (word "admin:pw") (toy_request Get "/api/stats" "" []) toy_ctx) as (reply & s & Hh & _ & Hs).
  - vm_compute. discriminate.
  - split; [reflexivity|]. intros u pw E. exfalso. revert E. vm_compute. discriminate.
  - exists reply, s. split; [exact Hh|]. exact (Hs toy_ctx toy_globals eq_refl eq_refl).
Defined.
Lemma login_opens_dashboard_witness :
  exists reply ctx' token, handle_login toy_env true (word "admin:pw") (toy_request Post "/api/login" "login" []) toy_ctx = (reply, ctx') /\
    rp_cookie reply = Some (dashboard_cookie token true false) /\
    (dashboard_authenticated 5 (rx_sessions ctx') (toy_request Get "/" "" [(word "Cookie", word "tlsvpn_session=" ++ token)]) (word "admin:pw")).1 = true.
Proof.
  edestruct (login_opens_dashboard toy_env true (word "admin:pw") (toy_request Post "/api/login" "login" []) toy_ctx) as (token & Ht & H);
    [discriminate|reflexivity|by apply (Forall_replicate is_byte 32)|discriminate|reflexivity|reflexivity|].
  eexists _, _, token. split; [reflexivity|]. split; [exact Ht|].
  apply (H (toy_request Get "/" "" [(word "Cookie", word "tlsvpn_session=" ++ token)]) 5); reflexivity.
Defined.
Lemma served_config_stays_valid_witness :
  exists ctx' p', serve_all demo_v6 demo_fs (fun _ => []) true [] [(toy_env, toy_request Post "/api/control" "apply" CSRF)] toy_ctx toy_globals = Some (ctx', p') /\
    accepted demo_v6 demo_fs (rx_source_config ctx').
Proof.
  destruct (served_config_stays_valid demo_v6 demo_fs (fun _ => []) true [] [(toy_env, toy_request Post "/api/control" "apply" CSRF)] toy_ctx toy_globals) as (ctx' & p' & E & Ha & _).
  - split; [reflexivity|]. split; [|by left]. eexists. vm_compute. reflexivity.
  - constructor; [|constructor]. intros body [= <-]. split; [intros v E; vm_compute in E; discriminate|].
    intros c v E Ev. vm_compute in E. injection E as <-. cbn in Ev. injection Ev as <-. reflexivity.
  - exists ctx', p'. split; [exact E|exact Ha].
Defined.
